(* ===== verification/_CoqProject ===== *)
-Q . S2P
Prelude.v
PyDict.v
Hoare.v
PyDecimal.v
PyFloat.v
Dedup.v
RetryQueue.v
ObjectStore.v
NasUploader.v
NasKey.v
Promotion.v
DualWriter.v
OrderbookReplay.v
Wal.v
PyTime.v
Ndjson.v
DecimalText.v
Aggregation.v
Invariants.v
Cutover.v
Backfill.v
Retention.v
IngestBlocker.v
Collector.v
Rekey.v
Parquet.v
L1Rows.v
Compactor.v
L1.v
Discovery.v
Runner.v
Historical.v
Barrier.v
UnreachableSop.v
Window.v
Clock.v
ReaderCache.v
DrMode.v
EndpointRouter.v
Readers.v
Reconciliation.v
BatchWriters.v
MetadataHash.v
Policy.v
CandleStore.v
BackfillCommand.v
TransactionTier.v
LruCache.v
Health.v
RealtimeStream.v
HttpApi.v
PaperApi.v
Heartbeat.v
QuarantineStore.v
Contract.v
Manifest.v
SnapshotScan.v
Coverage.v
MetadataPoller.v
Supervisor.v
