(* ===== verification/Prelude.v ===== *)
(** * A verification of mctrader-data

    mctrader-data collects market data (trades, order books) on several nodes,
    writes it to a local write-ahead log, compacts the log into Parquet tiers
    and mirrors the tiers to an S3-compatible store (the NAS).  This library
    models the parts of it that decide which data is kept, where it is, and
    what a reader is shown, and proves what they promise.  File names below
    are relative to [src/mctrader_data/] of the repository.

    ** Parts and how they interact

    Collecting.

    - [MultiSymbolCollector] runs one daemon a symbol with restarts and helper
      tasks ([collector.py], file [Supervisor]).  A daemon takes the events of
      one exchange stream ([collector.py], file [Collector]).  Unless the local
      disk or the store is full ([capacity_probe.py], [ingest_blocker.py], file
      [IngestBlocker]) it appends each one, as a line of JSON
      ([wal/ndjson_codec.py], file [Ndjson]), to the log of its channel
      ([wal/ingester.py]); full segments are sealed ([wal/segment.py], file
      [Wal]).  A node reports itself by a heartbeat file, a probe and coverage
      statistics ([heartbeat.py], [health_server.py], [coverage_stats.py], file
      [Heartbeat]) and leaves a manifest a run ([manifest.py], [diagnostic.py],
      file [Manifest]).
    - Beside the log, buffered writers keep ticks, order books, snapshots and
      exchange metadata as Parquet files of a day ([tick_storage.py],
      [orderbook_storage.py], [orderbook_snapshot_storage.py],
      [metadata_storage.py], file [BatchWriters]; the hash of metadata is file
      [MetadataHash], its daily poller file [MetadataPoller]).  A backfill
      command fetches candles, checks them and stores them
      ([cli.py], [policy.py], [cutoff.py], [allowlist.py], [storage.py]: files
      [BackfillCommand], [Policy], [CandleStore]).

    Compacting, over the virtual disk and the Parquet interface of file
    [Parquet].

    - The runner ([compactor/runner.py], files [Discovery] and [Runner]) turns
      sealed segments into L1 files ([compactor/l1.py], files [L1Rows] for the
      rows and [L1] for the files), merges L1 into L2 and L2 into L3
      ([compactor/l2.py], [compactor/l3.py], file [Compactor]), keeps the
      transaction tier ([compactor/transaction_tier.py],
      [compactor/schema_upgrade.py], file [TransactionTier]) and deletes
      compacted segments after a grace period ([compactor/gc.py],
      [compactor/gc_daemon.py], file [Retention]).  Segments and files of
      earlier times are compacted and reclaimed by
      [compactor/backfill.py] and [compactor/historical_reclaim.py] (file
      [Historical]).

    Storing, over the object store of file [ObjectStore].

    - A Parquet file gets an object key from its path ([nas_storage/nas_key.py],
      file [NasKey]) and is written twice, to the local disk and to the NAS
      ([nas_storage/dual_writer.py], file [DualWriter]).  The upload is
      idempotent by content digest, fails fast on permanent errors and
      otherwise puts the content on a persistent retry queue
      ([nas_storage/nas_uploader.py], file [NasUploader]).  The queue is
      bounded, demotes its oldest rows under pressure and is drained through
      the uploader ([nas_storage/retry_queue.py], file [RetryQueue]); what a
      drain needs of an uploader is the class [Uploader], whose instance is in
      [NasUploader].  After an upload the local source may be deleted, once a
      HEAD shows the same digest and length ([compactor/promotion.py], file
      [Promotion]).
    - A barrier stops uploads for a compaction
      ([nas_storage/compaction_barrier.py], file [Barrier]), a procedure
      handles an unreachable store ([ops/nas_unreachable_sop.py], file
      [UnreachableSop]), and a runner drives the weeks of dual writing
      ([ops/dual_write_window_runner.py], file [Window]).
    - The files of the time before the dual write are migrated: a backfill
      uploads and checks them chunk by chunk
      ([nas_migration/backfill_orchestrator.py], file [Backfill]), a harness
      compares files and objects ([nas_migration/invariant_harness.py], file
      [Invariants]), keys are renamed ([nas_migration/rekey.py], file
      [Rekey]), the cutover is verified and the local files are collected
      ([nas_migration/cutover_verifier.py], [nas_migration/gc_runner.py], file
      [Cutover]).

    Reading.

    - Tiered readers ask the store through a cache with a time limit, a circuit
      breaker and a router between endpoints, and fall back to the disk
      ([io/]: files [Readers], [ReaderCache], [DrMode], [EndpointRouter]; the
      compactor's own cache is file [LruCache]).
    - Readers merge the rows of the nodes: deduplication ([dedup.py], file
      [Dedup]), whose conflicting rows several processes persist
      (file [QuarantineStore]); forward-only scans, order-book
      reconstruction and the coverage report ([orderbook_replay.py], files
      [OrderbookReplay], [SnapshotScan], [Coverage]); information bars
      ([aggregation/], files [Aggregation] and [Contract]).
    - The HTTP service serves snapshots and candles ([api/routes_v1.py], file
      [HttpApi]), takes paper results ([paper_storage.py], file [PaperApi])
      and publishes live ticks ([api/realtime_stream.py], file
      [RealtimeStream]).
    - Reconciliation compares hot with cold data and old with new pipelines
      ([reconciliation/], file [Reconciliation]); a report measures the health
      of a data root ([health/], file [Health]).

    ** How the code is modelled

    Python procedures are functions in a state and exception monad ([proc],
    below): they return a new world also when they raise, so partial effects of
    a failing call are kept.  Exceptions are values of [exn]; an exception the
    model gives no constructor of its own is [OtherException].  A dict whose
    order or keys matter is an insertion-ordered dictionary (file [PyDict]), a
    [Decimal] is a coefficient and an exponent with the rounding of the default
    28-digit context (file [PyDecimal]; its text is file [DecimalText]), a
    float is a binary64 of the standard library (file [PyFloat], with the
    sequence number of a snapshot, which goes through one); dates and
    their ISO text are file [PyTime]; times are integers (microseconds since the
    epoch, nanoseconds for a monotonic clock) and clock readings are arguments
    (file [Clock] orders a list of them).  Loops over worlds share the rules of
    file [Hoare].  The object store and boto3 are a class of operations with
    the laws S3 documents ([S3Laws], [ObjectStore]); [mem_s3] is a concrete
    store with a script of failures at which the witnesses evaluate.  Parquet
    is the class [Parquet] with [ParquetLaws] (a written file reads back), at
    which [countable_parquet] and [ascii_parquet] are concrete formats.  Hashes,
    third-party constructors and the JSON of pydantic are parameters.  Where
    processes or tasks interleave, a system call or an event is a step
    ([QuarantineStore], [RealtimeStream], [Supervisor], [Heartbeat]).

    Recursion is structural in the modelled operations but for these, which
    count down fuel: the digit counts of [PyDecimal], with the binary logarithm
    of the number ([ndigits_pos_bounds] shows it is enough), and its stripping
    of trailing zeros, with the number of places to strip or that logarithm; the
    JSON decoder of [Ndjson], with twice the length of the line and two
    ([decode_terminates] shows that it never runs out); and the wait loop of
    [Barrier], whose fuel is any number of rounds that covers the timeout
    ([drain_and_block_contract] shows that it suffices).

    ** What is shown

    - Data is not lost: supervision isolates the symbols from each other and
      from the helper tasks, and ends in order ([Supervisor]); a session of
      the collector stores exactly the admitted events of a prefix of its
      stream ([Collector]); a record reads back from its line ([Ndjson]);
      the log keeps every accepted line in order and loses at most the
      configured window in a crash ([Wal]); logged events become rows, and a
      segment is marked only when its rows are stored ([L1Rows], [L1]); a merge
      keeps the rows of the hour, and no others unless its inputs hold them
      ([Compactor]); only expired segments are deleted ([Retention]), and only
      promoted files reclaimed ([Historical]);
      the buffered writers keep every record ([BatchWriters]) and what a
      snapshot writer recorded is what the replay starts from
      ([SnapshotScan]); the history of the metadata poller can be read at any
      point in time ([MetadataPoller]).
    - The copies agree: the retry queue stays within its bounds, drops nothing
      and removes a row only when its content is stored ([RetryQueue]); an
      upload never replaces an object that carries a digest, and its status
      tells where the content is ([NasUploader]); the dual write and the
      promotion delete a file only as a verified copy ([DualWriter],
      [Promotion]).
    - Migration: a backfill keeps files and verified rows, a passed harness
      means identical replicas, renaming keys loses no object, and the local
      collector deletes only behind three pieces of evidence ([Backfill],
      [Invariants], [Rekey], [Cutover]).
    - Operation: the blocker's answers are those of a latch with hysteresis
      ([IngestBlocker]); the barrier drains or gives up, the procedure follows
      the outages, the breaker follows its history ([Barrier],
      [UnreachableSop], [Window], [DrMode]); a node clears away stale
      heartbeats of others, and its own is that of the last write that
      succeeded ([Heartbeat]); manifests follow the history of
      runs, and ids and hashed texts determine what they stand for
      ([Manifest], [Contract], [MetadataHash]).
    - Names: an object key determines the path ([NasKey]); segment names parse
      back ([Wal]).
    - Readers: the caches answer as a reference map ([ReaderCache],
      [LruCache]); the tiered read answers from the tier it should
      ([Readers]); deduplication accounts for every row, the quarantine
      limiter loses none ([Dedup]) and concurrent artifacts are append-only
      ([QuarantineStore]); scans show exactly the rows available at
      the simulated time, reconstructed books are well formed, equal the
      last-write-wins reference and fail closed on gaps ([OrderbookReplay]);
      bars are those of a reference partition of the ticks, and scaled
      integers are exact up to 28 digits ([Aggregation]); the service answers
      what its contract says and accounts for every tick ([HttpApi],
      [RealtimeStream]); the reports name what is stored ([Coverage],
      [Health]), and two streams of bars are compared exactly as long as they
      repeat no key ([Reconciliation]).
    - Where the code does not do what it documents, a theorem or an evaluated
      example shows it; among them are
      [stream_error_loses_stored_events],
      [fifo_lost_across_clock_restart],
      [baseline_may_be_in_the_future],
      [late_tick_enters_later_window], [to_scaled_rounds_silently],
      [backfill_never_verifies], [run_gc_ignores_archive_failure],
      [force_is_permanent], [dry_run_disarms_live_run],
      [two_hours_block_the_day], [failed_closing_survives_cancellation],
      [baseline_seq_off_by_one], [earlier_bar_is_not_compared], [integral_decimal_becomes_int],
      [healthy_store_stops_compaction], [torn_line_blocks_segment],
      [quarantined_rows_are_reclaimed], [timeout_leaves_signal],
      [crashed_cycle_reports_healthy], [expiry_leaks_bytes],
      [inner_hit_counts_as_failure], [missing_objects_open_breaker],
      [repeated_bars_hide_drift], [reopened_day_is_lost],
      [midnight_record_is_misfiled], [unfit_record_blocks_writer],
      [refetch_is_quarantined], [corrected_value_is_dropped],
      [overlapping_snapshots_repeat], [historical_mode_is_unreadable],
      [gap_skips_the_rest], [quarantine_file_is_overwritten],
      [window_is_ignored], [silent_exchange_passes],
      [local_queue_is_never_sent], [paper_post_never_writes],
      [one_request_stops_the_service], [mkdir_failure_ends_the_loop],
      [todays_metadata_is_unreadable],
      [one_huge_value_stops_the_poller],
      [naive_manifest_fails_the_report], [collectors_share_a_run_id],
      [bar_in_a_field_collides].

    ** What is not modelled

    Pure input and output: Parquet, SQLite and HTTP transport, DuckDB and Polars
    queries ([cold/], [duckdb_reader.py]), Prometheus metrics
    ([nas_metrics/prometheus_exporters.py], [metrics.py]) and log lines, the
    construction of the HTTP application ([api/app.py], [api/deps.py]), the
    renderings of reports.  Latencies, and thread interleavings inside one
    object, each of which is serialised by its lock.  The commands of [cli.py]
    that parse arguments and start a part modelled elsewhere, the choice of the
    symbols with the largest volume, the re-exports kept for old imports
    ([paper_lineage.py]), the deprecated [compactor/minio_uploader.py], the
    write and read of one JSON file ([risk_snapshot.py]), the fixtures of
    [reconciliation/edge_case_fixtures.py], and the operator scripts under
    [scripts/] and [tools/] of the repository, which run beside the system. *)
From stdpp Require Export base tactics option list gmap strings sorting.
From Stdlib Require Export ZArith Lia.

(** ** Results of Python calls

    [exn] lists the exception classes the modelled modules raise or catch;
    [res A] is a call that returned ([Ok]) or raised ([Raise]). *)

Inductive exn :=
| ValueError
| TypeError
| KeyError
| RuntimeError
| NotImplementedError
| AssertionError
| FileNotFoundError
| FileExistsError
| OSErrorOther
| ClientError (code : string)
| EndpointConnectionError
| ConditionalWriteConflict
| NASOperationalAlert (code reason : string)
| PromotionVerifyError
| GapDetectedError
| ReconstructionError
| WalBufferOverflowError
| OtherException (name : string).

Inductive res (A : Type) :=
| Ok (a : A)
| Raise (e : exn).

Arguments Ok {A} a.
Arguments Raise {A} e.

(** [except OSError] also catches its subclasses. *)
Definition is_OSError (e : exn) : bool :=
  match e with
  | FileNotFoundError | FileExistsError | OSErrorOther => true
  | _ => false
  end.

Definition res_is_ok {A} (r : res A) : bool :=
  match r with Ok _ => true | Raise _ => false end.

(** ** A state and exception monad

    A Python procedure that reads and writes a world [W]: it always leaves a
    world behind, also when it raises. *)

Definition proc (W A : Type) : Type := W → W * res A.

Definition pret {W A} (a : A) : proc W A := λ w, (w, Ok a).
Definition praise {W A} (e : exn) : proc W A := λ w, (w, Raise e).
Definition pbind {W A B} (m : proc W A) (k : A → proc W B) : proc W B :=
  λ w, match m w with
       | (w', Ok a) => k a w'
       | (w', Raise e) => (w', Raise e)
       end.
Definition pget {W} : proc W W := λ w, (w, Ok w).
Definition pput {W} (w' : W) : proc W unit := λ _, (w', Ok tt).
Definition pmodify {W} (f : W → W) : proc W unit := λ w, (f w, Ok tt).
Definition plift {W A} (r : res A) : proc W A := λ w, (w, r).
(** [try: m except e: h e]; the handler re-raises what it does not catch. *)
Definition pcatch {W A} (m : proc W A) (h : exn → proc W A) : proc W A :=
  λ w, match m w with
       | (w', Ok a) => (w', Ok a)
       | (w', Raise e) => h e w'
       end.

(** [for x in xs: ...], collecting what the body yields. *)
Fixpoint pmap {W A B} (f : A → proc W B) (l : list A) : proc W (list B) :=
  match l with
  | [] => pret []
  | x :: l => pbind (f x) (λ y, pbind (pmap f l) (λ ys, pret (y :: ys)))
  end.

Declare Scope py_scope.
Delimit Scope py_scope with py.
Notation "'let!' x ':=' m 'in' k" := (pbind m (λ x, k))
  (at level 10, x name, m at level 100, k at level 200,
   format "'let!'  x  ':='  m  'in' '//' k") : py_scope.
Notation "m ';!' k" := (pbind m (λ _, k))
  (at level 100, right associativity) : py_scope.

Definition rbind {A B} (r : res A) (k : A → res B) : res B :=
  match r with Ok a => k a | Raise e => Raise e end.
Notation "'let?' x ':=' m 'in' k" := (rbind m (λ x, k))
  (at level 10, x name, m at level 100, k at level 200,
   format "'let?'  x  ':='  m  'in' '//' k") : py_scope.

Lemma rbind_Ok {A B} (m : res A) (f : A → res B) b : rbind m f = Ok b → ∃ a, m = Ok a ∧ f a = Ok b.
Proof. destruct m; simpl; [eauto|done]. Qed.

Lemma Ok_inj {A} (a b : A) : Ok a = Ok b → a = b.
Proof. by intros [= ->]. Qed.

(** A Python [bytes] value: a string of 8-bit characters. *)
Notation bytes := string (only parsing).

(** [len(b)] *)
Definition blen (b : bytes) : Z := Z.of_nat (String.length b).

(** ** Stable sorting

    Python's [sorted(xs, key=...)]: [leb a b] is [key a <= key b]. *)

Section stable_sort.
Context {A : Type} (leb : A → A → bool).

Fixpoint insert_sorted (x : A) (l : list A) : list A :=
  match l with
  | [] => [x]
  | y :: l' => if leb x y then x :: y :: l' else y :: insert_sorted x l'
  end.

Definition sort_le (l : list A) : list A := foldr insert_sorted [] l.
End stable_sort.

(** [sorted(xs, key=f)] for an integer key. *)
Definition sorted_by {A} (f : A → Z) : list A → list A :=
  sort_le (λ a b, f a <=? f b)%Z.

(** ** Automation *)

Create HintDb py.

(** Break every [match] and [if] on a value of the context or the goal. *)
Ltac py_case :=
  match goal with
  | |- context [if ?b then _ else _] =>
      lazymatch b with context [if _ then _ else _] => fail | _ => destruct b eqn:? end
  | |- context [match ?x with _ => _ end] =>
      lazymatch x with
      | context [match _ with _ => _ end] => fail
      | _ => destruct x eqn:?
      end
  end.

Ltac py_case_in H :=
  match type of H with
  | context [if ?b then _ else _] =>
      lazymatch b with context [if _ then _ else _] => fail | _ => destruct b eqn:? end
  | context [match ?x with _ => _ end] =>
      lazymatch x with
      | context [match _ with _ => _ end] => fail
      | _ => destruct x eqn:?
      end
  end.

(** Turn the boolean tests of the code into the propositions they decide. *)
Ltac py_bool :=
  repeat match goal with
  | H : (_ <=? _)%Z = true |- _ => apply Z.leb_le in H
  | H : (_ <=? _)%Z = false |- _ => apply Z.leb_gt in H
  | H : (_ <? _)%Z = true |- _ => apply Z.ltb_lt in H
  | H : (_ <? _)%Z = false |- _ => apply Z.ltb_ge in H
  | H : (_ =? _)%Z = true |- _ => apply Z.eqb_eq in H
  | H : (_ =? _)%Z = false |- _ => apply Z.eqb_neq in H
  | H : (_ <=? _)%nat = true |- _ => apply Nat.leb_le in H
  | H : (_ <=? _)%nat = false |- _ => apply Nat.leb_gt in H
  | H : (_ <? _)%nat = true |- _ => apply Nat.ltb_lt in H
  | H : (_ <? _)%nat = false |- _ => apply Nat.ltb_ge in H
  | H : (_ =? _)%nat = true |- _ => apply Nat.eqb_eq in H
  | H : (_ =? _)%nat = false |- _ => apply Nat.eqb_neq in H
  | H : (_ && _) = true |- _ => apply andb_true_iff in H; destruct H
  | H : (_ || _) = false |- _ => apply orb_false_iff in H; destruct H
  | H : negb _ = true |- _ => apply negb_true_iff in H
  | H : negb _ = false |- _ => apply negb_false_iff in H
  | H : bool_decide _ = true |- _ => apply bool_decide_eq_true in H
  | H : bool_decide _ = false |- _ => apply bool_decide_eq_false in H
  end.

(** ** Lemmas on lists *)

Lemma filter_filter_and {A} (p q : A → bool) (l : list A) :
  List.filter p (List.filter q l) = List.filter (λ x, q x && p x) l.
Proof.
  induction l as [|x l IH]; simpl; [done|].
  destruct (q x) eqn:Hq; simpl; rewrite IH; done.
Qed.

Lemma filter_none {A} (p : A → bool) (l : list A) :
  (∀ x, x ∈ l → p x = false) → List.filter p l = [].
Proof.
  induction l as [|x l IH]; simpl; intros Hp; [done|].
  rewrite (Hp x) by (by left). apply IH. intros. apply Hp. by right.
Qed.

Lemma filter_all {A} (p : A → bool) (l : list A) :
  (∀ x, x ∈ l → p x = true) → List.filter p l = l.
Proof.
  induction l as [|x l IH]; simpl; intros Hp; [done|].
  rewrite (Hp x) by (by left). f_equal. apply IH. intros. apply Hp. by right.
Qed.

(** ** Lemmas on strings *)

#[local] Arguments String.append !_ _ / : simpl nomatch.

Lemma string_app_length (s t : string) :
  String.length (s +:+ t) = (String.length s + String.length t)%nat.
Proof. induction s as [|c s IH]; simpl; [done|]. by rewrite IH. Qed.

Lemma string_app_assoc (s t u : string) : (s +:+ t) +:+ u = s +:+ (t +:+ u).
Proof. induction s as [|c s IH]; simpl; [done|]. by rewrite IH. Qed.

Lemma string_app_nil_r (s : string) : s +:+ "" = s.
Proof. induction s as [|c s IH]; simpl; [done|]. by rewrite IH. Qed.

Lemma string_app_inj_r (s s' t : string) : s +:+ t = s' +:+ t → s = s'.
Proof.
  revert s'. induction s as [|c s IH]; intros [|c' s'] Heq; [done| | |].
  - apply (f_equal String.length) in Heq. rewrite !string_app_length in Heq. simpl in Heq. lia.
  - apply (f_equal String.length) in Heq. rewrite !string_app_length in Heq. simpl in Heq. lia.
  - simpl in Heq. injection Heq as -> Heq. by rewrite (IH s').
Qed.

Lemma string_app_inj_len (s t x y : string) :
  String.length s = String.length t → s +:+ x = t +:+ y → s = t ∧ x = y.
Proof.
  revert t. induction s as [|a s IH]; intros [|b t]; simpl; try done.
  intros [= Hl] [= -> Heq]. destruct (IH _ Hl Heq) as [-> ->]. done.
Qed.

(** ** Lemmas on stable sorting *)

(** Filtering a list of lists part by part *)
Lemma filter_concat {A} (p : A → bool) (ls : list (list A)) : List.filter p (concat ls) = concat (List.filter p <$> ls).
Proof. induction ls as [|l ls IH]; [done|]. cbn. by rewrite List.filter_app, IH. Qed.
Lemma forallb_concat {A} (p : A → bool) (ls : list (list A)) : Forall (λ l, forallb p l = true) ls → forallb p (concat ls) = true.
Proof. induction 1 as [|l ls Hl _ IH]; [done|]. cbn. by rewrite forallb_app, Hl, IH. Qed.

Section stable_sort_lemmas.
Context {A : Type} (leb : A → A → bool).

Lemma insert_sorted_perm x l : insert_sorted leb x l ≡ₚ x :: l.
Proof.
  induction l as [|y l IH]; simpl; [done|].
  destruct (leb x y); [done|]. rewrite IH. apply Permutation_swap.
Qed.

Lemma sort_le_perm l : sort_le leb l ≡ₚ l.
Proof.
  induction l as [|x l IH]; simpl; [done|].
  rewrite insert_sorted_perm. by rewrite IH.
Qed.

Lemma sort_le_length l : length (sort_le leb l) = length l.
Proof. by rewrite sort_le_perm. Qed.

Lemma insert_sorted_elem x y l : y ∈ insert_sorted leb x l ↔ y = x ∨ y ∈ l.
Proof. rewrite insert_sorted_perm. apply elem_of_cons. Qed.

Context (leb_total : ∀ a b, leb a b = true ∨ leb b a = true).
Context (leb_trans : ∀ a b c, leb a b = true → leb b c = true → leb a c = true).

Lemma insert_sorted_sorted x l :
  StronglySorted (λ a b, leb a b = true) l →
  StronglySorted (λ a b, leb a b = true) (insert_sorted leb x l).
Proof.
  induction 1 as [|y l Hs IH Hall]; simpl; [repeat constructor|].
  destruct (leb x y) eqn:E.
  - constructor; [by constructor|]. constructor; [done|].
    eapply Forall_impl; [exact Hall|]. intros z Hz; eauto.
  - constructor; [done|]. apply Forall_forall. intros z Hz.
    apply insert_sorted_elem in Hz as [->|Hz].
    + destruct (leb_total x y); congruence.
    + by eapply Forall_forall in Hall.
Qed.

Lemma sort_le_sorted l : StronglySorted (λ a b, leb a b = true) (sort_le leb l).
Proof. induction l; simpl; [constructor|]. by apply insert_sorted_sorted. Qed.

Lemma sort_le_id l : StronglySorted (λ a b, leb a b = true) l → sort_le leb l = l.
Proof.
  induction 1 as [|x l Hs IH Hall]; simpl; [done|]. rewrite IH.
  destruct l as [|y l]; simpl; [done|].
  by apply Forall_cons in Hall as [-> _].
Qed.

(** Stability: the elements of one key class keep their order. *)
Lemma insert_sorted_filter (P : A → bool) x l :
  (∀ y, P x = true → P y = true → leb x y = true) →
  List.filter P (insert_sorted leb x l) = List.filter P (x :: l).
Proof.
  intros HP. induction l as [|y l IH]; simpl in *; [done|].
  destruct (leb x y) eqn:E; simpl; [done|].
  rewrite IH. destruct (P x) eqn:Px; [|done].
  destruct (P y) eqn:Py; [|done]. rewrite (HP y eq_refl Py) in E. done.
Qed.

Lemma sort_le_stable (P : A → bool) l :
  (∀ x y, P x = true → P y = true → leb x y = true) →
  List.filter P (sort_le leb l) = List.filter P l.
Proof.
  intros HP. induction l as [|x l IH]; simpl; [done|].
  rewrite insert_sorted_filter by (intros; by apply HP). simpl. by rewrite IH.
Qed.
End stable_sort_lemmas.

Section sorted_by_lemmas.
Context {A : Type} (f : A → Z).

Lemma sorted_by_perm l : sorted_by f l ≡ₚ l.
Proof. apply sort_le_perm. Qed.

Lemma sorted_by_length l : length (sorted_by f l) = length l.
Proof. apply sort_le_length. Qed.

Lemma sorted_by_sorted l : StronglySorted (λ a b, (f a ≤ f b)%Z) (sorted_by f l).
Proof.
  assert (StronglySorted (λ a b, (f a <=? f b)%Z = true) (sorted_by f l)) as Hs.
  { apply sort_le_sorted; intros *; rewrite ?Z.leb_le; lia. }
  induction Hs as [|x l' Hs IH Hall]; constructor; [done|].
  eapply Forall_impl; [exact Hall|]. intros y Hy. by apply Z.leb_le.
Qed.

Lemma sorted_by_stable (k : Z) l :
  List.filter (λ a, f a =? k)%Z (sorted_by f l) = List.filter (λ a, f a =? k)%Z l.
Proof.
  apply sort_le_stable. intros x y Hx Hy. py_bool. apply Z.leb_le. lia.
Qed.

Lemma sorted_by_id l :
  StronglySorted (λ a b, (f a ≤ f b)%Z) l → sorted_by f l = l.
Proof.
  intros Hs. apply sort_le_id. induction Hs as [|x l Hs IH Hall]; constructor; [done|].
  eapply Forall_impl; [exact Hall|]. intros y Hy. by apply Z.leb_le.
Qed.
End sorted_by_lemmas.

#[export] Hint Resolve sorted_by_perm sorted_by_sorted sorted_by_length : py.
