(* ===== verification/PyDict.v ===== *)
(** * Insertion-ordered dictionaries

    The Python [dict] of the sources as an association list without duplicate
    keys: assigning an existing key keeps its position, a new key is appended,
    [del] of an absent key is a [KeyError].  The order matters to this program:
    [dict.values()] feeds stable sorts. *)
From S2P Require Import Prelude.

Definition dict (K V : Type) : Type := list (K * V).

Section dict_ops.
Context {K V : Type} `{EqDecision K}.
Implicit Types (d : dict K V) (k : K) (v : V).

(** [d.get(k)] *)
Fixpoint dget d k : option V :=
  match d with
  | [] => None
  | (k', v) :: d' => if decide (k = k') then Some v else dget d' k
  end.

(** [d[k] = v] *)
Fixpoint dset d k v : dict K V :=
  match d with
  | [] => [(k, v)]
  | (k', v') :: d' => if decide (k = k') then (k', v) :: d' else (k', v') :: dset d' k v
  end.

Fixpoint dremove d k : dict K V :=
  match d with
  | [] => []
  | (k', v') :: d' => if decide (k = k') then d' else (k', v') :: dremove d' k
  end.

(** [del d[k]] *)
Definition ddel d k : res (dict K V) :=
  match dget d k with
  | Some _ => Ok (dremove d k)
  | None => Raise KeyError
  end.

(** [d.setdefault(k, v)]: the value then bound to [k]. *)
Definition dsetdefault d k v : V * dict K V :=
  match dget d k with
  | Some v' => (v', d)
  | None => (v, dset d k v)
  end.

Definition dkeys d : list K := d.*1.
Definition dvalues d : list V := d.*2.
(** [k in d] *)
Definition dmem d k : bool := match dget d k with Some _ => true | None => false end.

Definition dict_wf d : Prop := NoDup (dkeys d).
End dict_ops.

Section dict_lemmas.
Context {K V : Type} `{EqDecision K}.
Implicit Types (d : dict K V) (k : K) (v : V).

Lemma dget_Some_elem d k v : dget d k = Some v → (k, v) ∈ d.
Proof.
  induction d as [|[k' v'] d IH]; simpl; [done|].
  case_decide; intros ?; simplify_eq; [by left|right; auto].
Qed.

Lemma dget_None d k : dget d k = None ↔ k ∉ dkeys d.
Proof.
  induction d as [|[k' v'] d IH]; simpl; [set_solver|].
  rewrite not_elem_of_cons. case_decide; [naive_solver|]. naive_solver.
Qed.

Lemma dget_is_Some d k : is_Some (dget d k) ↔ k ∈ dkeys d.
Proof.
  rewrite <- not_eq_None_Some, dget_None.
  destruct (decide (k ∈ dkeys d)); naive_solver.
Qed.

Lemma elem_dget d k v : dict_wf d → (k, v) ∈ d → dget d k = Some v.
Proof.
  unfold dict_wf, dkeys. induction d as [|[k' v'] d IH]; simpl; [set_solver|].
  intros [Hk Hd]%NoDup_cons [Heq|Hin]%elem_of_cons; simplify_eq.
  - by rewrite decide_True.
  - case_decide as Hkk; [|auto]. subst. destruct Hk.
    apply (list_elem_of_fmap_2 fst) in Hin. done.
Qed.

Lemma dget_dset_eq d k v : dget (dset d k v) k = Some v.
Proof.
  induction d as [|[k' v'] d IH]; simpl; [by rewrite decide_True|].
  case_decide; simpl; case_decide; done.
Qed.

Lemma dget_dset_ne d k k' v : k ≠ k' → dget (dset d k v) k' = dget d k'.
Proof.
  intros Hne. induction d as [|[j w] d IH]; simpl; [by rewrite decide_False|].
  case_decide; subst; simpl; repeat case_decide; congruence.
Qed.

Lemma dkeys_dset_mem d k v : k ∈ dkeys d → dkeys (dset d k v) = dkeys d.
Proof.
  induction d as [|[j w] d IH]; simpl; [set_solver|].
  intros Hin. case_decide; simpl; [done|]. f_equal. apply IH. set_solver.
Qed.

Lemma dset_new d k v : k ∉ dkeys d → dset d k v = d ++ [(k, v)].
Proof.
  induction d as [|[j w] d IH]; simpl; [done|].
  intros [Hne Hin]%not_elem_of_cons. rewrite decide_False by done. by rewrite IH.
Qed.

Lemma dkeys_dset_new d k v : k ∉ dkeys d → dkeys (dset d k v) = dkeys d ++ [k].
Proof. intros Hin. rewrite dset_new by done. unfold dkeys. by rewrite fmap_app. Qed.

Lemma dkeys_dset_elem d k k' v : k' ∈ dkeys (dset d k v) ↔ k' = k ∨ k' ∈ dkeys d.
Proof.
  destruct (decide (k ∈ dkeys d)) as [Hin|Hin].
  - rewrite dkeys_dset_mem by done. naive_solver.
  - rewrite dkeys_dset_new by done. rewrite elem_of_app, list_elem_of_singleton. tauto.
Qed.

Lemma dict_wf_nil : dict_wf ([] : dict K V).
Proof. constructor. Qed.

Lemma dict_wf_dset d k v : dict_wf d → dict_wf (dset d k v).
Proof.
  unfold dict_wf. intros Hd. destruct (decide (k ∈ dkeys d)) as [Hin|Hin].
  - by rewrite dkeys_dset_mem.
  - rewrite dkeys_dset_new by done. apply NoDup_app. split_and!; [done| |apply NoDup_singleton].
    intros x Hx ->%list_elem_of_singleton. done.
Qed.

Lemma length_dset_mem d k v : k ∈ dkeys d → length (dset d k v) = length d.
Proof.
  intros Hin. rewrite <- (length_fmap fst), <- (length_fmap fst d).
  fold (dkeys (dset d k v)) (dkeys d). by rewrite dkeys_dset_mem.
Qed.

Lemma length_dset_new d k v : k ∉ dkeys d → length (dset d k v) = S (length d).
Proof. intros Hin. rewrite dset_new by done. rewrite length_app. simpl. lia. Qed.

Lemma dvalues_length d : length (dvalues d) = length d.
Proof. apply length_fmap. Qed.

Lemma dvalues_elem d v : v ∈ dvalues d → ∃ k, (k, v) ∈ d.
Proof. intros [[k w] [-> Hin]]%list_elem_of_fmap. by exists k. Qed.

Lemma elem_dvalues d k v : (k, v) ∈ d → v ∈ dvalues d.
Proof. intros Hin. by apply (list_elem_of_fmap_2 snd) in Hin. Qed.

Lemma dremove_elem d k x : dict_wf d → x ∈ dremove d k ↔ x ∈ d ∧ x.1 ≠ k.
Proof.
  unfold dict_wf, dkeys. induction d as [|[j w] d IH]; simpl; [set_solver|].
  intros [Hj Hd]%NoDup_cons. case_decide as Hk.
  - subst. rewrite elem_of_cons. split.
    + intros Hx. split; [by right|]. intros <-. apply Hj. by apply (list_elem_of_fmap_2 fst).
    + intros [[->|?] ?]; naive_solver.
  - rewrite !elem_of_cons, IH by done. naive_solver.
Qed.

Lemma dkeys_dremove d k k' :
  dict_wf d → k' ∈ dkeys (dremove d k) ↔ k' ∈ dkeys d ∧ k' ≠ k.
Proof.
  intros Hd. unfold dkeys. rewrite !list_elem_of_fmap. split.
  - intros [x [-> Hin]]. apply dremove_elem in Hin as [Hin Hne]; [|done]. split; [by exists x|done].
  - intros [[x [-> Hin]] Hne]. exists x. split; [done|]. by apply dremove_elem.
Qed.

Lemma dget_dremove_eq d k : dict_wf d → dget (dremove d k) k = None.
Proof. intros Hd. apply dget_None. rewrite dkeys_dremove by done. by intros [_ ?]. Qed.

Lemma dget_dremove_ne d k k' : k ≠ k' → dget (dremove d k) k' = dget d k'.
Proof.
  intros Hne. induction d as [|[j w] d IH]; [done|]. simpl. destruct (decide (k = j)) as [<-|Hj].
  - by rewrite decide_False by done.
  - simpl. by rewrite IH.
Qed.

Lemma dremove_sublist d k : sublist (dremove d k) d.
Proof.
  induction d as [|[j w] d IH]; simpl; [constructor|].
  case_decide; [by apply sublist_cons|by apply sublist_skip].
Qed.

Lemma dict_wf_dremove d k : dict_wf d → dict_wf (dremove d k).
Proof.
  unfold dict_wf, dkeys. intros Hd. eapply sublist_NoDup; [exact Hd|].
  apply fmap_sublist, dremove_sublist.
Qed.

Lemma length_dremove d k : k ∈ dkeys d → S (length (dremove d k)) = length d.
Proof.
  induction d as [|[j w] d IH]; simpl; [set_solver|].
  intros Hin. case_decide; simpl; [done|]. rewrite IH; [done|set_solver].
Qed.

Lemma ddel_ok d k : k ∈ dkeys d → ddel d k = Ok (dremove d k).
Proof. intros [v Hv]%dget_is_Some. unfold ddel. by rewrite Hv. Qed.
(** [del d[old]; d[new] = v] for a present [old] and an absent [new]. *)
Lemma dict_replace d old new v :
  dict_wf d → old ∈ dkeys d → new ∉ dkeys d →
  let d' := dset (dremove d old) new v in
  dict_wf d' ∧ length d' = length d ∧
  (∀ x, x ∈ d' → x ∈ d ∨ x = (new, v)) ∧
  (∀ k, k ∈ dkeys d' ↔ k = new ∨ (k ∈ dkeys d ∧ k ≠ old)).
Proof.
  intros Hwf Hold Hnew d'. subst d'.
  assert (new ∉ dkeys (dremove d old)) as Hnew' by (rewrite dkeys_dremove by done; tauto).
  pose proof (length_dremove d old Hold) as Hl1.
  pose proof (length_dset_new _ _ v Hnew') as Hl2.
  split_and!; [by apply dict_wf_dset, dict_wf_dremove|lia| |].
  - intros x. rewrite dset_new by done.
    intros [Hx|Hx%list_elem_of_singleton]%elem_of_app; [|by right].
    left. apply dremove_elem in Hx; [tauto|done].
  - intros k. rewrite dkeys_dset_elem, dkeys_dremove by done. done.
Qed.

End dict_lemmas.

#[export] Hint Resolve dict_wf_nil dict_wf_dset dict_wf_dremove : py.
#[export] Hint Rewrite @dget_dset_eq @dvalues_length : py.
