(* ===== verification/Hoare.v ===== *)
(** * Triples for the state and exception monad

    [triple P m Q]: started where [P] holds, [m] leaves a world and an answer
    (a value or an exception) that [Q] relates.  [keeps I m]: [m] preserves
    [I] whatever it answers.  The rules follow the combinators of [Prelude];
    hint database [hoare]. *)
From S2P Require Import Prelude.
Open Scope Z_scope.

Section triples.
Context {W : Type}.
Implicit Types (P I : W → Prop).

Definition triple {A} P (m : proc W A) (Q : res A → W → Prop) : Prop :=
  ∀ w w' r, P w → m w = (w', r) → Q r w'.
Definition keeps {A} I (m : proc W A) : Prop := triple I m (λ _, I).

Lemma triple_conseq {A} P P' (m : proc W A) Q Q' :
  triple P' m Q' → (∀ w, P w → P' w) → (∀ r w, Q' r w → Q r w) → triple P m Q.
Proof. intros Hm HP HQ w w' r Hw Heq. eapply HQ, Hm; eauto. Qed.

Lemma triple_ret {A} P (a : A) Q : (∀ w, P w → Q (Ok a) w) → triple P (pret a) Q.
Proof. intros H w w' r HP [= <- <-]. auto. Qed.

Lemma triple_raise {A} P e (Q : res A → W → Prop) : (∀ w, P w → Q (Raise e) w) → triple P (praise e) Q.
Proof. intros H w w' r HP [= <- <-]. auto. Qed.

(** The middle assertion covers the exception as well. *)
Lemma triple_bind {A B} P (m : proc W A) (k : A → proc W B) R Q :
  triple P m R → (∀ a, triple (R (Ok a)) (k a) Q) → (∀ e w, R (Raise e) w → Q (Raise e) w) →
  triple P (pbind m k) Q.
Proof.
  intros Hm Hk He w w' r HP. unfold pbind. destruct (m w) as [w1 [a|e]] eqn:Hw.
  - intros Heq. eapply Hk; [|exact Heq]. by eapply Hm.
  - intros [= <- <-]. eapply He, Hm; eauto.
Qed.

(** A case analysis on the answer of a call ([try ... except]). *)
Lemma triple_try {A B} P (m : proc W A) (k : A → proc W B) (h : exn → proc W B) R Q :
  triple P m R → (∀ a, triple (R (Ok a)) (k a) Q) → (∀ e, triple (R (Raise e)) (h e) Q) →
  triple P (λ w, match m w with (w1, Ok a) => k a w1 | (w1, Raise e) => h e w1 end) Q.
Proof.
  intros Hm Hk Hh w w' r HP. destruct (m w) as [w1 [a|e]] eqn:Hw; intros Heq.
  - eapply Hk; [|exact Heq]. by eapply Hm.
  - eapply Hh; [|exact Heq]. by eapply Hm.
Qed.

(** A procedure that first looks at the world. *)
Lemma triple_read {A} P (f : W → proc W A) Q :
  (∀ w0, P w0 → triple (λ w, w = w0) (f w0) Q) → triple P (λ w, f w w) Q.
Proof. intros H w w' r HP Heq. by eapply H. Qed.

Lemma keeps_ret {A} I (a : A) : keeps I (pret a).
Proof. by apply triple_ret. Qed.
Lemma keeps_raise {A} I e : keeps I (praise e : proc W A).
Proof. by apply triple_raise. Qed.
Lemma keeps_bind {A B} I (m : proc W A) (k : A → proc W B) : keeps I m → (∀ a, keeps I (k a)) → keeps I (pbind m k).
Proof. intros Hm Hk. by eapply triple_bind. Qed.
Lemma keeps_try {A B} I (m : proc W A) (k : A → proc W B) (h : exn → proc W B) :
  keeps I m → (∀ a, keeps I (k a)) → (∀ e, keeps I (h e)) →
  keeps I (λ w, match m w with (w1, Ok a) => k a w1 | (w1, Raise e) => h e w1 end).
Proof. intros. by eapply triple_try. Qed.
Lemma keeps_modify I (f : W → W) : (∀ w, I w → I (f w)) → keeps I (pmodify f).
Proof. intros H w w' r HI [= <- <-]. auto. Qed.
Lemma keeps_if {A} I (b : bool) (m n : proc W A) : keeps I m → keeps I n → keeps I (if b then m else n).
Proof. by destruct b. Qed.
End triples.

Create HintDb hoare.
#[export] Hint Resolve keeps_ret keeps_raise keeps_bind keeps_if : hoare.
