(* ===== verification/PyDecimal.v ===== *)
(** * Python's [decimal.Decimal] in the default context

    A finite [Decimal] is a coefficient and an exponent; every operation
    rounds its exact result to 28 significant digits, ties to even
    ([decimal.getcontext()] of a fresh interpreter).  Not modelled: NaN and
    infinities, the sign of zero, and the exponent limits (|e| <= 999999). *)
From S2P Require Import Prelude.
Open Scope Z_scope.

Record decimal := Dec { coef : Z; expo : Z }.

#[export] Instance decimal_eq_dec : EqDecision decimal.
Proof. solve_decision. Defined.

Definition prec : Z := 28.

(** The number of decimal digits of [n >= 0]; one for zero. *)
Fixpoint ndigits_fuel (fuel : nat) (n : Z) : Z :=
  match fuel with
  | O => 1
  | S fuel' => if n <? 10 then 1 else 1 + ndigits_fuel fuel' (n / 10)
  end.
Definition ndigits (n : Z) : Z := ndigits_fuel (Z.to_nat (Z.log2 n)) n.

(** [a] divided by [b > 0], rounded to the nearest integer, ties to even. *)
Definition div_half_even (a b : Z) : Z :=
  let q := a / b in
  let r := a mod b in
  if 2 * r <? b then q
  else if b <? 2 * r then q + 1
  else if Z.even q then q else q + 1.

(** [Decimal._fix]: round to the context precision.  A coefficient that
    rounds up to 10^28 loses its last zero. *)
Definition dfix (d : decimal) : decimal :=
  let n := Z.abs (coef d) in
  let k := ndigits n - prec in
  if k <=? 0 then d
  else
    let q := div_half_even n (10 ^ k) in
    let '(q, k) := if q =? 10 ^ prec then (10 ^ (prec - 1), k + 1) else (q, k) in
    Dec (Z.sgn (coef d) * q) (expo d + k).

(** The value scaled to the exponent [e <= expo d]. *)
Definition dscale (d : decimal) (e : Z) : Z := coef d * 10 ^ (expo d - e).

Definition dzero : decimal := Dec 0 0.
Definition dint (n : Z) : decimal := Dec n 0.

Definition dcmp (a b : decimal) : comparison :=
  let e := Z.min (expo a) (expo b) in dscale a e ?= dscale b e.
Definition deqb (a b : decimal) : bool := match dcmp a b with Eq => true | _ => false end.
Definition dltb (a b : decimal) : bool := match dcmp a b with Lt => true | _ => false end.
Definition dleb (a b : decimal) : bool := match dcmp a b with Gt => false | _ => true end.

(** [a + b], [a * b] *)
Definition dadd (a b : decimal) : decimal :=
  let e := Z.min (expo a) (expo b) in dfix (Dec (dscale a e + dscale b e) e).
Definition dmul (a b : decimal) : decimal := dfix (Dec (coef a * coef b) (expo a + expo b)).

(** [Decimal(10) ** p] for an integer [p >= 0]. *)
Definition dpow10 (p : Z) : decimal :=
  if p <? prec then Dec (10 ^ p) 0 else Dec (10 ^ (prec - 1)) (p - (prec - 1)).

(** [while exp < ideal and coeff % 10 == 0: coeff //= 10; exp += 1] *)
Fixpoint strip_to (fuel : nat) (c e ideal : Z) : decimal :=
  match fuel with
  | O => Dec c e
  | S fuel' => if (e <? ideal) && (c mod 10 =? 0) then strip_to fuel' (c / 10) (e + 1) ideal
               else Dec c e
  end.

(** [a / b] ([Decimal.__truediv__]) for [coef b <> 0]: 29 digits with a sticky
    last digit, then rounding. *)
Definition ddiv (a b : decimal) : decimal :=
  if coef a =? 0 then Dec 0 (expo a - expo b)
  else
    let ca := Z.abs (coef a) in
    let cb := Z.abs (coef b) in
    let shift := ndigits cb - ndigits ca + prec + 1 in
    let e := expo a - expo b - shift in
    let num := if 0 <=? shift then ca * 10 ^ shift else ca in
    let den := if 0 <=? shift then cb else cb * 10 ^ (- shift) in
    let q := num / den in
    let sg := Z.sgn (coef a) * Z.sgn (coef b) in
    if num mod den =? 0 then
      let d := strip_to (Z.to_nat (expo a - expo b - e)) q e (expo a - expo b) in
      dfix (Dec (sg * coef d) (expo d))
    else dfix (Dec (sg * (if q mod 5 =? 0 then q + 1 else q)) e).

(** [d.to_integral_value()] (ROUND_HALF_EVEN) and [int(d)] (toward zero). *)
Definition to_integral_value (d : decimal) : decimal :=
  if 0 <=? expo d then d
  else Dec (Z.sgn (coef d) * div_half_even (Z.abs (coef d)) (10 ^ (- expo d))) 0.
Definition dtrunc (d : decimal) : Z :=
  if 0 <=? expo d then coef d * 10 ^ expo d
  else Z.sgn (coef d) * (Z.abs (coef d) / 10 ^ (- expo d)).

(** A canonical representative: Python hashes and compares [Decimal]s as
    numbers, so [Decimal("1.0")] and [Decimal("1.00")] are one dict key. *)
Fixpoint strip_zeros (fuel : nat) (c e : Z) : Z * Z :=
  match fuel with
  | O => (c, e)
  | S fuel' => if c mod 10 =? 0 then strip_zeros fuel' (c / 10) (e + 1) else (c, e)
  end.
Definition dkey (d : decimal) : Z * Z :=
  if coef d =? 0 then (0, 0)
  else strip_zeros (Z.to_nat (Z.log2 (Z.abs (coef d)))) (coef d) (expo d).

(** ** Lemmas on powers of ten and digit counts *)

Lemma pow10_pos k : 0 < 10 ^ Z.max 0 k.
Proof. apply Z.pow_pos_nonneg; lia. Qed.

Lemma pow10_gt0 k : 0 <= k → 0 < 10 ^ k.
Proof. intros. apply Z.pow_pos_nonneg; lia. Qed.

Lemma pow10_add a b : 0 <= a → 0 <= b → 10 ^ (a + b) = 10 ^ a * 10 ^ b.
Proof. intros. by apply Z.pow_add_r. Qed.

Lemma pow10_succ a : 0 <= a → 10 ^ (a + 1) = 10 * 10 ^ a.
Proof. intros. rewrite pow10_add by lia. rewrite Z.pow_1_r. lia. Qed.

#[export] Hint Resolve pow10_gt0 : py.

(** [div10_log2]: one division by ten takes at least three bits. *)
Lemma log2_div10 n : 10 <= n → Z.log2 (n / 10) < Z.log2 n.
Proof.
  intros Hn. apply Z.lt_le_trans with (Z.log2 n - 2); [|lia].
  assert (n / 10 <= n / 2 ^ 3) as Hle.
  { apply Z.div_le_compat_l; lia. }
  apply Z.log2_le_mono in Hle.
  assert (Z.log2 (n / 2 ^ 3) = Z.max 0 (Z.log2 n - 3)) as Heq.
  { rewrite <- Z.shiftr_div_pow2 by lia. rewrite Z.log2_shiftr; lia. }
  assert (3 <= Z.log2 n) by (change 3 with (Z.log2 10); apply Z.log2_le_mono; lia).
  lia.
Qed.

Lemma ndigits_fuel_bounds fuel n :
  0 < n → Z.log2 n <= Z.of_nat fuel →
  1 <= ndigits_fuel fuel n ∧ 10 ^ (ndigits_fuel fuel n - 1) <= n < 10 ^ ndigits_fuel fuel n.
Proof.
  revert n. induction fuel as [|fuel IH]; intros n Hn Hf; simpl.
  - assert (n < 2) by (apply Z.log2_lt_cancel; change (Z.log2 2) with 1; lia).
    assert (n = 1) as -> by lia. split; [lia|]. split; [done|reflexivity].
  - destruct (Z.ltb_spec n 10).
    + split; [lia|]. change (10 ^ (1 - 1)) with 1. change (10 ^ 1) with 10. lia.
    + pose proof (log2_div10 n ltac:(lia)).
      destruct (IH (n / 10)) as [Hd [Hl Hu]].
      { apply Z.div_str_pos; lia. } { lia. }
      set (d := ndigits_fuel fuel (n / 10)) in *.
      split; [lia|]. replace (1 + d - 1) with ((d - 1) + 1) by lia.
      replace (1 + d) with (d + 1) by lia.
      rewrite !pow10_succ by lia.
      pose proof (Z.div_mod n 10 ltac:(lia)). pose proof (Z.mod_pos_bound n 10 ltac:(lia)).
      lia.
Qed.

Lemma ndigits_pos_bounds n :
  0 < n → 1 <= ndigits n ∧ 10 ^ (ndigits n - 1) <= n < 10 ^ ndigits n.
Proof.
  intros Hn. apply ndigits_fuel_bounds; [done|].
  pose proof (Z.log2_nonneg n). lia.
Qed.

Lemma ndigits_0 : ndigits 0 = 1.
Proof. reflexivity. Qed.

Lemma ndigits_le n k : 0 <= n → 1 <= k → n < 10 ^ k → ndigits n <= k.
Proof.
  intros Hn Hk Hlt. destruct (decide (n = 0)) as [->|]; [rewrite ndigits_0; lia|].
  destruct (ndigits_pos_bounds n) as (?&?&?); [lia|].
  assert (ndigits n - 1 < k); [|lia].
  apply (Z.pow_lt_mono_r_iff 10); lia.
Qed.

Lemma ndigits_gt n k : 0 <= k → 10 ^ k <= n → k < ndigits n.
Proof.
  intros Hk Hle. assert (0 < 10 ^ k) by auto with py.
  destruct (ndigits_pos_bounds n) as (?&?&?); [lia|].
  apply (Z.pow_lt_mono_r_iff 10); lia.
Qed.

Lemma dfix_small d : Z.abs (coef d) < 10 ^ prec → dfix d = d.
Proof.
  intros Hlt. unfold dfix. pose proof (ndigits_le (Z.abs (coef d)) prec ltac:(lia) ltac:(done) Hlt).
  destruct (Z.leb_spec (ndigits (Z.abs (coef d)) - prec) 0); [done|lia].
Qed.

(** ** Numeric comparison *)

Lemma dscale_le d e e' : e' <= e → e <= expo d → dscale d e' = dscale d e * 10 ^ (e - e').
Proof.
  intros. unfold dscale. replace (expo d - e') with ((expo d - e) + (e - e')) by lia.
  rewrite pow10_add by lia. lia.
Qed.

(** Comparing at any common lower exponent gives the same answer. *)
Lemma dcmp_at a b e :
  e <= expo a → e <= expo b → dcmp a b = (dscale a e ?= dscale b e).
Proof.
  intros. unfold dcmp. set (m := Z.min (expo a) (expo b)).
  rewrite (dscale_le a m e), (dscale_le b m e) by lia.
  apply Zmult_compare_compat_r. pose proof (pow10_gt0 (m - e)). lia.
Qed.

(** Three decimals at one exponent below all of theirs. *)
Lemma dcmp_common a b c :
  ∃ e, e <= expo a ∧ e <= expo b ∧ e <= expo c.
Proof. exists (Z.min (expo a) (Z.min (expo b) (expo c))). lia. Qed.

Ltac dcmp_solve a b c :=
  let e := fresh "e" in
  destruct (dcmp_common a b c) as (e & ? & ? & ?);
  unfold deqb, dltb, dleb in *;
  rewrite ?(dcmp_at a b e), ?(dcmp_at b a e), ?(dcmp_at b c e), ?(dcmp_at c b e),
    ?(dcmp_at a c e), ?(dcmp_at c a e), ?(dcmp_at a a e) in * by lia;
  repeat match goal with
  | |- context [?x ?= ?y] => destruct (Z.compare_spec x y)
  | H : context [?x ?= ?y] |- _ => destruct (Z.compare_spec x y)
  end; try done; try lia.

Lemma dleb_refl a : dleb a a = true.
Proof. dcmp_solve a a a. Qed.
Lemma deqb_refl a : deqb a a = true.
Proof. dcmp_solve a a a. Qed.
Lemma deqb_sym a b : deqb a b = deqb b a.
Proof. dcmp_solve a b a. Qed.
Lemma deqb_trans a b c : deqb a b = true → deqb b c = true → deqb a c = true.
Proof. intros. dcmp_solve a b c. Qed.
Lemma dleb_total a b : dleb a b = true ∨ dleb b a = true.
Proof. dcmp_solve a b a; auto. Qed.
Lemma dleb_trans a b c : dleb a b = true → dleb b c = true → dleb a c = true.
Proof. intros. dcmp_solve a b c. Qed.
Lemma dltb_negb a b : dltb a b = negb (dleb b a).
Proof. dcmp_solve a b a. Qed.
Lemma dleb_lt_eq a b : dleb a b = dltb a b || deqb a b.
Proof. dcmp_solve a b a. Qed.

#[export] Hint Resolve dleb_refl deqb_refl dleb_total dleb_trans : py.

(** ** The canonical key decides numeric equality *)

Lemma strip_zeros_spec fuel c e :
  c ≠ 0 → Z.log2 (Z.abs c) <= Z.of_nat fuel →
  let '(c', e') := strip_zeros fuel c e in
  e <= e' ∧ c = c' * 10 ^ (e' - e) ∧ c' mod 10 ≠ 0.
Proof.
  revert c e. induction fuel as [|fuel IH]; intros c e Hc Hf; simpl.
  - assert (Z.abs c < 2) by (apply Z.log2_lt_cancel; change (Z.log2 2) with 1; lia).
    assert (c = 1 ∨ c = -1) as [->| ->] by lia; rewrite Z.sub_diag; split_and!; done || lia.
  - destruct (Z.eqb_spec (c mod 10) 0) as [Hm|Hm].
    + pose proof (Z.div_mod c 10 ltac:(lia)).
      assert (10 <= Z.abs c) by lia.
      assert (Z.abs (c / 10) = Z.abs c / 10) as Habs.
      { apply Z.div_unique with 0; lia. }
      pose proof (log2_div10 (Z.abs c) ltac:(lia)).
      specialize (IH (c / 10) (e + 1) ltac:(lia) ltac:(rewrite Habs; lia)).
      destruct (strip_zeros fuel (c / 10) (e + 1)) as [c' e'] eqn:Hs.
      destruct IH as (?&?&?). split_and!; [lia| |done].
      replace (e' - e) with ((e' - (e + 1)) + 1) by lia. rewrite pow10_succ by lia. lia.
    + rewrite Z.sub_diag. split_and!; [lia|lia|done].
Qed.

Lemma dkey_spec d :
  coef d ≠ 0 →
  expo d <= (dkey d).2 ∧ coef d = (dkey d).1 * 10 ^ ((dkey d).2 - expo d) ∧ (dkey d).1 mod 10 ≠ 0.
Proof.
  intros Hc. unfold dkey. rewrite (proj2 (Z.eqb_neq _ _) Hc).
  pose proof (Z.log2_nonneg (Z.abs (coef d))).
  pose proof (strip_zeros_spec (Z.to_nat (Z.log2 (Z.abs (coef d)))) (coef d) (expo d) Hc ltac:(lia)) as Hs.
  by destruct (strip_zeros _ _ _).
Qed.

Lemma dkey_zero d : coef d = 0 → dkey d = (0, 0).
Proof. intros Hc. unfold dkey. by rewrite Hc. Qed.

Lemma dscale_zero d e : e <= expo d → dscale d e = 0 ↔ coef d = 0.
Proof.
  intros. unfold dscale. pose proof (pow10_gt0 (expo d - e) ltac:(lia)). nia.
Qed.

(** Two stripped coefficients of one number are the same. *)
Lemma stripped_unique c1 c2 e1 e2 m :
  m <= e1 → e1 <= e2 → c1 mod 10 ≠ 0 → c1 * 10 ^ (e1 - m) = c2 * 10 ^ (e2 - m) → e1 = e2 ∧ c1 = c2.
Proof.
  intros Hm He Hc Heq.
  replace (e2 - m) with ((e2 - e1) + (e1 - m)) in Heq by lia.
  rewrite pow10_add in Heq by lia.
  assert (c1 = c2 * 10 ^ (e2 - e1)) as H1.
  { apply Z.mul_reg_r with (10 ^ (e1 - m)); [|lia].
    pose proof (pow10_gt0 (e1 - m) ltac:(lia)); lia. }
  destruct (decide (e1 = e2)) as [->|Hne].
  - rewrite Z.sub_diag in H1. lia.
  - destruct Hc. rewrite H1. replace (e2 - e1) with ((e2 - e1 - 1) + 1) by lia.
    rewrite pow10_succ by lia.
    replace (c2 * (10 * 10 ^ (e2 - e1 - 1))) with ((c2 * 10 ^ (e2 - e1 - 1)) * 10) by lia.
    apply Z.mod_mul. lia.
Qed.

Lemma dkey_deqb a b : dkey a = dkey b ↔ deqb a b = true.
Proof.
  set (m := Z.min (expo a) (expo b)).
  assert (deqb a b = true ↔ dscale a m = dscale b m) as ->.
  { unfold deqb. rewrite (dcmp_at a b m) by lia. destruct (Z.compare_spec (dscale a m) (dscale b m)); naive_solver lia. }
  destruct (decide (coef a = 0)) as [Ha|Ha], (decide (coef b = 0)) as [Hb|Hb].
  - rewrite !dkey_zero by done. unfold dscale. rewrite Ha, Hb. naive_solver lia.
  - rewrite (dkey_zero a) by done. pose proof (dkey_spec b Hb) as (?&?&Hmod).
    assert (dscale a m = 0) as -> by (apply dscale_zero; [lia|done]).
    split; [intros E; rewrite <- E in Hmod; done|].
    intros E. symmetry in E. apply dscale_zero in E; [done|lia].
  - rewrite (dkey_zero b) by done. pose proof (dkey_spec a Ha) as (?&?&Hmod).
    assert (dscale b m = 0) as -> by (apply dscale_zero; [lia|done]).
    split; [intros E; rewrite E in Hmod; done|].
    intros E. apply dscale_zero in E; [done|lia].
  - pose proof (dkey_spec a Ha) as (La&Ea&Ma). pose proof (dkey_spec b Hb) as (Lb&Eb&Mb).
    destruct (dkey a) as [ca ea], (dkey b) as [cb eb]; simpl in *.
    assert (dscale a m = ca * 10 ^ (ea - m)) as Sa.
    { unfold dscale. rewrite Ea at 1. rewrite <- Z.mul_assoc, <- pow10_add by lia. f_equal. f_equal. lia. }
    assert (dscale b m = cb * 10 ^ (eb - m)) as Sb.
    { unfold dscale. rewrite Eb at 1. rewrite <- Z.mul_assoc, <- pow10_add by lia. f_equal. f_equal. lia. }
    rewrite Sa, Sb. split; [intros [= -> ->]; done|]. intros E.
    destruct (Z.le_ge_cases ea eb).
    + destruct (stripped_unique ca cb ea eb m); [lia|lia|done|done|]. by subst.
    + destruct (stripped_unique cb ca eb ea m); [lia|lia|done|done|]. by subst.
Qed.

(** ** Rounding *)

Lemma div_half_even_bounds a b :
  0 < b → 2 * div_half_even a b * b <= 2 * a + b ∧ 2 * a - b <= 2 * div_half_even a b * b.
Proof.
  intros Hb. unfold div_half_even.
  pose proof (Z.div_mod a b ltac:(lia)). pose proof (Z.mod_pos_bound a b Hb).
  destruct (Z.ltb_spec (2 * (a mod b)) b); [nia|].
  destruct (Z.ltb_spec b (2 * (a mod b))); [nia|].
  destruct (Z.even (a / b)); nia.
Qed.

Lemma div_half_even_exact a b : 0 < b → div_half_even (a * b) b = a.
Proof.
  intros Hb. unfold div_half_even. rewrite Z.mod_mul, Z.div_mul by lia.
  destruct (Z.ltb_spec (2 * 0) b); [done|lia].
Qed.

Lemma div_half_even_nonneg a b : 0 <= a → 0 < b → 0 <= div_half_even a b.
Proof.
  intros Ha Hb. unfold div_half_even. pose proof (Z.div_pos a b Ha Hb).
  repeat case_match; lia.
Qed.

(** Rounding never changes the sign. *)
Lemma dfix_nonneg d : 0 <= coef d → 0 <= coef (dfix d).
Proof.
  intros Hd. unfold dfix.
  destruct (Z.leb_spec (ndigits (Z.abs (coef d)) - prec) 0) as [|Hk]; [done|].
  assert (0 <= div_half_even (Z.abs (coef d)) (10 ^ (ndigits (Z.abs (coef d)) - prec))).
  { apply div_half_even_nonneg; [lia|]. apply pow10_gt0; lia. }
  destruct (_ =? 10 ^ prec); simpl; nia.
Qed.

Lemma dscale_nonneg d e : e <= expo d → 0 <= coef d → 0 <= dscale d e.
Proof. intros. unfold dscale. pose proof (pow10_gt0 (expo d - e) ltac:(lia)). nia. Qed.

Lemma dadd_nonneg a b : 0 <= coef a → 0 <= coef b → 0 <= coef (dadd a b).
Proof.
  intros. apply dfix_nonneg. simpl.
  pose proof (dscale_nonneg a (Z.min (expo a) (expo b)) ltac:(lia)).
  pose proof (dscale_nonneg b (Z.min (expo a) (expo b)) ltac:(lia)). lia.
Qed.

Lemma dmul_nonneg a b : 0 <= coef a → 0 <= coef b → 0 <= coef (dmul a b).
Proof. intros. apply dfix_nonneg. simpl. nia. Qed.

(** Addition is exact while the sum has at most 28 digits. *)
Lemma dadd_exact a b :
  let e := Z.min (expo a) (expo b) in
  Z.abs (dscale a e + dscale b e) < 10 ^ prec → dadd a b = Dec (dscale a e + dscale b e) e.
Proof. intros e Hlt. unfold dadd. by apply dfix_small. Qed.

(** Numbers that are integers, and exact rounding of multiples of powers of ten. *)
Definition is_int (d : decimal) (n : Z) : Prop :=
  (0 <= expo d → coef d * 10 ^ expo d = n) ∧ (expo d < 0 → coef d = n * 10 ^ (- expo d)).

Lemma is_int_deqb d n : is_int d n ↔ deqb d (dint n) = true.
Proof.
  unfold is_int, deqb, dcmp, dscale. simpl. destruct (Z.le_gt_cases 0 (expo d)).
  - rewrite Z.min_r by lia. rewrite !Z.sub_0_r. simpl. rewrite Z.mul_1_r.
    destruct (Z.compare_spec (coef d * 10 ^ expo d) n); split; try done; try lia; intros; split; lia.
  - rewrite Z.min_l by lia. rewrite Z.sub_diag, Z.mul_1_r. replace (0 - expo d) with (- expo d) by lia.
    destruct (Z.compare_spec (coef d) (n * 10 ^ (- expo d))); split; try done; try lia; intros; split; lia.
Qed.

Lemma is_int_at d n m : 0 <= m → 0 <= expo d + m → (is_int d n ↔ coef d * 10 ^ (expo d + m) = n * 10 ^ m).
Proof.
  intros Hm He. unfold is_int. pose proof (pow10_gt0 m Hm).
  destruct (Z.le_gt_cases 0 (expo d)) as [Hd|Hd].
  - rewrite pow10_add by lia. split; [intros [<- _]; lia|]. intros Heq. split; [intros _; nia|lia].
  - replace (10 ^ m) with (10 ^ (- expo d) * 10 ^ (expo d + m)) by (rewrite <- pow10_add by lia; f_equal; lia).
    pose proof (pow10_gt0 (expo d + m) He). split; [intros [_ ->]; [ring|done]|]. intros Heq. split; [lia|intros _; nia].
Qed.

Lemma is_int_unique d n m : is_int d n → is_int d m → n = m.
Proof.
  intros [H1 H2] [H3 H4]. destruct (Z.le_gt_cases 0 (expo d)) as [Hd|Hd].
  - by rewrite <- H1, <- H3.
  - specialize (H2 Hd). specialize (H4 Hd). pose proof (pow10_gt0 (- expo d) ltac:(lia)). nia.
Qed.

Lemma sgn_mul_abs_pow n k : 0 <= k → Z.sgn (n * 10 ^ k) = Z.sgn n ∧ Z.abs (n * 10 ^ k) = Z.abs n * 10 ^ k.
Proof. intros Hk. pose proof (pow10_gt0 k Hk). rewrite Z.sgn_mul, Z.abs_mul. rewrite (Z.sgn_pos (10 ^ k)), (Z.abs_eq (10 ^ k)) by lia. lia. Qed.

Lemma is_int_integral d n : is_int d n → deqb d (to_integral_value d) = true ∧ dtrunc d = n.
Proof.
  intros [H1 H2]. unfold to_integral_value, dtrunc. destruct (Z.leb_spec 0 (expo d)) as [Hd|Hd]; [auto with py|].
  specialize (H2 Hd). rewrite H2. destruct (sgn_mul_abs_pow n (- expo d) ltac:(lia)) as [-> ->].
  rewrite div_half_even_exact, Z.div_mul by (pose proof (pow10_gt0 (- expo d)); lia).
  rewrite (Z.mul_comm (Z.sgn n)), Z.abs_sgn. split; [|done]. apply is_int_deqb. split; [lia|]. by intros _.
Qed.

(** An integral value is found to be integral only if it is. *)
Lemma integral_is_int d : deqb d (to_integral_value d) = true → is_int d (dtrunc d).
Proof.
  unfold to_integral_value. intros Hd. destruct (Z.leb_spec 0 (expo d)) as [He|He].
  - unfold is_int, dtrunc. destruct (Z.leb_spec 0 (expo d)); [|lia]. split; [done|lia].
  - apply is_int_deqb in Hd as Hint. destruct (is_int_integral d _ Hint) as [_ ->]. done.
Qed.

Lemma dfix_pow10 m k e :
  Z.abs m < 10 ^ prec → 0 <= k →
  ∃ c r, dfix (Dec (m * 10 ^ k) e) = Dec c (e + r) ∧ 0 <= r ∧ c * 10 ^ r = m * 10 ^ k.
Proof.
  intros Hm Hk. unfold dfix. simpl. destruct (sgn_mul_abs_pow m k Hk) as [-> ->].
  destruct (Z.leb_spec (ndigits (Z.abs m * 10 ^ k) - prec) 0) as [|Hn].
  { exists (m * 10 ^ k), 0. rewrite Z.add_0_r, Z.mul_1_r. done. }
  assert (ndigits (Z.abs m * 10 ^ k) <= prec + k) as Hle.
  { pose proof (pow10_gt0 k Hk). apply ndigits_le; [nia|unfold prec; lia|].
    rewrite pow10_add by (unfold prec; lia). nia. }
  set (r := ndigits _ - prec) in *.
  assert (Z.abs m * 10 ^ k = Z.abs m * 10 ^ (k - r) * 10 ^ r) as Hsplit.
  { rewrite <- Z.mul_assoc, <- pow10_add by lia. do 2 f_equal. lia. }
  assert (m * 10 ^ k = m * 10 ^ (k - r) * 10 ^ r) as Hsplit'.
  { rewrite <- Z.mul_assoc, <- pow10_add by lia. do 2 f_equal. lia. }
  rewrite Hsplit, div_half_even_exact by (apply pow10_gt0; lia).
  destruct (Z.eqb_spec (Z.abs m * 10 ^ (k - r)) (10 ^ prec)) as [Hq|_].
  - exists (Z.sgn m * 10 ^ (prec - 1)), (r + 1). split; [done|]. split; [lia|]. rewrite Hsplit'.
    rewrite (pow10_add r 1) by lia. change (10 ^ 1) with 10.
    assert (m * 10 ^ (k - r) = Z.sgn m * 10 ^ prec) as ->; [|change (10 ^ prec) with (10 ^ (prec - 1) * 10); ring].
    rewrite <- Hq, Z.mul_assoc, (Z.mul_comm (Z.sgn m)), Z.abs_sgn. done.
  - exists (Z.sgn m * (Z.abs m * 10 ^ (k - r))), r. split; [done|]. split; [lia|]. rewrite Hsplit'.
    rewrite (Z.mul_assoc (Z.sgn m)), (Z.mul_comm (Z.sgn m)), Z.abs_sgn. done.
Qed.

(** ** Division by a power of ten *)

Lemma strip_to_spec fuel c e ideal :
  0 <= c → Z.of_nat fuel = ideal - e →
  ∃ j, 0 <= j ∧ e + j <= ideal ∧ expo (strip_to fuel c e ideal) = e + j ∧
    c = coef (strip_to fuel c e ideal) * 10 ^ j ∧
    (e + j = ideal ∨ coef (strip_to fuel c e ideal) mod 10 ≠ 0).
Proof.
  revert c e. induction fuel as [|fuel IH]; intros c e Hc Hf; simpl.
  - exists 0. rewrite Z.mul_1_r. split_and!; lia.
  - destruct (Z.ltb_spec e ideal); [|lia]. destruct (Z.eqb_spec (c mod 10) 0) as [H0|H0]; simpl.
    + destruct (IH (c / 10) (e + 1)) as (j&Hj&Hle&He&Hcc&Hor); [apply Z.div_pos; lia|lia|].
      exists (j + 1). split_and!; [lia|lia|lia| |].
      * rewrite pow10_succ by lia. pose proof (Z.div_mod c 10). lia.
      * destruct Hor; [left; lia|by right].
    + exists 0. rewrite Z.mul_1_r. split_and!; try lia.
Qed.

Lemma dpow10_spec p : 0 <= p → ∃ a b, dpow10 p = Dec (10 ^ a) b ∧ 0 <= a ∧ 0 <= b ∧ a + b = p.
Proof.
  intros Hp. unfold dpow10, prec. destruct (Z.ltb_spec p 28); [exists p, 0|exists 27, (p - 27)]; split_and!; try done; lia.
Qed.

Lemma ndigits_pow10 a : 0 <= a → ndigits (10 ^ a) = a + 1.
Proof.
  intros Ha. pose proof (pow10_gt0 a Ha). pose proof (ndigits_gt (10 ^ a) a Ha ltac:(lia)).
  pose proof (ndigits_le (10 ^ a) (a + 1) ltac:(lia) ltac:(lia)). rewrite pow10_succ in *; lia.
Qed.

(** The quotient of a number of at most 28 digits is exact. *)
Lemma ddiv_pow10 n a b :
  Z.abs n < 10 ^ prec → 0 <= a →
  ∃ c e, ddiv (dint n) (Dec (10 ^ a) b) = Dec c e ∧ - (a + b) <= e ∧ c * 10 ^ (e + a + b) = n ∧ Z.abs c <= Z.abs n.
Proof.
  intros Hn Ha. unfold ddiv. simpl. destruct (Z.eqb_spec n 0) as [->|Hn0].
  { exists 0, (- b). split; [done|]. lia. }
  pose proof (pow10_gt0 a Ha) as Hpa. rewrite (Z.abs_eq (10 ^ a)), ndigits_pow10 by lia.
  pose proof (ndigits_le (Z.abs n) prec ltac:(lia) ltac:(done) Hn) as Hd.
  set (shift := a + 1 - ndigits (Z.abs n) + prec + 1).
  assert (a < shift) as Hs by (unfold shift; lia).
  destruct (Z.leb_spec 0 shift); [|lia].
  assert (Z.abs n * 10 ^ shift = Z.abs n * 10 ^ (shift - a) * 10 ^ a) as Hq.
  { rewrite <- Z.mul_assoc, <- pow10_add by lia. do 2 f_equal. lia. }
  rewrite Hq, Z.mod_mul, Z.div_mul by lia. simpl.
  set (q := Z.abs n * 10 ^ (shift - a)).
  pose proof (pow10_gt0 (shift - a) ltac:(lia)) as Hps.
  destruct (strip_to_spec (Z.to_nat (- b - (- b - shift))) q (- b - shift) (- b)) as (j&Hj&Hle&He&Hc&Hor); [unfold q; nia|lia|].
  set (d := strip_to _ _ _ _) in *.
  assert (shift - a <= j) as Hja.
  { destruct (Z.le_gt_cases (shift - a) j) as [|Hlt]; [done|]. exfalso. destruct Hor as [|Hor]; [lia|]. apply Hor.
    assert (coef d = Z.abs n * 10 ^ (shift - a - 1 - j) * 10) as ->; [|apply Z.mod_mul; lia].
    apply (Z.mul_reg_r _ _ (10 ^ j)); [pose proof (pow10_gt0 j Hj); lia|]. rewrite <- Hc. unfold q.
    replace (shift - a) with ((shift - a - 1 - j) + 1 + j) at 1 by lia. rewrite !pow10_add by lia. change (10 ^ 1) with 10. ring. }
  assert (coef d * 10 ^ (j - (shift - a)) = Z.abs n) as Hcd.
  { apply (Z.mul_reg_r _ _ (10 ^ (shift - a))); [lia|]. rewrite <- Z.mul_assoc, <- pow10_add by lia.
    replace (j - (shift - a) + (shift - a)) with j by lia. done. }
  pose proof (pow10_gt0 (j - (shift - a)) ltac:(lia)) as Hpj.
  assert (0 <= coef d <= Z.abs n) as Hb by nia.
  rewrite (Z.sgn_pos (10 ^ a)), Z.mul_1_r by lia.
  exists (Z.sgn n * coef d), (expo d). rewrite dfix_small; [|simpl; rewrite Z.abs_mul; nia].
  split; [by destruct d|]. rewrite He. split; [lia|]. split; [|rewrite Z.abs_mul; nia].
  replace (- b - shift + j + a + b) with (j - (shift - a)) by lia.
  rewrite <- Z.mul_assoc, Hcd, Z.mul_comm, Z.abs_sgn. done.
Qed.

(** ** Quotients against a power of ten *)

(** Rounding a positive coefficient keeps its leading digits: the value stays
    at or above the power of ten below it, and moves by less than one unit of
    the last place. *)
Lemma dfix_pos c e :
  0 < c → ∃ c' k, dfix (Dec c e) = Dec c' (e + k) ∧ 0 <= k ∧ 10 ^ (ndigits c - 1) <= c' * 10 ^ k ∧
    (c' * 10 ^ k = c ∨ prec < ndigits c ∧ c' * 10 ^ k <= c + 10 ^ (ndigits c - prec)).
Proof.
  intros Hc. destruct (ndigits_pos_bounds c Hc) as (Hd&Hlo&Hhi). unfold dfix. simpl.
  rewrite Z.abs_eq, Z.sgn_pos by lia.
  destruct (Z.leb_spec (ndigits c - prec) 0) as [|Hk].
  { exists c, 0. rewrite Z.add_0_r, Z.mul_1_r. auto with lia. }
  set (k := ndigits c - prec) in *. pose proof (pow10_gt0 k ltac:(lia)) as Hpk.
  destruct (div_half_even_bounds c (10 ^ k) Hpk) as [Hup _].
  assert (10 ^ (prec - 1) <= div_half_even c (10 ^ k)) as Hq.
  { transitivity (c / 10 ^ k); [|unfold div_half_even; repeat case_match; lia].
    apply Z.div_le_lower_bound; [lia|]. rewrite <- pow10_add by (unfold prec; lia).
    replace (k + (prec - 1)) with (ndigits c - 1) by (unfold k; lia). done. }
  assert (10 ^ (ndigits c - 1) = 10 ^ (prec - 1) * 10 ^ k) as Hsplit.
  { rewrite <- pow10_add by (unfold prec; lia). f_equal. unfold k. lia. }
  destruct (Z.eqb_spec (div_half_even c (10 ^ k)) (10 ^ prec)) as [He|_].
  - exists (1 * 10 ^ (prec - 1)), (k + 1). split; [done|]. split; [lia|].
    assert (1 * 10 ^ (prec - 1) * 10 ^ (k + 1) = div_half_even c (10 ^ k) * 10 ^ k) as ->.
    { rewrite He, pow10_succ by lia. change (10 ^ prec) with (10 * 10 ^ (prec - 1)). ring. }
    split; [nia|]. right. lia.
  - exists (1 * div_half_even c (10 ^ k)), k. split; [done|]. split; [lia|].
    rewrite Z.mul_1_l. split; [nia|]. right. lia.
Qed.

Lemma ndigits_shift c j n : 0 < c → 0 <= j → 0 <= n → c * 10 ^ j < 10 ^ n → ndigits c + j <= n.
Proof.
  intros Hc Hj Hn Hlt. destruct (ndigits_pos_bounds c Hc) as (Hd&Hlo&_).
  assert (10 ^ (ndigits c - 1 + j) < 10 ^ n) as Hp.
  { rewrite pow10_add by lia. pose proof (pow10_gt0 j Hj). nia. }
  apply (Z.pow_lt_mono_r_iff 10) in Hp; lia.
Qed.

Lemma ndigits_shift_gt c j n : 0 < c → 0 <= j → 10 ^ n <= c * 10 ^ j → n < ndigits c + j.
Proof.
  intros Hc Hj Hle. destruct (ndigits_pos_bounds c Hc) as (Hd&_&Hhi).
  apply Z.nle_gt. intros Hn.
  assert (10 ^ (ndigits c + j) <= 10 ^ n) by (apply Z.pow_le_mono_r; lia).
  rewrite pow10_add in * by lia. pose proof (pow10_gt0 j Hj). nia.
Qed.

(** The coefficient before the final rounding: the integer quotient at 29
    or 30 digits, moved up by at most one. *)
Lemma ddiv_shape m n :
  0 < m < 10 ^ 20 → 0 < n < 10 ^ 20 →
  ∃ s c j, ddiv (dint m) (dint n) = dfix (Dec c (j - s)) ∧ 0 < c ∧ 0 <= j ∧
    s = ndigits n - ndigits m + prec + 1 ∧
    m * 10 ^ s / n <= c * 10 ^ j <= m * 10 ^ s / n + 1.
Proof.
  intros Hm Hn. unfold ddiv. simpl.
  destruct (Z.eqb_spec m 0) as [|_]; [lia|].
  rewrite (Z.abs_eq m), (Z.abs_eq n), !Z.sgn_pos by lia.
  destruct (ndigits_pos_bounds m ltac:(lia)) as (Hdm&Hlm&Hum).
  destruct (ndigits_pos_bounds n ltac:(lia)) as (Hdn&Hln&Hun).
  pose proof (ndigits_le m 20 ltac:(lia) ltac:(lia) ltac:(lia)).
  set (s := ndigits n - ndigits m + prec + 1). assert (0 <= s) by (unfold s, prec; lia).
  destruct (Z.leb_spec 0 s); [|lia].
  assert (0 < m * 10 ^ s / n) as Hq.
  { apply Z.div_str_pos. split; [lia|].
    transitivity (10 ^ ndigits n); [lia|]. transitivity (10 ^ (ndigits m - 1) * 10 ^ s); [|pose proof (pow10_gt0 s); nia].
    rewrite <- pow10_add by lia. apply Z.pow_le_mono_r; unfold s, prec; lia. }
  change (1 * 1) with 1. rewrite Z.sub_0_l.
  destruct (Z.eqb_spec (m * 10 ^ s mod n) 0) as [Hr|Hr].
  - destruct (strip_to_spec (Z.to_nat (0 - - s)) (m * 10 ^ s / n) (- s) 0) as (j&Hj&Hle&He&Hc&_); [lia|lia|].
    set (d := strip_to _ _ _ _) in *. exists s, (coef d), j. rewrite He, Z.mul_1_l.
    pose proof (pow10_gt0 j Hj). split; [f_equal; f_equal; lia|]. split; [nia|]. split; [done|]. split; [done|]. lia.
  - exists s, (if m * 10 ^ s / n mod 5 =? 0 then m * 10 ^ s / n + 1 else m * 10 ^ s / n), 0.
    rewrite Z.mul_1_l, Z.mul_1_r. split; [done|]. split; [case_match; lia|]. split; [done|]. split; [done|]. case_match; lia.
Qed.

(** Against a power of ten a rounded quotient compares as the exact one. *)
Lemma ddiv_lt_pow10 m n p :
  0 <= m < 10 ^ 20 → 0 < n < 10 ^ 20 → 0 <= p <= 9 →
  dltb (ddiv (dint m) (dint n)) (Dec 1 (- p)) = (m * 10 ^ p <? n).
Proof.
  intros Hm Hn Hp. destruct (decide (m = 0)) as [->|Hm0].
  { unfold ddiv, dltb. simpl. rewrite (dcmp_at _ _ (- p)) by (simpl; lia). unfold dscale. simpl.
    replace (- p - - p) with 0 by lia. symmetry. apply Z.ltb_lt. lia. }
  destruct (ddiv_shape m n ltac:(lia) Hn) as (s&c&j&->&Hc&Hj&Hs&Hlo&Hhi).
  destruct (dfix_pos c (j - s) Hc) as (c'&k&->&Hk&Hc1&Hc2).
  destruct (ndigits_pos_bounds m ltac:(lia)) as (Hdm&Hlm&Hum).
  destruct (ndigits_pos_bounds n ltac:(lia)) as (Hdn&Hln&Hun).
  pose proof (ndigits_le m 20 ltac:(lia) ltac:(lia) ltac:(lia)).
  assert (10 <= s) by (unfold prec in Hs; lia).
  pose proof (pow10_gt0 j Hj) as Hpj. pose proof (pow10_gt0 s ltac:(lia)) as Hps.
  assert (10 ^ s = 10 ^ (s - p) * 10 ^ p) as Hsp by (rewrite <- pow10_add by lia; f_equal; lia).
  pose proof (pow10_gt0 (s - p) ltac:(lia)) as Hpsp. pose proof (pow10_gt0 p ltac:(lia)) as Hpp.
  assert (dltb (Dec c' (j - s + k)) (Dec 1 (- p)) = (c' * 10 ^ k * 10 ^ j <? 10 ^ (s - p))) as ->.
  { unfold dltb. rewrite (dcmp_at _ _ (- s)) by (simpl; lia). unfold dscale. simpl.
    replace (j - s + k - - s) with (k + j) by lia. replace (- p - - s) with (s - p) by lia.
    rewrite pow10_add, Z.mul_1_l, Z.mul_assoc by lia. unfold Z.ltb. by destruct (_ ?= _). }
  destruct (Z.ltb_spec (m * 10 ^ p) n) as [Hlt|Hge]; [apply Z.ltb_lt|apply Z.ltb_ge].
  - assert (m * 10 ^ s / n + 10 ^ 9 <= 10 ^ (s - p)) as Hgap.
    { pose proof (ndigits_shift m p (ndigits n) ltac:(lia) ltac:(lia) ltac:(lia) ltac:(lia)).
      assert (10 ^ 29 <= 10 ^ (s - p)) by (apply Z.pow_le_mono_r; unfold prec in Hs; lia).
      pose proof (Z.mul_div_le (m * 10 ^ s) n ltac:(lia)) as Hq. rewrite Hsp in Hq at 2.
      assert (n * 10 ^ 9 <= 10 ^ 29) by lia.
      assert (m * (10 ^ (s - p) * 10 ^ p) <= (n - 1) * 10 ^ (s - p)).
      { rewrite (Z.mul_comm (10 ^ (s - p))), Z.mul_assoc. apply Z.mul_le_mono_nonneg_r; lia. }
      apply (Z.mul_le_mono_pos_l _ _ n); [lia|]. rewrite Z.mul_add_distr_l.
      generalize dependent (m * 10 ^ s / n). intros q **. generalize dependent (10 ^ (s - p)). intros M **.
      transitivity ((n - 1) * M + M); [|lia]. apply Z.add_le_mono; [by etransitivity|lia]. }
    assert (ndigits c + j <= 31).
    { apply ndigits_shift; [lia|lia|lia|]. change (10 ^ 31) with (10 * 10 ^ 30).
      assert (m * 10 ^ s / n < 10 ^ 30); [|lia]. apply Z.div_lt_upper_bound; [lia|].
      apply Z.lt_le_trans with (10 ^ ndigits m * 10 ^ s); [nia|].
      rewrite <- pow10_add by lia. replace (ndigits m + s) with (30 + (ndigits n - 1)) by (unfold prec in Hs; lia).
      rewrite pow10_add by lia. nia. }
    destruct Hc2 as [->|[Hd Hc2]]; [lia|].
    assert (10 ^ (ndigits c - prec) * 10 ^ j <= 10 ^ 3).
    { rewrite <- pow10_add by lia. apply Z.pow_le_mono_r; unfold prec in *; lia. }
    nia.
  - assert (10 ^ (s - p) <= m * 10 ^ s / n) as Hq.
    { apply Z.div_le_lower_bound; [lia|]. rewrite Hsp. nia. }
    pose proof (ndigits_shift_gt c j (s - p) Hc Hj ltac:(lia)) as Hd.
    destruct (ndigits_pos_bounds c Hc) as [Hdc _].
    transitivity (10 ^ (ndigits c - 1) * 10 ^ j); [|nia].
    rewrite <- pow10_add by lia. apply Z.pow_le_mono_r; lia.
Qed.

#[export] Hint Resolve dadd_nonneg dmul_nonneg dfix_nonneg : py.
