(* ===== verification/PyFloat.v ===== *)
(** * Python floats

    IEEE doubles as the Standard Library specifies them: the true division of
    two integers, subtraction, the comparisons and the literals the modelled
    modules use. *)
From S2P Require Import Prelude.
From Stdlib Require Export Floats.SpecFloat.
Open Scope Z_scope.

Notation double := spec_float.
Definition pos_double (m : positive) (e : Z) : double := S754_finite false m e.
(** [a / b] of two Python integers, correctly rounded. *)
Definition int_double (n : Z) : double :=
  match n with Z0 => S754_zero false | Zpos p => S754_finite false p 0 | Zneg p => S754_finite true p 0 end.
Definition int_div (a b : Z) : double := SFdiv 53 1024 (int_double a) (int_double b).
Definition fsub (x y : double) : double := SFsub 53 1024 x y.
Definition fdiv (x y : double) : double := SFdiv 53 1024 x y.
Definition fmul (x y : double) : double := SFmul 53 1024 x y.
(** [float(n)] of a number that fits *)
Definition double_of_Z (n : Z) : double := int_div n 1.
Notation "x <=f y" := (SFleb x y) (at level 70) : py_scope.
Notation "x <f y" := (SFltb x y) (at level 70) : py_scope.

Definition f0_80 : double := pos_double 7205759403792794 (-53).
Definition f0_95 : double := pos_double 8556839292003942 (-53).
Definition f0_05 : double := pos_double 7205759403792794 (-57).
Definition f0_00 : double := S754_zero false.

(** [ts.timestamp()] in doubles, and [int(x)] *)
Definition timestamp (us : Z) : double := int_div us 1000000.
Definition float_int (x : double) : Z :=
  match x with
  | S754_finite neg m e =>
      let n := if 0 <=? e then Zpos m * 2 ^ e else Zpos m / 2 ^ (- e) in if neg then - n else n
  | _ => 0
  end.
(** [int(ts.timestamp() * 1_000_000)] *)
Definition baseline_seq (us : Z) : Z := float_int (fmul (timestamp us) (int_double 1000000)).

(** ** Rounding

    A shift record stands for a quotient [x / d]: its mantissa, the next bit,
    and whether anything follows. *)

Definition stands_for (mrs : shr_record) (x d : Z) : Prop :=
  let '(Build_shr_record m r s) := mrs in
  0 <= m ∧ (2 * m + Z.b2z r) * d <= 2 * x < (2 * m + Z.b2z r + 1) * d ∧ (s = false ↔ (2 * m + Z.b2z r) * d = 2 * x).

Lemma shr_1_stands mrs x d : 0 < d → stands_for mrs x d → stands_for (shr_1 mrs) x (2 * d).
Proof.
  intros Hd. destruct mrs as [m r s]. intros (Hm&Hx&Hs).
  destruct m as [|[p|p|]|p]; [| | | |lia]; destruct r, s; cbn [shr_1 orb stands_for Z.b2z] in *; split_and!; try lia;
    (split; intros; [try done; try (assert (false = false) as Ht by done; apply Hs in Ht); lia|try done; exfalso; assert (true = false) by (apply Hs; lia); done]).
Qed.

Lemma shr_stands n mrs x d : 0 < d → stands_for mrs x d → stands_for (iter_pos shr_1 n mrs) x (2 ^ Zpos n * d).
Proof.
  revert mrs d. assert (∀ n mrs d, 0 < d → stands_for mrs x d → stands_for (iter_pos shr_1 n mrs) x (2 ^ Zpos n * d)) as H; [|auto].
  clear. induction n as [n IH|n IH|]; intros mrs d Hd Hs; cbn [iter_pos].
  - replace (2 ^ Zpos n~1 * d) with (2 ^ Zpos n * (2 ^ Zpos n * (2 * d))) by (rewrite (Pos2Z.inj_xI n), Z.pow_add_r, Z.pow_twice_r by lia; lia).
    apply IH; [lia|]. apply IH; [lia|]. by apply shr_1_stands.
  - replace (2 ^ Zpos n~0 * d) with (2 ^ Zpos n * (2 ^ Zpos n * d)) by (rewrite (Pos2Z.inj_xO n), Z.pow_twice_r; lia).
    apply IH; [lia|]. by apply IH.
  - change (2 ^ 1) with 2. by apply shr_1_stands.
Qed.

Lemma stands_location q r d : 0 < d → 0 <= q → 0 <= r < d → stands_for (shr_record_of_loc q (new_location d r)) (q * d + r) d.
Proof.
  intros Hd Hq Hr. unfold new_location, new_location_even, new_location_odd.
  assert (Z.even d = false → 2 * r + 1 ≠ d + 1) as Hodd.
  { intros Ho He. rewrite <- Z.negb_odd, negb_false_iff, Z.odd_spec in Ho. destruct Ho. lia. }
  destruct (Z.even d); (destruct (Z.eqb_spec r 0) as [->|Hne]; [cbn; split_and!; try lia; done|]).
  - destruct (Z.compare_spec (2 * r) d); cbn; split_and!; try lia; (split; intros; [done || lia|lia || done]).
  - destruct (Z.compare_spec (2 * r + 1) d); cbn; split_and!; try lia; (split; intros; [done || lia|lia || done]).
Qed.

Lemma round_near mrs x d : 0 < d → stands_for mrs x d →
  let n := round_nearest_even (shr_m mrs) (loc_of_shr_record mrs) in 0 <= n ∧ - d <= 2 * (n * d - x) <= d.
Proof.
  intros Hd. destruct mrs as [m r s]. intros (Hm&Hx&Hs). destruct r, s; cbn [shr_m loc_of_shr_record round_nearest_even Z.b2z] in *.
  - lia.
  - destruct Hs as [Hs _]. specialize (Hs eq_refl). destruct (Z.even m); lia.
  - lia.
  - lia.
Qed.

Lemma digits2_size p : digits2_pos p = Pos.size p.
Proof. induction p as [p IH|p IH|]; simpl; by rewrite ?IH. Qed.
Lemma Zdigits2_unique m k : 0 < k → 2 ^ (k - 1) <= m < 2 ^ k → Zdigits2 m = k.
Proof.
  intros Hk [Hlo Hhi]. assert (0 < m) as Hm by (pose proof (Z.pow_pos_nonneg 2 (k - 1)); lia).
  destruct m as [|p|p]; [lia| |lia]. cbn [Zdigits2]. rewrite digits2_size.
  pose proof (Pos.size_gt p) as Hgt. pose proof (Pos.size_le p) as Hle.
  assert (Zpos p < 2 ^ Zpos (Pos.size p)) as Hgt' by (rewrite <- Pos2Z.inj_pow; lia).
  assert (2 ^ Zpos (Pos.size p) <= 2 * Zpos p) as Hle' by (rewrite <- Pos2Z.inj_pow; lia).
  destruct (Z.lt_trichotomy (Zpos (Pos.size p)) k) as [Hlt|[->|Hgt2]]; [|done|].
  - pose proof (Z.pow_le_mono_r 2 (Zpos (Pos.size p)) (k - 1)). lia.
  - assert (2 ^ k <= 2 ^ (Zpos (Pos.size p) - 1)) by (apply Z.pow_le_mono_r; lia).
    replace (Zpos (Pos.size p)) with (Zpos (Pos.size p) - 1 + 1) in Hle' by lia. rewrite Z.pow_add_r in Hle' by lia. lia.
Qed.

Lemma shr_fexp_bits m e l k : 0 <= k → Zdigits2 m = 53 + k → -1000 <= e →
  shr_fexp 53 1024 m e l = shr (shr_record_of_loc m l) e k.
Proof. intros Hk Hd He. unfold shr_fexp. rewrite Hd. unfold fexp, emin. f_equal. lia. Qed.

(** Rounding to 53 bits: the result is the nearest number of that precision. *)
Lemma binary_round m e l k x d : 0 < d → 0 <= k → Zdigits2 m = 53 + k → -1000 <= e → e + k <= 900 →
  stands_for (shr_record_of_loc m l) x d →
  ∃ n, - (2 ^ k * d) <= 2 * (n * (2 ^ k * d) - x) <= 2 ^ k * d ∧
    (2 ^ 52 <= n < 2 ^ 53 → binary_round_aux 53 1024 false m e l = S754_finite false (Z.to_pos n) (e + k)).
Proof.
  intros Hd Hk Hdig He He' Hs. unfold binary_round_aux. rewrite (shr_fexp_bits m e l k) by done.
  assert (∃ mrs, shr (shr_record_of_loc m l) e k = (mrs, e + k) ∧ stands_for mrs x (2 ^ k * d)) as (mrs&->&Hmrs).
  { destruct k as [|p|p]; [|by eexists; split; [done|apply shr_stands]|lia].
    exists (shr_record_of_loc m l). rewrite Z.add_0_r, Z.pow_0_r, Z.mul_1_l. done. }
  assert (0 < 2 ^ k * d) as Hpos by (pose proof (Z.pow_pos_nonneg 2 k); nia).
  pose proof (round_near mrs x _ Hpos Hmrs) as [Hn Hnear]. eexists. split; [exact Hnear|]. intros Hrange.
  set (n := round_nearest_even _ _) in *. rewrite (shr_fexp_bits n (e + k) loc_Exact 0); [|lia|by apply Zdigits2_unique|lia].
  cbn [shr shr_record_of_loc shr_m]. destruct n as [|p|p]; [lia| |lia]. rewrite (proj2 (Z.leb_le _ _)) by lia. done.
Qed.

(** [timestamp] and the way back keep every microsecond from September 2005 to
    19 January 2038. *)
Lemma timestamp_near us : 2 ^ 50 < us < 2 ^ 31 * 1000000 →
  ∃ n, 2 ^ 52 <= n < 2 ^ 53 ∧ - 1000000 <= 2 * (n * 1000000 - us * 2 ^ 22) <= 1000000 ∧
    timestamp us = S754_finite false (Z.to_pos n) (-22).
Proof.
  intros Hus. unfold timestamp, int_div. destruct us as [|u|u]; [lia| |lia]. cbn [int_double SFdiv xorb].
  unfold SFdiv_core_binary. rewrite (Zdigits2_unique (Zpos u) 51) by lia. change (Zdigits2 1000000) with 20.
  change (Z.min (fexp 53 1024 (51 + 0 - (20 + 0))) (0 - 0)) with (-22). change (0 - 0 - -22) with 22. cbn iota.
  rewrite Z.shiftl_mul_pow2 by lia. pose proof (Z.div_mod (Zpos u * 2 ^ 22) 1000000 ltac:(lia)) as Hdm.
  pose proof (Z.mod_pos_bound (Zpos u * 2 ^ 22) 1000000 ltac:(lia)) as Hr.
  assert (Z.div_eucl (Zpos u * 2 ^ 22) 1000000 = (Zpos u * 2 ^ 22 / 1000000, Zpos u * 2 ^ 22 mod 1000000)) as ->.
  { unfold Z.div, Z.modulo. by destruct (Z.div_eucl _ _). }
  set (q := Zpos u * 2 ^ 22 / 1000000) in *. set (r := Zpos u * 2 ^ 22 mod 1000000) in *.
  destruct (binary_round q (-22) (new_location 1000000 r) 0 (q * 1000000 + r) 1000000) as (n&Hn&Heq); try lia.
  { apply Zdigits2_unique; lia. } { apply stands_location; lia. }
  exists n. rewrite Z.pow_0_r, Z.mul_1_l in Hn. assert (2 ^ 52 <= n < 2 ^ 53) as Hrange by lia.
  split; [done|]. split; [lia|]. by apply Heq.
Qed.

Lemma baseline_seq_exact us : 2 ^ 50 < us < 2 ^ 31 * 1000000 → baseline_seq us = us.
Proof.
  intros Hus. destruct (timestamp_near us Hus) as (n&Hn&Hnear&Ht). unfold baseline_seq, fmul. rewrite Ht. cbn [SFmul int_double xorb].
  destruct (binary_round (Zpos (Z.to_pos n * 1000000)) (-22 + 0) loc_Exact 20 (n * 1000000) 1) as (n2&Hn2&Heq); try lia.
  { apply Zdigits2_unique; [lia|]. rewrite Pos2Z.inj_mul, Z2Pos.id by lia. lia. }
  { cbn. rewrite Pos2Z.inj_mul, Z2Pos.id by lia. split_and!; lia. }
  assert (n2 = 4 * us) as -> by lia. rewrite Heq by lia. cbn [float_int]. rewrite Z2Pos.id by lia.
  change (0 <=? -22 + 0 + 20) with false. change (- (-22 + 0 + 20)) with 2. cbn iota. rewrite (Z.mul_comm 4). by apply Z.div_mul.
Qed.
