(* ===== verification/Dedup.v ===== *)
(** * Read-side deduplication of active-active nodes ([dedup.py])

    Logical keys, node priority, the quarantine back-pressure limiter and the
    four [deduplicate_*] functions.  Times are integers: [ts_utc],
    [received_at] in microseconds, [time.monotonic()] in nanoseconds, read
    from a stream [clock] (its [i]-th value is the [i]-th call). *)
From S2P Require Import Prelude PyDict PyDecimal.
Open Scope Z_scope.

Definition NODE_PRIORITY_DEFAULT_SENTINEL : string := "zzz_DEFAULT".
Definition QUARANTINE_RATE_LIMIT_PER_SEC : Z := 100.

(** ** Rows *)

Record candle := Candle {
  c_exchange : string; c_symbol : string; c_timeframe : string; c_ts_utc : Z;
  c_open : decimal; c_high : decimal; c_low : decimal; c_close : decimal; c_volume : decimal; c_value : option decimal;
  c_received_at : option Z; c_node_id : option string }.

Record tick := Tick {
  t_exchange : string; t_symbol : string; t_ts_utc : Z;
  t_price : decimal; t_quantity : decimal; t_side : string;
  t_raw_json : option string; t_node_id : option string;
  t_payload_hash : option string; t_ingest_seq : option Z }.

Record ob_event := ObEvent {
  o_exchange : string; o_symbol : string; o_ts_utc : Z; o_received_at : Z;
  o_event_type : string; o_side : string; o_level : Z;
  o_price : decimal; o_quantity : decimal;
  o_raw_json : option string; o_node_id : option string }.

(** ** Candle hash comparison *)

Section candle_hash.
(** [str] of the six fields joined with ['|'], then SHA-256: the digest is a
    parameter, the comparison is the code's. *)
Context (compute_data_hash : candle → string).

Inductive DedupStatus := UNIQUE | SAME_HASH | HASH_CONFLICT.

(** Returns the status and the caller's dictionary after the call. *)
Definition is_duplicate (c : candle) (seen_hashes : dict Z string) : DedupStatus * dict Z string :=
  let current_hash := compute_data_hash c in
  let key := c_ts_utc c in
  match dget seen_hashes key with
  | None => (UNIQUE, dset seen_hashes key current_hash)
  | Some prior_hash =>
      if String.eqb prior_hash current_hash then (SAME_HASH, seen_hashes)
      else (HASH_CONFLICT, seen_hashes)
  end.
End candle_hash.

(** ** Logical keys: [Decimal]s enter through their canonical key *)

Definition candle_key : Type := string * string * string * Z.
Definition tick_key : Type := string * string * Z * (Z * Z) * (Z * Z) * string.
Definition tick_v1_1_key : Type := tick_key * option string * option Z.
Definition orderbook_key : Type := string * string * Z * string * string * Z * (Z * Z) * (Z * Z).

Definition candle_logical_key (row : candle) : candle_key :=
  (c_exchange row, c_symbol row, c_timeframe row, c_ts_utc row).
Definition tick_logical_key (row : tick) : tick_key :=
  (t_exchange row, t_symbol row, t_ts_utc row, dkey (t_price row), dkey (t_quantity row), t_side row).
Definition tick_v1_1_logical_key (row : tick) : tick_v1_1_key :=
  (tick_logical_key row, t_payload_hash row, t_ingest_seq row).
Definition orderbook_logical_key (row : ob_event) : orderbook_key :=
  (o_exchange row, o_symbol row, o_ts_utc row, o_event_type row, o_side row, o_level row,
   dkey (o_price row), dkey (o_quantity row)).

(** ** Node priority: the lower string wins *)

Definition node_priority (node_id : option string) : string :=
  match node_id with
  | None => NODE_PRIORITY_DEFAULT_SENTINEL
  | Some s => if String.eqb s "" then NODE_PRIORITY_DEFAULT_SENTINEL else s
  end.

Definition priority_lt (new old : option string) : bool :=
  String.ltb (node_priority new) (node_priority old).

(** ** Quarantine records and the back-pressure limiter *)

Record quarantine_record (key row : Type) := QuarantineRecord {
  q_reason : string; q_tier : string; q_logical_key : key; q_rows : list row; q_detected_at : Z }.
Arguments QuarantineRecord {key row}.
Arguments q_rows {key row}.

Record limiter (A : Type) := Limiter {
  l_cap : Z; l_window_start : Z; l_window_count : Z; l_batch : list A; l_artifact_count : Z }.
Arguments Limiter {A}.
Arguments l_cap {A}.
Arguments l_window_start {A}.
Arguments l_window_count {A}.
Arguments l_batch {A}.
Arguments l_artifact_count {A}.

Section limiter_ops.
Context {A : Type}.

Definition one_second : Z := 1000000000.

Definition new_limiter (cap now : Z) : limiter A := Limiter cap now 0 [] 0.

(** [_BackpressureLimiter.admit]: the new state and [(emit_now, batch_to_emit)]. *)
Definition admit_record (l : limiter A) (now : Z) (record : A)
    : limiter A * (bool * option (list A)) :=
  let rollover := one_second <=? now - l_window_start l in
  let l := if rollover then Limiter (l_cap l) now 0 (l_batch l) (l_artifact_count l) else l in
  if rollover && (match l_batch l with [] => false | _ => true end) then
    (Limiter (l_cap l) (l_window_start l) (l_window_count l) [record] (l_artifact_count l + 1),
     (true, Some (l_batch l)))
  else
    let count := l_window_count l + 1 in
    if count <=? l_cap l then
      (Limiter (l_cap l) (l_window_start l) count (l_batch l) (l_artifact_count l + 1),
       (true, Some [record]))
    else
      (Limiter (l_cap l) (l_window_start l) count (l_batch l ++ [record]) (l_artifact_count l),
       (false, None)).

(** [_BackpressureLimiter.flush] *)
Definition flush (l : limiter A) : limiter A * list A :=
  match l_batch l with
  | [] => (l, [])
  | batch => (Limiter (l_cap l) (l_window_start l) (l_window_count l) [] (l_artifact_count l + 1), batch)
  end.

(** [if emit_now and batch: records.extend(batch)] *)
Definition extend_emitted (records : list A) (out : bool * option (list A)) : list A :=
  match out with
  | (true, Some batch) => records ++ batch
  | _ => records
  end.
End limiter_ops.

Inductive sink_call := IncrementDupSkip (n : nat) | IncrementQuarantine (n : nat).

Record dedup_result (key row : Type) := DedupResult {
  emitted : list row; dup_skip_count : nat; quarantine_count : nat;
  quarantine_records : list (quarantine_record key row); sink_calls : list sink_call }.
Arguments DedupResult {key row}.
Arguments emitted {key row}.
Arguments dup_skip_count {key row}.
Arguments quarantine_count {key row}.
Arguments quarantine_records {key row}.
Arguments sink_calls {key row}.

(** The calls on the optional counter sink at the end of a scan. *)
Definition sink_report (sink : bool) (dup_skip quarantined : nat) : list sink_call :=
  if sink then
    (if (0 <? dup_skip)%nat then [IncrementDupSkip dup_skip] else []) ++
    (if (0 <? quarantined)%nat then [IncrementQuarantine quarantined] else [])
  else [].

(** ** T1 candles: the latest received row wins, ties by node priority *)

Definition effective_received_at (row : candle) : Z :=
  default (c_ts_utc row) (c_received_at row).

(** Does [row] replace [existing]? *)
Definition candle_beats (row existing : candle) : bool :=
  let new_ra := effective_received_at row in
  let old_ra := effective_received_at existing in
  if old_ra <? new_ra then true
  else if new_ra <? old_ra then false
  else priority_lt (c_node_id row) (c_node_id existing).

Definition candle_step (st : dict candle_key candle * nat) (row : candle) : dict candle_key candle * nat :=
  let '(by_key, dup_skip) := st in
  let key := candle_logical_key row in
  match dget by_key key with
  | None => (dset by_key key row, dup_skip)
  | Some existing =>
      ((if candle_beats row existing then dset by_key key row else by_key), S dup_skip)
  end.

Definition deduplicate_candles (rows : list candle) (multi_node sink : bool)
    : dedup_result candle_key candle :=
  if multi_node then
    let '(by_key, dup_skip) := foldl candle_step ([], 0%nat) rows in
    DedupResult (sorted_by c_ts_utc (dvalues by_key)) dup_skip 0 [] (sink_report sink dup_skip 0)
  else DedupResult (sorted_by c_ts_utc rows) 0 0 [] [].

(** ** T2 ticks and T3 order-book events: one row per key, content mismatch
    is quarantined.  The two bodies of the source differ in the key extractor
    and the tier label only. *)

Section mismatch_dedup.
Context {row key : Type} `{EqDecision key}.
Context (logical_key : row → key) (ts_utc : row → Z)
        (raw_json node_id : row → option string) (tier : string).

Record mismatch_state := MismatchState {
  m_by_key : dict key row; m_dup_skip : nat; m_quarantine_count : nat;
  m_records : list (quarantine_record key row);
  m_limiter : limiter (quarantine_record key row); m_reads : nat }.

(** [existing_raw is not None and new_raw is not None and existing_raw != new_raw] *)
Definition raw_mismatch (existing new : row) : bool :=
  match raw_json existing, raw_json new with
  | Some a, Some b => negb (String.eqb a b)
  | _, _ => false
  end.

Definition mismatch_record (detected_at : Z) (k : key) (existing new : row) : quarantine_record key row :=
  QuarantineRecord "ACTIVE_ACTIVE_MISMATCH" tier k [existing; new] detected_at.

Definition mismatch_step (clock : nat → Z) (detected_at : Z) (st : mismatch_state) (r : row)
    : mismatch_state :=
  let k := logical_key r in
  match dget (m_by_key st) k with
  | None =>
      MismatchState (dset (m_by_key st) k r) (m_dup_skip st) (m_quarantine_count st)
        (m_records st) (m_limiter st) (m_reads st)
  | Some existing =>
      if raw_mismatch existing r then
        let '(lim, out) := admit_record (m_limiter st) (clock (m_reads st))
                             (mismatch_record detected_at k existing r) in
        MismatchState
          (if priority_lt (node_id r) (node_id existing) then dset (m_by_key st) k r else m_by_key st)
          (m_dup_skip st) (S (m_quarantine_count st))
          (extend_emitted (m_records st) out) lim (S (m_reads st))
      else
        MismatchState (m_by_key st) (S (m_dup_skip st)) (m_quarantine_count st)
          (m_records st) (m_limiter st) (m_reads st)
  end.

(** The limiter's constructor makes the first clock reading. *)
Definition mismatch_init (clock : nat → Z) : mismatch_state :=
  MismatchState [] 0 0 [] (new_limiter QUARANTINE_RATE_LIMIT_PER_SEC (clock 0%nat)) 1.

Definition deduplicate_mismatch (rows : list row) (multi_node sink : bool)
    (clock : nat → Z) (detected_at : Z) : dedup_result key row :=
  if multi_node then
    let st := foldl (mismatch_step clock detected_at) (mismatch_init clock) rows in
    let '(_, final_batch) := flush (m_limiter st) in
    DedupResult (sorted_by ts_utc (dvalues (m_by_key st)))
      (m_dup_skip st) (m_quarantine_count st) (m_records st ++ final_batch)
      (sink_report sink (m_dup_skip st) (m_quarantine_count st))
  else DedupResult (sorted_by ts_utc rows) 0 0 [] [].
End mismatch_dedup.

Definition deduplicate_ticks : list tick → bool → bool → (nat → Z) → Z → dedup_result tick_key tick :=
  deduplicate_mismatch tick_logical_key t_ts_utc t_raw_json t_node_id "tick".

Definition deduplicate_orderbook_events
    : list ob_event → bool → bool → (nat → Z) → Z → dedup_result orderbook_key ob_event :=
  deduplicate_mismatch orderbook_logical_key o_ts_utc o_raw_json o_node_id "orderbook".

(** ** T2 tick.v1.1: an 8-tuple key, mismatch on [payload_hash] inside a body *)

Record v11_state := V11State {
  v_by_full_key : dict tick_v1_1_key tick;
  v_by_body : dict tick_key (list (tick_v1_1_key * tick));
  v_dup_skip : nat; v_quarantine_count : nat;
  v_records : list (quarantine_record tick_key tick);
  v_limiter : limiter (quarantine_record tick_key tick); v_reads : nat }.

(** [prior_full[6]] *)
Definition key_payload_hash (k : tick_v1_1_key) : option string := k.1.2.

Definition payload_mismatch (new_ph prior_ph : option string) : bool :=
  match new_ph, prior_ph with
  | Some a, Some b => negb (String.eqb a b)
  | _, _ => false
  end.

(** The first prior whose payload hash differs: the loop breaks there. *)
Definition first_mismatch (new_ph : option string) (priors : list (tick_v1_1_key * tick))
    : option (tick_v1_1_key * tick) :=
  List.find (λ p, payload_mismatch new_ph (key_payload_hash p.1)) priors.

Definition v11_step (clock : nat → Z) (detected_at : Z) (st : v11_state) (row : tick) : res v11_state :=
  let full_key := tick_v1_1_logical_key row in
  let body := tick_logical_key row in
  if dmem (v_by_full_key st) full_key then
    Ok (V11State (v_by_full_key st) (v_by_body st) (S (v_dup_skip st)) (v_quarantine_count st)
          (v_records st) (v_limiter st) (v_reads st))
  else
    let '(prior_rows, by_body) := dsetdefault (v_by_body st) body [] in
    match first_mismatch (t_payload_hash row) prior_rows with
    | Some (prior_full, prior_row) =>
        let qr := QuarantineRecord "ACTIVE_ACTIVE_MISMATCH" "tick" body [prior_row; row] detected_at in
        let '(lim, out) := admit_record (v_limiter st) (clock (v_reads st)) qr in
        let records := extend_emitted (v_records st) out in
        if priority_lt (t_node_id row) (t_node_id prior_row) then
          rbind (ddel (v_by_full_key st) prior_full) (λ by_full_key,
            Ok (V11State (dset by_full_key full_key row) (dset by_body body [(full_key, row)])
                  (v_dup_skip st) (S (v_quarantine_count st)) records lim (S (v_reads st))))
        else
          Ok (V11State (v_by_full_key st) by_body (v_dup_skip st) (S (v_quarantine_count st))
                records lim (S (v_reads st)))
    | None =>
        Ok (V11State (dset (v_by_full_key st) full_key row)
              (dset by_body body (prior_rows ++ [(full_key, row)]))
              (v_dup_skip st) (v_quarantine_count st) (v_records st) (v_limiter st) (v_reads st))
    end.

Fixpoint v11_loop (clock : nat → Z) (detected_at : Z) (st : v11_state) (rows : list tick) : res v11_state :=
  match rows with
  | [] => Ok st
  | row :: rows' => rbind (v11_step clock detected_at st row) (λ st', v11_loop clock detected_at st' rows')
  end.

Definition v11_init (clock : nat → Z) : v11_state :=
  V11State [] [] 0 0 [] (new_limiter QUARANTINE_RATE_LIMIT_PER_SEC (clock 0%nat)) 1.

Definition deduplicate_ticks_v1_1 (rows : list tick) (multi_node sink : bool)
    (clock : nat → Z) (detected_at : Z) : res (dedup_result tick_key tick) :=
  if multi_node then
    rbind (v11_loop clock detected_at (v11_init clock) rows) (λ st,
      let '(_, final_batch) := flush (v_limiter st) in
      Ok (DedupResult (sorted_by t_ts_utc (dvalues (v_by_full_key st)))
            (v_dup_skip st) (v_quarantine_count st) (v_records st ++ final_batch)
            (sink_report sink (v_dup_skip st) (v_quarantine_count st))))
  else Ok (DedupResult (sorted_by t_ts_utc rows) 0 0 [] []).

(** ** Lemmas on the limiter *)

Section limiter_lemmas.
Context {A : Type}.
Implicit Types (l : limiter A) (records : list A).

Lemma admit_record_lossless l now r records l' out :
  admit_record l now r = (l', out) →
  extend_emitted records out ++ l_batch l' ≡ₚ (records ++ l_batch l) ++ [r].
Proof.
  unfold admit_record. destruct l as [cap ws wc batch ac]; simpl.
  intros Heq. destruct (one_second <=? now - ws), batch as [|b batch]; simpl in *;
    repeat py_case_in Heq; simplify_eq; simpl; rewrite ?app_nil_r, <- ?app_assoc; try done;
    f_equiv; try done; rewrite <- (Permutation_app_comm [r]); try done.
Qed.

Lemma flush_lossless l records :
  records ++ (flush l).2 = records ++ l_batch l.
Proof. unfold flush. by destruct (l_batch l). Qed.
End limiter_lemmas.

(** ** Lemmas on the key/mismatch loop *)

Section mismatch_lemmas.
Context {row key : Type} `{EqDecision key}.
Context (logical_key : row → key)
        (raw_json node_id : row → option string) (tier : string).
Local Notation step := (mismatch_step logical_key raw_json node_id tier).
Local Notation state := (@mismatch_state row key).

(** The mismatches of a scan, without limiter or clock: the reference the
    rate-limited records are compared with. *)
Fixpoint reference_mismatches (detected_at : Z) (d : dict key row) (rows : list row)
    : list (quarantine_record key row) :=
  match rows with
  | [] => []
  | r :: rows' =>
      let k := logical_key r in
      match dget d k with
      | None => reference_mismatches detected_at (dset d k r) rows'
      | Some existing =>
          if raw_mismatch raw_json existing r then
            mismatch_record tier detected_at k existing r ::
            reference_mismatches detected_at
              (if priority_lt (node_id r) (node_id existing) then dset d k r else d) rows'
          else reference_mismatches detected_at d rows'
      end
  end.

(** The loop invariant over the rows already read. *)
Record mismatch_inv (seen : list row) (st : state) : Prop := {
  mi_wf : dict_wf (m_by_key st);
  mi_rows : ∀ k r, (k, r) ∈ m_by_key st → logical_key r = k ∧ r ∈ seen;
  mi_keys : ∀ r, r ∈ seen → logical_key r ∈ dkeys (m_by_key st);
  mi_count : length seen = (length (m_by_key st) + m_dup_skip st + m_quarantine_count st)%nat }.

Lemma mismatch_inv_replace seen st r :
  mismatch_inv seen st → logical_key r ∈ dkeys (m_by_key st) →
  let d := dset (m_by_key st) (logical_key r) r in
  dict_wf d ∧ (∀ k x, (k, x) ∈ d → logical_key x = k ∧ x ∈ seen ++ [r]) ∧
  (∀ x, x ∈ seen ++ [r] → logical_key x ∈ dkeys d).
Proof.
  intros [Hwf Hrows Hkeys _] Hin d. subst d. split_and!; [by apply dict_wf_dset| |].
  - intros k x Hx%elem_dget; [|by apply dict_wf_dset].
    destruct (decide (k = logical_key r)) as [->|Hne].
    + rewrite dget_dset_eq in Hx. simplify_eq. set_solver.
    + rewrite dget_dset_ne in Hx by done. apply dget_Some_elem, Hrows in Hx. set_solver.
  - intros x. rewrite dkeys_dset_elem. intros [?| <-%list_elem_of_singleton]%elem_of_app; auto.
Qed.

Lemma mismatch_inv_keep seen st r :
  mismatch_inv seen st → logical_key r ∈ dkeys (m_by_key st) →
  (∀ k x, (k, x) ∈ m_by_key st → logical_key x = k ∧ x ∈ seen ++ [r]) ∧
  (∀ x, x ∈ seen ++ [r] → logical_key x ∈ dkeys (m_by_key st)).
Proof.
  intros [Hwf Hrows Hkeys _] Hin. split.
  - intros k x Hx. apply Hrows in Hx. set_solver.
  - intros x [?| ->%list_elem_of_singleton]%elem_of_app; auto.
Qed.

Lemma mismatch_step_inv clock detected_at seen st r :
  mismatch_inv seen st → mismatch_inv (seen ++ [r]) (step clock detected_at st r).
Proof.
  intros Hinv. pose proof (mi_wf _ _ Hinv) as Hwf. pose proof (mi_count _ _ Hinv) as Hc.
  unfold mismatch_step. destruct (dget _ _) as [existing|] eqn:Hg.
  - assert (logical_key r ∈ dkeys (m_by_key st)) as Hin by (apply dget_is_Some; eauto).
    pose proof (length_dset_mem (m_by_key st) (logical_key r) r Hin) as Hlen.
    destruct (mismatch_inv_replace _ _ _ Hinv Hin) as (?&?&?).
    destruct (mismatch_inv_keep _ _ _ Hinv Hin) as (?&?).
    destruct (raw_mismatch _ _ _); [destruct (admit_record _ _ _); destruct (priority_lt _ _)|];
      split; simpl; auto; rewrite length_app; simpl; lia.
  - apply dget_None in Hg. pose proof (length_dset_new _ _ r Hg) as Hlen.
    split; simpl; [by apply dict_wf_dset| | |rewrite length_app; simpl; lia].
    + intros k x. rewrite dset_new by done.
      intros [Hx|Heq%list_elem_of_singleton]%elem_of_app; [apply (mi_rows _ _ Hinv) in Hx; set_solver|].
      simplify_eq. set_solver.
    + intros x. rewrite dkeys_dset_elem.
      intros [Hx| ->%list_elem_of_singleton]%elem_of_app; [right; by apply (mi_keys _ _ Hinv)|by left].
Qed.

Lemma mismatch_loop_inv clock detected_at rows seen st :
  mismatch_inv seen st →
  mismatch_inv (seen ++ rows) (foldl (step clock detected_at) st rows).
Proof.
  revert seen st. induction rows as [|r rows IH]; intros seen st Hinv; simpl.
  - by rewrite app_nil_r.
  - rewrite cons_middle, app_assoc. by apply IH, mismatch_step_inv.
Qed.

Lemma mismatch_init_inv clock : mismatch_inv [] (mismatch_init clock : state).
Proof. split; simpl; [apply dict_wf_nil|set_solver|set_solver|done]. Qed.

(** The rate-limited records plus the pending batch are the reference list. *)
Lemma mismatch_loop_records clock detected_at rows st :
  let st' := foldl (step clock detected_at) st rows in
  m_records st' ++ l_batch (m_limiter st') ≡ₚ
  (m_records st ++ l_batch (m_limiter st)) ++ reference_mismatches detected_at (m_by_key st) rows
  ∧ m_quarantine_count st' =
    (m_quarantine_count st + length (reference_mismatches detected_at (m_by_key st) rows))%nat.
Proof.
  revert st. induction rows as [|r rows IH]; intros st; simpl.
  { rewrite app_nil_r. split; [done|lia]. }
  destruct (IH (step clock detected_at st r)) as [Hp Hq]. rewrite Hp, Hq. clear Hp Hq IH.
  unfold mismatch_step. destruct (dget _ _) as [existing|]; [|done].
  destruct (raw_mismatch _ _ _); [|done].
  destruct (admit_record _ _ _) as [lim out] eqn:Ha. simpl.
  rewrite (admit_record_lossless _ _ _ (m_records st) _ _ Ha). split; [|lia].
  by rewrite <- app_assoc.
Qed.
End mismatch_lemmas.

Lemma foldl_records_clockless {row key} `{EqDecision key} logical_key raw_json node_id tier
    (c1 c2 : nat → Z) d rows (s1 s2 : @mismatch_state row key) :
  m_by_key s1 = m_by_key s2 → m_dup_skip s1 = m_dup_skip s2 →
  let f c := foldl (mismatch_step logical_key raw_json node_id tier c d) in
  m_by_key (f c1 s1 rows) = m_by_key (f c2 s2 rows) ∧
  m_dup_skip (f c1 s1 rows) = m_dup_skip (f c2 s2 rows).
Proof.
  revert s1 s2. induction rows as [|r rows IH]; intros s1 s2 Hk Hd; simpl; [done|].
  apply IH; unfold mismatch_step; rewrite Hk;
    destruct (dget _ _); [|by simpl| |by simpl];
    (destruct (raw_mismatch _ _ _); [|simpl; congruence]);
    destruct (admit_record (m_limiter s1) _ _), (admit_record (m_limiter s2) _ _); done.
Qed.

(** ** T1 lemmas: the survivor of a key is a maximum of a total preorder *)

Lemma string_ltb_leb s t : String.ltb s t = negb (String.leb t s).
Proof.
  unfold String.ltb, String.leb. rewrite (String.compare_antisym s t).
  by destruct (t ?= s)%string.
Qed.

(** The rank of a row: later [received_at] first, then the lower priority. *)
Definition candle_rank_le (r s : candle) : bool :=
  (effective_received_at r <? effective_received_at s) ||
  ((effective_received_at r =? effective_received_at s) &&
   String.leb (node_priority (c_node_id s)) (node_priority (c_node_id r))).

Lemma candle_beats_rank r s : candle_beats r s = negb (candle_rank_le r s).
Proof.
  unfold candle_beats, candle_rank_le, priority_lt. rewrite string_ltb_leb.
  destruct (Z.ltb_spec (effective_received_at s) (effective_received_at r));
  destruct (Z.ltb_spec (effective_received_at r) (effective_received_at s));
  destruct (Z.eqb_spec (effective_received_at r) (effective_received_at s)); simpl; try lia; done.
Qed.

Lemma candle_rank_total r s : candle_rank_le r s = true ∨ candle_rank_le s r = true.
Proof.
  unfold candle_rank_le.
  destruct (Z.ltb_spec (effective_received_at s) (effective_received_at r)); [by right|].
  destruct (Z.ltb_spec (effective_received_at r) (effective_received_at s)); [by left|].
  rewrite (proj2 (Z.eqb_eq (effective_received_at r) (effective_received_at s))) by lia.
  rewrite (proj2 (Z.eqb_eq (effective_received_at s) (effective_received_at r))) by lia.
  simpl. apply String.leb_total.
Qed.

Lemma string_leb_trans a b c : String.leb a b = true → String.leb b c = true → String.leb a c = true.
Proof. intros H1 H2. apply Is_true_true. eapply (transitivity (R := String.le)); by apply Is_true_true. Qed.

Lemma candle_rank_trans r s t :
  candle_rank_le r s = true → candle_rank_le s t = true → candle_rank_le r t = true.
Proof.
  unfold candle_rank_le. rewrite !orb_true_iff, !andb_true_iff, !Z.ltb_lt, !Z.eqb_eq.
  intros [?|[??]] [?|[??]]; [left; lia..|right]. split; [lia|]. by eapply string_leb_trans.
Qed.

Record candle_inv (seen : list candle) (st : dict candle_key candle * nat) : Prop := {
  ci_wf : dict_wf st.1;
  ci_rows : ∀ k r, (k, r) ∈ st.1 →
    candle_logical_key r = k ∧ r ∈ seen ∧
    ∀ x, x ∈ seen → candle_logical_key x = k → candle_rank_le x r = true;
  ci_keys : ∀ r, r ∈ seen → candle_logical_key r ∈ dkeys st.1;
  ci_count : length seen = (length st.1 + st.2)%nat }.

Lemma candle_step_inv seen st r :
  candle_inv seen st → candle_inv (seen ++ [r]) (candle_step st r).
Proof.
  destruct st as [d n]. intros [Hwf Hrows Hkeys Hc]; simpl in *.
  unfold candle_step. destruct (dget d _) as [existing|] eqn:Hg.
  - assert (candle_logical_key r ∈ dkeys d) as Hin by (apply dget_is_Some; eauto).
    destruct (Hrows _ _ (dget_Some_elem _ _ _ Hg)) as (Hek&Hes&Hmax).
    pose proof (length_dset_mem d _ r Hin) as Hlen.
    assert (∀ x, x ∈ seen ++ [r] → candle_logical_key x ∈ dkeys d) as Hkeys'.
    { intros x [?| ->%list_elem_of_singleton]%elem_of_app; auto. }
    rewrite candle_beats_rank. destruct (candle_rank_le r existing) eqn:Hr; simpl.
    + split; simpl; [done| |done|rewrite length_app; simpl; lia].
      intros k x Hx. destruct (Hrows _ _ Hx) as (Hk&Hs&Hm). split_and!; [done|set_solver|].
      intros y [Hy| ->%list_elem_of_singleton]%elem_of_app Hky; [by apply Hm|].
      apply elem_dget in Hx; [|done]. rewrite <- Hky in Hx. simplify_eq. done.
    + split; simpl; [by apply dict_wf_dset| | |rewrite length_app; simpl; lia].
      * intros k x Hx%elem_dget; [|by apply dict_wf_dset].
        destruct (decide (k = candle_logical_key r)) as [->|Hne].
        -- rewrite dget_dset_eq in Hx. simplify_eq. split_and!; [done|set_solver|].
           assert (candle_rank_le existing x = true) as Hex.
           { destruct (candle_rank_total x existing); congruence. }
           intros y [Hy| ->%list_elem_of_singleton]%elem_of_app Hky.
           ++ apply candle_rank_trans with existing; auto.
           ++ destruct (candle_rank_total x x); done.
        -- rewrite dget_dset_ne in Hx by done. apply dget_Some_elem, Hrows in Hx as (?&?&Hm).
           split_and!; [done|set_solver|].
           intros y [Hy| ->%list_elem_of_singleton]%elem_of_app Hky; [auto|congruence].
      * intros x Hx. rewrite dkeys_dset_mem by done. auto.
  - apply dget_None in Hg. pose proof (length_dset_new d _ r Hg) as Hlen.
    split; simpl; [by apply dict_wf_dset| | |rewrite length_app; simpl; lia].
    + intros k x. rewrite dset_new by done.
      intros [Hx|Heq%list_elem_of_singleton]%elem_of_app.
      * pose proof (dget_is_Some d k) as Hdk.
        destruct (Hrows _ _ Hx) as (Hk&Hs&Hm). split_and!; [done|set_solver|].
        intros y [Hy| ->%list_elem_of_singleton]%elem_of_app Hky; [auto|].
        destruct Hg. rewrite Hky. by apply (list_elem_of_fmap_2 fst) in Hx.
      * simplify_eq. split_and!; [done|set_solver|].
        intros y [Hy| ->%list_elem_of_singleton]%elem_of_app Hky.
        -- destruct Hg. rewrite <- Hky. auto.
        -- destruct (candle_rank_total r r); done.
    + intros x. rewrite dkeys_dset_elem.
      intros [Hx| ->%list_elem_of_singleton]%elem_of_app; auto.
Qed.

Lemma candle_loop_inv rows seen st :
  candle_inv seen st → candle_inv (seen ++ rows) (foldl candle_step st rows).
Proof.
  revert seen st. induction rows as [|r rows IH]; intros seen st Hinv; simpl.
  - by rewrite app_nil_r.
  - rewrite cons_middle, app_assoc. by apply IH, candle_step_inv.
Qed.

Lemma candle_init_inv : candle_inv [] ([], 0%nat).
Proof. split; simpl; [apply dict_wf_nil|set_solver|set_solver|done]. Qed.

Lemma candle_emitted_elem rows sink s :
  s ∈ emitted (deduplicate_candles rows true sink) ↔
  s ∈ dvalues (foldl candle_step ([], 0%nat) rows).1.
Proof.
  unfold deduplicate_candles. destruct (foldl _ _ _) as [d n]; simpl. by rewrite sorted_by_perm.
Qed.

(** ** tick.v1.1 lemmas *)

(** A key's first component is its six-field body. *)
Definition key_body (k : tick_v1_1_key) : tick_key := k.1.1.

Record v11_inv (seen : list tick) (st : v11_state) : Prop := {
  vi_wf : dict_wf (v_by_full_key st);
  vi_wf_body : dict_wf (v_by_body st);
  vi_rows : ∀ k r, (k, r) ∈ v_by_full_key st → tick_v1_1_logical_key r = k ∧ r ∈ seen;
  vi_body : ∀ b l k r, (b, l) ∈ v_by_body st → (k, r) ∈ l →
    k ∈ dkeys (v_by_full_key st) ∧ key_body k = b;
  vi_bodies : ∀ r, r ∈ seen → ∃ k, k ∈ dkeys (v_by_full_key st) ∧ key_body k = tick_logical_key r;
  vi_count : length seen =
    (length (v_by_full_key st) + v_dup_skip st + v_quarantine_count st)%nat }.

Lemma v11_init_inv clock : v11_inv [] (v11_init clock).
Proof. split; simpl; [apply dict_wf_nil|apply dict_wf_nil|set_solver|set_solver|set_solver|done]. Qed.

Lemma key_body_of r : key_body (tick_v1_1_logical_key r) = tick_logical_key r.
Proof. done. Qed.

Lemma first_mismatch_elem ph l p : first_mismatch ph l = Some p → p ∈ l.
Proof. intros Hf. apply List.find_some in Hf as [Hin _]. by apply list_elem_of_In. Qed.

(** What [setdefault] hands to the loop: the priors of this body. *)
Lemma v11_setdefault seen st body priors by_body :
  v11_inv seen st → dsetdefault (v_by_body st) body [] = (priors, by_body) →
  dict_wf by_body ∧
  (∀ b l k r, (b, l) ∈ by_body → (k, r) ∈ l → k ∈ dkeys (v_by_full_key st) ∧ key_body k = b) ∧
  (∀ k r, (k, r) ∈ priors → k ∈ dkeys (v_by_full_key st) ∧ key_body k = body).
Proof.
  intros Hinv Hd. unfold dsetdefault in Hd. destruct (dget _ _) as [l|] eqn:Hg; simplify_eq.
  - split_and!; [apply Hinv| |].
    + intros. by eapply (vi_body _ _ Hinv).
    + intros k r Hk. eapply (vi_body _ _ Hinv); [by apply dget_Some_elem|done].
  - apply dget_None in Hg. split_and!; [apply dict_wf_dset, Hinv| |set_solver].
    intros b l k r. rewrite dset_new by done.
    intros [Hb|Hb%list_elem_of_singleton]%elem_of_app Hk; [by eapply (vi_body _ _ Hinv)|].
    simplify_eq. set_solver.
Qed.

(** The row's own entry of [by_body] after the step. *)
Lemma v11_by_body_dset (by_body : dict tick_key (list (tick_v1_1_key * tick))) body new
    (full' : dict tick_v1_1_key tick) :
  dict_wf by_body →
  (∀ b l k r, b ≠ body → (b, l) ∈ by_body → (k, r) ∈ l → k ∈ dkeys full' ∧ key_body k = b) →
  (∀ k r, (k, r) ∈ new → k ∈ dkeys full' ∧ key_body k = body) →
  ∀ b l k r, (b, l) ∈ dset by_body body new → (k, r) ∈ l → k ∈ dkeys full' ∧ key_body k = b.
Proof.
  intros Hwf Hold Hnew b l k r Hb%elem_dget Hk; [|by apply dict_wf_dset].
  destruct (decide (b = body)) as [->|Hne].
  - rewrite dget_dset_eq in Hb. simplify_eq. by eapply Hnew.
  - rewrite dget_dset_ne in Hb by done. eapply Hold; [done|by apply dget_Some_elem|done].
Qed.

(** A lower-priority prior leaves, the new row takes its place. *)
Lemma v11_replace_inv seen st by_body pk r q recs lim n :
  v11_inv seen st → tick_v1_1_logical_key r ∉ dkeys (v_by_full_key st) →
  pk ∈ dkeys (v_by_full_key st) → key_body pk = tick_logical_key r → dict_wf by_body →
  (∀ b l k x, (b, l) ∈ by_body → (k, x) ∈ l → k ∈ dkeys (v_by_full_key st) ∧ key_body k = b) →
  q = S (v_quarantine_count st) →
  v11_inv (seen ++ [r])
    (V11State (dset (dremove (v_by_full_key st) pk) (tick_v1_1_logical_key r) r)
       (dset by_body (tick_logical_key r) [(tick_v1_1_logical_key r, r)])
       (v_dup_skip st) q recs lim n).
Proof.
  intros [Hwf Hwfb Hrows Hbody Hbodies Hc] Hg Hpk Hpb Hwfb' Hbody' ->.
  destruct (dict_replace _ _ _ r Hwf Hpk Hg) as (Hwff&Hlen&Helem&Hkeys).
  split; simpl; [done|by apply dict_wf_dset| | | |rewrite length_app, Hlen; simpl; lia].
  - intros k x [Hx|Hx]%Helem; [apply Hrows in Hx; set_solver|simplify_eq; set_solver].
  - apply v11_by_body_dset; [done| |].
    + intros b l k x Hb Hl Hk. destruct (Hbody' _ _ _ _ Hl Hk) as [Hin Hkb].
      split; [|done]. apply Hkeys. right. split; [done|congruence].
    + intros k x Hk%list_elem_of_singleton. simplify_eq. rewrite Hkeys. auto.
  - intros y Hy.
    assert (∃ k, (k = tick_v1_1_logical_key r ∨ k ∈ dkeys (v_by_full_key st)) ∧
                 key_body k = tick_logical_key y) as (k&Hk&Hkb).
    { apply elem_of_app in Hy as [Hy| ->%list_elem_of_singleton].
      - destruct (Hbodies _ Hy) as (k&?&?). eauto.
      - exists (tick_v1_1_logical_key r). eauto. }
    destruct (decide (k = pk)) as [->|Hne].
    + exists (tick_v1_1_logical_key r). rewrite key_body_of, Hkeys. split; [by left|congruence].
    + exists k. rewrite Hkeys. tauto.
Qed.

(** No prior disagrees: the row joins its body. *)
Lemma v11_append_inv seen st by_body priors r :
  v11_inv seen st → tick_v1_1_logical_key r ∉ dkeys (v_by_full_key st) → dict_wf by_body →
  (∀ b l k x, (b, l) ∈ by_body → (k, x) ∈ l → k ∈ dkeys (v_by_full_key st) ∧ key_body k = b) →
  (∀ k x, (k, x) ∈ priors → k ∈ dkeys (v_by_full_key st) ∧ key_body k = tick_logical_key r) →
  v11_inv (seen ++ [r])
    (V11State (dset (v_by_full_key st) (tick_v1_1_logical_key r) r)
       (dset by_body (tick_logical_key r) (priors ++ [(tick_v1_1_logical_key r, r)]))
       (v_dup_skip st) (v_quarantine_count st) (v_records st) (v_limiter st) (v_reads st)).
Proof.
  intros [Hwf Hwfb Hrows Hbody Hbodies Hc] Hg Hwfb' Hbody' Hpriors.
  pose proof (length_dset_new _ _ r Hg) as Hl.
  split; simpl; [by apply dict_wf_dset|by apply dict_wf_dset| | | |rewrite length_app; simpl; lia].
  - intros k x. rewrite dset_new by done.
    intros [Hx|Hx%list_elem_of_singleton]%elem_of_app; [|simplify_eq; set_solver].
    apply Hrows in Hx. set_solver.
  - apply v11_by_body_dset; [done| |].
    + intros b l k x Hb Hl' Hk. destruct (Hbody' _ _ _ _ Hl' Hk).
      rewrite dkeys_dset_elem. auto.
    + intros k x [Hk|Hk%list_elem_of_singleton]%elem_of_app.
      * destruct (Hpriors _ _ Hk). rewrite dkeys_dset_elem. auto.
      * simplify_eq. rewrite dkeys_dset_elem. auto.
  - intros y [Hy| ->%list_elem_of_singleton]%elem_of_app.
    + destruct (Hbodies _ Hy) as (k&?&?). exists k. rewrite dkeys_dset_elem. auto.
    + exists (tick_v1_1_logical_key r). rewrite dkeys_dset_elem. auto.
Qed.

Lemma v11_step_inv clock detected_at seen st r :
  v11_inv seen st →
  ∃ st', v11_step clock detected_at st r = Ok st' ∧ v11_inv (seen ++ [r]) st'.
Proof.
  intros Hinv. pose proof Hinv as [Hwf Hwfb Hrows Hbody Hbodies Hc].
  unfold v11_step, dmem. destruct (dget _ _) as [x|] eqn:Hg.
  { eexists; split; [done|]. split; simpl; auto; [set_solver| |rewrite length_app; simpl; lia].
    intros y [?| ->%list_elem_of_singleton]%elem_of_app; [auto|].
    exists (tick_v1_1_logical_key r). split; [apply dget_is_Some; eauto|done]. }
  apply dget_None in Hg. destruct (dsetdefault _ _ _) as [priors by_body] eqn:Hd.
  destruct (v11_setdefault _ _ _ _ _ Hinv Hd) as (Hwfb'&Hbody'&Hpriors).
  destruct (first_mismatch _ _) as [[pk pr]|] eqn:Hf; [|eauto using v11_append_inv].
  apply first_mismatch_elem in Hf. destruct (Hpriors _ _ Hf) as [Hpk Hpb].
  destruct (admit_record _ _ _) as [lim out]. destruct (priority_lt _ _).
  { rewrite (ddel_ok _ _ Hpk). simpl. eauto using v11_replace_inv. }
  eexists; split; [done|]. split; simpl; auto; [set_solver| |rewrite length_app; simpl; lia].
  intros y [?| ->%list_elem_of_singleton]%elem_of_app; eauto.
Qed.

Lemma v11_loop_inv clock detected_at rows seen st :
  v11_inv seen st →
  ∃ st', v11_loop clock detected_at st rows = Ok st' ∧ v11_inv (seen ++ rows) st'.
Proof.
  revert seen st. induction rows as [|r rows IH]; intros seen st Hinv; simpl.
  - eexists; split; [done|]. by rewrite app_nil_r.
  - destruct (v11_step_inv clock detected_at _ _ r Hinv) as (st1&->&Hinv1). simpl.
    rewrite cons_middle, app_assoc. by apply IH.
Qed.

(** ** Properties *)

Section emitted_values.
Context {row key : Type} `{EqDecision key} (logical_key : row → key).

(** The values of a dictionary keyed by [logical_key]. *)
Lemma keyed_dvalues (d : dict key row) :
  (∀ k r, (k, r) ∈ d → logical_key r = k) → logical_key <$> dvalues d = dkeys d.
Proof.
  induction d as [|[k r] d IH]; intros Hd; simpl; [done|].
  f_equal; [apply Hd; by left|]. apply IH. intros. apply Hd. by right.
Qed.
End emitted_values.

(** What comes out of the scan, row by row. *)
Lemma deduplicate_mismatch_rows {row key : Type} `{EqDecision key}
    (logical_key : row → key) (ts_utc : row → Z) (raw_json node_id : row → option string)
    (tier : string) (rows : list row) (sink : bool) (clock : nat → Z) (detected_at : Z) :
  let r := deduplicate_mismatch logical_key ts_utc raw_json node_id tier rows true sink clock detected_at in
  length rows = (length (emitted r) + dup_skip_count r + quarantine_count r)%nat ∧
  NoDup (logical_key <$> emitted r) ∧
  (∀ x, x ∈ emitted r → x ∈ rows) ∧
  (∀ x, x ∈ rows → logical_key x ∈ logical_key <$> emitted r) ∧
  StronglySorted (λ a b, ts_utc a ≤ ts_utc b) (emitted r).
Proof.
  unfold deduplicate_mismatch.
  pose proof (mismatch_loop_inv logical_key raw_json node_id tier clock detected_at rows []
    _ (mismatch_init_inv logical_key clock)) as [Hwf Hrows Hkeys Hc].
  set (st := foldl _ _ rows) in *. destruct (flush _) as [lim batch]. simpl in *.
  pose proof (keyed_dvalues logical_key (m_by_key st) (λ k r Hk, proj1 (Hrows k r Hk))) as Hkv.
  assert (logical_key <$> sorted_by ts_utc (dvalues (m_by_key st)) ≡ₚ dkeys (m_by_key st)) as Hp.
  { by rewrite sorted_by_perm, Hkv. }
  split_and!; [rewrite sorted_by_length, dvalues_length; lia|by rewrite Hp| | |auto with py].
  - intros x. rewrite sorted_by_perm. intros [k Hk%Hrows]%dvalues_elem. tauto.
  - intros x Hx. rewrite Hp. by apply Hkeys.
Qed.

(** C27.  Deduplicating ticks (T2) and order-book events (T3) over several
    nodes accounts for every input row: each is emitted, skipped as an exact
    duplicate or counted as a mismatch.  The emitted rows are input rows, one
    for each logical key of the input and no key twice, ordered by [ts_utc]. *)
Theorem mismatch_dedup_accounts_for_every_row {row key : Type} `{EqDecision key}
    (logical_key : row → key) (ts_utc : row → Z) (raw_json node_id : row → option string)
    (tier : string) (rows : list row) (sink : bool) (clock : nat → Z) (detected_at : Z) :
  let r := deduplicate_mismatch logical_key ts_utc raw_json node_id tier rows true sink clock detected_at in
  length rows = (length (emitted r) + dup_skip_count r + quarantine_count r)%nat ∧
  NoDup (logical_key <$> emitted r) ∧
  (∀ x, x ∈ emitted r → x ∈ rows) ∧
  (∀ x, x ∈ rows → logical_key x ∈ logical_key <$> emitted r) ∧
  StronglySorted (λ a b, ts_utc a ≤ ts_utc b) (emitted r).
Proof.
  apply deduplicate_mismatch_rows.
Qed.

(** Back-pressure never loses a mismatch: whatever the clock reads, the
    quarantine records are, up to order, exactly the mismatches of the scan
    (each a pair of rows of one key with different raw content), as many as
    the counter says, and the emitted rows do not depend on the clock. *)
Theorem quarantine_backpressure_lossless {row key : Type} `{EqDecision key}
    (logical_key : row → key) (ts_utc : row → Z) (raw_json node_id : row → option string)
    (tier : string) (rows : list row) (sink : bool) (clock clock' : nat → Z) (detected_at : Z) :
  let dedup := deduplicate_mismatch logical_key ts_utc raw_json node_id tier rows true sink in
  quarantine_records (dedup clock detected_at) ≡ₚ
    reference_mismatches logical_key raw_json node_id tier detected_at [] rows ∧
  length (quarantine_records (dedup clock detected_at)) = quarantine_count (dedup clock detected_at) ∧
  emitted (dedup clock detected_at) = emitted (dedup clock' detected_at).
Proof.
  unfold deduplicate_mismatch.
  destruct (foldl_records_clockless logical_key raw_json node_id tier clock clock' detected_at rows
    (mismatch_init clock) (mismatch_init clock')) as [Hk _]; [done|done|].
  destruct (mismatch_loop_records logical_key raw_json node_id tier clock detected_at rows
    (mismatch_init clock)) as [Hp Hq].
  set (st := foldl _ (mismatch_init clock) rows) in *.
  set (st' := foldl _ (mismatch_init clock') rows) in *.
  pose proof (flush_lossless (m_limiter st) (m_records st)) as Hf.
  destruct (flush (m_limiter st)) as [lim batch], (flush (m_limiter st')) as [lim' batch'].
  simpl in *. rewrite Hf, Hp, Hq. split_and!; [done|done|by rewrite Hk].
Qed.

(** Candle late correction: for every input row the emitted rows hold
    exactly one survivor of its key, and the survivor is an input row with the
    greatest [received_at] (or [ts_utc]) of the key and, among those, the
    lowest node priority; skipped rows make up the difference. *)
Theorem candles_survivor_is_latest (rows : list candle) (sink : bool) :
  let r := deduplicate_candles rows true sink in
  NoDup (candle_logical_key <$> emitted r) ∧
  length rows = (length (emitted r) + dup_skip_count r)%nat ∧
  ∀ x, x ∈ rows → ∃ s, s ∈ emitted r ∧ s ∈ rows ∧ candle_logical_key s = candle_logical_key x ∧
    (effective_received_at x < effective_received_at s ∨
     (effective_received_at x = effective_received_at s ∧
      String.le (node_priority (c_node_id s)) (node_priority (c_node_id x)))).
Proof.
  pose proof (candle_loop_inv rows [] _ candle_init_inv) as [Hwf Hrows Hkeys Hc].
  pose proof (candle_emitted_elem rows sink) as Hel. unfold deduplicate_candles in *.
  destruct (foldl _ _ _) as [d n]; simpl in *.
  pose proof (keyed_dvalues candle_logical_key d (λ k r Hk, proj1 (Hrows k r Hk))) as Hkv.
  split_and!; [by rewrite sorted_by_perm, Hkv|rewrite sorted_by_length, dvalues_length; lia|].
  intros x Hx. destruct (proj2 (dget_is_Some d _) (Hkeys x Hx)) as [s Hs%dget_Some_elem].
  destruct (Hrows _ _ Hs) as (Hk&Hin&Hmax). exists s.
  split_and!; [apply Hel; by eapply elem_dvalues|done|done|].
  specialize (Hmax x Hx eq_refl). unfold candle_rank_le in Hmax.
  apply orb_true_iff in Hmax as [?|[??]%andb_true_iff]; py_bool; [by left|right].
  split; [done|]. by apply Is_true_true.
Qed.

(** Replicas converge: for two arrival orders of the same candles, the
    two survivors of a key carry the same effective [received_at] and the same
    node priority. *)
Theorem candles_order_independent (rows rows' : list candle) (sink : bool) (s s' : candle) :
  rows ≡ₚ rows' →
  s ∈ emitted (deduplicate_candles rows true sink) →
  s' ∈ emitted (deduplicate_candles rows' true sink) →
  candle_logical_key s = candle_logical_key s' →
  effective_received_at s = effective_received_at s' ∧
  node_priority (c_node_id s) = node_priority (c_node_id s').
Proof.
  intros Hp Hs%candle_emitted_elem Hs'%candle_emitted_elem Hkey.
  pose proof (candle_loop_inv rows [] _ candle_init_inv) as [_ Hrows _ _].
  pose proof (candle_loop_inv rows' [] _ candle_init_inv) as [_ Hrows' _ _].
  destruct (dvalues_elem _ _ Hs) as [k Hk], (dvalues_elem _ _ Hs') as [k' Hk'].
  destruct (Hrows _ _ Hk) as (Hk1&Hin&Hmax), (Hrows' _ _ Hk') as (Hk1'&Hin'&Hmax').
  simpl in *. rewrite Hp in Hin. rewrite <- Hp in Hin'.
  specialize (Hmax s' Hin' ltac:(congruence)). specialize (Hmax' s Hin ltac:(congruence)).
  unfold candle_rank_le in Hmax, Hmax'.
  rewrite !orb_true_iff, !andb_true_iff, !Z.ltb_lt, !Z.eqb_eq in *.
  destruct Hmax as [?|[??]], Hmax' as [?|[??]]; try lia. split; [done|]. by apply String.leb_antisym.
Qed.

Definition candle_example (node : string) (received : Z) : candle :=
  Candle "bithumb" "KRW-BTC" "1m" 60 (dint 1) (dint 2) (dint 1) (dint 2) (dint 5) None
    (Some received) (Some node).

Lemma candles_order_independent_witness :
  effective_received_at (candle_example "NODE_A" 70) = 70 ∧
  node_priority (c_node_id (candle_example "NODE_A" 70)) = node_priority (Some "NODE_A").
Proof.
  apply (candles_order_independent
    [candle_example "NODE_B" 70; candle_example "NODE_A" 70; candle_example "NODE_C" 65]
    [candle_example "NODE_C" 65; candle_example "NODE_A" 70; candle_example "NODE_B" 70] false
    (candle_example "NODE_A" 70) (candle_example "NODE_A" 70)).
  - apply (Permutation_rev [candle_example "NODE_B" 70; candle_example "NODE_A" 70; candle_example "NODE_C" 65]).
  - vm_compute. constructor.
  - vm_compute. constructor.
  - reflexivity.
Defined.

(** tick.v1.1 deduplication never raises (the [del] of a replaced row
    always finds its key) and accounts for every row; full keys are unique and
    no trade disappears: every input row's six-field body is still emitted. *)
Theorem ticks_v1_1_total (rows : list tick) (sink : bool) (clock : nat → Z) (detected_at : Z) :
  ∃ r, deduplicate_ticks_v1_1 rows true sink clock detected_at = Ok r ∧
    length rows = (length (emitted r) + dup_skip_count r + quarantine_count r)%nat ∧
    NoDup (tick_v1_1_logical_key <$> emitted r) ∧
    (∀ x, x ∈ emitted r → x ∈ rows) ∧
    (∀ x, x ∈ rows → tick_logical_key x ∈ tick_logical_key <$> emitted r).
Proof.
  unfold deduplicate_ticks_v1_1.
  destruct (v11_loop_inv clock detected_at rows [] _ (v11_init_inv clock)) as (st&->&Hinv).
  destruct Hinv as [Hwf _ Hrows _ Hbodies Hc]. simpl in *. destruct (flush _) as [lim batch].
  eexists; split; [done|]. simpl.
  pose proof (keyed_dvalues tick_v1_1_logical_key _ (λ k r Hk, proj1 (Hrows k r Hk))) as Hkv.
  split_and!; [rewrite sorted_by_length, dvalues_length; lia|by rewrite sorted_by_perm, Hkv| |].
  - intros x. rewrite sorted_by_perm. intros [k Hk%Hrows]%dvalues_elem. tauto.
  - intros x Hx. destruct (Hbodies x Hx) as (k&[y Hy%dget_Some_elem]%dget_is_Some&Hkb).
    rewrite sorted_by_perm, <- Hkb. destruct (Hrows _ _ Hy) as [<- _].
    apply list_elem_of_fmap. exists y. split; [done|]. by eapply elem_dvalues.
Qed.

Definition v11_example (node payload : string) (seq : Z) : tick :=
  Tick "upbit" "KRW-BTC" 1000 (dint 10) (dint 1) "buy" None (Some node) (Some payload) (Some seq).

(** A replaced row can leave a conflicting sibling behind: two rows of
    node B with payload [pA], then one of node A with payload [pB] of the same
    six-field body.  Only the first prior is dropped, so the emitted rows hold
    one body with two payload hashes although the mismatch was quarantined. *)
Theorem ticks_v1_1_conflicting_body_survives :
  ∃ r x y,
    deduplicate_ticks_v1_1 [v11_example "NODE_B" "pA" 1; v11_example "NODE_B" "pA" 2;
      v11_example "NODE_A" "pB" 3] true false (λ _, 0) 0 = Ok r ∧
    quarantine_count r = 1%nat ∧ x ∈ emitted r ∧ y ∈ emitted r ∧
    tick_logical_key x = tick_logical_key y ∧
    payload_mismatch (t_payload_hash x) (t_payload_hash y) = true.
Proof.
  eexists _, (v11_example "NODE_B" "pA" 2), (v11_example "NODE_A" "pB" 3).
  split; [vm_compute; reflexivity|]. split_and!; try reflexivity; set_solver.
Qed.
