(* ===== verification/RetryQueue.v ===== *)
(** * Persistent retry backlog ([nas_storage/retry_queue.py])

    The sqlite table is the list of its rows in insertion order, the payload
    directory a map from file names to contents.  [uuid.uuid4()] and
    [time.monotonic()] are arguments of the call; so are the faults of the two
    operations that can raise inside [enqueue].  Log lines and gauges are not
    modelled. *)
From S2P Require Import Prelude.
Open Scope Z_scope.

(** [PutResult.status] of the uploader *)
Inductive put_status :=
| uploaded | skipped_idempotent | queued | put_hard_floor_blocked | skipped_etag_overwrite.

#[export] Instance put_status_eq_dec : EqDecision put_status.
Proof. solve_decision. Defined.

(** ** The interface [drain] uses: [uploader.put(..., suppress_enqueue=True)] *)

Class Uploader (U : Type) := {
  up_put_suppressed : bytes → string → string → proc U put_status; (* data, key, sha256 *)
  (** Is the content stored under the key, as far as the store can tell? *)
  up_stored : U → string → string → Prop }.

(** What the queue relies on. *)
Class UploaderLaws (U : Type) `{Uploader U} := {
  (** A put that succeeds without queueing has stored the object. *)
  up_put_stored : ∀ data key sha u u' st,
    up_put_suppressed data key sha u = (u', Ok st) → st ≠ queued → up_stored u' key sha;
  (** Later puts of the drain never remove a stored object. *)
  up_put_mono : ∀ data key sha u u' r k s,
    up_put_suppressed data key sha u = (u', r) → up_stored u k s → up_stored u' k s }.

(** ** Data *)

Inductive row_state := pending | in_flight | quarantined | succeeded.

#[export] Instance row_state_eq_dec : EqDecision row_state.
Proof. solve_decision. Defined.

Record rq_row := RqRow {
  r_id : string; r_key : string; r_sha256 : string; r_payload_file : string;
  r_payload_bytes : Z; r_state : row_state; r_enqueue_ts : Z; r_updated_ts : option Z }.

Record rq_config := RqConfig { max_segments : Z; max_bytes : Z; hard_floor : Z }.

Record rq := Rq { rq_rows : list rq_row; rq_payloads : gmap string bytes }.

Inductive enqueue_status := enq_ok | hard_floor_blocked.
Record EnqueueResult := MkEnqueueResult { e_status : enqueue_status; e_item_id : string }.

Record DrainStats := MkDrainStats { drained : nat; failed : nat; skipped : nat }.

(** ** Queries *)

Definition is_pending (r : rq_row) : bool := bool_decide (r_state r = pending).
Definition is_quarantined (r : rq_row) : bool := bool_decide (r_state r = quarantined).
(** [state IN ('pending', 'quarantined')] *)
Definition is_active (r : rq_row) : bool := is_pending r || is_quarantined r.

Definition count_rows (p : rq_row → bool) (rows : list rq_row) : Z :=
  Z.of_nat (length (List.filter p rows)).
Definition sum_bytes (p : rq_row → bool) (rows : list rq_row) : Z :=
  foldr (λ r acc, r_payload_bytes r + acc) 0 (List.filter p rows).

Definition total_bytes (q : rq) (include_quarantined : bool) : Z :=
  sum_bytes (if include_quarantined then is_active else is_pending) (rq_rows q).
Definition depth (q : rq) (include_quarantined : bool) : Z :=
  count_rows (if include_quarantined then is_active else is_pending) (rq_rows q).
Definition resume_on_startup (q : rq) : Z := depth q true.

(** [... WHERE state=... ORDER BY enqueue_ts] *)
Definition select_ordered (p : rq_row → bool) (rows : list rq_row) : list rq_row :=
  sorted_by r_enqueue_ts (List.filter p rows).

(** ** Operations *)

Definition set_state (st : row_state) (now : Z) (r : rq_row) : rq_row :=
  RqRow (r_id r) (r_key r) (r_sha256 r) (r_payload_file r) (r_payload_bytes r) st
    (r_enqueue_ts r) (Some now).

(** [UPDATE ... WHERE id=?] and [DELETE ... WHERE id=?] *)
Definition update_where (id : string) (f : rq_row → rq_row) (rows : list rq_row) : list rq_row :=
  map (λ r, if String.eqb (r_id r) id then f r else r) rows.
Definition delete_where (id : string) (rows : list rq_row) : list rq_row :=
  List.filter (λ r, negb (String.eqb (r_id r) id)) rows.

(** [_quarantine_oldest_locked] *)
Definition quarantine_oldest (now : Z) (rows : list rq_row) : list rq_row :=
  match select_ordered is_pending rows with
  | [] => rows
  | r :: _ => update_where (r_id r) (set_state quarantined now) rows
  end.

Definition threshold_breached (cfg : rq_config) (rows : list rq_row) (payload_bytes : Z) : bool :=
  (max_segments cfg <=? count_rows is_pending rows) ||
  (max_bytes cfg <? sum_bytes is_pending rows + payload_bytes).

Definition payload_filename (item_id : string) : string := item_id +:+ ".bin".

(** [enqueue].  [write_fault]: the payload file cannot be written;
    [insert_fault]: the INSERT raises (the payload file is then unlinked). *)
Definition enqueue (cfg : rq_config) (q : rq) (key : string) (data : bytes) (sha256 : string)
    (item_id : string) (ts now : Z) (write_fault insert_fault : option exn) : rq * res EnqueueResult :=
  let payload_bytes := blen data in
  if hard_floor cfg <=? count_rows is_active (rq_rows q) then
    (q, Ok (MkEnqueueResult hard_floor_blocked ""))
  else
    let rows := if threshold_breached cfg (rq_rows q) payload_bytes
                then quarantine_oldest now (rq_rows q) else rq_rows q in
    let file := payload_filename item_id in
    match write_fault with
    | Some e => (Rq rows (rq_payloads q), Raise e)
    | None =>
        match insert_fault with
        | Some e => (Rq rows (delete file (rq_payloads q)), Raise e)
        | None =>
            (Rq (rows ++ [RqRow item_id key sha256 file payload_bytes pending ts None])
                (<[file := data]> (rq_payloads q)),
             Ok (MkEnqueueResult enq_ok item_id))
        end
    end.

(** *** Drain *)

Section drain.
Context {U : Type} `{Uploader U}.

(** Loop state: queue, uploader, statistics, back-off and the sleeps (seconds). *)
Record drain_state := DrainState {
  ds_q : rq; ds_u : U; ds_stats : DrainStats; ds_backoff : Z; ds_sleeps : list Z }.

Definition inc_drained (s : DrainStats) := MkDrainStats (S (drained s)) (failed s) (skipped s).
Definition inc_failed (s : DrainStats) := MkDrainStats (drained s) (S (failed s)) (skipped s).
Definition inc_skipped (s : DrainStats) := MkDrainStats (drained s) (failed s) (S (skipped s)).

Definition is_throttle (e : exn) : bool :=
  match e with
  | ClientError code => String.eqb code "SlowDown" || String.eqb code "ThrottlingException"
  | _ => false
  end.

(** One row of a cycle's snapshot; [throttled] is cycle 1, which backs off. *)
Definition drain_item (throttled : bool) (d : drain_state) (r : rq_row) : drain_state :=
  let q := ds_q d in
  match rq_payloads q !! r_payload_file r with
  | None => DrainState q (ds_u d) (inc_skipped (ds_stats d)) (ds_backoff d) (ds_sleeps d)
  | Some data =>
      let '(u', out) := up_put_suppressed data (r_key r) (r_sha256 r) (ds_u d) in
      match out with
      | Ok st =>
          if bool_decide (st = queued) then
            DrainState q u' (inc_failed (ds_stats d)) (ds_backoff d) (ds_sleeps d)
          else
            DrainState (Rq (delete_where (r_id r) (rq_rows q)) (delete (r_payload_file r) (rq_payloads q)))
              u' (inc_drained (ds_stats d)) (if throttled then 1 else ds_backoff d) (ds_sleeps d)
      | Raise e =>
          if throttled && is_throttle e then
            DrainState q u' (inc_failed (ds_stats d)) (Z.min (ds_backoff d * 2) 60)
              (ds_sleeps d ++ [Z.min (ds_backoff d) 60])
          else DrainState q u' (inc_failed (ds_stats d)) (ds_backoff d) (ds_sleeps d)
      end
  end.

(** [drain]: the pending rows, then the rows quarantined by now. *)
Definition drain (q : rq) (u : U) : drain_state :=
  let d := DrainState q u (MkDrainStats 0 0 0) 1 [] in
  let d := foldl (drain_item true) d (select_ordered is_pending (rq_rows q)) in
  foldl (drain_item false) d (select_ordered is_quarantined (rq_rows (ds_q d))).
End drain.
Arguments drain_state : clear implicits.

(** ** Lemmas *)

Lemma payload_filename_inj a b : payload_filename a = payload_filename b → a = b.
Proof. apply string_app_inj_r. Qed.

Section row_lemmas.
Implicit Types (r : rq_row) (rows : list rq_row) (p : rq_row → bool).

Lemma count_rows_app p rows rows' : count_rows p (rows ++ rows') = count_rows p rows + count_rows p rows'.
Proof. unfold count_rows. rewrite List.filter_app, length_app. lia. Qed.

Lemma count_rows_cons p r rows : count_rows p (r :: rows) = Z.b2z (p r) + count_rows p rows.
Proof. unfold count_rows. simpl. destruct (p r); simpl length; simpl Z.b2z; lia. Qed.

Lemma count_rows_nonneg p rows : 0 <= count_rows p rows.
Proof. unfold count_rows. lia. Qed.

Lemma count_rows_pos p r rows : r ∈ rows → p r = true → 1 <= count_rows p rows.
Proof.
  induction rows as [|x rows IH]; [set_solver|]. intros [->|Hr]%elem_of_cons Hp; rewrite count_rows_cons.
  - rewrite Hp. pose proof (count_rows_nonneg p rows). simpl. lia.
  - specialize (IH Hr Hp). destruct (p x); simpl; lia.
Qed.

Lemma count_rows_delete_le p id rows : count_rows p (delete_where id rows) <= count_rows p rows.
Proof.
  induction rows as [|r rows IH]; [done|]. unfold delete_where in *. simpl.
  destruct (String.eqb _ _); simpl; rewrite !count_rows_cons; destruct (p r); simpl; lia.
Qed.

(** [UPDATE] by a unique id changes one row's contribution. *)
Lemma count_rows_update_le p f id rows :
  (∀ r, r_id r = id → r ∈ rows → p (f r) = true → p r = true) →
  count_rows p (update_where id f rows) <= count_rows p rows.
Proof.
  induction rows as [|r rows IH]; [done|]. intros Hp. simpl.
  assert (count_rows p (update_where id f rows) <= count_rows p rows) as Hle.
  { apply IH. intros. apply Hp; [done|by right|done]. }
  rewrite !count_rows_cons. destruct (String.eqb_spec (r_id r) id) as [Hid|Hid].
  - specialize (Hp r Hid (list_elem_of_here _ _)). destruct (p (f r)), (p r); simpl; try lia; by specialize (Hp eq_refl).
  - lia.
Qed.

Lemma count_rows_update_lt p f id r rows :
  r ∈ rows → r_id r = id → p r = true →
  (∀ x, r_id x = id → p (f x) = false) →
  count_rows p (update_where id f rows) + 1 <= count_rows p rows.
Proof.
  induction rows as [|x rows IH]; [set_solver|]. intros Hr Hid Hp Hf. simpl.
  rewrite !count_rows_cons.
  assert (count_rows p (update_where id f rows) <= count_rows p rows) as Hle.
  { apply count_rows_update_le. intros y Hy _ Hpy. by rewrite Hf in Hpy. }
  apply elem_of_cons in Hr as [->|Hr].
  - rewrite (proj2 (String.eqb_eq _ _) Hid), Hp, Hf by done. simpl. lia.
  - specialize (IH Hr Hid Hp Hf). destruct (String.eqb_spec (r_id x) id).
    + rewrite Hf by done. destruct (p x); simpl; lia.
    + lia.
Qed.

Lemma update_where_ids f id rows :
  (∀ r, r_id (f r) = r_id r) → r_id <$> update_where id f rows = r_id <$> rows.
Proof.
  intros Hf. unfold update_where. induction rows as [|r rows IH]; simpl; [done|].
  f_equal; [|exact IH]. destruct (String.eqb _ _); by rewrite ?Hf.
Qed.

Lemma update_where_elem f id rows r :
  r ∈ update_where id f rows → ∃ x, x ∈ rows ∧ r = (if String.eqb (r_id x) id then f x else x).
Proof. unfold update_where. rewrite list_elem_of_In. intros [x [<- Hx]]%in_map_iff. exists x. by rewrite list_elem_of_In. Qed.

Lemma delete_where_elem id rows r : r ∈ delete_where id rows ↔ r ∈ rows ∧ r_id r ≠ id.
Proof.
  unfold delete_where. rewrite !list_elem_of_In, filter_In, negb_true_iff, String.eqb_neq. done.
Qed.

Lemma select_ordered_elem p rows r : r ∈ select_ordered p rows ↔ r ∈ rows ∧ p r = true.
Proof. unfold select_ordered. by rewrite sorted_by_perm, list_elem_of_In, filter_In, <- list_elem_of_In. Qed.
End row_lemmas.

(** Ids are a primary key. *)
Lemma NoDup_id_unique (rows : list rq_row) r r' :
  NoDup (r_id <$> rows) → r ∈ rows → r' ∈ rows → r_id r = r_id r' → r = r'.
Proof.
  intros Hnd [i Hi]%list_elem_of_lookup [j Hj]%list_elem_of_lookup Heq.
  assert (i = j) as ->; [|congruence].
  apply (NoDup_lookup _ i j (r_id r) Hnd); rewrite list_lookup_fmap; [by rewrite Hi|].
  rewrite Hj, Heq. done.
Qed.

(** *** What a demotion does *)

(** [r'] is [r], or [r] demoted from pending to quarantined. *)
Definition demoted (r r' : rq_row) : Prop :=
  r' = r ∨ (r_state r = pending ∧ ∃ now, r' = set_state quarantined now r).

Section quarantine_lemmas.
Implicit Types (rows : list rq_row) (now : Z).

Lemma quarantine_oldest_ids now rows : r_id <$> quarantine_oldest now rows = r_id <$> rows.
Proof.
  unfold quarantine_oldest. destruct (select_ordered _ _); [done|]. by apply update_where_ids.
Qed.

(** With unique ids, the demoted row is one pending row. *)
Lemma quarantine_oldest_rows now rows :
  NoDup (r_id <$> rows) →
  (∀ r, r ∈ rows → ∃ r', r' ∈ quarantine_oldest now rows ∧ demoted r r') ∧
  (∀ r', r' ∈ quarantine_oldest now rows → ∃ r, r ∈ rows ∧ demoted r r').
Proof.
  intros Hnd. unfold quarantine_oldest. destruct (select_ordered _ _) as [|o l] eqn:Ho.
  { split; intros r Hr; exists r; split; [done|by left|done|by left]. }
  assert (o ∈ rows ∧ is_pending o = true) as [Hor Hop].
  { apply select_ordered_elem. rewrite Ho. by left. }
  assert (∀ r, r ∈ rows → demoted r (if String.eqb (r_id r) (r_id o) then set_state quarantined now r else r)) as Hd.
  { intros r Hr. destruct (String.eqb_spec (r_id r) (r_id o)) as [Heq|]; [|by left].
    right. rewrite (NoDup_id_unique rows r o) by done.
    split; [|by exists now]. by apply bool_decide_eq_true in Hop. }
  split.
  - intros r Hr. eexists; split; [|by apply Hd]. unfold update_where.
    apply list_elem_of_In, in_map_iff. exists r. by rewrite <- list_elem_of_In.
  - intros r' [r [Hr ->]]%update_where_elem. exists r. auto.
Qed.

(** The row [quarantine_oldest] updates, when there is one. *)
Lemma quarantine_oldest_target now rows o l :
  select_ordered is_pending rows = o :: l → o ∈ rows ∧ is_pending o = true.
Proof. intros Ho. apply select_ordered_elem. rewrite Ho. by left. Qed.

Lemma quarantine_oldest_active now rows :
  NoDup (r_id <$> rows) →
  count_rows is_active (quarantine_oldest now rows) <= count_rows is_active rows.
Proof.
  intros Hnd. unfold quarantine_oldest. destruct (select_ordered _ _) as [|o l] eqn:Ho; [done|].
  destruct (quarantine_oldest_target now _ _ _ Ho) as [Hor Hop].
  apply count_rows_update_le. intros r Hid Hr _.
  rewrite (NoDup_id_unique rows r o); [|done..]. unfold is_active. by rewrite Hop.
Qed.

Lemma quarantine_oldest_pending now rows :
  count_rows is_pending (quarantine_oldest now rows) <= Z.max 0 (count_rows is_pending rows - 1).
Proof.
  unfold quarantine_oldest. destruct (select_ordered _ _) as [|o l] eqn:Ho.
  - assert (List.filter is_pending rows = []) as Hn.
    { pose proof (sorted_by_perm r_enqueue_ts (List.filter is_pending rows)) as Hp.
      unfold select_ordered in Ho. rewrite Ho in Hp. by apply Permutation_nil in Hp. }
    unfold count_rows. rewrite Hn. simpl. lia.
  - destruct (quarantine_oldest_target now _ _ _ Ho) as [Hor Hop].
    pose proof (count_rows_update_lt is_pending (set_state quarantined now) _ o rows Hor eq_refl Hop
      (λ _ _, eq_refl)). lia.
Qed.
End quarantine_lemmas.

(** *** The queue invariant *)

Record rq_inv (cfg : rq_config) (q : rq) : Prop := {
  ri_ids : NoDup (r_id <$> rq_rows q);
  ri_active : count_rows is_active (rq_rows q) <= Z.max 0 (hard_floor cfg);
  ri_pending : count_rows is_pending (rq_rows q) <= Z.max 1 (max_segments cfg);
  ri_rows : ∀ r, r ∈ rq_rows q →
    is_active r = true ∧ r_payload_file r = payload_filename (r_id r) ∧
    ∃ data, rq_payloads q !! r_payload_file r = Some data ∧ blen data = r_payload_bytes r }.

Lemma demoted_row r r' :
  demoted r r' → is_active r = true →
  is_active r' = true ∧ r_id r' = r_id r ∧ r_payload_file r' = r_payload_file r ∧
  r_payload_bytes r' = r_payload_bytes r.
Proof. intros [->|[_ [now ->]]] Ha; done. Qed.

(** The table after the optional demotion of [enqueue]. *)
Lemma rq_inv_demote cfg q now (b : bool) :
  rq_inv cfg q →
  rq_inv cfg (Rq (if b then quarantine_oldest now (rq_rows q) else rq_rows q) (rq_payloads q)).
Proof.
  destruct b; [|by destruct q]. intros [Hids Hact Hpend Hrows].
  pose proof (quarantine_oldest_active now _ Hids). pose proof (quarantine_oldest_pending now (rq_rows q)).
  pose proof (count_rows_nonneg is_pending (rq_rows q)).
  split; simpl; [by rewrite quarantine_oldest_ids|lia|lia|].
  intros r' Hr'. destruct (quarantine_oldest_rows now _ Hids) as [_ Hback].
  destruct (Hback r' Hr') as (r&Hr&Hd). destruct (Hrows r Hr) as (Ha&Hf&Hdata).
  destruct (demoted_row _ _ Hd Ha) as (->&->&->&->). auto.
Qed.

Lemma rq_inv_enqueue cfg q key data sha id ts now wf insf :
  rq_inv cfg q → id ∉ r_id <$> rq_rows q →
  rq_inv cfg (enqueue cfg q key data sha id ts now wf insf).1.
Proof.
  intros Hinv Hfresh. unfold enqueue.
  destruct (Z.leb_spec (hard_floor cfg) (count_rows is_active (rq_rows q))); [done|].
  set (b := threshold_breached _ _ _).
  pose proof (rq_inv_demote cfg q now b Hinv) as [Hids Hact Hpend Hrows]. simpl in *.
  assert (r_id <$> (if b then quarantine_oldest now (rq_rows q) else rq_rows q) = r_id <$> rq_rows q) as Hsame.
  { destruct b; [apply quarantine_oldest_ids|done]. }
  assert (count_rows is_active (if b then quarantine_oldest now (rq_rows q) else rq_rows q)
    <= count_rows is_active (rq_rows q)) as Hact'.
  { destruct b; [apply quarantine_oldest_active, Hinv|done]. }
  assert (count_rows is_pending (if b then quarantine_oldest now (rq_rows q) else rq_rows q)
    <= Z.max 1 (max_segments cfg) - 1) as Hpend'.
  { subst b. unfold threshold_breached. pose proof (ri_pending _ _ Hinv).
    destruct (Z.leb_spec (max_segments cfg) (count_rows is_pending (rq_rows q))); simpl.
    - pose proof (quarantine_oldest_pending now (rq_rows q)). lia.
    - pose proof (quarantine_oldest_pending now (rq_rows q)). destruct (_ <? _); lia. }
  set (rows := if b then _ else _) in *.
  assert (∀ r, r ∈ rows → r_payload_file r ≠ payload_filename id) as Hfile.
  { intros r Hr Heq. destruct (Hrows r Hr) as (_&Hf&_). rewrite Hf in Heq.
    apply payload_filename_inj in Heq. apply Hfresh. rewrite <- Hsame, <- Heq.
    by apply list_elem_of_fmap_2. }
  destruct wf as [e|]; [by split|]. destruct insf as [e|]; simpl.
  - split; simpl; [done..|]. intros r Hr. specialize (Hfile r Hr).
    rewrite lookup_delete_ne by done. by apply Hrows.
  - split; simpl.
    + rewrite fmap_app. simpl. apply NoDup_app. split_and!; [done| |apply NoDup_singleton].
      rewrite Hsame. intros x Hx ->%list_elem_of_singleton. done.
    + rewrite count_rows_app, count_rows_cons. simpl. pose proof (count_rows_nonneg is_active []).
      unfold count_rows at 2. simpl. lia.
    + rewrite count_rows_app, count_rows_cons. unfold count_rows at 2. simpl. lia.
    + intros r [Hr| ->%list_elem_of_singleton]%elem_of_app; simpl.
      * rewrite lookup_insert_ne by (by apply not_eq_sym, Hfile). by apply Hrows.
      * rewrite lookup_insert_eq. eauto.
Qed.

Lemma select_ordered_NoDup p rows :
  NoDup (r_id <$> rows) → NoDup (r_id <$> select_ordered p rows).
Proof.
  intros Hnd. unfold select_ordered. rewrite sorted_by_perm.
  eapply sublist_NoDup; [exact Hnd|]. apply fmap_sublist.
  clear. induction rows as [|x l IH]; simpl; [done|].
  destruct (p x); [by apply sublist_skip|by apply sublist_cons].
Qed.

(** Active rows are pending or quarantined, never both. *)
Lemma active_split cfg q r :
  rq_inv cfg q → r ∈ rq_rows q → is_quarantined r = negb (is_pending r).
Proof.
  intros Hinv Hr. destruct (ri_rows _ _ Hinv r Hr) as (Ha&_).
  unfold is_active, is_pending, is_quarantined in *. by destruct (r_state r).
Qed.

(** Deleting the pending snapshot leaves the quarantined rows. *)
Lemma filter_after_pending_cycle cfg q :
  rq_inv cfg q →
  List.filter (λ x, bool_decide (r_id x ∉ r_id <$> select_ordered is_pending (rq_rows q))) (rq_rows q) =
  List.filter is_quarantined (rq_rows q).
Proof.
  intros Hinv. apply filter_ext_in. intros r Hr%list_elem_of_In.
  rewrite (active_split _ _ _ Hinv Hr). destruct (is_pending r) eqn:Hp; simpl.
  - apply bool_decide_eq_false_2. intros Hn. by apply Hn, list_elem_of_fmap_2, select_ordered_elem.
  - apply bool_decide_eq_true_2. intros [x [Hid [Hx Hpx]%select_ordered_elem]]%list_elem_of_fmap.
    rewrite (NoDup_id_unique _ r x (ri_ids _ _ Hinv) Hr Hx Hid) in Hp. congruence.
Qed.

Lemma select_ordered_lengths cfg q :
  rq_inv cfg q →
  (length (select_ordered is_pending (rq_rows q)) + length (select_ordered is_quarantined (rq_rows q)) =
   length (rq_rows q))%nat.
Proof.
  intros Hinv. unfold select_ordered. rewrite !sorted_by_length.
  assert (∀ r, r ∈ rq_rows q → is_quarantined r = negb (is_pending r)) as Hs.
  { intros. by eapply active_split. }
  revert Hs. generalize (rq_rows q). induction l as [|x l IH]; intros Hs; simpl; [done|].
  specialize (IH (λ r Hr, Hs r (list_elem_of_further _ _ _ Hr))).
  rewrite (Hs x (list_elem_of_here _ _)). destruct (is_pending x); simpl; lia.
Qed.

Lemma delete_where_NoDup id rows : NoDup (r_id <$> rows) → NoDup (r_id <$> delete_where id rows).
Proof.
  intros Hnd. eapply sublist_NoDup; [exact Hnd|]. apply fmap_sublist. unfold delete_where.
  clear. induction rows as [|x l IH]; simpl; [done|].
  destruct (negb _); [by apply sublist_skip|by apply sublist_cons].
Qed.

Section drain_lemmas.
Context {U : Type} `{Uploader U}.
Implicit Types (d : drain_state U) (r : rq_row).

(** One drain step either keeps the queue or removes the row it stored. *)
Lemma drain_item_queue th d r :
  ds_q (drain_item th d r) = ds_q d ∨
  (∃ data st u', rq_payloads (ds_q d) !! r_payload_file r = Some data ∧
    up_put_suppressed data (r_key r) (r_sha256 r) (ds_u d) = (u', Ok st) ∧ st ≠ queued ∧
    ds_u (drain_item th d r) = u' ∧
    ds_q (drain_item th d r) =
      Rq (delete_where (r_id r) (rq_rows (ds_q d))) (delete (r_payload_file r) (rq_payloads (ds_q d)))).
Proof.
  unfold drain_item. destruct (_ !! _) as [data|] eqn:Hp; [|by left].
  destruct (up_put_suppressed _ _ _ _) as [u' [st|e]] eqn:Hu.
  - case_bool_decide; [by left|]. right. exists data, st, u'. auto.
  - destruct (th && _); by left.
Qed.

Lemma rq_inv_drain_item cfg th d r :
  rq_inv cfg (ds_q d) → r_payload_file r = payload_filename (r_id r) →
  rq_inv cfg (ds_q (drain_item th d r)).
Proof.
  intros Hinv Hf. destruct (drain_item_queue th d r) as [->|(data&st&u'&_&_&_&_&->)]; [done|].
  destruct Hinv as [Hids Hact Hpend Hrows]. split; simpl.
  - by apply delete_where_NoDup.
  - pose proof (count_rows_delete_le is_active (r_id r) (rq_rows (ds_q d))). lia.
  - pose proof (count_rows_delete_le is_pending (r_id r) (rq_rows (ds_q d))). lia.
  - intros x [Hx Hne]%delete_where_elem. destruct (Hrows x Hx) as (?&Hfx&?).
    rewrite lookup_delete_ne; [done|]. rewrite Hf, Hfx. intros Heq%payload_filename_inj. congruence.
Qed.

(** A writer enqueues with a fresh id, or a drain handles one row of its
    snapshot; the two interleave freely. *)
Inductive rq_step (cfg : rq_config) : rq * U → rq * U → Prop :=
| step_enqueue q u key data sha id ts now wf insf :
    id ∉ r_id <$> rq_rows q →
    rq_step cfg (q, u) ((enqueue cfg q key data sha id ts now wf insf).1, u)
| step_drain_item q u th r stats backoff sleeps :
    r_payload_file r = payload_filename (r_id r) →
    rq_step cfg (q, u)
      (ds_q (drain_item th (DrainState q u stats backoff sleeps) r),
       ds_u (drain_item th (DrainState q u stats backoff sleeps) r)).

Lemma rq_step_inv cfg s s' : rq_step cfg s s' → rq_inv cfg s.1 → rq_inv cfg s'.1.
Proof.
  intros [q u key data sha id ts now wf insf Hf|q u th r stats b sl Hf] Hinv; simpl.
  - by apply rq_inv_enqueue.
  - by apply rq_inv_drain_item.
Qed.

Lemma rq_inv_empty cfg : rq_inv cfg (Rq [] ∅).
Proof.
  split; simpl; [constructor|unfold count_rows; simpl; lia|unfold count_rows; simpl; lia|set_solver].
Qed.

(** A snapshot row is still in the table or already gone. *)
Definition in_or_gone (rows : list rq_row) (r : rq_row) : Prop :=
  r ∈ rows ∨ r_id r ∉ r_id <$> rows.

Lemma delete_where_ids id rows x : x ∈ r_id <$> delete_where id rows ↔ x ∈ r_id <$> rows ∧ x ≠ id.
Proof.
  rewrite !list_elem_of_fmap. split.
  - intros [r [-> [Hr Hne]%delete_where_elem]]. eauto.
  - intros [[r [-> Hr]] Hne]. exists r. rewrite delete_where_elem. auto.
Qed.

Lemma in_or_gone_delete id rows r :
  NoDup (r_id <$> rows) → in_or_gone rows r → in_or_gone (delete_where id rows) r.
Proof.
  intros Hnd Hr. unfold in_or_gone. rewrite delete_where_elem, delete_where_ids.
  destruct (decide (r_id r = id)); [right; tauto|]. destruct Hr; [left|right]; tauto.
Qed.

(** A row of the table before one drain step is in it after the step, or its
    content was stored by the step; nothing is added. *)
Lemma drain_item_safe `{!UploaderLaws U} th d r :
  NoDup (r_id <$> rq_rows (ds_q d)) → in_or_gone (rq_rows (ds_q d)) r →
  let d' := drain_item th d r in
  NoDup (r_id <$> rq_rows (ds_q d')) ∧
  (∀ x, in_or_gone (rq_rows (ds_q d)) x → in_or_gone (rq_rows (ds_q d')) x) ∧
  (∀ x, x ∈ rq_rows (ds_q d) → x ∈ rq_rows (ds_q d') ∨ up_stored (ds_u d') (r_key x) (r_sha256 x)) ∧
  (∀ x, x ∈ rq_rows (ds_q d') → x ∈ rq_rows (ds_q d)).
Proof.
  intros Hnd Hr d'. subst d'.
  destruct (drain_item_queue th d r) as [->|(data&st&u'&_&Hput&Hst&->&->)]; [auto|]. simpl.
  split_and!; [by apply delete_where_NoDup|intros; by apply in_or_gone_delete| |].
  - intros x Hx. destruct (decide (r_id x = r_id r)) as [Hid|Hne]; [|left; by apply delete_where_elem].
    right. destruct Hr as [Hr|Hr].
    + rewrite (NoDup_id_unique _ _ _ Hnd Hx Hr Hid). by eapply up_put_stored.
    + destruct Hr. rewrite <- Hid. by apply list_elem_of_fmap_2.
  - intros x [Hx _]%delete_where_elem. done.
Qed.

Lemma drain_item_mono `{!UploaderLaws U} th d r k s :
  up_stored (ds_u d) k s → up_stored (ds_u (drain_item th d r)) k s.
Proof.
  intros Hs. unfold drain_item. destruct (_ !! _); [|done].
  destruct (up_put_suppressed _ _ _ _) as [u' out] eqn:Hu.
  pose proof (up_put_mono _ _ _ _ _ _ _ _ Hu Hs).
  destruct out; [by case_bool_decide|by destruct (th && _)].
Qed.

Lemma drain_loop_safe `{!UploaderLaws U} th rs d :
  NoDup (r_id <$> rq_rows (ds_q d)) → Forall (in_or_gone (rq_rows (ds_q d))) rs →
  let d' := foldl (drain_item th) d rs in
  NoDup (r_id <$> rq_rows (ds_q d')) ∧
  (∀ x, x ∈ rq_rows (ds_q d) → x ∈ rq_rows (ds_q d') ∨ up_stored (ds_u d') (r_key x) (r_sha256 x)) ∧
  (∀ x, x ∈ rq_rows (ds_q d') → x ∈ rq_rows (ds_q d)) ∧
  (∀ k s, up_stored (ds_u d) k s → up_stored (ds_u d') k s).
Proof.
  revert d. induction rs as [|r rs IH]; intros d Hnd Hrs; simpl; [auto|].
  apply Forall_cons in Hrs as [Hr Hrs].
  destruct (drain_item_safe th d r Hnd Hr) as (Hnd1&Hgone&Hsafe&Hback).
  destruct (IH (drain_item th d r) Hnd1) as (Hnd2&Hsafe2&Hback2&Hmono2).
  { eapply Forall_impl; [exact Hrs|]. done. }
  split_and!; [done| |auto|].
  - intros x Hx. destruct (Hsafe x Hx); [auto|right; auto].
  - intros k s Hks. apply Hmono2, drain_item_mono, Hks.
Qed.

Lemma snapshot_in_or_gone p rows : Forall (in_or_gone rows) (select_ordered p rows).
Proof. apply Forall_forall. intros r [Hr _]%select_ordered_elem. by left. Qed.

(** Both cycles of [drain]. *)
Lemma drain_safe `{!UploaderLaws U} (q : rq) (u : U) :
  NoDup (r_id <$> rq_rows q) →
  let d := drain q u in
  (∀ r, r ∈ rq_rows q → r ∈ rq_rows (ds_q d) ∨ up_stored (ds_u d) (r_key r) (r_sha256 r)) ∧
  (∀ r, r ∈ rq_rows (ds_q d) → r ∈ rq_rows q).
Proof.
  intros Hnd. unfold drain. set (d0 := DrainState q u _ _ _).
  destruct (drain_loop_safe true (select_ordered is_pending (rq_rows q)) d0 Hnd
    (snapshot_in_or_gone _ _)) as (Hnd1&Hs1&Hb1&_).
  set (d1 := foldl _ d0 _) in *.
  destruct (drain_loop_safe false (select_ordered is_quarantined (rq_rows (ds_q d1))) d1 Hnd1
    (snapshot_in_or_gone _ _)) as (Hnd2&Hs2&Hb2&Hmono).
  split; [|auto]. intros r Hr. destruct (Hs1 r Hr); [auto|right; auto].
Qed.

(** What is stored stays stored. *)
Lemma drain_mono `{!UploaderLaws U} (q : rq) (u : U) k s :
  up_stored u k s → up_stored (ds_u (drain q u)) k s.
Proof.
  assert (∀ th rs d, up_stored (ds_u d) k s → up_stored (ds_u (foldl (drain_item th) d rs)) k s) as Hloop.
  { intros th rs. induction rs as [|r rs IH]; intros d Hd; simpl; [done|]. apply IH. by apply drain_item_mono. }
  intros Hu. apply Hloop, Hloop. done.
Qed.

(** *** A drain whose puts all succeed *)

Section all_succeed.
Context (log : U → list string).
Context (Hput : ∀ data key sha u, ∃ u' st,
  up_put_suppressed data key sha u = (u', Ok st) ∧ st ≠ queued ∧ log u' = log u ++ [key]).

Lemma drain_item_succeeds th d r :
  is_Some (rq_payloads (ds_q d) !! r_payload_file r) →
  rq_rows (ds_q (drain_item th d r)) = delete_where (r_id r) (rq_rows (ds_q d)) ∧
  rq_payloads (ds_q (drain_item th d r)) = delete (r_payload_file r) (rq_payloads (ds_q d)) ∧
  log (ds_u (drain_item th d r)) = log (ds_u d) ++ [r_key r] ∧
  drained (ds_stats (drain_item th d r)) = S (drained (ds_stats d)).
Proof.
  intros [data Hd]. unfold drain_item. rewrite Hd.
  destruct (Hput data (r_key r) (r_sha256 r) (ds_u d)) as (u'&st&->&Hst&Hlog).
  by rewrite bool_decide_eq_false_2.
Qed.

Lemma drain_loop_succeeds cfg th rs d :
  rq_inv cfg (ds_q d) → NoDup (r_id <$> rs) → (∀ r, r ∈ rs → r ∈ rq_rows (ds_q d)) →
  let d' := foldl (drain_item th) d rs in
  rq_inv cfg (ds_q d') ∧
  rq_rows (ds_q d') = List.filter (λ x, bool_decide (r_id x ∉ r_id <$> rs)) (rq_rows (ds_q d)) ∧
  log (ds_u d') = log (ds_u d) ++ (r_key <$> rs) ∧
  drained (ds_stats d') = (drained (ds_stats d) + length rs)%nat.
Proof.
  revert d. induction rs as [|r rs IH]; intros d Hinv Hnd Hrs; simpl.
  { rewrite app_nil_r, Nat.add_0_r. split_and!; [done| |done|done].
    clear. induction (rq_rows (ds_q d)) as [|x l IH]; simpl; [done|]. by rewrite <- IH. }
  apply NoDup_cons in Hnd as [Hr Hnd]. fold (fmap r_id rs) in Hr.
  destruct (ri_rows _ _ Hinv r (Hrs r (list_elem_of_here _ _))) as (_&Hf&data&Hdata&_).
  destruct (drain_item_succeeds th d r) as (Hrows&Hpay&Hlog&Hdr); [by eexists|].
  destruct (IH (drain_item th d r)) as (Hinv'&Hrows'&Hlog'&Hdr').
  - by apply rq_inv_drain_item.
  - done.
  - intros x Hx. rewrite Hrows. apply delete_where_elem. split; [apply Hrs; by right|].
    intros Heq. apply Hr. rewrite <- Heq. by apply list_elem_of_fmap_2.
  - split_and!; [done| |by rewrite Hlog', Hlog, <- app_assoc|rewrite Hdr', Hdr; lia].
    rewrite Hrows', Hrows. unfold delete_where. rewrite filter_filter_and.
    apply List.filter_ext. intros x. rewrite <- String.eqb_sym.
    destruct (String.eqb_spec (r_id r) (r_id x)) as [Heq|Hne]; simpl.
    + rewrite bool_decide_eq_false_2; [done|]. rewrite Heq. set_solver.
    + apply bool_decide_ext. rewrite not_elem_of_cons. naive_solver.
Qed.
End all_succeed.
End drain_lemmas.

(** ** A concrete uploader for the witnesses: an in-memory store that refuses
    to overwrite another digest and logs the keys it is asked to put. *)

Record mem_store := MemStore { ms_digest : gmap string string; ms_log : list string }.

#[export] Instance mem_uploader : Uploader mem_store := {|
  up_put_suppressed _ key sha := λ s,
    match ms_digest s !! key with
    | Some sha' =>
        (MemStore (ms_digest s) (ms_log s ++ [key]),
         if String.eqb sha' sha then Ok skipped_idempotent else Raise ConditionalWriteConflict)
    | None => (MemStore (<[key := sha]> (ms_digest s)) (ms_log s ++ [key]), Ok uploaded)
    end;
  up_stored s key sha := ms_digest s !! key = Some sha |}.

#[export] Instance mem_uploader_laws : UploaderLaws mem_store.
Proof.
  split; unfold up_put_suppressed, up_stored; simpl.
  - intros _ key sha [m l] u' st. simpl. destruct (m !! key) as [sha'|] eqn:Hm; simpl.
    + destruct (String.eqb_spec sha' sha); intros ?; simplify_eq. done.
    + intros ? _. simplify_eq/=. apply lookup_insert_eq.
  - intros _ key sha [m l] u' r k s. simpl. destruct (m !! key) as [sha'|] eqn:Hm; intros ?; simplify_eq/=; [done|].
    intros Hk. rewrite lookup_insert_ne; [done|congruence].
Qed.

Definition example_config : rq_config := RqConfig 2 1000 3.
Definition example_queue : rq :=
  (enqueue example_config
    (enqueue example_config (Rq [] ∅) "k1" "aa" "s1" "id1" 10 0 None None).1
    "k2" "bb" "s2" "id2" 20 0 None None).1.

(** ** Properties *)

(** C25.  From an empty queue, whatever enqueues (with fresh ids, faults
    included) and drain steps interleave: at most [hard_floor] rows are
    active, at most [max 1 max_segments] are pending, ids are unique and every
    row is active and has its payload file with the recorded length. *)
Theorem retry_queue_invariant {U : Type} `{Uploader U} (cfg : rq_config) (u u' : U) (q : rq) :
  rtc (rq_step cfg) (Rq [] ∅, u) (q, u') →
  rq_inv cfg q.
Proof.
  intros Hsteps. change (rq_inv cfg (q, u').1). revert Hsteps.
  generalize (q, u'). intros s Hsteps.
  assert (rq_inv cfg (Rq [] ∅, u).1) as Hinv by apply rq_inv_empty.
  induction Hsteps as [|s1 s2 s3 Hstep _ IH]; [done|]. by eapply IH, rq_step_inv.
Qed.

Lemma retry_queue_invariant_witness : rq_inv example_config example_queue.
Proof.
  apply (retry_queue_invariant example_config (MemStore ∅ []) (MemStore ∅ []) example_queue).
  eapply rtc_l; [apply (step_enqueue _ _ _ "k1" "aa" "s1" "id1" 10 0 None None); vm_compute; intros Hin; inversion Hin|].
  eapply rtc_l; [|apply rtc_refl].
  apply (step_enqueue _ _ _ "k2" "bb" "s2" "id2" 20 0 None None).
  vm_compute. intros Hin. inversion Hin as [|? ? ? Hin']. inversion Hin'.
Defined.

(** [enqueue] drops nothing.  At the hard floor it is refused and the
    queue is untouched; otherwise every row of the table is still there, at
    most demoted from pending to quarantined with its payload intact, and the
    new segment is pending with its payload on disk. *)
Theorem enqueue_drops_nothing (cfg : rq_config) (q : rq) (key data sha id : string) (ts now : Z) :
  rq_inv cfg q → id ∉ r_id <$> rq_rows q →
  let '(q', out) := enqueue cfg q key data sha id ts now None None in
  if hard_floor cfg <=? depth q true
  then q' = q ∧ out = Ok (MkEnqueueResult hard_floor_blocked "")
  else out = Ok (MkEnqueueResult enq_ok id) ∧
    RqRow id key sha (payload_filename id) (blen data) pending ts None ∈ rq_rows q' ∧
    rq_payloads q' !! payload_filename id = Some data ∧
    (∀ r, r ∈ rq_rows q → ∃ r', r' ∈ rq_rows q' ∧ demoted r r' ∧
      rq_payloads q' !! r_payload_file r' = rq_payloads q !! r_payload_file r).
Proof.
  intros Hinv Hfresh. unfold enqueue, depth. destruct (_ <=? _); [done|]. simpl.
  split_and!; [done|set_solver|apply lookup_insert_eq|]. intros r Hr.
  assert (∃ r', r' ∈ (if threshold_breached cfg (rq_rows q) (blen data)
    then quarantine_oldest now (rq_rows q) else rq_rows q) ∧ demoted r r') as (r'&Hr'&Hd).
  { destruct (threshold_breached _ _ _); [|exists r; split; [done|by left]].
    by apply quarantine_oldest_rows; [apply Hinv|]. }
  exists r'. split_and!; [set_solver|done|].
  destruct (ri_rows _ _ Hinv r Hr) as (Ha&Hf&_). destruct (demoted_row _ _ Hd Ha) as (_&_&->&_).
  rewrite lookup_insert_ne; [done|]. rewrite Hf. intros Heq%payload_filename_inj.
  apply Hfresh. rewrite Heq. by apply list_elem_of_fmap_2.
Qed.

Lemma enqueue_drops_nothing_witness :
  let '(q', out) := enqueue example_config example_queue "k3" "cc" "s3" "id3" 30 31 None None in
  out = Ok (MkEnqueueResult enq_ok "id3") ∧
  RqRow "id3" "k3" "s3" (payload_filename "id3") 2 pending 30 None ∈ rq_rows q' ∧
  rq_payloads q' !! payload_filename "id3" = Some "cc" ∧
  (∀ r, r ∈ rq_rows example_queue → ∃ r', r' ∈ rq_rows q' ∧ demoted r r' ∧
    rq_payloads q' !! r_payload_file r' = rq_payloads example_queue !! r_payload_file r).
Proof.
  refine (enqueue_drops_nothing example_config example_queue "k3" "cc" "s3" "id3" 30 31 _ _).
  - exact retry_queue_invariant_witness.
  - vm_compute. intros Hin. inversion Hin as [|? ? ? Hin']. inversion Hin' as [|? ? ? Hin'']. inversion Hin''.
Defined.

(** A drain removes a row only when its content is stored: after [drain]
    every row of the queue is either still queued, unchanged, or stored under
    its key with its digest; the drain adds no row. *)
Theorem drain_removes_only_stored {U : Type} `{Uploader U} `{!UploaderLaws U}
    (q : rq) (u : U) :
  NoDup (r_id <$> rq_rows q) →
  let d := drain q u in
  (∀ r, r ∈ rq_rows q → r ∈ rq_rows (ds_q d) ∨ up_stored (ds_u d) (r_key r) (r_sha256 r)) ∧
  (∀ r, r ∈ rq_rows (ds_q d) → r ∈ rq_rows q).
Proof.
  apply drain_safe.
Qed.

Lemma drain_removes_only_stored_witness :
  let d := drain example_queue (MemStore {[ "k2" := "other" ]} []) in
  (∀ r, r ∈ rq_rows example_queue → r ∈ rq_rows (ds_q d) ∨ up_stored (ds_u d) (r_key r) (r_sha256 r)) ∧
  (∀ r, r ∈ rq_rows (ds_q d) → r ∈ rq_rows example_queue).
Proof.
  apply drain_removes_only_stored. vm_compute.
  apply NoDup_cons_2; [intros Hin; inversion Hin as [|? ? ? Hin']; inversion Hin'|].
  apply NoDup_cons_2; [intros Hin; inversion Hin|constructor].
Defined.

(** When every put succeeds, one drain empties the queue, uploads each
    row once, pending rows first and each class in [enqueue_ts] order, and
    reports them all as drained. *)
Theorem drain_empties_queue_in_order {U : Type} `{Uploader U} (cfg : rq_config) (log : U → list string)
    (q : rq) (u : U) :
  (∀ data key sha u, ∃ u' st, up_put_suppressed data key sha u = (u', Ok st) ∧ st ≠ queued ∧
    log u' = log u ++ [key]) →
  rq_inv cfg q →
  let d := drain q u in
  rq_rows (ds_q d) = [] ∧
  log (ds_u d) = log u ++ (r_key <$> select_ordered is_pending (rq_rows q)) ++
                          (r_key <$> select_ordered is_quarantined (rq_rows q)) ∧
  drained (ds_stats d) = length (rq_rows q).
Proof.
  intros Hput Hinv. unfold drain. set (d0 := DrainState q u _ _ _).
  destruct (drain_loop_succeeds log Hput cfg true (select_ordered is_pending (rq_rows q)) d0 Hinv)
    as (Hinv1&Hrows1&Hlog1&Hdr1).
  { apply select_ordered_NoDup, Hinv. } { intros r [Hr _]%select_ordered_elem. done. }
  set (d1 := foldl _ d0 _) in *. simpl in Hrows1.
  rewrite (filter_after_pending_cycle cfg q Hinv) in Hrows1.
  destruct (drain_loop_succeeds log Hput cfg false (select_ordered is_quarantined (rq_rows (ds_q d1))) d1 Hinv1)
    as (Hinv2&Hrows2&Hlog2&Hdr2).
  { apply select_ordered_NoDup, Hinv1. } { intros r [Hr _]%select_ordered_elem. done. }
  assert (select_ordered is_quarantined (rq_rows (ds_q d1)) = select_ordered is_quarantined (rq_rows q)) as Hsel.
  { rewrite Hrows1. unfold select_ordered. rewrite filter_filter_and.
    f_equal. apply List.filter_ext. intros r. by destruct (is_quarantined r). }
  rewrite Hsel in *. rewrite Hrows2, Hlog2, Hlog1, Hdr2, Hdr1, Hrows1. simpl. split_and!.
  - apply filter_none. intros r Hr%list_elem_of_In. apply filter_In in Hr as [Hr%list_elem_of_In Hq].
    apply bool_decide_eq_false_2. intros Hn. by apply Hn, list_elem_of_fmap_2, select_ordered_elem.
  - by rewrite <- app_assoc.
  - by apply (select_ordered_lengths cfg).
Qed.

Definition always_ok (u : list string) (key : string) : list string * res put_status := (u ++ [key], Ok uploaded).

Lemma drain_empties_queue_in_order_witness :
  let d := @drain (list string) {| up_put_suppressed _ key _ := λ u, always_ok u key; up_stored _ _ _ := True |}
             example_queue [] in
  rq_rows (ds_q d) = [] ∧
  ds_u d = [] ++ (r_key <$> select_ordered is_pending (rq_rows example_queue)) ++
                 (r_key <$> select_ordered is_quarantined (rq_rows example_queue)) ∧
  drained (ds_stats d) = length (rq_rows example_queue).
Proof.
  apply (@drain_empties_queue_in_order (list string)
    {| up_put_suppressed _ key _ := λ u, always_ok u key; up_stored _ _ _ := True |}
    example_config (λ u, u) example_queue []).
  - intros data key sha u. exists (u ++ [key]), uploaded. done.
  - exact retry_queue_invariant_witness.
Defined.

(** [enqueue_ts] is a monotonic clock reading, which restarts with the
    host: a row enqueued before a reboot (reading 100) and one after it
    (reading 5).  The later row is then taken for the oldest: it is drained
    first, and it is the one the threshold demotes. *)
Theorem fifo_lost_across_clock_restart :
  let before := (enqueue (RqConfig 2 1000 9) (Rq [] ∅) "old" "aa" "s1" "id1" 100 0 None None).1 in
  let after := (enqueue (RqConfig 2 1000 9) before "new" "bb" "s2" "id2" 5 0 None None).1 in
  (r_key <$> rq_rows after) = ["old"; "new"] ∧
  (r_key <$> select_ordered is_pending (rq_rows after)) = ["new"; "old"] ∧
  (r_key <$> List.filter is_quarantined
    (rq_rows (enqueue (RqConfig 2 1000 9) after "third" "cc" "s3" "id3" 6 0 None None).1)) = ["new"].
Proof. vm_compute. auto. Qed.
