(* ===== verification/ObjectStore.v ===== *)
(** * The object store behind boto3, as an interface

    MinIO and boto3 are not part of the repository: the model takes the six
    client calls the uploader makes as operations of a class, over a store
    state that may also hold whatever decides about failures.  [S3Laws] states
    the documented behaviour the code relies on (S3 is strongly consistent):
    HEAD reads, a successful PUT or COPY binds the key, a failing write may or
    may not have taken effect.  [mem_s3] is a concrete store with a script of
    injected faults, used by the witnesses. *)
From S2P Require Import Prelude.
Open Scope Z_scope.

(** An object: its body and the [sha256] entry of its user metadata. *)
Record object := Object { ob_body : bytes; ob_sha256 : option string }.

(** What HEAD answers: raw ETag (quoted), version, metadata digest, length. *)
Record head_response := HeadResponse {
  h_etag : string; h_version_id : option string; h_sha256 : option string; h_content_length : Z }.

Class S3 (S : Type) := {
  s3_head : string → proc S head_response;
  (** [put_object] / [upload_fileobj] with [Metadata={"sha256": ...}]: the raw ETag *)
  s3_put : string → bytes → string → proc S string;
  (** [copy_object(src, dst)]: raw ETag and version of the copy *)
  s3_copy : string → string → proc S (string * option string);
  s3_delete : string → proc S unit;
  (** [get_object(...)["Body"].read()] *)
  s3_get : string → proc S bytes;
  (** [list_objects_v2] over all pages: keys in service order *)
  s3_list : string → proc S (list string);
  s3_objects : S → gmap string object }.

Class S3Laws (S : Type) `{S3 S} := {
  s3_head_frame k s s' r : s3_head k s = (s', r) → s3_objects s' = s3_objects s;
  s3_head_ok k s s' h : s3_head k s = (s', Ok h) →
    ∃ o, s3_objects s !! k = Some o ∧ h_sha256 h = ob_sha256 o ∧ h_content_length h = blen (ob_body o);
  s3_head_404 k s s' : s3_head k s = (s', Raise (ClientError "404")) → s3_objects s !! k = None;
  s3_put_ok k b sha s s' etag : s3_put k b sha s = (s', Ok etag) →
    s3_objects s' = <[k := Object b (Some sha)]> (s3_objects s);
  s3_put_err k b sha s s' e : s3_put k b sha s = (s', Raise e) →
    s3_objects s' = s3_objects s ∨ s3_objects s' = <[k := Object b (Some sha)]> (s3_objects s);
  s3_copy_ok src dst s s' r : s3_copy src dst s = (s', Ok r) →
    ∃ o, s3_objects s !! src = Some o ∧ s3_objects s' = <[dst := o]> (s3_objects s);
  s3_copy_err src dst s s' e : s3_copy src dst s = (s', Raise e) →
    s3_objects s' = s3_objects s ∨
    ∃ o, s3_objects s !! src = Some o ∧ s3_objects s' = <[dst := o]> (s3_objects s);
  s3_delete_any k s s' r : s3_delete k s = (s', r) →
    s3_objects s' = delete k (s3_objects s) ∨ (s3_objects s' = s3_objects s ∧ r ≠ Ok tt);
  s3_get_frame k s s' r : s3_get k s = (s', r) → s3_objects s' = s3_objects s;
  s3_get_ok k s s' b : s3_get k s = (s', Ok b) → ∃ o, s3_objects s !! k = Some o ∧ ob_body o = b;
  s3_list_frame p s s' r : s3_list p s = (s', r) → s3_objects s' = s3_objects s;
  s3_list_ok p s s' keys : s3_list p s = (s', Ok keys) →
    NoDup keys ∧ ∀ k, k ∈ keys ↔ String.prefix p k = true ∧ is_Some (s3_objects s !! k) }.

(** The content with digest [sha] is stored under [k]. *)
Definition stored_sha {S : Type} `{S3 S} (s : S) (k sha : string) : Prop :=
  ∃ o, s3_objects s !! k = Some o ∧ ob_sha256 o = Some sha.

(** [s.strip(c)] for one character. *)
Fixpoint lstrip (c : Ascii.ascii) (s : string) : string :=
  match s with
  | EmptyString => EmptyString
  | String a s' => if Ascii.eqb a c then lstrip c s' else s
  end.
Fixpoint rstrip (c : Ascii.ascii) (s : string) : string :=
  match s with
  | EmptyString => EmptyString
  | String a s' =>
      match rstrip c s' with
      | EmptyString => if Ascii.eqb a c then EmptyString else String a EmptyString
      | s'' => String a s''
      end
  end.
Definition strip (c : Ascii.ascii) (s : string) : string := rstrip c (lstrip c s).
(** The double quote of an ETag. *)
Definition quote_char : Ascii.ascii := Ascii.ascii_of_nat 34.
Definition strip_quotes : string → string := strip quote_char.

(** ** An in-memory store with injected faults *)

Inductive fault := NetDown | Denied (code : string).

(** An injected error is never a 404: that answer is about the key. *)
Definition fault_exn (f : fault) : exn :=
  match f with
  | NetDown => EndpointConnectionError
  | Denied code => ClientError (if String.eqb code "404" then "500" else code)
  end.

(** One entry of the script is consumed by each call; past its end, all calls
    succeed. *)
Record mem_s3 := MemS3 { mem_objects : gmap string object; mem_script : list (option fault) }.

Definition mem_call {A} (f : mem_s3 → mem_s3 * res A) : proc mem_s3 A :=
  λ s, let s' := MemS3 (mem_objects s) (tail (mem_script s)) in
       match head (mem_script s) with
       | Some (Some fl) => (s', Raise (fault_exn fl))
       | _ => f s'
       end.

Definition mem_head (k : string) : proc mem_s3 head_response :=
  mem_call (λ s, match mem_objects s !! k with
    | Some o => (s, Ok (HeadResponse (ob_body o) None (ob_sha256 o) (blen (ob_body o))))
    | None => (s, Raise (ClientError "404"))
    end).
Definition mem_put (k : string) (b : bytes) (sha : string) : proc mem_s3 string :=
  mem_call (λ s, (MemS3 (<[k := Object b (Some sha)]> (mem_objects s)) (mem_script s), Ok b)).
Definition mem_copy (src dst : string) : proc mem_s3 (string * option string) :=
  mem_call (λ s, match mem_objects s !! src with
    | Some o => (MemS3 (<[dst := o]> (mem_objects s)) (mem_script s), Ok (ob_body o, None))
    | None => (s, Raise (ClientError "404"))
    end).
Definition mem_delete (k : string) : proc mem_s3 unit :=
  mem_call (λ s, (MemS3 (delete k (mem_objects s)) (mem_script s), Ok tt)).
Definition mem_get (k : string) : proc mem_s3 bytes :=
  mem_call (λ s, match mem_objects s !! k with
    | Some o => (s, Ok (ob_body o))
    | None => (s, Raise (ClientError "404"))
    end).
Definition mem_list (p : string) : proc mem_s3 (list string) :=
  mem_call (λ s, (s, Ok (List.filter (String.prefix p) (map_to_list (mem_objects s)).*1))).

#[export] Instance mem_s3_ops : S3 mem_s3 := {|
  s3_head := mem_head; s3_put := mem_put; s3_copy := mem_copy; s3_delete := mem_delete; s3_get := mem_get;
  s3_list := mem_list; s3_objects := mem_objects |}.

Lemma fault_not_404 f : fault_exn f ≠ ClientError "404".
Proof. destruct f as [|c]; simpl; [done|]. destruct (String.eqb_spec c "404"); congruence. Qed.

Lemma mem_list_ok p (m : gmap string object) :
  NoDup (List.filter (String.prefix p) (map_to_list m).*1) ∧
  ∀ k, k ∈ List.filter (String.prefix p) (map_to_list m).*1 ↔ String.prefix p k = true ∧ is_Some (m !! k).
Proof.
  split; [apply NoDup_ListNoDup, List.NoDup_filter, NoDup_ListNoDup, NoDup_fst_map_to_list|].
  intros k. rewrite list_elem_of_In, List.filter_In, <- list_elem_of_In, list_elem_of_fmap.
  split.
  - intros [([k' o]&->&Hin) Hp]. split; [done|]. exists o. by apply elem_of_map_to_list.
  - intros [Hp [o Ho]]. split; [|done]. exists (k, o). split; [done|]. by apply elem_of_map_to_list.
Qed.

#[export] Instance mem_s3_laws : S3Laws mem_s3.
Proof.
  split; simpl; unfold mem_head, mem_put, mem_copy, mem_delete, mem_get, mem_list, mem_call; intros *;
    intros Heq; repeat py_case_in Heq; simplify_eq/=; eauto using fault_not_404, mem_list_ok;
    try (by exfalso; eapply fault_not_404); try (by right; split; [done|]).
Qed.

(** ** The same store without faults *)

Record plain_s3 := PlainS3 { plain_objects : gmap string object }.

Definition plain_call {A} (f : mem_s3 → mem_s3 * res A) : proc plain_s3 A := λ s,
  let '(m, r) := f (MemS3 (plain_objects s) []) in (PlainS3 (mem_objects m), r).

#[export] Instance plain_s3_ops : S3 plain_s3 := {|
  s3_head k := plain_call (mem_head k); s3_put k b sha := plain_call (mem_put k b sha);
  s3_copy src dst := plain_call (mem_copy src dst); s3_delete k := plain_call (mem_delete k);
  s3_get k := plain_call (mem_get k); s3_list p := plain_call (mem_list p); s3_objects := plain_objects |}.

#[export] Instance plain_s3_laws : S3Laws plain_s3.
Proof.
  split; simpl; unfold plain_call, mem_head, mem_put, mem_copy, mem_delete, mem_get, mem_list, mem_call; simpl;
    intros *; intros Heq; repeat py_case_in Heq; simplify_eq/=; eauto using mem_list_ok.
Qed.

(** ** The same with bucket versioning: HEAD and COPY answer a version *)

Record versioned_s3 := VersionedS3 { versioned_objects : gmap string object }.

Definition versioned_call {A} (f : mem_s3 → mem_s3 * res A) : proc versioned_s3 A := λ s,
  let '(m, r) := f (MemS3 (versioned_objects s) []) in (VersionedS3 (mem_objects m), r).
Definition with_version {A B} (f : A → B) (r : proc versioned_s3 A) : proc versioned_s3 B :=
  pbind r (λ a, pret (f a)).

#[export] Instance versioned_s3_ops : S3 versioned_s3 := {|
  s3_head k := with_version (λ h, HeadResponse (h_etag h) (Some "v1"%string) (h_sha256 h) (h_content_length h)) (versioned_call (mem_head k));
  s3_put k b sha := versioned_call (mem_put k b sha);
  s3_copy src dst := with_version (λ r, (r.1, Some "v1"%string)) (versioned_call (mem_copy src dst));
  s3_delete k := versioned_call (mem_delete k);
  s3_get k := versioned_call (mem_get k); s3_list p := versioned_call (mem_list p); s3_objects := versioned_objects |}.

#[export] Instance versioned_s3_laws : S3Laws versioned_s3.
Proof.
  split; simpl; unfold with_version, pbind, pret, versioned_call, mem_head, mem_put, mem_copy, mem_delete, mem_get, mem_list, mem_call; simpl;
    intros *; intros Heq; repeat py_case_in Heq; simplify_eq/=; eauto using mem_list_ok.
Qed.
