(* ===== verification/NasUploader.v ===== *)
(** * NAS uploader ([nas_storage/nas_uploader.py])

    HEAD-then-PUT idempotency, the 4xx fail-fast matrix, the fall-back to the
    retry queue, server-side copy and delete.  A call runs in a [world]: the
    store, the optional retry queue, the local files (used by the callers of
    this file) and the metrics emitted so far.  Latencies and log lines are not
    modelled. *)
From S2P Require Import Prelude RetryQueue ObjectStore.
Open Scope Z_scope.

Inductive metric :=
| EmitHead
| EmitSuccess
| EmitFail (reason : string)
| PutOperationalAlert (reason : string)
| LocalSelfDelete (tier outcome : string)
| RetryOrphan (tier : string)
| InvariantDualWrite (status nas_key_prefix : string)
| NasKeyHelperCall (caller tier : string)
| DualWriteResultTotal (status tier : string).

Record world (S : Type) := World {
  w_s3 : S; w_rq : option rq; w_enqueues : nat; w_fs : gmap string bytes; w_metrics : list metric }.
Arguments World {S}.
Arguments w_s3 {S}.
Arguments w_rq {S}.
Arguments w_enqueues {S}.
Arguments w_fs {S}.
Arguments w_metrics {S}.

Record PutResult := MkPutResult { p_status : put_status; p_etag : string }.

Inductive copy_status := copied | already_exists_idempotent | source_not_found | dst_conflict.
Record CopyResult := MkCopyResult {
  cp_status : copy_status; cp_src_etag : string; cp_dst_etag : string;
  cp_src_version_id : option string; cp_dst_version_id : option string }.

(** The [Path | IO[bytes]] argument of [put_streaming].  A path can be read
    again after a failed upload; an open stream goes on where the upload left
    it, with [rest]. *)
Inductive upload_source := SourcePath (data : bytes) | SourceStream (data rest : bytes).
Definition source_bytes (src : upload_source) : bytes :=
  match src with SourcePath data | SourceStream data _ => data end.
Definition source_reread (src : upload_source) : bytes :=
  match src with SourcePath data => data | SourceStream _ rest => rest end.

(** [_FAIL_FAST_CODE_TO_REASON] and [_classify_4xx] *)
Definition FAIL_FAST_CODE_TO_REASON : list (string * string) :=
  [("401", "auth_failed"); ("InvalidAccessKeyId", "auth_failed"); ("SignatureDoesNotMatch", "auth_failed");
   ("403", "policy_denied"); ("AccessDenied", "policy_denied");
   ("NoSuchBucket", "bucket_missing");
   ("QuotaExceeded", "quota_exceeded"); ("StorageClassNotSupported", "quota_exceeded")]%string.

Definition classify_4xx (code : string) : option string :=
  snd <$> List.find (λ p, String.eqb p.1 code) FAIL_FAST_CODE_TO_REASON.

Section uploader.
Context {S : Type} `{S3 S}.
(** The queue's configuration; the environment of the [n]-th enqueue: a uuid,
    two clock readings and the faults of the payload write and the INSERT. *)
Context (cfg : rq_config) (new_id : nat → string) (enqueue_clock : nat → Z * Z)
        (enqueue_faults : nat → option exn * option exn).
(** Is [self._metrics] set? and the SHA-256 hex digest. *)
Context (has_metrics : bool) (sha256_hex : bytes → string).

Local Notation proc := (proc (world S)).

Definition call_s3 {A} (m : S → S * res A) : proc A := λ w,
  let '(s', r) := m (w_s3 w) in (World s' (w_rq w) (w_enqueues w) (w_fs w) (w_metrics w), r).
Definition emit_always (m : metric) : proc unit := λ w,
  (World (w_s3 w) (w_rq w) (w_enqueues w) (w_fs w) (w_metrics w ++ [m]), Ok tt).
(** [if self._metrics: self._metrics.emit_...] *)
Definition emit (m : metric) : proc unit := λ w,
  if has_metrics then emit_always m w else (w, Ok tt).

(** [self._retry_queue.enqueue(...)] on a configured queue. *)
Definition rq_enqueue (q : rq) (key : string) (data : bytes) (sha256 : string) : proc EnqueueResult := λ w,
  let n := w_enqueues w in
  let '(q', r) := enqueue cfg q key data sha256 (new_id n) (enqueue_clock n).1 (enqueue_clock n).2
                    (enqueue_faults n).1 (enqueue_faults n).2 in
  (World (w_s3 w) (Some q') (Datatypes.S n) (w_fs w) (w_metrics w), r).

Definition status_of_enqueue (r : EnqueueResult) : put_status :=
  match e_status r with hard_floor_blocked => put_hard_floor_blocked | enq_ok => queued end.

(** The shared tail of the error branches: enqueue when a queue is there. *)
Definition enqueue_or_queued (use_queue : bool) (key : string) (data : bytes) (sha256 : string) : proc PutResult :=
  λ w, match w_rq w with
       | Some q =>
           if use_queue then
             pbind (rq_enqueue q key data sha256) (λ r, pret (MkPutResult (status_of_enqueue r) "")) w
           else (w, Ok (MkPutResult queued ""))
       | None => (w, Ok (MkPutResult queued ""))
       end.

(** [_put_with_idempotency] *)
Definition put_with_idempotency (key : string) (data : bytes) (sha256 : string) : proc PutResult :=
  let do_put := pbind (call_s3 (s3_put key data sha256)) (λ etag,
                  pret (MkPutResult uploaded (strip_quotes etag))) in
  λ w, match call_s3 (s3_head key) w with
       | (w1, Ok h) =>
           pbind (emit EmitHead) (λ _,
             match h_sha256 h with
             | None => do_put
             | Some existing =>
                 if String.eqb existing sha256 then pret (MkPutResult skipped_idempotent existing)
                 else praise ConditionalWriteConflict
             end) w1
       | (w1, Raise (ClientError code)) =>
           if String.eqb code "404" then pbind (emit EmitHead) (λ _, do_put) w1
           else (w1, Raise (ClientError code))
       | (w1, Raise e) => (w1, Raise e)
       end.

(** The 4xx fail-fast tail: counter, optional metric, alert. *)
Definition operational_alert (with_fail_metric : bool) (code reason : string) : proc PutResult :=
  pbind (emit_always (PutOperationalAlert reason)) (λ _,
  pbind (if with_fail_metric then emit (EmitFail reason) else pret tt) (λ _,
  praise (NASOperationalAlert code reason))).

(** [put(key, data, sha256=..., suppress_enqueue=...)] *)
Definition put (key : string) (data : bytes) (sha256 : option string) (suppress_enqueue : bool) : proc PutResult :=
  let sha256 := default (sha256_hex data) sha256 in
  λ w, match put_with_idempotency key data sha256 w with
       | (w1, Ok r) =>
           pbind (match p_status r with
                  | uploaded | skipped_idempotent => emit EmitSuccess
                  | _ => pret tt
                  end) (λ _, pret r) w1
       | (w1, Raise EndpointConnectionError) =>
           if suppress_enqueue then (w1, Raise EndpointConnectionError)
           else pbind (emit (EmitFail "endpoint_unreachable")) (λ _,
                  enqueue_or_queued true key data sha256) w1
       | (w1, Raise (ClientError code)) =>
           match classify_4xx code with
           | Some reason => operational_alert true code reason w1
           | None => pbind (emit (EmitFail "unknown")) (λ _,
                       enqueue_or_queued (negb suppress_enqueue) key data sha256) w1
           end
       | (w1, Raise e) => (w1, Raise e)
       end.

(** The upload half of [put_streaming]: a failed upload is queued with the
    bytes the source yields afterwards. *)
Definition streaming_upload (src : upload_source) (nas_key sha256 : string) : proc PutResult := λ w,
  match call_s3 (s3_put nas_key (source_bytes src) sha256) w with
  | (w1, Ok _) => (w1, Ok (MkPutResult uploaded ""))
  | (w1, Raise EndpointConnectionError) => enqueue_or_queued true nas_key (source_reread src) sha256 w1
  | (w1, Raise (ClientError code)) =>
      match classify_4xx code with
      | Some reason => operational_alert false code reason w1
      | None => enqueue_or_queued true nas_key (source_reread src) sha256 w1
      end
  | (w1, Raise e) => (w1, Raise e)
  end.

(** [put_streaming(local_path_or_fileobj, nas_key, sha256)] *)
Definition put_streaming (src : upload_source) (nas_key sha256 : string) : proc PutResult := λ w,
  match call_s3 (s3_head nas_key) w with
  | (w1, Ok h) =>
      match h_sha256 h with
      | Some existing =>
          if String.eqb existing sha256 then (w1, Ok (MkPutResult skipped_idempotent existing))
          else (w1, Raise ConditionalWriteConflict)
      | None => streaming_upload src nas_key sha256 w1
      end
  | (w1, Raise (ClientError code)) =>
      if String.eqb code "404" then streaming_upload src nas_key sha256 w1
      else match classify_4xx code with
           | Some reason => operational_alert false code reason w1
           | None => (w1, Raise (ClientError code))
           end
  | (w1, Raise e) => (w1, Raise e)
  end.

(** [enqueue_retry]: the result of [enqueue] is discarded. *)
Definition enqueue_retry (key : string) (data : bytes) (sha256 : string) : proc unit := λ w,
  match w_rq w with
  | None => (w, Ok tt)
  | Some q => pbind (rq_enqueue q key data sha256) (λ _, pret tt) w
  end.

(** [head_object]: the four-tuple with the ETag unquoted. *)
Definition head_object (key : string) : proc head_response :=
  pbind (call_s3 (s3_head key)) (λ h,
  pret (HeadResponse (strip_quotes (h_etag h)) (h_version_id h) (h_sha256 h) (h_content_length h))).

(** [copy_object] *)
Definition copy_object (src_key dst_key : string) : proc CopyResult := λ w,
  match call_s3 (s3_head src_key) w with
  | (w1, Raise (ClientError code)) =>
      if String.eqb code "404" then (w1, Ok (MkCopyResult source_not_found "" "" None None))
      else (w1, Raise (ClientError code))
  | (w1, Raise e) => (w1, Raise e)
  | (w1, Ok src) =>
      let src_etag := strip_quotes (h_etag src) in
      let do_copy := pbind (call_s3 (s3_copy src_key dst_key)) (λ r,
        pret (MkCopyResult copied src_etag (strip_quotes r.1) (h_version_id src) r.2)) in
      match call_s3 (s3_head dst_key) w1 with
      | (w2, Ok dst) =>
          match h_sha256 src, h_sha256 dst with
          | Some a, Some b =>
              let st := if String.eqb a b then already_exists_idempotent else dst_conflict in
              (w2, Ok (MkCopyResult st src_etag (strip_quotes (h_etag dst)) (h_version_id src) (h_version_id dst)))
          | _, _ => do_copy w2
          end
      | (w2, Raise (ClientError code)) =>
          if String.eqb code "404" then do_copy w2 else (w2, Raise (ClientError code))
      | (w2, Raise e) => (w2, Raise e)
      end
  end.

(** [delete_object]: deleting an absent key is not an error. *)
Definition delete_object (key : string) : proc unit := λ w,
  match call_s3 (s3_delete key) w with
  | (w1, Raise (ClientError code)) =>
      if String.eqb code "404" then (w1, Ok tt) else (w1, Raise (ClientError code))
  | (w1, r) => (w1, r)
  end.

(** [_list_objects]: all keys under the prefix, sorted. *)
Definition list_objects (prefix : string) : proc (list string) :=
  pbind (call_s3 (s3_list prefix)) (λ keys, pret (sort_le String.leb keys)).

(** [_download] *)
Definition download (key : string) : proc bytes := call_s3 (s3_get key).
End uploader.

(** ** Lemmas *)

Notation objects w := (s3_objects (w_s3 w)).

(** [m'] is [m], or [m] with [new] bound to [key] where no object with a
    recorded digest stood: the forward-only rule of the store. *)
Definition forward_only (key : string) (new : object) (m m' : gmap string object) : Prop :=
  m' = m ∨ (m' = <[key := new]> m ∧ ∀ o, m !! key = Some o → ob_sha256 o = None).

Lemma forward_only_keeps key new m m' k o :
  forward_only key new m m' → m !! k = Some o → is_Some (ob_sha256 o) → m' !! k = Some o.
Proof.
  intros [->|[-> Hnone]] Hk [s Hs]; [done|].
  rewrite lookup_insert_ne; [done|]. intros ->. apply Hnone in Hk. congruence.
Qed.

Lemma forward_only_refl key new m : forward_only key new m m.
Proof. by left. Qed.

#[export] Hint Resolve forward_only_refl : py.

(** The queue row a successful [enqueue] leaves. *)
Definition queue_holds (q : option rq) (key sha : string) (data : bytes) : Prop :=
  ∃ q' r, q = Some q' ∧ r ∈ rq_rows q' ∧ r_key r = key ∧ r_sha256 r = sha ∧ r_state r = pending ∧
    rq_payloads q' !! r_payload_file r = Some data.

(** Everything but store, queue and metrics is left alone. *)
Definition same_files {S} (w w' : world S) : Prop := w_fs w' = w_fs w.
Definition same_queue {S} (w w' : world S) : Prop := w_rq w' = w_rq w.

Lemma emit_bind {S A} (b : bool) m (k : unit → proc (world S) A) w :
  ∃ w1, pbind (emit b m) k w = k tt w1 ∧ w_s3 w1 = w_s3 w ∧ same_queue w w1 ∧ same_files w w1.
Proof. unfold pbind, emit. destruct b; simpl; eexists; by split_and!. Qed.

(** Run the optional metric at the head of the goal's call. *)
Ltac step_emit w2 Hs Hq Hf :=
  match goal with
  | |- pbind (emit ?b ?m) ?k ?w = _ → _ =>
      let E := fresh in
      destruct (emit_bind b m k w) as (w2 & E & Hs & Hq & Hf); rewrite E; clear E
  end.

Section store_lemmas.
Context {S : Type} `{S3Laws S}.
Implicit Types (w : world S) (key : string).

Lemma call_s3_inv {A} (m : S → S * res A) w w' r :
  call_s3 m w = (w', r) →
  m (w_s3 w) = (w_s3 w', r) ∧ same_queue w w' ∧ same_files w w' ∧ w_enqueues w' = w_enqueues w.
Proof. unfold call_s3. destruct (m (w_s3 w)) as [s' r'] eqn:Hm. intros ?; simplify_eq. done. Qed.

Lemma head_inv key w w' r :
  call_s3 (s3_head key) w = (w', r) →
  objects w' = objects w ∧ same_queue w w' ∧ same_files w w' ∧
  (∀ h, r = Ok h → ∃ o, objects w !! key = Some o ∧ h_sha256 h = ob_sha256 o ∧
    h_content_length h = blen (ob_body o)) ∧
  (r = Raise (ClientError "404") → objects w !! key = None).
Proof.
  intros (Hc&?&?&_)%call_s3_inv. split_and!; [by eapply s3_head_frame|done|done| |].
  - intros h ->. by eapply s3_head_ok.
  - intros ->. by eapply s3_head_404.
Qed.

(** *** Copies *)

(** No two recorded digests: the only case in which a copy may overwrite. *)
Definition overwritable src dst (m : gmap string object) : Prop :=
  ∀ o o', m !! src = Some o → m !! dst = Some o' → ob_sha256 o = None ∨ ob_sha256 o' = None.

Definition copy_post src dst w w' (r : res CopyResult) : Prop :=
  same_queue w w' ∧ same_files w w' ∧
  (objects w' = objects w ∨ overwritable src dst (objects w) ∧
    ∃ o, objects w !! src = Some o ∧ objects w' = <[dst := o]> (objects w)) ∧
  (∀ c, r = Ok c →
    match cp_status c with
    | copied => ∃ o, objects w !! src = Some o ∧ objects w' !! dst = Some o
    | already_exists_idempotent => ∃ sha, stored_sha (w_s3 w) src sha ∧ stored_sha (w_s3 w) dst sha
    | source_not_found => objects w !! src = None
    | dst_conflict => ∃ a b, a ≠ b ∧ stored_sha (w_s3 w) src a ∧ stored_sha (w_s3 w) dst b
    end).

Lemma do_copy_inv src dst se sv w w2 w' r :
  objects w2 = objects w → same_queue w w2 → same_files w w2 → overwritable src dst (objects w) →
  pbind (call_s3 (s3_copy src dst)) (λ r, pret (MkCopyResult copied se (strip_quotes r.1) sv r.2)) w2 = (w', r) →
  copy_post src dst w w' r.
Proof.
  intros Ho Hq Hf Hov. unfold pbind, pret.
  destruct (call_s3 _ w2) as [w3 o] eqn:Hc. apply call_s3_inv in Hc as (Hc&Hq3&Hf3&_).
  assert (same_queue w w3 ∧ same_files w w3) as [Hqw Hfw].
  { unfold same_queue, same_files in *. split; congruence. }
  destruct o as [a|e]; intros [= <- <-].
  - apply s3_copy_ok in Hc as (o&Hs&Hi). rewrite Ho in Hs, Hi. split_and!; [done|done|eauto|].
    intros c [= <-]. simpl. exists o. split; [done|]. rewrite Hi. apply lookup_insert_eq.
  - apply s3_copy_err in Hc. rewrite Ho in Hc. split_and!; [done|done| |done].
    destruct Hc; [by left|right; eauto].
Qed.

Lemma copy_post_unchanged src dst w w' r :
  objects w' = objects w → same_queue w w' → same_files w w' →
  (∀ c, r = Ok c →
    match cp_status c with
    | copied => False
    | already_exists_idempotent => ∃ sha, stored_sha (w_s3 w) src sha ∧ stored_sha (w_s3 w) dst sha
    | source_not_found => objects w !! src = None
    | dst_conflict => ∃ a b, a ≠ b ∧ stored_sha (w_s3 w) src a ∧ stored_sha (w_s3 w) dst b
    end) →
  copy_post src dst w w' r.
Proof.
  intros Ho Hq Hf Hr. split_and!; [done|done|by left|].
  intros c Hc. specialize (Hr c Hc). by destruct (cp_status c).
Qed.

Lemma copy_object_inv src dst w w' r : copy_object src dst w = (w', r) → copy_post src dst w w' r.
Proof.
  unfold copy_object.
  destruct (call_s3 (s3_head src) w) as [w1 [h|e]] eqn:Hh; apply head_inv in Hh as (Ho1&Hq1&Hf1&Hok&H404).
  2:{ destruct e; try (intros [= <- <-]; by apply copy_post_unchanged).
      destruct (String.eqb_spec code "404") as [->|]; intros [= <- <-]; (apply copy_post_unchanged; [done..|]); [|done].
      intros c [= <-]. by apply H404. }
  destruct (Hok h eq_refl) as (o&Hso&Hsha&_). clear H404 Hok.
  set (do_copy := pbind _ _).
  destruct (call_s3 (s3_head dst) w1) as [w2 od] eqn:Hd.
  apply head_inv in Hd as (Ho2&Hq2&Hf2&Hok&H404).
  assert (same_queue w w2 ∧ same_files w w2 ∧ objects w2 = objects w) as (Hqw&Hfw&Hw2).
  { unfold same_queue, same_files in *. split_and!; congruence. }
  rewrite Ho1 in Hok, H404. clear w1 Ho1 Hq1 Hf1 Ho2 Hq2 Hf2.
  destruct od as [hd|e].
  - destruct (Hok hd eq_refl) as (o'&Hdo&Hdsha&_). rewrite Hsha, Hdsha.
    assert (ob_sha256 o = None ∨ ob_sha256 o' = None → overwritable src dst (objects w)) as Hov.
    { intros ? x y Hx Hy. naive_solver. }
    destruct (ob_sha256 o) as [a|] eqn:Ha; [|apply do_copy_inv; auto].
    destruct (ob_sha256 o') as [b|] eqn:Hb; [|apply do_copy_inv; auto].
    intros [= <- <-]. apply copy_post_unchanged; [done..|]. intros c [= <-]. simpl.
    destruct (String.eqb_spec a b) as [->|Hne]; [exists b|exists a, b; split; [done|]]; split; eexists; eauto.
  - destruct e; try (intros [= <- <-]; by apply copy_post_unchanged).
    destruct (String.eqb_spec code "404") as [->|]; [|intros [= <- <-]; by apply copy_post_unchanged].
    apply do_copy_inv; [done..|]. intros x y _ Hy. by rewrite H404 in Hy.
Qed.
End store_lemmas.

Section uploader_lemmas.
Context {S : Type} `{S3 S}.
Context (cfg : rq_config) (new_id : nat → string) (enqueue_clock : nat → Z * Z)
        (enqueue_faults : nat → option exn * option exn)
        (has_metrics : bool).
Implicit Types (w : world S) (key sha : string) (data : bytes).

Local Notation put_streaming := (put_streaming cfg new_id enqueue_clock enqueue_faults has_metrics).
Local Notation streaming_upload := (streaming_upload cfg new_id enqueue_clock enqueue_faults has_metrics).
Local Notation rq_enqueue := (rq_enqueue cfg new_id enqueue_clock enqueue_faults).
Local Notation enqueue_or_queued := (enqueue_or_queued cfg new_id enqueue_clock enqueue_faults).
Local Notation put_with_idempotency := (put_with_idempotency has_metrics).

(** An enqueue reports [ok] only with the row and payload in place. *)
Lemma rq_enqueue_inv q key data sha w w' r :
  rq_enqueue q key data sha w = (w', r) →
  w_s3 w' = w_s3 w ∧ same_files w w' ∧
  (∀ e, r = Ok e → e_status e = enq_ok → queue_holds (w_rq w') key sha data) ∧
  (∀ e, r = Ok e → e_status e = hard_floor_blocked → w_rq w' = Some q).
Proof.
  unfold rq_enqueue, NasUploader.rq_enqueue, enqueue.
  destruct (_ <=? _); [intros ?; simplify_eq/=; split_and!; naive_solver|].
  destruct (enqueue_faults _).1; [intros ?; simplify_eq/=; split_and!; naive_solver|].
  destruct (enqueue_faults _).2; intros ?; simplify_eq/=; split_and!; try naive_solver.
  intros e Hr _. simplify_eq. eexists _, _. split; [done|]. simpl.
  split; [apply elem_of_app; right; by left|]. simpl. split_and!; try done. apply lookup_insert_eq.
Qed.

Lemma enqueue_or_queued_inv b key data sha w w' r :
  enqueue_or_queued b key data sha w = (w', r) →
  w_s3 w' = w_s3 w ∧ same_files w w' ∧
  (∀ p, r = Ok p → p_status p = queued ∧ (b = true → is_Some (w_rq w) → queue_holds (w_rq w') key sha data) ∨
    p_status p = put_hard_floor_blocked ∧ b = true ∧ w_rq w' = w_rq w) ∧
  (b = false → w_rq w' = w_rq w ∧ ∃ p, r = Ok p ∧ p_status p = queued).
Proof.
  unfold enqueue_or_queued, NasUploader.enqueue_or_queued. destruct (w_rq w) as [q|] eqn:Hq.
  - destruct b.
    + unfold pbind, pret. destruct (NasUploader.rq_enqueue _ _ _ _ _ _ _ _ _) as [w1 [e|e]] eqn:He; intros ?; simplify_eq.
      * apply rq_enqueue_inv in He as (?&?&Hok&Hhf). split_and!; [done|done| |done].
        intros p [= <-]. unfold status_of_enqueue. simpl.
        destruct (e_status e) eqn:Hs; [left|right]; split; eauto.
      * apply rq_enqueue_inv in He as (?&?&_). split_and!; naive_solver.
    + intros ?; simplify_eq. split_and!; try done; [|eauto]. intros p [= <-]. left. by split.
  - intros ?; simplify_eq. split_and!; try done; [|eauto].
    intros p [= <-]. left. split; [done|]. intros _ [x Hx]. congruence.
Qed.

Context `{!S3Laws S}.

(** A PUT at a key without recorded digest. *)
Lemma s3_put_inv key data sha w w' r :
  (∀ o, objects w !! key = Some o → ob_sha256 o = None) →
  call_s3 (s3_put key data sha) w = (w', r) →
  same_queue w w' ∧ same_files w w' ∧
  forward_only key (Object data (Some sha)) (objects w) (objects w') ∧
  (∀ etag, r = Ok etag → objects w' !! key = Some (Object data (Some sha))).
Proof.
  intros Hnone (Hc&?&?&_)%call_s3_inv. destruct r as [etag|e].
  - apply s3_put_ok in Hc. unfold forward_only. rewrite Hc. split_and!; auto.
    intros _ _. apply lookup_insert_eq.
  - apply s3_put_err in Hc. unfold forward_only. split_and!; [done|done|naive_solver|done].
Qed.

(** What [_put_with_idempotency] promises, from [w] to [w'] with result [r]. *)
Definition put_post key data sha w w' (r : res PutResult) : Prop :=
  same_queue w w' ∧ same_files w w' ∧
  forward_only key (Object data (Some sha)) (objects w) (objects w') ∧
  (∀ p, r = Ok p → (p_status p = uploaded ∨ p_status p = skipped_idempotent) ∧ stored_sha (w_s3 w') key sha).

Lemma put_post_unchanged key data sha w w' r :
  objects w' = objects w → same_queue w w' → same_files w w' →
  (∀ p, r = Ok p → p_status p = skipped_idempotent ∧ stored_sha (w_s3 w) key sha) →
  put_post key data sha w w' r.
Proof.
  intros Ho Hq Hf Hr. split_and!; [done|done|rewrite Ho; auto with py|].
  intros p Hp. destruct (Hr p Hp) as [? (o&?&?)]. split; [by right|]. exists o. by rewrite Ho.
Qed.

(** The PUT after a HEAD that found no digest. *)
Lemma do_put_inv key data sha w w2 w' r :
  objects w2 = objects w → same_queue w w2 → same_files w w2 →
  (∀ o, objects w !! key = Some o → ob_sha256 o = None) →
  pbind (call_s3 (s3_put key data sha)) (λ etag, pret (MkPutResult uploaded (strip_quotes etag))) w2 = (w', r) →
  put_post key data sha w w' r.
Proof.
  intros Ho Hq Hf Hnone. unfold pbind, pret. rewrite <- Ho in Hnone.
  destruct (call_s3 _ w2) as [w3 [etag|e]] eqn:Hp; intros ?; simplify_eq;
    apply s3_put_inv in Hp as (Hq2&Hf2&Hfw&Hst); try done;
    unfold put_post, same_queue, same_files in *; rewrite <- Ho; split_and!; try congruence.
  intros p [= <-]. split; [by left|]. eexists. split; [by eapply Hst|done].
Qed.

(** The metric emitted after the HEAD does not matter for the rest. *)
Lemma put_with_idempotency_inv key data sha w w' r :
  put_with_idempotency key data sha w = (w', r) → put_post key data sha w w' r.
Proof.
  unfold NasUploader.put_with_idempotency.
  set (do_put := pbind (call_s3 (s3_put key data sha)) _).
  destruct (call_s3 (s3_head key) w) as [w1 [h|e]] eqn:Hh; apply head_inv in Hh as (Ho1&Hq1&Hf1&Hok&H404).
  - destruct (Hok h eq_refl) as (o&Hko&Hsha&_). rewrite Hsha.
    step_emit w2 Hs2 Hq2 Hf2.
    assert (objects w2 = objects w ∧ same_queue w w2 ∧ same_files w w2) as (Ho&Hq&Hf).
    { unfold same_queue, same_files in *. rewrite Hs2, Hq2, Hf2. done. }
    destruct (ob_sha256 o) as [ex|] eqn:Hex.
    + unfold pret, praise. destruct (String.eqb_spec ex sha) as [->|]; intros [= <- <-];
        (apply put_post_unchanged; [done..|]); intros p Hp; [|done].
      injection Hp as <-. split; [done|]. by exists o.
    + apply do_put_inv; [done..|]. naive_solver.
  - assert (∀ e', (w1, Raise e') = (w', r) → put_post key data sha w w' r) as Hraise.
    { intros e' ?; simplify_eq. by apply put_post_unchanged. }
    destruct e; try apply Hraise. destruct (String.eqb_spec code "404") as [->|]; [|apply Hraise].
    specialize (H404 eq_refl).
    step_emit w2 Hs2 Hq2 Hf2.
    unfold same_queue, same_files in *.
    apply do_put_inv; unfold same_queue, same_files; [by rewrite Hs2|congruence..|by rewrite H404].
Qed.

(** What [put] and [put_streaming] promise; [qdata] is what a failed upload
    queues. *)
Definition upload_post (suppress : bool) key data qdata sha w w' (r : res PutResult) : Prop :=
  same_files w w' ∧
  forward_only key (Object data (Some sha)) (objects w) (objects w') ∧
  (∀ p, r = Ok p →
    match p_status p with
    | uploaded | skipped_idempotent => stored_sha (w_s3 w') key sha ∧ same_queue w w'
    | queued => suppress = false → is_Some (w_rq w) → queue_holds (w_rq w') key sha qdata
    | put_hard_floor_blocked => suppress = false ∧ same_queue w w'
    | skipped_etag_overwrite => False
    end).

Lemma upload_post_raise b key data qdata sha w w1 w' e :
  same_files w w1 → forward_only key (Object data (Some sha)) (objects w) (objects w1) →
  w_s3 w' = w_s3 w1 → same_files w1 w' →
  upload_post b key data qdata sha w w' (Raise e).
Proof. unfold upload_post, same_files. intros ? Hfw -> ?. split_and!; [congruence|done|done]. Qed.

(** The error tail, after the store part has run from [w] to [w1]. *)
Lemma upload_post_enqueue b key data qdata sha w w1 w2 w' r :
  same_queue w w1 → same_files w w1 → forward_only key (Object data (Some sha)) (objects w) (objects w1) →
  w_s3 w2 = w_s3 w1 → same_queue w1 w2 → same_files w1 w2 →
  enqueue_or_queued (negb b) key qdata sha w2 = (w', r) →
  upload_post b key data qdata sha w w' r.
Proof.
  unfold same_queue, same_files. intros Hq1 Hf1 Hfw Hs2 Hq2 Hf2 (Hs&Hf&Hok&Hno)%enqueue_or_queued_inv.
  unfold upload_post, same_queue, same_files in *. split_and!; [congruence|by rewrite Hs, Hs2|].
  intros p Hp. destruct (Hok p Hp) as [[-> Hh]|(->&Hb&?)].
  - intros -> Hq. apply Hh; [done|congruence].
  - split; [by destruct b|congruence].
Qed.

Lemma operational_alert_inv b code reason w w' r :
  operational_alert has_metrics b code reason w = (w', r) →
  r = Raise (NASOperationalAlert code reason) ∧ w_s3 w' = w_s3 w ∧ same_queue w w' ∧ same_files w w'.
Proof.
  unfold operational_alert, pbind, emit_always, emit, praise, pret.
  destruct b, has_metrics; intros ?; simplify_eq/=; done.
Qed.

Lemma streaming_upload_inv src key sha w w1 w' r :
  objects w1 = objects w → same_queue w w1 → same_files w w1 →
  (∀ o, objects w !! key = Some o → ob_sha256 o = None) →
  streaming_upload src key sha w1 = (w', r) → upload_post false key (source_bytes src) (source_reread src) sha w w' r.
Proof.
  intros Ho Hq Hf Hnone. unfold NasUploader.streaming_upload. rewrite <- Ho in Hnone.
  destruct (call_s3 _ w1) as [w2 o] eqn:Hp. apply s3_put_inv in Hp as (Hq2&Hf2&Hfw&Hok); [|done].
  rewrite Ho in Hfw. assert (same_queue w w2 ∧ same_files w w2) as [Hqw Hfw2].
  { unfold same_queue, same_files in *. split; congruence. }
  destruct o as [etag|e].
  - intros [= <- <-]. split_and!; [done|done|]. intros p [= <-]. split; [|done].
    eexists. split; [by eapply Hok|done].
  - destruct e; try (intros [= <- <-]; by eapply upload_post_raise).
    + destruct (classify_4xx code).
      * intros (->&Hs&_&Hf3)%(operational_alert_inv false). by eapply upload_post_raise.
      * intros Hr. by eapply (upload_post_enqueue false _ _ _ _ _ w2 w2).
    + intros Hr. by eapply (upload_post_enqueue false _ _ _ _ _ w2 w2).
Qed.

Lemma put_streaming_inv src key sha w w' r :
  put_streaming src key sha w = (w', r) → upload_post false key (source_bytes src) (source_reread src) sha w w' r.
Proof.
  unfold NasUploader.put_streaming.
  destruct (call_s3 (s3_head key) w) as [w1 [h|e]] eqn:Hh; apply head_inv in Hh as (Ho1&Hq1&Hf1&Hok&H404).
  - destruct (Hok h eq_refl) as (o&Hko&Hsha&_). rewrite Hsha.
    destruct (ob_sha256 o) as [ex|] eqn:Hex; [|apply streaming_upload_inv; [done..|naive_solver]].
    destruct (String.eqb_spec ex sha) as [->|]; intros [= <- <-];
      (split_and!; [done|rewrite Ho1; auto with py|]); intros p Hp; [|done].
    injection Hp as <-. split; [|done]. exists o. by rewrite Ho1.
  - assert (∀ e', (w1, Raise e') = (w', r) → upload_post false key (source_bytes src) (source_reread src) sha w w' r) as Hraise.
    { intros e' [= <- <-]. apply upload_post_raise with w1; [done|rewrite Ho1; auto with py|done|done]. }
    destruct e; try apply Hraise. destruct (String.eqb_spec code "404") as [->|].
    + apply streaming_upload_inv; [done..|]. by rewrite H404.
    + destruct (classify_4xx code); [|apply Hraise].
      intros (->&Hs&_&Hf)%(operational_alert_inv false).
      apply upload_post_raise with w1; [done|rewrite Ho1; auto with py|done|done].
Qed.

Context (sha256_hex : bytes → string).
Local Notation put := (put cfg new_id enqueue_clock enqueue_faults has_metrics sha256_hex).

(** The three ways [put] ends once the store part is over. *)
Lemma put_inv key data osha b w w' r :
  put key data osha b w = (w', r) →
  upload_post b key data data (default (sha256_hex data) osha) w w' r ∧ (b = true → same_queue w w').
Proof.
  unfold NasUploader.put. set (sha := default _ _).
  destruct (NasUploader.put_with_idempotency has_metrics key data sha w) as [w1 o] eqn:Hp.
  apply put_with_idempotency_inv in Hp as (Hq1&Hf1&Hfw&Hok).
  assert (∀ b' rs, b' = b →
    pbind (emit has_metrics (EmitFail rs)) (λ _, enqueue_or_queued (negb b') key data sha) w1 = (w', r) →
    upload_post b key data data sha w w' r ∧ (b = true → same_queue w w')) as Htail.
  { intros b' rs ->. step_emit w2 Hs2 Hq2 Hf2. intros Hr. split; [by eapply upload_post_enqueue|].
    intros ->. apply enqueue_or_queued_inv in Hr as (_&_&_&Hno). destruct (Hno eq_refl) as [Hq _].
    unfold same_queue in *. congruence. }
  destruct o as [p|e].
  - destruct (Hok p eq_refl) as [Hst Hsto]. intros Hr.
    assert (r = Ok p ∧ w_s3 w' = w_s3 w1 ∧ w_rq w' = w_rq w1 ∧ w_fs w' = w_fs w1) as (->&Hs&Hq&Hf).
    { revert Hr. unfold pbind, emit, pret, emit_always.
      destruct (p_status p), has_metrics; intros ?; simplify_eq/=; done. }
    unfold upload_post, same_queue, same_files in *. split_and!; [congruence|by rewrite Hs| |congruence].
    intros p' [= <-]. rewrite Hs. destruct Hst as [-> | ->]; split; [done|congruence|done|congruence].
  - assert (∀ e', (w1, Raise e') = (w', r) →
      upload_post b key data data sha w w' r ∧ (b = true → same_queue w w')) as Hraise.
    { intros e' [= <- <-]. split; [by eapply upload_post_raise|done]. }
    destruct e; try (intros Hr; by eapply Hraise).
    + destruct (classify_4xx code); [|intros Hr; by eapply Htail].
      intros (->&Hs&Hq&Hf)%operational_alert_inv. unfold same_queue, same_files in *.
      split; [by eapply upload_post_raise|congruence].
    + destruct b; [intros Hr; by eapply Hraise|]. intros Hr; by eapply (Htail false).
Qed.

(** Without enqueue faults the error tail does not raise, so [put] of the hot
    path swallows an unreachable endpoint. *)
Lemma enqueue_or_queued_ok b key data sha w :
  (∀ n, enqueue_faults n = (None, None)) →
  ∃ w' p, enqueue_or_queued b key data sha w = (w', Ok p).
Proof.
  intros Hf. unfold NasUploader.enqueue_or_queued, NasUploader.rq_enqueue, pbind, pret.
  destruct (w_rq w); [|by eauto]. destruct b; [|by eauto].
  unfold enqueue. rewrite Hf. destruct (_ <=? _); eauto.
Qed.

Lemma put_unreachable key data osha w w' :
  (∀ n, enqueue_faults n = (None, None)) →
  put key data osha false w ≠ (w', Raise EndpointConnectionError).
Proof.
  intros Hf. unfold NasUploader.put. set (sha := default _ _).
  assert (∀ rs w1, pbind (emit has_metrics (EmitFail rs)) (λ _, enqueue_or_queued true key data sha) w1
    ≠ (w', Raise EndpointConnectionError)) as Htail.
  { intros rs w1 Heq. revert Heq. step_emit w2 Hs2 Hq2 Hf2.
    destruct (enqueue_or_queued_ok true key data sha w2 Hf) as (?&?&->). done. }
  destruct (NasUploader.put_with_idempotency _ _ _ _ _) as [w1 [p|e]].
  - unfold pbind, emit, pret, emit_always. destruct (p_status p), has_metrics; done.
  - destruct e; try done. destruct (classify_4xx code); [|apply Htail].
    intros (?&_)%operational_alert_inv. done.
Qed.

(** With [suppress_enqueue=True] no [ClientError] escapes, in particular no
    throttling error: it becomes an alert or the status [queued]. *)
Lemma put_suppressed_no_client_error key data osha w w' e :
  put key data osha true w = (w', Raise e) → is_throttle e = false.
Proof.
  unfold NasUploader.put. set (sha := default _ _).
  destruct (NasUploader.put_with_idempotency _ _ _ _ _) as [w1 [p|e']].
  - unfold pbind, emit, pret, emit_always. destruct (p_status p), has_metrics; done.
  - destruct e'; try (intros [= <- <-]; done). destruct (classify_4xx code) as [reason|].
    + intros (?&_)%operational_alert_inv. by simplify_eq.
    + unfold pbind, emit, emit_always, NasUploader.enqueue_or_queued. simpl.
      destruct has_metrics; simpl; destruct (w_rq w1); done.
Qed.

(** *** The uploader as the retry queue sees it

    [put] with [suppress_enqueue=True] leaves the queue alone
    ([put_inv]), so the queue a drain works on is not the one in the world. *)

#[export] Instance nas_uploader : Uploader (world S) := {|
  up_put_suppressed data key sha := pbind (put key data (Some sha) true) (λ p, pret (p_status p));
  up_stored w key sha := stored_sha (w_s3 w) key sha |}.

#[export] Instance nas_uploader_laws : UploaderLaws (world S).
Proof.
  split; simpl; intros data key sha w w' *; unfold pbind, pret;
    destruct (put key data (Some sha) true w) as [w1 o] eqn:Hp; apply put_inv in Hp as ((_&Hfw&Hok)&_); simpl in *.
  - destruct o as [p|]; intros [= <- <-]. specialize (Hok p eq_refl).
    destruct (p_status p); [tauto|tauto|done|by destruct Hok|done].
  - intros Heq (o'&Hk&Ho). assert (w1 = w') as -> by (destruct o; by injection Heq).
    exists o'. split; [|done]. eapply forward_only_keeps; eauto.
Qed.
End uploader_lemmas.

(** ** Sequences of uploads *)

Inductive upload_call :=
| CallPut (key : string) (data : bytes) (sha256 : option string) (suppress_enqueue : bool)
| CallStreaming (key : string) (src : upload_source) (sha256 : string).

(** The callers' results, raised or not, do not stop the sequence. *)
Definition run_upload {S} `{S3 S} cfg new_id clock faults has_metrics sha256_hex
    (w : world S) (c : upload_call) : world S :=
  match c with
  | CallPut key data sha b => (put cfg new_id clock faults has_metrics sha256_hex key data sha b w).1
  | CallStreaming key src sha => (put_streaming cfg new_id clock faults has_metrics src key sha w).1
  end.

(** ** A concrete world for the witnesses *)

Definition example_ids (n : nat) : string := if (n =? 0)%nat then "id0" else "idn".
Definition example_clock (n : nat) : Z * Z := (Z.of_nat n, Z.of_nat n).
Definition no_faults (n : nat) : option exn * option exn := (None, None).
Definition example_world (script : list (option fault)) : world mem_s3 :=
  World (MemS3 {[ "k1" := Object "aa" (Some "s1"); "legacy" := Object "ll" None ]} script)
        (Some (Rq [] ∅)) 0 ∅ [].

(** ** Properties *)

(** C12.  The store moves forward only: whatever sequence of [put] and
    [put_streaming] calls runs, with whatever failures of the store and of the
    queue, an object that carries a recorded digest is never replaced. *)
Theorem uploads_never_replace_a_digest {S : Type} `{S3Laws S} cfg new_id clock faults has_metrics sha256_hex
    (calls : list upload_call) (w : world S) (key : string) (o : object) :
  objects w !! key = Some o → is_Some (ob_sha256 o) →
  objects (foldl (run_upload cfg new_id clock faults has_metrics sha256_hex) w calls) !! key = Some o.
Proof.
  intros Hk Hs. revert w Hk. induction calls as [|c calls IH]; intros w Hk; simpl; [done|].
  apply IH. destruct c as [key' data sha b|key' src sha]; unfold run_upload.
  - destruct (put _ _ _ _ _ _ _ _ _ _ w) as [w' r] eqn:Hp. apply put_inv in Hp as ((_&Hfw&_)&_); [|apply _].
    by eapply forward_only_keeps.
  - destruct (put_streaming _ _ _ _ _ _ _ _ w) as [w' r] eqn:Hp. apply put_streaming_inv in Hp as (_&Hfw&_); [|apply _].
    by eapply forward_only_keeps.
Qed.

Lemma uploads_never_replace_a_digest_witness :
  objects (foldl (run_upload example_config example_ids example_clock no_faults true (λ b, b))
     (example_world [None; Some NetDown])
     [CallPut "k1" "zz" (Some "other") false; CallStreaming "k1" (SourcePath "yy") "other2"]) !! "k1"
  = Some (Object "aa" (Some "s1")).
Proof.
  apply (uploads_never_replace_a_digest (S := mem_s3)); [vm_compute; reflexivity|by eexists].
Defined.

(** What the status of [put] means.  [uploaded] and [skipped_idempotent]:
    the object is stored under the key with the digest.  [queued], on the hot
    path with a queue: the content waits in the queue as a pending row with its
    payload.  [hard_floor_blocked]: nothing was queued.  An unreachable
    endpoint is never raised to a caller of the hot path. *)
Theorem put_status_means_durable {S : Type} `{S3Laws S} cfg new_id clock faults has_metrics sha256_hex
    (key : string) (data : bytes) (osha : option string) (suppress : bool) (w w' : world S) (r : res PutResult) :
  put cfg new_id clock faults has_metrics sha256_hex key data osha suppress w = (w', r) →
  let sha := default (sha256_hex data) osha in
  (∀ p, r = Ok p →
    match p_status p with
    | uploaded | skipped_idempotent => stored_sha (w_s3 w') key sha ∧ w_rq w' = w_rq w
    | queued => suppress = false → is_Some (w_rq w) → queue_holds (w_rq w') key sha data
    | put_hard_floor_blocked => suppress = false ∧ w_rq w' = w_rq w
    | skipped_etag_overwrite => False
    end) ∧
  ((∀ n, faults n = (None, None)) → suppress = false → r ≠ Raise EndpointConnectionError).
Proof.
  intros Hp sha. split.
  - apply put_inv in Hp as ((_&_&Hok)&_); [exact Hok|apply _].
  - intros Hf -> ->. by eapply put_unreachable.
Qed.

Lemma put_status_means_durable_witness :
  let w' := (put example_config example_ids example_clock no_faults true (λ b, b) "k2" "bb" None false
                    (example_world [Some NetDown])).1 in
  let r := (put example_config example_ids example_clock no_faults true (λ b, b) "k2" "bb" None false
                    (example_world [Some NetDown])).2 in
  (∀ p, r = Ok p → match p_status p with
    | uploaded | skipped_idempotent => stored_sha (w_s3 w') "k2" "bb" ∧ w_rq w' = Some (Rq [] ∅)
    | queued => false = false → is_Some (Some (Rq [] ∅)) → queue_holds (w_rq w') "k2" "bb" "bb"
    | put_hard_floor_blocked => false = false ∧ w_rq w' = Some (Rq [] ∅)
    | skipped_etag_overwrite => False
    end) ∧
  ((∀ n, no_faults n = (None, None)) → false = false → r ≠ Raise EndpointConnectionError).
Proof.
  exact (put_status_means_durable example_config example_ids example_clock no_faults true (λ b, b)
    "k2" "bb" None false (example_world [Some NetDown]) _ _ (surjective_pairing _)).
Defined.

(** The copy keeps both digests safe: [copy_object] changes at most the
    destination, never when both sides carry a digest, and its status tells the
    truth about source and destination. *)
Theorem copy_object_keeps_digests {S : Type} `{S3Laws S} (src dst : string) (w w' : world S) (r : res CopyResult) :
  copy_object src dst w = (w', r) →
  (∀ k, k ≠ dst → objects w' !! k = objects w !! k) ∧
  (∀ a b, stored_sha (w_s3 w) src a → stored_sha (w_s3 w) dst b → objects w' = objects w) ∧
  (∀ c, r = Ok c →
    match cp_status c with
    | copied => ∃ o, objects w !! src = Some o ∧ objects w' !! dst = Some o
    | already_exists_idempotent => ∃ sha, stored_sha (w_s3 w) src sha ∧ stored_sha (w_s3 w) dst sha
    | source_not_found => objects w !! src = None
    | dst_conflict => ∃ a b, a ≠ b ∧ stored_sha (w_s3 w) src a ∧ stored_sha (w_s3 w) dst b
    end).
Proof.
  intros Hc. pose proof (copy_object_inv _ _ _ _ _ Hc) as (_&_&Hobj&Hok). split_and!; [| |exact Hok].
  - intros k Hk. destruct Hobj as [->|(_&o&_&->)]; [done|]. by rewrite lookup_insert_ne.
  - intros a b (o&Ho&Ha) (o'&Ho'&Hb). destruct Hobj as [->|(Hov&_)]; [done|].
    destruct (Hov o o' Ho Ho'); congruence.
Qed.

Lemma copy_object_keeps_digests_witness :
  let w := World (MemS3 {[ "k1" := Object "aa" (Some "s1"); "k2" := Object "bb" (Some "s2") ]} []) None 0 ∅ [] in
  (∀ a b, stored_sha (w_s3 w) "k1" a → stored_sha (w_s3 w) "k2" b → objects (copy_object "k1" "k2" w).1 = objects w) ∧
  ∃ a b, a ≠ b ∧ stored_sha (w_s3 w) "k1" a ∧ stored_sha (w_s3 w) "k2" b.
Proof.
  intros w.
  destruct (copy_object_keeps_digests "k1" "k2" w _ _ (surjective_pairing _)) as (_&H2&H3).
  split; [exact H2|]. exact (H3 _ eq_refl).
Defined.

(** C26.  Draining over this uploader loses nothing: every row of the queue is
    afterwards still queued, or stored on the NAS under its key with its
    digest, and objects with a digest that were on the NAS before are still
    there. *)
Theorem drain_over_nas_loses_nothing {S : Type} `{S3Laws S} cfg new_id clock faults has_metrics sha256_hex
    (q : rq) (w : world S) :
  NoDup (r_id <$> rq_rows q) →
  let d := @drain (world S) (nas_uploader cfg new_id clock faults has_metrics sha256_hex) q w in
  (∀ r, r ∈ rq_rows q → r ∈ rq_rows (ds_q d) ∨ stored_sha (w_s3 (ds_u d)) (r_key r) (r_sha256 r)) ∧
  (∀ key sha, stored_sha (w_s3 w) key sha → stored_sha (w_s3 (ds_u d)) key sha).
Proof.
  intros Hnd d.
  pose proof (@drain_safe (world S) (nas_uploader cfg new_id clock faults has_metrics sha256_hex) _ q w Hnd) as [Hs _].
  split; [exact Hs|]. intros key sha Hk.
  exact (@drain_mono (world S) (nas_uploader cfg new_id clock faults has_metrics sha256_hex) _ q w key sha Hk).
Qed.

Lemma drain_over_nas_loses_nothing_witness :
  let d := @drain (world mem_s3) (nas_uploader example_config example_ids example_clock no_faults true (λ b, b))
             example_queue (example_world [None; Some NetDown]) in
  (∀ r, r ∈ rq_rows example_queue →
     r ∈ rq_rows (ds_q d) ∨ stored_sha (w_s3 (ds_u d)) (r_key r) (r_sha256 r)) ∧
  (∀ key sha, stored_sha (w_s3 (example_world [None; Some NetDown])) key sha → stored_sha (w_s3 (ds_u d)) key sha).
Proof.
  apply (drain_over_nas_loses_nothing example_config example_ids example_clock no_faults true (λ b, b)
    example_queue (example_world [None; Some NetDown])).
  vm_compute. apply NoDup_cons_2; [intros Hin; inversion Hin as [|? ? ? Hin']; inversion Hin'|].
  apply NoDup_cons_2; [intros Hin; inversion Hin|constructor].
Defined.

(** The streaming upload does not share the fall-back of [put] when it is
    the HEAD that cannot reach the store: [put] answers [queued] with the
    content in the queue, [put_streaming] raises and queues nothing. *)
Theorem streaming_head_failure_is_not_queued {S : Type} `{S3 S} cfg new_id clock has_metrics sha256_hex
    (key sha : string) (data : bytes) (w : world S) (q : rq) (s' : S) :
  s3_head key (w_s3 w) = (s', Raise EndpointConnectionError) →
  w_rq w = Some q → depth q true < hard_floor cfg →
  (∃ w', put_streaming cfg new_id clock no_faults has_metrics (SourcePath data) key sha w
         = (w', Raise EndpointConnectionError) ∧ w_rq w' = Some q) ∧
  (∃ w' p, put cfg new_id clock no_faults has_metrics sha256_hex key data (Some sha) false w = (w', Ok p) ∧
         p_status p = queued ∧ queue_holds (w_rq w') key sha data).
Proof.
  intros Hh Hq Hd. unfold put_streaming, put, put_with_idempotency, call_s3. rewrite Hh. simpl. split.
  { eexists. split; [reflexivity|]. done. }
  set (w1 := World _ _ _ _ _).
  destruct (emit_bind has_metrics (EmitFail "endpoint_unreachable")
    (λ _, enqueue_or_queued cfg new_id clock no_faults true key data sha) w1) as (w2&->&_&Hq2&_).
  unfold same_queue in Hq2. simpl in Hq2. rewrite Hq in Hq2.
  unfold enqueue_or_queued. rewrite Hq2. unfold pbind, rq_enqueue, enqueue, pret. simpl.
  unfold depth in Hd. rewrite (proj2 (Z.leb_gt _ _)) by done.
  eexists _, _. split; [reflexivity|]. split; [done|].
  eexists _, _. split; [reflexivity|]. simpl.
  split; [apply elem_of_app; right; by left|]. split_and!; try done. apply lookup_insert_eq.
Qed.

Lemma streaming_head_failure_is_not_queued_witness :
  (∃ w', put_streaming example_config example_ids example_clock no_faults true (SourcePath "bb") "k2" "s2"
           (example_world [Some NetDown]) = (w', Raise EndpointConnectionError) ∧ w_rq w' = Some (Rq [] ∅)) ∧
  (∃ w' p, put example_config example_ids example_clock no_faults true (λ b, b) "k2" "bb" (Some "s2") false
           (example_world [Some NetDown]) = (w', Ok p) ∧
         p_status p = queued ∧ queue_holds (w_rq w') "k2" "s2" "bb").
Proof.
  eapply (streaming_head_failure_is_not_queued example_config example_ids example_clock true (λ b, b) "k2" "s2" "bb"
    (example_world [Some NetDown])); [reflexivity|reflexivity|vm_compute; reflexivity].
Defined.

(** The back-off of [drain] never runs over this uploader: [put] with
    [suppress_enqueue=True] turns every throttling answer into the status
    [queued] instead of raising it, so no drain sleeps. *)
Theorem drain_over_nas_never_backs_off {S : Type} `{S3 S} cfg new_id clock faults has_metrics sha256_hex
    (q : rq) (w : world S) :
  ds_sleeps (@drain (world S) (nas_uploader cfg new_id clock faults has_metrics sha256_hex) q w) = [].
Proof.
  assert (∀ th rs d, ds_sleeps d = [] → ds_sleeps (foldl (@drain_item (world S)
    (nas_uploader cfg new_id clock faults has_metrics sha256_hex) th) d rs) = []) as Hloop.
  { intros th rs. induction rs as [|r rs IH]; intros d Hd; simpl; [done|]. apply IH.
    unfold drain_item. destruct (_ !! _) as [data|]; [|done].
    destruct (up_put_suppressed _ _ _ _) as [u' [st|e]] eqn:Hp; [by case_bool_decide|].
    destruct (is_throttle e) eqn:He; [|by rewrite andb_false_r].
    simpl in Hp. unfold pbind, pret in Hp.
    destruct (put _ _ _ _ _ _ _ _ _ _ _) as [w1 [p|e']] eqn:Hput; simplify_eq.
    apply put_suppressed_no_client_error in Hput. congruence. }
  unfold drain. apply Hloop, Hloop. done.
Qed.
