(* ===== verification/NasKey.v ===== *)
(** * NAS object keys ([nas_storage/nas_key.py])

    A [Path] is the list of its components below the file-system root; a
    component is a non-empty string without a slash.  Keys and prefixes are
    strings. *)
From S2P Require Import Prelude.
Open Scope string_scope.
Open Scope list_scope.

Definition path : Type := list string.

Definition slash : Ascii.ascii := Ascii.ascii_of_nat 47.

Fixpoint no_slash (s : string) : bool :=
  match s with
  | EmptyString => true
  | String a s' => negb (Ascii.eqb a slash) && no_slash s'
  end.

(** A path component, and paths made of them. *)
Definition component_ok (s : string) : Prop := s ≠ "" ∧ no_slash s = true ∧ s ≠ ".".
Definition path_ok (p : path) : Prop := Forall component_ok p.

(** [p.relative_to(root)] *)
Fixpoint relative_to (p root : path) {struct root} : res path :=
  match root, p with
  | [], _ => Ok p
  | r :: root', c :: p' => if String.eqb r c then relative_to p' root' else Raise ValueError
  | _ :: _, [] => Raise ValueError
  end.

(** ["/".join(parts)] *)
Fixpoint join (parts : list string) : string :=
  match parts with
  | [] => ""
  | [c] => c
  | c :: parts' => c +:+ String slash (join parts')
  end.

(** [relative.as_posix()]: a path without components is ["."] *)
Definition as_posix (p : path) : string :=
  match p with [] => "." | _ => join p end.

(** [s.startswith(p)] *)
Definition startswith (p s : string) : bool := String.prefix p s.
(** [s.removeprefix(p)] *)
Definition removeprefix (p s : string) : string :=
  if startswith p s then String.substring (String.length p) (String.length s - String.length p) s else s.

(** [part.split("=", 1)[1]] of a part that starts with ["tier="] *)
Definition tier_value (part : string) : string := removeprefix "tier=" part.

(** [_extract_tier] on the relative parts *)
Definition extract_tier_parts (parts : list string) : option string :=
  tier_value <$> List.find (startswith "tier=") parts.
Definition extract_tier (p root : path) : res (option string) :=
  rbind (relative_to p root) (λ rel, Ok (extract_tier_parts rel)).

(** [rel_posix in ("", ".")] *)
Definition is_empty_rel (s : string) : bool := String.eqb s "" || String.eqb s ".".

Definition build_nas_key (parquet_path root : path) (tier : option string) : res string :=
  rbind (relative_to parquet_path root) (λ relative,
  let rel_posix := as_posix relative in
  if is_empty_rel rel_posix then Raise ValueError
  else rbind (extract_tier parquet_path root) (λ extracted,
    match tier, extracted with
    | Some t, Some e => if String.eqb t e then Ok rel_posix else Raise ValueError
    | _, _ => Ok rel_posix
    end)).

(** [all((channel, ...))]: every segment is non-empty *)
Definition all_nonempty (segments : list string) : bool :=
  forallb (λ s, negb (String.eqb s "")) segments.

(** The f-string shared by the prefix builders. *)
Definition flat_prefix (tier channel schema_ver exchange symbol date_str : string) : string :=
  "market/" +:+ channel +:+ "/schema_version=" +:+ schema_ver +:+ "/tier=" +:+ tier +:+
  "/exchange=" +:+ exchange +:+ "/symbol=" +:+ symbol +:+ "/date=" +:+ date_str +:+ "/".

Definition build_l1_prefix (channel schema_ver exchange symbol date_str : string) : res string :=
  if all_nonempty [channel; schema_ver; exchange; symbol; date_str]
  then Ok (flat_prefix "L1" channel schema_ver exchange symbol date_str)
  else Raise ValueError.

Definition build_nas_prefix (tier channel schema_ver exchange symbol date_str : string) : res string :=
  if existsb (String.eqb tier) ["L1"; "L2"; "L3"] then
    if all_nonempty [channel; schema_ver; exchange; symbol; date_str]
    then Ok (flat_prefix tier channel schema_ver exchange symbol date_str)
    else Raise ValueError
  else Raise ValueError.

Definition build_legacy_nas_key (parquet_path root : path) : res string :=
  rbind (relative_to parquet_path root) (λ relative,
  let rel_posix := as_posix relative in
  if is_empty_rel rel_posix then Raise ValueError
  else rbind (extract_tier parquet_path root) (λ tier,
    Ok (match tier with
        | Some t => if String.eqb t "L1" then "l1/" +:+ rel_posix else rel_posix
        | None => rel_posix
        end))).

Definition build_legacy_l1_prefix (channel schema_ver exchange symbol date_str : string) : res string :=
  if all_nonempty [channel; schema_ver; exchange; symbol; date_str]
  then Ok ("l1/" +:+ flat_prefix "L1" channel schema_ver exchange symbol date_str)
  else Raise ValueError.

Definition build_legacy_l1_discovery_prefix (channel : string) : res string :=
  if String.eqb channel "" then Raise ValueError else Ok ("l1/market/" +:+ channel +:+ "/").

Definition legacy_key_to_canonical (key : string) : string := removeprefix "l1/" key.

(** The inverse of [join]: [s.split("/")] *)
Fixpoint split_slash (s : string) : list string :=
  match s with
  | EmptyString => [""]
  | String a s' =>
      if Ascii.eqb a slash then "" :: split_slash s'
      else match split_slash s' with
           | [] => [String a ""]
           | c :: cs => String a c :: cs
           end
  end.

(** ** Lemmas *)

#[local] Arguments String.append !_ _ / : simpl nomatch.

Lemma relative_to_ok p root rel : relative_to p root = Ok rel ↔ p = root ++ rel.
Proof.
  revert p. induction root as [|r root IH]; intros p; simpl; [split; [by intros [= ->]|by intros ->]|].
  destruct p as [|c p]; [done|]. destruct (String.eqb_spec r c) as [->|Hne].
  - rewrite IH. split; [by intros ->|by intros [= ->]].
  - split; [done|]. intros [= ? _]. congruence.
Qed.

Lemma relative_to_raise p root e : relative_to p root = Raise e → e = ValueError.
Proof.
  revert p. induction root as [|r root IH]; intros p; simpl; [done|].
  destruct p as [|c p]; [by intros [= <-]|]. destruct (String.eqb _ _); [apply IH|by intros [= <-]].
Qed.

Lemma no_slash_app s t : no_slash (s +:+ t) = no_slash s && no_slash t.
Proof. induction s as [|a s IH]; [done|]. simpl. by rewrite IH, andb_assoc. Qed.

Lemma split_slash_component c : no_slash c = true → split_slash c = [c].
Proof.
  induction c as [|a c IH]; simpl; [done|]. intros [Ha Hc]%andb_true_iff.
  apply negb_true_iff in Ha. rewrite Ha, IH by done. done.
Qed.

Lemma split_slash_cons c s : no_slash c = true → split_slash (c +:+ String slash s) = c :: split_slash s.
Proof.
  induction c as [|a c IH]; simpl; [done|]. intros [Ha Hc]%andb_true_iff.
  apply negb_true_iff in Ha. rewrite Ha, IH by done. done.
Qed.

Lemma split_slash_join parts : parts ≠ [] → path_ok parts → split_slash (join parts) = parts.
Proof.
  induction parts as [|c parts IH]; [done|]. intros _ [(_&Hc&_) Hp]%Forall_cons.
  destruct parts as [|d parts]; simpl; [by apply split_slash_component|].
  rewrite split_slash_cons by done. f_equal. by apply IH.
Qed.

Lemma join_cons_app c parts : join (c :: parts) = (c +:+ match parts with [] => "" | _ => String slash (join parts) end).
Proof. destruct parts; simpl; [by rewrite string_app_nil_r|done]. Qed.

Lemma as_posix_nonempty rel : rel ≠ [] → path_ok rel → is_empty_rel (as_posix rel) = false.
Proof.
  destruct rel as [|c rel]; [done|]. intros _ [(Hne&_&Hd)%id _]%Forall_cons.
  unfold is_empty_rel, as_posix. rewrite join_cons_app. apply orb_false_iff; split; apply String.eqb_neq.
  - destruct c; done.
  - intros Heq. destruct c as [|a [|b c]]; [done| |done]. simpl in Heq.
    destruct rel; [|by injection Heq]. injection Heq as ->. done.
Qed.

(** What a key is made of. *)
Lemma build_nas_key_inv p root t k :
  path_ok p → build_nas_key p root t = Ok k →
  ∃ rel, p = root ++ rel ∧ rel ≠ [] ∧ path_ok rel ∧ k = join rel ∧
    (∀ a b, t = Some a → extract_tier_parts rel = Some b → a = b).
Proof.
  intros Hp. unfold build_nas_key, extract_tier. destruct (relative_to p root) as [rel|e] eqn:Hr; simpl; [|done].
  apply relative_to_ok in Hr as ->. apply Forall_app in Hp as [_ Hp].
  destruct rel as [|c rel]; [done|]. rewrite as_posix_nonempty by done.
  intros Hk. exists (c :: rel). split_and!; [done|done|done| |].
  - destruct t as [t|], (extract_tier_parts (c :: rel)) as [e|]; try (by injection Hk as <-).
    destruct (String.eqb t e); by simplify_eq.
  - intros a b -> Hb. rewrite Hb in Hk. destruct (String.eqb_spec a b); by simplify_eq.
Qed.

Lemma prefix_app (p s : string) : String.prefix p (p +:+ s) = true.
Proof. induction p as [|a p IH]; simpl; [by destruct s|]. destruct (Ascii.ascii_dec a a); congruence. Qed.

Lemma substring_full (s : string) : String.substring 0 (String.length s) s = s.
Proof. induction s as [|a s IH]; simpl; [done|]. by rewrite IH. Qed.

Lemma substring_app (p s : string) :
  String.substring (String.length p) (String.length s) (p +:+ s) = s.
Proof. induction p as [|a p IH]; simpl; [apply substring_full|done]. Qed.

Lemma removeprefix_app (p s : string) : removeprefix p (p +:+ s) = s.
Proof.
  unfold removeprefix, startswith. rewrite prefix_app, string_app_length.
  replace (_ + _ - _)%nat with (String.length s) by lia. apply substring_app.
Qed.

Lemma prefix_split (p s : string) : String.prefix p s = true → ∃ t, s = (p +:+ t).
Proof.
  revert s. induction p as [|a p IH]; intros s; simpl; [by exists s|].
  destruct s as [|b s]; [done|]. simpl. destruct (Ascii.ascii_dec a b) as [->|]; [|done].
  intros [t ->]%IH. by exists t.
Qed.

Lemma string_app_inj_l (p s t : string) : (p +:+ s = p +:+ t → s = t).
Proof. induction p as [|a p IH]; simpl; [done|]. intros [= ?]. auto. Qed.

(** A joined path starts with a component and a slash only when that is its
    first component. *)
Lemma join_starts c rel t :
  no_slash c = true → rel ≠ [] → path_ok rel → join rel = (c +:+ String slash t) → head rel = Some c.
Proof.
  intros Hc Hne Hrel Heq. apply (f_equal split_slash) in Heq.
  rewrite split_slash_join, split_slash_cons in Heq by done. by rewrite Heq.
Qed.

(** The Hive directory of one day of a tier. *)
Definition hive_dir (tier channel schema_ver exchange symbol date_str : string) : path :=
  ["market"; channel; "schema_version=" +:+ schema_ver; "tier=" +:+ tier; "exchange=" +:+ exchange;
   "symbol=" +:+ symbol; "date=" +:+ date_str].

Lemma join_hive_dir tier ch v e s d rest :
  rest ≠ [] → join (hive_dir tier ch v e s d ++ rest) = (flat_prefix tier ch v e s d +:+ join rest).
Proof.
  intros Hrest. unfold hive_dir, flat_prefix. destruct rest as [|c rest]; [done|].
  cbn [app]. do 7 (rewrite join_cons_app). generalize (join (c :: rest)). intros t.
  repeat first [rewrite string_app_assoc | progress simpl]. done.
Qed.

(** ** Properties *)

(** A key names one file: the local path of a key is the root followed by
    the key's components.  Two files under one root never share a key, and an
    explicit tier that contradicts the path is refused. *)
Theorem nas_key_determines_path (p root : path) (tier : option string) (k : string) :
  path_ok p → build_nas_key p root tier = Ok k →
  p = root ++ split_slash k ∧
  (∀ t t', tier = Some t → extract_tier_parts (split_slash k) = Some t' → t = t').
Proof.
  intros Hp (rel&->&Hne&Hrel&->&Ht)%build_nas_key_inv; [|done].
  rewrite split_slash_join by done. auto.
Qed.

Lemma nas_key_determines_path_witness :
  ["data"; "market"; "tick"; "tier=L1"; "x.parquet"] =
    ["data"] ++ split_slash "market/tick/tier=L1/x.parquet" ∧
  (∀ t t', Some "L1" = Some t → extract_tier_parts (split_slash "market/tick/tier=L1/x.parquet") = Some t' → t = t').
Proof.
  apply (nas_key_determines_path ["data"; "market"; "tick"; "tier=L1"; "x.parquet"] ["data"]
    (Some "L1")); [|reflexivity].
  repeat (apply Forall_cons; split; [split; [discriminate|split; [reflexivity|discriminate]]|]). apply Forall_nil. exact I.
Defined.

(** Keys and listing prefixes agree: a file below the Hive directory of a
    day gets exactly the prefix [build_nas_prefix] lists followed by its name
    below the directory, with every tier argument that matches. *)
Theorem nas_key_extends_prefix (root rest : path) (tier ch v e s d prefix : string) :
  path_ok (root ++ hive_dir tier ch v e s d ++ rest) → rest ≠ [] →
  startswith "tier=" ch = false →
  build_nas_prefix tier ch v e s d = Ok prefix →
  build_nas_key (root ++ hive_dir tier ch v e s d ++ rest) root (Some tier) = Ok (prefix +:+ join rest) ∧
  (tier = "L1" → build_l1_prefix ch v e s d = Ok prefix ∧
     build_legacy_l1_prefix ch v e s d = Ok ("l1/" +:+ prefix)).
Proof.
  intros Hp Hrest Hch. unfold build_nas_prefix. destruct (existsb _ _); [|done].
  unfold build_l1_prefix, build_legacy_l1_prefix.
  destruct (all_nonempty _); [|done]. intros [= <-]. split; [|by intros ->].
  apply Forall_app in Hp as [_ Hp].
  unfold build_nas_key, extract_tier. rewrite (proj2 (relative_to_ok _ root _) eq_refl). cbn [rbind].
  assert (extract_tier_parts (hive_dir tier ch v e s d ++ rest) = Some tier) as ->.
  { unfold extract_tier_parts, hive_dir. simpl. rewrite Hch.
    assert (startswith "" tier = true) as Ht by (by destruct tier). cbn. rewrite Ht.
    apply (f_equal Some), (removeprefix_app "tier="). }
  rewrite as_posix_nonempty, String.eqb_refl by done. unfold as_posix.
  rewrite <- join_hive_dir by done. done.
Qed.

Lemma nas_key_extends_prefix_witness :
  build_nas_key (["data"] ++ hive_dir "L1" "tick" "v1" "upbit" "KRW-BTC" "2026-01-01" ++ ["a.parquet"])
    ["data"] (Some "L1") =
    Ok (flat_prefix "L1" "tick" "v1" "upbit" "KRW-BTC" "2026-01-01" +:+ join ["a.parquet"]) ∧
  ("L1" = "L1" → build_l1_prefix "tick" "v1" "upbit" "KRW-BTC" "2026-01-01" =
     Ok (flat_prefix "L1" "tick" "v1" "upbit" "KRW-BTC" "2026-01-01") ∧
   build_legacy_l1_prefix "tick" "v1" "upbit" "KRW-BTC" "2026-01-01" =
     Ok ("l1/" +:+ flat_prefix "L1" "tick" "v1" "upbit" "KRW-BTC" "2026-01-01")).
Proof.
  apply (nas_key_extends_prefix ["data"] ["a.parquet"]); [|discriminate|reflexivity|reflexivity].
  repeat (apply Forall_cons; split; [split; [discriminate|split; [reflexivity|discriminate]]|]). apply Forall_nil. exact I.
Defined.

(** Legacy keys translate back: the canonical form of a file's legacy key
    is its flat key, whatever its tier, unless the file lies in a top-level
    directory called [l1]. *)
Theorem legacy_key_is_canonical (p root : path) (k : string) :
  path_ok p → (∀ rel, p ≠ root ++ "l1" :: rel) →
  build_legacy_nas_key p root = Ok k →
  build_nas_key p root None = Ok (legacy_key_to_canonical k).
Proof.
  intros Hp Hl1. unfold build_legacy_nas_key, build_nas_key, extract_tier.
  destruct (relative_to p root) as [rel|e] eqn:Hr; simpl; [|done].
  apply relative_to_ok in Hr as ->. apply Forall_app in Hp as [_ Hp].
  destruct (is_empty_rel (as_posix rel)) eqn:He; [done|]. intros [= <-]. f_equal.
  assert (removeprefix "l1/" (as_posix rel) = as_posix rel) as Hid.
  { unfold removeprefix, startswith. destruct (String.prefix _ _) eqn:Hpre; [|done].
    apply prefix_split in Hpre as [t Ht]. destruct rel as [|c rel]; [done|].
    apply (join_starts "l1" (c :: rel) t) in Ht; [|done..]. simpl in Ht. injection Ht as ->. by destruct (Hl1 rel). }
  unfold legacy_key_to_canonical. destruct (extract_tier_parts rel) as [t|]; [|by rewrite Hid].
  destruct (String.eqb t "L1"); [|by rewrite Hid].
  symmetry. apply (removeprefix_app "l1/").
Qed.

Lemma legacy_key_is_canonical_witness :
  build_nas_key ["data"; "market"; "tick"; "tier=L1"; "x.parquet"] ["data"] None =
  Ok (legacy_key_to_canonical "l1/market/tick/tier=L1/x.parquet").
Proof.
  apply (legacy_key_is_canonical ["data"; "market"; "tick"; "tier=L1"; "x.parquet"] ["data"]);
    [|discriminate|reflexivity].
  repeat (apply Forall_cons; split; [split; [discriminate|split; [reflexivity|discriminate]]|]). apply Forall_nil. exact I.
Defined.
