(* ===== verification/Promotion.v ===== *)
(** * Promotion of local segments ([compactor/promotion.py])

    HEAD verification of the NAS copy, a second HEAD as a guard, then the
    unlink of the local file.  [unlink_fault] is the error the final unlink
    raises, if any. *)
From S2P Require Import Prelude RetryQueue ObjectStore NasUploader.
Open Scope Z_scope.

Definition HEAD_RETRY_COUNT : nat := 1.

Inductive promotion_status := promoted | already_promoted.
Record PromotionResult := MkPromotionResult {
  pr_status : promotion_status; pr_version_id : option string; pr_etag : string }.

Section promotion.
Context {S : Type} `{S3 S}.
Context (sha256_hex : bytes → string).
Local Notation proc := (proc (world S)).

(** [_head_with_retry] with [attempts_left] of the loop's attempts to go. *)
Fixpoint head_attempts (attempts_left : nat) (nas_key : string) : proc head_response :=
  match attempts_left with
  | O => praise PromotionVerifyError
  | Datatypes.S n => λ w,
      match head_object nas_key w with
      | (w1, Ok h) => (w1, Ok h)
      | (w1, Raise (ClientError _)) => (w1, Raise PromotionVerifyError)
      | (w1, Raise EndpointConnectionError) =>
          match n with
          | O => (w1, Raise PromotionVerifyError)
          | _ => head_attempts n nas_key w1
          end
      | (w1, Raise e) => (w1, Raise e)
      end
  end.
Definition head_with_retry : string → proc head_response := head_attempts (1 + HEAD_RETRY_COUNT).

(** [_compute_local_sha256_and_size]: one file descriptor, one snapshot. *)
Definition compute_local_sha256_and_size (local_path : string) : proc (string * Z) := λ w,
  match w_fs w !! local_path with
  | Some body => (w, Ok (sha256_hex body, blen body))
  | None => (w, Raise FileNotFoundError)
  end.

(** [local_path.unlink(missing_ok=False)] *)
Definition unlink (unlink_fault : option exn) (local_path : string) : proc unit := λ w,
  match w_fs w !! local_path, unlink_fault with
  | None, _ => (w, Raise FileNotFoundError)
  | Some _, Some e => (w, Raise e)
  | Some _, None => (World (w_s3 w) (w_rq w) (w_enqueues w) (delete local_path (w_fs w)) (w_metrics w), Ok tt)
  end.

(** The digest and length tests between the first HEAD and the local file. *)
Definition verify_mismatch (h : head_response) (local : string * Z) : bool :=
  match h_sha256 h with Some s => negb (String.eqb s local.1) | None => false end ||
  negb (h_content_length h =? local.2).
(** The guard: has the object changed since the first HEAD? *)
Definition guard_mismatch (h g : head_response) : bool :=
  negb (String.eqb (h_etag g) (h_etag h)) || negb (h_content_length g =? h_content_length h).

Definition promote_l1 (unlink_fault : option exn) (local_path nas_key : string) : proc PromotionResult := λ w,
  match w_fs w !! local_path with
  | None =>
      pbind (head_with_retry nas_key) (λ h,
      pret (MkPromotionResult already_promoted (h_version_id h) (strip_quotes (h_etag h)))) w
  | Some _ =>
      pbind (head_with_retry nas_key) (λ h,
      pbind (compute_local_sha256_and_size local_path) (λ local,
      if verify_mismatch h local then praise PromotionVerifyError else
      pbind (head_with_retry nas_key) (λ g,
      if guard_mismatch h g then praise PromotionVerifyError else
      pbind (unlink unlink_fault local_path) (λ _,
      pret (MkPromotionResult promoted (h_version_id h) (h_etag h)))))) w
  end.
End promotion.

(** ** Lemmas *)

(** The store, as far as verification sees it: an object under the key with
    the length of [body] and no digest or that of [body]. *)
Definition verified_copy {S} `{S3 S} (sha256_hex : bytes → string) (s : S) (key : string) (body : bytes) : Prop :=
  ∃ o, s3_objects s !! key = Some o ∧ blen (ob_body o) = blen body ∧
    (ob_sha256 o = None ∨ ob_sha256 o = Some (sha256_hex body)).

Section promotion_lemmas.
Context {S : Type} `{S3Laws S}.
Context (sha256_hex : bytes → string).
Implicit Types (w : world S) (key local : string).

(** A step that reads the store only. *)
Definition read_only w w' : Prop :=
  objects w' = objects w ∧ same_queue w w' ∧ same_files w w' ∧ w_metrics w' = w_metrics w.

Lemma read_only_refl w : read_only w w.
Proof. done. Qed.
Lemma read_only_trans w1 w2 w3 : read_only w1 w2 → read_only w2 w3 → read_only w1 w3.
Proof. unfold read_only, same_queue, same_files. intros (?&?&?&?) (?&?&?&?). split_and!; congruence. Qed.
Hint Resolve read_only_refl : core.

Definition head_post key w w' (r : res head_response) : Prop :=
  read_only w w' ∧
  (∀ h, r = Ok h → ∃ o, objects w !! key = Some o ∧ h_sha256 h = ob_sha256 o ∧ h_content_length h = blen (ob_body o)).

Lemma head_object_inv key w w' r : head_object key w = (w', r) → head_post key w w' r.
Proof.
  unfold head_object, pbind, pret. destruct (call_s3 (s3_head key) w) as [w1 o] eqn:Hc.
  assert (w_metrics w1 = w_metrics w) as Hm.
  { revert Hc. unfold call_s3. destruct (s3_head key (w_s3 w)). by intros [= <- _]. }
  apply head_inv in Hc as (Ho&Hq&Hf&Hok&_). destruct o as [h|e]; intros [= <- <-]; (split; [done|]).
  - intros h' [= <-]. simpl. by apply Hok.
  - done.
Qed.

Lemma head_attempts_inv n key w w' r : head_attempts n key w = (w', r) → head_post key w w' r.
Proof.
  revert w. induction n as [|n IH]; intros w; simpl; [by intros [= <- <-]|].
  destruct (head_object key w) as [w1 o] eqn:Ho. apply head_object_inv in Ho as [Hro Hok].
  assert (∀ e, (w1, Raise e) = (w', r) → head_post key w w' r) as Hraise by (by intros e [= <- <-]).
  destruct o as [h|e]; [by intros [= <- <-]|]. destruct e; try apply Hraise.
  destruct n; [apply Hraise|]. intros [Hro' Hok']%IH. split; [by eapply read_only_trans|].
  destruct Hro as (<-&_). exact Hok'.
Qed.

(** Whatever happens, promotion changes at most the local file; the local file
    goes only when the verified copy exists and the call returns [promoted]. *)
Definition promote_post local key w w' (r : res PromotionResult) : Prop :=
  objects w' = objects w ∧ same_queue w w' ∧ w_metrics w' = w_metrics w ∧
  ((same_files w w' ∧ ∀ p, r = Ok p → pr_status p = already_promoted ∧ w_fs w !! local = None) ∨
   (w_fs w' = delete local (w_fs w) ∧ ∃ p body, r = Ok p ∧ pr_status p = promoted ∧
      w_fs w !! local = Some body ∧ verified_copy sha256_hex (w_s3 w) key body)) ∧
  (∀ p, r = Ok p → is_Some (objects w !! key)).

Lemma promote_post_raise local key w w' e : read_only w w' → promote_post local key w w' (Raise e).
Proof. intros (?&?&?&?). split_and!; [done|done|done|by left|done]. Qed.

Lemma verify_ok h local_digest body o :
  h_sha256 h = ob_sha256 o → h_content_length h = blen (ob_body o) →
  verify_mismatch h (local_digest, blen body) = false →
  blen (ob_body o) = blen body ∧ (ob_sha256 o = None ∨ ob_sha256 o = Some local_digest).
Proof.
  unfold verify_mismatch. simpl. intros -> -> [Hs Hl]%orb_false_iff. py_bool. split; [done|].
  destruct (ob_sha256 o) as [s|]; [right|by left]. py_bool. apply String.eqb_eq in Hs. congruence.
Qed.

Lemma promote_l1_inv fault local key w w' r :
  promote_l1 sha256_hex fault local key w = (w', r) → promote_post local key w w' r.
Proof.
  unfold promote_l1, head_with_retry, pbind, pret, praise.
  destruct (w_fs w !! local) as [body|] eqn:Hl;
    destruct (head_attempts _ key w) as [w1 [h|e]] eqn:Hh; apply head_attempts_inv in Hh as [Hro Hok];
    try (intros [= <- <-]; by apply promote_post_raise).
  2:{ intros [= <- <-]. destruct Hro as (?&?&?&?), (Hok h eq_refl) as (o&?&_).
      split_and!; [done|done|done|left; split; [done|]|by eexists]. by intros p [= <-]. }
  destruct (Hok h eq_refl) as (o&Ho&Hs&Hc).
  unfold compute_local_sha256_and_size. pose proof Hro as (Ho1&Hq1&Hf1&Hm1). unfold same_files in Hf1.
  rewrite Hf1, Hl. destruct (verify_mismatch _ _) eqn:Hv; [intros [= <- <-]; by apply promote_post_raise|].
  apply (verify_ok _ _ _ o) in Hv as [Hlen Hdig]; [|done..].
  destruct (head_attempts _ key w1) as [w2 [g|e]] eqn:Hg; apply head_attempts_inv in Hg as [Hro2 Hok2];
    pose proof (read_only_trans _ _ _ Hro Hro2) as Hro'; [|intros [= <- <-]; by apply promote_post_raise].
  destruct (guard_mismatch _ _); [intros [= <- <-]; by apply promote_post_raise|].
  unfold unlink. pose proof Hro' as (Ho2&Hq2&Hf2&Hm2). unfold same_files in Hf2. rewrite Hf2, Hl.
  destruct fault; intros [= <- <-]; [by apply promote_post_raise|].
  split_and!; [done|done|done| |by intros; eexists]. right. split; [done|].
  eexists _, body. split_and!; [done|done|done|]. by exists o.
Qed.
End promotion_lemmas.

(** ** Promotion over the in-memory store *)

(** One HEAD attempt fails, or none. *)
Definition flaky (b : bool) : list (option fault) := if b then [Some NetDown; None] else [None].

Lemma head_with_retry_flaky key (b : bool) rest m q n fs ms o :
  m !! key = Some o →
  head_with_retry key (World (MemS3 m (flaky b ++ rest)) q n fs ms) =
  (World (MemS3 m rest) q n fs ms,
   Ok (HeadResponse (strip_quotes (ob_body o)) None (ob_sha256 o) (blen (ob_body o)))).
Proof.
  intros Ho. unfold head_with_retry, head_attempts, head_object, pbind, pret, call_s3.
  simpl. unfold mem_head, mem_call. destruct b; simpl; by rewrite Ho.
Qed.

(** The verified path, whatever single failures hit the two HEADs. *)
Lemma promote_l1_flaky (sha256_hex : bytes → string) local key m rest q n fs ms (b1 b2 : bool) body o :
  fs !! local = Some body → m !! key = Some o →
  ob_sha256 o = None ∨ ob_sha256 o = Some (sha256_hex body) → blen (ob_body o) = blen body →
  promote_l1 sha256_hex None local key (World (MemS3 m (flaky b1 ++ flaky b2 ++ rest)) q n fs ms) =
  (World (MemS3 m rest) q n (delete local fs) ms,
   Ok (MkPromotionResult promoted None (strip_quotes (ob_body o)))).
Proof.
  intros Hl Ho Hs Hb. unfold promote_l1. simpl. rewrite Hl. unfold pbind at 1.
  rewrite (head_with_retry_flaky _ _ _ _ _ _ _ _ o) by done. simpl.
  unfold pbind at 1, compute_local_sha256_and_size. simpl. rewrite Hl.
  assert (verify_mismatch (HeadResponse (strip_quotes (ob_body o)) None (ob_sha256 o) (blen (ob_body o)))
    (sha256_hex body, blen body) = false) as ->.
  { unfold verify_mismatch. simpl. rewrite Hb, Z.eqb_refl. destruct Hs as [-> | ->]; [done|]. by rewrite String.eqb_refl. }
  unfold pbind at 1. rewrite (head_with_retry_flaky _ _ _ _ _ _ _ _ o) by done. simpl.
  unfold guard_mismatch. simpl. rewrite String.eqb_refl, Z.eqb_refl. simpl.
  unfold pbind, unlink. simpl. by rewrite Hl.
Qed.

(** ** Properties *)

(** C2.  Promotion never loses a segment.  Whatever the store answers, the NAS
    objects and the queue are untouched, and the local file is either still
    there or was removed by a call that returned [promoted] with, on the NAS
    under the key, an object of its length whose digest is absent or its own.
    A call that raises leaves every file; any call that returns implies an
    object under the key. *)
Theorem promotion_deletes_only_verified {S : Type} `{S3Laws S} (sha256_hex : bytes → string)
    (fault : option exn) (local key : string) (w w' : world S) (r : res PromotionResult) :
  promote_l1 sha256_hex fault local key w = (w', r) →
  objects w' = objects w ∧ w_rq w' = w_rq w ∧
  (∀ k, k ≠ local → w_fs w' !! k = w_fs w !! k) ∧
  (w_fs w' !! local = w_fs w !! local ∨
   ∃ body p, w_fs w !! local = Some body ∧ r = Ok p ∧ pr_status p = promoted ∧
     verified_copy sha256_hex (w_s3 w') key body) ∧
  (∀ p, r = Ok p → w_fs w' !! local = None ∧ is_Some (objects w' !! key)).
Proof.
  intros (Ho&Hq&_&Hf&Hex)%promote_l1_inv. unfold same_files in Hf.
  split_and!; [done|done| | |].
  - intros k Hk. destruct Hf as [[-> _]|[-> _]]; [done|]. by rewrite lookup_delete_ne.
  - destruct Hf as [[-> _]|(->&p&body&Hr&Hp&Hb&o&Hko&?)]; [by left|right].
    exists body, p. split_and!; [done..|]. exists o. by rewrite Ho.
  - intros p Hp. rewrite Ho. split; [|by eapply Hex].
    destruct Hf as [[-> Hf]|[-> _]]; [by apply (Hf p)|apply lookup_delete_eq].
Qed.

Definition promotion_example (script : list (option fault)) : world mem_s3 :=
  World (MemS3 {[ "k" := Object "abc" (Some "abc") ]} script) None 0 {[ "/f" := "abc" ]} [].

Lemma promotion_deletes_only_verified_witness :
  let w := promotion_example [Some NetDown] in
  let w' := (promote_l1 (λ b, b) None "/f" "k" w).1 in
  w_fs w' !! "/f" = w_fs w !! "/f" ∨
   ∃ body p, w_fs w !! "/f" = Some body ∧ (promote_l1 (λ b, b) None "/f" "k" w).2 = Ok p ∧ pr_status p = promoted ∧
     verified_copy (λ b, b) (w_s3 w') "k" body.
Proof.
  intros w w'. destruct (promotion_deletes_only_verified (λ b, b) None "/f" "k" w w' _ (surjective_pairing _))
    as (_&_&_&Hx&_). exact Hx.
Defined.

(** Promotion makes progress: with a matching object on the NAS and a
    working unlink, the local file is removed and [promoted] returned, even
    when the first attempt of either HEAD (or of both) cannot reach the store. *)
Theorem promotion_survives_one_failure_per_head (sha256_hex : bytes → string) (local key : string)
    (m : gmap string object) (rest : list (option fault)) q n fs ms (b1 b2 : bool) (body : bytes) (o : object) :
  fs !! local = Some body → m !! key = Some o →
  ob_sha256 o = Some (sha256_hex body) → blen (ob_body o) = blen body →
  promote_l1 sha256_hex None local key (World (MemS3 m (flaky b1 ++ flaky b2 ++ rest)) q n fs ms) =
  (World (MemS3 m rest) q n (delete local fs) ms,
   Ok (MkPromotionResult promoted None (strip_quotes (ob_body o)))).
Proof. intros. apply promote_l1_flaky with body; auto. Qed.

Lemma promotion_survives_one_failure_per_head_witness :
  promote_l1 (λ b, b) None "/f" "k" (promotion_example [Some NetDown; None; Some NetDown; None]) =
  (World (MemS3 {[ "k" := Object "abc" (Some "abc") ]} []) None 0 (delete "/f" {[ "/f" := "abc" ]}) [],
   Ok (MkPromotionResult promoted None (strip_quotes "abc"))).
Proof.
  apply (promotion_survives_one_failure_per_head (λ b, b) "/f" "k" {[ "k" := Object "abc" (Some "abc") ]} [] None 0
    {[ "/f" := "abc" ]} [] true true "abc" (Object "abc" (Some "abc"))); reflexivity.
Defined.

(** Without a recorded digest the content is not compared: an object of
    equal length but other content lets promotion delete the only copy of the
    local segment. *)
Theorem promotion_trusts_length_without_digest (sha256_hex : bytes → string) (local key : string)
    (body other : bytes) :
  blen other = blen body →
  promote_l1 sha256_hex None local key
    (World (MemS3 {[ key := Object other None ]} (flaky false ++ flaky false ++ [])) None 0 {[ local := body ]} []) =
  (World (MemS3 {[ key := Object other None ]} []) None 0 ∅ [],
   Ok (MkPromotionResult promoted None (strip_quotes other))).
Proof.
  intros Hlen.
  rewrite (promote_l1_flaky sha256_hex local key _ [] None 0 _ [] false false body (Object other None));
    [|apply lookup_singleton_eq|apply lookup_singleton_eq|by left|done].
  by rewrite delete_singleton_eq.
Qed.

Lemma promotion_trusts_length_without_digest_witness :
  promote_l1 (λ b, b) None "/f" "k"
    (World (MemS3 {[ "k" := Object "xyz" None ]} (flaky false ++ flaky false ++ [])) None 0 {[ "/f" := "abc" ]} []) =
  (World (MemS3 {[ "k" := Object "xyz" None ]} []) None 0 ∅ [],
   Ok (MkPromotionResult promoted None (strip_quotes "xyz"))).
Proof. apply (promotion_trusts_length_without_digest (λ b, b) "/f" "k" "abc" "xyz"). reflexivity. Defined.
