(* ===== verification/DualWriter.v ===== *)
(** * Dual write: local file and NAS object ([nas_storage/dual_writer.py])

    The two-phase write, the self-delete of a source after a committed upload
    and the L1 upload of a file already in place.  Files are named by strings;
    [dw_faults] holds the errors of the three file-system operations that may
    fail.  Latencies are not modelled. *)
From S2P Require Import Prelude RetryQueue ObjectStore NasUploader NasKey Promotion.
Open Scope Z_scope.
Open Scope string_scope.
Open Scope list_scope.

Inductive dw_status := committed | local_only | dw_hard_floor_blocked.
Inductive promote_outcome := po_committed | po_local_only | po_already_promoted.

#[export] Instance dw_status_eq_dec : EqDecision dw_status.
Proof. solve_decision. Defined.

Record DualWriteResult := MkDualWriteResult {
  dw_result : dw_status; dw_put_result : PutResult; dw_local_path : string; dw_nas_key : string; dw_sha256 : string }.

(** [data: bytes | Path] *)
Inductive dw_data := DataBytes (b : bytes) | DataPath (p : string).

(** Errors of the tmp write, of [os.replace] and of the final unlink. *)
Record dw_faults := DwFaults { df_tmp : option exn; df_replace : option exn; df_unlink : option exn }.

(** The status string in the metrics *)
Definition dw_status_label (s : dw_status) : string :=
  match s with committed => "committed" | local_only => "local_only" | dw_hard_floor_blocked => "hard_floor_blocked" end.

(** [status in _COMMITTED_STATUSES] *)
Definition is_committed_status (s : put_status) : bool :=
  match s with uploaded | skipped_idempotent | skipped_etag_overwrite => true | _ => false end.

(** [local_path.with_suffix(local_path.suffix + ".tmp_dw")] *)
Definition tmp_path (local_path : string) : string := local_path +:+ ".tmp_dw".

(** [_tier_label_from_key] *)
Definition tier_label_from_key (nas_key : string) : string :=
  default "unknown" (extract_tier_parts (split_slash nas_key)).

(** The first three segments of the key, as a metric label. *)
Definition key_prefix (nas_key : string) : string :=
  let parts := split_slash nas_key in
  if (3 <=? length parts)%nat then join (take 3 parts) else nas_key.

(** A file of the local tree by its components. *)
Definition fs_name (p : path) : string := "/" +:+ join p.

(** ["already_promoted" → "committed"] *)
Definition normalize (o : promote_outcome) : dw_status :=
  match o with po_committed | po_already_promoted => committed | po_local_only => local_only end.

Section dual_writer.
Context {S : Type} `{S3 S}.
Context (cfg : rq_config) (new_id : nat → string) (enqueue_clock : nat → Z * Z)
        (enqueue_faults : nat → option exn * option exn)
        (has_metrics : bool) (sha256_hex : bytes → string).
(** Is the writer's own [self._metrics] set? *)
Context (dw_metrics : bool) (faults : dw_faults).
Local Notation proc := (proc (world S)).
Local Notation put := (put cfg new_id enqueue_clock enqueue_faults has_metrics sha256_hex).
Local Notation put_streaming := (put_streaming cfg new_id enqueue_clock enqueue_faults has_metrics).
Local Notation enqueue_retry := (enqueue_retry cfg new_id enqueue_clock enqueue_faults).

Definition set_fs (f : gmap string bytes → gmap string bytes) : proc unit := λ w,
  (World (w_s3 w) (w_rq w) (w_enqueues w) (f (w_fs w)) (w_metrics w), Ok tt).

(** [open(path, "rb")] and read *)
Definition read_file (p : string) : proc bytes := λ w,
  match w_fs w !! p with Some b => (w, Ok b) | None => (w, Raise FileNotFoundError) end.

Definition read_data (data : dw_data) : proc bytes :=
  match data with DataBytes b => pret b | DataPath p => read_file p end.

(** [except Exception: tmp_path.unlink(missing_ok=True); raise] *)
Definition rollback {A} (tmp : string) (m : proc A) : proc A := λ w,
  match m w with
  | (w1, Ok a) => (w1, Ok a)
  | (w1, Raise e) => pbind (set_fs (delete tmp)) (λ _, praise e) w1
  end.

(** [shutil.copy2(data, tmp)] refuses a source that is the target. *)
Definition write_tmp (tmp : string) (data : dw_data) (body : bytes) : proc unit :=
  rollback tmp
    (match df_tmp faults with
     | Some e => praise e
     | None =>
         match data with
         | DataPath p => if String.eqb p tmp then praise OSErrorOther else set_fs (insert tmp body)
         | DataBytes _ => set_fs (insert tmp body)
         end
     end).

(** [os.replace(tmp, local)] *)
Definition os_replace (tmp local : string) : proc unit := λ w,
  match w_fs w !! tmp, df_replace faults with
  | None, _ => (w, Raise FileNotFoundError)
  | Some _, Some e => (w, Raise e)
  | Some b, None => set_fs (λ fs, <[local := b]> (delete tmp fs)) w
  end.

(** [enqueue_retry(data=source)] with a path: the file is read by the queue. *)
Definition enqueue_retry_path (key source sha256 : string) : proc unit := λ w,
  match w_rq w with
  | None => (w, Ok tt)
  | Some _ => pbind (read_file source) (λ data, enqueue_retry key data sha256) w
  end.

(** [_promote_after_nas_put] *)
Definition promote_after_nas_put (source nas_key sha256 : string) : proc promote_outcome := λ w,
  let tier := tier_label_from_key nas_key in
  match promote_l1 sha256_hex (df_unlink faults) source nas_key w with
  | (w1, Ok _) => pbind (emit_always (LocalSelfDelete tier "committed_unlinked")) (λ _, pret po_committed) w1
  | (w1, Raise PromotionVerifyError) =>
      pbind (enqueue_retry_path nas_key source sha256) (λ _,
      pbind (emit_always (RetryOrphan tier)) (λ _,
      pbind (emit_always (LocalSelfDelete tier "local_only_retained")) (λ _, pret po_local_only))) w1
  | (w1, Raise FileNotFoundError) =>
      pbind (emit_always (LocalSelfDelete tier "already_promoted")) (λ _, pret po_already_promoted) w1
  | (w1, Raise e) =>
      if is_OSError e then
        pbind (emit_always (LocalSelfDelete tier "committed_unlink_failed")) (λ _, pret po_committed) w1
      else (w1, Raise e)
  end.

Definition emit_retained (source_to_delete : option string) (nas_key outcome : string) : proc unit :=
  match source_to_delete with
  | Some _ => emit_always (LocalSelfDelete (tier_label_from_key nas_key) outcome)
  | None => pret tt
  end.

(** Which file does a committed write delete? *)
Definition self_delete_target (local_path : string) (data : dw_data) (source_to_delete : option string) : option string :=
  match source_to_delete with
  | Some s => Some s
  | None => match data with DataPath p => if String.eqb p local_path then None else Some p | DataBytes _ => None end
  end.

(** Phase 2 of [write] *)
Definition commit_phase (local_path nas_key : string) (data : dw_data) (sha256 : string)
    (source_to_delete : option string) (r : PutResult) : proc dw_status :=
  let tmp := tmp_path local_path in
  if is_committed_status (p_status r) then
    pbind (os_replace tmp local_path) (λ _,
    match self_delete_target local_path data source_to_delete with
    | Some s => pbind (promote_after_nas_put s nas_key sha256) (λ o, pret (normalize o))
    | None => pret committed
    end)
  else match p_status r with
  | queued =>
      pbind (os_replace tmp local_path) (λ _,
      pbind (emit_retained source_to_delete nas_key "local_only_retained") (λ _, pret local_only))
  | put_hard_floor_blocked =>
      pbind (set_fs (delete tmp)) (λ _,
      pbind (emit_retained source_to_delete nas_key "hard_floor_retained") (λ _, pret dw_hard_floor_blocked))
  | _ => pbind (set_fs (delete tmp)) (λ _, praise RuntimeError)
  end.

Definition write (local_path nas_key : string) (data : dw_data) (sha256 : string)
    (source_to_delete : option string) : proc DualWriteResult :=
  let tmp := tmp_path local_path in
  pbind (read_data data) (λ body,
  if negb (String.eqb (sha256_hex body) sha256) then praise ValueError else
  pbind (write_tmp tmp data body) (λ _,
  pbind (rollback tmp (match data with
                       | DataPath _ => put_streaming (SourcePath body) nas_key sha256
                       | DataBytes _ => put nas_key body (Some sha256) false
                       end)) (λ r,
  pbind (commit_phase local_path nas_key data sha256 source_to_delete r) (λ st,
  pbind (if dw_metrics then emit_always (InvariantDualWrite (dw_status_label st) (key_prefix nas_key)) else pret tt) (λ _,
  pret (MkDualWriteResult st r local_path nas_key sha256)))))).

(** [put_l1]; the status switch of its own. *)
Definition put_l1_status (p nas_key sha256 : string) (r : PutResult) : proc dw_status :=
  if is_committed_status (p_status r) then
    pbind (promote_after_nas_put p nas_key sha256) (λ o, pret (normalize o))
  else pret (match p_status r with put_hard_floor_blocked => dw_hard_floor_blocked | _ => local_only end).

Definition put_l1 (p local_root : path) : proc DualWriteResult :=
  pbind (plift (relative_to p local_root)) (λ _,
  pbind (plift (build_nas_key p local_root (Some "L1"))) (λ nas_key,
  pbind (emit_always (NasKeyHelperCall "dual_writer_put_l1" "L1")) (λ _,
  pbind (read_file (fs_name p)) (λ body,
  let sha256 := sha256_hex body in
  pbind (put_streaming (SourcePath body) nas_key sha256) (λ r,
  pbind (put_l1_status (fs_name p) nas_key sha256 r) (λ st,
  pbind (emit_always (DualWriteResultTotal (dw_status_label st) "L1")) (λ _,
  pret (MkDualWriteResult st r (fs_name p) nas_key sha256)))))))).
End dual_writer.

(** ** Lemmas *)

Section dual_writer_lemmas.
Context {S : Type} `{S3Laws S}.
Context (cfg : rq_config) (new_id : nat → string) (enqueue_clock : nat → Z * Z)
        (enqueue_faults : nat → option exn * option exn)
        (has_metrics : bool) (sha256_hex : bytes → string)
        (dw_metrics : bool) (faults : dw_faults).
Implicit Types (w : world S) (key sha local : string) (body : bytes).
Local Notation put := (put cfg new_id enqueue_clock enqueue_faults has_metrics sha256_hex).
Local Notation put_streaming := (put_streaming cfg new_id enqueue_clock enqueue_faults has_metrics).
Local Notation enqueue_retry_path := (enqueue_retry_path cfg new_id enqueue_clock enqueue_faults).
Local Notation promote_after_nas_put := (promote_after_nas_put cfg new_id enqueue_clock enqueue_faults sha256_hex faults).
Local Notation commit_phase := (commit_phase cfg new_id enqueue_clock enqueue_faults sha256_hex faults).
Local Notation write := (write cfg new_id enqueue_clock enqueue_faults has_metrics sha256_hex dw_metrics faults).
Local Notation put_l1 := (put_l1 cfg new_id enqueue_clock enqueue_faults has_metrics sha256_hex faults).

Lemma enqueue_retry_path_inv key source sha w w' r :
  enqueue_retry_path key source sha w = (w', r) → objects w' = objects w ∧ same_files w w'.
Proof.
  unfold DualWriter.enqueue_retry_path, enqueue_retry, pbind, pret, read_file.
  destruct (w_rq w) as [q|] eqn:Hq; [|by intros [= <- <-]].
  destruct (w_fs w !! source) as [data|]; [|by intros [= <- <-]]. rewrite Hq.
  destruct (rq_enqueue _ _ _ _ _ _ _ _ w) as [w1 o] eqn:He. apply rq_enqueue_inv in He as (Hs&Hf&_).
  destruct o; intros [= <- <-]; by rewrite Hs.
Qed.

(** The self-delete: the source goes only as a verified copy. *)
Definition self_delete_post source key w w' (r : res promote_outcome) : Prop :=
  objects w' = objects w ∧
  (same_files w w' ∨
   (w_fs w' = delete source (w_fs w) ∧ r = Ok po_committed ∧
    ∃ b, w_fs w !! source = Some b ∧ verified_copy sha256_hex (w_s3 w) key b)).

Lemma promote_after_inv source key sha w w' r :
  promote_after_nas_put source key sha w = (w', r) → self_delete_post source key w w' r.
Proof.
  unfold DualWriter.promote_after_nas_put.
  destruct (promote_l1 _ _ _ _ w) as [w1 o] eqn:Hp. apply promote_l1_inv in Hp as (Ho&_&_&Hf&_).
  assert (same_files w w1 ∨ (w_fs w1 = delete source (w_fs w) ∧ (∃ p, o = Ok p) ∧
    ∃ b, w_fs w !! source = Some b ∧ verified_copy sha256_hex (w_s3 w) key b)) as Hf'.
  { destruct Hf as [[? _]|(?&p&b&?&?&?&?)]; [by left|right; eauto 10]. }
  clear Hf. destruct o as [p|e].
  - unfold pbind, pret, emit_always. intros [= <- <-]. split; [done|]. simpl.
    destruct Hf' as [?|(?&_&?)]; [by left|right; auto].
  - assert (same_files w w1) as Hsf by (destruct Hf' as [?|(_&[? [=]]&_)]; done).
    assert (∀ o : res promote_outcome, (w1, o) = (w', r) → self_delete_post source key w w' r) as Hsame.
    { intros o [= <- <-]. split; [done|by left]. }
    destruct e; unfold pbind, pret, emit_always; simpl is_OSError; cbn iota;
      try apply Hsame; try (intros [= <- <-]; split; [done|by left]).
    destruct (DualWriter.enqueue_retry_path _ _ _ _ _ _ _ w1) as [w2 [[]|e]] eqn:He;
      apply enqueue_retry_path_inv in He as [Ho2 Hf2]; unfold same_files in *;
      intros [= <- <-]; (split; [simpl; congruence|left; unfold same_files; simpl; congruence]).
Qed.

Lemma os_replace_inv tmp local w w' r body :
  w_fs w !! tmp = Some body → os_replace faults tmp local w = (w', r) →
  w_s3 w' = w_s3 w ∧ same_queue w w' ∧
  (r = Ok tt ∧ w_fs w' = <[local := body]> (delete tmp (w_fs w)) ∨ (∃ e, r = Raise e) ∧ w' = w).
Proof.
  unfold os_replace, set_fs. intros ->. destruct (df_replace faults); intros [= <- <-]; split_and!; try done.
  - right; eauto.
  - by left.
Qed.

(** The states [commit_phase] can leave, from a world with the tmp file. *)
Definition commit_post local key body target w w' (r : res dw_status) : Prop :=
  let tmp := tmp_path local in
  let published := <[local := body]> (delete tmp (w_fs w)) in
  objects w' = objects w ∧
  (((w_fs w' = w_fs w ∨ w_fs w' = delete tmp (w_fs w)) ∧ ∀ st, r = Ok st → st = dw_hard_floor_blocked) ∨
   (w_fs w' = published ∧ r ≠ Ok dw_hard_floor_blocked) ∨
   (∃ s b, target = Some s ∧ w_fs w' = delete s published ∧ r = Ok committed ∧
      published !! s = Some b ∧ verified_copy sha256_hex (w_s3 w') key b)).

Lemma emit_retained_inv source key outcome w (k : unit → proc (world S) dw_status) :
  ∃ w1, pbind (emit_retained source key outcome) k w = k tt w1 ∧ w_s3 w1 = w_s3 w ∧
    same_queue w w1 ∧ same_files w w1.
Proof. unfold pbind, emit_retained, emit_always, pret. destruct source; eexists; by split_and!. Qed.

Lemma commit_phase_inv local key data sha source p body w w' r :
  w_fs w !! tmp_path local = Some body →
  commit_phase local key data sha source p w = (w', r) →
  commit_post local key body (self_delete_target local data source) w w' r ∧
  (∀ st, r = Ok st →
    match st with
    | committed => is_committed_status (p_status p) = true
    | local_only => p_status p = queued ∨ is_committed_status (p_status p) = true
    | dw_hard_floor_blocked => p_status p = put_hard_floor_blocked
    end) ∧
  (p_status p = queued → same_queue w w').
Proof.
  intros Htmp. unfold DualWriter.commit_phase. destruct (is_committed_status (p_status p)) eqn:Hc.
  - unfold pbind at 1. destruct (os_replace _ _ _ w) as [w1 o] eqn:Hr.
    destruct (os_replace_inv _ _ _ _ _ _ Htmp Hr) as (Hs&Hq&[[-> Hf]|[[e ->] ->]]).
    2:{ intros [= <- <-]. split_and!; [split; [done|left; split; [by left|done]]|done|done]. }
    destruct (self_delete_target _ _ _) as [s|]; unfold pbind, pret.
    + destruct (promote_after_nas_put s key sha w1) as [w2 o] eqn:Hp.
      apply promote_after_inv in Hp as [Ho Hdel]. rewrite Hs in Ho. unfold same_files in Hdel.
      intros Hres. assert (w' = w2 ∧ r = match o with Ok x => Ok (normalize x) | Raise e => Raise e end) as [-> ->]
        by (destruct o; by simplify_eq).
      split_and!; [split; [done|]| |by intros Hpq; rewrite Hpq in Hc].
      * destruct Hdel as [Hf2|(Hf2&->&b&Hb&o'&Ho'&Hv)]; right; [left|right].
        -- split; [by rewrite Hf2|]. destruct o as [[]|]; done.
        -- exists s, b. rewrite Hf2, <- Hf. split_and!; [done|done|done|done|].
           exists o'. rewrite Hs in Ho'. by rewrite Ho.
      * intros st Hst. destruct o as [[]|]; simplify_eq/=; auto.
    + intros [= <- <-]. split_and!; [split; [by rewrite Hs|right; left; by rewrite Hf]|by intros st [= <-]|done].
  - assert (∀ w2, w_s3 w2 = w_s3 w → w_fs w2 = delete (tmp_path local) (w_fs w) → ∀ o,
      (∀ st, o = Ok st → st = dw_hard_floor_blocked) →
      commit_post local key body (self_delete_target local data source) w w2 o) as Hroll.
    { intros w2 Hs2 Hf2 o Ho. split; [by rewrite Hs2|]. left. split; [by right|done]. }
    destruct (p_status p) eqn:Hps; try discriminate.
    + unfold pbind at 1. destruct (os_replace _ _ _ w) as [w1 o] eqn:Hr.
      destruct (os_replace_inv _ _ _ _ _ _ Htmp Hr) as (Hs&Hq&[[-> Hf]|[[e ->] ->]]).
      * destruct (emit_retained_inv source key "local_only_retained" w1 (λ _, pret local_only)) as (w2&->&Hs2&Hq2&Hf2).
        intros [= <- <-]. unfold same_queue, same_files in *.
        split_and!; [split; [by rewrite Hs2, Hs|right; left; by rewrite Hf2, Hf]|intros st [= <-]; by left|congruence].
      * intros [= <- <-]. split_and!; [split; [done|left; split; [by left|done]]|done|done].
    + unfold pbind at 1, set_fs.
      match goal with |- pbind _ _ ?w1 = _ → _ => destruct (emit_retained_inv source key "hard_floor_retained" w1
        (λ _, pret dw_hard_floor_blocked)) as (w2&->&Hs2&_&Hf2) end.
      intros [= <- <-]. split_and!; [|by intros st [= <-]|done]. apply Hroll; [done|done|by intros st [= <-]].
Qed.

Lemma write_tmp_inv tmp data body w w' r :
  write_tmp faults tmp data body w = (w', r) →
  w_s3 w' = w_s3 w ∧ same_queue w w' ∧
  (r = Ok tt ∧ w_fs w' = <[tmp := body]> (w_fs w) ∨ (∃ e, r = Raise e) ∧ w_fs w' = delete tmp (w_fs w)).
Proof.
  unfold write_tmp, rollback, set_fs, praise, pbind.
  destruct (df_tmp faults); [intros [= <- <-]; split_and!; [done|done|right; eauto]|].
  destruct data as [|p]; [|destruct (String.eqb p tmp)]; intros [= <- <-]; (split_and!; [done|done|]); [by left|right; eauto|by left].
Qed.

Lemma rollback_inv {A} tmp (m : proc (world S) A) w w' r :
  rollback tmp m w = (w', r) →
  ∃ w1, m w = (w1, r) ∧ w_s3 w' = w_s3 w1 ∧ same_queue w1 w' ∧
    (res_is_ok r = true ∧ w' = w1 ∨ res_is_ok r = false ∧ w_fs w' = delete tmp (w_fs w1)).
Proof.
  unfold rollback, set_fs, pbind, praise. destruct (m w) as [w1 [a|e]]; intros [= <- <-]; exists w1; split_and!; auto; done.
Qed.

(** The outcomes of [write]: nothing published; published; published and the
    source removed as a verified copy. *)
Definition write_post local key body data sha source w w' (r : res DualWriteResult) : Prop :=
  let tmp := tmp_path local in
  let published := <[local := body]> (delete tmp (w_fs w)) in
  forward_only key (Object body (Some sha)) (objects w) (objects w') ∧
  (((∀ k, k ≠ tmp → w_fs w' !! k = w_fs w !! k) ∧ (∀ x, r = Ok x → dw_result x = dw_hard_floor_blocked)) ∨
   (w_fs w' = published ∧ ∀ x, r = Ok x → dw_result x ≠ dw_hard_floor_blocked) ∨
   (∃ s b x, self_delete_target local data source = Some s ∧ w_fs w' = delete s published ∧ r = Ok x ∧
      dw_result x = committed ∧ published !! s = Some b ∧ verified_copy sha256_hex (w_s3 w') key b)) ∧
  (∀ x, r = Ok x →
    (dw_result x = committed → stored_sha (w_s3 w') key sha) ∧
    (p_status (dw_put_result x) = queued → is_Some (w_rq w) → queue_holds (w_rq w') key sha body) ∧
    (dw_result x = local_only → p_status (dw_put_result x) = queued ∨ stored_sha (w_s3 w') key sha)).

Lemma tmp_path_ne local : local ≠ tmp_path local.
Proof. intros He%(f_equal String.length). unfold tmp_path in He. rewrite string_app_length in He. simpl in He. lia. Qed.

Lemma write_post_raise local key body data sha source w w' e :
  forward_only key (Object body (Some sha)) (objects w) (objects w') →
  (∀ k, k ≠ tmp_path local → w_fs w' !! k = w_fs w !! k) →
  write_post local key body data sha source w w' (Raise e).
Proof. intros ? ?. split_and!; [done|left; by split|done]. Qed.

(** The upload of either branch. *)
Lemma dw_upload_inv data body key sha w w' r :
  match data with
  | DataPath _ => put_streaming (SourcePath body) key sha
  | DataBytes _ => put key body (Some sha) false
  end w = (w', r) → upload_post false key body body sha w w' r.
Proof.
  intros Hc. destruct data.
  - apply put_inv in Hc as [Hp _]; [exact Hp|apply _].
  - apply put_streaming_inv in Hc; [exact Hc|apply _].
Qed.

(** From the upload on: the commit phase and the metric. *)
Lemma write_tail_inv local key data sha source body p w w1 w2 w' r :
  w_fs w1 = <[tmp_path local := body]> (w_fs w) → w_s3 w1 = w_s3 w → same_queue w w1 →
  upload_post false key body body sha w1 w2 (Ok p) →
  pbind (commit_phase local key data sha source p) (λ st,
    pbind (if dw_metrics then emit_always (InvariantDualWrite (dw_status_label st) (key_prefix key)) else pret tt) (λ _,
    pret (MkDualWriteResult st p local key sha))) w2 = (w', r) →
  write_post local key body data sha source w w' r.
Proof.
  intros Hf1 Hs1 Hq1 (Hf2&Hfw&Hok). unfold same_files in Hf2. rewrite Hs1 in Hfw. specialize (Hok p eq_refl).
  unfold pbind at 1. destruct (commit_phase local key data sha source p w2) as [w3 o] eqn:Hc.
  apply (commit_phase_inv _ _ _ _ _ _ body) in Hc as ([Ho3 Hfiles]&Hst&Hq3); [|rewrite Hf2, Hf1; apply lookup_insert_eq].
  rewrite Hf2, Hf1, delete_insert_eq in Hfiles. rewrite <- Ho3 in Hfw.
  assert (stored_sha (w_s3 w2) key sha → stored_sha (w_s3 w3) key sha) as Hsto.
  { intros (ob&Hob&?). exists ob. by rewrite Ho3. }
  intros Hres. assert (w_s3 w' = w_s3 w3 ∧ w_fs w' = w_fs w3 ∧ w_rq w' = w_rq w3 ∧
    r = match o with Ok st => Ok (MkDualWriteResult st p local key sha) | Raise e => Raise e end) as (Hs4&Hf4&Hq4&->).
  { revert Hres. unfold pbind, emit_always, pret. destruct o, dw_metrics; intros [= <- <-]; done. }
  split_and!; [by rewrite Hs4| |].
  - destruct Hfiles as [[Hf3 Hhf]|[[Hf3 Hhf]|(s&b&Hs&Hf3&->&Hb&Hv)]]; [left|right; left|right; right].
    + split; [|intros x Hx; destruct o; simplify_eq; by apply Hhf].
      intros k Hk. rewrite Hf4. destruct Hf3 as [-> | ->]; [by rewrite lookup_insert_ne|by rewrite lookup_delete_ne].
    + split; [by rewrite Hf4|]. intros x Hx. destruct o as [st|]; simplify_eq/=. naive_solver.
    + exists s, b, (MkDualWriteResult committed p local key sha). rewrite Hf4, Hs4. done.
  - intros x Hx. destruct o as [st|]; simplify_eq/=. specialize (Hst st eq_refl). rewrite Hs4.
    assert (is_committed_status (p_status p) = true → stored_sha (w_s3 w3) key sha) as Hcom.
    { intros Hcs. apply Hsto. destruct (p_status p); try done; by destruct Hok. }
    split_and!.
    + intros ->. auto.
    + intros Hqd Hq. rewrite Hqd in Hok. rewrite Hq4, (Hq3 Hqd). apply Hok; [done|]. by rewrite Hq1.
    + intros ->. destruct Hst; auto.
Qed.

Lemma write_inv local key data sha source body w w' r :
  read_data data w = (w, Ok body) →
  write local key data sha source w = (w', r) → write_post local key body data sha source w w' r.
Proof.
  intros Hrd. unfold DualWriter.write. unfold pbind at 1. rewrite Hrd.
  destruct (negb _); [intros [= <- <-]; by apply write_post_raise; [auto with py|]|].
  unfold pbind at 1. destruct (write_tmp faults (tmp_path local) data body w) as [w1 o] eqn:Ht.
  apply write_tmp_inv in Ht as (Hs1&Hq1&[[-> Hf1]|[[e ->] Hf1]]).
  2:{ intros [= <- <-]. apply write_post_raise; [rewrite Hs1; auto with py|].
      intros k Hk. by rewrite Hf1, lookup_delete_ne. }
  unfold pbind at 1. destruct (rollback _ _ w1) as [w2 o] eqn:Hr.
  apply rollback_inv in Hr as (w2'&Hu&Hs2&_&Hcase). apply dw_upload_inv in Hu.
  destruct o as [p|e].
  - destruct Hcase as [[_ ->]|[[=] _]]. intros Hc. by eapply write_tail_inv.
  - destruct Hcase as [[[=] _]|[_ Hf2]], Hu as (Hfu&Hfw&_). unfold same_files in Hfu.
    intros [= <- <-]. apply write_post_raise; [by rewrite Hs2, <- Hs1|].
    intros k Hk. rewrite Hf2, Hfu, Hf1, lookup_delete_ne, lookup_insert_ne; done.
Qed.

Lemma put_l1_inv p root w w' r body key :
  w_fs w !! fs_name p = Some body →
  build_nas_key p root (Some "L1") = Ok key →
  put_l1 p root w = (w', r) →
  let sha := sha256_hex body in
  forward_only key (Object body (Some sha)) (objects w) (objects w') ∧
  (same_files w w' ∨
   (w_fs w' = delete (fs_name p) (w_fs w) ∧ verified_copy sha256_hex (w_s3 w') key body ∧
    ∃ x, r = Ok x ∧ dw_result x = committed)) ∧
  (∀ x, r = Ok x → dw_result x = committed → stored_sha (w_s3 w') key sha).
Proof.
  intros Hb Hk. unfold DualWriter.put_l1, plift. unfold pbind at 1.
  destruct (relative_to p root) as [rel|e] eqn:Hrel.
  2:{ unfold build_nas_key in Hk. by rewrite Hrel in Hk. }
  rewrite Hk. unfold pbind at 1, emit_always. unfold pbind at 1. unfold pbind at 1, read_file. simpl. rewrite Hb.
  unfold pbind at 1. destruct (put_streaming (SourcePath body) key _ _) as [w1 o] eqn:Hp.
  apply put_streaming_inv in Hp as (Hf1&Hfw&Hok); [|apply _]. unfold same_files in Hf1. simpl in Hf1, Hfw.
  destruct o as [pr|e]; [|intros [= <- <-]; split_and!; [done|by left|done]].
  specialize (Hok pr eq_refl). unfold pbind at 1, put_l1_status.
  destruct (is_committed_status (p_status pr)) eqn:Hc.
  - unfold pbind at 1. destruct (promote_after_nas_put (fs_name p) key _ w1) as [w2 o] eqn:Ha.
    apply promote_after_inv in Ha as [Ho2 Hdel]. rewrite <- Ho2 in Hfw.
    assert (stored_sha (w_s3 w1) key (sha256_hex body)) as (ob&Hob&Hd) by (destruct (p_status pr); try done; by destruct Hok).
    destruct o as [out|e]; intros [= <- <-]; simpl.
    + split_and!; [done| |intros _ _ _; exists ob; by rewrite Ho2].
      unfold same_files in *. simpl. destruct Hdel as [Hf2|(Hf2&[= ->]&b&Hb'&o'&Ho'&Hv)]; [left; congruence|right].
      rewrite Hf1, Hb in Hb'. injection Hb' as <-. split_and!; [congruence| |eauto].
      exists o'. by rewrite Ho2.
    + split_and!; [done| |done]. left. unfold same_files in *. destruct Hdel as [Hf2|(_&[=]&_)]. congruence.
  - intros [= <- <-]. split_and!; [done|by left|]. simpl. intros x [= <-]. simpl. by destruct (p_status pr).
Qed.
End dual_writer_lemmas.

(** ** A concrete setting for the witnesses *)

Definition no_dw_faults : dw_faults := DwFaults None None None.
Definition dw_world (script : list (option fault)) (floor_rows : rq) : world mem_s3 :=
  World (MemS3 ∅ script) (Some floor_rows) 0 {[ "/src" := "abc" ]} [].
Definition example_write (script : list (option fault)) : world mem_s3 * res DualWriteResult :=
  write example_config example_ids example_clock no_faults true (λ b, b) true no_dw_faults
    "/dst" "market/tier=L2/x" (DataPath "/src") "abc" None (dw_world script (Rq [] ∅)).
Definition hot_write (script : list (option fault)) : world mem_s3 * res DualWriteResult :=
  write example_config example_ids example_clock no_faults true (λ b, b) true no_dw_faults
    "/src" "market/tier=L2/x" (DataPath "/src") "abc" (Some "/src") (dw_world script (Rq [] ∅)).
Definition l1_world (script : list (option fault)) (q : rq) : world mem_s3 :=
  World (MemS3 ∅ script) (Some q) 0 {[ "/d/tier=L1/x" := "abc" ]} [].
Definition example_put_l1 (script : list (option fault)) (q : rq) : world mem_s3 * res DualWriteResult :=
  put_l1 example_config example_ids example_clock no_faults true (λ b, b) no_dw_faults
    ["d"; "tier=L1"; "x"] ["d"] (l1_world script q).

(** ** Properties *)

(** C1.  RPO = 0 of the dual write, its production call included, where one
    path is the destination, the data and the source to delete.  Whatever fails
    and however the call ends, every local file but the tmp file keeps its
    content, unless that file is the destination and had other content than the
    data, or it is the source the call may delete: that one goes only when the
    call returns [committed], with a verified copy of that very content on the
    NAS under the key.  The destination is as it was, or holds the data, or was
    that source.  No NAS object with a digest is replaced. *)
Theorem dual_write_loses_nothing {S : Type} `{S3Laws S} cfg new_id clock qfaults has_metrics sha256_hex dw_metrics faults
    (local key : string) (data : dw_data) (sha : string) (source : option string) (body : bytes)
    (w w' : world S) (r : res DualWriteResult) :
  read_data data w = (w, Ok body) →
  write cfg new_id clock qfaults has_metrics sha256_hex dw_metrics faults local key data sha source w = (w', r) →
  let deleted s b := self_delete_target local data source = Some s ∧ w_fs w' !! s = None ∧
    verified_copy sha256_hex (w_s3 w') key b ∧ ∃ x, r = Ok x ∧ dw_result x = committed in
  (∀ s b, s ≠ tmp_path local → (s = local → b = body) → w_fs w !! s = Some b →
     w_fs w' !! s = Some b ∨ deleted s b) ∧
  (w_fs w' !! local = w_fs w !! local ∨ w_fs w' !! local = Some body ∨ deleted local body) ∧
  (∀ k o, objects w !! k = Some o → is_Some (ob_sha256 o) → objects w' !! k = Some o).
Proof.
  intros Hrd Hw deleted. pose proof (write_inv _ _ _ _ _ _ _ _ _ _ _ _ _ _ _ _ _ Hrd Hw) as (Hfw&Hfiles&_).
  split_and!; [| |intros; by eapply forward_only_keeps].
  - intros s b Ht Hl Hb.
    assert ((<[local := body]> (delete (tmp_path local) (w_fs w))) !! s = Some b) as Hpub.
    { destruct (decide (s = local)) as [->|]; [by rewrite lookup_insert_eq, Hl|by rewrite lookup_insert_ne, lookup_delete_ne]. }
    destruct Hfiles as [[Hf _]|[[-> _]|(s'&b'&x&Hs&Hfs&->&Hx&Hb'&Hv)]]; [left; by rewrite Hf|by left|].
    destruct (decide (s' = s)) as [->|Hne]; [right|left; by rewrite Hfs, lookup_delete_ne].
    rewrite Hpub in Hb'. injection Hb' as <-. split; [done|]. rewrite Hfs, lookup_delete_eq. eauto.
  - assert (local ≠ tmp_path local) as Ht by apply tmp_path_ne.
    destruct Hfiles as [[Hf _]|[[-> _]|(s&b&x&Hs&Hfs&->&Hx&Hb&Hv)]]; [left; by rewrite Hf|right; left; by rewrite lookup_insert_eq|right].
    destruct (decide (s = local)) as [->|Hne]; [right|left; by rewrite Hfs, lookup_delete_ne, lookup_insert_eq].
    rewrite lookup_insert_eq in Hb. injection Hb as <-. split; [done|]. rewrite Hfs, lookup_delete_eq. eauto.
Qed.

(** The call the compactor makes: the file it has just written goes to the NAS
    and is deleted here; with the queue as the only way out it stays. *)
Lemma dual_write_loses_nothing_witness :
  let w' := (hot_write []).1 in
  w_fs w' !! "/src" = None ∧
  (w_fs w' !! "/src" = Some "abc" ∨
   (self_delete_target "/src" (DataPath "/src") (Some "/src") = Some "/src" ∧ w_fs w' !! "/src" = None ∧
    verified_copy (λ b, b) (w_s3 w') "market/tier=L2/x" "abc" ∧ ∃ x, (hot_write []).2 = Ok x ∧ dw_result x = committed)).
Proof.
  split; [vm_compute; reflexivity|].
  destruct (dual_write_loses_nothing example_config example_ids example_clock no_faults true (λ b, b) true no_dw_faults
    "/src" "market/tier=L2/x" (DataPath "/src") "abc" (Some "/src") "abc" (dw_world [] (Rq [] ∅)) _ _ eq_refl
    (surjective_pairing _)) as [Hs _].
  apply Hs; [discriminate|reflexivity|reflexivity].
Defined.

(** C10.  The caller contract of [DualWriteResult.status].  [committed]: the
    content is stored on the NAS under the key with its digest, and the
    destination holds it unless the destination itself was the source to
    delete.  [local_only]: the destination holds the content; if the upload
    was queued and there is a queue, its row and payload are there.
    [hard_floor_blocked]: every file but the tmp file is as it was. *)
Theorem dual_write_status_contract {S : Type} `{S3Laws S} cfg new_id clock qfaults has_metrics sha256_hex dw_metrics faults
    (local key : string) (data : dw_data) (sha : string) (source : option string) (body : bytes)
    (w w' : world S) (x : DualWriteResult) :
  read_data data w = (w, Ok body) →
  write cfg new_id clock qfaults has_metrics sha256_hex dw_metrics faults local key data sha source w = (w', Ok x) →
  match dw_result x with
  | committed => stored_sha (w_s3 w') key sha ∧
      (w_fs w' !! local = Some body ∨ self_delete_target local data source = Some local)
  | local_only => w_fs w' !! local = Some body ∧
      (p_status (dw_put_result x) = queued → is_Some (w_rq w) → queue_holds (w_rq w') key sha body)
  | dw_hard_floor_blocked => ∀ k, k ≠ tmp_path local → w_fs w' !! k = w_fs w !! k
  end.
Proof.
  intros Hrd Hw. pose proof (write_inv _ _ _ _ _ _ _ _ _ _ _ _ _ _ _ _ _ Hrd Hw) as (_&Hfiles&Hok).
  destruct (Hok x eq_refl) as (Hcom&Hq&_).
  destruct Hfiles as [[Hf Hx]|[[-> Hx]|(s&b&x'&Hs&->&[= <-]&Hx&_)]].
  - by rewrite (Hx x eq_refl).
  - specialize (Hx x eq_refl). destruct (dw_result x); [|split; [apply lookup_insert_eq|done]|done].
    split; [auto|left; apply lookup_insert_eq].
  - rewrite Hx. split; [auto|]. destruct (decide (s = local)) as [->|]; [by right|left].
    by rewrite lookup_delete_ne, lookup_insert_eq.
Qed.

Lemma dual_write_status_contract_witness :
  w_fs (example_write [None; Some NetDown]).1 !! "/dst" = Some "abc" ∧
  (queued = queued → is_Some (Some (Rq [] ∅)) →
   queue_holds (w_rq (example_write [None; Some NetDown]).1) "market/tier=L2/x" "abc" "abc").
Proof.
  exact (dual_write_status_contract example_config example_ids example_clock no_faults true (λ b, b) true no_dw_faults
    "/dst" "market/tier=L2/x" (DataPath "/src") "abc" None "abc" (dw_world [None; Some NetDown] (Rq [] ∅)) _
    (MkDualWriteResult local_only (MkPutResult queued "") "/dst" "market/tier=L2/x" "abc")
    ltac:(vm_compute; reflexivity) ltac:(vm_compute; reflexivity)).
Defined.

(** The L1 upload.  [committed] means stored under the key of the file
    with its digest; in every other case, raised errors included, the local
    file is still there, and it is removed only as a verified copy. *)
Theorem put_l1_keeps_segment {S : Type} `{S3Laws S} cfg new_id clock qfaults has_metrics sha256_hex faults
    (p root : path) (key : string) (body : bytes) (w w' : world S) (r : res DualWriteResult) :
  w_fs w !! fs_name p = Some body →
  build_nas_key p root (Some "L1") = Ok key →
  put_l1 cfg new_id clock qfaults has_metrics sha256_hex faults p root w = (w', r) →
  (∀ k, k ≠ fs_name p → w_fs w' !! k = w_fs w !! k) ∧
  (w_fs w' !! fs_name p = Some body ∨
   verified_copy sha256_hex (w_s3 w') key body ∧ ∃ x, r = Ok x ∧ dw_result x = committed) ∧
  (∀ x, r = Ok x → dw_result x = committed → stored_sha (w_s3 w') key (sha256_hex body)).
Proof.
  intros Hb Hk Hp. destruct (put_l1_inv _ _ _ _ _ _ _ _ _ _ _ _ _ _ Hb Hk Hp) as (_&Hf&Hc).
  unfold same_files in Hf. split_and!; [| |done].
  - intros k Hne. destruct Hf as [->|(->&_)]; [done|]. by rewrite lookup_delete_ne.
  - destruct Hf as [->|(_&?&?)]; [by left|by right].
Qed.

Lemma put_l1_keeps_segment_witness :
  w_fs (example_put_l1 [] (Rq [] ∅)).1 !! "/d/tier=L1/x" = Some "abc" ∨
  verified_copy (λ b, b) (w_s3 (example_put_l1 [] (Rq [] ∅)).1) "tier=L1/x" "abc" ∧
  ∃ x, (example_put_l1 [] (Rq [] ∅)).2 = Ok x ∧ dw_result x = committed.
Proof.
  destruct (put_l1_keeps_segment example_config example_ids example_clock no_faults true (λ b, b) no_dw_faults
    ["d"; "tier=L1"; "x"] ["d"] "tier=L1/x" "abc"
    (l1_world [] (Rq [] ∅)) _ _
    ltac:(vm_compute; reflexivity) ltac:(vm_compute; reflexivity) (surjective_pairing _)) as (_&Hs&_).
  exact Hs.
Defined.

(** [local_only] does not imply a retry row: after a successful upload
    whose verification HEAD fails, [_promote_after_nas_put] discards the answer
    of the queue.  With the queue at its hard floor the L1 upload reports
    [local_only], counts the segment as retained for retry, and the queue is
    unchanged. *)
Theorem local_only_without_retry_row :
  let full := Rq [RqRow "a" "k" "s" "a.bin" 0 pending 0 None; RqRow "b" "k" "s" "b.bin" 0 pending 0 None;
                  RqRow "c" "k" "s" "c.bin" 0 pending 0 None] ∅ in
  let run := example_put_l1 [None; None; Some (Denied "503")] full in
  (∃ x, run.2 = Ok x ∧ dw_result x = local_only ∧ p_status (dw_put_result x) = uploaded) ∧
  w_rq run.1 = Some full ∧ RetryOrphan "L1" ∈ w_metrics run.1.
Proof.
  intros full run. subst full run. vm_compute. split; [eexists; split; [reflexivity|done]|].
  split; [reflexivity|]. right. left.
Qed.
