(* ===== verification/OrderbookReplay.v ===== *)
(** * Forward-only reads and order-book reconstruction ([orderbook_replay.py])

    Partition scans with the look-ahead filter and the multi-node merge, the
    baseline lookup, the forward fold of events and the coverage gaps.  Times
    are UTC microseconds; a partition is named by its day number and given by
    the rows its parquet files yield, in file order.  A book maps the canonical
    key of a price to its quantity. *)
From S2P Require Import Prelude PyDict PyDecimal Dedup.
Open Scope string_scope.
Open Scope list_scope.
Open Scope Z_scope.

(** ** Path components *)

(** [[A-Za-z0-9_.=\-]] *)
Definition allowed_char (a : Ascii.ascii) : bool :=
  let n := Ascii.nat_of_ascii a in
  ((65 <=? n) && (n <=? 90) || (97 <=? n) && (n <=? 122) || (48 <=? n) && (n <=? 57) ||
   (n =? 95) || (n =? 46) || (n =? 61) || (n =? 45))%nat.
Definition newline : Ascii.ascii := Ascii.ascii_of_nat 10.
Definition backslash : Ascii.ascii := Ascii.ascii_of_nat 92.

(** [re.match(r"^[...]+$", value)]: the dollar also matches before a final
    newline. *)
Fixpoint allowed_rest (s : string) : bool :=
  match s with
  | EmptyString => true
  | String a EmptyString => allowed_char a || Ascii.eqb a newline
  | String a s' => allowed_char a && allowed_rest s'
  end.
Definition regex_match (s : string) : bool :=
  match s with EmptyString => false | String a s' => allowed_char a && allowed_rest s' end.

(** [".." in value] *)
Fixpoint has_dotdot (s : string) : bool :=
  match s with
  | EmptyString => false
  | String a s' => String.prefix ".." s || has_dotdot s'
  end.

Definition safe_path_component (value : string) : res string :=
  if has_dotdot value || String.prefix "/" value || String.prefix (String backslash "") value then Raise ValueError
  else if regex_match value then Ok value else Raise ValueError.

(** [_tick_partition_dir] and [_orderbook_partition_dir] as guards; the date
    string is well formed. *)
Definition partition_dir (exchange symbol : string) : res unit :=
  rbind (safe_path_component exchange) (λ _, rbind (safe_path_component symbol) (λ _, Ok tt)).

(** ** Scans *)

Definition day_us : Z := 86400000000.
Definition day_of (ts : Z) : Z := ts / day_us.
(** [_date_range]: both ends included *)
Definition date_range (start stop : Z) : list Z := seqZ (day_of start) (day_of stop - day_of start + 1).

Record part_row (A : Type) := PartRow {
  pr_ts : Z; pr_received : Z; pr_file : Z; pr_row : Z; pr_data : A; pr_node : option string }.
Arguments PartRow {A}.
Arguments pr_ts {A}.
Arguments pr_received {A}.
Arguments pr_file {A}.
Arguments pr_row {A}.
Arguments pr_data {A}.
Arguments pr_node {A}.

Section scan.
Context {A : Type} (partition : Z → list (part_row A)).
(** The deduplication of the tier, and the [node_id] attribute of its rows. *)
Context (dedup : list A → list A) (with_node : option string → A → A).

Definition in_window (start stop : Z) (simulated_clock : option Z) (r : part_row A) : bool :=
  (start <=? pr_ts r) && (pr_ts r <? stop) &&
  match simulated_clock with Some c => pr_received r <=? c | None => true end.

(** The sort key [(ts, received, file_offset, row_idx)] *)
Definition row_leb (a b : part_row A) : bool :=
  (pr_ts a <? pr_ts b) || (pr_ts a =? pr_ts b) &&
  ((pr_received a <? pr_received b) || (pr_received a =? pr_received b) &&
   ((pr_file a <? pr_file b) || (pr_file a =? pr_file b) && (pr_row a <=? pr_row b))).

Fixpoint read_days (exchange symbol : string) (start stop : Z) (clock : option Z) (days : list Z)
    : res (list (part_row A)) :=
  match days with
  | [] => Ok []
  | d :: days' =>
      rbind (partition_dir exchange symbol) (λ _,
      rbind (read_days exchange symbol start stop clock days') (λ rest,
      Ok (List.filter (in_window start stop clock) (partition d) ++ rest)))
  end.

Definition node_of (r : part_row A) : string := default NODE_PRIORITY_DEFAULT_SENTINEL (pr_node r).
Definition distinct_nodes (rows : list (part_row A)) : list string := remove_dups (node_of <$> rows).

Definition emit_rows (rows : list (part_row A)) : list A :=
  if (2 <=? length (distinct_nodes rows))%nat then
    with_node None <$> dedup ((λ r, with_node (Some (node_of r)) (pr_data r)) <$> rows)
  else pr_data <$> rows.

(** [tz_aware]: both datetimes carry a time zone. *)
Definition scan (exchange symbol : string) (tz_aware : bool) (start stop : Z) (clock : option Z) : res (list A) :=
  if tz_aware then
    rbind (read_days exchange symbol start stop clock (date_range start stop)) (λ rows,
    Ok (emit_rows (sort_le row_leb rows)))
  else Raise ValueError.
End scan.

Definition tick_with_node (n : option string) (t : tick) : tick :=
  Tick (t_exchange t) (t_symbol t) (t_ts_utc t) (t_price t) (t_quantity t) (t_side t) (t_raw_json t) n
    (t_payload_hash t) (t_ingest_seq t).
Definition event_with_node (n : option string) (e : ob_event) : ob_event :=
  ObEvent (o_exchange e) (o_symbol e) (o_ts_utc e) (o_received_at e) (o_event_type e) (o_side e) (o_level e)
    (o_price e) (o_quantity e) (o_raw_json e) n.

(** [monotonic] and [now] are the clock readings of the deduplication. *)
Definition scan_ticks (partition : Z → list (part_row tick)) (monotonic : nat → Z) (now : Z) :=
  scan partition (λ rows, emitted (deduplicate_ticks rows true false monotonic now)) tick_with_node.
Definition scan_orderbook_events (partition : Z → list (part_row ob_event)) (monotonic : nat → Z) (now : Z) :=
  scan partition (λ rows, emitted (deduplicate_orderbook_events rows true false monotonic now)) event_with_node.

(** ** Reconstruction *)

Definition book : Type := dict (Z * Z) decimal.
Definition key_price (k : Z * Z) : decimal := Dec k.1 k.2.

Record books := Books { bk_bids : book; bk_asks : book }.
(** [target = bids if side == "bid" else asks], updated by [f] *)
Definition on_side (side : string) (f : book → book) (b : books) : books :=
  if String.eqb side "bid" then Books (f (bk_bids b)) (bk_asks b) else Books (bk_bids b) (f (bk_asks b)).
Definition side_of (side : string) (b : books) : book :=
  if String.eqb side "bid" then bk_bids b else bk_asks b.

(** [if quantity > 0: target[price] = quantity] *)
Definition set_if_positive (price quantity : decimal) (b : book) : book :=
  if 0 <? coef quantity then dset b (dkey price) quantity else b.
(** pop on zero, set otherwise *)
Definition apply_delta (price quantity : decimal) (b : book) : book :=
  if coef quantity =? 0 then dremove b (dkey price) else dset b (dkey price) quantity.

(** A row of the D14 snapshot partition. *)
Record snap_row := SnapRow { s_ts : Z; s_baseline_seq : Z; s_side : string; s_price : decimal; s_quantity : decimal }.

(** [_load_baseline_from_d14]; [snaps] is what [scan_orderbook_snapshots]
    returned or raised. *)
Definition load_baseline (snaps : res (list snap_row)) : option (Z * books) :=
  match snaps with
  | Raise _ | Ok [] => None
  | Ok (r :: rs) =>
      let best := foldr (λ r m, Z.max (s_baseline_seq r) m) (s_baseline_seq r) rs in
      let group := List.filter (λ r, s_baseline_seq r =? best) (r :: rs) in
      match group with
      | [] => None
      | g :: _ => Some (s_ts g,
          foldl (λ b r, on_side (s_side r) (set_if_positive (s_price r) (s_quantity r)) b) (Books [] []) group)
      end
  end.

Definition is_snapshot (e : ob_event) : bool := String.eqb (o_event_type e) "snapshot".
Definition is_delta (e : ob_event) : bool := String.eqb (o_event_type e) "delta".

(** [events[i:]] from the first event that satisfies [p] *)
Fixpoint drop_until (p : ob_event → bool) (events : list ob_event) : list ob_event :=
  match events with [] => [] | e :: es => if p e then events else drop_until p es end.

(** The baseline group: consecutive snapshot events of one timestamp. *)
Fixpoint take_baseline (ts : Z) (b : books) (events : list ob_event) : books * list ob_event :=
  match events with
  | e :: es =>
      if (o_ts_utc e =? ts) && is_snapshot e
      then take_baseline ts (on_side (o_side e) (set_if_positive (o_price e) (o_quantity e)) b) es
      else (b, events)
  | [] => (b, [])
  end.

(** The first half of [get_orderbook_at]: baseline time, books, events to fold. *)
Definition locate_baseline (snaps : res (list snap_row)) (events : list ob_event) : res (Z * books * list ob_event) :=
  match load_baseline snaps with
  | Some (ts, b) => Ok (ts, b, drop_until (λ e, (ts <? o_ts_utc e) && is_delta e) events)
  | None =>
      match drop_until is_snapshot events with
      | [] => Raise ReconstructionError
      | (e :: _) as rest =>
          let '(b, fold) := take_baseline (o_ts_utc e) (Books [] []) rest in Ok (o_ts_utc e, b, fold)
      end
  end.

(** The effect of one event; a snapshot group after the baseline re-baselines. *)
Definition fold_books (baseline_ts last_ts : Z) (e : ob_event) (b : books) : books :=
  if is_delta e then on_side (o_side e) (apply_delta (o_price e) (o_quantity e)) b
  else if is_snapshot e && negb (o_ts_utc e =? baseline_ts) then
    on_side (o_side e) (λ t, set_if_positive (o_price e) (o_quantity e)
      (if last_ts =? o_ts_utc e then t else [])) b
  else b.

Fixpoint fold_events (ts_utc gap_threshold baseline_ts last_ts : Z) (b : books) (events : list ob_event) : res books :=
  match events with
  | [] => Ok b
  | e :: es =>
      if ts_utc <? o_ts_utc e then Ok b
      else if gap_threshold <? o_ts_utc e - last_ts then Raise GapDetectedError
      else if o_ts_utc e <? last_ts then Raise ReconstructionError
      else fold_events ts_utc gap_threshold baseline_ts (o_ts_utc e) (fold_books baseline_ts last_ts e b) es
  end.

Record level := Level { lv_price : decimal; lv_quantity : decimal }.
Record OrderbookSnapshot := MkSnapshot { sn_ts : Z; sn_bids : list level; sn_asks : list level }.

(** [sorted(items, key=lambda kv: -kv[0])]: the negation rounds to the
    context's precision. *)
Definition neg_price (k : Z * Z) : decimal := dfix (Dec (- k.1) k.2).
Definition bid_leb (x y : (Z * Z) * decimal) : bool := dleb (neg_price x.1) (neg_price y.1).
Definition ask_leb (x y : (Z * Z) * decimal) : bool := dleb (key_price x.1) (key_price y.1).
Definition to_levels (items : list ((Z * Z) * decimal)) : list level :=
  (λ x, Level (key_price x.1) x.2) <$> items.

Definition reconstruct (snaps : res (list snap_row)) (events : list ob_event) (ts_utc gap_threshold : Z)
    : res OrderbookSnapshot :=
  rbind (locate_baseline snaps events) (λ '(ts, b, fold),
  rbind (fold_events ts_utc gap_threshold ts ts b fold) (λ b',
  Ok (MkSnapshot ts_utc (to_levels (sort_le bid_leb (bk_bids b'))) (to_levels (sort_le ask_leb (bk_asks b')))))).

Definition get_orderbook_at (partition : Z → list (part_row ob_event)) (monotonic : nat → Z) (now : Z)
    (snaps : Z → Z → option Z → res (list snap_row)) (exchange symbol : string) (tz_aware : bool)
    (ts_utc : Z) (simulated_clock : option Z) (gap_threshold : Z) : res OrderbookSnapshot :=
  if tz_aware then
    let day_start := day_of ts_utc * day_us in
    let day_end := day_start + day_us in
    rbind (scan_orderbook_events partition monotonic now exchange symbol true day_start day_end simulated_clock) (λ events,
    reconstruct (snaps day_start day_end simulated_clock) events ts_utc gap_threshold)
  else Raise ValueError.

(** ** Coverage *)

Record GapEntry := MkGap { after_ts : Z; before_ts : Z; gap_us : Z }.

Fixpoint gaps_from (threshold last : Z) (ts : list Z) : list GapEntry :=
  match ts with
  | [] => []
  | t :: ts' =>
      let gap := t - last in
      (if threshold <? gap then [MkGap last t gap] else []) ++ gaps_from threshold t ts'
  end.
Definition coverage_gaps (threshold : Z) (timestamps : list Z) : list GapEntry :=
  match timestamps with [] => [] | t :: ts => gaps_from threshold t ts end.

Record CoverageReport := MkCoverage { cv_min : option Z; cv_max : option Z; cv_gaps : list GapEntry }.

(** The time part of [tier_coverage], on the timestamps of the tier's scan. *)
Definition tier_coverage (event_ts : list Z) (threshold : Z) : CoverageReport :=
  let timestamps := sorted_by id event_ts in
  MkCoverage (head timestamps) (last timestamps) (coverage_gaps threshold timestamps).

Lemma Forall_suffix {A} (Q : A → Prop) (l l' : list A) : suffix l l' → Forall Q l' → Forall Q l.
Proof. intros [k ->] [_ Hl]%Forall_app. done. Qed.

Lemma StronglySorted_weaken {A} (R R' : A → A → Prop) (l : list A) :
  (∀ x y, R x y → R' x y) → StronglySorted R l → StronglySorted R' l.
Proof.
  intros HR. induction 1 as [|x l Hs IH Hall]; constructor; [done|]. eapply Forall_impl; [exact Hall|]. auto.
Qed.

(** ** Lemmas on canonical price keys *)

Lemma dkey_key_price p : dkey (key_price (dkey p)) = dkey p.
Proof.
  apply dkey_deqb. destruct (decide (coef p = 0)) as [Hz|Hz].
  - rewrite dkey_zero by done. unfold deqb, dcmp, key_price, dscale. simpl. by rewrite Hz, !Z.mul_0_l.
  - destruct (dkey_spec p Hz) as (Hle&Hc&_). unfold deqb. rewrite (dcmp_at _ _ (expo p)) by (simpl; lia).
    unfold dscale, key_price. simpl. rewrite Z.sub_diag, <- Hc, Z.mul_1_r. by rewrite Z.compare_refl.
Qed.

Lemma dkey_coef_le p : Z.abs (dkey p).1 <= Z.abs (coef p).
Proof.
  destruct (decide (coef p = 0)) as [Hz|Hz]; [rewrite dkey_zero by done; simpl; lia|].
  destruct (dkey_spec p Hz) as (Hle&Hc&_). pose proof (pow10_gt0 ((dkey p).2 - expo p) ltac:(lia)).
  rewrite Hc, Z.abs_mul. nia.
Qed.

(** ** Book invariants *)

(** A dictionary whose entries all satisfy [P]. *)
Definition book_inv (P : Z * Z → decimal → Prop) (b : book) : Prop :=
  dict_wf b ∧ ∀ k q, (k, q) ∈ b → P k q.
Definition books_inv P (b : books) : Prop := book_inv P (bk_bids b) ∧ book_inv P (bk_asks b).

Section book_lemmas.
Context (P : Z * Z → decimal → Prop).

Lemma book_inv_nil : book_inv P [].
Proof. split; [apply dict_wf_nil|]. intros k q Hin. inversion Hin. Qed.

Lemma book_inv_set k q b : P k q → book_inv P b → book_inv P (dset b k q).
Proof.
  intros Hk [Hwf Hb]. split; [by apply dict_wf_dset|]. intros k' q' Hin.
  apply elem_dget in Hin; [|by apply dict_wf_dset].
  destruct (decide (k = k')) as [<-|Hne].
  - rewrite dget_dset_eq in Hin. by injection Hin as <-.
  - rewrite dget_dset_ne in Hin by done. by apply Hb, dget_Some_elem.
Qed.

Lemma book_inv_remove k b : book_inv P b → book_inv P (dremove b k).
Proof.
  intros [Hwf Hb]. split; [by apply dict_wf_dremove|].
  intros k' q Hin. apply dremove_elem in Hin as [Hin _]; [by apply Hb|done].
Qed.

(** An event may enter a book that satisfies [P]. *)
Definition entry_ok (price quantity : decimal) : Prop := coef quantity ≠ 0 → P (dkey price) quantity.

Lemma set_if_positive_inv p q b : entry_ok p q → book_inv P b → book_inv P (set_if_positive p q b).
Proof.
  intros He Hb. unfold set_if_positive. destruct (Z.ltb_spec 0 (coef q)); [|done].
  apply book_inv_set; [apply He; lia|done].
Qed.

Lemma apply_delta_inv p q b : entry_ok p q → book_inv P b → book_inv P (apply_delta p q b).
Proof.
  intros He Hb. unfold apply_delta. destruct (Z.eqb_spec (coef q) 0).
  - by apply book_inv_remove.
  - apply book_inv_set; [by apply He|done].
Qed.

Lemma on_side_inv side f b :
  (∀ t, book_inv P t → book_inv P (f t)) → books_inv P b → books_inv P (on_side side f b).
Proof. intros Hf [? ?]. unfold on_side. destruct (String.eqb side "bid"); split; simpl; auto. Qed.

Definition event_ok (e : ob_event) : Prop := entry_ok (o_price e) (o_quantity e).
Definition snap_ok (r : snap_row) : Prop := entry_ok (s_price r) (s_quantity r).

Lemma books_inv_empty : books_inv P (Books [] []).
Proof. split; apply book_inv_nil. Qed.

Lemma load_baseline_inv snaps ts b :
  (∀ l r, snaps = Ok l → r ∈ l → snap_ok r) → load_baseline snaps = Some (ts, b) → books_inv P b.
Proof.
  intros Hs. unfold load_baseline. destruct snaps as [[|r rs]|]; try done.
  set (group := List.filter _ _). assert (Forall snap_ok group) as Hg.
  { apply Forall_forall. intros x [Hx _]%list_elem_of_In%filter_In.
    apply (Hs (r :: rs)); [done|]. by apply list_elem_of_In. }
  destruct group as [|g gs]; [done|].
  assert (∀ l b0, Forall snap_ok l → books_inv P b0 →
    books_inv P (foldl (λ b r, on_side (s_side r) (set_if_positive (s_price r) (s_quantity r)) b) b0 l)) as Hl.
  { induction l as [|x l IH]; intros b0 Hl Hb0; simpl; [done|]. apply Forall_cons in Hl as [Hx Hl].
    apply IH; [done|]. apply on_side_inv; [|done]. intros t Ht. by apply set_if_positive_inv. }
  intros Heq. assert (b = foldl (λ b r, on_side (s_side r) (set_if_positive (s_price r) (s_quantity r)) b)
    (Books [] []) (g :: gs)) as -> by congruence.
  apply Hl; [done|apply books_inv_empty].
Qed.

Lemma take_baseline_inv ts b events b' rest :
  Forall event_ok events → books_inv P b → take_baseline ts b events = (b', rest) →
  books_inv P b' ∧ suffix rest events.
Proof.
  revert b. induction events as [|e es IH]; intros b He Hb; simpl; [by intros [= <- <-]|].
  apply Forall_cons in He as [He Hes]. destruct (_ && _).
  - intros Ht. apply IH in Ht as [? ?]; [split; [done|by apply suffix_cons_r]|done|].
    apply on_side_inv; [|done]. intros t Ht'. by apply set_if_positive_inv.
  - by intros [= <- <-].
Qed.

Lemma drop_until_suffix p events : suffix (drop_until p events) events.
Proof.
  induction events as [|e es IH]; simpl; [done|]. destruct (p e); [done|]. by apply suffix_cons_r.
Qed.

Lemma locate_baseline_inv snaps events ts b fold :
  (∀ l r, snaps = Ok l → r ∈ l → snap_ok r) → Forall event_ok events →
  locate_baseline snaps events = Ok (ts, b, fold) → books_inv P b ∧ suffix fold events.
Proof.
  intros Hs He. unfold locate_baseline. destruct (load_baseline snaps) as [[ts' b']|] eqn:Hb.
  - intros [= <- <- <-]. split; [by eapply load_baseline_inv|apply drop_until_suffix].
  - pose proof (drop_until_suffix is_snapshot events) as Hsuf.
    destruct (drop_until is_snapshot events) as [|e es]; [done|].
    destruct (take_baseline _ _ _) as [b' rest] eqn:Ht. intros [= <- <- <-].
    pose proof (Forall_suffix _ _ _ Hsuf He) as Hes.
    destruct (take_baseline_inv _ _ _ _ _ Hes books_inv_empty Ht) as [? ?]. split; [done|by etrans].
Qed.

Lemma fold_books_inv t0 last e b : event_ok e → books_inv P b → books_inv P (fold_books t0 last e b).
Proof.
  intros He Hb. unfold fold_books. destruct (is_delta e); [|destruct (_ && _); [|done]];
    (apply on_side_inv; [|done]); intros t Ht.
  - by apply apply_delta_inv.
  - apply set_if_positive_inv; [done|]. destruct (_ =? _); [done|apply book_inv_nil].
Qed.

Lemma fold_events_inv ts thr t0 last b events b' :
  Forall event_ok events → books_inv P b → fold_events ts thr t0 last b events = Ok b' → books_inv P b'.
Proof.
  revert last b. induction events as [|e es IH]; intros last b He Hb; simpl; [by intros [= <-]|].
  apply Forall_cons in He as [He Hes]. repeat (case_match; [by intros; simplify_eq|]).
  apply IH; [done|]. by apply fold_books_inv.
Qed.
End book_lemmas.

(** ** Lemmas on scans *)

Section scan_lemmas.
Context {A : Type} (partition : Z → list (part_row A)) (dedup : list A → list A) (with_node : option string → A → A).
Implicit Types (r : part_row A).

Lemma read_days_ok ex sy start stop clock days rows :
  read_days partition ex sy start stop clock days = Ok rows →
  ∀ r, r ∈ rows ↔ ∃ d, d ∈ days ∧ r ∈ partition d ∧ in_window start stop clock r = true.
Proof.
  revert rows. induction days as [|d days IH]; intros rows; simpl; [intros [= <-]; set_solver|].
  destruct (partition_dir ex sy); simpl; [|done].
  destruct (read_days _ _ _ _ _ _ days) as [rest|]; simpl; [|done]. intros [= <-] r.
  rewrite elem_of_app, (IH rest eq_refl), list_elem_of_In, filter_In, <- list_elem_of_In. set_solver.
Qed.

Lemma date_range_elem start stop d : d ∈ date_range start stop ↔ day_of start <= d <= day_of stop.
Proof. unfold date_range. rewrite elem_of_seqZ. lia. Qed.

Lemma in_window_day start stop clock r :
  in_window start stop clock r = true → day_of (pr_ts r) ∈ date_range start stop.
Proof.
  unfold in_window. intros Hw. py_bool. apply date_range_elem. unfold day_of, day_us.
  split; apply Z.div_le_mono; lia.
Qed.

Lemma row_leb_total (a b : part_row A) : row_leb a b = true ∨ row_leb b a = true.
Proof. unfold row_leb. destruct (Z.lt_total (pr_ts a) (pr_ts b)) as [|[|]];
  destruct (Z.lt_total (pr_received a) (pr_received b)) as [|[|]];
  destruct (Z.lt_total (pr_file a) (pr_file b)) as [|[|]];
  rewrite !orb_true_iff, !andb_true_iff, !orb_true_iff, !andb_true_iff, !orb_true_iff, !andb_true_iff,
    !Z.ltb_lt, !Z.eqb_eq, !Z.leb_le; lia.
Qed.

Lemma row_leb_trans (a b c : part_row A) : row_leb a b = true → row_leb b c = true → row_leb a c = true.
Proof.
  unfold row_leb.
  rewrite !orb_true_iff, !andb_true_iff, !orb_true_iff, !andb_true_iff, !orb_true_iff, !andb_true_iff,
    !Z.ltb_lt, !Z.eqb_eq, !Z.leb_le. lia.
Qed.

Lemma sorted_rows_ts (rows : list (part_row A)) : StronglySorted (λ a b, pr_ts a <= pr_ts b) (sort_le row_leb rows).
Proof.
  pose proof (sort_le_sorted row_leb row_leb_total row_leb_trans rows) as Hs.
  induction Hs as [|x l Hs IH Hall]; constructor; [done|].
  eapply Forall_impl; [exact Hall|]. intros y. unfold row_leb.
  rewrite !orb_true_iff, andb_true_iff, Z.ltb_lt, Z.eqb_eq. lia.
Qed.

Lemma StronglySorted_fmap {B C} (R : C → C → Prop) (f : B → C) l :
  StronglySorted (λ x y, R (f x) (f y)) l → StronglySorted R (f <$> l).
Proof.
  induction 1 as [|x l Hs IH Hall]; simpl; constructor; [done|]. by apply Forall_fmap.
Qed.

Context {key : Type} (logical_key : A → key) (ts : A → Z).
(** What the tier's deduplication and the rows provide. *)
Context (dedup_elem : ∀ l x, x ∈ dedup l → x ∈ l)
        (dedup_keys : ∀ l x, x ∈ l → logical_key x ∈ logical_key <$> dedup l)
        (dedup_sorted : ∀ l, StronglySorted (λ a b, ts a <= ts b) (dedup l))
        (node_key : ∀ n x, logical_key (with_node n x) = logical_key x)
        (node_ts : ∀ n x, ts (with_node n x) = ts x)
        (rows_ok : ∀ d r, r ∈ partition d → ts (pr_data r) = pr_ts r ∧
           ∀ n, with_node None (with_node n (pr_data r)) = pr_data r).

Lemma emit_rows_spec rows :
  (∀ r, r ∈ rows → ∃ d, r ∈ partition d) →
  StronglySorted (λ a b, pr_ts a <= pr_ts b) rows →
  (∀ x, x ∈ emit_rows dedup with_node rows → ∃ r, r ∈ rows ∧ x = pr_data r) ∧
  (∀ r, r ∈ rows → logical_key (pr_data r) ∈ logical_key <$> emit_rows dedup with_node rows) ∧
  StronglySorted (λ a b, ts a <= ts b) (emit_rows dedup with_node rows).
Proof.
  intros Hrows Hsort. unfold emit_rows. destruct (2 <=? _)%nat.
  - split_and!.
    + intros x [y [-> Hy%dedup_elem]]%list_elem_of_fmap. apply list_elem_of_fmap in Hy as [r [-> Hr]].
      exists r. split; [done|]. destruct (Hrows r Hr) as [d Hd]. by apply (rows_ok d).
    + intros r Hr. rewrite <- list_fmap_compose.
      assert (logical_key (with_node (Some (node_of r)) (pr_data r)) ∈
        logical_key <$> dedup ((λ r, with_node (Some (node_of r)) (pr_data r)) <$> rows)) as Hk.
      { apply dedup_keys, list_elem_of_fmap. by exists r. }
      rewrite node_key in Hk. apply list_elem_of_fmap in Hk as [y [-> Hy]].
      apply list_elem_of_fmap. exists y. simpl. by rewrite node_key.
    + apply StronglySorted_fmap. eapply StronglySorted_weaken; [|apply dedup_sorted].
      intros a b. by rewrite !node_ts.
  - split_and!.
    + intros x [r [-> Hr]]%list_elem_of_fmap. eauto.
    + intros r Hr. by apply list_elem_of_fmap_2, list_elem_of_fmap_2.
    + apply StronglySorted_fmap.
      assert (Forall (λ r, ts (pr_data r) = pr_ts r) rows) as Hts.
      { apply Forall_forall. intros r Hr. destruct (Hrows r Hr) as [d Hd]. by apply (rows_ok d). }
      clear Hrows. induction Hsort as [|r l Hs IH Hall]; [constructor|].
      apply Forall_cons in Hts as [Hr Hts]. constructor; [by apply IH|].
      apply Forall_forall. intros y Hy. rewrite Forall_forall in Hall, Hts. rewrite Hr, Hts by done. auto.
Qed.

Lemma scan_spec ex sy aware start stop clock out :
  scan partition dedup with_node ex sy aware start stop clock = Ok out →
  (∀ x, x ∈ out → ∃ d r, r ∈ partition d ∧ in_window start stop clock r = true ∧ x = pr_data r) ∧
  (∀ r, r ∈ partition (day_of (pr_ts r)) → in_window start stop clock r = true →
     logical_key (pr_data r) ∈ logical_key <$> out) ∧
  StronglySorted (λ a b, ts a <= ts b) out.
Proof.
  unfold scan. destruct aware; [|done].
  destruct (read_days _ _ _ _ _ _ _) as [rows|] eqn:Hr; simpl; [|done]. intros [= <-].
  pose proof (read_days_ok _ _ _ _ _ _ _ Hr) as Hel.
  assert (∀ r, r ∈ sort_le row_leb rows ↔ r ∈ rows) as Hs by (intros r; by rewrite sort_le_perm).
  destruct (emit_rows_spec (sort_le row_leb rows)) as (H1&H2&H3).
  - intros r [d (_&?&_)]%Hs%Hel. by exists d.
  - apply sorted_rows_ts.
  - split_and!; [|intros r Hp Hw; apply H2, Hs, Hel; eauto using in_window_day|done].
    intros x (r&[d (_&?&?)]%Hs%Hel&->)%H1. by exists d, r.
Qed.
End scan_lemmas.

(** Rows as the reader builds them: the timestamp column is the event's, the
    node comes from the path and not from the row. *)
Definition partition_ok (partition : Z → list (part_row ob_event)) : Prop :=
  ∀ d r, r ∈ partition d → o_ts_utc (pr_data r) = pr_ts r ∧ o_node_id (pr_data r) = None.

Lemma scan_orderbook_spec partition monotonic now ex sy aware start stop clock out :
  partition_ok partition →
  scan_orderbook_events partition monotonic now ex sy aware start stop clock = Ok out →
  (∀ e, e ∈ out → ∃ d r, r ∈ partition d ∧ in_window start stop clock r = true ∧ e = pr_data r) ∧
  (∀ r, r ∈ partition (day_of (pr_ts r)) → in_window start stop clock r = true →
     orderbook_logical_key (pr_data r) ∈ orderbook_logical_key <$> out) ∧
  StronglySorted (λ a b, o_ts_utc a <= o_ts_utc b) out.
Proof.
  intros Hp. unfold scan_orderbook_events.
  pose proof (λ rows, deduplicate_mismatch_rows orderbook_logical_key o_ts_utc o_raw_json o_node_id "orderbook"
    rows false monotonic now) as Hd.
  apply (scan_spec partition _ event_with_node orderbook_logical_key o_ts_utc).
  - intros l x. apply (Hd l).
  - intros l x. apply (Hd l).
  - intros l. apply (Hd l).
  - by intros n [].
  - by intros n [].
  - intros d r Hr. destruct (Hp d r Hr) as [Hts Hn]. split; [done|]. intros n.
    destruct (pr_data r). simpl in Hn. by subst.
Qed.

(** ** Lemmas on the fold *)

(** The events the fold reaches. *)
Fixpoint used (ts_utc : Z) (events : list ob_event) : list ob_event :=
  match events with [] => [] | e :: es => if ts_utc <? o_ts_utc e then [] else e :: used ts_utc es end.

(** Consecutive events neither go back nor leave a gap. *)
Fixpoint gaps_ok (threshold last : Z) (events : list ob_event) : Prop :=
  match events with
  | [] => True
  | e :: es => 0 <= o_ts_utc e - last <= threshold ∧ gaps_ok threshold (o_ts_utc e) es
  end.

Lemma fold_events_ok ts thr t0 last b events :
  0 <= thr → ((∃ b', fold_events ts thr t0 last b events = Ok b') ↔ gaps_ok thr last (used ts events)).
Proof.
  intros Hthr. revert last b. induction events as [|e es IH]; intros last b; simpl; [split; eauto|].
  destruct (Z.ltb_spec ts (o_ts_utc e)); [split; simpl; eauto|]. simpl.
  destruct (Z.ltb_spec thr (o_ts_utc e - last)); [split; [by intros [? ?]|lia]|].
  destruct (Z.ltb_spec (o_ts_utc e) last); [split; [by intros [? ?]|lia]|].
  rewrite IH. split; [split; [lia|done]|tauto].
Qed.

(** The quantity the deltas last gave a price on a side. *)
Definition touches (side : string) (k : Z * Z) (e : ob_event) : bool :=
  Bool.eqb (String.eqb (o_side e) "bid") (String.eqb side "bid") && bool_decide (dkey (o_price e) = k).
Fixpoint last_quantity (side : string) (k : Z * Z) (acc : option decimal) (events : list ob_event) : option decimal :=
  match events with
  | [] => acc
  | e :: es => last_quantity side k (if touches side k e then Some (o_quantity e) else acc) es
  end.

Lemma dget_dremove (b : book) k k' : dict_wf b → dget (dremove b k) k' = if decide (k = k') then None else dget b k'.
Proof.
  intros Hwf. destruct (decide (k = k')) as [<-|Hne].
  - apply dget_None. rewrite dkeys_dremove by done. tauto.
  - destruct (dget b k') as [v|] eqn:Hv.
    + apply elem_dget; [by apply dict_wf_dremove|]. apply dremove_elem; [done|].
      split; [by apply dget_Some_elem|]. simpl. congruence.
    + apply dget_None. rewrite dkeys_dremove by done. apply dget_None in Hv. tauto.
Qed.

Lemma apply_delta_dget p q (b : book) k :
  dict_wf b → dget (apply_delta p q b) k =
    if decide (dkey p = k) then (if coef q =? 0 then None else Some q) else dget b k.
Proof.
  intros Hwf. unfold apply_delta. destruct (coef q =? 0); [by apply dget_dremove|].
  destruct (decide (dkey p = k)) as [<-|]; [by rewrite dget_dset_eq|by rewrite dget_dset_ne].
Qed.

Lemma fold_books_dget t0 last e b side k :
  is_delta e = true → books_inv (λ _ _, True) b →
  dget (side_of side (fold_books t0 last e b)) k =
    if touches side k e then (if coef (o_quantity e) =? 0 then None else Some (o_quantity e))
    else dget (side_of side b) k.
Proof.
  intros Hd [[Hb _] [Ha _]]. unfold fold_books, touches. rewrite Hd. unfold on_side, side_of.
  destruct (String.eqb (o_side e) "bid"), (String.eqb side "bid"); simpl; try done;
    rewrite apply_delta_dget by done; case_bool_decide; by case_decide.
Qed.

(** Folding deltas: the last write of a price wins. *)
Lemma fold_events_last_write ts thr t0 last b events b' side k :
  books_inv (λ _ _, True) b → Forall (λ e, is_delta e = true) (used ts events) →
  fold_events ts thr t0 last b events = Ok b' →
  ∀ acc, (match acc with Some q => if coef q =? 0 then None else Some q | None => dget (side_of side b) k end)
           = dget (side_of side b) k →
  dget (side_of side b') k =
    match last_quantity side k acc (used ts events) with
    | Some q => if coef q =? 0 then None else Some q
    | None => dget (side_of side b) k
    end.
Proof.
  revert last b. induction events as [|e es IH]; intros last b Hb; simpl; [by intros _ [= ->] acc ->|].
  destruct (ts <? o_ts_utc e); simpl; [by intros _ [= ->] acc ->|]. intros [He Hes]%Forall_cons.
  destruct (thr <? _); [done|]. destruct (_ <? last); [done|]. intros Hf acc Hacc.
  assert (books_inv (λ _ _, True) (fold_books t0 last e b)) as Hb1 by by apply fold_books_inv.
  pose proof (fold_books_dget t0 last e b side k He Hb) as Hg.
  destruct (touches side k e).
  - specialize (IH _ _ Hb1 Hes Hf (Some (o_quantity e))). rewrite Hg in IH. specialize (IH eq_refl). rewrite IH.
    destruct (last_quantity _ _ _ _) eqn:Hl; [done|]. exfalso. revert Hl. clear.
    generalize (o_quantity e). induction (used ts es) as [|x l IH]; intros q; simpl; [done|].
    destruct (touches side k x); apply IH.
  - rewrite <- Hg in Hacc. specialize (IH _ _ Hb1 Hes Hf acc). rewrite Hg in IH, Hacc. rewrite IH; done.
Qed.

(** ** Lemmas on levels *)

Lemma to_levels_elem (b : book) leb k q :
  Level (key_price k) q ∈ to_levels (sort_le leb b) ↔ (k, q) ∈ b.
Proof.
  unfold to_levels. rewrite list_elem_of_fmap. split.
  - intros ([[c x] q']&Heq&Hin). rewrite sort_le_perm in Hin. destruct k as [c' x'].
    unfold key_price in Heq. simpl in Heq. by simplify_eq.
  - intros Hin. exists (k, q). by rewrite sort_le_perm.
Qed.

(** Sorting by a key that tells the entries apart is strict. *)
Lemma strictly_sorted {A K} (leb : A → A → bool) (f : A → K) (R : A → A → Prop) (l : list A) :
  NoDup (f <$> l) → (∀ x y, x ∈ l → y ∈ l → f x ≠ f y → leb x y = true → R x y) →
  StronglySorted (λ x y, leb x y = true) l → StronglySorted R l.
Proof.
  intros Hnd HR Hs. induction Hs as [|x l Hs IH Hall]; constructor.
  - simpl in Hnd. apply NoDup_cons in Hnd as [_ Hnd]. apply IH; [done|]. intros; apply HR; auto; by right.
  - simpl in Hnd. apply NoDup_cons in Hnd as [Hx _]. rewrite Forall_forall in Hall.
    apply Forall_forall. intros y Hy. apply HR; [by left|by right| |auto].
    intros Heq. apply Hx. rewrite Heq. by apply list_elem_of_fmap_2.
Qed.

(** What a level key must satisfy: canonical, and within the precision the
    bid sort rounds to. *)
Definition key_ok (k : Z * Z) (q : decimal) : Prop :=
  dkey (key_price k) = k ∧ Z.abs k.1 < 10 ^ prec ∧ coef q ≠ 0.

Lemma distinct_keys_lt k k' q q' :
  key_ok k q → key_ok k' q' → k ≠ k' → dleb (key_price k) (key_price k') = true →
  dltb (key_price k) (key_price k') = true.
Proof.
  intros (Hk&_) (Hk'&_) Hne Hle. rewrite dleb_lt_eq in Hle. apply orb_true_iff in Hle as [|Heq]; [done|].
  apply dkey_deqb in Heq. congruence.
Qed.

Lemma dleb_neg a b : dleb (Dec (- coef a) (expo a)) (Dec (- coef b) (expo b)) = dleb b a.
Proof.
  unfold dleb, dcmp, dscale. simpl. rewrite (Z.min_comm (expo b)), !Z.mul_opp_l, Z.compare_opp. done.
Qed.

Lemma bid_leb_ok x y :
  key_ok x.1 x.2 → key_ok y.1 y.2 → bid_leb x y = dleb (key_price y.1) (key_price x.1).
Proof.
  intros (_&Hx&_) (_&Hy&_). unfold bid_leb, neg_price.
  rewrite !dfix_small by (simpl; lia). apply (dleb_neg (key_price x.1) (key_price y.1)).
Qed.

Definition snapshot_ok (s : OrderbookSnapshot) : Prop :=
  StronglySorted (λ x y, dltb (lv_price y) (lv_price x) = true) (sn_bids s) ∧
  StronglySorted (λ x y, dltb (lv_price x) (lv_price y) = true) (sn_asks s) ∧
  Forall (λ l, coef (lv_quantity l) ≠ 0) (sn_bids s ++ sn_asks s).

Lemma ask_leb_sorted (l : book) : StronglySorted (λ x y, ask_leb x y = true) (sort_le ask_leb l).
Proof. apply sort_le_sorted; unfold ask_leb; intros *; [apply dleb_total|apply dleb_trans]. Qed.
Lemma bid_leb_sorted (l : book) : StronglySorted (λ x y, bid_leb x y = true) (sort_le bid_leb l).
Proof. apply sort_le_sorted; unfold bid_leb; intros *; [apply dleb_total|apply dleb_trans]. Qed.

Lemma sorted_book (leb : (Z * Z) * decimal → (Z * Z) * decimal → bool) (b : book) :
  book_inv key_ok b →
  NoDup (fst <$> sort_le leb b) ∧ (∀ x, x ∈ sort_le leb b → key_ok x.1 x.2).
Proof.
  intros [Hwf Hb]. split; [by rewrite sort_le_perm|].
  intros [k q] Hin. apply Hb. by rewrite sort_le_perm in Hin.
Qed.

Lemma snapshot_levels_ok ts b :
  books_inv key_ok b →
  snapshot_ok (MkSnapshot ts (to_levels (sort_le bid_leb (bk_bids b))) (to_levels (sort_le ask_leb (bk_asks b)))).
Proof.
  intros [Hb Ha]. destruct (sorted_book bid_leb _ Hb) as [Hnb Hkb], (sorted_book ask_leb _ Ha) as [Hna Hka].
  split_and!; simpl.
  - apply StronglySorted_fmap. simpl.
    apply (strictly_sorted bid_leb fst); [done| |apply bid_leb_sorted].
    intros x y Hx Hy Hne. rewrite bid_leb_ok by auto. by eapply distinct_keys_lt; auto.
  - apply StronglySorted_fmap. simpl.
    apply (strictly_sorted ask_leb fst); [done| |apply ask_leb_sorted].
    intros x y Hx Hy Hne. by eapply distinct_keys_lt; auto.
  - apply Forall_app. split; apply Forall_fmap, Forall_forall; intros x Hx; simpl; [apply Hkb in Hx|apply Hka in Hx]; apply Hx.
Qed.

(** ** Concrete data for the witnesses *)

Definition ev (ts : Z) (type side : string) (price quantity : Z) : ob_event :=
  ObEvent "upbit" "KRW-BTC" ts ts type side 0 (dint price) (dint quantity) None None.
Definition part_of (events : list ob_event) (d : Z) : list (part_row ob_event) :=
  if d =? 0 then imap (λ i e, PartRow (o_ts_utc e) (o_received_at e) 0 (Z.of_nat i) e None) events else [].
Definition no_clock (n : nat) : Z := 0.
Definition example_events : list ob_event :=
  [ev 10 "snapshot" "bid" 100 5; ev 10 "snapshot" "ask" 101 7; ev 20 "delta" "bid" 99 3;
   ev 30 "delta" "bid" 100 0; ev 40 "delta" "ask" 101 9].

Lemma part_of_ok events : Forall (λ e, o_node_id e = None) events → partition_ok (part_of events).
Proof.
  intros Hn d r. unfold part_of. destruct (d =? 0); [|intros Hr; inversion Hr].
  intros (i&e&->&He)%elem_of_lookup_imap. simpl. split; [done|].
  rewrite Forall_forall in Hn. apply Hn. by eapply list_elem_of_lookup_2.
Qed.

(** ** Properties *)

(** A scan shows exactly the rows it may show, in order: every event
    comes from a stored row inside [[start, stop)] that was received by the
    simulated clock; every such row's logical key is among the events; events
    are in time order. *)
Theorem scan_shows_only_available_rows (partition : Z → list (part_row ob_event)) (monotonic : nat → Z) (now : Z)
    (exchange symbol : string) (aware : bool) (start stop : Z) (clock : option Z) (events : list ob_event) :
  partition_ok partition →
  scan_orderbook_events partition monotonic now exchange symbol aware start stop clock = Ok events →
  (∀ e, e ∈ events → ∃ d r, r ∈ partition d ∧ e = pr_data r ∧
     start <= o_ts_utc e < stop ∧ (∀ c, clock = Some c → pr_received r <= c)) ∧
  (∀ r, r ∈ partition (day_of (pr_ts r)) → start <= pr_ts r < stop → (∀ c, clock = Some c → pr_received r <= c) →
     orderbook_logical_key (pr_data r) ∈ orderbook_logical_key <$> events) ∧
  StronglySorted (λ a b, o_ts_utc a <= o_ts_utc b) events.
Proof.
  intros Hp Hs. destruct (scan_orderbook_spec _ _ _ _ _ _ _ _ _ _ Hp Hs) as (H1&H2&H3). split_and!; [| |done].
  - intros e (d&r&Hr&Hw&->)%H1. exists d, r. destruct (Hp d r Hr) as [-> _]. unfold in_window in Hw.
    py_bool. split_and!; [done|done|lia|lia|]. intros c ->. by apply Z.leb_le.
  - intros r Hr Hw Hc. apply H2; [done|]. unfold in_window. destruct clock as [c|].
    + rewrite !andb_true_iff, !Z.leb_le, Z.ltb_lt. split; [lia|by apply Hc].
    + rewrite !andb_true_iff, Z.leb_le, Z.ltb_lt. split; [lia|done].
Qed.

Lemma scan_shows_only_available_rows_witness :
  StronglySorted (λ a b, o_ts_utc a <= o_ts_utc b)
    [ev 10 "snapshot" "bid" 100 5; ev 10 "snapshot" "ask" 101 7; ev 20 "delta" "bid" 99 3].
Proof.
  apply (scan_shows_only_available_rows (part_of example_events) no_clock 0 "upbit" "KRW-BTC" true 0 50 (Some 25));
    [apply part_of_ok; repeat constructor|vm_compute; reflexivity].
Defined.

(** C37.  A reconstructed book is well formed: bids strictly fall, asks strictly
    rise, and no level is empty, for all stored prices of at most 28 digits. *)
Theorem orderbook_is_well_formed (partition : Z → list (part_row ob_event)) (monotonic : nat → Z) (now : Z)
    (snaps : Z → Z → option Z → res (list snap_row)) (exchange symbol : string) (aware : bool)
    (ts_utc : Z) (clock : option Z) (threshold : Z) (s : OrderbookSnapshot) :
  partition_ok partition →
  (∀ d r, r ∈ partition d → Z.abs (coef (o_price (pr_data r))) < 10 ^ prec) →
  (∀ a b c l r, snaps a b c = Ok l → r ∈ l → Z.abs (coef (s_price r)) < 10 ^ prec) →
  get_orderbook_at partition monotonic now snaps exchange symbol aware ts_utc clock threshold = Ok s →
  StronglySorted (λ x y, dltb (lv_price y) (lv_price x) = true) (sn_bids s) ∧
  StronglySorted (λ x y, dltb (lv_price x) (lv_price y) = true) (sn_asks s) ∧
  Forall (λ l, coef (lv_quantity l) ≠ 0) (sn_bids s ++ sn_asks s).
Proof.
  intros Hp Hprice Hsnap. unfold get_orderbook_at. destruct aware; [|done].
  destruct (scan_orderbook_events _ _ _ _ _ _ _ _ _) as [events|] eqn:Hs; simpl; [|done].
  destruct (scan_orderbook_spec _ _ _ _ _ _ _ _ _ _ Hp Hs) as (Hel&_&_).
  assert (∀ p q, Z.abs (coef p) < 10 ^ prec → entry_ok key_ok p q) as Hentry.
  { intros p q Hlt Hq. split_and!; [apply dkey_key_price| |done]. pose proof (dkey_coef_le p). lia. }
  unfold reconstruct. destruct (locate_baseline _ events) as [[[t0 b] fold]|] eqn:Hl; simpl; [|done].
  assert (Forall (event_ok key_ok) events) as Hev.
  { apply Forall_forall. intros e (d&r&Hr&_&->)%Hel. apply Hentry. by eapply Hprice. }
  apply (locate_baseline_inv key_ok) in Hl as [Hb Hsuf]; [|intros l r Hx Hr; apply Hentry; by eapply Hsnap|done].
  destruct (fold_events _ _ _ _ _ _) as [b'|] eqn:Hf; simpl; [|done]. intros [= <-].
  apply (fold_events_inv key_ok) in Hf; [|by eapply Forall_suffix|done].
  by apply snapshot_levels_ok.
Qed.

Lemma orderbook_is_well_formed_witness :
  StronglySorted (λ x y, dltb (lv_price y) (lv_price x) = true) [Level (Dec 99 0) (dint 3)] ∧
  StronglySorted (λ x y, dltb (lv_price x) (lv_price y) = true) [Level (Dec 101 0) (dint 9)] ∧
  Forall (λ l, coef (lv_quantity l) ≠ 0) ([Level (Dec 99 0) (dint 3)] ++ [Level (Dec 101 0) (dint 9)]).
Proof.
  apply (orderbook_is_well_formed (part_of example_events) no_clock 0 (λ _ _ _, Raise OSErrorOther) "upbit" "KRW-BTC"
    true 45 None 300 (MkSnapshot 45 [Level (Dec 99 0) (dint 3)] [Level (Dec 101 0) (dint 9)])).
  - apply part_of_ok. repeat constructor.
  - intros d r. unfold part_of. destruct (d =? 0); [|intros Hr; inversion Hr].
    intros (i&e&->&He)%elem_of_lookup_imap. simpl. apply list_elem_of_lookup_2 in He. revert He.
    apply (proj1 (Forall_forall (λ e, Z.abs (coef (o_price e)) < 10 ^ prec) _)). repeat constructor.
  - done.
  - vm_compute. reflexivity.
Defined.

(** Reconstruction fails closed, and only then: with a baseline, a book is
    returned exactly when the events folded up to [ts_utc] never go back in
    time and never leave a gap above the threshold; without one the call
    raises. *)
Theorem reconstruction_fails_closed (snaps : res (list snap_row)) (events : list ob_event) (ts_utc threshold : Z) :
  0 <= threshold →
  (∃ s, reconstruct snaps events ts_utc threshold = Ok s) ↔
  (∃ t0 b fold, locate_baseline snaps events = Ok (t0, b, fold) ∧ gaps_ok threshold t0 (used ts_utc fold)).
Proof.
  intros Hthr. unfold reconstruct. destruct (locate_baseline snaps events) as [[[t0 b] fold]|e]; simpl.
  - pose proof (fold_events_ok ts_utc threshold t0 t0 b fold Hthr) as Hok. split.
    + intros [s Hs]. exists t0, b, fold. split; [done|]. apply Hok.
      destruct (fold_events _ _ _ _ _ _) as [b'|]; [by exists b'|done].
    + intros (t0'&b'&fold'&[= <- <- <-]&[b1 ->]%Hok). by eexists.
  - split; [by intros [? ?]|by intros (?&?&?&?&_)].
Qed.

Lemma reconstruction_fails_closed_witness :
  (∃ s, reconstruct (Ok []) example_events 45 300 = Ok s) ↔
  (∃ t0 b fold, locate_baseline (Ok []) example_events = Ok (t0, b, fold) ∧ gaps_ok 300 t0 (used 45 fold)).
Proof. apply (reconstruction_fails_closed (Ok []) example_events 45 300). lia. Defined.

(** The fold means what a reader expects: when the folded events are
    deltas, a price shows on a side of the result exactly with the quantity the
    last delta of that price and side gave it, not at all if that is zero, and
    with its baseline quantity if no delta touched it. *)
Theorem last_delta_wins (snaps : res (list snap_row)) (events : list ob_event) (ts_utc threshold : Z)
    (t0 : Z) (b : books) (fold : list ob_event) (s : OrderbookSnapshot) (side : string) (k : Z * Z) (q : decimal) :
  locate_baseline snaps events = Ok (t0, b, fold) →
  Forall (λ e, is_delta e = true) (used ts_utc fold) →
  reconstruct snaps events ts_utc threshold = Ok s →
  Level (key_price k) q ∈ (if String.eqb side "bid" then sn_bids s else sn_asks s) ↔
  match last_quantity side k None (used ts_utc fold) with
  | Some q' => q' = q ∧ coef q' ≠ 0
  | None => dget (side_of side b) k = Some q
  end.
Proof.
  intros Hl Hd. unfold reconstruct. rewrite Hl. simpl.
  assert (books_inv (λ _ _, True) b) as Hb.
  { eapply (locate_baseline_inv (λ _ _, True)); [| |exact Hl]; [by intros ? ? _ _ ?|by apply Forall_true]. }
  destruct (fold_events _ _ _ _ _ _) as [b'|] eqn:Hf; simpl; [|done]. intros [= <-]. simpl.
  pose proof (fold_events_last_write _ _ _ _ _ _ _ side k Hb Hd Hf None eq_refl) as Hg.
  assert (books_inv (λ _ _, True) b') as Hb' by (eapply fold_events_inv; [|done|done]; by apply Forall_true).
  assert (Level (key_price k) q ∈ (if String.eqb side "bid" then to_levels (sort_le bid_leb (bk_bids b'))
    else to_levels (sort_le ask_leb (bk_asks b'))) ↔ dget (side_of side b') k = Some q) as ->.
  { unfold side_of. destruct Hb' as [[? _] [? _]].
    destruct (String.eqb side "bid"); rewrite to_levels_elem; (split; [by apply elem_dget|apply dget_Some_elem]). }
  rewrite Hg. destruct (last_quantity _ _ _ _) as [q'|]; [|done].
  destruct (Z.eqb_spec (coef q') 0); naive_solver.
Qed.

Lemma last_delta_wins_witness :
  Level (key_price (99, 0)) (dint 3) ∈ [Level (Dec 99 0) (dint 3)] ↔ dint 3 = dint 3 ∧ coef (dint 3) ≠ 0.
Proof.
  refine (last_delta_wins (Ok []) example_events 45 300 10
    (Books [((1, 2), dint 5)] [((101, 0), dint 7)]) [ev 20 "delta" "bid" 99 3; ev 30 "delta" "bid" 100 0; ev 40 "delta" "ask" 101 9]
    (MkSnapshot 45 [Level (Dec 99 0) (dint 3)] [Level (Dec 101 0) (dint 9)]) "bid" (99, 0) (dint 3) _ _ _).
  - vm_compute. reflexivity.
  - repeat constructor.
  - vm_compute. reflexivity.
Defined.

(** Look-ahead: the baseline is not compared with [ts_utc].  When the first
    snapshot of the day is later than the requested time, the call returns the
    book of that later snapshot, stamped with the earlier time. *)
Theorem baseline_may_be_in_the_future (ts_utc later threshold price quantity : Z) :
  ts_utc < later → 0 < quantity →
  reconstruct (Ok []) [ev later "snapshot" "bid" price quantity] ts_utc threshold =
  Ok (MkSnapshot ts_utc [Level (key_price (dkey (dint price))) (dint quantity)] []).
Proof.
  intros Hlt Hq. unfold reconstruct, locate_baseline. simpl. rewrite Z.eqb_refl. simpl.
  unfold set_if_positive. simpl. by rewrite (proj2 (Z.ltb_lt 0 quantity)).
Qed.

Lemma baseline_may_be_in_the_future_witness :
  reconstruct (Ok []) [ev 500 "snapshot" "bid" 100 5] 100 300 =
  Ok (MkSnapshot 100 [Level (key_price (dkey (dint 100))) (dint 5)] []).
Proof. apply (baseline_may_be_in_the_future 100 500 300 100 5); lia. Defined.

(** A mid-day snapshot re-baselines only the side of its first event: the
    following event of the group already finds [last_ts] advanced, so the
    other side keeps its stale levels, and the result can be crossed. *)
Theorem midday_rebaseline_keeps_stale_side :
  reconstruct (Ok [])
    [ev 10 "snapshot" "bid" 100 5; ev 10 "snapshot" "ask" 101 7;
     ev 20 "snapshot" "bid" 110 5; ev 20 "snapshot" "ask" 111 7] 30 300 =
  Ok (MkSnapshot 30 [Level (Dec 11 1) (dint 5)] [Level (Dec 101 0) (dint 7); Level (Dec 111 0) (dint 7)]).
Proof. vm_compute. reflexivity. Qed.

Lemma gaps_from_spec threshold last ts :
  StronglySorted Z.le (last :: ts) →
  (∀ g, g ∈ gaps_from threshold last ts →
     threshold < before_ts g - after_ts g ∧ gap_us g = before_ts g - after_ts g ∧
     after_ts g ∈ last :: ts ∧ before_ts g ∈ last :: ts ∧
     ∀ t, t ∈ last :: ts → t <= after_ts g ∨ before_ts g <= t) ∧
  (∀ i a b, (last :: ts) !! i = Some a → (last :: ts) !! S i = Some b → threshold < b - a →
     MkGap a b (b - a) ∈ gaps_from threshold last ts).
Proof.
  revert last. induction ts as [|t ts IH]; intros last Hs; simpl; [split; [intros g Hg; inversion Hg|by intros [|i]]|].
  apply StronglySorted_inv in Hs as [Hs Hall]. destruct (IH t Hs) as [IH1 IH2].
  pose proof Hs as Hs'. apply StronglySorted_inv in Hs' as [_ Hall'].
  rewrite Forall_forall in Hall, Hall'. split.
  - intros g [Hg|Hg]%elem_of_app.
    + destruct (Z.ltb_spec threshold (t - last)); [|inversion Hg]. apply list_elem_of_singleton in Hg as ->. simpl.
      split_and!; [lia|done|by left|by right; left|].
      intros x [->|[->|Hx]%elem_of_cons]%elem_of_cons; [lia|lia|right; auto].
    + destruct (IH1 g Hg) as (?&?&Ha&Hb&Hx). split_and!; [done|done|by right|by right|].
      intros x [->|Hin]%elem_of_cons; [left; by apply Hall|by apply Hx].
  - intros [|i] a b; simpl; intros; simplify_eq.
    + apply elem_of_app. left. rewrite (proj2 (Z.ltb_lt _ _)) by done. by left.
    + apply elem_of_app. right. by apply (IH2 i).
Qed.

(** The coverage report is exact: its bounds are the least and greatest
    timestamps, its gaps are over the threshold and contain no event, and
    every stretch of consecutive events over the threshold is listed. *)
Theorem coverage_gaps_exact (event_ts : list Z) (threshold : Z) :
  let r := tier_coverage event_ts threshold in
  let timestamps := sorted_by id event_ts in
  (∀ t, t ∈ event_ts → ∃ lo hi, cv_min r = Some lo ∧ cv_max r = Some hi ∧ lo <= t <= hi) ∧
  (∀ g, g ∈ cv_gaps r → threshold < before_ts g - after_ts g ∧ after_ts g ∈ event_ts ∧ before_ts g ∈ event_ts ∧
     ∀ t, t ∈ event_ts → t <= after_ts g ∨ before_ts g <= t) ∧
  (∀ i a b, timestamps !! i = Some a → timestamps !! S i = Some b → threshold < b - a →
     MkGap a b (b - a) ∈ cv_gaps r).
Proof.
  intros r timestamps. subst r. unfold tier_coverage. fold timestamps. simpl.
  assert (∀ t, t ∈ event_ts ↔ t ∈ timestamps) as Hin by (intros t; unfold timestamps; by rewrite sorted_by_perm).
  pose proof (sorted_by_sorted id event_ts) as Hs. fold timestamps in Hs. unfold id in Hs.
  destruct timestamps as [|t0 ts]; simpl; [split_and!; try set_solver; by intros [|i]|].
  destruct (gaps_from_spec threshold t0 ts Hs) as [Hg Hc]. split_and!; [| |done].
  - intros t Ht%Hin. destruct (last_is_Some (t0 :: ts)) as [_ [hi Hhi]]; [done|].
    exists t0, hi. split_and!; [done|done| |].
    + apply StronglySorted_inv in Hs as [_ Hall]. rewrite Forall_forall in Hall.
      apply elem_of_cons in Ht as [->|Ht]; [lia|by apply Hall].
    + clear -Hs Ht Hhi. apply last_Some in Hhi as [l Hl]. rewrite Hl in *. clear Hl.
      induction l as [|x l IH]; [apply list_elem_of_singleton in Ht as ->; lia|].
      simpl in Hs. apply StronglySorted_inv in Hs as [Hs Hall]. rewrite Forall_forall in Hall.
      apply elem_of_cons in Ht as [->|Ht]; [apply Hall; set_solver|by apply IH].
  - intros g Hgin. destruct (Hg g Hgin) as (?&_&?&?&Hx). split_and!; [done|by apply Hin|by apply Hin|].
    intros t Ht%Hin. by apply Hx.
Qed.
