(* ===== verification/Wal.v ===== *)
(** * Write-ahead log ([wal/segment.py], [wal/ingester.py], [wal/replay.py])

    Segment names, the append-only ingester with its fsync windows and
    back-pressure, and the atomic replace of a Parquet file.  A segment file is
    named by its bucket index and its state; of a file the model keeps its
    lines and how many of them have been fsynced.  The readings of the two
    clocks are arguments of an operation; [os.*] calls do not fail except in
    [atomic_replace_parquet]. *)
From S2P Require Import Prelude NasKey.
Open Scope string_scope.
Open Scope list_scope.
Open Scope Z_scope.

(** ** Segment names ([wal/segment.py]) *)

Definition SEGMENT_SECONDS : Z := 300.

(** [int(ts // segment_seconds)], [ts] in microseconds. *)
Definition segment_index (ts segment_seconds : Z) : Z := ts / (segment_seconds * 1000000).

(** [n] in decimal with [width] digits (all segment fields fit). *)
Fixpoint pad (width : nat) (n : Z) : string :=
  match width with
  | O => ""
  | S w => pad w (n / 10) +:+ String (Ascii.ascii_of_nat (48 + Z.to_nat (n mod 10))) ""
  end.

(** Year, month, day of a day count since 1970-01-01 (proleptic Gregorian). *)
Definition civil (days : Z) : Z * Z * Z :=
  let z := days + 719468 in
  let era := z / 146097 in
  let doe := z mod 146097 in
  let yoe := (doe - doe / 1460 + doe / 36524 - doe / 146096) / 365 in
  let doy := doe - (365 * yoe + yoe / 4 - yoe / 100) in
  let mp := (5 * doy + 2) / 153 in
  let d := doy - (153 * mp + 2) / 5 + 1 in
  let m := if mp <? 10 then mp + 3 else mp - 9 in
  (yoe + era * 400 + (if m <=? 2 then 1 else 0), m, d).

(** [datetime.fromtimestamp(secs, tz=utc).strftime("%Y%m%dT%H%M%SZ")] *)
Definition format_ts (secs : Z) : string :=
  let '(y, m, d) := civil (secs / 86400) in
  let s := secs mod 86400 in
  pad 4 y +:+ pad 2 m +:+ pad 2 d +:+ "T" +:+ pad 2 (s / 3600) +:+ pad 2 (s mod 3600 / 60) +:+ pad 2 (s mod 60) +:+ "Z".

(** The file name of [active_segment_path] *)
Definition active_segment_name (start_idx segment_seconds : Z) (node_id : string) : string :=
  "segment-" +:+ format_ts (start_idx * segment_seconds) +:+ "-" +:+ node_id +:+ ".ndjson".
Definition seal_path (active : string) : string := active +:+ ".sealed".
Definition compacted_path (sealed : string) : string := sealed +:+ ".compacted".

Fixpoint string_rev_acc (s acc : string) : string :=
  match s with EmptyString => acc | String a s' => string_rev_acc s' (String a acc) end.
Definition string_rev (s : string) : string := string_rev_acc s "".

(** [s.endswith(suffix)] *)
Definition endswith (suffix s : string) : bool := String.prefix (string_rev suffix) (string_rev s).

Definition is_active (name : string) : bool := endswith ".ndjson" name && negb (endswith ".sealed" name).
Definition is_sealed (name : string) : bool := endswith ".ndjson.sealed" name && negb (endswith ".compacted" name).
Definition is_compacted (name : string) : bool := endswith ".ndjson.sealed.compacted" name.

(** [name[:-len(suffix)]] *)
Definition drop_suffix (suffix name : string) : string :=
  String.substring 0 (String.length name - String.length suffix) name.

Definition strip_segment_suffixes (name : string) : string :=
  match List.find (λ suffix, endswith suffix name) [".ndjson.sealed.compacted"; ".ndjson.sealed"; ".ndjson"] with
  | Some suffix => drop_suffix suffix name
  | None => name
  end.

Definition dash : Ascii.ascii := Ascii.ascii_of_nat 45.
(** The text before and after the first dash. *)
Fixpoint split_dash (s : string) : option (string * string) :=
  match s with
  | EmptyString => None
  | String a s' =>
      if Ascii.eqb a dash then Some ("", s')
      else match split_dash s' with Some (x, y) => Some (String a x, y) | None => None end
  end.
(** [s.split("-", 2)] *)
Definition split_dash2 (s : string) : list string :=
  match split_dash s with
  | None => [s]
  | Some (a, r) => match split_dash r with None => [a; r] | Some (b, r') => [a; b; r'] end
  end.

Definition parse_node_id_from_segment (name : string) : string :=
  match split_dash2 (strip_segment_suffixes name) with [_; _; n] => n | _ => "DEFAULT" end.
Definition parse_ts_from_segment (name : string) : res string :=
  match split_dash2 (strip_segment_suffixes name) with
  | [p; ts; _] => if String.eqb p "segment" then Ok ts else Raise ValueError
  | _ => Raise ValueError
  end.

(** ** The ingester ([wal/ingester.py]) *)

Inductive seg_file := Active (idx : Z) | Sealed (idx : Z).
#[export] Instance seg_file_eq_dec : EqDecision seg_file.
Proof. solve_decision. Defined.
#[export] Instance seg_file_countable : Countable seg_file.
Proof.
  refine (inj_countable' (λ f, match f with Active i => inl i | Sealed i => inr i end)
    (λ x, match x with inl i => Active i | inr i => Sealed i end) _).
  by intros [].
Defined.

Record wal_file := WalFile { wf_lines : list string; wf_synced : nat }.
Notation wal_fs := (gmap seg_file wal_file).

Record wal_config := WalConfig {
  fsync_batch : Z; segment_seconds : Z; fsync_window_ms : option Z; fsync_window_msgs : option Z;
  buffer_max_msgs : option Z }.

(** [ig_current]: the index of the open active file ([_fd], [_current_path]). *)
Record ingester := Ingester {
  ig_current : option Z; ig_start_idx : Z; ig_write_count : Z; ig_writes_since_fsync : Z;
  ig_last_fsync : Z; ig_closed : bool }.

(** Readings of [time.time()] and [time.monotonic()] (microseconds) in one call. *)
Record clocks := Clocks { ck_wall : Z; ck_open : Z; ck_check : Z; ck_sync : Z }.

Record wal := Wal { w_files : wal_fs; w_ig : ingester }.

Section ingester_ops.
Context {R : Type} (encode_record : R → res string) (cfg : wal_config).

(** [os.fsync] of the active file. *)
Definition fsync_file (f : wal_file) : wal_file := WalFile (wf_lines f) (length (wf_lines f)).
Definition fsync (idx : Z) (fs : wal_fs) : wal_fs := alter fsync_file (Active idx) fs.
(** [os.open(O_APPEND | O_CREAT)] *)
Definition open_active (idx : Z) (fs : wal_fs) : wal_fs :=
  match fs !! Active idx with Some _ => fs | None => <[Active idx := WalFile [] 0]> fs end.
Definition os_write (idx : Z) (line : string) (fs : wal_fs) : wal_fs :=
  alter (λ f, WalFile (wf_lines f ++ [line]) (wf_synced f)) (Active idx) fs.
(** [os.replace(active, sealed)] *)
Definition replace_sealed (idx : Z) (fs : wal_fs) : wal_fs :=
  match fs !! Active idx with Some f => <[Sealed idx := f]> (delete (Active idx) fs) | None => fs end.

Definition open_new_segment (idx now : Z) (w : wal) : wal :=
  Wal (open_active idx (w_files w)) (Ingester (Some idx) idx 0 0 now (ig_closed (w_ig w))).

(** [__init__] *)
Definition open_ingester (fs : wal_fs) (c : clocks) : wal :=
  open_new_segment (segment_index (ck_wall c) (segment_seconds cfg)) (ck_open c)
    (Wal fs (Ingester None 0 0 0 (ck_open c) false)).

(** [_seal_current] *)
Definition seal_current : proc wal unit := λ w,
  let ig := w_ig w in
  match ig_current ig with
  | None => (w, Raise AssertionError)
  | Some idx =>
      (Wal (replace_sealed idx (fsync idx (w_files w)))
        (Ingester None (ig_start_idx ig) (ig_write_count ig) (ig_writes_since_fsync ig) (ig_last_fsync ig) (ig_closed ig)),
       Ok tt)
  end.

(** [maybe_seal]: was a segment sealed? *)
Definition maybe_seal (c : clocks) : proc wal bool := λ w,
  let now_idx := segment_index (ck_wall c) (segment_seconds cfg) in
  if ig_start_idx (w_ig w) <? now_idx then
    pbind seal_current (λ _, λ w1, (open_new_segment now_idx (ck_open c) w1, Ok true)) w
  else (w, Ok false).

(** [_should_fsync_now], after the write. *)
Definition should_fsync_now (c : clocks) (ig : ingester) : res bool :=
  match fsync_window_ms cfg, fsync_window_msgs cfg with
  | None, None =>
      if fsync_batch cfg =? 0 then Raise (OtherException "ZeroDivisionError")
      else Ok (ig_write_count ig mod fsync_batch cfg =? 0)
  | ms, msgs =>
      Ok (match msgs with Some n => n <=? ig_writes_since_fsync ig | None => false end ||
          match ms with Some n => n * 1000 <=? ck_check c - ig_last_fsync ig | None => false end)
  end.

Definition synced_ig (now : Z) (ig : ingester) : ingester :=
  Ingester (ig_current ig) (ig_start_idx ig) (ig_write_count ig) 0 now (ig_closed ig).

Definition buffer_full (ig : ingester) : bool :=
  match buffer_max_msgs cfg with Some m => m <=? ig_writes_since_fsync ig | None => false end.

(** The part of [append] after [maybe_seal] *)
Definition append_line (c : clocks) (record : R) : proc wal unit := λ w,
  let ig := w_ig w in
  if buffer_full ig then (w, Raise WalBufferOverflowError) else
  match encode_record record with
  | Raise e => (w, Raise e)
  | Ok line =>
      match ig_current ig with
      | None => (w, Raise AssertionError)
      | Some idx =>
          let fs := os_write idx line (w_files w) in
          let ig1 := Ingester (Some idx) (ig_start_idx ig) (ig_write_count ig + 1) (ig_writes_since_fsync ig + 1)
                       (ig_last_fsync ig) (ig_closed ig) in
          match should_fsync_now c ig1 with
          | Raise e => (Wal fs ig1, Raise e)
          | Ok true => (Wal (fsync idx fs) (synced_ig (ck_sync c) ig1), Ok tt)
          | Ok false => (Wal fs ig1, Ok tt)
          end
      end
  end.

Definition append (c : clocks) (record : R) : proc wal unit := λ w,
  if ig_closed (w_ig w) then (w, Raise RuntimeError)
  else pbind (maybe_seal c) (λ _, append_line c record) w.

Definition flush (c : clocks) : proc wal unit := λ w,
  let ig := w_ig w in
  if ig_closed ig then (w, Ok tt) else
  match ig_current ig with
  | Some idx =>
      if 0 <? ig_writes_since_fsync ig
      then (Wal (fsync idx (w_files w)) (synced_ig (ck_sync c) ig), Ok tt) else (w, Ok tt)
  | None => (w, Ok tt)
  end.

Definition close : proc wal unit := λ w,
  let ig := w_ig w in
  if ig_closed ig then (w, Ok tt) else
  (Wal (match ig_current ig with
        | Some idx => replace_sealed idx (fsync idx (w_files w))
        | None => w_files w
        end)
     (Ingester None (ig_start_idx ig) (ig_write_count ig) (ig_writes_since_fsync ig) (ig_last_fsync ig) true), Ok tt).

(** A use of the ingester, one call after another. *)
Inductive wal_op := OpAppend (c : clocks) (record : R) | OpFlush (c : clocks) | OpMaybeSeal (c : clocks) | OpClose.
Definition run_op (w : wal) (o : wal_op) : wal * res unit :=
  match o with
  | OpAppend c r => append c r w
  | OpFlush c => flush c w
  | OpMaybeSeal c => pbind (maybe_seal c) (λ _, pret tt) w
  | OpClose => close w
  end.
End ingester_ops.

(** ** Atomic replace ([wal/replay.py]) *)

(** A file system of Parquet files; [write_fault] and [replace_fault] are the
    errors of the two steps, [partial] what a failing write leaves in tmp. *)
Definition atomic_replace_parquet {K T} `{Countable K} (write_fault replace_fault : option exn) (partial : option T)
    (tmp final : K) (table : T) : proc (gmap K T) unit := λ fs,
  let cleanup fs e := (delete final (delete tmp fs), Raise e) in
  match write_fault with
  | Some e => cleanup (match partial with Some p => <[tmp := p]> fs | None => fs end) e
  | None =>
      match replace_fault with
      | Some e => cleanup (<[tmp := table]> fs) e
      | None => (<[final := table]> (delete tmp fs), Ok tt)
      end
  end.

(** ** Lemmas on the ingester *)

Lemma SSorted_snoc (l : list Z) j k :
  StronglySorted Z.lt (l ++ [j]) → j < k → StronglySorted Z.lt ((l ++ [j]) ++ [k]).
Proof.
  induction l as [|x l IH]; simpl; intros Hs Hk.
  - repeat constructor. done.
  - apply StronglySorted_inv in Hs as [Hs Hall]. constructor; [by apply IH|].
    rewrite Forall_forall in *. intros y. rewrite !elem_of_app, !list_elem_of_singleton.
    assert (x < j) by (apply Hall; set_solver). intros [[Hy| ->]| ->]; [apply Hall; set_solver|lia|lia].
Qed.

Lemma SSorted_app_l (l : list Z) k : StronglySorted Z.lt (l ++ [k]) → ∀ x, x ∈ l → x < k.
Proof.
  induction l as [|y l IH]; simpl; intros Hs x Hx; [inversion Hx|].
  apply StronglySorted_inv in Hs as [Hs Hall]. rewrite Forall_forall in Hall.
  apply elem_of_cons in Hx as [->|Hx]; [apply Hall; set_solver|by apply IH].
Qed.

Section wal_lemmas.
Context {R : Type} (encode_record : R → res string) (cfg : wal_config).
(** The file system and the bucket the ingester starts from. *)
Context (fs0 : wal_fs) (start : Z).

(** Un-fsynced writes are within every configured bound. *)
Definition within_bounds (n : Z) : Prop :=
  0 <= n ∧
  (∀ m, buffer_max_msgs cfg = Some m → 0 <= m → n <= m) ∧
  (∀ m, fsync_window_msgs cfg = Some m → 1 <= m → n < m) ∧
  (fsync_window_ms cfg = None → fsync_window_msgs cfg = None → fsync_batch cfg = 1 → n = 0).

Lemma within_bounds_0 : within_bounds 0.
Proof. split_and!; intros; lia. Qed.

(** The sealed segments since the start, and the older files. *)
Record sealed_inv (segs : list (Z * wal_file)) (fs : wal_fs) : Prop := {
  si_ge : ∀ i g, (i, g) ∈ segs → start <= i;
  si_sealed : ∀ i g, start <= i → fs !! Sealed i = Some g ↔ (i, g) ∈ segs;
  si_old : ∀ i, i < start → fs !! Sealed i = fs0 !! Sealed i ∧ fs !! Active i = fs0 !! Active i;
  si_synced : ∀ i g, (i, g) ∈ segs → wf_synced g = length (wf_lines g) }.

Definition seg_log (segs : list (Z * wal_file)) : list string := concat ((λ s, wf_lines s.2) <$> segs).

Record open_inv (segs : list (Z * wal_file)) (j : Z) (f : wal_file) (log : list string) (w : wal) : Prop := {
  oi_segs : sealed_inv segs (w_files w);
  oi_ig : ig_current (w_ig w) = Some j ∧ ig_start_idx (w_ig w) = j ∧ ig_closed (w_ig w) = false;
  oi_start : start <= j;
  oi_sorted : StronglySorted Z.lt (segs.*1 ++ [j]);
  oi_active : ∀ i, start <= i → w_files w !! Active i = if decide (i = j) then Some f else None;
  oi_count : Z.of_nat (length (wf_lines f)) = Z.of_nat (wf_synced f) + ig_writes_since_fsync (w_ig w);
  oi_bounds : within_bounds (ig_writes_since_fsync (w_ig w));
  oi_log : log = seg_log segs ++ wf_lines f }.

Record closed_inv (segs : list (Z * wal_file)) (log : list string) (w : wal) : Prop := {
  ci_segs : sealed_inv segs (w_files w);
  ci_ig : ig_current (w_ig w) = None ∧ ig_closed (w_ig w) = true;
  ci_sorted : StronglySorted Z.lt segs.*1;
  ci_active : ∀ i, start <= i → w_files w !! Active i = None;
  ci_log : log = seg_log segs }.

Definition wal_inv (log : list string) (w : wal) : Prop :=
  (∃ segs j f, open_inv segs j f log w) ∨ (∃ segs, closed_inv segs log w).

Lemma open_ingester_inv c :
  start = segment_index (ck_wall c) (segment_seconds cfg) →
  (∀ i, start <= i → fs0 !! Active i = None ∧ fs0 !! Sealed i = None) →
  open_inv [] start (WalFile [] 0) [] (open_ingester cfg fs0 c).
Proof.
  intros Hst Hfresh. unfold open_ingester, open_new_segment, open_active. rewrite <- Hst. simpl.
  destruct (Hfresh start ltac:(lia)) as [-> _]. split; simpl; try done.
  - split; simpl.
    + intros i g Hin. inversion Hin.
    + intros i g Hi. rewrite lookup_insert_ne by done. rewrite (proj2 (Hfresh i Hi)). set_solver.
    + intros i Hi. rewrite !lookup_insert_ne; [done|intros [= ?]; lia|done].
    + intros i g Hin. inversion Hin.
  - repeat constructor.
  - intros i Hi. case_decide as Hd; [subst; apply lookup_insert_eq|].
    rewrite lookup_insert_ne by congruence. by apply Hfresh.
  - apply within_bounds_0.
Qed.

(** The files after sealing the active file [j]. *)
Lemma sealed_files_inv segs j f log w :
  open_inv segs j f log w →
  sealed_inv (segs ++ [(j, fsync_file f)]) (replace_sealed j (fsync j (w_files w))) ∧
  (∀ i, start <= i → replace_sealed j (fsync j (w_files w)) !! Active i = None) ∧
  log = seg_log (segs ++ [(j, fsync_file f)]).
Proof.
  intros [Hsegs Hig Hst Hsort Hact _ _ Hlog].
  assert (w_files w !! Active j = Some f) as Hj by (rewrite Hact by done; by rewrite decide_True).
  unfold replace_sealed, fsync. rewrite lookup_alter_eq, Hj. simpl. destruct Hsegs as [Hge Hse Hold Hsy].
  split_and!; [split|..].
  - intros i g [Hin|Hin]%elem_of_app; [by eapply Hge|]. apply list_elem_of_singleton in Hin. by simplify_eq.
  - intros i g Hi. rewrite elem_of_app, list_elem_of_singleton. destruct (decide (i = j)) as [->|Hne].
    + rewrite lookup_insert_eq. split; [intros [= <-]; by right|]. intros [Hin|[= ->]]; [|done].
      exfalso. assert (j < j); [|lia]. apply (SSorted_app_l _ _ Hsort). by apply (list_elem_of_fmap_2 fst) in Hin.
    + rewrite lookup_insert_ne, lookup_delete_ne, lookup_alter_ne by congruence. rewrite Hse by done.
      split; [by left|]. intros [?|[= ? ?]]; [done|congruence].
  - intros i Hi. rewrite !lookup_insert_ne, !lookup_delete_ne, !lookup_alter_ne; [by apply Hold|..]; intros [= ?]; lia.
  - intros i g [Hin|Hin]%elem_of_app; [by eapply Hsy|]. apply list_elem_of_singleton in Hin. by simplify_eq.
  - intros i Hi. rewrite lookup_insert_ne by done. destruct (decide (i = j)) as [->|Hne]; [apply lookup_delete_eq|].
    rewrite lookup_delete_ne, lookup_alter_ne by congruence. rewrite Hact by done. by rewrite decide_False.
  - rewrite Hlog. unfold seg_log. rewrite fmap_app, concat_app. simpl. by rewrite app_nil_r.
Qed.

Lemma maybe_seal_inv c segs j f log w w' r :
  open_inv segs j f log w → maybe_seal cfg c w = (w', r) →
  res_is_ok r = true ∧ ∃ segs' j' f', open_inv segs' j' f' log w'.
Proof.
  intros Hinv. unfold maybe_seal. pose proof Hinv as [_ (Hc&Hsi&Hcl) Hst Hsort _ _ _ _]. rewrite Hsi.
  destruct (Z.ltb_spec j (segment_index (ck_wall c) (segment_seconds cfg))) as [Hlt|]; [|intros [= <- <-]; eauto].
  set (idx := segment_index _ _) in *. unfold pbind, seal_current. rewrite Hc. intros [= <- <-]. split; [done|].
  destruct (sealed_files_inv _ _ _ _ _ Hinv) as (Hs&Ha&Hlog).
  eexists _, idx, (WalFile [] 0). unfold open_new_segment, open_active. simpl. rewrite Ha by lia.
  split; simpl; [|by rewrite Hcl|lia| | |done|apply within_bounds_0|by rewrite app_nil_r].
  - destruct Hs as [Hge Hse Hold Hsy]. split; simpl; [exact Hge| | |exact Hsy].
    + intros i g Hi. rewrite lookup_insert_ne by done. by apply Hse.
    + intros i Hi. rewrite !lookup_insert_ne; [by apply Hold|intros [= ?]; lia|done].
  - rewrite fmap_app. by apply SSorted_snoc.
  - intros i Hi. case_decide as Hd; [subst; apply lookup_insert_eq|].
    rewrite lookup_insert_ne by congruence. by apply Ha.
Qed.

(** A change of the active file and of the fsync counters only. *)
Lemma update_active_inv segs j f f' log log' w ig' :
  open_inv segs j f log w →
  ig_current ig' = Some j ∧ ig_start_idx ig' = j ∧ ig_closed ig' = false →
  Z.of_nat (length (wf_lines f')) = Z.of_nat (wf_synced f') + ig_writes_since_fsync ig' →
  within_bounds (ig_writes_since_fsync ig') →
  log' = seg_log segs ++ wf_lines f' →
  open_inv segs j f' log' (Wal (<[Active j := f']> (w_files w)) ig').
Proof.
  intros [Hs _ Hst Hsort Hact _ _ _] Hig Hc Hb Hl. split; simpl; try done.
  - destruct Hs as [Hge Hse Hold Hsy]. split; simpl; [exact Hge| | |exact Hsy].
    + intros i g Hi. rewrite lookup_insert_ne by done. by apply Hse.
    + intros i Hi. rewrite !lookup_insert_ne; [by apply Hold|intros [= ?]; lia|done].
  - intros i Hi. case_decide as Hd; [subst; apply lookup_insert_eq|].
    rewrite lookup_insert_ne by congruence. rewrite Hact by done. by rewrite decide_False.
Qed.

Lemma alter_insert_some {A} (g : A → A) (k : seg_file) (m : gmap seg_file A) v :
  m !! k = Some v → alter g k m = <[k := g v]> m.
Proof.
  intros Hk. apply map_eq. intros k'. destruct (decide (k = k')) as [<-|Hne].
  - by rewrite lookup_alter_eq, lookup_insert_eq, Hk.
  - by rewrite lookup_alter_ne, lookup_insert_ne.
Qed.

Lemma open_inv_active segs j f log w : open_inv segs j f log w → w_files w !! Active j = Some f.
Proof. intros [_ _ Hst _ Hact _ _ _]. rewrite Hact by done. by rewrite decide_True. Qed.

(** The write makes the next count legal unless it triggers the fsync. *)
Lemma no_fsync_bounds c ig :
  within_bounds (ig_writes_since_fsync ig - 1) →
  (∀ m, buffer_max_msgs cfg = Some m → ig_writes_since_fsync ig - 1 < m) →
  should_fsync_now cfg c ig = Ok false → within_bounds (ig_writes_since_fsync ig).
Proof.
  intros (H0&Hb&Hw&Hl) Hfull Hs. split_and!; [lia| | |].
  - intros m Hm _. specialize (Hfull m Hm). lia.
  - intros m Hm Hm1. unfold should_fsync_now in Hs. rewrite Hm in Hs.
    destruct (fsync_window_ms cfg); simplify_eq; py_bool; lia.
  - intros Hms Hmsg Hb1. unfold should_fsync_now in Hs. by rewrite Hms, Hmsg, Hb1, Z.mod_1_r in Hs.
Qed.

Definition accepted (record : R) (r : res unit) : list string :=
  match r, encode_record record with Ok _, Ok l => [l] | _, _ => [] end.

Lemma append_line_inv c record segs j f log w w' r :
  fsync_batch cfg ≠ 0 →
  open_inv segs j f log w → append_line encode_record cfg c record w = (w', r) →
  ∃ f', open_inv segs j f' (log ++ accepted record r) w'.
Proof.
  intros Hbatch Hinv. pose proof (open_inv_active _ _ _ _ _ Hinv) as Hj.
  pose proof Hinv as [_ (Hc&Hsi&Hcl) _ _ _ Hcount Hbounds Hlog].
  assert (∀ e, (w, Raise e) = (w', r) → ∃ f', open_inv segs j f' (log ++ accepted record r) w') as Hraise.
  { intros e [= <- <-]. exists f. unfold accepted. by rewrite app_nil_r. }
  unfold append_line. destruct (buffer_full cfg (w_ig w)) eqn:Hfull; [by apply Hraise|].
  destruct (encode_record record) as [line|e] eqn:He; [|by apply Hraise]. rewrite Hc.
  set (ig1 := Ingester (Some j) _ _ _ _ _).
  assert (∀ m, buffer_max_msgs cfg = Some m → ig_writes_since_fsync (w_ig w) < m) as Hm.
  { intros m Hm. unfold buffer_full in Hfull. rewrite Hm in Hfull. by py_bool. }
  unfold os_write, fsync. rewrite (alter_insert_some _ _ (w_files w) f) by done.
  rewrite (alter_insert_some _ _ _ (WalFile (wf_lines f ++ [line]) (wf_synced f))) by apply lookup_insert_eq.
  rewrite insert_insert_eq.
  destruct (should_fsync_now cfg c ig1) as [[]|e] eqn:Hs; intros [= <- <-]; unfold accepted; rewrite ?He.
  - eexists. eapply update_active_inv; [done|done| |apply within_bounds_0|].
    + simpl. lia.
    + simpl. by rewrite Hlog, <- app_assoc.
  - eexists. eapply update_active_inv; [done|done| | |].
    + simpl. rewrite length_app. simpl. lia.
    + apply (no_fsync_bounds c); [| |done]; simpl.
      * replace (_ + 1 - 1) with (ig_writes_since_fsync (w_ig w)) by lia. done.
      * intros m Hbm. specialize (Hm m Hbm). lia.
    + simpl. by rewrite Hlog, <- app_assoc.
  - exfalso. unfold should_fsync_now in Hs. destruct (fsync_window_ms cfg), (fsync_window_msgs cfg); try done.
    destruct (Z.eqb_spec (fsync_batch cfg) 0); done.
Qed.

(** The lines an operation adds to the log. *)
Definition op_log (o : @wal_op R) (r : res unit) : list string :=
  match o with OpAppend _ record => accepted record r | _ => [] end.

Lemma run_op_open_inv o segs j f log w w' r :
  fsync_batch cfg ≠ 0 → open_inv segs j f log w → run_op encode_record cfg w o = (w', r) →
  wal_inv (log ++ op_log o r) w'.
Proof.
  intros Hbatch Hinv. pose proof (open_inv_active _ _ _ _ _ Hinv) as Hj.
  pose proof Hinv as [_ (Hc&Hsi&Hcl) _ Hsort _ Hcount Hbounds Hlog].
  destruct o as [c record|c|c|]; simpl; rewrite ?app_nil_r.
  - unfold append. rewrite Hcl. unfold pbind. destruct (maybe_seal cfg c w) as [w1 o] eqn:Hm.
    apply (maybe_seal_inv _ _ _ _ _ _ _ _ Hinv) in Hm as [Ho (segs'&j'&f'&Hinv')].
    destruct o; [|done]. intros Ha. left. apply (append_line_inv _ _ _ _ _ _ _ _ _ Hbatch Hinv') in Ha as [f'' ?]. eauto.
  - unfold flush. rewrite Hcl, Hc. destruct (Z.ltb_spec 0 (ig_writes_since_fsync (w_ig w))); intros [= <- <-]; left; [|eauto].
    exists segs, j, (fsync_file f). unfold fsync. rewrite (alter_insert_some _ _ _ f) by done.
    eapply update_active_inv; [done|done|simpl; lia|apply within_bounds_0|done].
  - unfold pbind, pret. destruct (maybe_seal cfg c w) as [w1 o] eqn:Hm.
    apply (maybe_seal_inv _ _ _ _ _ _ _ _ Hinv) in Hm as [Ho (segs'&j'&f'&Hinv')].
    destruct o; intros [= <- <-]; left; eauto.
  - unfold close. rewrite Hcl, Hc. intros [= <- <-]. right.
    destruct (sealed_files_inv _ _ _ _ _ Hinv) as (Hs&Ha&Hl). eexists. split; simpl; [exact Hs|done| |done|exact Hl].
    by rewrite fmap_app.
Qed.

Lemma run_op_closed_inv o segs log w w' r :
  closed_inv segs log w → run_op encode_record cfg w o = (w', r) → wal_inv (log ++ op_log o r) w'.
Proof.
  intros Hinv. pose proof Hinv as [_ [Hc Hcl] _ _ _].
  assert (∀ e, (w, e) = (w', r) → op_log o e = [] → wal_inv (log ++ op_log o r) w') as Hsame.
  { intros e [= <- <-] ->. rewrite app_nil_r. right. eauto. }
  destruct o as [c record|c|c|]; simpl.
  - unfold append. rewrite Hcl. intros ?. by eapply Hsame.
  - unfold flush. rewrite Hcl. intros ?. by eapply Hsame.
  - unfold maybe_seal, pbind, seal_current, pret. rewrite Hc. destruct (_ <? _); intros ?; by eapply Hsame.
  - unfold close. rewrite Hcl. intros ?. by eapply Hsame.
Qed.

(** A whole run with its log. *)
Fixpoint run_ops (w : wal) (ops : list (@wal_op R)) : wal * list string :=
  match ops with
  | [] => (w, [])
  | o :: os =>
      let '(w1, r) := run_op encode_record cfg w o in
      let '(w2, l) := run_ops w1 os in (w2, op_log o r ++ l)
  end.

Lemma run_ops_inv ops w w' log log' :
  fsync_batch cfg ≠ 0 → wal_inv log w → run_ops w ops = (w', log') → wal_inv (log ++ log') w'.
Proof.
  intros Hbatch. revert w log log'. induction ops as [|o ops IH]; intros w log log' Hinv; simpl.
  - intros [= <- <-]. by rewrite app_nil_r.
  - destruct (run_op encode_record cfg w o) as [w1 r] eqn:Ho. destruct (run_ops w1 ops) as [w2 l] eqn:Hr.
    intros [= <- <-]. rewrite app_assoc. eapply IH; [|done].
    destruct Hinv as [(segs&j&f&Hinv)|[segs Hinv]]; [by eapply run_op_open_inv|by eapply run_op_closed_inv].
Qed.
End wal_lemmas.

(** The lines of a file, none if it is absent. *)
Definition lines_of (fs : wal_fs) (f : seg_file) : list string :=
  match fs !! f with Some g => wf_lines g | None => [] end.

(** The sealed segments and their lines, read off the file system. *)
Lemma sealed_inv_files (fs0 : wal_fs) start segs fs :
  sealed_inv fs0 start segs fs →
  (∀ i, start <= i → (i ∈ segs.*1 ↔ is_Some (fs !! Sealed i))) ∧
  concat ((λ i, lines_of fs (Sealed i)) <$> segs.*1) = seg_log segs ∧
  (∀ i, i < start → fs !! Sealed i = fs0 !! Sealed i).
Proof.
  intros [Hge Hse Hold _]. split_and!; [|unfold seg_log; f_equal|intros; by apply Hold].
  - intros i Hi. rewrite list_elem_of_fmap. split; [intros ([i' g]&->&Hin); exists g; by apply Hse|].
    intros [g Hg]. exists (i, g). split; [done|]. by apply Hse.
  - rewrite <- list_fmap_compose. apply list_fmap_ext. intros k [i g] Hk%list_elem_of_lookup_2. simpl.
    unfold lines_of. rewrite (proj2 (Hse i g (Hge _ _ Hk))); done.
Qed.

(** ** Lemmas on segment names *)

#[local] Arguments String.append !_ _ / : simpl nomatch.

Fixpoint no_dash (s : string) : bool :=
  match s with EmptyString => true | String a s' => negb (Ascii.eqb a dash) && no_dash s' end.

Lemma no_dash_app s t : no_dash (s +:+ t) = no_dash s && no_dash t.
Proof. induction s as [|a s IH]; simpl; [done|]. by rewrite IH, andb_assoc. Qed.

Lemma digit_no_dash d : 0 <= d < 10 → Ascii.eqb (Ascii.ascii_of_nat (48 + Z.to_nat d)) dash = false.
Proof.
  intros Hd. assert (d = 0 ∨ d = 1 ∨ d = 2 ∨ d = 3 ∨ d = 4 ∨ d = 5 ∨ d = 6 ∨ d = 7 ∨ d = 8 ∨ d = 9) as Hc by lia.
  by repeat destruct Hc as [->|Hc]; subst.
Qed.

Lemma no_dash_pad w n : no_dash (pad w n) = true.
Proof.
  revert n. induction w as [|w IH]; intros n; cbn [pad]; [done|].
  rewrite no_dash_app, IH. cbn [no_dash]. rewrite digit_no_dash by (apply Z.mod_pos_bound; lia). done.
Qed.

Lemma no_dash_format_ts secs : no_dash (format_ts secs) = true.
Proof.
  unfold format_ts. destruct (civil _) as [[y m] d]. rewrite !no_dash_app, !no_dash_pad. done.
Qed.

Lemma split_dash_app a s : no_dash a = true → split_dash (a +:+ String dash s) = Some (a, s).
Proof.
  induction a as [|c a IH]; simpl; [done|]. intros [Hc Ha]%andb_true_iff.
  apply negb_true_iff in Hc. by rewrite Hc, IH.
Qed.

Lemma string_rev_acc_app s t acc : string_rev_acc (s +:+ t) acc = string_rev_acc t (string_rev_acc s acc).
Proof. revert acc. induction s as [|a s IH]; intros acc; simpl; [done|]. apply IH. Qed.

Lemma string_rev_acc_acc s acc : string_rev_acc s acc = string_rev s +:+ acc.
Proof.
  unfold string_rev. revert acc. induction s as [|a s IH]; intros acc; simpl; [done|].
  rewrite IH, (IH (String a "")), string_app_assoc. done.
Qed.

Lemma string_rev_app s t : string_rev (s +:+ t) = string_rev t +:+ string_rev s.
Proof. unfold string_rev at 1. by rewrite string_rev_acc_app, string_rev_acc_acc. Qed.

Lemma substring_0_app s t : String.substring 0 (String.length s) (s +:+ t) = s.
Proof. induction s as [|a s IH]; simpl; [by destruct t|]. by rewrite IH. Qed.

Lemma drop_suffix_app s t : drop_suffix t (s +:+ t) = s.
Proof.
  unfold drop_suffix. rewrite string_app_length.
  replace (_ + _ - _)%nat with (String.length s) by lia. apply substring_0_app.
Qed.

Lemma endswith_app s t : endswith t (s +:+ t) = true.
Proof. unfold endswith. rewrite string_rev_app. apply prefix_app. Qed.
Lemma endswith_app_iff t s : endswith t s = true ↔ ∃ u, s = u +:+ t.
Proof.
  split; [|intros [u ->]; apply endswith_app].
  intros [u Hu]%prefix_split. exists (string_rev u).
  assert (∀ x, string_rev (string_rev x) = x) as Hrr.
  { clear. intros x. induction x as [|a x IH]; [done|].
    change (String a x) with ((String a "") +:+ x) at 1. by rewrite !string_rev_app, IH. }
  rewrite <- (Hrr s), Hu, string_rev_app, Hrr. done.
Qed.

(** The three states of a segment file name. *)
Inductive segment_suffix := SufActive | SufSealed | SufCompacted.
Definition suffix_text (s : segment_suffix) : string :=
  match s with SufActive => ".ndjson" | SufSealed => ".ndjson.sealed" | SufCompacted => ".ndjson.sealed.compacted" end.

Lemma strip_suffix base s : strip_segment_suffixes (base +:+ suffix_text s) = base.
Proof.
  unfold strip_segment_suffixes.
  assert (List.find (λ suffix, endswith suffix (base +:+ suffix_text s))
    [".ndjson.sealed.compacted"; ".ndjson.sealed"; ".ndjson"] = Some (suffix_text s)) as ->; [|apply drop_suffix_app].
  unfold List.find, endswith. rewrite string_rev_app.
  destruct s; unfold string_rev at 2; simpl; generalize (string_rev base); intros t; simpl; try done; by destruct t.
Qed.

(** ** Properties *)


(** C3.  The log loses no line.  Take an ingester opened where no segment of
    its bucket or a later one exists, and any sequence of calls, whatever the
    clocks read (a clock that goes back included).  The lines of the accepted
    appends are, in order, the lines of the sealed segments in bucket order
    followed by those of the active file; older segments are untouched. *)
Theorem wal_loses_no_line {R : Type} (encode_record : R → res string) (cfg : wal_config) (fs0 : wal_fs)
    (c0 : clocks) (ops : list (@wal_op R)) (w : wal) (log : list string) :
  let start := segment_index (ck_wall c0) (segment_seconds cfg) in
  fsync_batch cfg ≠ 0 →
  (∀ i, start <= i → fs0 !! Active i = None ∧ fs0 !! Sealed i = None) →
  run_ops encode_record cfg (open_ingester cfg fs0 c0) ops = (w, log) →
  ∃ sealed : list Z, StronglySorted Z.lt sealed ∧
    (∀ i, start <= i → (i ∈ sealed ↔ is_Some (w_files w !! Sealed i))) ∧
    log = concat ((λ i, lines_of (w_files w) (Sealed i)) <$> sealed) ++
          match ig_current (w_ig w) with Some j => lines_of (w_files w) (Active j) | None => [] end ∧
    (∀ i, i < start → w_files w !! Sealed i = fs0 !! Sealed i).
Proof.
  intros start Hb Hfresh Hrun.
  assert (wal_inv cfg fs0 start [] (open_ingester cfg fs0 c0)) as Hinit.
  { left. exists [], start, (WalFile [] 0). by apply open_ingester_inv. }
  pose proof (run_ops_inv encode_record cfg fs0 start ops _ _ _ _ Hb Hinit Hrun) as Hinv. simpl in Hinv.
  pose proof (λ segs, sealed_inv_files fs0 start segs (w_files w)) as Hsegs.
  destruct Hinv as [(segs&j&f&Hinv)|[segs [Hs [Hc _] Hsort _ ->]]].
  - pose proof (open_inv_active _ _ _ _ _ _ _ _ Hinv) as Hj. destruct Hinv as [Hs (Hc&_) _ Hsort _ _ _ ->].
    destruct (Hsegs segs Hs) as (H1&H2&H3). exists segs.*1. rewrite Hc, H2. unfold lines_of at 1. rewrite Hj.
    split_and!; try done. clear -Hsort. induction (segs.*1) as [|x l IH]; [constructor|].
    simpl in Hsort. apply StronglySorted_inv in Hsort as [Hs Hall]. constructor; [by apply IH|].
    by apply Forall_app in Hall as [? _].
  - destruct (Hsegs segs Hs) as (H1&H2&H3). exists segs.*1. rewrite Hc, H2, app_nil_r. done.
Qed.

Definition example_wal_config : wal_config := WalConfig 1 300 None None None.
Definition at_second (s : Z) : clocks := Clocks (s * 1000000) 0 0 0.

Lemma wal_loses_no_line_witness :
  ∃ sealed : list Z, StronglySorted Z.lt sealed ∧
    (∀ i, 1 <= i → (i ∈ sealed ↔ is_Some (w_files (run_ops Ok example_wal_config (open_ingester example_wal_config ∅ (at_second 310))
       [OpAppend (at_second 320) "a"; OpAppend (at_second 700) "b"]).1 !! Sealed i))) ∧
    ["a"; "b"] = concat ((λ i, lines_of (w_files (run_ops Ok example_wal_config (open_ingester example_wal_config ∅ (at_second 310))
       [OpAppend (at_second 320) "a"; OpAppend (at_second 700) "b"]).1) (Sealed i)) <$> sealed) ++ ["b"] ∧
    (∀ i, i < 1 → w_files (run_ops Ok example_wal_config (open_ingester example_wal_config ∅ (at_second 310))
       [OpAppend (at_second 320) "a"; OpAppend (at_second 700) "b"]).1 !! Sealed i = (∅ : wal_fs) !! Sealed i).
Proof.
  apply (wal_loses_no_line (R := string) Ok example_wal_config ∅ (at_second 310)
    [OpAppend (at_second 320) "a"; OpAppend (at_second 700) "b"]); [discriminate|by intros i _|].
  vm_compute. reflexivity.
Defined.

(** C4.  What a crash can lose is bounded.  Under the same conditions every
    segment sealed by the ingester is fully fsynced, and the lines of the open
    file that are not are counted by [_writes_since_fsync], which never
    exceeds the buffer cap, stays below the message window, and is zero under
    the per-message policy. *)
Theorem wal_bounded_loss {R : Type} (encode_record : R → res string) (cfg : wal_config) (fs0 : wal_fs)
    (c0 : clocks) (ops : list (@wal_op R)) (w : wal) (log : list string) :
  let start := segment_index (ck_wall c0) (segment_seconds cfg) in
  fsync_batch cfg ≠ 0 →
  (∀ i, start <= i → fs0 !! Active i = None ∧ fs0 !! Sealed i = None) →
  run_ops encode_record cfg (open_ingester cfg fs0 c0) ops = (w, log) →
  (∀ i g, start <= i → w_files w !! Sealed i = Some g → wf_synced g = length (wf_lines g)) ∧
  (∀ j, ig_current (w_ig w) = Some j → ∃ g, w_files w !! Active j = Some g ∧
     let unsynced := Z.of_nat (length (wf_lines g)) - Z.of_nat (wf_synced g) in
     unsynced = ig_writes_since_fsync (w_ig w) ∧ 0 <= unsynced ∧
     (∀ m, buffer_max_msgs cfg = Some m → 0 <= m → unsynced <= m) ∧
     (∀ m, fsync_window_msgs cfg = Some m → 1 <= m → unsynced < m) ∧
     (fsync_window_ms cfg = None → fsync_window_msgs cfg = None → fsync_batch cfg = 1 → unsynced = 0)).
Proof.
  intros start Hb Hfresh Hrun.
  assert (wal_inv cfg fs0 start [] (open_ingester cfg fs0 c0)) as Hinit.
  { left. exists [], start, (WalFile [] 0). by apply open_ingester_inv. }
  pose proof (run_ops_inv encode_record cfg fs0 start ops _ _ _ _ Hb Hinit Hrun) as Hinv. simpl in Hinv.
  destruct Hinv as [(segs&j&f&Hinv)|[segs [[_ Hse _ Hsy] [Hc _] _ _ _]]].
  - pose proof (open_inv_active _ _ _ _ _ _ _ _ Hinv) as Hj. destruct Hinv as [[_ Hse _ Hsy] (Hc&_) _ _ _ Hn Hbd _].
    split; [intros i g Hi Hg%Hse; [by eapply Hsy|done]|].
    intros j' Hj'. rewrite Hc in Hj'. injection Hj' as <-. exists f. split; [done|]. cbv zeta.
    replace (_ - _) with (ig_writes_since_fsync (w_ig w)) by lia. split; [done|]. exact Hbd.
  - split; [intros i g Hi Hg%Hse; [by eapply Hsy|done]|]. intros j Hj. congruence.
Qed.

Lemma wal_bounded_loss_witness :
  let cfg := WalConfig 1 300 None (Some 3) (Some 5) in
  let w := (run_ops Ok cfg (open_ingester cfg ∅ (at_second 310))
              [OpAppend (at_second 320) "a"; OpAppend (at_second 321) "b"]).1 in
  ∃ g, w_files w !! Active 1 = Some g ∧
     let unsynced := Z.of_nat (length (wf_lines g)) - Z.of_nat (wf_synced g) in
     unsynced = ig_writes_since_fsync (w_ig w) ∧ 0 <= unsynced ∧
     (∀ m, Some 5 = Some m → 0 <= m → unsynced <= m) ∧
     (∀ m, Some 3 = Some m → 1 <= m → unsynced < m) ∧
     ((None : option Z) = None → Some 3 = None → 1 = 1 → unsynced = 0).
Proof.
  intros cfg w.
  apply (wal_bounded_loss (R := string) Ok cfg ∅ (at_second 310)
    [OpAppend (at_second 320) "a"; OpAppend (at_second 321) "b"] w (run_ops Ok cfg (open_ingester cfg ∅ (at_second 310))
              [OpAppend (at_second 320) "a"; OpAppend (at_second 321) "b"]).2);
    [discriminate|by intros i _|vm_compute; reflexivity|reflexivity].
Defined.

(** A restart inside one bucket overwrites sealed data: the first
    ingester is closed at second 10, the second one writes at second 20 into a
    new active file of the same bucket, and its seal replaces the sealed
    segment; the line accepted (and fsynced) before the restart is gone. *)
Theorem restart_in_bucket_overwrites_sealed_segment :
  let first := (run_ops Ok example_wal_config (open_ingester example_wal_config ∅ (at_second 0))
                  [OpAppend (at_second 5) "old"; OpClose]).1 in
  let second := (run_ops Ok example_wal_config (open_ingester example_wal_config (w_files first) (at_second 15))
                  [OpAppend (at_second 20) "new"; OpClose]).1 in
  w_files first !! Sealed 0 = Some (WalFile ["old"] 1) ∧
  w_files second !! Sealed 0 = Some (WalFile ["new"] 1) ∧
  (∀ f g, w_files second !! f = Some g → "old" ∉ wf_lines g).
Proof.
  intros first second.
  assert (w_files second = {[ Sealed 0 := WalFile ["new"] 1 ]}) as Hs by (vm_compute; reflexivity).
  split_and!; [vm_compute; reflexivity|by rewrite Hs|].
  rewrite Hs. intros f g [<- <-]%lookup_singleton_Some. simpl. set_solver.
Qed.

(** The atomic replace.  On success the table is at [final] and the tmp
    file is gone; on any failure the error is raised and tmp is gone, but so is
    a file that stood at [final] before; no other file changes. *)
Theorem atomic_replace_outcomes {K T : Type} `{Countable K} (wf rf : option exn) (partial : option T) (tmp final : K)
    (table : T) (fs : gmap K T) :
  tmp ≠ final →
  let '(fs', r) := atomic_replace_parquet wf rf partial tmp final table fs in
  fs' !! tmp = None ∧
  (∀ k, k ≠ tmp → k ≠ final → fs' !! k = fs !! k) ∧
  (wf = None → rf = None → r = Ok tt ∧ fs' !! final = Some table) ∧
  (∀ e, r = Raise e → (wf = Some e ∨ rf = Some e) ∧ fs' !! final = None).
Proof.
  intros Hne. unfold atomic_replace_parquet.
  assert (∀ fs1 : gmap K T, (∀ k, k ≠ tmp → fs1 !! k = fs !! k) →
    delete final (delete tmp fs1) !! tmp = None ∧ (∀ k, k ≠ tmp → k ≠ final → delete final (delete tmp fs1) !! k = fs !! k) ∧
    delete final (delete tmp fs1) !! final = None) as Hclean.
  { intros fs1 Hk. split_and!; [by rewrite lookup_delete_ne, lookup_delete_eq| |apply lookup_delete_eq].
    intros k ? ?. rewrite !lookup_delete_ne by done. auto. }
  destruct wf as [e|]; [|destruct rf as [e|]].
  - destruct (Hclean (match partial with Some p => <[tmp := p]> fs | None => fs end)) as (?&?&?).
    { intros k Hk. destruct partial; [by rewrite lookup_insert_ne|done]. }
    split_and!; [done|done|done|]. intros e' [= <-]. auto.
  - destruct (Hclean (<[tmp := table]> fs)) as (?&?&?); [intros k Hk; by rewrite lookup_insert_ne|].
    split_and!; [done|done|done|]. intros e' [= <-]. auto.
  - split_and!; [by rewrite lookup_insert_ne, lookup_delete_eq| |by rewrite lookup_insert_eq|done].
    intros k ? ?. by rewrite lookup_insert_ne, lookup_delete_ne.
Qed.

Lemma atomic_replace_outcomes_witness :
  let '(fs', r) := atomic_replace_parquet (Some OSErrorOther) None None "x.tmp" "x" "new" {[ "x" := "old" ]} in
  fs' !! "x.tmp" = None ∧
  (∀ k, k ≠ "x.tmp" → k ≠ "x" → fs' !! k = ({[ "x" := "old" ]} : gmap string string) !! k) ∧
  (Some OSErrorOther = None → @None exn = None → r = Ok tt ∧ fs' !! "x" = Some "new") ∧
  (∀ e, r = Raise e → (Some OSErrorOther = Some e ∨ @None exn = Some e) ∧ fs' !! "x" = None).
Proof. apply (atomic_replace_outcomes (Some OSErrorOther) None None "x.tmp" "x" "new" {[ "x" := "old" ]}). discriminate. Defined.

(** Segment names parse back in each of the three states: the node id is
    recovered whatever characters it has, and so is the time stamp. *)
Theorem segment_name_round_trip (start_idx seconds : Z) (node_id : string) (s : segment_suffix) :
  let name := "segment-" +:+ format_ts (start_idx * seconds) +:+ "-" +:+ node_id +:+ suffix_text s in
  (name = match s with
          | SufActive => active_segment_name start_idx seconds node_id
          | SufSealed => seal_path (active_segment_name start_idx seconds node_id)
          | SufCompacted => compacted_path (seal_path (active_segment_name start_idx seconds node_id))
          end) ∧
  parse_ts_from_segment name = Ok (format_ts (start_idx * seconds)) ∧
  parse_node_id_from_segment name = node_id.
Proof.
  intros name. set (base := "segment-" +:+ format_ts (start_idx * seconds) +:+ "-" +:+ node_id).
  assert (name = base +:+ suffix_text s) as Hname by (unfold name, base; by rewrite !string_app_assoc).
  split.
  { unfold name, compacted_path, seal_path, active_segment_name.
    destruct s; rewrite ?string_app_assoc; done. }
  unfold parse_ts_from_segment, parse_node_id_from_segment. rewrite Hname, strip_suffix.
  assert (split_dash2 base = ["segment"; format_ts (start_idx * seconds); node_id]) as ->; [|done].
  unfold split_dash2.
  replace base with ("segment" +:+ String dash (format_ts (start_idx * seconds) +:+ String dash node_id)) by done.
  rewrite split_dash_app by done. by rewrite split_dash_app by apply no_dash_format_ts.
Qed.
