(* ===== verification/PyTime.v ===== *)
(** * Dates and times

    [datetime.date] and aware UTC [datetime] values as day numbers and
    microseconds since 1970-01-01, their ISO text and the parser of that text. *)
From S2P Require Import Prelude NasKey PyDecimal Wal.
From Stdlib Require Import Ascii.
Open Scope string_scope.
Open Scope list_scope.
Open Scope Z_scope.

(** [date.isoformat()] *)
Definition isoformat (days : Z) : string :=
  let '(y, m, d) := civil days in pad 4 y +:+ "-" +:+ pad 2 m +:+ "-" +:+ pad 2 d.

(** [datetime.isoformat()] of an aware UTC time *)
Definition iso_time (us : Z) : string :=
  let secs := us / 1000000 in
  let s := secs mod 86400 in
  isoformat (secs / 86400) +:+ "T" +:+
  pad 2 (s / 3600) +:+ ":" +:+ pad 2 (s mod 3600 / 60) +:+ ":" +:+ pad 2 (s mod 60) +:+
  (if us mod 1000000 =? 0 then "" else "." +:+ pad 6 (us mod 1000000)) +:+ "+00:00".

(** ** Parsing *)

Definition ord (c : ascii) : Z := Z.of_nat (nat_of_ascii c).
Definition is_digit (c : ascii) : bool := (48 <=? ord c) && (ord c <? 58).

Definition leap (y : Z) : bool := (y mod 4 =? 0) && (negb (y mod 100 =? 0) || (y mod 400 =? 0)).
Definition days_in_month (y m : Z) : Z :=
  if m =? 2 then if leap y then 29 else 28 else if existsb (Z.eqb m) [4; 6; 9; 11] then 30 else 31.

(** The day number of a date *)
Definition days_from_civil (y m d : Z) : Z :=
  let y' := if m <=? 2 then y - 1 else y in
  let yoe := y' mod 400 in
  let mp := if m <=? 2 then m + 9 else m - 3 in
  y' / 400 * 146097 + (yoe * 365 + yoe / 4 - yoe / 100 + ((153 * mp + 2) / 5 + d - 1)) - 719468.

(** Exactly [k] digits, and the rest *)
Fixpoint number (k : nat) (acc : Z) (s : string) : option (Z * string) :=
  match k, s with
  | O, _ => Some (acc, s)
  | S k, String c s' => if is_digit c then number k (10 * acc + (ord c - 48)) s' else None
  | S _, EmptyString => None
  end.
Definition char (c : ascii) (s : string) : option string :=
  match s with String a s' => if Ascii.eqb a c then Some s' else None | EmptyString => None end.

(** [YYYY-MM-DD] and what follows it *)
Definition scan_date (s : string) : option (Z * string) :=
  match number 4 0 s with
  | Some (y, s) => match char "-" s with
    | Some s => match number 2 0 s with
      | Some (m, s) => match char "-" s with
        | Some s => match number 2 0 s with
          | Some (d, s) =>
              if (1 <=? y) && (1 <=? m) && (m <=? 12) && (1 <=? d) && (d <=? days_in_month y m)
              then Some (days_from_civil y m d, s) else None
          | None => None end
        | None => None end
      | None => None end
    | None => None end
  | None => None
  end.

(** [date.fromisoformat] of the extended form (the compact and week forms,
    which the code never writes, are errors here) *)
Definition date_fromisoformat (s : string) : res Z :=
  match scan_date s with Some (d, EmptyString) => Ok d | _ => Raise ValueError end.

(** [HH[:MM[:SS]]] in seconds *)
Definition scan_clock (s : string) : option (Z * string) :=
  match number 2 0 s with
  | None => None
  | Some (h, s1) =>
      let '(m, s2, more) := match char ":" s1 with
        | Some s' => match number 2 0 s' with Some (m, s2) => (m, s2, true) | None => (60, s1, false) end
        | None => (0, s1, false) end in
      let '(sec, s3) := match (if more : bool then char ":" s2 else None) with
        | Some s' => match number 2 0 s' with Some (x, s3) => (x, s3) | None => (60, s2) end
        | None => (0, s2) end in
      if (h <? 24) && (m <? 60) && (sec <? 60) then Some (h * 3600 + m * 60 + sec, s3) else None
  end.

(** A fraction of a second in microseconds; digits after the sixth are cut. *)
Fixpoint fraction (places : nat) (acc : Z) (s : string) : Z * string :=
  match s with
  | String c s' =>
      if is_digit c then
        match places with O => fraction O acc s' | S p => fraction p (10 * acc + (ord c - 48)) s' end
      else (acc * 10 ^ Z.of_nat places, s)
  | EmptyString => (acc * 10 ^ Z.of_nat places, s)
  end.
Definition scan_fraction (s : string) : option (Z * string) :=
  match char "." s with
  | Some (String c _ as s') => if is_digit c then Some (fraction 6 0 s') else None
  | Some EmptyString => None
  | None => Some (0, s)
  end.

(** The offset in seconds; a time without one is taken as UTC. *)
Definition scan_offset (s : string) : option Z :=
  match s with
  | EmptyString => Some 0
  | String c s' =>
      if Ascii.eqb c "Z" then match s' with EmptyString => Some 0 | _ => None end
      else match (if Ascii.eqb c "+" then Some 1 else if Ascii.eqb c "-" then Some (-1) else None), scan_clock s' with
           | Some sign, Some (o, EmptyString) => Some (sign * o)
           | _, _ => None
           end
  end.

(** [datetime.fromisoformat(s)], naive times read as UTC: microseconds *)
Definition fromisoformat (s : string) : res Z :=
  match scan_date s with
  | None => Raise ValueError
  | Some (d, EmptyString) => Ok (d * 86400 * 1000000)
  | Some (d, String _ s1) =>
      match scan_clock s1 with
      | None => Raise ValueError
      | Some (t, s2) =>
          match scan_fraction s2 with
          | None => Raise ValueError
          | Some (f, s3) =>
              match scan_offset s3 with
              | None => Raise ValueError
              | Some o => Ok ((d * 86400 + t - o) * 1000000 + f)
              end
          end
      end
  end.

(** ** Lemmas *)

#[local] Arguments String.append !_ _ / : simpl nomatch.

Lemma ord_digit d : 0 <= d < 10 → ord (ascii_of_nat (48 + Z.to_nat d)) = 48 + d.
Proof.
  intros Hd. assert (d ∈ seqZ 0 10) as Hin by (apply elem_of_seqZ; lia). revert Hin. clear. cbn.
  intros Hin. repeat (apply elem_of_cons in Hin as [->|Hin]; [reflexivity|]). by apply not_elem_of_nil in Hin.
Qed.

Lemma pad_cons k n : pad (S k) n = String (ascii_of_nat (48 + Z.to_nat (n / 10 ^ Z.of_nat k mod 10))) (pad k n).
Proof.
  revert n. induction k as [|k IH]; intros n; [by rewrite Z.div_1_r|].
  change (pad (S (S k)) n) with (pad (S k) (n / 10) +:+ String (ascii_of_nat (48 + Z.to_nat (n mod 10))) "").
  rewrite IH. cbn [String.append]. f_equal.
  rewrite Z.div_div, <- Z.pow_succ_r, <- Nat2Z.inj_succ by lia. done.
Qed.

Lemma number_pad k n acc s : number k acc (pad k n +:+ s) = Some (acc * 10 ^ Z.of_nat k + n mod 10 ^ Z.of_nat k, s).
Proof.
  revert acc. induction k as [|k IH]; intros acc.
  - cbn [pad String.append number]. rewrite Z.mod_1_r. do 2 f_equal. lia.
  - rewrite pad_cons. cbn [String.append number]. unfold is_digit.
    pose proof (Z.mod_pos_bound (n / 10 ^ Z.of_nat k) 10 ltac:(lia)) as Hb. rewrite !ord_digit by done.
    replace (48 <=? 48 + n / 10 ^ Z.of_nat k mod 10) with true by (symmetry; apply Z.leb_le; lia).
    replace (48 + n / 10 ^ Z.of_nat k mod 10 <? 58) with true by (symmetry; apply Z.ltb_lt; lia). cbn [andb].
    rewrite IH. do 2 f_equal. rewrite Nat2Z.inj_succ, Z.pow_succ_r by lia.
    rewrite (Z.mul_comm 10 (10 ^ Z.of_nat k)), Z.rem_mul_r by lia. ring.
Qed.

Lemma number_pad_small k n s : 0 <= n < 10 ^ Z.of_nat k → number k 0 (pad k n +:+ s) = Some (n, s).
Proof. intros Hn. rewrite number_pad, Z.mod_small by done. done. Qed.

(** *** The calendar

    [civil] and [days_from_civil] work on 400-year eras; that they agree on
    one era is checked by evaluation. *)

(** Year of the era, month and day of a day of the era *)
Definition era_day (doe : Z) : Z * Z * Z :=
  let yoe := (doe - doe / 1460 + doe / 36524 - doe / 146096) / 365 in
  let doy := doe - (365 * yoe + yoe / 4 - yoe / 100) in
  let mp := (5 * doy + 2) / 153 in
  (yoe, if mp <? 10 then mp + 3 else mp - 9, doy - (153 * mp + 2) / 5 + 1).

Definition era_day_ok (doe : Z) : bool :=
  let '(yoe, m, d) := era_day doe in
  let mp := if m <=? 2 then m + 9 else m - 3 in
  (0 <=? yoe) && (yoe <? 400) && (1 <=? m) && (m <=? 12) && (1 <=? d) &&
  (d <=? days_in_month (yoe + (if m <=? 2 then 1 else 0)) m) &&
  (yoe * 365 + yoe / 4 - yoe / 100 + ((153 * mp + 2) / 5 + d - 1) =? doe).

(** Days of the era before its year [y]; years begin in March. *)
Definition year_start (y : Z) : Z := 365 * y + y / 4 - y / 100 + y / 400.
Definition year_of (doe : Z) : Z := (doe - doe / 1460 + doe / 36524 - doe / 146096) / 365.

Definition check_year (y : Z) : bool :=
  (year_of (year_start y) =? y) && (year_of (year_start (y + 1) - 1) =? y) &&
  (year_start (y + 1) =? year_start y + (if leap (y + 1) then 366 else 365)).
Lemma check_years : forallb check_year (seqZ 0 400) = true.
Proof. vm_compute. reflexivity. Qed.

Definition check_doy (doy : Z) : bool :=
  let mp := (5 * doy + 2) / 153 in
  let m := if mp <? 10 then mp + 3 else mp - 9 in
  let d := doy - (153 * mp + 2) / 5 + 1 in
  (1 <=? m) && (m <=? 12) && (1 <=? d) && ((if m <=? 2 then m + 9 else m - 3) =? mp) &&
  (d <=? days_in_month 4 m) && ((doy =? 365) || (d <=? days_in_month 1 m)).
Lemma check_doys : forallb check_doy (seqZ 0 366) = true.
Proof. vm_compute. reflexivity. Qed.

Lemma forallb_seqZ f m n x : forallb f (seqZ m n) = true → m <= x < m + n → f x = true.
Proof. rewrite forallb_forall. intros H Hx. apply H, list_elem_of_In, elem_of_seqZ. lia. Qed.

Lemma year_of_mono x y : x <= y → year_of x <= year_of y.
Proof.
  intros Hxy. unfold year_of. apply Z.div_le_mono; [lia|].
  pattern y. revert y Hxy. apply Zlt_lower_bound_ind. intros y IH Hy.
  destruct (decide (x = y)) as [->|]; [done|]. specialize (IH (y - 1) ltac:(lia)). cbv beta in IH.
  etrans; [exact IH|]. clear IH. Z.to_euclidean_division_equations. lia.
Qed.

Lemma days_in_month_leap y y' m : leap y = leap y' → days_in_month y m = days_in_month y' m.
Proof. unfold days_in_month. by intros ->. Qed.

(** The year a day of the era falls in *)
Lemma year_exists (n : nat) doe : 0 <= doe < year_start (Z.of_nat n) →
  ∃ y, 0 <= y < Z.of_nat n ∧ year_start y <= doe < year_start (y + 1).
Proof.
  induction n as [|n IH]; intros Hd; [change (year_start (Z.of_nat 0)) with 0 in Hd; lia|].
  destruct (decide (doe < year_start (Z.of_nat n))).
  - destruct IH as (y & Hy & H); [lia|]. exists y. split; [lia|done].
  - exists (Z.of_nat n). rewrite Nat2Z.inj_succ in *. unfold Z.succ in *. lia.
Qed.

Lemma era_day_all doe : 0 <= doe < 146097 → era_day_ok doe = true.
Proof.
  intros Hd. destruct (year_exists 400 doe Hd) as (y & Hy & Hlo & Hhi). cbn in Hy.
  pose proof (forallb_seqZ _ _ _ y check_years ltac:(lia)) as Hc. unfold check_year in Hc. py_bool.
  pose proof (year_of_mono _ _ Hlo). pose proof (year_of_mono doe (year_start (y + 1) - 1) ltac:(lia)).
  assert (year_of doe = y) as Hyear by lia.
  assert (365 * y + y / 4 - y / 100 = year_start y) as Hs by (unfold year_start; rewrite (Z.div_small y 400); lia).
  unfold era_day_ok, era_day. change ((doe - doe / 1460 + doe / 36524 - doe / 146096) / 365) with (year_of doe).
  rewrite Hyear, Hs. set (doy := doe - year_start y).
  pose proof (forallb_seqZ _ _ _ doy check_doys ltac:(destruct (leap (y + 1)); lia)) as Hk. unfold check_doy in Hk.
  set (mp := (5 * doy + 2) / 153) in *. set (m := if mp <? 10 then mp + 3 else mp - 9) in *. cbv zeta in Hk.
  apply andb_true_iff in Hk as [Hk Hleap]. apply andb_true_iff in Hk as [Hk Hlong]. py_bool.
  assert ((if m <=? 2 then m + 9 else m - 3) = mp) as Hm by done. rewrite Hm.
  assert (doy - (153 * mp + 2) / 5 + 1 <= days_in_month (y + (if m <=? 2 then 1 else 0)) m) as Hdim.
  { destruct (m <=? 2) eqn:Hm2.
    - destruct (leap (y + 1)) eqn:Hl; [by rewrite (days_in_month_leap (y + 1) 4) by done|].
      rewrite (days_in_month_leap (y + 1) 1) by done. apply orb_true_iff in Hleap as [?|?]; lia.
    - unfold days_in_month in *. replace (m =? 2) with false in * by (symmetry; lia). done. }
  apply Z.leb_le in Hdim. rewrite Hdim. repeat (apply andb_true_iff; split); lia.
Qed.

Lemma days_in_month_era y e m : days_in_month (y + 400 * e) m = days_in_month y m.
Proof.
  unfold days_in_month, leap.
  replace ((y + 400 * e) mod 4) with (y mod 4) by (replace (400 * e) with (100 * e * 4) by lia; by rewrite Z.mod_add).
  replace ((y + 400 * e) mod 100) with (y mod 100) by (replace (400 * e) with (4 * e * 100) by lia; by rewrite Z.mod_add).
  replace ((y + 400 * e) mod 400) with (y mod 400) by (replace (400 * e) with (e * 400) by lia; by rewrite Z.mod_add).
  done.
Qed.

Lemma civil_spec z : let '(y, m, d) := civil z in
  days_from_civil y m d = z ∧ 1 <= m <= 12 ∧ 1 <= d <= days_in_month y m.
Proof.
  unfold civil. set (era := (z + 719468) / 146097). set (doe := (z + 719468) mod 146097).
  assert (0 <= doe < 146097) as Hdoe by (apply Z.mod_pos_bound; lia).
  pose proof (Z.div_mod (z + 719468) 146097 ltac:(lia)) as Hz. fold era doe in Hz.
  pose proof (era_day_all doe Hdoe) as Hok. unfold era_day_ok in Hok.
  change (let '(yoe, m, d) := era_day doe in days_from_civil (yoe + era * 400 + (if m <=? 2 then 1 else 0)) m d = z ∧
    1 <= m <= 12 ∧ 1 <= d <= days_in_month (yoe + era * 400 + (if m <=? 2 then 1 else 0)) m).
  destruct (era_day doe) as [[yoe m] d]. py_bool.
  replace (yoe + era * 400 + (if m <=? 2 then 1 else 0)) with (yoe + (if m <=? 2 then 1 else 0) + 400 * era) by lia.
  rewrite days_in_month_era. split; [|lia]. unfold days_from_civil.
  assert ((if m <=? 2 then yoe + (if m <=? 2 then 1 else 0) + 400 * era - 1 else yoe + (if m <=? 2 then 1 else 0) + 400 * era)
    = yoe + era * 400) as -> by (destruct (m <=? 2); lia).
  rewrite Z.div_add, Z.mod_add, (Z.div_small yoe), (Z.mod_small yoe) by lia. lia.
Qed.

(** *** Round trips *)

(** The range of [datetime]: years 1 to 9999. *)
Definition date_in_range (d : Z) : Prop := -719162 <= d <= 2932896.

Lemma days_in_month_le y m : days_in_month y m <= 31.
Proof. unfold days_in_month. destruct (m =? 2); [destruct (leap y); lia|]. destruct (existsb _ _); lia. Qed.

Lemma era_year_start y :
  y / 400 * 146097 + ((y mod 400) * 365 + (y mod 400) / 4 - (y mod 400) / 100) = year_start y.
Proof.
  unfold year_start. rewrite (Z.div_mod y 400) at 5 6 7 8 by lia.
  pose proof (Z.mod_pos_bound y 400 ltac:(lia)). set (q := y / 400). set (r := y mod 400) in *.
  Z.to_euclidean_division_equations. lia.
Qed.
Lemma year_start_mono x y : x <= y → year_start x <= year_start y.
Proof. intros H. unfold year_start. Z.to_euclidean_division_equations. lia. Qed.

Lemma civil_range z : date_in_range z → let '(y, m, d) := civil z in
  1 <= y <= 9999 ∧ 1 <= m <= 12 ∧ 1 <= d <= days_in_month y m ∧ days_from_civil y m d = z.
Proof.
  intros Hz. pose proof (civil_spec z) as H. destruct (civil z) as [[y m] d]. destruct H as (<- & Hm & Hd).
  split; [|done]. pose proof (days_in_month_le y m). unfold date_in_range, days_from_civil in Hz.
  set (y' := if m <=? 2 then y - 1 else y) in *. set (mp := if m <=? 2 then m + 9 else m - 3) in *.
  pose proof (era_year_start y') as He.
  assert ((153 * mp + 2) / 5 <= 337 ∧ (2 < m → (153 * mp + 2) / 5 <= 275) ∧ (m <= 2 → 306 <= (153 * mp + 2) / 5) ∧ 0 <= (153 * mp + 2) / 5) as Hmp.
  { unfold mp. clear -Hm. destruct (m <=? 2) eqn:?; Z.to_euclidean_division_equations; lia. }
  assert (1 <= y).
  { apply Z.nlt_ge. intros Hy. assert (year_start y' <= year_start (if m <=? 2 then -1 else 0)).
    { apply year_start_mono. unfold y'. destruct (m <=? 2); lia. }
    destruct (m <=? 2) eqn:Hm2; change (year_start (-1)) with (-366) in *; change (year_start 0) with 0 in *; lia. }
  split; [done|]. apply Z.nlt_ge. intros Hy. assert (year_start (if m <=? 2 then 9999 else 10000) <= year_start y').
  { apply year_start_mono. unfold y'. destruct (m <=? 2); lia. }
  destruct (m <=? 2) eqn:Hm2; change (year_start 9999) with 3652059 in *; change (year_start 10000) with 3652425 in *; lia.
Qed.

Lemma string_append_assoc (s t u : string) : (s +:+ t) +:+ u = s +:+ (t +:+ u).
Proof. induction s as [|c s IH]; cbn; [done|]. by rewrite IH. Qed.

Lemma scan_date_isoformat d s : date_in_range d → scan_date (isoformat d +:+ s) = Some (d, s).
Proof.
  intros Hd. pose proof (civil_range d Hd) as H. unfold isoformat. destruct (civil d) as [[y m] dd].
  destruct H as (Hy & Hm & Hdd & Hdays). pose proof (days_in_month_le y m).
  rewrite !string_append_assoc. unfold scan_date.
  rewrite number_pad_small by (cbn; lia). cbn [String.append char Ascii.eqb Bool.eqb].
  rewrite number_pad_small by (cbn; lia). cbn [String.append char Ascii.eqb Bool.eqb].
  rewrite number_pad_small by (cbn; lia). rewrite Hdays.
  replace (_ && _) with true; [done|]. symmetry. repeat (apply andb_true_iff; split); lia.
Qed.

Lemma string_append_nil s : s +:+ "" = s.
Proof. induction s as [|c s IH]; cbn; [done|]. by rewrite IH. Qed.

Lemma date_round_trip d : date_in_range d → date_fromisoformat (isoformat d) = Ok d.
Proof.
  intros Hd. unfold date_fromisoformat. pose proof (scan_date_isoformat d "" Hd) as H.
  rewrite string_append_nil in H. by rewrite H.
Qed.

Lemma fraction_pad k p acc n s : (k <= p)%nat →
  fraction p acc (pad k n +:+ s) = fraction (p - k) (acc * 10 ^ Z.of_nat k + n mod 10 ^ Z.of_nat k) s.
Proof.
  revert p acc. induction k as [|k IH]; intros p acc Hk.
  - cbn [pad String.append]. rewrite Nat.sub_0_r, Z.mod_1_r. f_equal. cbn. lia.
  - destruct p as [|p]; [lia|]. rewrite pad_cons. cbn [String.append fraction]. unfold is_digit.
    pose proof (Z.mod_pos_bound (n / 10 ^ Z.of_nat k) 10 ltac:(lia)) as Hb. rewrite !ord_digit by done.
    replace (48 <=? 48 + n / 10 ^ Z.of_nat k mod 10) with true by (symmetry; apply Z.leb_le; lia).
    replace (48 + n / 10 ^ Z.of_nat k mod 10 <? 58) with true by (symmetry; apply Z.ltb_lt; lia). cbn [andb Nat.sub].
    rewrite IH by lia. f_equal. rewrite Nat2Z.inj_succ, Z.pow_succ_r by lia.
    rewrite (Z.mul_comm 10 (10 ^ Z.of_nat k)), Z.rem_mul_r by lia. ring.
Qed.

Lemma scan_fraction_none s : char "." s = None → scan_fraction s = Some (0, s).
Proof. unfold scan_fraction. by intros ->. Qed.

Lemma scan_fraction_pad us s : 0 <= us < 1000000 → match s with String c _ => is_digit c = false | _ => True end →
  scan_fraction ("." +:+ (pad 6 us +:+ s)) = Some (us, s).
Proof.
  intros Hus Hs. unfold scan_fraction. cbn [String.append char Ascii.eqb Bool.eqb].
  pose proof (fraction_pad 6 6 0 us s ltac:(lia)) as Hf. revert Hf.
  assert (∃ c t, pad 6 us +:+ s = String c t ∧ is_digit c = true) as (c & t & -> & ->).
  { rewrite pad_cons. cbn [String.append]. eexists _, _. split; [done|]. unfold is_digit.
    pose proof (Z.mod_pos_bound (us / 10 ^ Z.of_nat 5) 10 ltac:(lia)). rewrite ord_digit by done.
    apply andb_true_iff. split; [apply Z.leb_le|apply Z.ltb_lt]; lia. }
  intros ->. f_equal. change (10 ^ Z.of_nat 6) with 1000000. rewrite Z.mod_small by done.
  destruct s as [|c' s]; cbn [fraction Nat.sub]; [|rewrite Hs]; f_equal; cbn; lia.
Qed.

Lemma scan_clock_pad h m s t : 0 <= h < 24 → 0 <= m < 60 → 0 <= s < 60 →
  scan_clock (pad 2 h +:+ ":" +:+ pad 2 m +:+ ":" +:+ pad 2 s +:+ t) = Some (h * 3600 + m * 60 + s, t).
Proof.
  intros Hh Hm Hs. unfold scan_clock.
  rewrite number_pad_small by (cbn; lia). cbn [String.append char Ascii.eqb Bool.eqb].
  rewrite number_pad_small by (cbn; lia). cbn [String.append char Ascii.eqb Bool.eqb].
  rewrite number_pad_small by (cbn; lia).
  replace (_ && _) with true; [done|]. symmetry. repeat (apply andb_true_iff; split); lia.
Qed.

Lemma time_round_trip us : date_in_range (us / 1000000 / 86400) → fromisoformat (iso_time us) = Ok us.
Proof.
  intros Hd. unfold iso_time. set (secs := us / 1000000) in *. set (s := secs mod 86400).
  pose proof (Z.mod_pos_bound secs 86400 ltac:(lia)) as Hs. fold s in Hs.
  pose proof (Z.mod_pos_bound us 1000000 ltac:(lia)) as Hu.
  unfold fromisoformat. rewrite scan_date_isoformat by done.
  match goal with |- context ["T" +:+ ?x] => change ("T" +:+ x) with (String "T" x) end. cbv iota beta.
  rewrite scan_clock_pad by (Z.to_euclidean_division_equations; lia).
  assert (secs / 86400 * 86400 + (s / 3600 * 3600 + s mod 3600 / 60 * 60 + s mod 60) = secs) as Hsecs.
  { unfold s. Z.to_euclidean_division_equations. lia. }
  pose proof (Z.div_mod us 1000000 ltac:(lia)).
  destruct (us mod 1000000 =? 0) eqn:Hz; cbn [String.append].
  - rewrite scan_fraction_none by done. change (scan_offset "+00:00") with (Some 0). cbv iota beta. f_equal. rewrite Hsecs. unfold secs. lia.
  - change (String "." (pad 6 (us mod 1000000) +:+ "+00:00")) with ("." +:+ (pad 6 (us mod 1000000) +:+ "+00:00")).
    rewrite scan_fraction_pad by done. change (scan_offset "+00:00") with (Some 0).
    cbv iota beta. f_equal. rewrite Hsecs. unfold secs. lia.
Qed.

(** ** The order of ISO dates *)

(** Months counted from March of year 0, and the days before each *)
Definition month_index (y m : Z) : Z := 12 * y + m - 3.
Definition month_start (k : Z) : Z := year_start (k / 12) + (153 * (k mod 12) + 2) / 5.

Definition check_month (k : Z) : bool :=
  let mp := k mod 12 in
  let m := if mp <? 10 then mp + 3 else mp - 9 in
  let y := k / 12 + (if m <=? 2 then 1 else 0) in
  days_in_month y m <=? month_start (k + 1) - month_start k.
Lemma check_months : forallb check_month (seqZ 0 4800) = true.
Proof. vm_compute. reflexivity. Qed.

Lemma year_start_era y e : year_start (y + 400 * e) = year_start y + 146097 * e.
Proof. unfold year_start. Z.to_euclidean_division_equations. lia. Qed.

Lemma month_start_era k e : month_start (k + 4800 * e) = month_start k + 146097 * e.
Proof.
  unfold month_start. replace (k + 4800 * e) with (k + (400 * e) * 12) by lia.
  rewrite Z.div_add, Z.mod_add, year_start_era by lia. lia.
Qed.

Lemma month_fits y m : 1 <= m <= 12 →
  days_in_month y m <= month_start (month_index y m + 1) - month_start (month_index y m).
Proof.
  intros Hm. set (k := month_index y m).
  pose proof (Z.div_mod k 4800 ltac:(lia)) as Hk. pose proof (Z.mod_pos_bound k 4800 ltac:(lia)) as Hr.
  pose proof (forallb_seqZ _ _ _ (k mod 4800) check_months ltac:(lia)) as Hc. unfold check_month in Hc.
  set (e := k / 4800) in *. set (r := k mod 4800) in *.
  assert (k = r + 4800 * e) as Hk' by lia.
  replace (k + 1) with (r + 1 + 4800 * e) by lia. replace (month_start k) with (month_start (r + 4800 * e)) by (by rewrite Hk').
  rewrite !month_start_era.
  apply Z.leb_le in Hc. etrans; [|etrans; [exact Hc|lia]].
  assert (r mod 12 = (m - 3) mod 12) as Hmod.
  { assert (r = m - 3 + (y - 400 * e) * 12) as -> by (unfold k, month_index in Hk; lia). by rewrite Z.mod_add by lia. }
  assert (r / 12 = (m - 3) / 12 + (y - 400 * e)) as Hdiv.
  { assert (r = m - 3 + (y - 400 * e) * 12) as -> by (unfold k, month_index in Hk; lia). by rewrite Z.div_add by lia. }
  rewrite Hmod, Hdiv.
  assert ((if (m - 3) mod 12 <? 10 then (m - 3) mod 12 + 3 else (m - 3) mod 12 - 9) = m) as ->.
  { destruct (Z.ltb_spec ((m - 3) mod 12) 10); Z.to_euclidean_division_equations; lia. }
  assert ((m - 3) / 12 + (y - 400 * e) + (if m <=? 2 then 1 else 0) = y + 400 * (- e)) as ->.
  { destruct (Z.leb_spec m 2); Z.to_euclidean_division_equations; lia. }
  by rewrite days_in_month_era.
Qed.

Lemma month_start_step k : month_start k <= month_start (k + 1).
Proof.
  pose proof (Z.div_mod k 12 ltac:(lia)). pose proof (Z.mod_pos_bound k 12 ltac:(lia)).
  unfold month_start. destruct (decide (k mod 12 = 11)) as [He|Hne].
  - replace (k + 1) with (0 + (k / 12 + 1) * 12) by lia. rewrite Z.div_add, Z.mod_add by lia.
    rewrite He. change (0 / 12) with 0. change (0 mod 12) with 0.
    unfold year_start. Z.to_euclidean_division_equations. lia.
  - replace (k + 1) with (k mod 12 + 1 + (k / 12) * 12) by lia. rewrite Z.div_add, Z.mod_add by lia.
    rewrite (Z.div_small (k mod 12 + 1) 12), (Z.mod_small (k mod 12 + 1) 12) by lia.
    rewrite Z.add_0_l. apply Z.add_le_mono_l, Z.div_le_mono; lia.
Qed.

Lemma month_start_mono k k' : k <= k' → month_start k <= month_start k'.
Proof.
  intros Hk. pattern k'. apply (Zlt_lower_bound_ind _ k); [|done]. intros x IH Hx.
  destruct (decide (x = k)) as [->|]; [done|]. etrans; [apply (IH (x - 1)); lia|].
  pose proof (month_start_step (x - 1)). by replace (x - 1 + 1) with x in * by lia.
Qed.

Lemma days_from_civil_month y m d : 1 <= m <= 12 →
  days_from_civil y m d = month_start (month_index y m) + d - 1 - 719468.
Proof.
  intros Hm. unfold days_from_civil, month_start. pose proof (era_year_start (if m <=? 2 then y - 1 else y)) as He.
  assert (month_index y m / 12 = (if m <=? 2 then y - 1 else y)) as ->.
  { unfold month_index. destruct (Z.leb_spec m 2); Z.to_euclidean_division_equations; lia. }
  assert (month_index y m mod 12 = (if m <=? 2 then m + 9 else m - 3)) as ->.
  { unfold month_index. destruct (Z.leb_spec m 2); Z.to_euclidean_division_equations; lia. }
  lia.
Qed.

(** Later days have later dates. *)
Lemma civil_order z z' : z < z' →
  let '(y, m, d) := civil z in let '(y', m', d') := civil z' in
  y < y' ∨ y = y' ∧ (m < m' ∨ m = m' ∧ d < d').
Proof.
  intros Hz. pose proof (civil_spec z) as H. pose proof (civil_spec z') as H'.
  destruct (civil z) as [[y m] d], (civil z') as [[y' m'] d'].
  destruct H as (<-&Hm&Hd), H' as (<-&Hm'&Hd'). rewrite !days_from_civil_month in Hz by done.
  pose proof (month_fits y m Hm). pose proof (month_fits y' m' Hm').
  destruct (Z.lt_trichotomy (month_index y m) (month_index y' m')) as [Hl|[He|Hg]].
  - unfold month_index in Hl. lia.
  - rewrite He in Hz. unfold month_index in He. lia.
  - pose proof (month_start_mono (month_index y' m' + 1) (month_index y m) ltac:(lia)). lia.
Qed.

Lemma ascii_compare_refl c : Ascii.compare c c = Eq.
Proof. unfold Ascii.compare. apply N.compare_refl. Qed.

Lemma string_compare_app p s s' : String.compare (p +:+ s) (p +:+ s') = String.compare s s'.
Proof.
  induction p as [|c p IH]; [done|].
  change (String.compare (String c p +:+ s) (String c p +:+ s')) with
    (match Ascii.compare c c with Eq => String.compare (p +:+ s) (p +:+ s') | r => r end).
  by rewrite ascii_compare_refl.
Qed.

Lemma digit_compare a b : 0 <= a < 10 → 0 <= b < 10 →
  Ascii.compare (ascii_of_nat (48 + Z.to_nat a)) (ascii_of_nat (48 + Z.to_nat b)) = (a ?= b).
Proof.
  intros Ha Hb. unfold Ascii.compare, ascii_of_nat. rewrite !N_ascii_embedding by lia.
  rewrite <- N2Z.inj_compare, !nat_N_Z, !Nat2Z.inj_add, !Z2Nat.id by lia. apply Zcompare_plus_compat.
Qed.

(** Numbers padded to one width compare as numbers. *)
Lemma pad_compare_mod k n n' s s' :
  String.compare (pad k n +:+ s) (pad k n' +:+ s') =
  match n mod 10 ^ Z.of_nat k ?= n' mod 10 ^ Z.of_nat k with Eq => String.compare s s' | c => c end.
Proof.
  induction k as [|k IH].
  { change (10 ^ Z.of_nat 0) with 1. by rewrite !Z.mod_1_r. }
  rewrite !pad_cons.
  set (c := ascii_of_nat (48 + Z.to_nat (n / 10 ^ Z.of_nat k mod 10))).
  set (c' := ascii_of_nat (48 + Z.to_nat (n' / 10 ^ Z.of_nat k mod 10))).
  change (String.compare (String c (pad k n) +:+ s) (String c' (pad k n') +:+ s')) with
    (match Ascii.compare c c' with Eq => String.compare (pad k n +:+ s) (pad k n' +:+ s') | r => r end).
  unfold c, c'. rewrite digit_compare by (apply Z.mod_pos_bound; lia). rewrite IH.
  rewrite Nat2Z.inj_succ, Z.pow_succ_r by lia. set (p := 10 ^ Z.of_nat k). assert (0 < p) by (unfold p; lia).
  rewrite !(Z.mul_comm 10 p), !Z.rem_mul_r by lia.
  pose proof (Z.mod_pos_bound n p ltac:(lia)). pose proof (Z.mod_pos_bound n' p ltac:(lia)).
  destruct (Z.compare_spec ((n / p) mod 10) ((n' / p) mod 10)) as [He|Hl|Hg].
  - rewrite He. by rewrite Z.add_comm, (Z.add_comm (n' mod p)), Zcompare_plus_compat.
  - destruct (Z.compare_spec (n mod p + p * ((n / p) mod 10)) (n' mod p + p * ((n' / p) mod 10))); try done; nia.
  - destruct (Z.compare_spec (n mod p + p * ((n / p) mod 10)) (n' mod p + p * ((n' / p) mod 10))); try done; nia.
Qed.

Lemma pad_compare k n n' s s' : 0 <= n < 10 ^ Z.of_nat k → 0 <= n' < 10 ^ Z.of_nat k →
  String.compare (pad k n +:+ s) (pad k n' +:+ s') = match n ?= n' with Eq => String.compare s s' | c => c end.
Proof. intros Hn Hn'. rewrite pad_compare_mod, !Z.mod_small by done. done. Qed.

Lemma isoformat_lt d d' : date_in_range d → date_in_range d' → d < d' →
  String.compare (isoformat d) (isoformat d') = Lt.
Proof.
  intros Hd Hd' Hlt. pose proof (civil_range d Hd) as H. pose proof (civil_range d' Hd') as H'.
  pose proof (civil_order d d' Hlt) as Ho.
  unfold isoformat. destruct (civil d) as [[y m] dd], (civil d') as [[y' m'] dd'].
  destruct H as (Hy&Hm&Hdd&Hz), H' as (Hy'&Hm'&Hdd'&Hz').
  pose proof (days_in_month_le y m). pose proof (days_in_month_le y' m').
  rewrite pad_compare, string_compare_app, pad_compare, string_compare_app by (cbn; lia).
  rewrite <- (string_append_nil (pad 2 dd)), <- (string_append_nil (pad 2 dd')), pad_compare by (cbn; lia).
  destruct (Z.compare_spec y y'), (Z.compare_spec m m'), (Z.compare_spec dd dd'); try done; lia.
Qed.

(** ISO dates sort as the days they name. *)
Lemma isoformat_compare d d' : date_in_range d → date_in_range d' →
  String.compare (isoformat d) (isoformat d') = (d ?= d').
Proof.
  intros Hd Hd'. destruct (Z.compare_spec d d') as [<-|Hl|Hg].
  - rewrite <- (string_append_nil (isoformat d)). by rewrite string_compare_app.
  - by apply isoformat_lt.
  - rewrite String.compare_antisym, isoformat_lt by done. done.
Qed.

Lemma isoformat_leb d d' : date_in_range d → date_in_range d' →
  String.leb (isoformat d) (isoformat d') = (d <=? d').
Proof. intros Hd Hd'. unfold String.leb, Z.leb. by rewrite isoformat_compare. Qed.
