(* ===== verification/Ndjson.v ===== *)
(** * The log's line codec ([wal/ndjson_codec.py])

    Records are Python values, lines are JSON.  A Python string is held as its
    UTF-8 bytes, so everything outside ASCII passes through unchanged, as it
    does in the code ([ensure_ascii=False]) except in dictionary keys, which
    [json.dumps] escapes.  The decoder is the grammar of [json.loads] with
    [parse_float=Decimal]; it takes fuel, twice the length of the line, which
    [decode_terminates] shows to be enough. *)
From S2P Require Import Prelude PyDict PyDecimal NasKey Wal PyTime.
From Stdlib Require Import Ascii.
Open Scope string_scope.
Open Scope list_scope.
Open Scope Z_scope.

(** ** Python values *)

Inductive pyval :=
| PNone
| PBool (b : bool)
| PInt (z : Z)
| PDec (d : decimal)
| PDecSpecial            (* a NaN or an infinite Decimal *)
| PDatetime (us : Z)     (* an aware UTC datetime *)
| PStr (s : string)
| PConst (s : string)    (* the floats [NaN], [Infinity], [-Infinity] *)
| PList (l : list pyval)
| PDict (d : list (string * pyval))
| POther.                (* an object of any other class *)

(** Induction through the lists. *)
Section pyval_rect.
Context (P : pyval → Prop) (Hlist : ∀ l, Forall P l → P (PList l)) (Hdict : ∀ d, Forall (λ e, P e.2) d → P (PDict d))
  (Hrest : ∀ v, match v with PList _ | PDict _ => True | _ => P v end).
Fixpoint pyval_nested (v : pyval) : P v :=
  match v with
  | PList l => Hlist l ((fix go l := match l return Forall P l with [] => Forall_nil_2 _ | x :: l => Forall_cons_2 _ x l (pyval_nested x) (go l) end) l)
  | PDict d => Hdict d ((fix go d := match d return Forall (λ e, P e.2) d with [] => Forall_nil_2 _ | e :: d => Forall_cons_2 _ e d (pyval_nested e.2) (go d) end) d)
  | v => Hrest v
  end.
End pyval_rect.

(** ** Numbers as text *)

(** [str(n)] *)
Definition nat_text (n : Z) : string := pad (Z.to_nat (ndigits n)) n.
Definition int_text (z : Z) : string := if z <? 0 then "-" +:+ nat_text (- z) else nat_text z.

Fixpoint zeros (n : nat) : string := match n with O => "" | S n => String "0" (zeros n) end.

(** [format(d, "f")] *)
Definition format_f (d : decimal) : string :=
  let sign := if coef d <? 0 then "-" else "" in
  let c := Z.abs (coef d) in
  sign +:+
  (if 0 <=? expo d then if c =? 0 then "0" else nat_text c +:+ zeros (Z.to_nat (expo d))
   else let k := - expo d in nat_text (c / 10 ^ k) +:+ "." +:+ pad (Z.to_nat k) (c mod 10 ^ k)).

(** ** Strings *)

Definition chr (n : nat) : ascii := ascii_of_nat n.
Definition backslash : ascii := chr 92.
Definition hex_digit (n : Z) : ascii := chr (Z.to_nat (if n <? 10 then 48 + n else 87 + n)).
(** [\uXXXX] *)
Definition u_escape (n : Z) : string :=
  String backslash (String "u" (String (hex_digit (n / 4096 mod 16)) (String (hex_digit (n / 256 mod 16))
    (String (hex_digit (n / 16 mod 16)) (String (hex_digit (n mod 16)) ""))))).
Definition two (c : ascii) : string := String backslash (String c "").
Definition dquote : ascii := chr 34.

(** One character of a string value, where only quote, backslash and control
    characters are escaped *)
Definition escape_char (c : ascii) : string :=
  if Ascii.eqb c dquote then two dquote
  else if Ascii.eqb c backslash then two backslash
  else if ord c =? 10 then two "n" else if ord c =? 13 then two "r" else if ord c =? 9 then two "t"
  else if ord c =? 12 then two "f" else if ord c =? 8 then two "b"
  else if ord c <? 32 then u_escape (ord c) else String c "".
Fixpoint escape (s : string) : string :=
  match s with EmptyString => "" | String c s' => escape_char c +:+ escape s' end.
Definition quoted (s : string) : string := String dquote (s +:+ String dquote "").

(** Low six bits of a continuation byte *)
Definition low6 (c : ascii) : Z := ord c mod 64.
(** A character above the basic plane is a surrogate pair. *)
Definition u_escape_any (n : Z) : string :=
  if n <? 65536 then u_escape n
  else u_escape (55296 + (n - 65536) / 1024) +:+ u_escape (56320 + (n - 65536) mod 1024).

(** A key, where everything outside printable ASCII is escaped; the UTF-8
    sequences are read as their code points. *)
Fixpoint escape_key (s : string) : string :=
  match s with
  | EmptyString => ""
  | String c s1 =>
      if ord c <? 127 then escape_char c +:+ escape_key s1
      else if ord c <? 128 then u_escape (ord c) +:+ escape_key s1
      else match s1 with
           | String c1 s2 =>
               if ord c <? 224 then u_escape (ord c mod 32 * 64 + low6 c1) +:+ escape_key s2
               else match s2 with
                    | String c2 s3 =>
                        if ord c <? 240 then u_escape (ord c mod 16 * 4096 + low6 c1 * 64 + low6 c2) +:+ escape_key s3
                        else match s3 with
                             | String c3 s4 =>
                                 u_escape_any (ord c mod 8 * 262144 + low6 c1 * 4096 + low6 c2 * 64 + low6 c3) +:+ escape_key s4
                             | EmptyString => ""
                             end
                    | EmptyString => ""
                    end
           | EmptyString => ""
           end
  end.

(** ** Encoding *)

(** [",".join(...)] *)
Fixpoint comma (parts : list string) : string :=
  match parts with [] => "" | [p] => p | p :: ps => p +:+ "," +:+ comma ps end.

(** A loop whose body may raise *)
Definition res_map {A B} (f : A → res B) : list A → res (list B) :=
  fix go l := match l with [] => Ok [] | x :: l' => rbind (f x) (λ y, rbind (go l') (λ ys, Ok (y :: ys))) end.

(** [_decimal_iterencode], joined *)
Fixpoint encode (v : pyval) : res string :=
  match v with
  | PNone => Ok "null"
  | PBool b => Ok (if b then "true" else "false")
  | PInt z => Ok (int_text z)
  | PDec d => Ok (format_f d)
  | PDecSpecial => Raise ValueError
  | PDatetime us => Ok (quoted (escape (iso_time us)))
  | PStr s => Ok (quoted (escape s))
  | PConst s => Ok s
  | POther => Raise TypeError
  | PList l => rbind (res_map encode l) (λ ts, Ok ("[" +:+ comma ts +:+ "]"))
  | PDict d =>
      rbind (res_map (λ e, rbind (encode e.2) (λ t, Ok (quoted (escape_key e.1) +:+ ":" +:+ t))) d)
        (λ ts, Ok ("{" +:+ comma ts +:+ "}"))
  end.

Definition newline : string := String (chr 10) "".
Definition encode_record (record : list (string * pyval)) : res string :=
  rbind (encode (PDict record)) (λ t, Ok (t +:+ newline)).

(** ** Decoding *)

Definition is_ws (c : ascii) : bool := (ord c =? 32) || (ord c =? 9) || (ord c =? 10) || (ord c =? 13).
Fixpoint skip_ws (s : string) : string :=
  match s with String c s' => if is_ws c then skip_ws s' else s | EmptyString => "" end.

(** The longest run of digits, and the rest. *)
Fixpoint take_digits (s : string) : string * string :=
  match s with
  | String c s' => if is_digit c then let '(ds, r) := take_digits s' in (String c ds, r) else ("", s)
  | EmptyString => ("", "")
  end.
(** [int(digits)] *)
Fixpoint digits_value_from (acc : Z) (s : string) : Z :=
  match s with String c s' => digits_value_from (10 * acc + (ord c - 48)) s' | EmptyString => acc end.
Definition digits_value (s : string) : Z := digits_value_from 0 s.

Definition hex_value (c : ascii) : option Z :=
  if is_digit c then Some (ord c - 48)
  else if (97 <=? ord c) && (ord c <? 103) then Some (ord c - 87)
  else if (65 <=? ord c) && (ord c <? 71) then Some (ord c - 55) else None.
Definition hex4 (a b c d : ascii) : option Z :=
  match hex_value a, hex_value b, hex_value c, hex_value d with
  | Some a, Some b, Some c, Some d => Some (((a * 16 + b) * 16 + c) * 16 + d)
  | _, _, _, _ => None
  end.
(** The UTF-8 bytes of a code point *)
Definition utf8 (n : Z) : string :=
  let b z := chr (Z.to_nat z) in
  if n <? 128 then String (b n) ""
  else if n <? 2048 then String (b (192 + n / 64)) (String (b (128 + n mod 64)) "")
  else if n <? 65536 then String (b (224 + n / 4096)) (String (b (128 + n / 64 mod 64)) (String (b (128 + n mod 64)) ""))
  else String (b (240 + n / 262144)) (String (b (128 + n / 4096 mod 64)) (String (b (128 + n / 64 mod 64)) (String (b (128 + n mod 64)) ""))).

Definition unescape (c : ascii) : option ascii :=
  if Ascii.eqb c dquote || Ascii.eqb c backslash || Ascii.eqb c "/" then Some c
  else if Ascii.eqb c "n" then Some (chr 10) else if Ascii.eqb c "r" then Some (chr 13)
  else if Ascii.eqb c "t" then Some (chr 9) else if Ascii.eqb c "f" then Some (chr 12)
  else if Ascii.eqb c "b" then Some (chr 8) else None.

(** The text up to the closing quote, and what follows it.  A [\u] escape of a
    high surrogate joins the low one that follows. *)
Fixpoint scan_string (s : string) : res (string * string) :=
  let cons t r := rbind r (λ p, Ok (t +:+ p.1, p.2)) in
  match s with
  | EmptyString => Raise ValueError
  | String c s' =>
      if Ascii.eqb c dquote then Ok ("", s')
      else if Ascii.eqb c backslash then
        match s' with
        | String e s2 =>
            if Ascii.eqb e "u" then
              match s2 with
              | String a (String b (String c (String d s6))) =>
                  match hex4 a b c d with
                  | None => Raise ValueError
                  | Some n =>
                      match s6 with
                      | String e1 (String e2 (String a' (String b' (String c' (String d' s12))))) =>
                          match (if Ascii.eqb e1 backslash && Ascii.eqb e2 "u" then hex4 a' b' c' d' else None) with
                          | Some m =>
                              if (55296 <=? n) && (n <? 56320) && (56320 <=? m) && (m <? 57344)
                              then cons (utf8 (65536 + (n - 55296) * 1024 + (m - 56320))) (scan_string s12)
                              else cons (utf8 n) (scan_string s6)
                          | None => cons (utf8 n) (scan_string s6)
                          end
                      | _ => cons (utf8 n) (scan_string s6)
                      end
                  end
              | _ => Raise ValueError
              end
            else match unescape e with Some u => cons (String u "") (scan_string s2) | None => Raise ValueError end
        | EmptyString => Raise ValueError
        end
      else if ord c <? 32 then Raise ValueError
      else cons (String c "") (scan_string s')
  end.

(** The number regex: sign, integer part, fraction, exponent. *)
Definition scan_frac (s : string) : option (string * string) :=
  match s with
  | String c s' => if Ascii.eqb c "." then let '(ds, r) := take_digits s' in if String.eqb ds "" then None else Some (ds, r) else None
  | EmptyString => None
  end.
Definition scan_exponent (s : string) : option (Z * string) :=
  match s with
  | String c s' =>
      if Ascii.eqb c "e" || Ascii.eqb c "E" then
        let '(sign, s2) := match s' with
          | String c' s2 => if Ascii.eqb c' "-" then (-1, s2) else if Ascii.eqb c' "+" then (1, s2) else (1, s')
          | EmptyString => (1, s') end in
        let '(ds, r) := take_digits s2 in if String.eqb ds "" then None else Some (sign * digits_value ds, r)
      else None
  | EmptyString => None
  end.
Definition scan_int_part (s : string) : option (string * string) :=
  match s with
  | String c s' => if Ascii.eqb c "0" then Some ("0", s') else if is_digit c then Some (take_digits s) else None
  | EmptyString => None
  end.
Definition scan_number (s : string) : res (pyval * string) :=
  let '(neg, s1) := match s with String c s' => if Ascii.eqb c "-" then (true, s') else (false, s) | EmptyString => (false, s) end in
  let sign := if neg : bool then -1 else 1 in
  match scan_int_part s1 with
  | None => Raise ValueError
  | Some (ip, s2) =>
      match scan_frac s2 with
      | Some (fp, s3) =>
          let e := from_option id (0, s3) (scan_exponent s3) in
          Ok (PDec (Dec (sign * digits_value (ip +:+ fp)) (e.1 - Z.of_nat (String.length fp))), e.2)
      | None =>
          match scan_exponent s2 with
          | Some (e, s3) => Ok (PDec (Dec (sign * digits_value ip) e), s3)
          | None => Ok (PInt (sign * digits_value ip), s2)
          end
      end
  end.

(** [dict(pairs)]: the last value of a repeated key stays. *)
Definition dict_of (pairs : list (string * pyval)) : list (string * pyval) :=
  foldl (λ d e, dset d e.1 e.2) [] pairs.

Definition literals : list (string * pyval) :=
  [("null", PNone); ("true", PBool true); ("false", PBool false);
   ("NaN", PConst "NaN"); ("Infinity", PConst "Infinity"); ("-Infinity", PConst "-Infinity")].
Fixpoint scan_literal (lits : list (string * pyval)) (s : string) : option (pyval * string) :=
  match lits with
  | [] => None
  | (t, v) :: lits' => if startswith t s then Some (v, removeprefix t s) else scan_literal lits' s
  end.

Definition out_of_fuel {A} : res A := Raise (OtherException "out of fuel").
(** [s] starts with [c]: what follows. *)
Definition expect (c : ascii) (s : string) : option string :=
  match s with String a s' => if Ascii.eqb a c then Some s' else None | EmptyString => None end.

(** [scan_once], and the loops over the rest of an array and of an object *)
Fixpoint scan_value (fuel : nat) (s : string) : res (pyval * string) :=
  match fuel with
  | O => out_of_fuel
  | S fuel =>
      match expect dquote s, expect "[" s, expect "{" s with
      | Some s', _, _ => rbind (scan_string s') (λ p, Ok (PStr p.1, p.2))
      | _, Some s', _ =>
          match expect "]" (skip_ws s') with
          | Some r => Ok (PList [], r)
          | None => rbind (scan_elements fuel (skip_ws s')) (λ p, Ok (PList p.1, p.2))
          end
      | _, _, Some s' =>
          match expect "}" (skip_ws s') with
          | Some r => Ok (PDict [], r)
          | None => rbind (scan_members fuel (skip_ws s')) (λ p, Ok (PDict (dict_of p.1), p.2))
          end
      | _, _, _ => match scan_literal literals s with Some p => Ok p | None => scan_number s end
      end
  end
with scan_elements (fuel : nat) (s : string) : res (list pyval * string) :=
  match fuel with
  | O => out_of_fuel
  | S fuel =>
      rbind (scan_value fuel s) (λ p,
      match expect "," (skip_ws p.2), expect "]" (skip_ws p.2) with
      | Some r, _ => rbind (scan_elements fuel (skip_ws r)) (λ q, Ok (p.1 :: q.1, q.2))
      | _, Some r => Ok ([p.1], r)
      | _, _ => Raise ValueError
      end)
  end
with scan_members (fuel : nat) (s : string) : res (list (string * pyval) * string) :=
  match fuel with
  | O => out_of_fuel
  | S fuel =>
      match expect dquote s with
      | None => Raise ValueError
      | Some s1 =>
          rbind (scan_string s1) (λ k,
          match expect ":" (skip_ws k.2) with
          | None => Raise ValueError
          | Some s2 =>
              rbind (scan_value fuel (skip_ws s2)) (λ p,
              match expect "," (skip_ws p.2), expect "}" (skip_ws p.2) with
              | Some r, _ => rbind (scan_members fuel (skip_ws r)) (λ q, Ok ((k.1, p.1) :: q.1, q.2))
              | _, Some r => Ok ([(k.1, p.1)], r)
              | _, _ => Raise ValueError
              end)
          end)
      end
  end.

Definition line_fuel (s : string) : nat := 2 * String.length s + 2.

(** [decode_line]; text after the value is an error. *)
Definition decode_line (line : string) : res pyval :=
  rbind (scan_value (line_fuel line) (skip_ws line)) (λ p,
  if String.eqb (skip_ws p.2) "" then Ok p.1 else Raise ValueError).

(** ** Lemmas *)

#[local] Arguments String.append !_ _ / : simpl nomatch.
Notation len := String.length.

(** A scanner's answer: the rest of the text is shorter, or a [ValueError]. *)
Definition scans {A} (n : nat) (r : res (A * string)) : Prop :=
  match r with Ok p => (len p.2 < n)%nat | Raise e => e = ValueError end.

Lemma scans_bind {A B} n m (r : res (A * string)) (k : A * string → res (B * string)) :
  scans m r → (∀ p, (len p.2 < m)%nat → scans n (k p)) → scans n (rbind r k).
Proof. destruct r as [p|e]; simpl; auto. Qed.
Lemma scans_le {A} n m (r : res (A * string)) : (n <= m)%nat → scans n r → scans m r.
Proof. destruct r; simpl; [lia|done]. Qed.

Lemma skip_ws_length s : (len (skip_ws s) <= len s)%nat.
Proof. induction s as [|c s IH]; simpl; [done|]. destruct (is_ws c); simpl; lia. Qed.
Lemma expect_length c s r : expect c s = Some r → len s = S (len r).
Proof. destruct s as [|a s]; simpl; [done|]. destruct (Ascii.eqb a c); [by intros [= ->]|done]. Qed.
Lemma take_digits_length s : (len (take_digits s).2 <= len s)%nat.
Proof.
  induction s as [|c s IH]; simpl; [done|]. destruct (is_digit c); [|done].
  destruct (take_digits s). simpl in *. lia.
Qed.

Lemma scan_string_scans s : scans (len s) (scan_string s).
Proof.
  assert (∀ n s, (len s < n)%nat → scans (len s) (scan_string s)) as Hall; [|by apply (Hall (S (len s))); lia].
  clear s. intros n. induction n as [|n IH]; intros s Hn; [lia|].
  destruct s as [|c s']; [done|]. simpl in Hn.
  assert (∀ t r, (len r < len (String c s'))%nat → (len r < n)%nat →
    scans (len (String c s')) (rbind (scan_string r) (λ p, Ok (t +:+ p.1, p.2)))) as Hc.
  { intros t r Hr Hrn. eapply scans_bind; [by apply IH|]. intros p Hp. simpl in *. lia. }
  cbn [scan_string]. destruct (Ascii.eqb c dquote); [simpl; lia|]. destruct (Ascii.eqb c backslash).
  2: { destruct (ord c <? 32); [done|]. apply (Hc (String c "")); simpl; lia. }
  destruct s' as [|e s2]; [done|]. destruct (Ascii.eqb e "u").
  2: { destruct (unescape e); [|done]. apply (Hc (String a "")); simpl in *; lia. }
  destruct s2 as [|a [|b [|c' [|d s6]]]]; try done. destruct (hex4 a b c' d) as [n'|]; [|done].
  assert (scans (len (String c (String e (String a (String b (String c' (String d s6)))))))
    (rbind (scan_string s6) (λ p, Ok (utf8 n' +:+ p.1, p.2)))) as H6 by (apply Hc; simpl in *; lia).
  destruct s6 as [|e1 [|e2 [|a1 [|b1 [|c1 [|d1 s12]]]]]]; try exact H6.
  destruct (if _ && _ then _ else None) as [m|]; [|exact H6].
  destruct (_ && _ && _ && _); [|exact H6]. apply Hc; simpl in *; lia.
Qed.

Lemma scan_number_scans s : scans (len s) (scan_number s).
Proof.
  unfold scan_number.
  destruct (match s with String c s' => _ | EmptyString => _ end) as [neg s1] eqn:Hneg.
  assert (len s1 <= len s)%nat as H1.
  { destruct s as [|c s']; [by injection Hneg as <- <-|]. destruct (Ascii.eqb c "-"); injection Hneg as <- <-; simpl; lia. }
  destruct (scan_int_part s1) as [[ip s2]|] eqn:Hi; [|done].
  assert (len s2 < len s)%nat as H2.
  { destruct s1 as [|c s1]; [done|]. simpl in Hi, H1. destruct (Ascii.eqb c "0"); [injection Hi as <- <-; lia|].
    destruct (is_digit c); [|done]. pose proof (take_digits_length s1). destruct (take_digits s1) as [ds r].
    injection Hi as <- <-. simpl in *. lia. }
  assert (∀ s2 e s3, scan_exponent s2 = Some (e, s3) → (len s3 <= len s2)%nat) as Hexp.
  { clear. intros [|c s2] e s3; simpl; [done|]. destruct (_ || _); [|done].
    destruct (match s2 with String _ _ => _ | EmptyString => _ end) as [sg s4] eqn:Hs4.
    assert (len s4 <= len s2)%nat as H4.
    { destruct s2 as [|c' s2]; [by injection Hs4 as <- <-|]. repeat case_match; simplify_eq; simpl; lia. }
    pose proof (take_digits_length s4). destruct (take_digits s4) as [ds r]. destruct (String.eqb ds ""); [done|].
    intros [= <- <-]. simpl in *. lia. }
  destruct (scan_frac s2) as [[fp s3]|] eqn:Hf.
  - assert (len s3 <= len s2)%nat as H3.
    { destruct s2 as [|c s2]; [done|]. simpl in Hf. destruct (Ascii.eqb c "."); [|done].
      pose proof (take_digits_length s2). destruct (take_digits s2) as [ds r]. destruct (String.eqb ds ""); [done|].
      injection Hf as <- <-. simpl in *. lia. }
    simpl. destruct (scan_exponent s3) as [[e s4]|] eqn:He; simpl; [apply Hexp in He; lia|lia].
  - destruct (scan_exponent s2) as [[e s4]|] eqn:He; simpl; [apply Hexp in He; lia|lia].
Qed.

Lemma scan_literal_length lits s p :
  (∀ t v, (t, v) ∈ lits → (0 < len t)%nat) → scan_literal lits s = Some p → (len p.2 < len s)%nat.
Proof.
  induction lits as [|[t v] lits IH]; intros Hl; simpl; [done|]. destruct (startswith t s) eqn:Hs.
  - unfold startswith in Hs. apply prefix_split in Hs as [r ->]. intros [= <-]. simpl.
    rewrite removeprefix_app, string_app_length. specialize (Hl t v ltac:(by left)). lia.
  - apply IH. intros. eapply Hl. by right.
Qed.

#[local] Arguments scan_literal : simpl never.

Lemma scan_total fuel :
  (∀ s, (2 * len s + 1 <= fuel)%nat → scans (len s) (scan_value fuel s)) ∧
  (∀ s, (2 * len s + 2 <= fuel)%nat → scans (len s) (scan_elements fuel s)) ∧
  (∀ s, (2 * len s + 2 <= fuel)%nat → scans (len s) (scan_members fuel s)).
Proof.
  induction fuel as [|fuel (IHv&IHe&IHm)]; [split_and!; intros; lia|]. split_and!; intros s Hf; simpl.
  - destruct (expect dquote s) as [s'|] eqn:Hq.
    { apply expect_length in Hq. eapply scans_bind; [apply scan_string_scans|]. intros p Hp. simpl. lia. }
    destruct (expect "[" s) as [s'|] eqn:Hl.
    { apply expect_length in Hl. pose proof (skip_ws_length s'). destruct (expect "]" (skip_ws s')) as [r|] eqn:Hr.
      - apply expect_length in Hr. simpl. lia.
      - eapply scans_bind; [apply IHe; lia|]. intros p Hp. simpl. lia. }
    destruct (expect "{" s) as [s'|] eqn:Ho.
    { apply expect_length in Ho. pose proof (skip_ws_length s'). destruct (expect "}" (skip_ws s')) as [r|] eqn:Hr.
      - apply expect_length in Hr. simpl. lia.
      - eapply scans_bind; [apply IHm; lia|]. intros p Hp. simpl. lia. }
    destruct (scan_literal literals s) as [p|] eqn:Hs; [|apply scan_number_scans]. simpl.
    eapply scan_literal_length; [|exact Hs]. clear. intros t v Hin. unfold literals in Hin.
    repeat (apply elem_of_cons in Hin as [[= -> ->]|Hin]; [simpl; lia|]). by apply not_elem_of_nil in Hin.
  - eapply scans_bind; [apply IHv; lia|]. intros [v r] Hr. simpl in *. pose proof (skip_ws_length r).
    destruct (expect "," (skip_ws r)) as [r'|] eqn:Hc.
    { apply expect_length in Hc. pose proof (skip_ws_length r'). eapply scans_bind; [apply IHe; lia|]. intros p Hp. simpl. lia. }
    destruct (expect "]" (skip_ws r)) as [r'|] eqn:Hb; [|done]. apply expect_length in Hb. simpl. lia.
  - destruct (expect dquote s) as [s1|] eqn:Hq; [|done]. apply expect_length in Hq.
    eapply scans_bind; [apply scan_string_scans|]. intros [k r] Hr. simpl in *. pose proof (skip_ws_length r).
    destruct (expect ":" (skip_ws r)) as [s2|] eqn:Hc; [|done]. apply expect_length in Hc. pose proof (skip_ws_length s2).
    eapply scans_bind; [apply IHv; lia|]. intros [v r2] Hr2. simpl in *. pose proof (skip_ws_length r2).
    destruct (expect "," (skip_ws r2)) as [r3|] eqn:Hc2.
    { apply expect_length in Hc2. pose proof (skip_ws_length r3). eapply scans_bind; [apply IHm; lia|]. intros p Hp. simpl. lia. }
    destruct (expect "}" (skip_ws r2)) as [r3|] eqn:Hb; [|done]. apply expect_length in Hb. simpl. lia.
Qed.

(** *** Numbers read back *)

Definition no_digit_first (s : string) : Prop := match s with String c _ => is_digit c = false | EmptyString => True end.

Lemma take_digits_pad k n s : no_digit_first s → take_digits (pad k n +:+ s) = (pad k n, s).
Proof.
  intros Hs. induction k as [|k IH].
  - destruct s as [|c s]; [done|]. simpl in *. by rewrite Hs.
  - rewrite pad_cons. cbn [String.append take_digits]. unfold is_digit.
    pose proof (Z.mod_pos_bound (n / 10 ^ Z.of_nat k) 10 ltac:(lia)) as Hb.
    rewrite ord_digit by done.
    replace (48 <=? 48 + n / 10 ^ Z.of_nat k mod 10) with true by (symmetry; apply Z.leb_le; lia).
    replace (48 + n / 10 ^ Z.of_nat k mod 10 <? 58) with true by (symmetry; apply Z.ltb_lt; lia).
    cbn [andb]. by rewrite IH.
Qed.

Lemma digits_value_pad k n acc s :
  digits_value_from acc (pad k n +:+ s) = digits_value_from (acc * 10 ^ Z.of_nat k + n mod 10 ^ Z.of_nat k) s.
Proof.
  revert acc. induction k as [|k IH]; intros acc.
  - cbn [pad String.append]. rewrite Z.mod_1_r. f_equal. lia.
  - rewrite pad_cons. cbn [String.append digits_value_from].
    rewrite ord_digit by (apply Z.mod_pos_bound; lia). rewrite IH. f_equal.
    rewrite Nat2Z.inj_succ, Z.pow_succ_r by lia.
    rewrite (Z.mul_comm 10 (10 ^ Z.of_nat k)), Z.rem_mul_r by lia. ring.
Qed.

Lemma nat_text_value n s : 0 <= n → digits_value_from 0 (nat_text n +:+ s) = digits_value_from n s.
Proof.
  intros Hn. unfold nat_text. rewrite digits_value_pad. f_equal.
  pose proof (ndigits_pos_bounds n) as Hb. rewrite Z.mod_small; [lia|].
  destruct (decide (n = 0)) as [->|Hne]; [lia|]. specialize (Hb ltac:(lia)). rewrite Z2Nat.id by lia. lia.
Qed.

Lemma scan_int_part_nat n s : 0 <= n → no_digit_first s → scan_int_part (nat_text n +:+ s) = Some (nat_text n, s).
Proof.
  intros Hn Hs. destruct (decide (n = 0)) as [->|Hne]; [done|].
  pose proof (ndigits_pos_bounds n ltac:(lia)) as Hb. unfold nat_text.
  destruct (Z.to_nat (ndigits n)) as [|k] eqn:Hk; [lia|].
  pose proof (take_digits_pad (S k) n s Hs) as Ht. rewrite pad_cons in *. cbn [String.append scan_int_part] in *.
  assert (Z.of_nat k = ndigits n - 1) as Hkz by lia. rewrite Hkz in *.
  assert (1 <= n / 10 ^ (ndigits n - 1) < 10) as Hd.
  { split; [apply Z.div_le_lower_bound; lia|apply Z.div_lt_upper_bound; [lia|]].
    rewrite Z.mul_comm, <- Z.pow_succ_r by lia. replace (Z.succ (ndigits n - 1)) with (ndigits n) by lia. lia. }
  rewrite Z.mod_small in * by lia. set (d := n / 10 ^ (ndigits n - 1)) in *.
  assert (Ascii.eqb (ascii_of_nat (48 + Z.to_nat d)) "0" = false) as ->.
  { apply Ascii.eqb_neq. intros Heq. apply (f_equal ord) in Heq. rewrite ord_digit in Heq by lia.
    change (ord "0") with 48 in Heq. lia. }
  assert (is_digit (ascii_of_nat (48 + Z.to_nat d)) = true) as ->.
  { unfold is_digit. rewrite ord_digit by lia. apply andb_true_iff. rewrite Z.leb_le, Z.ltb_lt. lia. }
  by rewrite Ht.
Qed.

(** What may follow a value in a line *)
Definition ends_value (s : string) : Prop :=
  match s with
  | EmptyString => True
  | String c _ => is_digit c = false ∧ Ascii.eqb c "." = false ∧ Ascii.eqb c "e" = false ∧ Ascii.eqb c "E" = false
  end.

Lemma ends_value_scan s : ends_value s → no_digit_first s ∧ scan_frac s = None ∧ scan_exponent s = None.
Proof. destruct s as [|c s]; [done|]. simpl. intros (?&->&->&->). done. Qed.

Lemma nat_text_head n : 0 <= n → ∃ c r, nat_text n = String c r ∧ is_digit c = true.
Proof.
  intros Hn. unfold nat_text. assert (1 <= ndigits n) as H1.
  { destruct (decide (n = 0)) as [->|]; [rewrite ndigits_0; lia|]. apply ndigits_pos_bounds. lia. }
  destruct (Z.to_nat (ndigits n)) as [|k] eqn:Hk; [lia|]. rewrite pad_cons. eexists _, _. split; [done|].
  unfold is_digit. rewrite ord_digit by (apply Z.mod_pos_bound; lia).
  pose proof (Z.mod_pos_bound (n / 10 ^ Z.of_nat k) 10 ltac:(lia)). apply andb_true_iff. rewrite Z.leb_le, Z.ltb_lt. lia.
Qed.

(** A text that starts like a number is scanned as one. *)
Lemma scan_value_number fuel c r :
  is_digit c = true →
  scan_value (S fuel) (String c r) = scan_number (String c r) ∧
  scan_value (S fuel) (String "-" (String c r)) = scan_number (String "-" (String c r)) ∧
  Ascii.eqb c "-" = false.
Proof. destruct c as [[] [] [] [] [] [] [] []]; try done. Qed.

Definition sign_text (neg : bool) : string := if neg then "-" else "".
Definition signed (neg : bool) (n : Z) : Z := if neg then - n else n.

Lemma scan_signed neg n r fuel : 0 <= n →
  scan_value (S fuel) (sign_text neg +:+ nat_text n +:+ r) = scan_number (sign_text neg +:+ nat_text n +:+ r) ∧
  scan_number (sign_text neg +:+ nat_text n +:+ r) =
    match scan_int_part (nat_text n +:+ r) with
    | None => Raise ValueError
    | Some (ip, s2) =>
        match scan_frac s2 with
        | Some (fp, s3) =>
            let e := from_option id (0, s3) (scan_exponent s3) in
            Ok (PDec (Dec ((if neg then -1 else 1) * digits_value (ip +:+ fp)) (e.1 - Z.of_nat (len fp))), e.2)
        | None =>
            match scan_exponent s2 with
            | Some (e, s3) => Ok (PDec (Dec ((if neg then -1 else 1) * digits_value ip) e), s3)
            | None => Ok (PInt ((if neg then -1 else 1) * digits_value ip), s2)
            end
        end
    end.
Proof.
  intros Hn. destruct (nat_text_head n Hn) as (c&t&->&Hc). destruct (scan_value_number fuel c (t +:+ r) Hc) as (H1&H2&H3).
  destruct neg; simpl sign_text; cbn [String.append]; (split; [done|]); unfold scan_number at 1.
  - done.
  - by rewrite H3.
Qed.

Lemma nat_digits n : 0 <= n → digits_value (nat_text n) = n.
Proof. intros Hn. unfold digits_value. pose proof (nat_text_value n "" Hn) as H. by rewrite string_app_nil_r in H. Qed.

Lemma int_text_signed z : int_text z = sign_text (z <? 0) +:+ nat_text (Z.abs z) ∧ signed (z <? 0) (Z.abs z) = z.
Proof. unfold int_text, sign_text, signed. destruct (z <? 0) eqn:Hz; py_bool; (split; [by rewrite ?Z.abs_neq, ?Z.abs_eq by lia|lia]). Qed.

Lemma scan_int z r fuel : ends_value r → scan_value (S fuel) (int_text z +:+ r) = Ok (PInt z, r).
Proof.
  intros (Hd&Hf&He)%ends_value_scan. destruct (int_text_signed z) as [-> Hz]. rewrite string_app_assoc.
  destruct (scan_signed (z <? 0) (Z.abs z) r fuel) as [-> ->]; [lia|].
  rewrite scan_int_part_nat by (done || lia). rewrite Hf, He, nat_digits by lia. do 3 f_equal.
  unfold signed in Hz. destruct (z <? 0); lia.
Qed.

Lemma pad_length_str k n : len (pad k n) = k.
Proof. revert n. induction k as [|k IH]; intros n; [done|]. rewrite pad_cons. simpl. by rewrite IH. Qed.

Lemma zeros_snoc n : zeros n +:+ "0" = zeros (S n).
Proof. induction n as [|n IH]; [done|]. simpl in *. by rewrite IH. Qed.

Lemma nat_text_shift c k : 0 < c → nat_text (c * 10 ^ Z.of_nat k) = nat_text c +:+ zeros k.
Proof.
  intros Hc. induction k as [|k IH]; [by rewrite Z.mul_1_r, string_app_nil_r|].
  rewrite <- zeros_snoc, <- string_app_assoc, <- IH.
  rewrite Nat2Z.inj_succ, Z.pow_succ_r, (Z.mul_comm 10), Z.mul_assoc by lia.
  assert (0 < c * 10 ^ Z.of_nat k) as Hx by lia. set (x := c * 10 ^ Z.of_nat k) in *. clearbody x.
  destruct (ndigits_pos_bounds x Hx) as (H1&H2&H3).
  assert (ndigits (x * 10) = ndigits x + 1) as Hn.
  { apply Z.le_antisymm.
    - apply ndigits_le; [lia|lia|]. rewrite Z.pow_add_r by lia. lia.
    - assert (ndigits x < ndigits (x * 10)); [|lia]. apply ndigits_gt; [lia|].
      replace (ndigits x) with (Z.succ (ndigits x - 1)) by lia. rewrite Z.pow_succ_r by lia. lia. }
  unfold nat_text. rewrite Hn, Z2Nat.inj_add, Nat.add_comm by lia. simpl pad.
  rewrite Z.div_mul, Z.mod_mul by lia. done.
Qed.

Lemma format_f_integral d : 0 <= expo d → format_f d = int_text (coef d * 10 ^ expo d).
Proof.
  intros He. unfold format_f. replace (0 <=? expo d) with true by (symmetry; by apply Z.leb_le).
  destruct (int_text_signed (coef d * 10 ^ expo d)) as [-> _].
  assert (0 < 10 ^ expo d) as Hp by lia.
  destruct (Z.abs (coef d) =? 0) eqn:H0; py_bool.
  - assert (coef d = 0) as -> by lia. done.
  - replace (coef d * 10 ^ expo d <? 0) with (coef d <? 0).
    + rewrite Z.abs_mul, (Z.abs_eq (10 ^ _)) by lia. rewrite <- (Z2Nat.id (expo d)) at 2 by lia.
      by rewrite nat_text_shift by lia.
    + destruct (coef d <? 0) eqn:Hc; symmetry; py_bool; [apply Z.ltb_lt|apply Z.ltb_ge]; nia.
Qed.

Lemma scan_decimal d r fuel : expo d < 0 → ends_value r → scan_value (S fuel) (format_f d +:+ r) = Ok (PDec d, r).
Proof.
  intros He (Hd&Hf&Hx)%ends_value_scan. unfold format_f.
  replace (0 <=? expo d) with false by (symmetry; by apply Z.leb_gt).
  change (if coef d <? 0 then "-" else "") with (sign_text (coef d <? 0)). set (k := - expo d).
  assert (0 < 10 ^ k) as Hk by lia. set (c := Z.abs (coef d)).
  assert (0 <= c / 10 ^ k) as Hq by (apply Z.div_pos; lia).
  rewrite !string_app_assoc.
  destruct (scan_signed (coef d <? 0) (c / 10 ^ k) ("." +:+ pad (Z.to_nat k) (c mod 10 ^ k) +:+ r) fuel Hq) as [-> ->].
  rewrite scan_int_part_nat by done. cbn [String.append scan_frac]. change (Ascii.eqb "." ".") with true. cbn iota.
  rewrite take_digits_pad by done. destruct (String.eqb_spec (pad (Z.to_nat k) (c mod 10 ^ k)) "") as [Hp|_].
  { apply (f_equal len) in Hp. rewrite pad_length_str in Hp. simpl in Hp. lia. }
  cbv zeta. rewrite Hx. cbn [from_option fst snd id]. rewrite pad_length_str.
  assert (digits_value (nat_text (c / 10 ^ k) +:+ pad (Z.to_nat k) (c mod 10 ^ k)) = c) as ->.
  { unfold digits_value. rewrite nat_text_value by done. rewrite <- (string_app_nil_r (pad _ _)), digits_value_pad.
    rewrite Z2Nat.id by lia. cbn [digits_value_from]. rewrite Z.mod_mod by lia.
    pose proof (Z.div_mod c (10 ^ k)). lia. }
  do 2 f_equal. unfold c, k. destruct d as [cf e]. simpl in *. f_equal. f_equal; [|lia].
  destruct (cf <? 0) eqn:Hs; py_bool; lia.
Qed.

(** *** Strings read back *)

Lemma scan_char c r : scan_string (escape_char c +:+ r) = rbind (scan_string r) (λ p, Ok (String c "" +:+ p.1, p.2)).
Proof.
  destruct c as [[] [] [] [] [] [] [] []]; try reflexivity;
    destruct r as [|? [|? [|? [|? [|? [|? ?]]]]]]; try reflexivity;
    cbn -[scan_string hex4]; simpl scan_string; destruct (if _ && _ then hex4 _ _ _ _ else None); reflexivity.
Qed.

Lemma scan_escaped s r : scan_string (escape s +:+ String dquote r) = Ok (s, r).
Proof.
  induction s as [|c s IH]; [done|]. cbn [escape]. rewrite string_app_assoc, scan_char, IH. done.
Qed.

Fixpoint key_ok (s : string) : bool := match s with EmptyString => true | String c s' => (ord c <? 127) && key_ok s' end.

Lemma escape_key_ok k : key_ok k = true → escape_key k = escape k.
Proof. induction k as [|c k IH]; simpl; [done|]. intros [-> Hk]%andb_true_iff. by rewrite IH. Qed.

(** Values of the classes the encoder knows, with ASCII keys *)
Fixpoint json_ok (v : pyval) : bool :=
  match v with
  | PDecSpecial | POther => false
  | PConst s => existsb (String.eqb s) ["NaN"; "Infinity"; "-Infinity"]
  | PList l => forallb json_ok l
  | PDict d => forallb (λ e, key_ok e.1 && json_ok e.2) d && bool_decide (NoDup d.*1)
  | _ => true
  end.

(** What comes back: integral decimals as integers, times as text. *)
Fixpoint decoded (v : pyval) : pyval :=
  match v with
  | PDec d => if 0 <=? expo d then PInt (coef d * 10 ^ expo d) else PDec d
  | PDatetime us => PStr (iso_time us)
  | PList l => PList (List.map decoded l)
  | PDict d => PDict (List.map (λ e, (e.1, decoded e.2)) d)
  | v => v
  end.

Lemma res_map_ok {A B} (f : A → res B) l ts : res_map f l = Ok ts ↔ Forall2 (λ x t, f x = Ok t) l ts.
Proof.
  revert ts. induction l as [|x l IH]; intros ts; simpl.
  - split; [by intros [= <-]|]. intros ->%Forall2_nil_inv_l. done.
  - split.
    + destruct (f x) as [y|] eqn:Hx; [|done]. simpl. destruct (res_map f l) as [ys|]; [|done]. intros [= <-].
      constructor; [done|]. by apply IH.
    + intros (y&ys&Hx&Hl&->)%Forall2_cons_inv_l. rewrite Hx. simpl. by rewrite (proj2 (IH ys) Hl).
Qed.

Lemma encode_head v t : json_ok v = true → encode v = Ok t →
  ∃ c t', t = String c t' ∧ is_ws c = false ∧ Ascii.eqb c "]" = false ∧ Ascii.eqb c "}" = false.
Proof.
  assert (∀ neg n r, 0 <= n → ∃ c t', sign_text neg +:+ nat_text n +:+ r = String c t' ∧ is_ws c = false ∧ Ascii.eqb c "]" = false ∧ Ascii.eqb c "}" = false) as Hnum.
  { intros neg n r Hn. destruct neg; [by eexists _, _|]. destruct (nat_text_head n Hn) as (c&r'&->&Hc). eexists _, _. split; [done|].
    destruct c as [[] [] [] [] [] [] [] []]; done. }
  assert (∀ z, ∃ c t', int_text z = String c t' ∧ is_ws c = false ∧ Ascii.eqb c "]" = false ∧ Ascii.eqb c "}" = false) as Hint.
  { intros z. destruct (int_text_signed z) as [-> _]. rewrite <- (string_app_nil_r (nat_text _)). apply Hnum. lia. }
  assert (∀ s, ∃ c t', quoted s = String c t' ∧ is_ws c = false ∧ Ascii.eqb c "]" = false ∧ Ascii.eqb c "}" = false) as Hquo.
  { intros s. by exists dquote, (s +:+ String dquote ""). }
  destruct v; cbn [json_ok encode]; intros Hok; try discriminate Hok.
  - intros <-%Ok_inj. by eexists _, _.
  - intros <-%Ok_inj. by destruct b; eexists _, _.
  - intros <-%Ok_inj. apply Hint.
  - intros <-%Ok_inj. destruct (decide (0 <= expo d)) as [He|He]; [rewrite format_f_integral by done; apply Hint|].
    unfold format_f. replace (0 <=? expo d) with false by (symmetry; apply Z.leb_gt; lia).
    change (if coef d <? 0 then "-" else "") with (sign_text (coef d <? 0)). apply Hnum.
    apply Z.div_pos; [lia|]. lia.
  - intros <-%Ok_inj. apply Hquo.
  - intros <-%Ok_inj. apply Hquo.
  - intros <-%Ok_inj. repeat (apply orb_true_iff in Hok as [->%String.eqb_eq|Hok]; [by eexists _, _|]). done.
  - destruct (res_map encode l); [|done]. intros <-%Ok_inj. by eexists _, _.
  - destruct (res_map _ d); [|done]. intros <-%Ok_inj. by eexists _, _.
Qed.

Definition reads_back (v : pyval) : Prop :=
  ∀ t fuel r, json_ok v = true → encode v = Ok t → (2 * len t + 1 <= fuel)%nat → ends_value r →
    scan_value fuel (t +:+ r) = Ok (decoded v, r).

Lemma comma_cons t ts : comma (t :: ts) = t +:+ match ts with [] => "" | _ => "," +:+ comma ts end.
Proof. destruct ts; simpl; [by rewrite string_app_nil_r|done]. Qed.

Lemma skip_ws_first c t : is_ws c = false → skip_ws (String c t) = String c t.
Proof. simpl. by intros ->. Qed.

Lemma scan_elements_back l ts fuel r :
  l ≠ [] → Forall reads_back l → forallb json_ok l = true → Forall2 (λ x t, encode x = Ok t) l ts →
  (2 * len (comma ts) + 2 <= fuel)%nat →
  scan_elements fuel (comma ts +:+ String "]" r) = Ok (List.map decoded l, r).
Proof.
  intros Hne Hall Hok Hts. revert fuel Hne Hok. induction Hts as [|x t l ts Ht Hts IH]; intros fuel Hne Hok Hf; [done|].
  apply Forall_cons in Hall as [Hx Hall]. simpl in Hok. apply andb_true_iff in Hok as [Hokx Hok].
  rewrite comma_cons in *. rewrite string_app_length in Hf. destruct fuel as [|fuel]; [lia|]. cbn [scan_elements].
  rewrite string_app_assoc. rewrite (Hx t fuel) by (done || lia || by destruct ts). cbn [rbind fst snd].
  destruct (encode_head x t Hokx Ht) as (c&t'&Htc&_).
  destruct ts as [|t2 ts].
  - apply Forall2_nil_inv_r in Hts as ->. done.
  - destruct l as [|x2 l]; [by inversion Hts|].
    assert (∃ c2 t2', t2 = String c2 t2' ∧ is_ws c2 = false) as (c2&t2'&Ht2&Hws).
    { apply Forall2_cons_1 in Hts as [He2 _]. simpl in Hok. apply andb_true_iff in Hok as [Hok2 _].
      destruct (encode_head x2 t2 Hok2 He2) as (?&?&?&?&_). eauto. }
    assert (comma (t2 :: ts) +:+ String "]" r = String c2 (t2' +:+ match ts with [] => "" | _ => "," +:+ comma ts end +:+ String "]" r)) as Hc2.
    { rewrite comma_cons, Ht2. cbn [String.append]. by rewrite string_app_assoc. }
    rewrite string_app_assoc. change ("," +:+ ?s) with (String "," s). rewrite skip_ws_first by done.
    cbn [expect]. change (Ascii.eqb "," ",") with true. cbn iota.
    rewrite Hc2, skip_ws_first by done. rewrite <- Hc2.
    rewrite IH; [done|done|done|done|]. rewrite Htc in Hf. cbn [String.append] in Hf. simpl len in Hf.
    change (String.append "," ?s) with (String "," s) in Hf. simpl in Hf |- *. lia.
Qed.

Definition member_text (e : string * pyval) : res string :=
  rbind (encode e.2) (λ t, Ok (quoted (escape_key e.1) +:+ ":" +:+ t)).
Definition decoded_entry (e : string * pyval) : string * pyval := (e.1, decoded e.2).

Lemma scan_members_back d ts fuel r :
  d ≠ [] → Forall (λ e, reads_back e.2) d → forallb (λ e, key_ok e.1 && json_ok e.2) d = true →
  Forall2 (λ e t, member_text e = Ok t) d ts → (2 * len (comma ts) + 2 <= fuel)%nat →
  scan_members fuel (comma ts +:+ String "}" r) = Ok (List.map decoded_entry d, r).
Proof.
  intros Hne Hall Hok Hts. revert fuel Hne Hok. induction Hts as [|[k x] t0 d ts Ht Hts IH]; intros fuel Hne Hok Hf; [done|].
  apply Forall_cons in Hall as [Hx Hall]. cbn [forallb fst snd] in Hok.
  apply andb_true_iff in Hok as [[Hk Hokx]%andb_true_iff Hok].
  unfold member_text in Ht. cbn [fst snd] in *. destruct (encode x) as [t|] eqn:He; [|done]. cbn [rbind] in Ht. apply Ok_inj in Ht as <-.
  rewrite escape_key_ok in * by done. rewrite comma_cons in *. destruct fuel as [|fuel]; [lia|].
  assert (∀ rest, ((quoted (escape k) +:+ ":" +:+ t) +:+ rest) = String dquote (escape k +:+ String dquote (String ":" (t +:+ rest)))) as Hshape.
  { intros rest. unfold quoted. cbn [String.append]. rewrite !string_app_assoc. cbn [String.append]. done. }
  rewrite string_app_assoc, Hshape. rewrite !string_app_length in Hf.
  assert (len (quoted (escape k)) = 2 + len (escape k))%nat as Hlq by (unfold quoted; simpl; rewrite string_app_length; simpl; lia).
  rewrite Hlq in Hf. cbn [scan_members expect]. change (Ascii.eqb dquote dquote) with true. cbn iota.
  rewrite scan_escaped. cbn [rbind fst snd]. rewrite skip_ws_first by done. cbn [expect]. change (Ascii.eqb ":" ":") with true. cbn iota.
  destruct (encode_head x t Hokx He) as (c&t'&Htc&Hws&_).
  assert (∀ rest, skip_ws (t +:+ rest) = t +:+ rest) as Hskip by (intros rest; rewrite Htc; cbn [String.append]; by apply skip_ws_first).
  rewrite Hskip. rewrite (Hx t fuel) by (done || (simpl in Hf; lia) || by destruct ts). cbn [rbind fst snd].
  destruct ts as [|t2 ts]; [apply Forall2_nil_inv_r in Hts as ->; done|].
  destruct d as [|[k2 x2] d]; [by inversion Hts|].
  assert (∃ t2', t2 = String dquote t2') as [t2' Ht2].
  { apply Forall2_cons_1 in Hts as [He2 _]. unfold member_text in He2. cbn [fst snd] in He2.
    destruct (encode x2); [|done]. apply Ok_inj in He2 as <-. by eexists. }
  assert (comma (t2 :: ts) +:+ String "}" r = String dquote (t2' +:+ match ts with [] => "" | _ => "," +:+ comma ts end +:+ String "}" r)) as Hc2.
  { rewrite comma_cons, Ht2. cbn [String.append]. by rewrite string_app_assoc. }
  rewrite string_app_assoc. change ("," +:+ ?s) with (String "," s). rewrite skip_ws_first by done.
  cbn [expect]. change (Ascii.eqb "," ",") with true. cbn iota.
  rewrite Hc2, skip_ws_first by done. rewrite <- Hc2.
  rewrite IH; [done|done|done|done|]. rewrite string_app_length in Hf. simpl in Hf |- *. lia.
Qed.

(** A dictionary with distinct keys is built back as it was. *)
Lemma dict_of_id d : NoDup d.*1 → dict_of d = d.
Proof.
  unfold dict_of. enough (∀ acc, NoDup (acc ++ d).*1 → foldl (λ d e, dset d e.1 e.2) acc d = acc ++ d) as H by apply (H []).
  induction d as [|[k v] d IH]; intros acc Hnd; simpl; [by rewrite app_nil_r|].
  assert (k ∉ dkeys acc) as Hk.
  { rewrite fmap_app in Hnd. apply NoDup_app in Hnd as (_&Hd&_). intros Hin. by apply (Hd k Hin); left. }
  rewrite dset_new by done. rewrite IH by by rewrite <- app_assoc. by rewrite <- app_assoc.
Qed.

Lemma list_reads_back l : Forall reads_back l → reads_back (PList l).
Proof.
  intros Hl t fuel r Hok Ht Hf _. cbn [encode json_ok] in *. destruct (res_map encode l) as [ts|] eqn:Hts; [|done].
  apply Ok_inj in Ht as <-. apply res_map_ok in Hts. destruct fuel as [|fuel]; [lia|].
  cbn [decoded]. rewrite string_app_assoc. change ("[" +:+ ?s) with (String "[" s). rewrite string_app_assoc.
  change ("]" +:+ r) with (String "]" r). cbn [scan_value expect]. change (Ascii.eqb "[" dquote) with false.
  change (Ascii.eqb "[" "[") with true. cbn iota. rewrite !string_app_length in Hf. simpl in Hf.
  destruct l as [|x l]; [apply Forall2_nil_inv_l in Hts as ->; done|].
  apply Forall2_cons_inv_l in Hts as (t&ts'&Hx&Hts&->).
  pose proof Hok as Hokx. cbn [forallb] in Hokx. apply andb_true_iff in Hokx as [Hokx _].
  destruct (encode_head _ _ Hokx Hx) as (c&t'&Htc&Hws&Hb&_).
  assert (∀ s, skip_ws (comma (t :: ts') +:+ s) = comma (t :: ts') +:+ s ∧ expect "]" (comma (t :: ts') +:+ s) = None) as Hfst.
  { intros s. rewrite comma_cons, Htc. cbn [String.append expect]. rewrite Hb. split; [by apply skip_ws_first|done]. }
  destruct (Hfst (String "]" r)) as [-> ->].
  rewrite (scan_elements_back (x :: l) (t :: ts')); [done|done|done|done|by constructor|lia].
Qed.

Lemma dict_reads_back d : Forall (λ e, reads_back e.2) d → reads_back (PDict d).
Proof.
  intros Hd t fuel r Hok Ht Hf _. cbn [encode json_ok] in *. apply andb_true_iff in Hok as [Hok Hnd]. apply bool_decide_eq_true in Hnd.
  change (λ e, rbind (encode e.2) (λ t, Ok (quoted (escape_key e.1) +:+ ":" +:+ t))) with member_text in Ht.
  destruct (res_map member_text d) as [ts|] eqn:Hts; [|done].
  apply Ok_inj in Ht as <-. apply res_map_ok in Hts. destruct fuel as [|fuel]; [lia|].
  cbn [decoded]. rewrite string_app_assoc. change ("{" +:+ ?s) with (String "{" s). rewrite string_app_assoc.
  change ("}" +:+ r) with (String "}" r). cbn [scan_value expect]. change (Ascii.eqb "{" dquote) with false.
  change (Ascii.eqb "{" "[") with false. change (Ascii.eqb "{" "{") with true. cbn iota.
  rewrite !string_app_length in Hf. simpl in Hf.
  destruct d as [|e d]; [apply Forall2_nil_inv_l in Hts as ->; done|].
  assert (∃ t ts', ts = t :: ts' ∧ ∃ t', t = String dquote t') as (t&ts'&->&t'&Htc).
  { apply Forall2_cons_inv_l in Hts as (t&ts'&He&_&->). eexists _, _. split; [done|]. unfold member_text in He.
    destruct (encode e.2); [|done]. apply Ok_inj in He as <-. by eexists. }
  assert (∀ s, skip_ws (comma (t :: ts') +:+ s) = comma (t :: ts') +:+ s ∧ expect "}" (comma (t :: ts') +:+ s) = None) as Hfst.
  { intros s. by rewrite comma_cons, Htc. }
  destruct (Hfst (String "}" r)) as [-> ->].
  rewrite (scan_members_back (e :: d) (t :: ts')) by (done || lia). cbn [rbind fst snd]. rewrite dict_of_id; [done|].
  change (List.map decoded_entry (e :: d)) with (decoded_entry <$> (e :: d)). by rewrite <- list_fmap_compose.
Qed.

Lemma scan_literal_in t v r fuel : (t, v) ∈ literals → scan_value (S fuel) (t +:+ r) = Ok (v, r).
Proof.
  intros Hin. assert (scan_literal literals (t +:+ r) = Some (v, r)) as Hs.
  { unfold literals in *. repeat (apply elem_of_cons in Hin as [[= -> ->]|Hin];
      [cbv beta iota delta [scan_literal]; rewrite removeprefix_app; unfold startswith; rewrite prefix_app; reflexivity|]). by apply not_elem_of_nil in Hin. }
  cbn [scan_value]. rewrite Hs. unfold literals in Hin.
  repeat (apply elem_of_cons in Hin as [[= -> ->]|Hin]; [reflexivity|]). by apply not_elem_of_nil in Hin.
Qed.

Lemma atom_reads_back v : match v with PList _ | PDict _ => False | _ => True end → reads_back v.
Proof.
  intros Hv t fuel r Hok Ht Hf Hr. destruct v; try done; cbn [encode] in Ht; try discriminate Ht; apply Ok_inj in Ht as <-;
    (destruct fuel as [|fuel]; [lia|]); cbn [decoded].
  - apply scan_literal_in. by left.
  - destruct b; apply scan_literal_in; [by right; left|by right; right; left].
  - by apply scan_int.
  - destruct (decide (0 <= expo d)) as [He|He].
    + replace (0 <=? expo d) with true by (symmetry; by apply Z.leb_le). rewrite format_f_integral by done. by apply scan_int.
    + replace (0 <=? expo d) with false by (symmetry; apply Z.leb_gt; lia). apply scan_decimal; [lia|done].
  - unfold quoted. cbn [String.append scan_value expect]. rewrite string_app_assoc. cbn [String.append].
    change (Ascii.eqb dquote dquote) with true. cbn iota. by rewrite scan_escaped.
  - unfold quoted. cbn [String.append scan_value expect]. rewrite string_app_assoc. cbn [String.append].
    change (Ascii.eqb dquote dquote) with true. cbn iota. by rewrite scan_escaped.
  - cbn [json_ok] in Hok. apply scan_literal_in.
    repeat (apply orb_true_iff in Hok as [->%String.eqb_eq|Hok]; [unfold literals; set_solver|]). done.
Qed.

Lemma all_read_back v : reads_back v.
Proof.
  apply (pyval_nested reads_back); [apply list_reads_back|apply dict_reads_back|].
  intros v'; destruct v'; try done; by apply atom_reads_back.
Qed.

Lemma encode_total v : json_ok v = true → ∃ t, encode v = Ok t.
Proof.
  assert (∀ {A} (f : A → res string) l, Forall (λ x, ∃ t, f x = Ok t) l → ∃ ts, res_map f l = Ok ts) as Hmap.
  { intros A f l Hl. induction Hl as [|x l [t Ht] _ [ts IH]]; simpl; [by eexists|]. rewrite Ht. simpl. rewrite IH. by eexists. }
  apply (pyval_nested (λ v, json_ok v = true → ∃ t, encode v = Ok t)).
  - intros l Hl Hok. cbn [json_ok encode] in *. destruct (Hmap _ encode l) as [ts ->]; [|by eexists].
    apply Forall_forall. intros x Hx. eapply Forall_forall in Hl; [|done]. apply Hl.
    eapply forallb_forall in Hok; [done|by apply list_elem_of_In].
  - intros d Hd Hok. cbn [json_ok encode] in *. apply andb_true_iff in Hok as [Hok _].
    match goal with |- context [res_map ?f d] => destruct (Hmap _ f d) as [ts ->] end; [|by eexists].
    apply Forall_forall. intros e He. eapply Forall_forall in Hd; [|done].
    eapply forallb_forall in Hok; [|by apply list_elem_of_In]. apply andb_true_iff in Hok as [_ Hok].
    destruct (Hd Hok) as [t ->]. by eexists.
  - intros v'. destruct v'; try done; intros _; by eexists.
Qed.

(** ** Properties *)

(** C35.  Every record of the classes the encoder knows, with distinct ASCII
    keys, is written as a line, and the line reads back as the same record:
    integers, strings (quotes, backslashes, control characters and any UTF-8
    text included), lists, dictionaries and non-integral decimals, scale
    included, are unchanged, an integral decimal comes back as the equal
    integer and a time as its ISO text. *)
Theorem record_round_trip (record : list (string * pyval)) :
  json_ok (PDict record) = true →
  ∃ line, encode_record record = Ok line ∧ decode_line line = Ok (decoded (PDict record)).
Proof.
  intros Hok. unfold encode_record. destruct (encode_total (PDict record) Hok) as [t Ht]. rewrite Ht.
  exists (t +:+ newline). split; [done|]. unfold decode_line.
  destruct (encode_head _ _ Hok Ht) as (c&t'&Htc&Hws&_).
  assert (skip_ws (t +:+ newline) = t +:+ newline) as -> by (rewrite Htc; by apply skip_ws_first).
  rewrite (all_read_back (PDict record) t); [done|done|done| |done].
  unfold line_fuel. rewrite string_app_length. lia.
Qed.

Definition example_record : list (string * pyval) :=
  [("ts_utc", PDatetime 1747100000123456); ("price", PDec (Dec 1500 (-2))); ("quantity", PDec (Dec 3 1));
   ("side", PStr "bu\y"); ("bids", PList [PDict [("price", PDec (Dec (-5) (-1)))]; PInt (-7)]); ("raw_json", PNone)]%string.

Lemma record_round_trip_witness :
  ∃ line, encode_record example_record = Ok line ∧ decode_line line = Ok (decoded (PDict example_record)).
Proof. apply (record_round_trip example_record). vm_compute. reflexivity. Defined.

(** Reading a line ends: on every text the decoder returns a value or
    raises [ValueError]; its fuel is never used up. *)
Theorem decode_terminates (line : string) :
  (∃ v, decode_line line = Ok v) ∨ decode_line line = Raise ValueError.
Proof.
  unfold decode_line. pose proof (skip_ws_length line).
  destruct (scan_total (line_fuel line)) as (Hv&_). specialize (Hv (skip_ws line)).
  destruct (scan_value _ _) as [p|e]; simpl.
  - destruct (String.eqb _ _); [left; by eexists|by right].
  - right. f_equal. apply Hv. unfold line_fuel. lia.
Qed.

(** The type of a number may change: an integral [Decimal] is read back as an
    integer. *)
Lemma integral_decimal_becomes_int :
  rbind (encode_record [("price", PDec (Dec 5 0))]) decode_line = Ok (PDict [("price", PInt 5)]).
Proof. vm_compute. reflexivity. Qed.
