(* ===== verification/DecimalText.v ===== *)
(** * Decimals as text

    [str(d)] of a [Decimal], [Decimal(text)] and the conversion
    [Decimal(str(x))] the L1 compactor applies to the numbers of a log line.
    Texts are ASCII (the digits of other scripts, which Python accepts, are an
    error here) and exponents are not limited. *)
From S2P Require Import Prelude PyDecimal NasKey Wal PyTime Ndjson.
From Stdlib Require Import Ascii.
Open Scope string_scope.
Open Scope list_scope.
Open Scope Z_scope.

(** [str(d)]: plain digits, or one digit before the point and an exponent *)
Definition decimal_text (d : decimal) : string :=
  let c := Z.abs (coef d) in
  let n := ndigits c in
  if (expo d <=? 0) && (-6 <? expo d + n) then format_f d
  else
    (if coef d <? 0 then "-" else "") +:+
    nat_text (c / 10 ^ (n - 1)) +:+
    (if n =? 1 then "" else "." +:+ pad (Z.to_nat (n - 1)) (c mod 10 ^ (n - 1))) +:+
    "E" +:+ (let e := expo d + n - 1 in if e <? 0 then int_text e else "+" +:+ int_text e).

(** [str.strip()] and [replace("_", "")] *)
Definition is_space (c : ascii) : bool := (9 <=? ord c) && (ord c <? 14) || (28 <=? ord c) && (ord c <? 33).
Fixpoint lstrip_ws (s : string) : string :=
  match s with String c s' => if is_space c then lstrip_ws s' else s | EmptyString => "" end.
Definition strip_ws (s : string) : string := string_rev (lstrip_ws (string_rev (lstrip_ws s))).
Fixpoint drop_underscores (s : string) : string :=
  match s with
  | String c s' => if Ascii.eqb c "_" then drop_underscores s' else String c (drop_underscores s')
  | EmptyString => ""
  end.

Fixpoint lower (s : string) : string :=
  match s with
  | String c s' => String (if (65 <=? ord c) && (ord c <? 91) then chr (Z.to_nat (ord c + 32)) else c) (lower s')
  | EmptyString => ""
  end.
(** [inf], [infinity], [nan] and [snan] with their digits, after the sign: the
    text [str] gives them *)
Definition special (s : string) : option string :=
  let s := lower s in
  let nan name r := if String.eqb (take_digits r).2 "" then Some (name +:+ r) else None in
  if existsb (String.eqb s) ["inf"; "infinity"] then Some "Infinity"
  else if startswith "snan" s then nan "sNaN" (removeprefix "snan" s)
  else if startswith "nan" s then nan "NaN" (removeprefix "nan" s)
  else None.

(** A [Decimal]: a finite one, or a NaN or infinity with its text (leading
    zeros of a NaN's digits, which Python drops, are kept) *)
Inductive num := Num (d : decimal) | NumSpecial (text : string).
Definition num_text (x : num) : string := match x with Num d => decimal_text d | NumSpecial s => s end.

Definition InvalidOperation : exn := OtherException "InvalidOperation".

(** [Decimal(text)] *)
Definition decimal_of_text (text : string) : res num :=
  let s := drop_underscores (strip_ws text) in
  let '(neg, s1) := match s with
    | String c s' => if Ascii.eqb c "-" then (true, s') else if Ascii.eqb c "+" then (false, s') else (false, s)
    | EmptyString => (false, s) end in
  match special s1 with
  | Some t => Ok (NumSpecial ((if neg then "-" else "") +:+ t))
  | None =>
  let '(ip, s2) := take_digits s1 in
  let '(fp, s3) := match expect "." s2 with Some s' => take_digits s' | None => ("", s2) end in
  if String.eqb (ip +:+ fp) "" then Raise InvalidOperation else
  let '(e, s4) := from_option id (0, s3) (scan_exponent s3) in
  if String.eqb s4 ""
  then Ok (Num (Dec ((if neg : bool then -1 else 1) * digits_value (ip +:+ fp)) (e - Z.of_nat (String.length fp))))
  else Raise InvalidOperation
  end.

(** [Decimal(str(x))] of a decoded value *)
Definition decimal_of_value (v : pyval) : res num :=
  match v with
  | PDec d => decimal_of_text (decimal_text d)
  | PInt z => decimal_of_text (int_text z)
  | PStr s | PConst s => decimal_of_text s
  | PDecSpecial => Ok (NumSpecial "NaN")
  | _ => Raise InvalidOperation
  end.

(** ** Lemmas *)

#[local] Arguments String.append !_ _ / : simpl nomatch.

Fixpoint all_chars (p : ascii → bool) (s : string) : bool :=
  match s with String c s' => p c && all_chars p s' | EmptyString => true end.

Lemma all_chars_app p s t : all_chars p (s +:+ t) = all_chars p s && all_chars p t.
Proof. induction s as [|c s IH]; simpl; [done|]. by rewrite IH, andb_assoc. Qed.

Lemma digit_char d : 0 <= d < 10 → is_digit (ascii_of_nat (48 + Z.to_nat d)) = true.
Proof. intros Hd. unfold is_digit. rewrite ord_digit by done. apply andb_true_iff. rewrite Z.leb_le, Z.ltb_lt. lia. Qed.

Lemma all_chars_pad k n p : (∀ c, is_digit c = true → p c = true) → all_chars p (pad k n) = true.
Proof.
  intros Hp. revert n. induction k as [|k IH]; intros n; [done|]. rewrite pad_cons. simpl. rewrite IH.
  rewrite Hp; [done|]. apply digit_char, Z.mod_pos_bound. lia.
Qed.
Lemma all_chars_nat n p : (∀ c, is_digit c = true → p c = true) → all_chars p (nat_text n) = true.
Proof. apply all_chars_pad. Qed.

Lemma all_chars_string_rev p s : all_chars p (string_rev s) = all_chars p s.
Proof.
  induction s as [|c s IH]; [done|]. change (String c s) with (String c "" +:+ s).
  rewrite string_rev_app, !all_chars_app, IH. simpl. by rewrite andb_true_r, andb_comm.
Qed.

Lemma lstrip_ws_id s : all_chars (λ c, negb (is_space c)) s = true → lstrip_ws s = s.
Proof. destruct s as [|c s]; simpl; [done|]. by intros [->%negb_true_iff _]%andb_true_iff. Qed.

Lemma string_rev_rev x : string_rev (string_rev x) = x.
Proof.
  induction x as [|a x IH]; [done|]. change (String a x) with ((String a "") +:+ x) at 1.
  by rewrite !string_rev_app, IH.
Qed.

Lemma strip_ws_id s : all_chars (λ c, negb (is_space c)) s = true → strip_ws s = s.
Proof.
  intros Hs. unfold strip_ws. rewrite (lstrip_ws_id s), lstrip_ws_id; [apply string_rev_rev| |done].
  by rewrite all_chars_string_rev.
Qed.

Lemma drop_underscores_id s : all_chars (λ c, negb (Ascii.eqb c "_")) s = true → drop_underscores s = s.
Proof. induction s as [|c s IH]; simpl; [done|]. intros [->%negb_true_iff Hs]%andb_true_iff. by rewrite IH. Qed.

(** The characters of a plain number *)
Definition number_char (c : ascii) : bool :=
  is_digit c || Ascii.eqb c "." || Ascii.eqb c "-" || Ascii.eqb c "+" || Ascii.eqb c "E".

Lemma all_chars_weaken (p q : ascii → bool) s : (∀ c, p c = true → q c = true) → all_chars p s = true → all_chars q s = true.
Proof. intros Hpq. induction s as [|c s IH]; simpl; [done|]. intros [Hc Hs]%andb_true_iff. by rewrite Hpq, IH. Qed.

Lemma number_text_trimmed s : all_chars number_char s = true → drop_underscores (strip_ws s) = s.
Proof.
  intros Hs. rewrite strip_ws_id, drop_underscores_id; [done| |];
    (eapply all_chars_weaken; [|exact Hs]); intros [[] [] [] [] [] [] [] []]; done.
Qed.

Lemma digit_number_char c : is_digit c = true → number_char c = true.
Proof. unfold number_char. by intros ->. Qed.

Lemma digit_not_special c s : is_digit c = true → special (String c s) = None.
Proof. destruct c as [[] [] [] [] [] [] [] []]; done. Qed.

Lemma digit_not_sign c : is_digit c = true → Ascii.eqb c "-" = false ∧ Ascii.eqb c "+" = false.
Proof. destruct c as [[] [] [] [] [] [] [] []]; done. Qed.

(** A fraction and an exponent as the texts have them *)
Definition fraction_text (frac : string) (fd : nat) (f : Z) : Prop :=
  frac = "" ∧ fd = 0%nat ∧ f = 0 ∨ frac = "." +:+ pad fd f ∧ 0 <= f < 10 ^ Z.of_nat fd.
Definition exponent_text (ex : string) (e : Z) : Prop :=
  ex = "" ∧ e = 0 ∨
  ∃ ex', ex = String "E" ex' ∧ all_chars number_char ex' = true ∧ scan_exponent ex = Some (e, "").

Lemma exponent_text_first ex e : exponent_text ex e →
  all_chars number_char ex = true ∧ no_digit_first ex ∧ expect "." ex = None ∧
  from_option id (0, ex) (scan_exponent ex) = (e, "").
Proof. intros [[-> ->]|(ex'&->&He&Hs)]; [done|]. rewrite Hs. split_and!; [exact He|done|done|done]. Qed.

Lemma parse_digits n frac fd f ex e : 0 <= n → fraction_text frac fd f → exponent_text ex e →
  let '(ip, s2) := take_digits (nat_text n +:+ frac +:+ ex) in
  let '(fp, s3) := match expect "." s2 with Some s' => take_digits s' | None => ("", s2) end in
  ip +:+ fp ≠ "" ∧ digits_value (ip +:+ fp) = n * 10 ^ Z.of_nat fd + f ∧ len fp = fd ∧ s3 = ex.
Proof.
  intros Hn Hf (_&Hnd&Hdot&_)%exponent_text_first.
  assert (nat_text n ≠ "") as Hne by (destruct (nat_text_head n Hn) as (c&r&->&_); done).
  destruct Hf as [(->&->&->)|(->&Hf)].
  - cbn [String.append]. unfold nat_text at 1. rewrite take_digits_pad by done. fold (nat_text n).
    rewrite Hdot, string_app_nil_r, nat_digits by done. split_and!; [done|lia|done|done].
  - rewrite string_app_assoc. cbn [String.append]. unfold nat_text at 1. rewrite take_digits_pad by done. fold (nat_text n).
    cbn [expect]. change (Ascii.eqb "." ".") with true. cbn iota. rewrite take_digits_pad by done.
    split_and!; [by destruct (nat_text n)| |apply pad_length_str|done].
    unfold digits_value. rewrite nat_text_value by done. rewrite <- (string_app_nil_r (pad _ _)), digits_value_pad.
    cbn [digits_value_from]. by rewrite Z.mod_small.
Qed.

Lemma parse_number neg n frac fd f ex e : 0 <= n → fraction_text frac fd f → exponent_text ex e →
  decimal_of_text (sign_text neg +:+ nat_text n +:+ frac +:+ ex) =
    Ok (Num (Dec (signed neg (n * 10 ^ Z.of_nat fd + f)) (e - Z.of_nat fd))).
Proof.
  intros Hn Hf He. unfold decimal_of_text. rewrite number_text_trimmed.
  2: { rewrite !all_chars_app. destruct (exponent_text_first _ _ He) as (->&_).
       rewrite (all_chars_nat n _ digit_number_char). destruct neg, Hf as [(->&_)|(->&_)]; try done;
         rewrite all_chars_app; by rewrite (all_chars_pad _ _ _ digit_number_char). }
  pose proof (parse_digits n frac fd f ex e Hn Hf He) as Hp. destruct (nat_text_head n Hn) as (c&r&Hnt&Hc).
  destruct (exponent_text_first _ _ He) as (_&_&_&Hex).
  assert (∀ s, s = nat_text n +:+ frac +:+ ex →
    (match sign_text neg +:+ s with
     | String c s' => if Ascii.eqb c "-" then (true, s') else if Ascii.eqb c "+" then (false, s') else (false, sign_text neg +:+ s)
     | EmptyString => (false, sign_text neg +:+ s) end) = (neg, s) ∧ special s = None) as Hsign.
  { intros s ->. rewrite Hnt. destruct neg; cbn [sign_text String.append].
    - split; [done|]. by apply digit_not_special.
    - destruct (digit_not_sign c Hc) as [-> ->]. split; [done|]. by apply digit_not_special. }
  destruct (Hsign _ eq_refl) as [-> ->]. destruct (take_digits _) as [ip s2]. destruct (match expect "." s2 with Some _ => _ | None => _ end) as [fp s3].
  destruct Hp as (Hne&->&->&->). destruct (String.eqb_spec (ip +:+ fp) "") as [|_]; [done|].
  rewrite Hex. cbn [String.eqb]. do 3 f_equal. unfold signed. destruct neg; lia.
Qed.

Lemma int_text_of z : decimal_of_text (int_text z) = Ok (Num (Dec z 0)).
Proof.
  destruct (int_text_signed z) as [-> Hz]. rewrite <- (string_app_nil_r (nat_text _)).
  change "" with ("" +:+ "").
  rewrite (parse_number _ _ "" 0 0 "" 0) by (lia || by left). do 3 f_equal. change (10 ^ Z.of_nat 0) with 1.
  rewrite Z.mul_1_r, Z.add_0_r. exact Hz.
Qed.

Lemma exponent_text_int e : exponent_text ("E" +:+ (if e <? 0 then int_text e else "+" +:+ int_text e)) e.
Proof.
  right. eexists. split; [done|]. destruct (int_text_signed e) as [-> Hz]. unfold signed in Hz.
  destruct (e <? 0) eqn:He; py_bool; cbn [sign_text String.append].
  - split; [cbn; apply (all_chars_nat _ _ digit_number_char)|].
    cbn. rewrite <- (string_app_nil_r (nat_text _)). unfold nat_text. rewrite take_digits_pad by done. fold (nat_text (Z.abs e)).
    destruct (String.eqb_spec (nat_text (Z.abs e)) "") as [H0|_].
    { destruct (nat_text_head (Z.abs e)) as (?&?&H&_); [lia|]. by rewrite H0 in H. }
    rewrite nat_digits by lia. do 2 f_equal. lia.
  - split; [cbn; apply (all_chars_nat _ _ digit_number_char)|].
    cbn. rewrite <- (string_app_nil_r (nat_text _)). unfold nat_text. rewrite take_digits_pad by done. fold (nat_text (Z.abs e)).
    destruct (String.eqb_spec (nat_text (Z.abs e)) "") as [H0|_].
    { destruct (nat_text_head (Z.abs e)) as (?&?&H&_); [lia|]. by rewrite H0 in H. }
    rewrite nat_digits by lia. do 2 f_equal. lia.
Qed.

(** [Decimal(str(d))] is [d], scale included. *)
Lemma decimal_text_round_trip d : decimal_of_text (decimal_text d) = Ok (Num d).
Proof.
  unfold decimal_text. set (c := Z.abs (coef d)). set (n := ndigits c). fold (sign_text (coef d <? 0)).
  assert (signed (coef d <? 0) c = coef d) as Hsgn.
  { unfold signed, c. destruct (coef d <? 0) eqn:?; py_bool; lia. }
  assert (1 <= n) as Hn1.
  { unfold n. destruct (decide (c = 0)) as [->|]; [rewrite ndigits_0; lia|]. apply ndigits_pos_bounds. lia. }
  destruct (_ && _) eqn:Hplain.
  - apply andb_true_iff in Hplain as [He _]. py_bool. destruct (decide (expo d = 0)) as [H0|].
    + rewrite format_f_integral by lia. rewrite H0, Z.mul_1_r, int_text_of. by destruct d; simpl in *; subst.
    + unfold format_f. replace (0 <=? expo d) with false by (symmetry; apply Z.leb_gt; lia).
      fold (sign_text (coef d <? 0)). fold c. cbv zeta. rewrite <- (string_app_nil_r ("." +:+ _)).
      assert (0 < 10 ^ - expo d) as Hp by lia.
      rewrite (parse_number _ _ _ (Z.to_nat (- expo d)) (c mod 10 ^ - expo d) "" 0).
      * rewrite !Z2Nat.id by lia. rewrite (Z.mul_comm (c / _)), <- Z.div_mod by lia. rewrite Hsgn. destruct d; simpl. do 3 f_equal. lia.
      * apply Z.div_pos; lia.
      * right. split; [done|]. rewrite Z2Nat.id by lia. by apply Z.mod_pos_bound.
      * by left.
  - cbv zeta. assert (0 < 10 ^ (n - 1)) as Hp by lia.
    rewrite (parse_number _ _ _ (Z.to_nat (n - 1)) (c mod 10 ^ (n - 1)) _ (expo d + n - 1)).
    + rewrite !Z2Nat.id by lia. rewrite (Z.mul_comm (c / _)), <- Z.div_mod by lia. rewrite Hsgn. destruct d; simpl. do 3 f_equal. lia.
    + apply Z.div_pos; lia.
    + destruct (n =? 1) eqn:H1; py_bool; [left; rewrite H1, Z.mod_1_r; done|].
      right. split; [done|]. rewrite Z2Nat.id by lia. by apply Z.mod_pos_bound.
    + apply exponent_text_int.
Qed.

(** The value a logged number has in the row *)
Lemma decoded_number d : decimal_of_value (decoded (PDec d)) =
  Ok (Num (if 0 <=? expo d then Dec (coef d * 10 ^ expo d) 0 else d)).
Proof.
  cbn [decoded]. destruct (0 <=? expo d); cbn [decimal_of_value]; [apply int_text_of|apply decimal_text_round_trip].
Qed.

Lemma decoded_number_equal d : dcmp (if 0 <=? expo d then Dec (coef d * 10 ^ expo d) 0 else d) d = Eq.
Proof.
  unfold dcmp, dscale. destruct (0 <=? expo d) eqn:He; py_bool; cbn [coef expo].
  - rewrite Z.min_l, Z.sub_diag, Z.sub_0_r by lia. apply Z.compare_eq_iff. lia.
  - apply Z.compare_refl.
Qed.
