(* ===== verification/Aggregation.v ===== *)
(** * Information bars ([aggregation/core.py], [aggregation/scaled_int.py])

    The per-symbol bar state, the threshold aggregators (volume, tick count,
    notional) over [_default_process], the time bar with its own
    [process_tick], the checks of the constructors, and the scaled integers.
    [InformationBarModel] is a third-party class: its constructor is the
    parameter [mk], which may refuse its arguments.  Timestamps are
    microseconds since the epoch and do not leave the range of [datetime];
    time frames are below 285 years, where [total_seconds] tells whole
    seconds. *)
From S2P Require Import Prelude PyDecimal.
From stdpp Require Import pretty.
Open Scope string_scope.
Open Scope list_scope.
Open Scope Z_scope.

(** ** Text of a decimal *)

Fixpoint zeros (n : nat) : string := match n with O => "" | S n => "0" +:+ zeros n end.

(** [str(d)]: plain notation, or scientific for a positive or small exponent. *)
Definition dstr (d : decimal) : string :=
  let digits := pretty (Z.to_N (Z.abs (coef d))) in
  let n := Z.of_nat (String.length digits) in
  let left := expo d + n in
  let dot := if (expo d <=? 0) && (-6 <? left) then left else 1 in
  (if coef d <? 0 then "-" else "") +:+
  (if dot <=? 0 then "0." +:+ zeros (Z.to_nat (- dot)) +:+ digits
   else if n <=? dot then digits +:+ zeros (Z.to_nat (dot - n))
   else String.substring 0 (Z.to_nat dot) digits +:+ "." +:+
        String.substring (Z.to_nat dot) (Z.to_nat (n - dot)) digits) +:+
  (if left =? dot then "" else
   "E" +:+ (if left - dot <? 0 then "-" else "+") +:+ pretty (Z.to_N (Z.abs (left - dot)))).

(** ** Ticks, running states and bars *)

Section aggregation.
Context {Symbol : Type} `{Countable Symbol}.

Record TickRow := Tick {
  t_symbol : Symbol; t_exchange : string; t_ts_utc : Z; t_price : decimal; t_quantity : decimal }.

(** [_BarState] *)
Record bar_state := BarState {
  s_genesis_ts : Z; s_open : decimal; s_high : decimal; s_low : decimal; s_close : decimal;
  s_volume : decimal; s_value : decimal; s_last_ts : Z; s_tick_count : Z }.

(** The arguments of [InformationBarModel]. *)
Record info_bar := InfoBar {
  b_bar_label : string; b_genesis_ts : Z; b_ts_close : Z; b_threshold : decimal;
  b_exchange : string; b_symbol : Symbol; b_open : decimal; b_high : decimal; b_low : decimal;
  b_close : decimal; b_volume : decimal; b_value : decimal }.

Notation bar_states := (gmap Symbol bar_state).

Definition update_ohlc (s : bar_state) (price : decimal) : bar_state :=
  BarState (s_genesis_ts s) (s_open s) (if dltb (s_high s) price then price else s_high s)
    (if dltb price (s_low s) then price else s_low s) price (s_volume s) (s_value s) (s_last_ts s) (s_tick_count s).

Definition new_state (t : TickRow) : bar_state :=
  BarState (t_ts_utc t) (t_price t) (t_price t) (t_price t) (t_price t) (t_quantity t)
    (dmul (t_price t) (t_quantity t)) (t_ts_utc t) 1.

Definition merge (s : bar_state) (t : TickRow) : bar_state :=
  let s := update_ohlc s (t_price t) in
  BarState (s_genesis_ts s) (s_open s) (s_high s) (s_low s) (s_close s) (dadd (s_volume s) (t_quantity t))
    (dadd (s_value s) (dmul (t_price t) (t_quantity t))) (t_ts_utc t) (s_tick_count s + 1).

(** ** Threshold bars *)

Inductive threshold_bar :=
| VolumeBar (threshold : decimal)
| TickBar (threshold : Z)
| DollarBar (threshold : decimal).

(** The constructors' checks. *)
Definition volume_bar (threshold : decimal) : res threshold_bar :=
  if dleb threshold dzero then Raise ValueError else Ok (VolumeBar threshold).
Definition tick_bar (threshold : Z) : res threshold_bar :=
  if threshold <=? 0 then Raise ValueError else Ok (TickBar threshold).
Definition dollar_bar (threshold : decimal) : res threshold_bar :=
  if dleb threshold dzero then Raise ValueError else Ok (DollarBar threshold).

Definition bar_label (k : threshold_bar) : string :=
  match k with
  | VolumeBar thr => "vol_" +:+ dstr thr
  | TickBar thr => "tick_" +:+ pretty thr
  | DollarBar thr => "dollar_" +:+ dstr thr
  end.
Definition threshold_decimal (k : threshold_bar) : decimal :=
  match k with VolumeBar thr | DollarBar thr => thr | TickBar thr => dint thr end.
Definition should_close (k : threshold_bar) (s : bar_state) : bool :=
  match k with
  | VolumeBar thr => dleb thr (s_volume s)
  | TickBar thr => thr <=? s_tick_count s
  | DollarBar thr => dleb thr (s_value s)
  end.

(** The arguments of the bar of [_emit]. *)
Definition emit (k : threshold_bar) (s : bar_state) (t : TickRow) : info_bar :=
  let ts_close := if t_ts_utc t <=? s_genesis_ts s then s_genesis_ts s + 1 else t_ts_utc t in
  InfoBar (bar_label k) (s_genesis_ts s) ts_close (threshold_decimal k) (t_exchange t) (t_symbol t)
    (s_open s) (s_high s) (s_low s) (s_close s) (s_volume s) (s_value s).

Section processing.
Context {Bar : Type} (mk : info_bar → res Bar).

(** Emit the bar and drop the state when the threshold is reached; a refused
    bar leaves the state. *)
Definition close_if_due (k : threshold_bar) (s : bar_state) (t : TickRow) : proc bar_states (option Bar) :=
  if should_close k s then
    pbind (plift (mk (emit k s t))) (λ bar, λ states, (delete (t_symbol t) states, Ok (Some bar)))
  else pret None.

Definition default_process (k : threshold_bar) (t : TickRow) : proc bar_states (option Bar) := λ states,
  match states !! t_symbol t with
  | None =>
      let s := new_state t in close_if_due k s t (<[t_symbol t := s]> states)
  | Some s =>
      let s := merge s t in close_if_due k s t (<[t_symbol t := s]> states)
  end.

(** ** Time bars *)

(** [TimeBarAggregator.__init__]: the whole seconds of a time frame in microseconds. *)
Definition time_bar (timeframe : Z) : res Z :=
  if timeframe <=? 0 then Raise ValueError
  else if timeframe mod 1000000 =? 0 then Ok (timeframe / 1000000) else Raise ValueError.

Definition window_start (timeframe ts : Z) : Z := ts / timeframe * timeframe.

(** The state of a time bar starts at its window. *)
Definition new_time_state (timeframe : Z) (t : TickRow) : bar_state :=
  let s := new_state t in
  BarState (window_start timeframe (t_ts_utc t)) (s_open s) (s_high s) (s_low s) (s_close s) (s_volume s)
    (s_value s) (s_last_ts s) (s_tick_count s).

Definition time_bar_args (timeframe : Z) (s : bar_state) (t : TickRow) : info_bar :=
  let seconds := timeframe / 1000000 in
  InfoBar ("time_" +:+ pretty seconds) (s_genesis_ts s) (s_genesis_ts s + timeframe) (dint seconds)
    (t_exchange t) (t_symbol t) (s_open s) (s_high s) (s_low s) (s_close s) (s_volume s) (s_value s).

Definition time_process_tick (timeframe : Z) (t : TickRow) : proc bar_states (option Bar) := λ states,
  match states !! t_symbol t with
  | None => (<[t_symbol t := new_time_state timeframe t]> states, Ok None)
  | Some s =>
      if t_ts_utc t <? s_genesis_ts s + timeframe then (<[t_symbol t := merge s t]> states, Ok None)
      else pbind (plift (mk (time_bar_args timeframe s t)))
             (λ bar, λ states, (<[t_symbol t := new_time_state timeframe t]> states, Ok (Some bar))) states
  end.

(** Feed ticks one after another to a fresh aggregator. *)
Definition feed (process : TickRow → proc bar_states (option Bar)) (ticks : list TickRow) :
    bar_states * list (TickRow * res (option Bar)) :=
  foldl (λ '(states, out) t, let '(states', r) := process t states in (states', out ++ [(t, r)])) (∅, []) ticks.
End processing.
End aggregation.

(** ** Scaled integers ([aggregation/scaled_int.py]) *)

Definition to_scaled (value : decimal) (precision : Z) : res Z :=
  if precision <? 0 then Raise ValueError else
  let scaled := dmul value (dpow10 precision) in
  if negb (deqb scaled (to_integral_value scaled)) then Raise ValueError else Ok (dtrunc scaled).

Definition from_scaled (value precision : Z) : res decimal :=
  if precision <? 0 then Raise ValueError
  else if precision =? 0 then Ok (dint value)
  else Ok (ddiv (dint value) (dpow10 precision)).

Example dstr_examples :
  dstr (Dec 1000 0) = "1000" ∧ dstr (Dec 12345 (-2)) = "123.45" ∧ dstr (Dec 5 (-3)) = "0.005" ∧
  dstr (Dec 1 3) = "1E+3" ∧ dstr (Dec (-12) (-9)) = "-1.2E-8" ∧ dstr (Dec 0 0) = "0".
Proof. vm_compute. repeat split. Qed.

(** ** Reference: the bar of a group of ticks *)

Section reference.
Context {Symbol : Type} `{Countable Symbol}.
Notation TickRow := (@TickRow Symbol).

Definition notional (t : TickRow) : decimal := dmul (t_price t) (t_quantity t).
Definition dmax (a b : decimal) : decimal := if dltb a b then b else a.
Definition dmin (a b : decimal) : decimal := if dltb b a then b else a.

(** A group is a first tick and the ticks after it. *)
Definition volume_of (t : TickRow) (ts : list TickRow) : decimal := foldl dadd (t_quantity t) (t_quantity <$> ts).
Definition value_of (t : TickRow) (ts : list TickRow) : decimal := foldl dadd (notional t) (notional <$> ts).
Definition high_of (t : TickRow) (ts : list TickRow) : decimal := foldl dmax (t_price t) (t_price <$> ts).
Definition low_of (t : TickRow) (ts : list TickRow) : decimal := foldl dmin (t_price t) (t_price <$> ts).
Definition last_of (t : TickRow) (ts : list TickRow) : TickRow := List.last ts t.

Definition reached (k : threshold_bar) (t : TickRow) (ts : list TickRow) : bool :=
  match k with
  | VolumeBar thr => dleb thr (volume_of t ts)
  | TickBar thr => thr <=? Z.of_nat (length (t :: ts))
  | DollarBar thr => dleb thr (value_of t ts)
  end.

Definition group_bar (k : threshold_bar) (t : TickRow) (ts : list TickRow) : info_bar :=
  let l := last_of t ts in
  InfoBar (bar_label k) (t_ts_utc t) (Z.max (t_ts_utc l) (t_ts_utc t + 1)) (threshold_decimal k)
    (t_exchange l) (t_symbol l) (t_price t) (high_of t ts) (low_of t ts) (t_price l) (volume_of t ts) (value_of t ts).

(** The bar of a window: [next] is the tick that flushes it. *)
Definition window_bar (timeframe : Z) (t : TickRow) (ts : list TickRow) (next : TickRow) : info_bar :=
  let w := window_start timeframe (t_ts_utc t) in
  InfoBar ("time_" +:+ pretty (timeframe / 1000000)) w (w + timeframe) (dint (timeframe / 1000000))
    (t_exchange next) (t_symbol next) (t_price t) (high_of t ts) (low_of t ts) (t_price (last_of t ts))
    (volume_of t ts) (value_of t ts).

(** What every bar promises of its group. *)
Record bar_ok (g : list TickRow) (b : @info_bar Symbol) : Prop := {
  ok_bounds : ∀ t, t ∈ g → dleb (b_low b) (t_price t) = true ∧ dleb (t_price t) (b_high b) = true;
  ok_high : b_high b ∈ t_price <$> g;
  ok_low : b_low b ∈ t_price <$> g;
  ok_open : Some (b_open b) = t_price <$> head g;
  ok_close : Some (b_close b) = t_price <$> last g;
  ok_order : b_genesis_ts b < b_ts_close b }.

Lemma foldl_dmax p l :
  (∀ x, x ∈ p :: l → dleb x (foldl dmax p l) = true) ∧ foldl dmax p l ∈ p :: l.
Proof.
  revert p. induction l as [|q l IH]; intros p; simpl.
  { split; [intros x ->%list_elem_of_singleton; auto with py|by left]. }
  destruct (IH (dmax p q)) as [Hle Hin].
  assert (dleb p (dmax p q) = true ∧ dleb q (dmax p q) = true) as [Hp Hq].
  { unfold dmax. rewrite dltb_negb. destruct (dleb q p) eqn:E; simpl; auto with py.
    destruct (dleb_total p q); [auto with py|congruence]. }
  assert (dleb (dmax p q) (foldl dmax (dmax p q) l) = true) as Hm by (apply Hle; by left).
  split.
  - intros x [->|[->|Hx]%elem_of_cons]%elem_of_cons; [eauto with py..|apply Hle; by right].
  - apply elem_of_cons in Hin as [Hin|Hin]; [|by do 2 right].
    rewrite Hin. unfold dmax. destruct (dltb p q); [right; by left|by left].
Qed.

Lemma foldl_dmin p l :
  (∀ x, x ∈ p :: l → dleb (foldl dmin p l) x = true) ∧ foldl dmin p l ∈ p :: l.
Proof.
  revert p. induction l as [|q l IH]; intros p; simpl.
  { split; [intros x ->%list_elem_of_singleton; auto with py|by left]. }
  destruct (IH (dmin p q)) as [Hle Hin].
  assert (dleb (dmin p q) p = true ∧ dleb (dmin p q) q = true) as [Hp Hq].
  { unfold dmin. rewrite dltb_negb. destruct (dleb p q) eqn:E; simpl; auto with py.
    destruct (dleb_total p q); [congruence|auto with py]. }
  assert (dleb (foldl dmin (dmin p q) l) (dmin p q) = true) as Hm by (apply Hle; by left).
  split.
  - intros x [->|[->|Hx]%elem_of_cons]%elem_of_cons; [eauto with py..|apply Hle; by right].
  - apply elem_of_cons in Hin as [Hin|Hin]; [|by do 2 right].
    rewrite Hin. unfold dmin. destruct (dltb q p); [right; by left|by left].
Qed.

Lemma last_default {A} (u : A) l d d' : List.last (u :: l) d = List.last (u :: l) d'.
Proof. revert u. induction l as [|v l IH]; intros u; [done|]. apply (IH v). Qed.

Lemma last_of_last t ts : last (t :: ts) = Some (last_of t ts).
Proof.
  unfold last_of. revert t. induction ts as [|u ts IH]; intros t; [done|].
  change (last (t :: u :: ts)) with (last (u :: ts)). rewrite IH. f_equal. simpl. destruct ts; [done|].
  apply last_default.
Qed.

Lemma ohlc_ok t ts (b : @info_bar Symbol) :
  b_high b = high_of t ts → b_low b = low_of t ts → b_open b = t_price t → b_close b = t_price (last_of t ts) →
  b_genesis_ts b < b_ts_close b → bar_ok (t :: ts) b.
Proof.
  intros Hh Hl Ho Hc Hts.
  destruct (foldl_dmax (t_price t) (t_price <$> ts)) as [Hmax Hmaxin].
  destruct (foldl_dmin (t_price t) (t_price <$> ts)) as [Hmin Hminin].
  split; [|by rewrite Hh|by rewrite Hl|by rewrite Ho|by rewrite Hc, last_of_last|done].
  intros x Hx. rewrite Hh, Hl.
  assert (t_price x ∈ t_price t :: (t_price <$> ts)) as Hin.
  { change (t_price x ∈ t_price <$> (t :: ts)). apply list_elem_of_fmap. eauto. }
  split; [by apply Hmin|by apply Hmax].
Qed.

Lemma group_bar_ok k t ts : bar_ok (t :: ts) (group_bar k t ts).
Proof. apply ohlc_ok; try done. simpl. lia. Qed.

(** Merging a list of ticks into a state, field by field. *)
Lemma merge_all (s : bar_state) (ts : list TickRow) l :
  s_close s = t_price l → s_last_ts s = t_ts_utc l →
  foldl merge s ts =
  BarState (s_genesis_ts s) (s_open s) (foldl dmax (s_high s) (t_price <$> ts)) (foldl dmin (s_low s) (t_price <$> ts))
    (t_price (last_of l ts)) (foldl dadd (s_volume s) (t_quantity <$> ts)) (foldl dadd (s_value s) (notional <$> ts))
    (t_ts_utc (last_of l ts)) (s_tick_count s + Z.of_nat (length ts)).
Proof.
  revert s l. induction ts as [|t ts IH]; intros s l Hc Hl; simpl.
  - destruct s; simpl in *; subst. f_equal. lia.
  - rewrite (IH (merge s t) t) by done. unfold merge. simpl. f_equal; try lia.
    all: f_equal; unfold last_of; destruct ts; [done|]; apply last_default.
Qed.
End reference.

(** ** Threshold bars partition the ticks *)

Definition of_symbol {Symbol} `{EqDecision Symbol} (s : Symbol) (ticks : list (@TickRow Symbol)) : list TickRow :=
  List.filter (λ t, bool_decide (t_symbol t = s)) ticks.

(** The bars emitted for a symbol, in order. *)
Definition bars_of {Symbol Bar} `{EqDecision Symbol} (s : Symbol) (out : list (@TickRow Symbol * res (option Bar))) : list Bar :=
  omap (λ '(t, r), match r with
                   | Ok (Some b) => if bool_decide (t_symbol t = s) then Some b else None
                   | _ => None
                   end) out.

(** The ticks of a symbol whose call did not raise. *)
Definition accepted_of {Symbol Bar} `{EqDecision Symbol} (s : Symbol) (out : list (@TickRow Symbol * res (option Bar))) : list TickRow :=
  omap (λ '(t, r), if res_is_ok r && bool_decide (t_symbol t = s) then Some t else None) out.

Lemma feed_snoc {Symbol Bar} `{Countable Symbol} (process : TickRow → proc (gmap Symbol bar_state) (option Bar)) ticks t :
  feed process (ticks ++ [t]) =
  let '(states, out) := feed process ticks in
  let '(states', r) := process t states in (states', out ++ [(t, r)]).
Proof. unfold feed. rewrite foldl_app. simpl. by destruct (foldl _ _ ticks). Qed.

Lemma bars_of_snoc {Symbol Bar} `{EqDecision Symbol} (s : Symbol) (out : list (@TickRow Symbol * res (option Bar))) t r :
  bars_of s (out ++ [(t, r)]) =
  bars_of s out ++ match r with Ok (Some b) => if bool_decide (t_symbol t = s) then [b] else [] | _ => [] end.
Proof. unfold bars_of. rewrite omap_app. f_equal. cbn. destruct r as [[b|]|]; [|done..]. by destruct (bool_decide _). Qed.

Lemma accepted_of_snoc {Symbol Bar} `{EqDecision Symbol} (s : Symbol) (out : list (@TickRow Symbol * res (option Bar))) t r :
  accepted_of s (out ++ [(t, r)]) =
  accepted_of s out ++ if res_is_ok r && bool_decide (t_symbol t = s) then [t] else [].
Proof. unfold accepted_of. rewrite omap_app. f_equal. cbn. by destruct (_ && _). Qed.

Lemma of_symbol_snoc {Symbol} `{EqDecision Symbol} (s : Symbol) ticks (t : @TickRow Symbol) :
  of_symbol s (ticks ++ [t]) = of_symbol s ticks ++ if bool_decide (t_symbol t = s) then [t] else [].
Proof. unfold of_symbol. by rewrite List.filter_app. Qed.

Section threshold.
Context {Symbol : Type} `{Countable Symbol} {Bar : Type} (mk : @info_bar Symbol → res Bar) (k : threshold_bar).
Notation TickRow := (@TickRow Symbol).

(** The bar of the group is due and accepted. *)
Definition closes (t : TickRow) (ts : list TickRow) : bool := reached k t ts && res_is_ok (mk (group_bar k t ts)).

(** The group closes with its last tick and not before. *)
Definition closed_group (g : list TickRow) (b : Bar) : Prop :=
  ∃ t ts, g = t :: ts ∧ reached k t ts = true ∧ mk (group_bar k t ts) = Ok b ∧ bar_ok g (group_bar k t ts) ∧
    ∀ p u rest, ts = p ++ u :: rest → closes t p = false.

(** No beginning of the group closes it. *)
Definition open_group (g : list TickRow) : Prop :=
  match g with [] => True | t :: ts => ∀ p rest, ts = p ++ rest → closes t p = false end.

Definition open_state (g : list TickRow) : option bar_state :=
  match g with [] => None | t :: ts => Some (foldl merge (new_state t) ts) end.

Lemma open_state_due t ts s :
  open_state (t :: ts) = Some s →
  should_close k s = reached k t ts ∧ emit k s (last_of t ts) = group_bar k t ts.
Proof.
  intros [= <-]. rewrite (merge_all _ ts t) by done. split.
  - destruct k; simpl; try done. f_equal. lia.
  - unfold emit, group_bar. simpl. f_equal. destruct (Z.leb_spec (t_ts_utc (last_of t ts)) (t_ts_utc t)); lia.
Qed.

(** One tick, seen from the open group of its symbol. *)
Lemma default_process_group t t0 ts states g :
  states !! t_symbol t = open_state g → g ++ [t] = t0 :: ts →
  default_process mk k t states =
  let states' := match open_state (t0 :: ts) with Some s => <[t_symbol t := s]> states | None => states end in
  if reached k t0 ts then
    match mk (group_bar k t0 ts) with
    | Ok b => (delete (t_symbol t) states', Ok (Some b))
    | Raise e => (states', Raise e)
    end
  else (states', Ok None).
Proof.
  intros Hst Hg.
  assert (last_of t0 ts = t) as Hlast.
  { apply (inj Some). rewrite <- last_of_last, <- Hg. apply last_snoc. }
  assert (default_process mk k t states =
    match open_state (t0 :: ts) with
    | Some s => close_if_due mk k s t (<[t_symbol t := s]> states) | None => (states, Ok None) end) as ->.
  { unfold default_process. rewrite Hst. destruct g as [|g0 g]; simpl in Hg; injection Hg as -> Hts; [by subst ts|].
    subst ts. simpl. by rewrite foldl_app. }
  simpl. unfold close_if_due.
  destruct (open_state_due t0 ts _ eq_refl) as [-> He]. rewrite Hlast in He. rewrite He.
  destruct (reached k t0 ts); [|done]. unfold pbind, plift. by destruct (mk _).
Qed.

Definition threshold_inv (s : Symbol) (ticks : list TickRow) (states : gmap Symbol bar_state) (bars : list Bar) : Prop :=
  ∃ groups rest, of_symbol s ticks = concat groups ++ rest ∧ Forall2 closed_group groups bars ∧
    open_group rest ∧ states !! s = open_state rest.

Lemma open_group_snoc g t t0 ts :
  open_group g → g ++ [t] = t0 :: ts → ∀ p u rest, ts = p ++ u :: rest → closes t0 p = false.
Proof.
  intros Hopen Hg p u rest Hts. destruct g as [|g0 g]; simpl in Hg; injection Hg as -> Hts'; rewrite Hts in Hts'.
  - by destruct p.
  - destruct (exists_last (l := u :: rest)) as (r&v&Hr); [done|]. rewrite Hr, app_assoc in Hts'.
    apply app_inj_tail in Hts' as [-> _]. by eapply Hopen.
Qed.

Lemma threshold_step s ticks states out t :
  threshold_inv s ticks states (bars_of s out) →
  let '(states', r) := default_process mk k t states in
  threshold_inv s (ticks ++ [t]) states' (bars_of s (out ++ [(t, r)])).
Proof.
  intros (groups&rest&Hsp&Hcl&Hop&Hst).
  destruct (default_process mk k t states) as [states' r] eqn:Hp.
  unfold threshold_inv. rewrite of_symbol_snoc, bars_of_snoc.
  destruct (decide (t_symbol t = s)) as [Hs|Hs].
  2:{ exists groups, rest. rewrite bool_decide_false by done.
      replace (match r with Ok (Some _) => [] | _ => [] end) with (@nil Bar) by by repeat case_match.
      rewrite !app_nil_r. split_and!; try done. rewrite <- Hst. unfold default_process, close_if_due in Hp.
      repeat case_match; simplify_eq; unfold pbind, plift, pret in *; repeat case_match; simplify_eq;
        by rewrite ?lookup_delete_ne, ?lookup_insert_ne by done. }
  subst s. rewrite bool_decide_true by done.
  destruct (rest ++ [t]) as [|t0 ts] eqn:Hg; [by destruct rest|].
  rewrite (default_process_group t t0 ts states rest Hst Hg) in Hp. simpl in Hp.
  pose proof (open_group_snoc rest t t0 ts Hop Hg) as Hpre.
  assert (closes t0 ts = false → states' = <[t_symbol t := foldl merge (new_state t0) ts]> states →
    ∃ gs r', of_symbol (t_symbol t) ticks ++ [t] = concat gs ++ r' ∧ Forall2 closed_group gs (bars_of (t_symbol t) out ++ []) ∧
    open_group r' ∧ states' !! t_symbol t = open_state r') as Hopen.
  { intros Hnc ->. exists groups, (t0 :: ts). rewrite app_nil_r, lookup_insert_eq, Hsp, <- app_assoc, Hg.
    split_and!; try done. intros p [|u r'] Hts; [rewrite app_nil_r in Hts; by subst|by eapply Hpre]. }
  destruct (reached k t0 ts) eqn:Hr; [destruct (mk (group_bar k t0 ts)) eqn:Hm|]; injection Hp as <- <-.
  - exists (groups ++ [t0 :: ts]), []. rewrite concat_app, lookup_delete_eq, app_nil_r, Hsp, <- app_assoc, Hg.
    simpl. rewrite app_nil_r. split_and!; try done. apply Forall2_app; [done|]. constructor; [|done].
    exists t0, ts. split_and!; try done. apply group_bar_ok.
  - apply Hopen; [|done]. unfold closes. by rewrite Hr, Hm.
  - apply Hopen; [|done]. unfold closes. by rewrite Hr.
Qed.
End threshold.

(** C36.  A volume, tick or notional bar aggregator partitions the ticks of
    each symbol, whatever other symbols do: the ticks are consecutive groups
    and an open rest; each group reaches the threshold with its last tick and
    with no earlier one (a refused bar apart); the bars emitted are those of
    the groups, computed as the reference computes them, and each has its
    prices between low and high and closes after it opens; the kept state is
    that of the rest, and the rest has not reached the threshold. *)
Theorem threshold_bars_partition_ticks {Symbol Bar : Type} `{Countable Symbol} (mk : @info_bar Symbol → res Bar)
    (k : threshold_bar) (ticks : list TickRow) (s : Symbol) :
  ∃ groups rest,
    of_symbol s ticks = concat groups ++ rest ∧
    Forall2 (closed_group mk k) groups (bars_of s (feed (default_process mk k) ticks).2) ∧
    open_group mk k rest ∧ (feed (default_process mk k) ticks).1 !! s = open_state rest.
Proof.
  change (threshold_inv mk k s ticks (feed (default_process mk k) ticks).1 (bars_of s (feed (default_process mk k) ticks).2)).
  induction ticks as [|t ticks IH] using rev_ind.
  - exists [], []. by split_and!.
  - rewrite feed_snoc. destruct (feed _ ticks) as [states out]. simpl in IH.
    pose proof (threshold_step mk k s ticks states out t IH) as Hstep.
    by destruct (default_process mk k t states).
Qed.

(** ** Time bars follow the windows *)

Section time_bars.
Context {Symbol : Type} `{Countable Symbol} {Bar : Type} (mk : @info_bar Symbol → res Bar) (timeframe : Z).
Notation TickRow := (@TickRow Symbol).
Notation group := (TickRow * list TickRow)%type.

Definition members (g : group) : list TickRow := g.1 :: g.2.
Definition window (t : TickRow) : Z := window_start timeframe (t_ts_utc t).

(** Groups of one symbol and the bars emitted for all but the last of them:
    the first tick of the next group flushes a group. *)
Record windows (groups : list group) (bars : list Bar) : Prop := {
  win_bars : length bars = pred (length groups);
  win_flush : ∀ i g g', groups !! i = Some g → groups !! S i = Some g' →
    ∃ b, bars !! i = Some b ∧ mk (window_bar timeframe g.1 g.2 g'.1) = Ok b ∧
         bar_ok (members g) (window_bar timeframe g.1 g.2 g'.1) ∧ window g.1 + timeframe <= window g'.1;
  win_in : ∀ g x, g ∈ groups → x ∈ members g → t_ts_utc x < window g.1 + timeframe }.

Context (Htf : 0 < timeframe).

Lemma window_start_spec ts :
  window_start timeframe ts <= ts < window_start timeframe ts + timeframe ∧ (timeframe | window_start timeframe ts).
Proof.
  unfold window_start. pose proof (Z.div_mod ts timeframe). pose proof (Z.mod_pos_bound ts timeframe Htf).
  split; [lia|]. exists (ts / timeframe). lia.
Qed.

Lemma window_start_unique w ts : (timeframe | w) → w <= ts < w + timeframe → window_start timeframe ts = w.
Proof.
  intros [k ->] Hb. unfold window_start. f_equal. symmetry. apply (Z.div_unique ts timeframe k (ts - k * timeframe)); lia.
Qed.

Lemma window_next w ts : (timeframe | w) → w + timeframe <= ts → w + timeframe <= window_start timeframe ts.
Proof.
  intros [k ->] Hb. unfold window_start.
  assert (k + 1 <= ts / timeframe) by (apply Z.div_le_lower_bound; lia). nia.
Qed.

Lemma windows_nil t : windows [(t, [])] [].
Proof.
  split; [done|by intros []|]. intros g x ->%list_elem_of_singleton Hx. apply list_elem_of_singleton in Hx as ->.
  simpl. pose proof (window_start_spec (t_ts_utc t)). unfold window. lia.
Qed.

Lemma windows_merge gs t0 ts t bars :
  windows (gs ++ [(t0, ts)]) bars → t_ts_utc t < window t0 + timeframe → windows (gs ++ [(t0, ts ++ [t])]) bars.
Proof.
  intros [Hb Hf Hi] Ht. split.
  - rewrite Hb, !length_app. done.
  - intros i g g' Hg Hg'. destruct (decide (S i < length gs)%nat) as [Hlt|Hge].
    + rewrite lookup_app_l in Hg, Hg' by lia. apply Hf; rewrite lookup_app_l; [done|lia|done|lia].
    + apply lookup_lt_Some in Hg' as Hlen. rewrite length_app in Hlen. simpl in Hlen.
      rewrite lookup_app_l in Hg by lia. rewrite lookup_app_r in Hg' by lia.
      replace (S i - length gs)%nat with 0%nat in Hg' by lia. injection Hg' as <-.
      destruct (Hf i g (t0, ts)) as (b&?&?&?); [by rewrite lookup_app_l by lia| |by exists b].
      rewrite lookup_app_r by lia. by replace (S i - length gs)%nat with 0%nat by lia.
  - intros g x [Hg| ->%list_elem_of_singleton]%elem_of_app Hx; [apply Hi; [apply elem_of_app; by left|done]|].
    unfold members in Hx. simpl in *. rewrite app_comm_cons in Hx.
    apply elem_of_app in Hx as [Hx| ->%list_elem_of_singleton]; [|done].
    apply (Hi (t0, ts)); [apply elem_of_app; right; by left|done].
Qed.

Lemma windows_flush gs t0 ts t bars b :
  windows (gs ++ [(t0, ts)]) bars → window t0 + timeframe <= t_ts_utc t → mk (window_bar timeframe t0 ts t) = Ok b →
  windows ((gs ++ [(t0, ts)]) ++ [(t, [])]) (bars ++ [b]).
Proof.
  intros [Hb Hf Hi] Ht Hmk. rewrite length_app in Hb. simpl in Hb. split.
  - rewrite !length_app. simpl. lia.
  - intros i g g' Hg Hg'. apply lookup_lt_Some in Hg' as Hlen. rewrite !length_app in Hlen. simpl in Hlen.
    rewrite lookup_app_l in Hg by (rewrite length_app; simpl; lia).
    destruct (decide (S i < length gs + 1)%nat) as [Hlt|Hge].
    + rewrite lookup_app_l in Hg' by (rewrite length_app; simpl; lia).
      destruct (Hf i g g' Hg Hg') as (b'&Hb'&?). exists b'. split; [|done].
      rewrite lookup_app_l; [done|lia].
    + rewrite lookup_app_r in Hg' by (rewrite length_app; simpl; lia).
      rewrite length_app in Hg'. simpl in Hg'. replace (S i - _)%nat with 0%nat in Hg' by lia. injection Hg' as <-.
      rewrite lookup_app_r in Hg by lia. replace (i - length gs)%nat with 0%nat in Hg by lia. injection Hg as <-.
      exists b. split_and!; [|done|apply ohlc_ok; try done; simpl; lia|].
      * rewrite lookup_app_r by lia. by replace (i - length bars)%nat with 0%nat by lia.
      * simpl. apply window_next; [apply window_start_spec|done].
  - intros g x [Hg| ->%list_elem_of_singleton]%elem_of_app Hx; [by apply Hi|].
    apply list_elem_of_singleton in Hx as ->. simpl. pose proof (window_start_spec (t_ts_utc t)). unfold window. lia.
Qed.

Definition time_state (g : group) : bar_state := foldl merge (new_time_state timeframe g.1) g.2.

Lemma time_state_bar g t :
  s_genesis_ts (time_state g) = window g.1 ∧ time_bar_args timeframe (time_state g) t = window_bar timeframe g.1 g.2 t.
Proof. unfold time_state. rewrite (merge_all _ g.2 g.1) by done. done. Qed.

Definition time_inv (s : Symbol) (states : gmap Symbol bar_state) (out : list (TickRow * res (option Bar))) : Prop :=
  ∃ groups, accepted_of s out = concat (members <$> groups) ∧ windows groups (bars_of s out) ∧
    states !! s = time_state <$> last groups.

Lemma time_step s states out t :
  time_inv s states out →
  let '(states', r) := time_process_tick mk timeframe t states in time_inv s states' (out ++ [(t, r)]).
Proof.
  intros (groups&Hacc&Hw&Hst). destruct (time_process_tick mk timeframe t states) as [states' r] eqn:Hp.
  unfold time_inv. rewrite accepted_of_snoc, bars_of_snoc. unfold time_process_tick in Hp.
  destruct (decide (t_symbol t = s)) as [Hs|Hs].
  2:{ exists groups. rewrite bool_decide_false, andb_false_r by done.
      replace (match r with Ok (Some _) => [] | _ => [] end) with (@nil Bar) by by repeat case_match.
      rewrite !app_nil_r. split_and!; try done. rewrite <- Hst. unfold pbind, plift in Hp.
      repeat case_match; simplify_eq; by rewrite ?lookup_insert_ne by done. }
  subst s. rewrite bool_decide_true, andb_true_r by done. rewrite Hst in Hp.
  destruct groups as [|[t0 ts] gs _] using rev_ind; simpl in Hp.
  { injection Hp as <- <-. exists [(t, [])]. rewrite lookup_insert_eq, Hacc. split_and!; try done.
    destruct Hw as [Hb _ _]. apply length_zero_iff_nil in Hb. rewrite Hb. apply windows_nil. }
  rewrite last_snoc in Hp. simpl in Hp. destruct (time_state_bar (t0, ts) t) as [Hg Ha]. rewrite Hg, Ha in Hp.
  rewrite last_snoc in Hst. rewrite fmap_app, concat_app in Hacc. simpl in *. rewrite app_nil_r in Hacc.
  destruct (Z.ltb_spec (t_ts_utc t) (window t0 + timeframe)) as [Hlt|Hge].
  - injection Hp as <- <-. exists (gs ++ [(t0, ts ++ [t])]).
    rewrite lookup_insert_eq, last_snoc, fmap_app, concat_app, Hacc. simpl. rewrite !app_nil_r, <- app_assoc.
    split_and!; [done|by apply windows_merge|]. simpl. unfold time_state. simpl. by rewrite foldl_app.
  - unfold pbind, plift in Hp. destruct (mk _) as [b|e] eqn:Hm; injection Hp as <- <-; simpl.
    + exists ((gs ++ [(t0, ts)]) ++ [(t, [])]). rewrite lookup_insert_eq, last_snoc, !fmap_app, !concat_app, Hacc.
      simpl. rewrite !app_nil_r. split_and!; [done|by apply windows_flush|done].
    + exists (gs ++ [(t0, ts)]). rewrite !app_nil_r, last_snoc, fmap_app, concat_app. simpl.
      by rewrite app_nil_r.
Qed.

Lemma windows_increase groups bars i j g g' :
  windows groups bars → (i < j)%nat → groups !! i = Some g → groups !! j = Some g' → window g.1 + timeframe <= window g'.1.
Proof.
  intros [_ Hf _] Hij Hg. revert g'. induction Hij as [|j Hij IH]; intros g' Hg'.
  - destruct (Hf i g g' Hg Hg') as (?&?&?&?&?). done.
  - destruct (lookup_lt_is_Some_2 groups j) as [h Hh]; [apply lookup_lt_Some in Hg'; lia|].
    destruct (Hf j h g' Hh Hg') as (?&?&?&?&?). specialize (IH h Hh). lia.
Qed.

Definition in_time_order (ticks : list TickRow) : Prop := StronglySorted (λ a b, t_ts_utc a <= t_ts_utc b) ticks.

(** In time order every tick of a group lies in the window of the group. *)
Lemma group_in_window groups bars g x :
  windows groups bars → in_time_order (concat (members <$> groups)) → g ∈ groups → x ∈ members g → window x = window g.1.
Proof.
  intros [_ _ Hi] Hs Hg Hx. apply window_start_unique; [apply window_start_spec|].
  split; [|by apply Hi].
  assert (t_ts_utc g.1 <= t_ts_utc x) as Hle; [|pose proof (window_start_spec (t_ts_utc g.1)); unfold window in *; lia].
  apply list_elem_of_split in Hg as (l1&l2&->). unfold in_time_order in Hs. rewrite fmap_app, concat_app in Hs.
  apply StronglySorted_app_1_r in Hs. simpl in Hs. apply StronglySorted_inv in Hs as [_ Hall].
  apply elem_of_cons in Hx as [->|Hx]; [lia|]. rewrite Forall_forall in Hall. apply Hall. apply elem_of_app. by left.
Qed.

Lemma group_is_window groups bars g :
  windows groups bars → in_time_order (concat (members <$> groups)) → g ∈ groups →
  members g = List.filter (λ x, window x =? window g.1) (concat (members <$> groups)).
Proof.
  intros Hw Hs Hg. apply list_elem_of_lookup in Hg as [i Hi].
  rewrite <- (take_drop_middle groups i g Hi) at 1. rewrite fmap_app, concat_app, List.filter_app. simpl.
  rewrite List.filter_app.
  assert (∀ j h, j ≠ i → groups !! j = Some h → ∀ x, x ∈ members h → (window x =? window g.1) = false) as Hne.
  { intros j h Hj Hh x Hx. rewrite (group_in_window _ _ h x Hw Hs) by (done || by eapply list_elem_of_lookup_2).
    apply Z.eqb_neq. destruct (decide (j < i)%nat).
    - pose proof (windows_increase _ _ j i h g Hw ltac:(lia) Hh Hi). lia.
    - pose proof (windows_increase _ _ i j g h Hw ltac:(lia) Hi Hh). lia. }
  assert (∀ l, (∀ h, h ∈ l → ∃ j, j ≠ i ∧ groups !! j = Some h) →
    List.filter (λ x, window x =? window g.1) (concat (members <$> l)) = []) as Hnone.
  { induction l as [|h l IH]; intros Hl; [done|].
    destruct (Hl h) as (j&Hj&Hh); [by left|]. rewrite fmap_cons. cbn [concat].
    rewrite List.filter_app, IH by (intros; apply Hl; by right).
    rewrite app_nil_r. apply filter_none. intros x Hx. by apply (Hne j h Hj Hh). }
  rewrite !Hnone, app_nil_r.
  - simpl. rewrite Z.eqb_refl. unfold members at 1. f_equal. symmetry. apply filter_all. intros x Hx.
    apply Z.eqb_eq. apply (group_in_window _ _ g x Hw Hs); [by eapply list_elem_of_lookup_2|by right].
  - intros h [k Hk]%list_elem_of_lookup. rewrite lookup_drop in Hk. exists (S i + k)%nat. split; [lia|done].
  - intros h [k Hk]%list_elem_of_lookup. apply lookup_take_Some in Hk as [Hk ?]. exists k. split; [lia|done].
Qed.
End time_bars.

(** Time bars follow the windows.  The ticks of a symbol that were
    accepted form consecutive groups; every group but the last was flushed, by
    the first tick of the next group, into the bar of the reference, which has
    the bounds of the group's window and its prices between low and high;
    windows do not overlap and no tick of a group is past the end of its
    window.  If the ticks came in time order, each group is exactly the ticks
    of its window.  Without refused bars every tick is accepted. *)
Theorem time_bars_follow_windows {Symbol Bar : Type} `{Countable Symbol} (mk : @info_bar Symbol → res Bar)
    (timeframe : Z) (ticks : list TickRow) (s : Symbol) :
  0 < timeframe →
  let out := (feed (time_process_tick mk timeframe) ticks).2 in
  ∃ groups,
    accepted_of s out = concat (members <$> groups) ∧
    windows mk timeframe groups (bars_of s out) ∧
    (feed (time_process_tick mk timeframe) ticks).1 !! s = time_state timeframe <$> last groups ∧
    (in_time_order (accepted_of s out) → ∀ g, g ∈ groups →
      members g = List.filter (λ x, window timeframe x =? window timeframe g.1) (accepted_of s out)) ∧
    ((∀ a, res_is_ok (mk a) = true) → accepted_of s out = of_symbol s ticks).
Proof.
  intros Htf out.
  assert (time_inv mk timeframe s (feed (time_process_tick mk timeframe) ticks).1 out ∧
    ((∀ a, res_is_ok (mk a) = true) → accepted_of s out = of_symbol s ticks)) as [(groups&Hacc&Hw&Hst) Hall].
  - unfold out. clear out. induction ticks as [|t ticks [IH IHa]] using rev_ind.
    { split; [|done]. exists []. split_and!; try done. split; [done|by intros []|]. intros g x []%elem_of_nil. }
    rewrite feed_snoc, of_symbol_snoc. destruct (feed _ ticks) as [states out]. simpl in *.
    pose proof (time_step mk timeframe Htf s states out t IH) as Hstep.
    destruct (time_process_tick mk timeframe t states) as [states' r] eqn:Hp. split; [done|]. intros Hok. simpl.
    rewrite accepted_of_snoc, IHa by done.
    assert (res_is_ok r = true) as ->; [|done].
    unfold time_process_tick, pbind, plift in Hp. repeat case_match; simplify_eq; try done.
    match goal with E : mk ?a = Raise _ |- _ => pose proof (Hok a) as Ha; by rewrite E in Ha end.
  - exists groups. split_and!; try done. intros Hs g Hg. rewrite Hacc in *. by eapply group_is_window.
Qed.

Definition example_ticks : list (@TickRow string) :=
  [Tick "KRW-BTC" "upbit" 60000000 (Dec 100 0) (Dec 1 0); Tick "KRW-BTC" "upbit" 90000000 (Dec 90 0) (Dec 1 0);
   Tick "KRW-BTC" "upbit" 121000000 (Dec 95 0) (Dec 2 0)].

Lemma time_bars_follow_windows_witness :
  let out := (feed (time_process_tick (Bar := info_bar) Ok 60000000) example_ticks).2 in
  ∃ groups,
    accepted_of "KRW-BTC" out = concat (members <$> groups) ∧
    windows Ok 60000000 groups (bars_of "KRW-BTC" out) ∧
    (feed (time_process_tick Ok 60000000) example_ticks).1 !! "KRW-BTC" = time_state 60000000 <$> last groups ∧
    (in_time_order (accepted_of "KRW-BTC" out) → ∀ g, g ∈ groups →
      members g = List.filter (λ x, window 60000000 x =? window 60000000 g.1) (accepted_of "KRW-BTC" out)) ∧
    ((∀ a : @info_bar string, res_is_ok (Ok a) = true) → accepted_of "KRW-BTC" out = of_symbol "KRW-BTC" example_ticks).
Proof. apply (time_bars_follow_windows Ok 60000000 example_ticks "KRW-BTC"). lia. Defined.

(** A late tick is merged into the open window although it lies before it:
    the bar of [60 s, 120 s) takes its high from a tick at 30 s. *)
Lemma late_tick_enters_later_window :
  bars_of "KRW-BTC" (feed (time_process_tick Ok 60000000)
    [Tick "KRW-BTC" "upbit" 60000000 (Dec 100 0) (Dec 1 0); Tick "KRW-BTC" "upbit" 30000000 (Dec 999 0) (Dec 1 0);
     Tick "KRW-BTC" "upbit" 121000000 (Dec 95 0) (Dec 2 0)]).2 =
  [InfoBar "time_60" 60000000 120000000 (dint 60) "upbit" "KRW-BTC" (Dec 100 0) (Dec 999 0) (Dec 100 0) (Dec 999 0)
     (Dec 2 0) (Dec 1099 0)].
Proof. vm_compute. reflexivity. Qed.

(** The notional of one tick with 27 and 19 significant digits is rounded. *)
Lemma notional_is_rounded :
  let price := Dec 123456789123456789012345678 (-18) in
  let quantity := Dec 1000000000000000000001 (-18) in
  deqb (notional (Tick "KRW-BTC" "upbit" 0 price quantity)) (Dec (coef price * coef quantity) (-36)) = false.
Proof. vm_compute. reflexivity. Qed.

(** ** Scaled integers are exact up to 28 digits *)

Lemma to_scaled_iff d p m :
  0 <= p →
  to_scaled d p = Ok m ↔ is_int (dmul d (dpow10 p)) m.
Proof.
  intros Hp. unfold to_scaled. destruct (Z.ltb_spec p 0); [lia|].
  set (x := dmul d (dpow10 p)). split.
  - destruct (deqb x (to_integral_value x)) eqn:He; simpl; [|done]. intros [= <-]. by apply integral_is_int.
  - intros Hx. destruct (is_int_integral x m Hx) as [-> ->]. done.
Qed.

(** Scaled integers of at most 28 digits round-trip through [Decimal]
    at every precision; and while value and scale have 28 digits [to_scaled]
    returns the scaled number exactly when it is an integer, and raises
    otherwise: it never truncates. *)
Theorem scaled_integers_exact (n p : Z) (d : decimal) :
  0 <= p →
  (Z.abs n < 10 ^ prec → ∃ v, from_scaled n p = Ok v ∧ to_scaled v p = Ok n) ∧
  (Z.abs (coef d) * 10 ^ p < 10 ^ prec →
    (∀ m, to_scaled d p = Ok m ↔ deqb (Dec (coef d) (expo d + p)) (dint m) = true) ∧
    ((∀ m, deqb (Dec (coef d) (expo d + p)) (dint m) = false) → to_scaled d p = Raise ValueError)).
Proof.
  intros Hp. destruct (dpow10_spec p Hp) as (a&b&Hd&Ha&Hb&Hab). split.
  - intros Hn. unfold from_scaled. destruct (Z.ltb_spec p 0); [lia|]. destruct (Z.eqb_spec p 0) as [->|Hp0].
    { exists (dint n). split; [done|]. apply to_scaled_iff; [done|]. unfold dmul. simpl.
      rewrite dfix_small by (simpl; lia). split; simpl; lia. }
    destruct (ddiv_pow10 n a b Hn Ha) as (c&e&Hv&He&Hc&Hle). rewrite Hd, Hv. eexists. split; [done|].
    apply to_scaled_iff; [done|]. rewrite Hd. unfold dmul. simpl.
    destruct (dfix_pow10 c a (e + b)) as (c2&r&->&Hr&Hc2); [lia|done|].
    apply (is_int_at _ _ (Z.abs e + Z.abs b)); simpl; [lia|lia|].
    replace (e + b + r + (Z.abs e + Z.abs b)) with (r + (e + b + (Z.abs e + Z.abs b))) by lia.
    rewrite (pow10_add r) by lia. rewrite Z.mul_assoc, Hc2, <- Hc, <- !Z.mul_assoc, <- !pow10_add by lia.
    do 2 f_equal. lia.
  - intros Hs. assert (∀ m, to_scaled d p = Ok m ↔ deqb (Dec (coef d) (expo d + p)) (dint m) = true) as Hiff.
    { intros m. rewrite to_scaled_iff by done. rewrite <- is_int_deqb, Hd. unfold dmul. simpl.
      assert (10 ^ a <= 10 ^ p) by (apply Z.pow_le_mono_r; lia). pose proof (pow10_gt0 a Ha).
      rewrite dfix_small by (simpl; rewrite Z.abs_mul, (Z.abs_eq (10 ^ a)) by lia; nia).
      rewrite !(is_int_at _ m (Z.abs (expo d) + p)) by (simpl; lia). simpl.
      rewrite <- Z.mul_assoc, <- pow10_add by lia.
      by replace (a + (expo d + b + (Z.abs (expo d) + p))) with (expo d + p + (Z.abs (expo d) + p)) by lia. }
    split; [done|]. intros Hno. destruct (to_scaled d p) as [m|ex] eqn:Ht.
    + rewrite (proj1 (Hiff m) eq_refl) in Hno || (specialize (Hno m); rewrite (proj1 (Hiff m) eq_refl) in Hno). done.
    + unfold to_scaled in Ht. repeat case_match; congruence.
Qed.

Lemma scaled_integers_exact_witness :
  (∃ v, from_scaled 123456 8 = Ok v ∧ to_scaled v 8 = Ok 123456) ∧
  (∀ m, to_scaled (Dec 15 (-1)) 8 = Ok m ↔ deqb (Dec 15 7) (dint m) = true).
Proof.
  split.
  - apply (proj1 (scaled_integers_exact 123456 8 (Dec 15 (-1)) ltac:(lia))). vm_compute. reflexivity.
  - apply (proj1 (proj2 (scaled_integers_exact 123456 8 (Dec 15 (-1)) ltac:(lia)) ltac:(vm_compute; reflexivity))).
Defined.

(** Beyond 28 digits [to_scaled] rounds without an error: 29 significant
    digits of a value with 18 decimals lose the last one. *)
Lemma to_scaled_rounds_silently :
  to_scaled (Dec 12345678901123456789012345678 (-18)) 18 = Ok 12345678901123456789012345680 ∧
  to_scaled (Dec 10000000000000000000000000001 0) 0 = Ok 10000000000000000000000000000.
Proof. vm_compute. by split. Qed.
