(* ===== verification/Invariants.v ===== *)
(** * The invariant harness ([nas_migration/invariant_harness.py])

    The eight checks that compare a local partition with its objects on the
    NAS.  Local files are named by strings; the measured values of a check,
    which only go into reports, and metrics are not modelled.  Reading a
    Parquet footer is the parameter [read_parquet_meta]. *)
From S2P Require Import Prelude RetryQueue ObjectStore NasUploader NasKey Wal.
Open Scope string_scope.
Open Scope list_scope.
Open Scope Z_scope.

(** ** Paths and strings *)

(** [k.split("/")[-1]] and [Path(k).name]; [str(Path(k).parent)] *)
Definition basename (s : string) : string := List.last (split_slash s) "".
Definition parent (s : string) : string := join (List.removelast (split_slash s)).

(** [sub in s] *)
Fixpoint contains (sub s : string) : bool :=
  String.prefix sub s || match s with EmptyString => false | String _ s' => contains sub s' end.

Definition backslash : Ascii.ascii := Ascii.ascii_of_nat 92.
(** [s.replace] of backslashes by slashes. *)
Fixpoint to_slashes (s : string) : string :=
  match s with
  | EmptyString => EmptyString
  | String a s' => String (if Ascii.eqb a backslash then slash else a) (to_slashes s')
  end.

Fixpoint take_segment (s : string) : string :=
  match s with
  | EmptyString => EmptyString
  | String a s' => if Ascii.eqb a slash || Ascii.eqb a backslash then EmptyString else String a (take_segment s')
  end.

(** [_extract_schema_version]: the first match of the key with a non-empty
    value. *)
Fixpoint extract_schema_version (s : string) : option string :=
  let rest := match s with EmptyString => None | String _ s' => extract_schema_version s' end in
  if String.prefix "schema_version=" s then
    match take_segment (removeprefix "schema_version=" s) with EmptyString => rest | v => Some v end
  else rest.

(** ** Schemas *)

Definition ADR009_EXPECTED_COLUMN_NAMES : list string :=
  ["schema_version"; "exchange"; "symbol"; "date"; "ts"; "open"; "high"; "low"; "close"; "volume"; "vwap";
   "trade_count"; "bid_count"; "ask_count"; "source_provenance"; "ingestion_ts"].

Definition ADR009_CHANNEL_SCHEMA_MATRIX : list (string * (Z * list string)) :=
  [("orderbook_snapshot.v1", (11, ["ts_utc"; "received_at"; "exchange"; "symbol"; "baseline_seq"; "side"; "level";
      "price"; "quantity"; "payload_hash"; "raw_json"]));
   ("tick.v1", (8, ["ts_utc"; "received_at"; "exchange"; "symbol"; "price"; "quantity"; "side"; "raw_json"]));
   ("tick.v1.1", (11, ["ts_utc"; "received_at"; "exchange"; "symbol"; "price"; "quantity"; "side"; "raw_json";
      "ingest_seq"; "payload_hash"; "validation_status"]));
   ("ohlcv.v1", (16, ADR009_EXPECTED_COLUMN_NAMES))].

(** A Parquet schema: column names and printed types; and the row count. *)
Record parquet_meta := ParquetMeta { pm_schema : list (string * string); pm_rows : Z }.
Definition schema_names (sch : list (string * string)) : list string := sch.*1.

(** [schema.field(name).type]: a name that is not there once is an error. *)
Definition field_type (sch : list (string * string)) (name : string) : option string :=
  match List.filter (λ c, String.eqb c.1 name) sch with [c] => Some c.2 | _ => None end.

(** [_dtype_identity] *)
Definition dtype_identity (local nas : list (string * string)) : bool :=
  bool_decide (schema_names local = schema_names nas) &&
  forallb (λ n, match field_type local n, field_type nas n with
                | Some a, Some b => String.eqb a b
                | _, _ => false
                end) (schema_names local).

(** ** Results *)

Record PerInvariantResult := PerInvariant { pi_pass : bool; pi_mismatch_files : list string }.
Definition of_mismatches (names : list string) : PerInvariantResult :=
  PerInvariant (bool_decide (names = [])) names.

Record per_invariant_results := PerResults {
  r_schema_version : PerInvariantResult; r_object_count : PerInvariantResult; r_sha256 : PerInvariantResult;
  r_row_count : PerInvariantResult; r_column_count : PerInvariantResult; r_column_order : PerInvariantResult;
  r_dtype : PerInvariantResult; r_ambiguity : PerInvariantResult }.

Inductive invariant_status :=
| all_pass | sha256_fail | object_count_fail | row_count_fail | column_count_fail | column_order_fail
| dtype_fail | schema_version_fail | ambiguity_fail.
#[export] Instance invariant_status_eq_dec : EqDecision invariant_status.
Proof. solve_decision. Defined.

Record InvariantResult := MkInvariantResult { ir_status : invariant_status; ir_per : per_invariant_results }.

(** The priority of the failures. *)
Definition status_of (p : per_invariant_results) : invariant_status :=
  if negb (pi_pass (r_object_count p)) then object_count_fail
  else if negb (pi_pass (r_sha256 p)) then sha256_fail
  else if negb (pi_pass (r_row_count p)) then row_count_fail
  else if negb (pi_pass (r_column_count p)) then column_count_fail
  else if negb (pi_pass (r_column_order p)) then column_order_fail
  else if negb (pi_pass (r_dtype p)) then dtype_fail
  else if negb (pi_pass (r_schema_version p)) then schema_version_fail
  else if negb (pi_pass (r_ambiguity p)) then ambiguity_fail
  else all_pass.

(** Which of the five checks of one file pass. *)
Record file_check := FileCheck {
  fc_sha256 : bool; fc_row_count : bool; fc_column_count : bool; fc_column_order : bool; fc_dtype : bool }.
Definition mismatches (field : file_check → bool) (checks : list (string * file_check)) : list string :=
  (List.filter (λ c, negb (field c.2)) checks).*1.

(** [{f.name: f for f in files}]: a later file wins. *)
Definition by_basename (files : list string) : gmap string string :=
  foldl (λ m f, <[basename f := f]> m) ∅ files.

(** ** The harness *)

(** [expected_schema_version] is a list of valid versions. *)
Record harness_config := HarnessConfig {
  expected_column_count : option Z; expected_column_names : option (list string);
  expected_schema_version : list string; partition_normalization : bool }.

(** The names used with an explicit count ([__init__]). *)
Definition column_names_override (cfg : harness_config) : option (list string) :=
  match expected_column_count cfg, expected_column_names cfg with
  | Some _, None => Some ADR009_EXPECTED_COLUMN_NAMES
  | _, names => names
  end.

Section harness.
Context {S : Type} `{S3 S} (sha256_hex : bytes → string) (read_parquet_meta : bytes → res parquet_meta) (cfg : harness_config).
Local Notation proc := (proc (world S)).

(** [_resolve_expected_column_count] *)
Definition resolve_expected_column_count (file : string) : option Z * option (list string) :=
  match expected_column_count cfg with
  | Some n => (Some n, column_names_override cfg)
  | None =>
      match extract_schema_version (to_slashes file) with
      | None => (None, None)
      | Some sv =>
          match List.find (λ e, String.eqb e.1 sv) ADR009_CHANNEL_SCHEMA_MATRIX with
          | Some (_, (n, names)) => (Some n, Some names)
          | None => (None, None)
          end
      end
  end.

Definition has_valid_version (s : string) : bool :=
  match extract_schema_version s with
  | Some v => bool_decide (v ∈ expected_schema_version cfg)
  | None => existsb (λ v, contains ("schema_version=" +:+ v) s) (expected_schema_version cfg)
  end.
(** [_check_schema_version] *)
Definition check_schema_version (local_partition nas_partition : string) : PerInvariantResult :=
  PerInvariant (has_valid_version (to_slashes local_partition) && has_valid_version nas_partition) [].

Definition symmetric_difference (a b : list string) : list string :=
  sort_le String.leb (remove_dups
    (List.filter (λ n, negb (bool_decide (n ∈ b))) a ++ List.filter (λ n, negb (bool_decide (n ∈ a))) b)).
(** [_check_object_count] *)
Definition check_object_count (local_files nas_objects : list string) : PerInvariantResult :=
  if Nat.eqb (length local_files) (length nas_objects) then PerInvariant true []
  else PerInvariant false (symmetric_difference (basename <$> local_files) (basename <$> nas_objects)).

(** The schema-level checks of one file. *)
Definition check_meta (local_file : string) (sha_ok : bool) (local nas : parquet_meta) : file_check :=
  let '(count, names) := resolve_expected_column_count local_file in
  let ln := schema_names (pm_schema local) in
  let nn := schema_names (pm_schema nas) in
  FileCheck sha_ok (pm_rows local =? pm_rows nas)
    (match count with Some n => (Z.of_nat (length ln) =? n) && (Z.of_nat (length nn) =? n) | None => false end)
    (match names with Some ns => bool_decide (ln = ns) && bool_decide (nn = ns) | None => false end)
    (dtype_identity (pm_schema local) (pm_schema nas)).

(** The body of the loop over the common file names. *)
Definition check_file (local_file nas_key : string) : proc file_check := λ w,
  match download nas_key w with
  | (w1, Raise _) => (w1, Ok (FileCheck false false false false false))
  | (w1, Ok nas_data) =>
      match w_fs w1 !! local_file with
      | None => (w1, Raise FileNotFoundError)
      | Some local_data =>
          let sha_ok := String.eqb (sha256_hex local_data) (sha256_hex nas_data) in
          match read_parquet_meta local_data, read_parquet_meta nas_data with
          | Ok l, Ok n => (w1, Ok (check_meta local_file sha_ok l n))
          | _, _ => (w1, Ok (FileCheck sha_ok false false false false))
          end
      end
  end.

(** [_check_nas_partition_exists]: an error counts as absent. *)
Definition as_prefix (nas_partition : string) : string :=
  if endswith "/" nas_partition then nas_partition else nas_partition +:+ "/".
Definition check_nas_partition_exists (nas_partition : string) : proc bool :=
  pcatch (pbind (call_s3 (s3_list (as_prefix nas_partition))) (λ keys, pret (negb (bool_decide (keys = [])))))
    (λ _, pret false).

(** [_check_ambiguity] *)
Definition check_ambiguity (local_partition nas_partition : string) (local_files : list string) : proc PerInvariantResult :=
  if bool_decide (local_files = []) then pret (PerInvariant true [])
  else pbind (check_nas_partition_exists nas_partition) (λ nas_exists,
    pret (if nas_exists then PerInvariant false [local_partition] else PerInvariant true [])).

(** [_normalize_nas_partition]: both branches return the partition. *)
Definition normalize_nas_partition (nas_partition : string) : string := nas_partition.

(** [sorted(local_partition.glob("*.parquet"))] *)
Definition glob_parquet (partition : string) (fs : gmap string bytes) : list string :=
  sort_le String.leb
    (List.filter (λ f, String.eqb (parent f) partition && endswith ".parquet" (basename f)) (map_to_list fs).*1).

Definition common_basenames (local_files nas_objects : list string) : list string :=
  sort_le String.leb (List.filter (λ n, bool_decide (n ∈ basename <$> nas_objects)) (remove_dups (basename <$> local_files))).

Definition check_common (local_files nas_objects : list string) : proc (list (string * file_check)) :=
  pmap (λ n, pbind (check_file (by_basename local_files !!! n) (by_basename nas_objects !!! n)) (λ c, pret (n, c)))
    (common_basenames local_files nas_objects).

(** [verify] *)
Definition verify (local_partition nas_partition : string) (local_files nas_objects : option (list string)) : proc InvariantResult := λ w,
  let local_files := match local_files with Some l => l | None => glob_parquet local_partition (w_fs w) end in
  let effective := if partition_normalization cfg then normalize_nas_partition nas_partition else nas_partition in
  pbind (match nas_objects with Some l => pret l | None => list_objects effective end) (λ nas_objects,
  pbind (check_common local_files nas_objects) (λ checks,
  pbind (check_ambiguity local_partition effective local_files) (λ ambiguity,
    let per := PerResults (check_schema_version local_partition effective) (check_object_count local_files nas_objects)
      (of_mismatches (mismatches fc_sha256 checks)) (of_mismatches (mismatches fc_row_count checks))
      (of_mismatches (mismatches fc_column_count checks)) (of_mismatches (mismatches fc_column_order checks))
      (of_mismatches (mismatches fc_dtype checks)) ambiguity in
    pret (MkInvariantResult (status_of per) per)))) w.
End harness.

(** ** Lemmas *)

Section lemmas.
Context {S : Type} `{S3Laws S} (sha256_hex : bytes → string) (read_parquet_meta : bytes → res parquet_meta) (cfg : harness_config).
Local Notation proc := (proc (world S)).
Local Notation check_file := (check_file sha256_hex read_parquet_meta cfg).
Local Notation check_common := (check_common sha256_hex read_parquet_meta cfg).
Local Notation verify := (verify sha256_hex read_parquet_meta cfg).

(** Objects, queue and files as before. *)
Definition same_storage (w w' : world S) : Prop := objects w' = objects w ∧ same_queue w w' ∧ same_files w w'.
Definition reads_only {A} (m : proc A) : Prop := ∀ w w' r, m w = (w', r) → same_storage w w'.

Lemma same_storage_refl w : same_storage w w.
Proof. done. Qed.
Lemma same_storage_trans w1 w2 w3 : same_storage w1 w2 → same_storage w2 w3 → same_storage w1 w3.
Proof. unfold same_storage, same_queue, same_files. intuition congruence. Qed.

Lemma reads_only_pret {A} (a : A) : reads_only (pret a).
Proof. by intros w w' r [= <- <-]. Qed.
Lemma reads_only_pbind {A B} (m : proc A) (k : A → proc B) :
  reads_only m → (∀ a, reads_only (k a)) → reads_only (pbind m k).
Proof.
  intros Hm Hk w w' r. unfold pbind. destruct (m w) as [w1 [a|e]] eqn:Hmw.
  - intros Hkw. eapply same_storage_trans; [by eapply Hm|by eapply Hk].
  - intros [= <- <-]. by eapply Hm.
Qed.
Lemma reads_only_pmap {A B} (f : A → proc B) l : (∀ x, reads_only (f x)) → reads_only (pmap f l).
Proof.
  intros Hf. induction l as [|x l IH]; simpl; [apply reads_only_pret|].
  apply reads_only_pbind; [done|]. intros y. apply reads_only_pbind; [done|]. intros; apply reads_only_pret.
Qed.
Lemma reads_only_list p : reads_only (call_s3 (s3_list p)).
Proof. intros w w' r (Hc&?&?&_)%call_s3_inv. split_and!; [by eapply s3_list_frame|done|done]. Qed.
Lemma reads_only_download k : reads_only (download k).
Proof. intros w w' r (Hc&?&?&_)%call_s3_inv. split_and!; [by eapply s3_get_frame|done|done]. Qed.

(** What the check of one file says when all of it passes. *)
Definition file_identical (file key : string) (w : world S) : Prop :=
  ∃ o data l n count names, objects w !! key = Some o ∧ w_fs w !! file = Some data ∧
    sha256_hex data = sha256_hex (ob_body o) ∧ read_parquet_meta data = Ok l ∧ read_parquet_meta (ob_body o) = Ok n ∧
    pm_rows l = pm_rows n ∧ resolve_expected_column_count cfg file = (Some count, Some names) ∧
    schema_names (pm_schema l) = names ∧ schema_names (pm_schema n) = names ∧ Z.of_nat (length names) = count ∧
    ∀ name, name ∈ names → ∃ ty, field_type (pm_schema l) name = Some ty ∧ field_type (pm_schema n) name = Some ty.

Definition file_ok (c : file_check) : bool :=
  fc_sha256 c && fc_row_count c && fc_column_count c && fc_column_order c && fc_dtype c.

Lemma dtype_identity_spec l n :
  dtype_identity l n = true →
  ∀ name, name ∈ schema_names l → ∃ ty, field_type l name = Some ty ∧ field_type n name = Some ty.
Proof.
  unfold dtype_identity. intros [_ Hall]%andb_true_iff name Hn. rewrite forallb_forall in Hall.
  specialize (Hall name ltac:(by apply list_elem_of_In)).
  destruct (field_type l name), (field_type n name); try done. apply String.eqb_eq in Hall as ->. eauto.
Qed.

Lemma check_file_inv file key w w' r :
  check_file file key w = (w', r) →
  same_storage w w' ∧ (∀ c, r = Ok c → file_ok c = true → file_identical file key w).
Proof.
  unfold Invariants.check_file. destruct (download key w) as [w1 [nas|e]] eqn:Hd.
  2:{ intros [= <- <-]. split; [by eapply reads_only_download|]. by intros c [= <-]. }
  pose proof (reads_only_download _ _ _ _ Hd) as (Ho&Hq&Hf).
  apply call_s3_inv in Hd as (Hg&_). apply s3_get_ok in Hg as (o&Hk&Hb).
  rewrite Hf. destruct (w_fs w !! file) as [data|] eqn:Hdata; [|intros [= <- <-]; split; [done|discriminate]].
  destruct (read_parquet_meta data) as [l|] eqn:Hl; [destruct (read_parquet_meta nas) as [n|] eqn:Hn|];
    intros [= <- <-]; (split; [done|]); intros c [= <-]; unfold file_ok; simpl; rewrite ?andb_false_r; try done.
  unfold check_meta. destruct (resolve_expected_column_count cfg file) as [[count|] [names|]] eqn:Hr;
    simpl; rewrite ?andb_false_r; try done.
  intros Hok. py_bool. apply String.eqb_eq in H1. exists o, data, l, n, count, names. subst nas.
  match goal with H : schema_names (pm_schema l) = names |- _ => rename H into Hln end.
  split_and!; try done; [rewrite <- Hln; lia|]. rewrite <- Hln. by apply dtype_identity_spec.
Qed.

Lemma check_common_inv files objs w w' checks :
  check_common files objs w = (w', Ok checks) →
  same_storage w w' ∧ checks.*1 = common_basenames files objs ∧
  (∀ n c, (n, c) ∈ checks → file_ok c = true → file_identical (by_basename files !!! n) (by_basename objs !!! n) w).
Proof.
  unfold Invariants.check_common. revert w checks. induction (common_basenames files objs) as [|n ns IH]; intros w checks; simpl.
  { intros [= <- <-]. split_and!; [done|done|]. intros n c []%elem_of_nil. }
  unfold pbind at 1, pbind at 1. destruct (check_file _ _ w) as [w1 [c|e]] eqn:Hc; [|done]. simpl.
  apply check_file_inv in Hc as [Hs Hid]. unfold pbind at 1.
  destruct (pmap _ ns w1) as [w2 [cs|e]] eqn:Hm; [|done]. intros [= <- <-].
  destruct (IH _ _ Hm) as (Hs2&Hn&Hids). split_and!; [by eapply same_storage_trans|simpl; by f_equal|].
  intros n' c' [[= -> ->]|Hin]%elem_of_cons Hok; [by apply (Hid c)|].
  specialize (Hids n' c' Hin Hok). destruct Hs as (Ho&_&Hf). unfold file_identical in *. by rewrite Ho, Hf in Hids.
Qed.

Lemma reads_only_check_file f k : reads_only (check_file f k).
Proof. intros w w' r Hc. by apply check_file_inv in Hc as [? _]. Qed.

Lemma check_nas_partition_exists_inv p w w' r :
  check_nas_partition_exists p w = (w', r) →
  same_storage w w' ∧ ∃ b, r = Ok b ∧
  (b = false → (∃ s' e, s3_list (as_prefix p) (w_s3 w) = (s', Raise e)) ∨
    ∀ k o, objects w !! k = Some o → String.prefix (as_prefix p) k = false).
Proof.
  unfold check_nas_partition_exists, pcatch, pbind. destruct (call_s3 _ w) as [w1 [keys|e]] eqn:Hl.
  - intros [= <- <-]. split; [by eapply reads_only_list|]. eexists. split; [done|].
    intros Hk. apply negb_false_iff, bool_decide_eq_true in Hk. subst keys. right.
    apply call_s3_inv in Hl as (Hl&_). apply s3_list_ok in Hl as [_ Hl]. intros k o Ho.
    destruct (String.prefix _ k) eqn:Hp; [|done]. exfalso. by apply (not_elem_of_nil k), Hl; eauto.
  - intros [= <- <-]. split; [by eapply reads_only_list|]. exists false. split; [done|]. intros _. left.
    apply call_s3_inv in Hl as (Hl&_). eauto.
Qed.

Lemma reads_only_verify lp np lf no : reads_only (verify lp np lf no).
Proof.
  intros w w' r. unfold Invariants.verify.
  match goal with |- ?m w = _ → _ => intros Hv; revert Hv; apply (reads_only_pbind (match no with Some l => pret l | None => list_objects _ end) _) end.
  - destruct no; [apply reads_only_pret|]. apply reads_only_pbind; [apply reads_only_list|]. intros; apply reads_only_pret.
  - intros objs. apply reads_only_pbind.
    + apply reads_only_pmap. intros n. apply reads_only_pbind; [apply reads_only_check_file|]. intros; apply reads_only_pret.
    + intros checks. apply reads_only_pbind; [|intros; apply reads_only_pret].
      unfold check_ambiguity. destruct (bool_decide _); [apply reads_only_pret|].
      apply reads_only_pbind; [|intros b; destruct b; apply reads_only_pret].
      intros v v' x Hx. by apply check_nas_partition_exists_inv in Hx as [? _].
Qed.

(** The parts of a completed verification. *)
Lemma verify_inv lp np lf no w w' r :
  verify lp np lf no w = (w', Ok r) →
  let files := match lf with Some l => l | None => glob_parquet lp (w_fs w) end in
  ∃ objs checks ambiguity w1 w2 w3,
    match no with Some l => objs = l ∧ w1 = w | None => list_objects np w = (w1, Ok objs) end ∧
    check_common files objs w1 = (w2, Ok checks) ∧
    check_ambiguity lp np files w2 = (w3, Ok ambiguity) ∧
    r_schema_version (ir_per r) = check_schema_version cfg lp np ∧
    r_object_count (ir_per r) = check_object_count files objs ∧
    r_sha256 (ir_per r) = of_mismatches (mismatches fc_sha256 checks) ∧
    r_row_count (ir_per r) = of_mismatches (mismatches fc_row_count checks) ∧
    r_column_count (ir_per r) = of_mismatches (mismatches fc_column_count checks) ∧
    r_column_order (ir_per r) = of_mismatches (mismatches fc_column_order checks) ∧
    r_dtype (ir_per r) = of_mismatches (mismatches fc_dtype checks) ∧
    r_ambiguity (ir_per r) = ambiguity ∧ ir_status r = status_of (ir_per r) ∧ same_storage w w1 ∧ same_storage w1 w2.
Proof.
  intros Hv files. unfold Invariants.verify in Hv.
  replace (if partition_normalization cfg then normalize_nas_partition np else np) with np in Hv by (by destruct (partition_normalization cfg)).
  unfold pbind at 1 in Hv. destruct ((match no with Some l => pret l | None => list_objects np end) w) as [w1 [objs|e]] eqn:Hl; [|done].
  unfold pbind at 1 in Hv. fold files in Hv. destruct (check_common files objs w1) as [w2 [checks|e]] eqn:Hc; [|done].
  unfold pbind in Hv. destruct (check_ambiguity lp np files w2) as [w3 [amb|e]] eqn:Ha; [|done]. injection Hv as <- <-.
  exists objs, checks, amb, w1, w2, w3. simpl. split_and!; try done.
  - destruct no; [by injection Hl as <- <-|done].
  - destruct no; [by injection Hl as <- <-|]. revert Hl. apply reads_only_pbind; [apply reads_only_list|intros; apply reads_only_pret].
  - by apply check_common_inv in Hc as [? _].
Qed.
End lemmas.

(** ** Lemmas on the verdict *)

Lemma status_all_pass p :
  status_of p = all_pass ↔
  pi_pass (r_object_count p) = true ∧ pi_pass (r_sha256 p) = true ∧ pi_pass (r_row_count p) = true ∧
  pi_pass (r_column_count p) = true ∧ pi_pass (r_column_order p) = true ∧ pi_pass (r_dtype p) = true ∧
  pi_pass (r_schema_version p) = true ∧ pi_pass (r_ambiguity p) = true.
Proof.
  unfold status_of. split; [intros Hs; repeat case_match; py_bool; try done; by split_and!|].
  by intros (->&->&->&->&->&->&->&->).
Qed.

Lemma mismatches_pass field checks :
  pi_pass (of_mismatches (mismatches field checks)) = true → ∀ n c, (n, c) ∈ checks → field c = true.
Proof.
  simpl. intros Hnil%bool_decide_eq_true n c Hin. destruct (field c) eqn:Hc; [done|]. exfalso.
  apply (not_elem_of_nil n). rewrite <- Hnil. apply list_elem_of_fmap. exists (n, c). split; [done|].
  apply list_elem_of_In, List.filter_In. rewrite <- list_elem_of_In. simpl. by rewrite Hc.
Qed.

Lemma by_basename_lookup files f :
  NoDup (basename <$> files) → f ∈ files → by_basename files !! basename f = Some f.
Proof.
  unfold by_basename. induction files as [|g files IH] using rev_ind; intros Hnd Hf; [by apply elem_of_nil in Hf|].
  rewrite foldl_app. simpl. rewrite fmap_app in Hnd. apply NoDup_app in Hnd as (Hnd&Hdis&_).
  apply elem_of_app in Hf as [Hf| ->%list_elem_of_singleton]; [|apply lookup_insert_eq].
  rewrite lookup_insert_ne; [by apply IH|]. intros Heq. apply (Hdis (basename f)); [apply list_elem_of_fmap; eauto|].
  simpl. apply list_elem_of_singleton. by rewrite Heq.
Qed.

Lemma common_basenames_spec files objs f k :
  f ∈ files → k ∈ objs → basename f = basename k → basename f ∈ common_basenames files objs.
Proof.
  intros Hf Hk Heq. unfold common_basenames. rewrite sort_le_perm.
  apply list_elem_of_In, List.filter_In. rewrite <- list_elem_of_In, elem_of_remove_dups. split.
  - apply list_elem_of_fmap. eauto.
  - apply bool_decide_eq_true. apply list_elem_of_fmap. exists k. done.
Qed.

(** What a passed verification means.  The harness reads only: no
    object, file or queue row changes whatever the outcome.  If it answers
    [all_pass], there are as many objects as files, both paths carry a valid
    schema version, and a file and an object of one name (names being unique)
    have one digest, one row count, the expected columns in order and equal
    types. *)
Theorem all_pass_means_identical {S : Type} `{S3Laws S} (sha256_hex : bytes → string)
    (read_parquet_meta : bytes → res parquet_meta) (cfg : harness_config) (lp np : string)
    (lf no : option (list string)) (w w' : world S) (r : res InvariantResult) :
  verify sha256_hex read_parquet_meta cfg lp np lf no w = (w', r) →
  same_storage w w' ∧
  (∀ v, r = Ok v → ir_status v = all_pass →
    let files := match lf with Some l => l | None => glob_parquet lp (w_fs w) end in
    has_valid_version cfg (to_slashes lp) = true ∧ has_valid_version cfg np = true ∧
    ∃ objs, match no with Some l => objs = l | None => ∀ k, k ∈ objs ↔ String.prefix np k = true ∧ is_Some (objects w !! k) end ∧
      length files = length objs ∧
      (NoDup (basename <$> files) → NoDup (basename <$> objs) → ∀ f k, f ∈ files → k ∈ objs → basename f = basename k →
        file_identical sha256_hex read_parquet_meta cfg f k w)).
Proof.
  intros Hv. split; [by eapply reads_only_verify|]. intros v -> Hall files.
  apply verify_inv in Hv as (objs&checks&amb&w1&w2&w3&Hno&Hc&_&Hsv&Hoc&Hsha&Hrc&Hcc&Hco&Hdt&_&Hst&Hs1&_).
  rewrite Hst in Hall. apply status_all_pass in Hall as (Poc&Psha&Prc&Pcc&Pco&Pdt&Psv&_).
  rewrite Hsv in Psv. unfold check_schema_version in Psv. simpl in Psv. apply andb_true_iff in Psv as [Hl Hn].
  split_and!; [done|done|]. exists objs. split_and!.
  - destruct no as [l|]; [by destruct Hno|]. intros k. unfold list_objects, pbind, pret in Hno.
    destruct (call_s3 _ w) as [w4 [keys|e]] eqn:Hcall; [|done]. injection Hno as <- <-.
    apply call_s3_inv in Hcall as (Hcall&_). apply s3_list_ok in Hcall as [_ Hk]. by rewrite sort_le_perm.
  - rewrite Hoc in Poc. unfold check_object_count in Poc. fold files in Poc.
    destruct (length files =? length objs)%nat eqn:E; [by apply Nat.eqb_eq in E|done].
  - intros Hnf Hnk f k Hf Hk Hbn.
    pose proof (common_basenames_spec files objs f k Hf Hk Hbn) as Hin.
    apply check_common_inv in Hc as (_&Hnames&Hids). fold files in Hnames. rewrite <- Hnames in Hin.
    apply list_elem_of_fmap in Hin as ([n c]&Hn'&Hin). simpl in Hn'. subst n.
    assert (file_ok c = true) as Hok.
    { unfold file_ok. rewrite Hsha in Psha. rewrite Hrc in Prc. rewrite Hcc in Pcc. rewrite Hco in Pco. rewrite Hdt in Pdt.
      by rewrite (mismatches_pass _ _ Psha _ _ Hin), (mismatches_pass _ _ Prc _ _ Hin), (mismatches_pass _ _ Pcc _ _ Hin),
        (mismatches_pass _ _ Pco _ _ Hin), (mismatches_pass _ _ Pdt _ _ Hin). }
    specialize (Hids _ _ Hin Hok).
    rewrite (lookup_total_correct _ _ _ (by_basename_lookup _ _ Hnf Hf)) in Hids.
    rewrite Hbn, (lookup_total_correct _ _ _ (by_basename_lookup _ _ Hnk Hk)) in Hids.
    destruct Hs1 as (Ho&_&Hfs). unfold file_identical in *. by rewrite Ho, Hfs in Hids.
Qed.

(** The listings of the store do not fail. *)
Definition lists_work (S : Type) `{S3 S} : Prop := ∀ p (s : S), ∃ s' keys, s3_list p s = (s', Ok keys).

Lemma replica_is_ambiguous {S : Type} `{S3Laws S} sha256_hex read_parquet_meta cfg lp np lf no (w w' : world S) v k :
  lists_work S →
  verify sha256_hex read_parquet_meta cfg lp np lf no w = (w', Ok v) →
  match lf with Some l => l | None => glob_parquet lp (w_fs w) end ≠ [] →
  is_Some (objects w !! k) → String.prefix (as_prefix np) k = true →
  ir_status v ≠ all_pass.
Proof.
  intros Hwork Hv Hne [o Ho] Hp Hall.
  apply verify_inv in Hv as (objs&checks&amb&w1&w2&w3&_&_&Ha&_&_&_&_&_&_&_&Hamb&Hst&(Ho1&_&_)&(Ho2&_&_)).
  rewrite Hst in Hall. apply status_all_pass in Hall as (_&_&_&_&_&_&_&Pa). rewrite Hamb in Pa.
  unfold check_ambiguity in Ha. rewrite bool_decide_false in Ha by done. unfold pbind in Ha.
  destruct (check_nas_partition_exists np w2) as [w4 rb] eqn:He.
  apply check_nas_partition_exists_inv in He as (_&b&->&Hb). destruct b; injection Ha as <- <-; [done|].
  destruct (Hb eq_refl) as [(s'&e&Hl)|Hnone].
  - destruct (Hwork (as_prefix np) (w_s3 w2)) as (s2&keys&Hk). congruence.
  - rewrite (Hnone k o) in Hp; [done|]. by rewrite Ho2, Ho1.
Qed.

(** The eighth check refuses what the others ask for.  While listings
    work, a partition with a local file and an object on the NAS never passes,
    however faithful the copy: the harness cannot confirm a replica. *)
Theorem replicated_partition_never_passes {S : Type} `{S3Laws S} (sha256_hex : bytes → string)
    (read_parquet_meta : bytes → res parquet_meta) (cfg : harness_config) (lp np : string)
    (lf no : option (list string)) (w w' : world S) (v : InvariantResult) (k : string) :
  lists_work S →
  verify sha256_hex read_parquet_meta cfg lp np lf no w = (w', Ok v) →
  match lf with Some l => l | None => glob_parquet lp (w_fs w) end ≠ [] →
  is_Some (objects w !! k) → String.prefix (as_prefix np) k = true →
  ir_status v ≠ all_pass.
Proof. apply replica_is_ambiguous. Qed.

(** ** Concrete runs *)

Lemma plain_lists_work : lists_work plain_s3.
Proof. intros p s. by eexists _, _. Qed.

Definition example_meta (_ : bytes) : res parquet_meta :=
  Ok (ParquetMeta ((λ n, (n, "string")) <$> ["ts_utc"; "received_at"; "exchange"; "symbol"; "price"; "quantity"; "side"; "raw_json"]) 3).
Definition example_harness : harness_config := HarnessConfig None None ["tick.v1"] false.
Definition example_partition : string := "schema_version=tick.v1/tier=L2/date=2025-11-01/hour=1".
Definition example_world (nas : gmap string object) (fs : gmap string bytes) : world plain_s3 :=
  World (PlainS3 nas) None 0 fs [].

(** A faithful replica of one file. *)
Definition replica_world : world plain_s3 :=
  example_world {[ example_partition +:+ "/a.parquet" := Object "rows" (Some "rows") ]}
    {[ "/data/" +:+ example_partition +:+ "/a.parquet" := "rows" ]}.

Lemma replicated_partition_never_passes_witness :
  ∃ v, (verify id example_meta example_harness ("/data/" +:+ example_partition) example_partition None None replica_world).2 = Ok v ∧
    ir_status v ≠ all_pass.
Proof.
  eexists. split; [vm_compute; reflexivity|].
  eapply (replicated_partition_never_passes (S := plain_s3) id example_meta example_harness ("/data/" +:+ example_partition)
    example_partition None None replica_world _ _ (example_partition +:+ "/a.parquet")).
  - exact plain_lists_work.
  - vm_compute. reflexivity.
  - vm_compute. discriminate.
  - eexists. vm_compute. reflexivity.
  - vm_compute. reflexivity.
Defined.

(** A partition of which nothing was uploaded can pass: the listing has
    no trailing slash, so the objects of [hour=10] count for [hour=1]; only
    files of a common name are compared, here none; and no object lies under
    [hour=1/], so there is no ambiguity. *)
Theorem all_pass_without_any_upload :
  let w := example_world {[ example_partition +:+ "0/b.parquet" := Object "other" (Some "other") ]}
             {[ "/data/" +:+ example_partition +:+ "/a.parquet" := "rows" ]} in
  ∃ v, (verify id example_meta example_harness ("/data/" +:+ example_partition) example_partition None None w).2 = Ok v ∧
    ir_status v = all_pass.
Proof. intros w. eexists. split; vm_compute; reflexivity. Qed.

(** The second call, the probe for ambiguity, is unreachable. *)
Definition probe_fails_world : world mem_s3 :=
  World (MemS3 {[ example_partition +:+ "/a.parquet" := Object "rows" (Some "rows") ]} [None; Some NetDown]) None 0
    {[ "/data/" +:+ example_partition +:+ "/a.parquet" := "rows" ]} [].

Lemma all_pass_means_identical_witness :
  file_identical id example_meta example_harness ("/data/" +:+ example_partition +:+ "/a.parquet")
    (example_partition +:+ "/a.parquet") probe_fails_world.
Proof.
  destruct (all_pass_means_identical (S := mem_s3) id example_meta example_harness ("/data/" +:+ example_partition) example_partition
    (Some ["/data/" +:+ example_partition +:+ "/a.parquet"]) (Some [example_partition +:+ "/a.parquet"])
    probe_fails_world _ _ (surjective_pairing _)) as [_ Hok].
  destruct (Hok _ ltac:(vm_compute; reflexivity) ltac:(vm_compute; reflexivity)) as (_&_&objs&->&_&Hid).
  apply Hid; [apply NoDup_singleton|apply NoDup_singleton|by left|by left|vm_compute; reflexivity].
Defined.
