(* ===== verification/Cutover.v ===== *)
(** * Cutover verification and local garbage collection
    ([nas_migration/cutover_verifier.py], [nas_migration/gc_runner.py])

    The check that nothing is missing on the NAS around the cutover, and the
    deletion of local L2 files behind three pieces of evidence.  Times are
    microseconds; [mtimes] gives the modification time of a file ([None]: the
    [stat] fails); an evidence file is missing, unreadable or parsed.
    [datetime.fromisoformat] is the parameter [fromisoformat]. *)
From S2P Require Import Prelude RetryQueue ObjectStore NasUploader NasKey Wal Invariants.
Open Scope string_scope.
Open Scope list_scope.
Open Scope Z_scope.

(** ** Trees of files *)

(** Paths compare by their components. *)
Fixpoint parts_leb (a b : list string) : bool :=
  match a, b with
  | [], _ => true
  | _ :: _, [] => false
  | x :: a', y :: b' => if String.eqb x y then parts_leb a' b' else String.leb x y
  end.
Definition path_leb (a b : string) : bool := parts_leb (split_slash a) (split_slash b).

(** [root.rglob("*.parquet")] *)
Definition is_parquet_under (root f : string) : bool :=
  String.prefix (root +:+ "/") f && endswith ".parquet" (basename f).
Definition rglob_parquet {A} (root : string) (fs : gmap string A) : list string :=
  List.filter (is_parquet_under root) (map_to_list fs).*1.

(** ** The cutover verifier *)

Inductive rpo_status := rpo_zero_verified | drift_detected | verify_inconclusive.
#[export] Instance rpo_status_eq_dec : EqDecision rpo_status.
Proof. solve_decision. Defined.
Record RpoVerifyResult := MkRpo {
  rpo_status_of : rpo_status; rpo_minus_1s_count : nat; rpo_plus_1s_count : nat;
  rpo_diff_segments : list string; rpo_invariant_result : option InvariantResult }.

Section verifier.
Context {S : Type} `{S3 S} (sha256_hex : bytes → string) (read_parquet_meta : bytes → res parquet_meta) (cfg : harness_config).
Context (mtimes : string → option Z) (fromisoformat : string → res Z) (local_l2_root nas_l2_prefix : string).
Local Notation proc := (proc (world S)).

(** [_list_local_segments] *)
Definition list_local_segments (mtime_max : Z) (fs : gmap string bytes) : list string :=
  sort_le path_leb
    (List.filter (λ f, match mtimes f with Some m => m <=? mtime_max | None => false end) (rglob_parquet local_l2_root fs)).

(** [_compute_nas_partition_for] *)
Definition compute_nas_partition_for (dir : string) : string :=
  if String.eqb dir local_l2_root then nas_l2_prefix +:+ "/."
  else if String.prefix (local_l2_root +:+ "/") dir
       then nas_l2_prefix +:+ "/" +:+ removeprefix (local_l2_root +:+ "/") dir
       else nas_l2_prefix.

(** The partition directories of the segments, sorted. *)
Definition partition_dirs (segments : list string) : list string := sort_le path_leb (remove_dups (parent <$> segments)).

(** One turn of the loop: first failure, last pass; an error is swallowed. *)
Definition verify_partition (acc : option InvariantResult * option InvariantResult) (dir : string) :
    proc (option InvariantResult * option InvariantResult) :=
  pcatch (pbind (verify sha256_hex read_parquet_meta cfg dir (compute_nas_partition_for dir) None None) (λ r,
            pret (if negb (bool_decide (ir_status r = all_pass)) && negb (bool_decide (is_Some acc.1))
                  then (Some r, acc.2) else (acc.1, Some r))))
         (λ _, pret acc).

Fixpoint verify_partitions (acc : option InvariantResult * option InvariantResult) (dirs : list string) :
    proc (option InvariantResult * option InvariantResult) :=
  match dirs with
  | [] => pret acc
  | d :: dirs => pbind (verify_partition acc d) (λ acc, verify_partitions acc dirs)
  end.

(** [_verify_invariants_for_l2] *)
Definition verify_invariants_for_l2 (segments : list string) : proc (option InvariantResult) :=
  match segments with
  | [] => pret None
  | _ => pbind (verify_partitions (None, None) (partition_dirs segments)) (λ acc,
           pret (match acc.1 with Some r => Some r | None => acc.2 end))
  end.

(** [verify_rpo_zero] *)
Definition verify_rpo_zero (cutover_timestamp_iso : string) : proc RpoVerifyResult := λ w,
  match fromisoformat cutover_timestamp_iso with
  | Raise _ => (w, Ok (MkRpo verify_inconclusive 0 0 [] None))
  | Ok t =>
      let minus_1s := list_local_segments (t - 1000000) (w_fs w) in
      let plus_1s := list_local_segments (t + 1000000) (w_fs w) in
      match list_objects nas_l2_prefix w with
      | (w1, Raise _) => (w1, Ok (MkRpo verify_inconclusive 0 0 [] None))
      | (w1, Ok nas_objects) =>
          let diff := sort_le String.leb
            (List.filter (λ n, negb (bool_decide (n ∈ basename <$> nas_objects))) (remove_dups (basename <$> minus_1s))) in
          pbind (verify_invariants_for_l2 plus_1s) (λ inv,
            let inv_status := match inv with Some r => ir_status r | None => all_pass end in
            let status := if bool_decide (inv_status = all_pass) && bool_decide (diff = [])
                          then rpo_zero_verified else drift_detected in
            pret (MkRpo status (length minus_1s) (length nas_objects) diff inv)) w1
      end
  end.
End verifier.

(** ** The garbage collector *)

Inductive evidence (A : Type) := NoFile | BadFile | Evidence (a : A).
Arguments NoFile {A}. Arguments BadFile {A}. Arguments Evidence {A} a.

(** [recovery_status] of a row of the deletion log. *)
Inductive recovery_status := log_pending | confirmed_deleted | recovery_failed | expired.
#[export] Instance recovery_status_eq_dec : EqDecision recovery_status.
Proof. solve_decision. Defined.
Record log_row := LogRow { l_sha256 : string; l_size_bytes : Z; l_recovery_status : recovery_status }.

Record gc_world := GcWorld { g_fs : gmap string bytes; g_log : gmap string log_row }.

Inductive gc_status := dry_run_complete | executed | blocked_grace_period | blocked_invariant_fail.
#[export] Instance gc_status_eq_dec : EqDecision gc_status.
Proof. solve_decision. Defined.
Record GcResult := MkGcResult {
  gc_status_of : gc_status; gc_tier : string; gc_deletion_targets : list string; gc_target_size_bytes : Z;
  gc_deleted_count : Z; gc_freed_bytes : Z; gc_grace_remaining_days : Z }.

(** [grace_remaining_days] and [invariant_pass_days_consecutive] may be absent. *)
Record gc_config := GcConfig {
  gc_root : string; grace_days_required : Z; invariant_pass_days_required : Z;
  cutover_evidence : evidence string; grace_evidence : evidence (option Z); invariant_evidence : evidence (option Z);
  disk_pressure : bool }.

Section gc_runner.
Context (sha256_hex : bytes → string) (mtimes : string → option Z) (unlink_fails : string → bool) (cfg : gc_config).

Definition check_cutover_rpo_verified : bool :=
  match cutover_evidence cfg with Evidence s => String.eqb s "rpo_zero_verified" | _ => false end.
Definition check_grace_period_expired : bool * Z :=
  match grace_evidence cfg with
  | Evidence r => let remaining := default (grace_days_required cfg) r in (remaining <=? 0, remaining)
  | _ => (false, grace_days_required cfg)
  end.
Definition check_invariant_all_pass_7d : bool :=
  match invariant_evidence cfg with Evidence d => invariant_pass_days_required cfg <=? default 0 d | _ => false end.

Definition safe_mtime (f : string) : Z := default 0 (mtimes f).
(** [_list_deletion_targets]: the tier is not used. *)
Definition list_deletion_targets (tier : string) (fs : gmap string bytes) : list string :=
  let targets := sort_le path_leb (rglob_parquet (gc_root cfg) fs) in
  if disk_pressure cfg then sorted_by safe_mtime targets else targets.

Definition safe_file_size (f : string) (fs : gmap string bytes) : Z :=
  match fs !! f with Some b => blen b | None => 0 end.
Definition compute_sha256 (f : string) (fs : gmap string bytes) : string :=
  match fs !! f with Some b => sha256_hex b | None => "" end.
Definition is_already_deleted (f : string) (log : gmap string log_row) : bool :=
  match log !! f with
  | Some r => match l_recovery_status r with confirmed_deleted | expired => true | _ => false end
  | None => false
  end.

(** One target of the deletion loop; the counters of the result. *)
Definition delete_target (acc : gc_world * (Z * Z)) (f : string) : gc_world * (Z * Z) :=
  let '(w, (count, freed)) := acc in
  let size := safe_file_size f (g_fs w) in
  if is_already_deleted f (g_log w) then acc else
  let row := LogRow (compute_sha256 f (g_fs w)) size in
  if unlink_fails f || negb (bool_decide (is_Some (g_fs w !! f)))
  then (GcWorld (g_fs w) (<[f := row recovery_failed]> (g_log w)), (count, freed))
  else (GcWorld (delete f (g_fs w)) (<[f := row confirmed_deleted]> (g_log w)), (count + 1, freed + size)).

(** [gc(tier=..., dry_run=...)] *)
Definition gc (tier : string) (dry_run : bool) (w : gc_world) : gc_world * GcResult :=
  let blocked st := (w, MkGcResult st tier [] 0 0 0 0) in
  if negb check_cutover_rpo_verified then blocked blocked_invariant_fail
  else if negb check_grace_period_expired.1
       then (w, MkGcResult blocked_grace_period tier [] 0 0 0 check_grace_period_expired.2)
  else if negb check_invariant_all_pass_7d then blocked blocked_invariant_fail
  else
    let targets := list_deletion_targets tier (g_fs w) in
    let target_size := foldr (λ f acc, safe_file_size f (g_fs w) + acc) 0 targets in
    if dry_run then (w, MkGcResult dry_run_complete tier targets target_size 0 0 0)
    else let '(w', (count, freed)) := foldl delete_target (w, (0, 0)) targets in
         (w', MkGcResult executed tier [] 0 count freed 0).
End gc_runner.

(** ** Lemmas on the verifier *)

Section verifier_lemmas.
Context {S : Type} `{S3Laws S} (sha256_hex : bytes → string) (read_parquet_meta : bytes → res parquet_meta) (cfg : harness_config).
Context (mtimes : string → option Z) (root prefix : string).
Local Notation verify := (verify sha256_hex read_parquet_meta cfg).
Local Notation verify_partition := (verify_partition sha256_hex read_parquet_meta cfg root prefix).
Local Notation verify_partitions := (verify_partitions sha256_hex read_parquet_meta cfg root prefix).
Local Notation nas_of := (compute_nas_partition_for root prefix).

(** A verification of the directory ran on this storage and passed, or raised. *)
Definition passed_or_raised (dir : string) (w : world S) : Prop :=
  ∃ w1 w2 r, same_storage w w1 ∧ verify dir (nas_of dir) None None w1 = (w2, r) ∧
    (∀ v, r = Ok v → ir_status v = all_pass).

Definition failed_first (acc : option InvariantResult * option InvariantResult) : Prop :=
  ∀ v, acc.1 = Some v → ir_status v ≠ all_pass.

Lemma verify_partition_inv acc d w w' r :
  verify_partition acc d w = (w', r) → failed_first acc →
  same_storage w w' ∧ ∃ acc', r = Ok acc' ∧ failed_first acc' ∧ (acc'.1 = None → acc.1 = None ∧ passed_or_raised d w).
Proof.
  unfold Cutover.verify_partition, pcatch, pbind. destruct (verify d (nas_of d) None None w) as [w1 [v|e]] eqn:Hv;
    pose proof (reads_only_verify _ _ _ _ _ _ _ _ _ _ Hv) as Hs; intros [= <- <-] Hff; (split; [done|]).
  - eexists. split; [done|].
    destruct acc as [[ff|] lp]; simpl; rewrite ?andb_false_r; [done|].
    destruct (bool_decide (ir_status v = all_pass)) eqn:Ha; simpl.
    + split; [done|]. intros _. split; [done|]. exists w, w1, (Ok v). split_and!; [done|done|].
      intros v' [= <-]. by apply bool_decide_eq_true in Ha.
    + apply bool_decide_eq_false in Ha. split; [|done]. by intros v' [= <-].
  - exists acc. split_and!; [done|done|]. intros Hn. split; [done|]. exists w, w1, (Raise e). by split_and!.
Qed.

Lemma verify_partitions_inv acc dirs w w' r :
  verify_partitions acc dirs w = (w', r) → failed_first acc →
  same_storage w w' ∧ ∃ acc', r = Ok acc' ∧ failed_first acc' ∧
    (acc'.1 = None → acc.1 = None ∧ ∀ d, d ∈ dirs → passed_or_raised d w).
Proof.
  revert acc w. induction dirs as [|d dirs IH]; intros acc w; simpl.
  - intros [= <- <-] Hff. split; [done|]. exists acc. split_and!; [done|done|]. intros ?. split; [done|]. intros d []%elem_of_nil.
  - unfold pbind. destruct (verify_partition acc d w) as [w1 r1] eqn:Hp. intros Hps Hff.
    apply verify_partition_inv in Hp as (Hs1&acc1&->&Hff1&Hn1); [|done].
    apply IH in Hps as (Hs2&acc2&->&Hff2&Hn2); [|done].
    split; [by eapply same_storage_trans|]. exists acc2. split_and!; [done|done|]. intros Hn.
    destruct (Hn2 Hn) as [Ha Hd]. destruct (Hn1 Ha) as [Ha0 Hd0]. split; [done|].
    intros d' [->|Hin]%elem_of_cons; [done|]. destruct (Hd d' Hin) as (w2&w3&x&?&?&?).
    exists w2, w3, x. split_and!; [by eapply same_storage_trans|done..].
Qed.

Lemma partition_dirs_spec segments f : f ∈ segments → parent f ∈ partition_dirs segments.
Proof.
  intros Hf. unfold partition_dirs. rewrite sort_le_perm, elem_of_remove_dups. apply list_elem_of_fmap. eauto.
Qed.

Lemma verify_invariants_inv segments w w' r :
  verify_invariants_for_l2 sha256_hex read_parquet_meta cfg root prefix segments w = (w', r) →
  same_storage w w' ∧ ∃ inv, r = Ok inv ∧
  (match inv with Some v => ir_status v | None => all_pass end = all_pass →
   ∀ f, f ∈ segments → passed_or_raised (parent f) w).
Proof.
  unfold verify_invariants_for_l2. destruct segments as [|s segments].
  { intros [= <- <-]. split; [done|]. exists None. split; [done|]. intros _ f []%elem_of_nil. }
  unfold pbind. destruct (verify_partitions _ _ w) as [w1 r1] eqn:Hp.
  apply verify_partitions_inv in Hp as (Hs&[ff lp]&->&Hff&Hn); [|by intros v]. intros [= <- <-]. split; [done|].
  eexists. split; [done|]. simpl in *. destruct ff as [v|]; [intros Ha; by destruct (Hff v)|].
  intros _ f Hf. destruct (Hn eq_refl) as [_ Hd]. by apply Hd, partition_dirs_spec.
Qed.

Lemma verify_rpo_zero_inv fromisoformat iso w w' r :
  verify_rpo_zero sha256_hex read_parquet_meta cfg mtimes fromisoformat root prefix iso w = (w', r) →
  same_storage w w' ∧ ∃ v, r = Ok v ∧
  (rpo_status_of v = rpo_zero_verified → ∃ t, fromisoformat iso = Ok t ∧
    (∀ f, f ∈ list_local_segments mtimes root (t - 1000000) (w_fs w) →
       ∃ k, is_Some (objects w !! k) ∧ String.prefix prefix k = true ∧ basename k = basename f) ∧
    (∀ f, f ∈ list_local_segments mtimes root (t + 1000000) (w_fs w) → passed_or_raised (parent f) w)).
Proof.
  unfold verify_rpo_zero. destruct (fromisoformat iso) as [t|e]; [|by intros [= <- <-]; split; [|eexists]].
  destruct (list_objects prefix w) as [w1 [keys|e]] eqn:Hl.
  2:{ intros [= <- <-]. split; [|by eexists]. revert Hl. apply reads_only_pbind; [apply reads_only_list|intros; apply reads_only_pret]. }
  assert (same_storage w w1) as Hs1.
  { revert Hl. apply reads_only_pbind; [apply reads_only_list|intros; apply reads_only_pret]. }
  unfold pbind, pret. destruct (verify_invariants_for_l2 _ _ _ _ _ _ w1) as [w2 r2] eqn:Hv.
  apply verify_invariants_inv in Hv as (Hs2&inv&->&Hinv). intros [= <- <-]. split; [by eapply same_storage_trans|].
  eexists. split; [done|]. simpl. destruct (bool_decide (_ = all_pass)) eqn:Ha; [|done].
  destruct (bool_decide (_ = [])) eqn:Hd; [|done]. intros _. apply bool_decide_eq_true in Ha, Hd.
  exists t. split_and!; [done| |].
  - intros f Hf. destruct (decide (basename f ∈ basename <$> keys)) as [Hin|Hnin].
    + apply list_elem_of_fmap in Hin as (k&Hk&Hkeys). exists k. unfold list_objects, pbind, pret in Hl.
      destruct (call_s3 _ w) as [w3 [ks|e]] eqn:Hc; [|done]. injection Hl as <- <-.
      apply call_s3_inv in Hc as (Hc&_). apply s3_list_ok in Hc as [_ Hok]. rewrite sort_le_perm in Hkeys.
      apply Hok in Hkeys as [? ?]. by split_and!.
    + exfalso. apply (not_elem_of_nil (basename f)). rewrite <- Hd, sort_le_perm.
      apply list_elem_of_In, List.filter_In. rewrite <- list_elem_of_In, elem_of_remove_dups. split.
      * apply list_elem_of_fmap. eauto.
      * by rewrite bool_decide_false.
  - intros f Hf. destruct (Hinv Ha f Hf) as (w3&w4&x&Hs3&?&?). exists w3, w4, x. split_and!; [|done|done].
    by eapply same_storage_trans.
Qed.
End verifier_lemmas.

Lemma by_basename_some files n :
  n ∈ basename <$> files → ∃ f, by_basename files !! n = Some f ∧ f ∈ files.
Proof.
  unfold by_basename. induction files as [|g files IH] using rev_ind; [by intros ?%elem_of_nil|].
  rewrite fmap_app, foldl_app. simpl. intros Hin. destruct (decide (basename g = n)) as [<-|Hne].
  - exists g. rewrite lookup_insert_eq. split; [done|]. apply elem_of_app. right. by left.
  - apply elem_of_app in Hin as [Hin| ->%list_elem_of_singleton]; [|done].
    destruct (IH Hin) as (f&Hf&?). exists f. rewrite lookup_insert_ne by done. split; [done|]. apply elem_of_app. by left.
Qed.

Section working_store.
Context {S : Type} `{S3Laws S} (sha256_hex : bytes → string) (read_parquet_meta : bytes → res parquet_meta) (cfg : harness_config).
Context (Hwork : lists_work S).

Lemma list_works p (w : world S) : ∃ w' keys, call_s3 (s3_list p) w = (w', Ok keys).
Proof. unfold call_s3. destruct (Hwork p (w_s3 w)) as (s'&keys&->). by eexists _, _. Qed.

Lemma check_common_total files objs (w : world S) :
  (∀ f, f ∈ files → is_Some (w_fs w !! f)) →
  ∃ w' checks, check_common sha256_hex read_parquet_meta cfg files objs w = (w', Ok checks).
Proof.
  unfold check_common. intros Hfs.
  assert (∀ n, n ∈ common_basenames files objs → n ∈ basename <$> files) as Hall.
  { intros n. unfold common_basenames. rewrite sort_le_perm, list_elem_of_In, List.filter_In, <- list_elem_of_In, elem_of_remove_dups. tauto. }
  revert w Hfs Hall. induction (common_basenames files objs) as [|n ns IH]; intros w Hfs Hall; [by eexists _, _|].
  simpl. unfold pbind at 1, pbind at 1.
  destruct (check_file _ _ _ _ _ w) as [w1 [c|e]] eqn:Hc.
  - simpl. pose proof (check_file_inv _ _ _ _ _ _ _ _ Hc) as [(_&_&Hf) _]. unfold pbind at 1.
    destruct (IH w1) as (w2&cs&->); [by rewrite Hf|intros m Hm; apply Hall; by right|]. by eexists _, _.
  - exfalso. destruct (by_basename_some files n ltac:(apply Hall; by left)) as (f&Hf&Hin).
    rewrite (lookup_total_correct _ _ _ Hf) in Hc. unfold check_file in Hc.
    destruct (download _ w) as [w2 [b|]] eqn:Hd; [|done]. apply reads_only_download in Hd as (_&_&Hfs2).
    destruct (Hfs f Hin) as [data Hdata]. rewrite Hfs2, Hdata in Hc. by repeat case_match.
Qed.

(** While listings work the verification of a partition does not raise. *)
Lemma verify_total lp np (w : world S) :
  ∃ w' v, verify sha256_hex read_parquet_meta cfg lp np None None w = (w', Ok v).
Proof.
  unfold verify. set (np' := if partition_normalization cfg then _ else _).
  unfold pbind at 1, list_objects, pbind at 1. destruct (list_works np' w) as (w1&keys&Hl). rewrite Hl. simpl.
  unfold pbind at 1. pose proof (reads_only_list _ _ _ _ Hl) as (_&_&Hf).
  edestruct (check_common_total (glob_parquet lp (w_fs w)) (sort_le String.leb keys) w1) as (w2&checks&->).
  { rewrite Hf. intros f. unfold glob_parquet. rewrite sort_le_perm, list_elem_of_In, List.filter_In, <- list_elem_of_In.
    intros [([f' b]&->&Hin)%list_elem_of_fmap _]. exists b. by apply elem_of_map_to_list. }
  unfold pbind, check_ambiguity. destruct (bool_decide _); [by eexists _, _|]. unfold pbind.
  destruct (check_nas_partition_exists np' w2) as [w3 rb] eqn:He.
  apply check_nas_partition_exists_inv in He as (_&b&->&_). by eexists _, _.
Qed.

Lemma passed_or_raised_no_replica root prefix (w : world S) f k :
  endswith ".parquet" (basename f) = true → is_Some (w_fs w !! f) →
  is_Some (objects w !! k) → String.prefix (as_prefix (compute_nas_partition_for root prefix (parent f))) k = true →
  ¬ passed_or_raised sha256_hex read_parquet_meta cfg root prefix (parent f) w.
Proof.
  intros Hp [data Hdata] Hk Hpre (w1&w2&r&(Ho&_&Hf)&Hv&Hpass).
  destruct (verify_total (parent f) (compute_nas_partition_for root prefix (parent f)) w1) as (w3&v&Hv2).
  rewrite Hv in Hv2. injection Hv2 as <- ->. specialize (Hpass v eq_refl). revert Hpass.
  eapply (replica_is_ambiguous _ _ _ _ _ _ _ _ _ _ k Hwork Hv); [|by rewrite Ho|done].
  rewrite Hf. intros Hnil. apply (not_elem_of_nil f). rewrite <- Hnil. unfold glob_parquet.
  rewrite sort_le_perm, list_elem_of_In, List.filter_In, <- list_elem_of_In. rewrite String.eqb_refl, Hp.
  split; [|done]. apply list_elem_of_fmap. exists (f, data). split; [done|]. by apply elem_of_map_to_list.
Qed.
End working_store.

(** What a verified cutover means.  The verifier always answers and only
    reads.  If it answers [rpo_zero_verified], the timestamp parsed, every
    local file of one second before the cutover has an object of its name
    under the NAS prefix, and the verification of every partition of a local
    file passed or raised. *)
Theorem rpo_verified_means_present {S : Type} `{S3Laws S} (sha256_hex : bytes → string)
    (read_parquet_meta : bytes → res parquet_meta) (cfg : harness_config) (mtimes : string → option Z)
    (fromisoformat : string → res Z) (root prefix iso : string) (w w' : world S) (r : res RpoVerifyResult) :
  verify_rpo_zero sha256_hex read_parquet_meta cfg mtimes fromisoformat root prefix iso w = (w', r) →
  same_storage w w' ∧ ∃ v, r = Ok v ∧
  (rpo_status_of v = rpo_zero_verified → ∃ t, fromisoformat iso = Ok t ∧
    (∀ f, f ∈ list_local_segments mtimes root (t - 1000000) (w_fs w) →
       ∃ k, is_Some (objects w !! k) ∧ String.prefix prefix k = true ∧ basename k = basename f) ∧
    (∀ f, f ∈ list_local_segments mtimes root (t + 1000000) (w_fs w) →
       passed_or_raised sha256_hex read_parquet_meta cfg root prefix (parent f) w)).
Proof. apply verify_rpo_zero_inv. Qed.

(** A replicated cutover is never verified: while listings work, one
    local file whose partition has an object on the NAS keeps the answer from
    being [rpo_zero_verified], since the harness calls the replica ambiguous. *)
Theorem replicated_cutover_never_verified {S : Type} `{S3Laws S} (sha256_hex : bytes → string)
    (read_parquet_meta : bytes → res parquet_meta) (cfg : harness_config) (mtimes : string → option Z)
    (fromisoformat : string → res Z) (root prefix iso : string) (w w' : world S) (v : RpoVerifyResult) (t : Z) (f k : string) :
  lists_work S →
  verify_rpo_zero sha256_hex read_parquet_meta cfg mtimes fromisoformat root prefix iso w = (w', Ok v) →
  fromisoformat iso = Ok t → f ∈ list_local_segments mtimes root (t + 1000000) (w_fs w) →
  is_Some (objects w !! k) → String.prefix (as_prefix (compute_nas_partition_for root prefix (parent f))) k = true →
  rpo_status_of v ≠ rpo_zero_verified.
Proof.
  intros Hwork Hv Ht Hf Hk Hp Hst. apply verify_rpo_zero_inv in Hv as (_&v'&[= <-]&Himp).
  destruct (Himp Hst) as (t'&Ht'&_&Hpass). rewrite Ht in Ht'. injection Ht' as <-.
  pose proof Hf as Hin. unfold list_local_segments in Hin.
  rewrite sort_le_perm, list_elem_of_In, List.filter_In, <- list_elem_of_In in Hin. destruct Hin as [Hin _].
  unfold rglob_parquet in Hin. rewrite list_elem_of_In, List.filter_In, <- list_elem_of_In in Hin. destruct Hin as [Hin Hpq].
  apply list_elem_of_fmap in Hin as ([f' b]&->&Hin). apply elem_of_map_to_list in Hin. simpl in *.
  apply andb_true_iff in Hpq as [_ Hpq]. by eapply passed_or_raised_no_replica; eauto.
Qed.

(** ** Lemmas on the collector *)

Section gc_lemmas.
Context (sha256_hex : bytes → string) (unlink_fails : string → bool).
Local Notation delete_target := (delete_target sha256_hex unlink_fails).

(** The targets a pass deletes, and the row it leaves for a target. *)
Definition deletable (w : gc_world) (f : string) : bool :=
  negb (is_already_deleted f (g_log w)) && negb (unlink_fails f) && bool_decide (is_Some (g_fs w !! f)).
Definition row_after (w : gc_world) (f : string) : option log_row :=
  if is_already_deleted f (g_log w) then g_log w !! f
  else Some (LogRow (compute_sha256 sha256_hex f (g_fs w)) (safe_file_size f (g_fs w))
               (if deletable w f then confirmed_deleted else recovery_failed)).
Definition sizes (w : gc_world) (fs : list string) : Z := foldr (λ f acc, safe_file_size f (g_fs w) + acc) 0 fs.

Lemma delete_target_spec w c fr f :
  ∃ w' c' fr', delete_target (w, (c, fr)) f = (w', (c', fr')) ∧
    g_fs w' !! f = (if deletable w f then None else g_fs w !! f) ∧ g_log w' !! f = row_after w f ∧
    (∀ k, k ≠ f → g_fs w' !! k = g_fs w !! k ∧ g_log w' !! k = g_log w !! k) ∧
    c' = c + (if deletable w f then 1 else 0) ∧ fr' = fr + (if deletable w f then safe_file_size f (g_fs w) else 0).
Proof.
  unfold Cutover.delete_target, deletable, row_after, deletable. destruct (is_already_deleted f (g_log w)); simpl.
  { exists w, c, fr. split_and!; try done; lia. }
  destruct (unlink_fails f); simpl; [|destruct (bool_decide (is_Some (g_fs w !! f))) eqn:Hd; simpl];
    eexists _, _, _; (split; [done|]); simpl; rewrite ?lookup_insert_eq, ?lookup_delete_eq; split_and!; try done; try lia;
    intros k Hk; by rewrite ?lookup_insert_ne, ?lookup_delete_ne by done.
Qed.

Lemma delete_targets_spec l w c fr :
  NoDup l →
  let '(w', (c', fr')) := foldl delete_target (w, (c, fr)) l in
  (∀ f, f ∈ l → g_fs w' !! f = (if deletable w f then None else g_fs w !! f) ∧ g_log w' !! f = row_after w f) ∧
  (∀ f, f ∉ l → g_fs w' !! f = g_fs w !! f ∧ g_log w' !! f = g_log w !! f) ∧
  c' = c + Z.of_nat (length (List.filter (deletable w) l)) ∧ fr' = fr + sizes w (List.filter (deletable w) l).
Proof.
  revert w c fr. induction l as [|f l IH]; intros w c fr Hnd; cbn [foldl].
  { split_and!; [by intros f ?%elem_of_nil|done|simpl; lia|simpl; lia]. }
  apply NoDup_cons in Hnd as [Hf Hnd].
  destruct (delete_target_spec w c fr f) as (w1&c1&fr1&->&Hfs&Hlog&Hother&->&->).
  specialize (IH w1 (c + (if deletable w f then 1 else 0)) (fr + (if deletable w f then safe_file_size f (g_fs w) else 0)) Hnd).
  destruct (foldl delete_target _ l) as [w' [c' fr']]. destruct IH as (Hin&Hout&->&->).
  assert (∀ k, k ≠ f → deletable w1 k = deletable w k ∧ row_after w1 k = row_after w k ∧
    safe_file_size k (g_fs w1) = safe_file_size k (g_fs w)) as Hsame.
  { intros k Hk. destruct (Hother k Hk) as [H1 H2].
    unfold row_after, deletable, is_already_deleted, compute_sha256, safe_file_size. by rewrite H1, H2. }
  assert (List.filter (deletable w1) l = List.filter (deletable w) l) as Hfilt.
  { clear -Hf Hsame. induction l as [|k l IH]; simpl; [done|]. apply not_elem_of_cons in Hf as [Hk Hf].
    destruct (Hsame k) as (->&_); [done|]. by rewrite IH. }
  assert (sizes w1 (List.filter (deletable w) l) = sizes w (List.filter (deletable w) l)) as Hsz.
  { clear -Hf Hsame. induction l as [|k l IH]; simpl; [done|]. apply not_elem_of_cons in Hf as [Hk Hf].
    destruct (deletable w k); [|by apply IH]. simpl. destruct (Hsame k) as (_&_&->); [done|]. by rewrite IH. }
  split_and!.
  - intros k [->|Hk]%elem_of_cons; [destruct (Hout f Hf) as [-> ->]; done|].
    assert (k ≠ f) as Hkf by (by intros ->). destruct (Hin k Hk) as [-> ->], (Hsame k Hkf) as (->&->&_), (Hother k Hkf) as [-> _]. done.
  - intros k [Hkf Hk]%not_elem_of_cons. destruct (Hout k Hk) as [-> ->]. by apply Hother.
  - rewrite Hfilt. simpl. destruct (deletable w f); simpl; lia.
  - rewrite Hfilt, Hsz. simpl. destruct (deletable w f); simpl; lia.
Qed.

Lemma rglob_NoDup {A} root (fs : gmap string A) : NoDup (rglob_parquet root fs).
Proof. unfold rglob_parquet. apply NoDup_ListNoDup, List.NoDup_filter, NoDup_ListNoDup, NoDup_fst_map_to_list. Qed.

Lemma list_deletion_targets_perm mtimes cfg tier fs :
  list_deletion_targets mtimes cfg tier fs ≡ₚ rglob_parquet (gc_root cfg) fs.
Proof.
  unfold list_deletion_targets. destruct (disk_pressure cfg); [rewrite sorted_by_perm|]; apply sort_le_perm.
Qed.
End gc_lemmas.

(** What a run does, in terms of the tests and the target list of the code. *)
Lemma gc_exact (sha256_hex : bytes → string) (mtimes : string → option Z)
    (unlink_fails : string → bool) (cfg : gc_config) (tier : string) (dry_run : bool) (w : gc_world) :
  let '(w', r) := gc sha256_hex mtimes unlink_fails cfg tier dry_run w in
  let targets := list_deletion_targets mtimes cfg tier (g_fs w) in
  (gc_status_of r ≠ executed → w' = w) ∧
  (gc_status_of r = executed ↔ dry_run = false ∧ cutover_evidence cfg = Evidence "rpo_zero_verified" ∧
    (check_grace_period_expired cfg).1 = true ∧ check_invariant_all_pass_7d cfg = true) ∧
  (gc_status_of r = executed →
    (∀ f, f ∈ targets → g_fs w' !! f = (if deletable unlink_fails w f then None else g_fs w !! f) ∧
                        g_log w' !! f = row_after sha256_hex unlink_fails w f) ∧
    (∀ f, f ∉ targets → g_fs w' !! f = g_fs w !! f ∧ g_log w' !! f = g_log w !! f) ∧
    gc_deleted_count r = Z.of_nat (length (List.filter (deletable unlink_fails w) targets)) ∧
    gc_freed_bytes r = sizes w (List.filter (deletable unlink_fails w) targets)).
Proof.
  unfold gc. destruct (check_cutover_rpo_verified cfg) eqn:Hc; simpl.
  2:{ split_and!; [done| |done]. split; [done|]. intros (_&He&_). unfold check_cutover_rpo_verified in Hc. by rewrite He in Hc. }
  assert (cutover_evidence cfg = Evidence "rpo_zero_verified") as He.
  { unfold check_cutover_rpo_verified in Hc. destruct (cutover_evidence cfg); try done. by apply String.eqb_eq in Hc as ->. }
  destruct (check_grace_period_expired cfg).1 eqn:Hg; simpl; [|split_and!; [done| |done]; naive_solver].
  destruct (check_invariant_all_pass_7d cfg) eqn:Hi; simpl; [|split_and!; [done| |done]; naive_solver].
  destruct dry_run; [split_and!; [done| |done]; naive_solver|].
  pose proof (delete_targets_spec sha256_hex unlink_fails (list_deletion_targets mtimes cfg tier (g_fs w)) w 0 0) as Hd.
  destruct (foldl _ _ _) as [w' [c fr]]. destruct Hd as (Hin&Hout&->&->).
  { rewrite list_deletion_targets_perm. apply rglob_NoDup. }
  split_and!; [done|naive_solver|]. simpl. intros _. split_and!; [done|done|lia|lia].
Qed.


(** [**/*.parquet] under a root, by the text of the path *)
Lemma last_slash t : no_slash t = true ∨ ∃ u v, t = u +:+ "/" +:+ v ∧ no_slash v = true.
Proof.
  induction t as [|a t IH]; [by left|]. simpl. destruct IH as [Ht|(u&v&->&Hv)]; [|right; by exists (String a u), v].
  destruct (Ascii.eqb_spec a slash) as [->|]; [right; by exists "", t|left; by rewrite Ht].
Qed.
Lemma split_slash_nonempty t : split_slash t ≠ [].
Proof. destruct t as [|a t]; simpl; [done|]. destruct (Ascii.eqb a slash); [done|]. by destruct (split_slash t). Qed.
Lemma split_slash_app u t : split_slash (u +:+ "/" +:+ t) = split_slash u ++ split_slash t.
Proof.
  induction u as [|a u IH]; [done|]. change (split_slash (String a (u +:+ "/" +:+ t)) = split_slash (String a u) ++ split_slash t).
  simpl in *. rewrite IH. destruct (Ascii.eqb a slash); [done|]. by destruct (split_slash u) eqn:E; [destruct (split_slash_nonempty u)|].
Qed.
Lemma basename_slash u t : basename (u +:+ "/" +:+ t) = basename t.
Proof.
  unfold basename. rewrite split_slash_app. pose proof (split_slash_nonempty t) as Hne. induction (split_slash u) as [|c l IH]; [done|].
  simpl. rewrite IH. by destruct l, (split_slash t).
Qed.
Lemma basename_plain c : no_slash c = true → basename c = c.
Proof. intros Hc. unfold basename. by rewrite split_slash_component. Qed.
Lemma parquet_under_iff root f : is_parquet_under root f = true ↔ ∃ rel, f = root +:+ "/" +:+ rel +:+ ".parquet".
Proof.
  unfold is_parquet_under. rewrite andb_true_iff, endswith_app_iff. split.
  - intros [[t ->]%prefix_split Hb]. rewrite string_app_assoc, basename_slash in *.
    destruct (last_slash t) as [Ht|(u&v&->&Hv)]; rewrite ?basename_slash, basename_plain in Hb by done; destruct Hb as [x ->]; [by exists x|].
    exists (u +:+ "/" +:+ x). by rewrite !string_app_assoc.
  - intros [rel ->]. rewrite <- string_app_assoc at 1. split; [apply prefix_app|]. rewrite basename_slash.
    destruct (last_slash rel) as [Hr|(u&v&->&Hv)].
    + exists rel. by rewrite basename_plain by by rewrite no_slash_app, Hr.
    + exists v. by rewrite !string_app_assoc, basename_slash, basename_plain by by rewrite no_slash_app, Hv.
Qed.
Lemma elem_rglob root (fs : gmap string bytes) f :
  f ∈ rglob_parquet root fs ↔ is_Some (fs !! f) ∧ is_parquet_under root f = true.
Proof.
  unfold rglob_parquet. rewrite list_elem_of_In, List.filter_In, <- list_elem_of_In, list_elem_of_fmap. split.
  - intros [([k b]&->&Hk%elem_of_map_to_list) Hp]. split; [by eexists|done].
  - intros [[b Hb] Hp]. split; [|done]. exists (f, b). split; [done|]. by apply elem_of_map_to_list.
Qed.

Lemma settled_iff f log : (∃ row, log !! f = Some row ∧ (l_recovery_status row = confirmed_deleted ∨ l_recovery_status row = expired)) ↔
  is_already_deleted f log = true.
Proof.
  unfold is_already_deleted. destruct (log !! f) as [row|]; [|split; [by intros (?&[=]&_)|done]].
  destruct (l_recovery_status row) eqn:E; (split; [intros (?&[= <-]&[?|?]); congruence|eauto]); done.
Qed.
Lemma grace_over_iff cfg : 0 < grace_days_required cfg →
  (check_grace_period_expired cfg).1 = true ↔ ∃ days, grace_evidence cfg = Evidence (Some days) ∧ days <= 0.
Proof.
  intros Hp. unfold check_grace_period_expired. destruct (grace_evidence cfg) as [| |[d|]]; simpl; [split; [done|by intros (?&[=]&_)]..| |].
  - rewrite Z.leb_le. split; [eauto|by intros (?&[= <-]&?)].
  - rewrite Z.leb_le. split; [lia|by intros (?&[=]&_)].
Qed.
Lemma passed_long_enough_iff cfg : 0 < invariant_pass_days_required cfg →
  check_invariant_all_pass_7d cfg = true ↔ ∃ days, invariant_evidence cfg = Evidence (Some days) ∧ invariant_pass_days_required cfg <= days.
Proof.
  intros Hp. unfold check_invariant_all_pass_7d. destruct (invariant_evidence cfg) as [| |[d|]]; simpl; [split; [done|by intros (?&[=]&_)]..| |].
  - rewrite Z.leb_le. split; [eauto|by intros (?&[= <-]&?)].
  - rewrite Z.leb_le. split; [lia|by intros (?&[=]&_)].
Qed.
Lemma not_executed sha256_hex mtimes unlink_fails cfg tier dry_run (w w' : gc_world) r :
  gc sha256_hex mtimes unlink_fails cfg tier dry_run w = (w', r) → gc_status_of r ≠ executed → gc_deleted_count r = 0 ∧ gc_freed_bytes r = 0.
Proof.
  unfold gc. destruct (negb (check_cutover_rpo_verified cfg)); [by intros [= <- <-]|].
  destruct (negb _); [by intros [= <- <-]|]. destruct (negb _); [by intros [= <- <-]|].
  destruct dry_run; [by intros [= <- <-]|]. destruct (foldl _ _ _) as [w1 [c fr]]. by intros [= <- <-].
Qed.
Lemma target_cases sha256_hex unlink_fails (w : gc_world) f b (parquet settled : Prop) :
  (settled ↔ is_already_deleted f (g_log w) = true) → parquet → g_fs w !! f = Some b →
  let row b st := Some (LogRow (sha256_hex b) (blen b) st) in
  let fs' := if deletable unlink_fails w f then None else g_fs w !! f in
  let log' := row_after sha256_hex unlink_fails w f in
  fs' = g_fs w !! f ∧ log' = g_log w !! f ∨
  parquet ∧ ¬ settled ∧ ∃ b, g_fs w !! f = Some b ∧
    (unlink_fails f = false ∧ fs' = None ∧ log' = row b confirmed_deleted ∨
     unlink_fails f = true ∧ fs' = Some b ∧ log' = row b recovery_failed).
Proof.
  intros Hs Hp Hb row fs' log'. unfold fs', log', row_after, deletable, row, compute_sha256, safe_file_size. rewrite Hb.
  destruct (is_already_deleted f (g_log w)); [by left|right]. split; [done|]. split; [by intros ?%Hs|]. exists b. split; [done|].
  destruct (unlink_fails f); [by right|by left].
Qed.


Definition gc_example : gc_world :=
  GcWorld {[ "/data/a.parquet" := "rows"; "/data/b.parquet" := "more"; "/data/c.parquet" := "!"; "/data/d.txt" := "-" ]}
    {[ "/data/b.parquet" := LogRow "more" 4 confirmed_deleted ]}.
Definition gc_evidence : gc_config :=
  GcConfig "/data" 7 7 (Evidence "rpo_zero_verified") (Evidence (Some 0)) (Evidence (Some 7)) false.
Definition gc_run : gc_world * GcResult := gc id (λ _, Some 0) (String.eqb "/data/c.parquet") gc_evidence "L2" false gc_example.

(** The tier of the call is not used: collecting L3 deletes an L2 file, and
    one that was written after the evidence. *)
Lemma gc_ignores_tier :
  let w := GcWorld {[ "/data/tier=L2/new.parquet" := "rows" ]} ∅ in
  let cfg := GcConfig "/data" 7 7 (Evidence "rpo_zero_verified") (Evidence (Some 0)) (Evidence (Some 7)) false in
  g_fs (gc id (λ _, Some 0) (λ _, false) cfg "L3" false w).1 = ∅.
Proof. vm_compute. reflexivity. Qed.

(** ** Concrete runs of the verifier *)

Definition example_file : string := "/data/" +:+ example_partition +:+ "/a.parquet".
Definition example_iso (_ : string) : res Z := Ok 10000000.

Lemma replicated_cutover_never_verified_witness :
  ∃ v, (verify_rpo_zero id example_meta example_harness (λ _, Some 0) example_iso "/data" "" "t" 
          (example_world {[ "/" +:+ example_partition +:+ "/a.parquet" := Object "rows" (Some "rows") ]} {[ example_file := "rows" ]})).2 = Ok v ∧
    rpo_status_of v ≠ rpo_zero_verified.
Proof.
  eexists. split; [vm_compute; reflexivity|].
  eapply (replicated_cutover_never_verified (S := plain_s3) id example_meta example_harness (λ _, Some 0) example_iso "/data" "" "t"
    (example_world {[ "/" +:+ example_partition +:+ "/a.parquet" := Object "rows" (Some "rows") ]} {[ example_file := "rows" ]})
    _ _ 10000000 example_file ("/" +:+ example_partition +:+ "/a.parquet")).
  - exact plain_lists_work.
  - vm_compute. reflexivity.
  - reflexivity.
  - vm_compute. by left.
  - eexists. vm_compute. reflexivity.
  - vm_compute. reflexivity.
Defined.

(** A cutover whose partitions cannot be checked counts as verified: the
    file is on the NAS by name with other content, the listing of its
    partition is unreachable, the error is swallowed and the answer is
    [rpo_zero_verified], not [verify_inconclusive]. *)
Theorem unchecked_cutover_is_verified :
  let w := World (MemS3 {[ "/" +:+ example_partition +:+ "/a.parquet" := Object "other" (Some "other") ]} [None; Some NetDown])
             None 0 {[ example_file := "rows" ]} [] in
  ∃ v, (verify_rpo_zero id example_meta example_harness (λ _, Some 0) example_iso "/data" "" "t" w).2 = Ok v ∧
    rpo_status_of v = rpo_zero_verified ∧ rpo_invariant_result v = None.
Proof. intros w. eexists. split_and!; vm_compute; reflexivity. Qed.

Lemma rpo_verified_means_present_witness :
  let w := World (MemS3 {[ "/" +:+ example_partition +:+ "/a.parquet" := Object "other" (Some "other") ]} [None; Some NetDown])
             None 0 {[ example_file := "rows" ]} [] in
  ∃ k, is_Some (objects w !! k) ∧ basename k = "a.parquet".
Proof.
  intros w.
  destruct (rpo_verified_means_present (S := mem_s3) id example_meta example_harness (λ _, Some 0) example_iso "/data" "" "t" w
    _ _ (surjective_pairing _)) as (_&v&Hv&Himp).
  assert (rpo_status_of v = rpo_zero_verified) as Hst by (vm_compute in Hv; injection Hv as <-; vm_compute; reflexivity).
  destruct (Himp Hst) as (t&Ht&Hin&_). injection Ht as <-.
  destruct (Hin example_file) as (k&Hk&_&Hb); [vm_compute; by left|].
  exists k. split; [exact Hk|]. rewrite Hb. vm_compute. reflexivity.
Defined.
