(* ===== verification/Backfill.v ===== *)
(** * Backfill of the cold tier ([nas_migration/backfill_orchestrator.py])

    Partition discovery, chunk plans, the persistent checkpoint, the work on
    one chunk and a whole run.  The checkpoint table maps a chunk id to its
    row; the answers of the SOP runner ([is_manual_gate]) are read from a list;
    the pool is a sequence of chunk runs in some order ([schedule]), since
    chunks of one run have distinct rows.  Evidence lines, metrics, durations
    and the timestamps of rows are not modelled. *)
From S2P Require Import Prelude RetryQueue ObjectStore NasUploader NasKey Wal Invariants Cutover.
Open Scope string_scope.
Open Scope list_scope.
Open Scope Z_scope.

(** ** Dates ([_parse_date]) *)

Definition is_space (a : Ascii.ascii) : bool :=
  let n := Ascii.nat_of_ascii a in (n =? 32)%nat || ((9 <=? n)%nat && (n <=? 13)%nat).
Fixpoint lstrip_space (s : string) : string :=
  match s with String a s' => if is_space a then lstrip_space s' else s | EmptyString => "" end.
Definition strip_space (s : string) : string := string_rev (lstrip_space (string_rev (lstrip_space s))).

Definition digit (a : Ascii.ascii) : option Z :=
  let n := Ascii.nat_of_ascii a in
  if (48 <=? n)%nat && (n <=? 57)%nat then Some (Z.of_nat n - 48) else None.

(** Digits with single underscores between them. *)
Fixpoint digits (s : string) (acc : Z) (after_digit : bool) : option Z :=
  match s with
  | EmptyString => if after_digit then Some acc else None
  | String a s' =>
      match digit a with
      | Some d => digits s' (10 * acc + d) true
      | None => if Ascii.eqb a (Ascii.ascii_of_nat 95) && after_digit then digits s' acc false else None
      end
  end.

(** [int(s)] *)
Definition py_int (s : string) : res Z :=
  let s := strip_space s in
  let '(neg, body) := match s with
                      | String a s' => if Ascii.eqb a (Ascii.ascii_of_nat 45) then (true, s')
                                       else if Ascii.eqb a (Ascii.ascii_of_nat 43) then (false, s') else (false, s)
                      | EmptyString => (false, s)
                      end in
  match digits body 0 false with Some n => Ok (if neg then - n else n) | None => Raise ValueError end.

Definition leap (y : Z) : bool := (y mod 4 =? 0) && (negb (y mod 100 =? 0) || (y mod 400 =? 0)).
Definition days_in_month (y m : Z) : Z :=
  if m =? 2 then (if leap y then 29 else 28) else if bool_decide (m ∈ [4; 6; 9; 11]) then 30 else 31.

(** [datetime.date(year, month, day)]; numbers beyond a C int are not modelled. *)
Definition make_date (y m d : Z) : res (Z * Z * Z) :=
  if (1 <=? y) && (y <=? 9999) && (1 <=? m) && (m <=? 12) && (1 <=? d) && (d <=? days_in_month y m)
  then Ok (y, m, d) else Raise ValueError.

(** [s.split("-")] *)
Fixpoint split_dashes (s : string) : list string :=
  match s with
  | EmptyString => [""]
  | String a s' =>
      let r := split_dashes s' in
      if Ascii.eqb a dash then "" :: r
      else match r with [] => [String a ""] | c :: r => String a c :: r end
  end.

Definition parse_date (s : string) : res (Z * Z * Z) :=
  match split_dashes s with
  | [y; m; d] => rbind (py_int y) (λ y, rbind (py_int m) (λ m, rbind (py_int d) (λ d, make_date y m d)))
  | _ => Raise ValueError
  end.

Definition date_ltb (a b : Z * Z * Z) : bool :=
  let '(y, m, d) := a in let '(y', m', d') := b in
  (y <? y') || ((y =? y') && ((m <? m') || ((m =? m') && (d <? d')))).

(** ** Chunks *)

(** [_extract_hive_value] *)
Definition extract_hive_value (parts : list string) (key : string) : option string :=
  let prefix := key +:+ "=" in
  removeprefix prefix <$> List.find (String.prefix prefix) parts.

Record ChunkSpec := Chunk {
  c_symbol : string; c_date : string; c_source_path : string; c_nas_object_key : string;
  c_nas_partition_prefix : string; c_is_legacy_node : bool; c_chunk_id : string }.

Inductive chunk_status := chunk_verified | chunk_skipped_resumed | chunk_quarantined | chunk_blocked | chunk_sop_skipped.
#[export] Instance chunk_status_eq_dec : EqDecision chunk_status.
Proof. solve_decision. Defined.
Record ChunkResult := MkChunkResult {
  cr_chunk_id : string; cr_status : chunk_status; cr_put_result : option PutResult;
  cr_invariant_result : option InvariantResult; cr_retry_count : nat }.

(** Rows of the checkpoint. *)
Inductive ck_status := ck_pending | ck_in_flight | ck_verified | ck_quarantined | ck_blocked.
#[export] Instance ck_status_eq_dec : EqDecision ck_status.
Proof. solve_decision. Defined.
Record ck_row := CkRow {
  k_status : ck_status; k_sha256 : option string; k_fail_invariant : option invariant_status; k_retry_count : nat }.
Notation checkpoint := (gmap string ck_row).

Definition upsert_pending (chunks : list ChunkSpec) (ck : checkpoint) : checkpoint :=
  foldl (λ ck c, match ck !! c_chunk_id c with
                 | Some _ => ck
                 | None => <[c_chunk_id c := CkRow ck_pending None None 0]> ck
                 end) ck chunks.
Definition get_status (ck : checkpoint) (chunk_id : string) : ck_status :=
  match ck !! chunk_id with Some r => k_status r | None => ck_pending end.
(** An UPDATE: a chunk without a row stays without one. *)
Definition update_status (chunk_id : string) (row : ck_row) (ck : checkpoint) : checkpoint :=
  match ck !! chunk_id with Some _ => <[chunk_id := row]> ck | None => ck end.
(** [_count_statuses(list_all())] *)
Definition count_status (st : ck_status) (ck : checkpoint) : nat :=
  length (List.filter (λ r, bool_decide (k_status r.2 = st)) (map_to_list ck)).

Inductive backfill_status := all_chunks_verified | chunk_invariant_failed | backfill_chunk_blocked | checkpoint_resumable.
#[export] Instance backfill_status_eq_dec : EqDecision backfill_status.
Proof. solve_decision. Defined.
Record BackfillResult := MkBackfill {
  bf_status : backfill_status; bf_total_chunks : nat; bf_verified_chunks : nat; bf_quarantined_chunks : nat;
  bf_blocked_chunks : nat; bf_resumable_chunks : nat }.

Record bf_world (S : Type) := BfWorld { b_world : world S; b_ck : checkpoint; b_gates : list bool }.
Arguments BfWorld {S}. Arguments b_world {S}. Arguments b_ck {S}. Arguments b_gates {S}.

(** The configuration of an orchestrator. *)
Record bf_config := BfConfig {
  bf_local_root : string; bf_nas_partition_root : string; bf_tier : string; bf_channel : string;
  bf_verify_retry_budget : nat }.

Section orchestrator.
Context {S : Type} `{S3 S}.
Context (rcfg : rq_config) (new_id : nat → string) (enqueue_clock : nat → Z * Z)
        (enqueue_faults : nat → option exn * option exn) (has_metrics : bool) (sha256_hex : bytes → string).
Context (read_parquet_meta : bytes → res parquet_meta) (hcfg : harness_config) (cfg : bf_config).
Local Notation proc := (proc (bf_world S)).
Local Notation put := (put rcfg new_id enqueue_clock enqueue_faults has_metrics sha256_hex).
Local Notation verify := (verify sha256_hex read_parquet_meta hcfg).

Definition on_world {A} (m : world S → world S * res A) : proc A := λ b,
  let '(w, r) := m (b_world b) in (BfWorld w (b_ck b) (b_gates b), r).
Definition on_ck (f : checkpoint → checkpoint) : proc unit := λ b,
  (BfWorld (b_world b) (f (b_ck b)) (b_gates b), Ok tt).
(** [self._sop_runner.is_manual_gate()] *)
Definition is_manual_gate : proc bool := λ b,
  (BfWorld (b_world b) (b_ck b) (tail (b_gates b)), Ok (default false (head (b_gates b)))).

(** [_discover_partitions] *)
Definition in_tier_dir (f : string) : bool :=
  let root := bf_local_root cfg +:+ "/market/" +:+ bf_channel cfg +:+ "/" in
  String.prefix root f &&
  match split_slash (removeprefix root f) with
  | sv :: t :: _ :: _ => String.prefix "schema_version=" sv && String.eqb t ("tier=" +:+ bf_tier cfg)
  | _ => false
  end && endswith ".parquet" (basename f).
Definition is_closed_day (today : Z * Z * Z) (f : string) : bool :=
  match extract_hive_value (split_slash f) "date" with
  | Some d => match parse_date d with Ok dt => date_ltb dt today | Raise _ => false end
  | None => false
  end.
Definition discover_partitions (today : Z * Z * Z) (fs : gmap string bytes) : list string :=
  List.filter (is_closed_day today) (sort_le path_leb (List.filter in_tier_dir (map_to_list fs).*1)).

(** [_build_chunk_spec] *)
Definition build_chunk_spec (source_path : string) : ChunkSpec :=
  let parts := split_slash source_path in
  let symbol := default "UNKNOWN" (extract_hive_value parts "symbol") in
  let date := default "unknown" (extract_hive_value parts "date") in
  let node := extract_hive_value parts "node" in
  let exchange := match extract_hive_value parts "exchange" with Some "" | None => "UNKNOWN" | Some e => e end in
  let hour_segment := match extract_hive_value parts "hour" with Some h => "/hour=" +:+ h | None => "" end in
  let prefix := bf_nas_partition_root cfg +:+ "/exchange=" +:+ exchange +:+ "/symbol=" +:+ symbol +:+
                "/date=" +:+ date +:+ hour_segment +:+ "/node=" +:+ default "DEFAULT" node in
  Chunk symbol date source_path (prefix +:+ "/" +:+ basename source_path) prefix
    (negb (bool_decide (is_Some node)))
    (String.substring 0 16 (sha256_hex (symbol +:+ "|" +:+ date +:+ "|" +:+ source_path))).

Definition chunk_result (c : ChunkSpec) (st : chunk_status) (p : option PutResult) (v : option InvariantResult) (n : nat) : ChunkResult :=
  MkChunkResult (c_chunk_id c) st p v n.

(** The retry loop: [n] attempts left, [done] made. *)
Fixpoint retry_verify (n done : nat) (c : ChunkSpec) (sha : string) (p : PutResult) (last : InvariantResult) : proc ChunkResult :=
  match n with
  | O =>
      pbind (on_ck (update_status (c_chunk_id c)
               (CkRow ck_quarantined None (Some (ir_status last)) (bf_verify_retry_budget cfg)))) (λ _,
      pret (chunk_result c chunk_quarantined (Some p) (Some last) (bf_verify_retry_budget cfg)))
  | Datatypes.S n =>
      pbind (on_world (verify (parent (c_source_path c)) (c_nas_partition_prefix c) None None)) (λ v,
        if bool_decide (ir_status v = all_pass) then
          pbind (on_ck (update_status (c_chunk_id c) (CkRow ck_verified (Some sha) None 0))) (λ _,
          pret (chunk_result c chunk_verified (Some p) (Some v) (Datatypes.S done)))
        else retry_verify n (Datatypes.S done) c sha p v)
  end.

(** The part of [_process_chunk] after a completed PUT. *)
Definition verify_chunk (c : ChunkSpec) (sha : string) (p : PutResult) : proc ChunkResult :=
  pbind (on_world (verify (parent (c_source_path c)) (c_nas_partition_prefix c)
           (Some [c_source_path c]) (Some [c_nas_object_key c]))) (λ v,
    if bool_decide (ir_status v = all_pass) then
      pbind (on_ck (update_status (c_chunk_id c) (CkRow ck_verified (Some sha) None 0))) (λ _,
      pret (chunk_result c chunk_verified (Some p) (Some v) 0))
    else retry_verify (bf_verify_retry_budget cfg) 0 c sha p v).

(** The read and the PUT of a chunk; the digest goes with the answer. *)
Definition put_chunk (c : ChunkSpec) : proc (string * PutResult) := λ b,
  match w_fs (b_world b) !! c_source_path c with
  | None => (b, Raise FileNotFoundError)
  | Some data =>
      let sha := sha256_hex data in
      pbind (on_world (put (c_nas_object_key c) data (Some sha) false)) (λ p, pret (sha, p)) b
  end.

(** [_process_chunk] *)
Definition process_chunk (c : ChunkSpec) : proc ChunkResult := λ b,
  if bool_decide (get_status (b_ck b) (c_chunk_id c) = ck_verified)
  then (b, Ok (chunk_result c chunk_skipped_resumed None None 0)) else
  pbind is_manual_gate (λ gate,
    if gate then pret (chunk_result c chunk_sop_skipped None None 0) else
    pbind (on_ck (update_status (c_chunk_id c) (CkRow ck_in_flight None None 0))) (λ _, λ b,
      match put_chunk c b with
      | (b1, Raise _) => (b1, Ok (chunk_result c chunk_skipped_resumed None None 0))
      | (b1, Ok (sha, p)) =>
          match p_status p with
          | put_hard_floor_blocked =>
              pbind (on_ck (update_status (c_chunk_id c) (CkRow ck_blocked None None 0))) (λ _,
              pret (chunk_result c chunk_blocked (Some p) None 0)) b1
          | queued => (b1, Ok (chunk_result c chunk_skipped_resumed (Some p) None 0))
          | _ => verify_chunk c sha p b1
          end
      end)) b.

(** One completed future: an exception of the chunk counts as skipped. *)
Definition run_future (c : ChunkSpec) : proc ChunkResult :=
  pcatch (process_chunk c) (λ _, pret (chunk_result c chunk_skipped_resumed None None 0)).

(** The pool: after each result the gate is read; once it is up, only the
    [started] next chunks, already running, still complete. *)
Fixpoint run_pool (started : nat) (schedule : list ChunkSpec) : proc (list ChunkResult) :=
  match schedule with
  | [] => pret []
  | c :: rest =>
      pbind (run_future c) (λ r,
      pbind is_manual_gate (λ gate,
        if gate then pbind (pmap run_future (take started rest)) (λ _, pret [r])
        else pbind (run_pool started rest) (λ rs, pret (r :: rs))))
  end.

Definition final_status (ck : checkpoint) : backfill_status :=
  if (0 <? count_status ck_blocked ck)%nat then backfill_chunk_blocked
  else if (0 <? count_status ck_quarantined ck)%nat then chunk_invariant_failed
  else if (0 <? count_status ck_pending ck + count_status ck_in_flight ck)%nat then checkpoint_resumable
  else all_chunks_verified.

(** [run]: [order] is the order in which the pool completes the pending chunks. *)
Definition run (today : Z * Z * Z) (started : nat) (order : list ChunkSpec → list ChunkSpec) : proc BackfillResult :=
  pbind is_manual_gate (λ gate,
    if gate then pret (MkBackfill checkpoint_resumable 0 0 0 0 0) else λ b,
    let chunks := build_chunk_spec <$> discover_partitions today (w_fs (b_world b)) in
    pbind (on_ck (upsert_pending chunks)) (λ _, λ b,
      let pending := List.filter (λ c, negb (bool_decide (get_status (b_ck b) (c_chunk_id c) = ck_verified))) chunks in
      pbind (run_pool started (order pending)) (λ _, λ b,
        let ck := b_ck b in
        (b, Ok (MkBackfill (final_status ck) (length chunks) (count_status ck_verified ck) (count_status ck_quarantined ck)
                  (count_status ck_blocked ck) (count_status ck_pending ck + count_status ck_in_flight ck)%nat))) b) b).
End orchestrator.

Example parse_date_examples :
  parse_date "2025-11-01" = Ok (2025, 11, 1) ∧ parse_date "2025-02-29" = Raise ValueError ∧
  parse_date "2024-2-29" = Ok (2024, 2, 29) ∧ parse_date "2025-11" = Raise ValueError ∧
  parse_date " 1_0-1-+1" = Ok (10, 1, 1) ∧ parse_date "x-1-1" = Raise ValueError.
Proof. vm_compute. repeat split. Qed.

(** ** Lemmas on one chunk *)

Section chunk_lemmas.
Context {S : Type} `{S3Laws S}.
Context (rcfg : rq_config) (new_id : nat → string) (enqueue_clock : nat → Z * Z)
        (enqueue_faults : nat → option exn * option exn) (has_metrics : bool) (sha256_hex : bytes → string).
Context (read_parquet_meta : bytes → res parquet_meta) (hcfg : harness_config) (cfg : bf_config).
Implicit Types (b : bf_world S) (c : ChunkSpec).
Local Notation verify := (verify sha256_hex read_parquet_meta hcfg).
Local Notation retry_verify := (retry_verify sha256_hex read_parquet_meta hcfg cfg).
Local Notation verify_chunk := (verify_chunk sha256_hex read_parquet_meta hcfg cfg).
Local Notation process_chunk := (process_chunk rcfg new_id enqueue_clock enqueue_faults has_metrics sha256_hex read_parquet_meta hcfg cfg).

(** The answer [v] to a verification of the chunk on this storage, of the file
    or of its partition, was a pass. *)
Definition chunk_passed c (v : InvariantResult) (w : world S) : Prop :=
  ∃ lf no w1 w2, same_storage w w1 ∧ (lf = Some [c_source_path c] ∨ lf = None) ∧
    verify (parent (c_source_path c)) (c_nas_partition_prefix c) lf no w1 = (w2, Ok v) ∧ ir_status v = all_pass.

(** How the work on a chunk ends after the PUT. *)
Definition verify_post c sha b b' (r : res ChunkResult) : Prop :=
  same_storage (b_world b) (b_world b') ∧
  match r with
  | Raise _ => b_ck b' = b_ck b
  | Ok res =>
      cr_status res = chunk_verified ∧ (∃ v, cr_invariant_result res = Some v ∧ chunk_passed c v (b_world b)) ∧
        b_ck b' = update_status (c_chunk_id c) (CkRow ck_verified (Some sha) None 0) (b_ck b) ∨
      cr_status res = chunk_quarantined ∧ ∃ st, st ≠ all_pass ∧
        b_ck b' = update_status (c_chunk_id c) (CkRow ck_quarantined None (Some st) (bf_verify_retry_budget cfg)) (b_ck b)
  end.

Lemma retry_verify_inv n done c sha p last b b' r :
  ir_status last ≠ all_pass → retry_verify n done c sha p last b = (b', r) → verify_post c sha b b' r.
Proof.
  revert done last b. induction n as [|n IH]; intros done last b Hlast; simpl.
  { intros [= <- <-]. split; [done|]. right. eauto. }
  unfold pbind, on_world. destruct (verify _ _ None None (b_world b)) as [w1 [v|e]] eqn:Hv;
    pose proof (reads_only_verify _ _ _ _ _ _ _ _ _ _ Hv) as Hs; [|by intros [= <- <-]].
  destruct (bool_decide (ir_status v = all_pass)) eqn:Ha.
  - intros [= <- <-]. split; [done|]. left. apply bool_decide_eq_true in Ha. split_and!; [done| |done].
    exists v. split; [done|]. exists None, None, (b_world b), w1. split_and!; try done. by right.
  - apply bool_decide_eq_false in Ha. intros Hr. apply IH in Hr as [Hs2 Hr]; [|done]. simpl in *.
    split; [by eapply same_storage_trans|]. destruct r as [res|e]; [|done].
    destruct Hr as [(Hst&(v'&Hv'&lf&no&w2&w3&Hs3&?)&Hck)|?]; [left|by right]. split_and!; [done| |done].
    exists v'. split; [done|]. exists lf, no, w2, w3. split; [by eapply same_storage_trans|done].
Qed.

Lemma verify_chunk_inv c sha p b b' r : verify_chunk c sha p b = (b', r) → verify_post c sha b b' r.
Proof.
  unfold Backfill.verify_chunk, pbind, on_world.
  destruct (verify _ _ (Some _) (Some _) (b_world b)) as [w1 [v|e]] eqn:Hv;
    pose proof (reads_only_verify _ _ _ _ _ _ _ _ _ _ Hv) as Hs; [|by intros [= <- <-]].
  destruct (bool_decide (ir_status v = all_pass)) eqn:Ha.
  - intros [= <- <-]. split; [done|]. left. apply bool_decide_eq_true in Ha. split_and!; [done| |done].
    exists v. split; [done|]. exists (Some [c_source_path c]), (Some [c_nas_object_key c]), (b_world b), w1. split_and!; try done. by left.
  - apply bool_decide_eq_false in Ha. intros Hr. apply retry_verify_inv in Hr as [Hs2 Hr]; [|done]. simpl in *.
    split; [by eapply same_storage_trans|]. destruct r as [res|e]; [|done].
    destruct Hr as [(Hst&(v'&Hv'&lf&no&w2&w3&Hs3&?)&Hck)|?]; [left|by right]. split_and!; [done| |done].
    exists v'. split; [done|]. exists lf, no, w2, w3. split; [by eapply same_storage_trans|done].
Qed.

(** Local files as before, and no object that carries a digest touched. *)
Definition bf_keeps b b' : Prop :=
  w_fs (b_world b') = w_fs (b_world b) ∧
  ∀ k o, objects (b_world b) !! k = Some o → is_Some (ob_sha256 o) → objects (b_world b') !! k = Some o.

Lemma bf_keeps_refl b : bf_keeps b b.
Proof. by split. Qed.
Lemma bf_keeps_trans b1 b2 b3 : bf_keeps b1 b2 → bf_keeps b2 b3 → bf_keeps b1 b3.
Proof. intros [Hf1 Ho1] [Hf2 Ho2]. split; [congruence|]. eauto. Qed.

(** The content of the chunk is stored under its digest. *)
Definition chunk_stored c (sha : string) b : Prop :=
  stored_sha (w_s3 (b_world b)) (c_nas_object_key c) sha ∧
  ∃ data, w_fs (b_world b) !! c_source_path c = Some data ∧ sha = sha256_hex data.

Lemma put_chunk_inv c b b' r :
  put_chunk rcfg new_id enqueue_clock enqueue_faults has_metrics sha256_hex c b = (b', r) →
  bf_keeps b b' ∧ b_ck b' = b_ck b ∧
  ∀ sha p, r = Ok (sha, p) → (p_status p = uploaded ∨ p_status p = skipped_idempotent ∨ p_status p = skipped_etag_overwrite) →
    chunk_stored c sha b'.
Proof.
  unfold put_chunk. destruct (w_fs (b_world b) !! c_source_path c) as [data|] eqn:Hd; [|by intros [= <- <-]].
  unfold pbind, on_world. destruct (put _ _ _ _ _ _ _ _ _ _ (b_world b)) as [w1 o] eqn:Hp.
  apply put_inv in Hp as ((Hf&Hfw&Hok)&_); [|apply _]. unfold same_files in Hf.
  assert (bf_keeps b (BfWorld w1 (b_ck b) (b_gates b))) as Hk.
  { split; [done|]. simpl. intros k ob Hob Hsha. by eapply forward_only_keeps. }
  destruct o as [p|e]; intros [= <- <-]; (split_and!; [done|done|]); [|done].
  intros sha p' [= <- <-] Hst. simpl. specialize (Hok p eq_refl). unfold chunk_stored. simpl. rewrite Hf.
  split; [|eauto]. destruct Hst as [Hst|[Hst|Hst]]; rewrite Hst in Hok; naive_solver.
Qed.

Lemma same_storage_sym (w w' : world S) : same_storage w w' → same_storage w' w.
Proof. unfold same_storage, same_queue, same_files. intuition congruence. Qed.

Lemma same_storage_keeps b b' : same_storage (b_world b) (b_world b') → bf_keeps b b'.
Proof. intros (Ho&_&Hf). split; [done|]. intros k o Hk _. by rewrite Ho. Qed.

Lemma update_status_other id k row ck : k ≠ id → update_status id row ck !! k = ck !! k.
Proof. intros Hk. unfold update_status. destruct (ck !! id); [by rewrite lookup_insert_ne|done]. Qed.
Lemma update_status_same id row ck : update_status id row ck !! id = (λ _, row) <$> (ck !! id).
Proof. unfold update_status. destruct (ck !! id) eqn:E; simpl; [by rewrite lookup_insert_eq|done]. Qed.

(** This call verified the chunk: it said so, with the passed verification of
    what it left stored, and recorded the digest. *)
Definition chunk_verified_by c (sha : string) b' (r : res ChunkResult) : Prop :=
  ∃ res v, r = Ok res ∧ cr_status res = chunk_verified ∧ cr_invariant_result res = Some v ∧
    chunk_passed c v (b_world b') ∧ chunk_stored c sha b' ∧
    b_ck b' !! c_chunk_id c = Some (CkRow ck_verified (Some sha) None 0).

(** What one run of a chunk promises. *)
Record process_post c b b' (r : res ChunkResult) : Prop := {
  pp_keeps : bf_keeps b b';
  pp_others : ∀ k, k ≠ c_chunk_id c → b_ck b' !! k = b_ck b !! k;
  pp_has_row : is_Some (b_ck b' !! c_chunk_id c) ↔ is_Some (b_ck b !! c_chunk_id c);
  pp_done : get_status (b_ck b) (c_chunk_id c) = ck_verified → b' = b ∧ r = Ok (chunk_result c chunk_skipped_resumed None None 0);
  pp_verified : get_status (b_ck b) (c_chunk_id c) ≠ ck_verified → get_status (b_ck b') (c_chunk_id c) = ck_verified →
    ∃ sha, chunk_verified_by c sha b' r;
  pp_result : ∀ res, r = Ok res → is_Some (b_ck b !! c_chunk_id c) →
    match cr_status res with
    | chunk_verified => get_status (b_ck b') (c_chunk_id c) = ck_verified
    | chunk_quarantined => get_status (b_ck b') (c_chunk_id c) = ck_quarantined
    | chunk_blocked => get_status (b_ck b') (c_chunk_id c) = ck_blocked
    | chunk_sop_skipped => b_ck b' = b_ck b
    | chunk_skipped_resumed => True
    end }.

(** The steps that leave the row of the chunk at a status other than verified. *)
Lemma process_post_row c b b' r row :
  get_status (b_ck b) (c_chunk_id c) ≠ ck_verified → bf_keeps b b' →
  b_ck b' = update_status (c_chunk_id c) row (update_status (c_chunk_id c) (CkRow ck_in_flight None None 0) (b_ck b)) →
  k_status row ≠ ck_verified →
  (∀ res, r = Ok res → match cr_status res with
    | chunk_quarantined => k_status row = ck_quarantined | chunk_blocked => k_status row = ck_blocked
    | chunk_skipped_resumed => True | _ => False end) →
  process_post c b b' r.
Proof.
  intros Hnv Hk Hck Hrow Hres. split; [done| | |done| |].
  - intros k Hne. by rewrite Hck, !update_status_other.
  - rewrite Hck, !update_status_same. destruct (b_ck b !! c_chunk_id c); simpl; split; try done; by intros [].
  - intros _ Hv. unfold get_status in *. rewrite Hck, !update_status_same in Hv. destruct (b_ck b !! c_chunk_id c); simpl in *; congruence.
  - intros res Hr [row0 Hrow0]. specialize (Hres res Hr). unfold get_status. rewrite Hck, !update_status_same, Hrow0. simpl.
    by destruct (cr_status res).
Qed.

Lemma process_chunk_inv c b b' r : process_chunk c b = (b', r) → process_post c b b' r.
Proof.
  unfold Backfill.process_chunk. destruct (bool_decide (get_status (b_ck b) (c_chunk_id c) = ck_verified)) eqn:Hst.
  { apply bool_decide_eq_true in Hst. intros [= <- <-]. split; try done. by intros res [= <-]. }
  apply bool_decide_eq_false in Hst. unfold pbind at 1, is_manual_gate.
  destruct (default false (head (b_gates b))).
  { intros [= <- <-]. split; try done. by intros res [= <-]. }
  unfold pbind at 1, on_ck at 1. simpl.
  set (ck1 := update_status (c_chunk_id c) (CkRow ck_in_flight None None 0) (b_ck b)).
  set (b1 := BfWorld (b_world b) ck1 (tail (b_gates b))).
  assert (ck1 = update_status (c_chunk_id c) (CkRow ck_in_flight None None 0) ck1) as Hidem.
  { unfold ck1, update_status. destruct (b_ck b !! c_chunk_id c) eqn:E; [|by rewrite E].
    by rewrite lookup_insert_eq, insert_insert_eq. }
  destruct (put_chunk _ _ _ _ _ _ c b1) as [b2 o] eqn:Hp. apply put_chunk_inv in Hp as (Hk&Hck2&Hsto).
  assert (bf_keeps b b2) as Hkb by exact Hk. simpl in Hck2.
  destruct o as [[sha p]|e].
  2:{ intros [= <- <-]. eapply process_post_row; [done|done|by rewrite Hck2, Hidem at 1|done|by intros res [= <-]]. }
  assert ((p_status p = uploaded ∨ p_status p = skipped_idempotent ∨ p_status p = skipped_etag_overwrite) →
    verify_chunk c sha p b2 = (b', r) → process_post c b b' r) as Hmain.
  { intros Hput Hv. apply verify_chunk_inv in Hv as [Hs Hr].
    assert (bf_keeps b b') as Hkb' by (eapply bf_keeps_trans; [done|by apply same_storage_keeps]).
    destruct r as [res|e].
    2:{ eapply process_post_row; [done|done|by rewrite Hr, Hck2, Hidem at 1|done|done]. }
    destruct Hr as [(Hres&(v&Hvres&Hpass)&Hck)|(Hres&st&Hne&Hck)]; rewrite Hck2 in Hck; unfold ck1 in Hck.
    - split; [done| | |done| |].
      + intros k Hk'. by rewrite Hck, !update_status_other.
      + rewrite Hck, !update_status_same. destruct (b_ck b !! c_chunk_id c); simpl; split; try done; by intros [].
      + intros _ Hv. exists sha, res, v. unfold get_status in Hv. rewrite Hck in Hv |- *.
        unfold ck1 in *. rewrite !update_status_same in Hv |- *. destruct (b_ck b !! c_chunk_id c); simpl in *; [|done].
        split_and!; [done|done|done| | |done].
        * destruct Hpass as (lf&no&w1&w2&Hs1&?). exists lf, no, w1, w2. split; [|done].
          eapply same_storage_trans; [by apply same_storage_sym|done].
        * destruct (Hsto sha p eq_refl Hput) as ((o&Ho&Hsha)&data&Hd&Hds). destruct Hs as (Hso&_&Hsf). split.
          -- exists o. by rewrite Hso.
          -- exists data. by rewrite Hsf.
      + intros res' [= <-] [row0 Hrow0]. rewrite Hres. unfold get_status. rewrite Hck. unfold ck1.
        by rewrite !update_status_same, Hrow0.
    - eapply process_post_row; [done|done|exact Hck|done|]. intros res' [= <-]. by rewrite Hres. }
  destruct (p_status p) eqn:Hps; intros Hr; try (apply Hmain; [tauto|done]).
  - injection Hr as <- <-. eapply process_post_row; [done|done|by rewrite Hck2, Hidem at 1|done|by intros res [= <-]].
  - unfold pbind, on_ck, pret in Hr. injection Hr as <- <-.
    eapply process_post_row; [done|exact Hkb|simpl; by rewrite Hck2|done|by intros res [= <-]].
Qed.

(** ** Lemmas on the pool *)

Local Notation run_future := (run_future rcfg new_id enqueue_clock enqueue_faults has_metrics sha256_hex read_parquet_meta hcfg cfg).
Local Notation run_pool := (run_pool rcfg new_id enqueue_clock enqueue_faults has_metrics sha256_hex read_parquet_meta hcfg cfg).

(** The states a run goes through: the gate is read, the checkpoint is opened
    for the discovered chunks, a chunk is processed. *)
Inductive reaches (cs : list ChunkSpec) : bf_world S → bf_world S → Prop :=
  | reaches_here b : reaches cs b b
  | reaches_gate b b1 b2 r : is_manual_gate b = (b1, r) → reaches cs b1 b2 → reaches cs b b2
  | reaches_open b b2 : reaches cs (BfWorld (b_world b) (upsert_pending cs (b_ck b)) (b_gates b)) b2 → reaches cs b b2
  | reaches_chunk c b b1 b2 r : c ∈ cs → process_chunk c b = (b1, r) → reaches cs b1 b2 → reaches cs b b2.

Lemma reaches_trans cs b1 b2 b3 : reaches cs b1 b2 → reaches cs b2 b3 → reaches cs b1 b3.
Proof.
  induction 1; intros; [done|eapply reaches_gate; eauto|eapply reaches_open; eauto|eapply reaches_chunk; eauto].
Qed.

(** On the way from [b] to [b'] a call verified the chunk of this row. *)
Definition verified_between cs b b' (k : string) : Prop :=
  ∃ c sha b1 b2 r, c ∈ cs ∧ c_chunk_id c = k ∧
    reaches cs b b1 ∧ process_chunk c b1 = (b2, r) ∧ chunk_verified_by c sha b2 r ∧ reaches cs b2 b' ∧
    b_ck b' !! k = Some (CkRow ck_verified (Some sha) None 0) ∧ chunk_stored c sha b'.

(** What running some of the chunks [cs] does. *)
Record pool_post (cs : list ChunkSpec) b b' : Prop := {
  pl_keeps : bf_keeps b b';
  pl_reaches : reaches cs b b';
  pl_has_row : ∀ k, is_Some (b_ck b' !! k) ↔ is_Some (b_ck b !! k);
  pl_done : ∀ k row, b_ck b !! k = Some row → k_status row = ck_verified → b_ck b' !! k = Some row;
  pl_verified : ∀ k, get_status (b_ck b) k ≠ ck_verified → get_status (b_ck b') k = ck_verified → verified_between cs b b' k }.

Lemma pool_post_refl cs b : pool_post cs b b.
Proof. by split; [apply bf_keeps_refl|constructor|..]. Qed.

Lemma chunk_stored_keeps c sha b b' : bf_keeps b b' → chunk_stored c sha b → chunk_stored c sha b'.
Proof.
  intros [Hf Ho] [(o&Hk&Hsha) Hd]. split; [|by rewrite Hf]. exists o. split; [|done]. apply Ho; [done|]. by rewrite Hsha.
Qed.

Lemma get_status_verified ck k : get_status ck k = ck_verified ↔ ∃ row, ck !! k = Some row ∧ k_status row = ck_verified.
Proof. unfold get_status. destruct (ck !! k); split; [eauto|by intros (?&[= <-]&?)|done|by intros (?&?&?)]. Qed.

Lemma pool_post_trans cs b1 b2 b3 : pool_post cs b1 b2 → pool_post cs b2 b3 → pool_post cs b1 b3.
Proof.
  intros [Hk1 Hs1 Hr1 Hd1 Hv1] [Hk2 Hs2 Hr2 Hd2 Hv2]. split.
  - by eapply bf_keeps_trans.
  - by eapply reaches_trans.
  - intros k. by rewrite Hr2.
  - eauto.
  - intros k Hn Hv. destruct (decide (get_status (b_ck b2) k = ck_verified)) as [Hm|Hm].
    + destruct (Hv1 k Hn Hm) as (c&sha&ba&bb&r&?&?&?&?&?&?&Hrow&Hsto). exists c, sha, ba, bb, r. split_and!; try done.
      * by eapply reaches_trans.
      * by apply Hd2.
      * by eapply chunk_stored_keeps.
    + destruct (Hv2 k Hm Hv) as (c&sha&ba&bb&r&?&?&?&?&?&?&Hrow&Hsto). exists c, sha, ba, bb, r. split_and!; try done.
      by eapply reaches_trans.
Qed.

Lemma process_post_pool c cs b b' r : c ∈ cs → process_chunk c b = (b', r) → pool_post cs b b'.
Proof.
  intros Hc Hp. pose proof (process_chunk_inv _ _ _ _ Hp) as [Hk Ho Hrow Hd Hv _].
  split; [done|by eapply reaches_chunk; [..|constructor]| | |].
  - intros k. destruct (decide (k = c_chunk_id c)) as [->|]; [done|]. by rewrite Ho.
  - intros k row Hkr Hst. destruct (decide (k = c_chunk_id c)) as [->|]; [|by rewrite Ho].
    destruct Hd as [-> _]; [|done]. apply get_status_verified. eauto.
  - intros k Hn Hver. destruct (decide (k = c_chunk_id c)) as [->|Hne].
    + destruct (Hv Hn Hver) as [sha Hby]. pose proof Hby as (_&_&_&_&_&_&Hsto&Hrow'). exists c, sha, b, b', r. split_and!; try done; constructor.
    + exfalso. apply Hn. unfold get_status in *. by rewrite Ho in Hver.
Qed.

Lemma run_future_inv c cs b b' r : c ∈ cs → run_future c b = (b', r) → pool_post cs b b' ∧ ∃ x, r = Ok x.
Proof.
  intros Hc. unfold Backfill.run_future, pcatch.
  destruct (process_chunk c b) as [b1 [x|e]] eqn:Hp; intros [= <- <-];
    (split; [by eapply process_post_pool|eauto]).
Qed.

Lemma pmap_future_inv l cs b b' r :
  (∀ c, c ∈ l → c ∈ cs) → pmap run_future l b = (b', r) → pool_post cs b b' ∧ ∃ x, r = Ok x.
Proof.
  revert b b' r. induction l as [|c l IH]; intros b b' r Hl; simpl.
  { intros [= <- <-]. split; [apply pool_post_refl|eauto]. }
  unfold pbind at 1. destruct (run_future c b) as [b1 r1] eqn:Hf.
  apply (run_future_inv c cs) in Hf as [Hp1 [x ->]]; [|apply Hl; by left].
  unfold pbind. destruct (pmap run_future l b1) as [b2 r2] eqn:Hm.
  apply IH in Hm as [Hp2 [xs ->]]; [|intros; apply Hl; by right]. intros [= <- <-].
  split; [by eapply pool_post_trans|eauto].
Qed.

Lemma pool_post_gate cs b b1 r : is_manual_gate b = (b1, r) → pool_post cs b b1.
Proof.
  intros Hg. assert (reaches cs b b1) as Hs by (by eapply reaches_gate; [|constructor]).
  by injection Hg as <- _; split.
Qed.

Lemma run_pool_inv started l cs b b' r :
  (∀ c, c ∈ l → c ∈ cs) → run_pool started l b = (b', r) → pool_post cs b b' ∧ ∃ x, r = Ok x.
Proof.
  revert b b' r. induction l as [|c l IH]; intros b b' r Hl; simpl.
  { intros [= <- <-]. split; [apply pool_post_refl|eauto]. }
  unfold pbind at 1. destruct (run_future c b) as [b1 r1] eqn:Hf.
  apply (run_future_inv c cs) in Hf as [Hp1 [x ->]]; [|apply Hl; by left].
  unfold pbind at 1, is_manual_gate. destruct (default false _).
  - unfold pbind. destruct (pmap _ _ _) as [b2 r2] eqn:Hm.
    apply (pmap_future_inv _ cs) in Hm as [Hp2 [xs ->]].
    2:{ intros d Hd. apply Hl. right. by eapply elem_of_take in Hd as (?&?&_); eapply list_elem_of_lookup_2. }
    intros [= <- <-]. split; [|eauto]. eapply pool_post_trans; [exact Hp1|]. eapply pool_post_trans; [by eapply (pool_post_gate cs b1)|done].
  - unfold pbind. destruct (run_pool _ _ _) as [b2 r2] eqn:Hm.
    apply IH in Hm as [Hp2 [xs ->]]; [|intros; apply Hl; by right].
    intros [= <- <-]. split; [|eauto]. eapply pool_post_trans; [exact Hp1|]. eapply pool_post_trans; [by eapply (pool_post_gate cs b1)|done].
Qed.
End chunk_lemmas.

(** ** Lemmas on a run *)

Lemma upsert_pending_spec chunks ck :
  (∀ k row, ck !! k = Some row → upsert_pending chunks ck !! k = Some row) ∧
  (∀ k, get_status (upsert_pending chunks ck) k = get_status ck k) ∧
  (∀ c, c ∈ chunks → is_Some (upsert_pending chunks ck !! c_chunk_id c)).
Proof.
  unfold upsert_pending. revert ck. induction chunks as [|c chunks IH]; intros ck; simpl.
  { split_and!; [done|done|]. by intros c ?%elem_of_nil. }
  destruct (ck !! c_chunk_id c) as [row|] eqn:Hc.
  - destruct (IH ck) as (H1&H2&H3). split_and!; [done|done|]. intros d [->|Hd]%elem_of_cons; [|by apply H3].
    exists row. by apply H1.
  - destruct (IH (<[c_chunk_id c := CkRow ck_pending None None 0]> ck)) as (H1&H2&H3). split_and!.
    + intros k row Hk. apply H1. rewrite lookup_insert_ne; [done|]. intros <-. congruence.
    + intros k. rewrite H2. unfold get_status. destruct (decide (k = c_chunk_id c)) as [->|].
      * by rewrite lookup_insert_eq, Hc.
      * by rewrite lookup_insert_ne.
    + intros d [->|Hd]%elem_of_cons; [|by apply H3]. eexists. apply H1. apply lookup_insert_eq.
Qed.

Lemma count_status_0 st ck : count_status st ck = 0%nat ↔ ∀ k row, ck !! k = Some row → k_status row ≠ st.
Proof.
  unfold count_status. rewrite length_zero_iff_nil. split.
  - intros Hnil k row Hk Hst. apply (not_elem_of_nil (k, row)). rewrite <- Hnil.
    apply list_elem_of_In, List.filter_In. rewrite <- list_elem_of_In. split; [by apply elem_of_map_to_list|].
    simpl. by rewrite bool_decide_true.
  - intros Hall. apply filter_none. intros [k row] Hin. simpl. apply elem_of_map_to_list in Hin.
    apply bool_decide_eq_false. by eapply Hall.
Qed.

Lemma final_status_all ck : final_status ck = all_chunks_verified ↔ ∀ k row, ck !! k = Some row → k_status row = ck_verified.
Proof.
  unfold final_status. split.
  - intros Hf k row Hk. destruct (count_status ck_blocked ck) eqn:Z1; [|done]. destruct (count_status ck_quarantined ck) eqn:Z2; [|done].
    destruct (count_status ck_pending ck) eqn:Z3; [|done]. destruct (count_status ck_in_flight ck) eqn:Z4; [|done].
    apply (proj1 (count_status_0 _ _)) with (k := k) (row := row) in Z1, Z2, Z3, Z4; [|done..]. by destruct (k_status row).
  - intros Hall. assert (∀ st, st ≠ ck_verified → count_status st ck = 0%nat) as Hz.
    { intros st Hst. apply count_status_0. intros k row Hk. rewrite (Hall k row Hk). congruence. }
    by rewrite !Hz.
Qed.

(** A chunk whose object key lies in its own partition. *)
Definition chunk_ok (c : ChunkSpec) : Prop :=
  c_nas_object_key c = c_nas_partition_prefix c +:+ "/" +:+ basename (c_source_path c) ∧
  endswith ".parquet" (basename (c_source_path c)) = true.

Lemma discovered_chunk_ok sha256_hex cfg today fs c :
  c ∈ build_chunk_spec sha256_hex cfg <$> discover_partitions cfg today fs → chunk_ok c ∧ is_Some (fs !! c_source_path c).
Proof.
  intros (f&->&Hf)%list_elem_of_fmap. unfold discover_partitions in Hf.
  rewrite list_elem_of_In, List.filter_In, <- list_elem_of_In, sort_le_perm, list_elem_of_In, List.filter_In, <- list_elem_of_In in Hf.
  destruct Hf as [[Hin Ht] _]. split.
  - split; [done|]. simpl. unfold in_tier_dir in Ht. by apply andb_true_iff in Ht as [_ ?].
  - apply list_elem_of_fmap in Hin as ([f' d]&->&Hin). exists d. by apply elem_of_map_to_list.
Qed.

Lemma as_prefix_app p s : String.prefix (as_prefix p) (p +:+ "/" +:+ s) = true.
Proof. unfold as_prefix. destruct (endswith "/" p); [apply prefix_app|]. rewrite <- string_app_assoc. apply prefix_app. Qed.

(** On a store whose listings work no chunk passes once it is stored. *)
Lemma stored_chunk_never_passes {S : Type} `{S3Laws S} sha256_hex read_parquet_meta hcfg c sha v (b : bf_world S) :
  lists_work S → chunk_ok c → chunk_stored sha256_hex c sha b →
  ¬ chunk_passed sha256_hex read_parquet_meta hcfg c v (b_world b).
Proof.
  intros Hwork [Hkey Hpq] [(o&Ho&_) (data&Hd&_)] (lf&no&w1&w2&(Hso&_&Hsf)&Hlf&Hv&Hall). revert Hall.
  eapply (replica_is_ambiguous _ _ _ _ _ _ _ _ _ _ (c_nas_object_key c) Hwork Hv).
  - destruct Hlf as [->| ->]; [done|]. rewrite Hsf. intros Hnil. apply (not_elem_of_nil (c_source_path c)). rewrite <- Hnil.
    unfold glob_parquet. rewrite sort_le_perm, list_elem_of_In, List.filter_In, <- list_elem_of_In.
    rewrite String.eqb_refl, Hpq. split; [|done]. apply list_elem_of_fmap. exists (c_source_path c, data).
    split; [done|]. by apply elem_of_map_to_list.
  - rewrite Hso. eauto.
  - rewrite Hkey. apply as_prefix_app.
Qed.

Section run_lemmas.
Context {S : Type} `{S3Laws S}.
Context (rcfg : rq_config) (new_id : nat → string) (enqueue_clock : nat → Z * Z)
        (enqueue_faults : nat → option exn * option exn) (has_metrics : bool) (sha256_hex : bytes → string).
Context (read_parquet_meta : bytes → res parquet_meta) (hcfg : harness_config) (cfg : bf_config).
Local Notation run := (run rcfg new_id enqueue_clock enqueue_faults has_metrics sha256_hex read_parquet_meta hcfg cfg).
Local Notation pool_post := (pool_post rcfg new_id enqueue_clock enqueue_faults has_metrics sha256_hex read_parquet_meta hcfg cfg).

Lemma run_inv today started order (b b' : bf_world S) r :
  (∀ l c, c ∈ order l → c ∈ l) →
  run today started order b = (b', r) →
  let chunks := build_chunk_spec sha256_hex cfg <$> discover_partitions cfg today (w_fs (b_world b)) in
  let gate := default false (head (b_gates b)) in
  ∃ v, r = Ok v ∧
    (gate = true → b_world b' = b_world b ∧ b_ck b' = b_ck b ∧ bf_status v = checkpoint_resumable) ∧
    (gate = false →
      pool_post chunks (BfWorld (b_world b) (upsert_pending chunks (b_ck b)) (tail (b_gates b))) b' ∧
      bf_status v = final_status (b_ck b') ∧
      ((∀ c, c ∈ chunks → get_status (b_ck b) (c_chunk_id c) = ck_verified) → b_world b' = b_world b)).
Proof.
  intros Horder Hrun chunks gate. unfold Backfill.run, pbind at 1, is_manual_gate in Hrun. fold gate in Hrun.
  destruct gate; [injection Hrun as <- <-; by eexists|].
  unfold pbind at 1, on_ck in Hrun. cbn [b_world b_ck b_gates] in Hrun. fold chunks in Hrun.
  set (b1 := BfWorld (b_world b) (upsert_pending chunks (b_ck b)) (tail (b_gates b))) in *.
  set (pending := List.filter _ chunks) in Hrun. unfold pbind in Hrun.
  destruct (run_pool _ _ _ _ _ _ _ _ _ _ _ b1) as [b2 r2] eqn:Hp.
  pose proof Hp as Hpool. apply (run_pool_inv _ _ _ _ _ _ _ _ _ _ _ chunks) in Hp as [Hpost [rs ->]].
  2:{ intros c Hc%Horder. unfold pending in Hc. rewrite list_elem_of_In, List.filter_In, <- list_elem_of_In in Hc. tauto. }
  injection Hrun as <- <-. eexists. split; [done|]. split; [done|]. intros _. split_and!; [done|done|].
  intros Hall. assert (pending = []) as Hnil.
  { apply filter_none. intros c Hc. apply negb_false_iff, bool_decide_eq_true.
    simpl. destruct (upsert_pending_spec chunks (b_ck b)) as (_&Hg&_). rewrite Hg. by apply Hall. }
  rewrite Hnil in Hpool. assert (order [] = []) as Ho.
  { destruct (order []) as [|c l] eqn:E; [done|]. exfalso. apply (not_elem_of_nil c), Horder. rewrite E. by left. }
  rewrite Ho in Hpool. simpl in Hpool. by injection Hpool as <- _.
Qed.
End run_lemmas.


(** On a store whose listings work the backfill never verifies a chunk:
    after the PUT the object and the local file both exist, so the harness
    answers [ambiguity_fail], three times more on the whole partition, and the
    chunk is quarantined.  No row becomes verified, and with an unverified
    chunk the run cannot end as [all_chunks_verified]. *)
Theorem backfill_never_verifies {S : Type} `{S3Laws S} rcfg new_id enqueue_clock enqueue_faults has_metrics sha256_hex
    read_parquet_meta hcfg cfg today started order (b b' : bf_world S) (v : BackfillResult) :
  lists_work S → (∀ l c, c ∈ order l → c ∈ l) →
  run rcfg new_id enqueue_clock enqueue_faults has_metrics sha256_hex read_parquet_meta hcfg cfg today started order b = (b', Ok v) →
  (∀ k, get_status (b_ck b') k = ck_verified → get_status (b_ck b) k = ck_verified) ∧
  (∀ c, c ∈ build_chunk_spec sha256_hex cfg <$> discover_partitions cfg today (w_fs (b_world b)) →
     get_status (b_ck b) (c_chunk_id c) ≠ ck_verified → bf_status v ≠ all_chunks_verified).
Proof.
  intros Hwork Ho Hrun. destruct (run_inv _ _ _ _ _ _ _ _ _ _ _ _ _ _ _ Ho Hrun) as (v'&[= <-]&Hg1&Hg2).
  destruct (default false (head (b_gates b))) eqn:Hg.
  { destruct (Hg1 eq_refl) as (_&Hck&Hst). rewrite Hck, Hst. split; [done|]. done. }
  destruct (Hg2 eq_refl) as ([Hk _ Hr Hd Hv]&Hst&_). set (chunks := build_chunk_spec _ _ <$> _) in *.
  destruct (upsert_pending_spec chunks (b_ck b)) as (_&Hget&Hrow). simpl in *.
  assert (∀ k, get_status (b_ck b') k = ck_verified → get_status (b_ck b) k = ck_verified) as Hmono.
  { intros k Hver. destruct (decide (get_status (b_ck b) k = ck_verified)) as [|Hn]; [done|]. exfalso.
    destruct (Hv k) as (c&sha&b1&b2&r&Hc&_&_&_&(res&pass&_&_&_&Hpass&Hsto&_)&_); [by rewrite Hget|done|].
    destruct (discovered_chunk_ok _ _ _ _ _ Hc) as [Hok _]. by eapply stored_chunk_never_passes. }
  split; [done|]. intros c Hc Hn Hall. rewrite Hst in Hall. apply Hn, Hmono.
  destruct (proj2 (Hr (c_chunk_id c)) (Hrow c Hc)) as [row Hrow']. apply get_status_verified. exists row. split; [done|].
  apply (proj1 (final_status_all (b_ck b'))) with (k := c_chunk_id c); done.
Qed.

(** ** Concrete runs *)

Definition example_bf : bf_config := BfConfig "/d" "nas/schema_version=tick.v1/tier=L2" "L2" "transaction" 3.
Definition example_source : string :=
  "/d/market/transaction/schema_version=tick.v1/tier=L2/exchange=upbit/symbol=B/date=2025-11-01/a.parquet".
Definition example_bf_world {S} (s : S) : bf_world S := BfWorld (World s None 0 {[ example_source := "rows" ]} []) ∅ [].
Definition example_run {S} `{S3 S} (s : S) : bf_world S * res BackfillResult :=
  run (RqConfig 10 800 100) example_ids example_clock no_faults true id example_meta example_harness example_bf
    (2025, 11, 2) 0 id (example_bf_world s).


Lemma backfill_never_verifies_witness :
  ∃ v, (example_run (PlainS3 ∅)).2 = Ok v ∧ bf_status v ≠ all_chunks_verified.
Proof.
  assert (∃ v, (example_run (PlainS3 ∅)).2 = Ok v) as [v Hv] by (eexists; vm_compute; reflexivity).
  exists v. split; [exact Hv|].
  refine (proj2 (backfill_never_verifies (S := plain_s3) (RqConfig 10 800 100) example_ids example_clock no_faults true id example_meta
    example_harness example_bf (2025, 11, 2) 0 id (example_bf_world (PlainS3 ∅)) (example_run (PlainS3 ∅)).1 v
    plain_lists_work (λ l c Hc, Hc) _) (build_chunk_spec id example_bf example_source) _ _).
  - rewrite <- Hv. unfold example_run. apply surjective_pairing.
  - vm_compute. by left.
  - vm_compute. discriminate.
Defined.
