(* ===== verification/Retention.v ===== *)
(** * Retention of WAL segments ([compactor/gc.py], [compactor/gc_daemon.py])

    The two garbage collectors of compacted segments.  The tree under [wal/]
    maps a path to its modification time (seconds); [markers] are the
    [*.ndjson.sealed.compacted] paths in the order of the traversal;
    [unlink_fails] tells which unlinks raise. *)
From S2P Require Import Prelude NasKey Wal.
Open Scope string_scope.
Open Scope list_scope.
Open Scope Z_scope.

Definition GRACE_SECONDS : Z := 86400.
Definition NORMAL_GRACE_SECONDS : Z := 86400.
Definition ARCHIVE_FAILED_GRACE_SECONDS : Z := 86400 * 7.
Definition ARCHIVE_FAILED_SUFFIX : string := "._archive_failed".

Definition archive_failed_sentinel (sealed : string) : string := sealed +:+ ARCHIVE_FAILED_SUFFIX.
(** [Path(str(compacted)[: -len(".compacted")])] *)
Definition sealed_of (compacted : string) : string := drop_suffix ".compacted" compacted.

Notation tree := (gmap string Z).

Section gc.
Context (unlink_fails : string → bool) (now : Z).

(** [p.unlink()] of an existing file: did it succeed? *)
Definition unlink (p : string) (t : tree) : tree * bool :=
  if unlink_fails p then (t, false) else (delete p t, true).

(** One marker of [run_gc]; a marker that vanished is not in the traversal. *)
Definition gc_marker (t : tree) (compacted : string) : tree :=
  match t !! compacted with
  | None => t
  | Some mtime =>
      if GRACE_SECONDS <=? now - mtime then
        let sealed := sealed_of compacted in
        let '(t1, ok) := match t !! sealed with Some _ => unlink sealed t | None => (t, true) end in
        if ok then (unlink compacted t1).1 else t1
      else t
  end.
Definition run_gc (markers : list string) (t : tree) : tree := foldl gc_marker t markers.

(** [_delete_segment]: each file on its own. *)
Definition delete_file (t : tree) (p : string) : tree :=
  match t !! p with Some _ => (unlink p t).1 | None => t end.
Definition delete_segment (sealed compacted : string) (sentinel : option string) (t : tree) : tree :=
  foldl delete_file t (sealed :: compacted :: match sentinel with Some s => [s] | None => [] end).

(** One marker of [run_gc_with_extension]; the alerts sent so far. *)
Definition gc_extension_marker (acc : tree * list (string * Z)) (compacted : string) : tree * list (string * Z) :=
  let '(t, alerts) := acc in
  match t !! compacted with
  | None => acc
  | Some mtime =>
      let sealed := sealed_of compacted in
      let sentinel := archive_failed_sentinel sealed in
      let age := now - mtime in
      match t !! sentinel with
      | Some _ =>
          if ARCHIVE_FAILED_GRACE_SECONDS <=? age
          then (delete_segment sealed compacted (Some sentinel) t, alerts ++ [(sealed, age)]) else acc
      | None =>
          if NORMAL_GRACE_SECONDS <=? age then (delete_segment sealed compacted None t, alerts) else acc
      end
  end.
Definition run_gc_with_extension (markers : list string) (t : tree) : tree * list (string * Z) :=
  foldl gc_extension_marker (t, []) markers.
End gc.

(** ** Lemmas *)

Section lemmas.
Context (unlink_fails : string → bool) (now : Z).

(** The files of a marker, and when they are due. *)
Definition artifacts (marker : string) : list string :=
  [sealed_of marker; marker; archive_failed_sentinel (sealed_of marker)].
Definition grace (t : tree) (marker : string) : Z :=
  match t !! archive_failed_sentinel (sealed_of marker) with
  | Some _ => ARCHIVE_FAILED_GRACE_SECONDS | None => NORMAL_GRACE_SECONDS end.
Definition due (t : tree) (marker : string) : bool :=
  match t !! marker with Some mtime => grace t marker <=? now - mtime | None => false end.

Lemma sealed_of_marker base : sealed_of (base +:+ ".compacted") = base.
Proof. apply drop_suffix_app. Qed.

Lemma suffix_clash (s t : string) : s +:+ ".compacted" = t +:+ "._archive_failed" → False.
Proof.
  intros Heq. apply (f_equal string_rev) in Heq. rewrite !string_rev_app in Heq. vm_compute in Heq. discriminate.
Qed.

(** The files of two markers are distinct, unless a sealed name is itself a
    marker or a sentinel. *)
Definition plain_marker (p : string) : Prop :=
  ∃ base, p = base +:+ ".ndjson.sealed.compacted".

Lemma plain_sealed base s : s = ".compacted" ∨ s = "._archive_failed" → ∀ t, base +:+ ".ndjson.sealed" = t +:+ s → False.
Proof.
  intros Hs t Heq. apply (f_equal string_rev) in Heq. rewrite !string_rev_app in Heq.
  destruct Hs as [-> | ->]; vm_compute in Heq; discriminate.
Qed.

Lemma artifacts_disjoint m m' f : plain_marker m → plain_marker m' → f ∈ artifacts m → f ∈ artifacts m' → m = m'.
Proof.
  intros [b ->] [b' ->]. unfold artifacts, archive_failed_sentinel, ARCHIVE_FAILED_SUFFIX.
  change ".ndjson.sealed.compacted" with (".ndjson.sealed" +:+ ".compacted").
  rewrite <- !string_app_assoc, !sealed_of_marker.
  set (s := b +:+ ".ndjson.sealed"). set (s' := b' +:+ ".ndjson.sealed").
  assert (∀ x t, x = ".compacted" ∨ x = "._archive_failed" → s ≠ t +:+ x ∧ s' ≠ t +:+ x) as Hne.
  { intros x t Hx. split; intros Heq; by eapply plain_sealed in Heq. }
  intros [->|[->|[->|[]%elem_of_nil]%elem_of_cons]%elem_of_cons]%elem_of_cons
    [Hf|[Hf|[Hf|[]%elem_of_nil]%elem_of_cons]%elem_of_cons]%elem_of_cons;
    try (by rewrite Hf); try (by apply string_app_inj_r in Hf as ->);
    try (by exfalso; eapply suffix_clash); exfalso;
    destruct (Hne ".compacted" s' (or_introl eq_refl)), (Hne ".compacted" s (or_introl eq_refl)),
      (Hne "._archive_failed" s' (or_intror eq_refl)), (Hne "._archive_failed" s (or_intror eq_refl)); eauto.
Qed.

Lemma delete_file_lookup t p f :
  delete_file unlink_fails t p !! f = if bool_decide (f = p) && negb (unlink_fails f) then None else t !! f.
Proof.
  unfold delete_file, unlink. destruct (t !! p) eqn:Hp; case_bool_decide as Hf; simpl; subst;
    destruct (unlink_fails p) eqn:?; simpl; rewrite ?Hp, ?lookup_delete_eq, ?lookup_delete_ne; auto.
  all: by destruct (unlink_fails f).
Qed.

Lemma delete_files_lookup ps t f :
  foldl (delete_file unlink_fails) t ps !! f =
  if bool_decide (f ∈ ps) && negb (unlink_fails f) then None else t !! f.
Proof.
  revert t. induction ps as [|p ps IH]; intros t; simpl.
  { done. }
  rewrite IH, delete_file_lookup. destruct (unlink_fails f); [by rewrite !andb_false_r|]. rewrite !andb_true_r.
  destruct (decide (f ∈ ps)); [by rewrite !bool_decide_eq_true_2; [|right|]|].
  rewrite (bool_decide_eq_false_2 (f ∈ ps)); [|done].
  destruct (decide (f = p)) as [->|].
  - by rewrite !bool_decide_eq_true_2; [|left|].
  - rewrite !bool_decide_eq_false_2; [done| |done]. by intros [?|?]%elem_of_cons.
Qed.

(** The alert of a due marker with a sentinel. *)
Definition alert_of (t : tree) (m : string) : list (string * Z) :=
  match t !! m, t !! archive_failed_sentinel (sealed_of m) with
  | Some mtime, Some _ => if due t m then [(sealed_of m, now - mtime)] else []
  | _, _ => []
  end.

Lemma gc_extension_marker_spec t alerts m :
  ∃ t', gc_extension_marker unlink_fails now (t, alerts) m = (t', alerts ++ alert_of t m) ∧
    ∀ f, t' !! f = if due t m && bool_decide (f ∈ artifacts m) && negb (unlink_fails f) then None else t !! f.
Proof.
  unfold gc_extension_marker, alert_of, due, grace, artifacts. destruct (t !! m) as [mtime|]; [|exists t; by rewrite app_nil_r].
  destruct (t !! archive_failed_sentinel (sealed_of m)) eqn:Hs;
    [destruct (ARCHIVE_FAILED_GRACE_SECONDS <=? now - mtime)|destruct (NORMAL_GRACE_SECONDS <=? now - mtime)];
    eexists; rewrite ?app_nil_r; split; try reflexivity; intros f; try done.
  - unfold delete_segment. by rewrite delete_files_lookup.
  - unfold delete_segment. rewrite delete_files_lookup. simpl.
    destruct (unlink_fails f); [by rewrite !andb_false_r|]. rewrite !andb_true_r.
    destruct (decide (f = archive_failed_sentinel (sealed_of m))) as [->|Hf]; [rewrite Hs; by repeat case_match|].
    do 2 case_bool_decide; try done; exfalso; set_solver.
Qed.

(** What a marker's fate depends on is untouched by the others. *)
Lemma due_frame t t' m : (∀ f, f ∈ artifacts m → t' !! f = t !! f) → due t' m = due t m ∧ alert_of t' m = alert_of t m.
Proof.
  intros Hf. unfold alert_of, due, grace.
  rewrite !Hf; [done|unfold artifacts; set_solver..].
Qed.
End lemmas.

(** ** The collector with the extension *)

(** One pass deletes exactly the artifacts of the markers whose grace has
    expired (a day, or seven days beside an archive-failure sentinel), except
    what cannot be unlinked; every other path (active, uncompacted and young
    segments) keeps its entry.  It alerts once for every expired sentinel, in
    the order of the traversal, and for nothing else. *)
Theorem extension_deletes_expired_only unlink_fails now markers t :
  Forall plain_marker markers → NoDup markers →
  (run_gc_with_extension unlink_fails now markers t).2 = markers ≫= alert_of now t ∧
  ∀ f, (run_gc_with_extension unlink_fails now markers t).1 !! f =
    if existsb (λ m, due now t m && bool_decide (f ∈ artifacts m)) markers && negb (unlink_fails f)
    then None else t !! f.
Proof.
  intros Hp Hnd. unfold run_gc_with_extension. rewrite <- (app_nil_l (markers ≫= _)).
  generalize (@nil (string * Z)) as alerts. revert t.
  induction Hnd as [|m ms Hm Hnd IH]; intros t alerts; [split; [by rewrite app_nil_r|done]|].
  inversion Hp as [|? ? Hpm Hpms]; subst. cbn [foldl].
  destruct (gc_extension_marker_spec unlink_fails now t alerts m) as (t' & -> & Ht').
  assert (∀ m', m' ∈ ms → due now t' m' = due now t m' ∧ alert_of now t' m' = alert_of now t m') as Hframe.
  { intros m' Hin. refine (due_frame unlink_fails now t t' m' _). intros f Hf. rewrite Ht'.
    rewrite (bool_decide_eq_false_2 (f ∈ artifacts m)); [by rewrite andb_false_r|]. intros Hfm. apply Hm.
    rewrite (artifacts_disjoint m m' f); auto. by eapply Forall_forall in Hpms. }
  destruct (IH Hpms t' (alerts ++ alert_of now t m)) as [-> Hall]. split.
  - rewrite <- app_assoc. cbn. do 2 f_equal. 
    clear -Hframe. induction ms as [|x ms IHx]; [done|]. cbn. destruct (Hframe x) as [_ ->]; [left|].
    f_equal. apply IHx. intros m' ?. apply Hframe. by right.
  - intros f. rewrite Hall, Ht'. cbn [existsb].
    assert (existsb (λ m0, due now t' m0 && bool_decide (f ∈ artifacts m0)) ms =
            existsb (λ m0, due now t m0 && bool_decide (f ∈ artifacts m0)) ms) as ->.
    { clear -Hframe. induction ms as [|x ms IHx]; [done|]. cbn. destruct (Hframe x) as [-> _]; [left|].
      f_equal. apply IHx. intros m' ?. apply Hframe. by right. }
    destruct (unlink_fails f); [by rewrite !andb_false_r|]. rewrite !andb_true_r.
    destruct (due now t m && bool_decide (f ∈ artifacts m)); simpl; by case_match.
Qed.

(** One segment past its seven days, one inside them. *)
Definition gc_tree (age : Z) : tree :=
  {["wal/a.ndjson.sealed" := 0; "wal/a.ndjson.sealed.compacted" := 0; "wal/a.ndjson.sealed._archive_failed" := 0;
    "wal/b.ndjson.sealed" := age; "wal/b.ndjson.sealed.compacted" := age; "wal/b.ndjson.sealed._archive_failed" := age;
    "wal/c.ndjson" := 0]}.
Definition gc_markers : list string := ["wal/a.ndjson.sealed.compacted"; "wal/b.ndjson.sealed.compacted"].

Lemma extension_deletes_expired_only_witness :
  (run_gc_with_extension (λ _, false) 700000 gc_markers (gc_tree 600000)).2 = [("wal/a.ndjson.sealed", 700000)] ∧
  (run_gc_with_extension (λ _, false) 700000 gc_markers (gc_tree 600000)).1 !! "wal/a.ndjson.sealed" = None ∧
  (run_gc_with_extension (λ _, false) 700000 gc_markers (gc_tree 600000)).1 !! "wal/b.ndjson.sealed" = Some 600000.
Proof.
  destruct (extension_deletes_expired_only (λ _, false) 700000 gc_markers (gc_tree 600000)) as [-> Hf].
  - repeat constructor; [by exists "wal/a"|by exists "wal/b"].
  - repeat constructor; set_solver.
  - rewrite !Hf. vm_compute. auto.
Defined.

(** The collector that the compactor calls ([compactor/runner.py], line 224)
    is the other one, which does not know the sentinel: a segment whose
    archiving failed is deleted after one day. *)
Lemma run_gc_ignores_archive_failure :
  run_gc (λ _, false) 86400 gc_markers (gc_tree 0) !! "wal/a.ndjson.sealed" = None ∧
  gc_tree 0 !! "wal/a.ndjson.sealed._archive_failed" = Some 0 ∧
  (run_gc_with_extension (λ _, false) 86400 gc_markers (gc_tree 0)).1 !! "wal/a.ndjson.sealed" = Some 0.
Proof. repeat split; vm_compute; reflexivity. Qed.
