(* ===== verification/IngestBlocker.v ===== *)
(** * Capacity probe and ingest blocker ([capacity_probe.py], [ingest_blocker.py])

    The four measured layers, their ratios as IEEE doubles, and the blocker
    with its 80%/95% thresholds and its hysteresis.  What the operating system
    and the store answer to a measurement is an argument. *)
From S2P Require Import Prelude PyFloat.
Open Scope string_scope.
Open Scope list_scope.
Open Scope Z_scope.
#[local] Open Scope py_scope.

(** ** The probe *)

Record CapacityThresholds := Thresholds {
  wal_local_hard_gib : Z; l1_local_hard_gib : Z; nas_bucket_hard_gib : Z; host_disk_hard_gib : Z;
  warn_ratio : double; critical_ratio : double }.
Definition default_thresholds : CapacityThresholds := Thresholds 30 20 1024 200 f0_80 f0_95.
Definition gib : Z := 1024 ^ 3.
Definition wal_hard_bytes (t : CapacityThresholds) : Z := wal_local_hard_gib t * gib.
Definition l1_hard_bytes (t : CapacityThresholds) : Z := l1_local_hard_gib t * gib.
Definition nas_hard_bytes (t : CapacityThresholds) : Z := nas_bucket_hard_gib t * gib.
Definition host_hard_bytes (t : CapacityThresholds) : Z := host_disk_hard_gib t * gib.

Record CapacityReport := Report {
  wal_usage : Z; l1_usage : Z; nas_usage : Z; host_usage : Z;
  wal_hard : Z; l1_hard : Z; nas_hard : Z; host_hard : Z }.

Definition ratio (usage hard : Z) : double := if 0 <? hard then int_div usage hard else S754_zero false.
Definition wal_ratio (r : CapacityReport) : double := ratio (wal_usage r) (wal_hard r).
Definition l1_ratio (r : CapacityReport) : double := ratio (l1_usage r) (l1_hard r).
Definition nas_ratio (r : CapacityReport) : double := ratio (nas_usage r) (nas_hard r).
Definition host_ratio (r : CapacityReport) : double := ratio (host_usage r) (host_hard r).
(** [layer_ratios] *)
Definition layer_ratios (r : CapacityReport) : list (string * double) :=
  [("WAL_local", wal_ratio r); ("L1_local", l1_ratio r); ("NAS_bucket", nas_ratio r); ("Host_disk", host_ratio r)].

(** [max(...)]: a later argument replaces the maximum when it is greater. *)
Definition py_max (x : double) (l : list double) : double := foldl (λ m y, if m <f y then y else m) x l.
Definition max_ratio (r : CapacityReport) : double := py_max (wal_ratio r) [l1_ratio r; nas_ratio r; host_ratio r].

(** One entry of the walk: is it a file, and its size unless [stat] raised. *)
Definition dir_entry : Type := bool * option Z.
Definition probe_dir_bytes (entries : list dir_entry) : Z :=
  foldl (λ total e, match e with (true, Some size) => total + size | _ => total end) 0 entries.
(** The pages of the listing, up to the first that raised. *)
Fixpoint sum_pages (total : Z) (pages : list (res (list Z))) : res Z :=
  match pages with
  | [] => Ok total
  | Raise e :: _ => Raise e
  | Ok sizes :: ps => sum_pages (foldl Z.add total sizes) ps
  end.
Definition probe_nas_bytes (pages : list (res (list Z))) : Z := match sum_pages 0 pages with Ok n => n | Raise _ => 0 end.
Definition probe_host_bytes (used : res Z) : Z := match used with Ok n => n | Raise _ => 0 end.

(** What the four measurements are answered; an absent directory has no entries. *)
Record measurement := Measurement {
  ms_wal : list dir_entry; ms_l1 : list dir_entry; ms_nas : list (res (list Z)); ms_host : res Z }.
Definition probe_once (t : CapacityThresholds) (m : measurement) : CapacityReport :=
  Report (probe_dir_bytes (ms_wal m)) (probe_dir_bytes (ms_l1 m)) (probe_nas_bytes (ms_nas m)) (probe_host_bytes (ms_host m))
    (wal_hard_bytes t) (l1_hard_bytes t) (nas_hard_bytes t) (host_hard_bytes t).

(** ** The blocker *)

Inductive BlockerState := NORMAL | WARN_DRAIN | BLOCKED.
#[export] Instance blocker_state_eq_dec : EqDecision BlockerState.
Proof. solve_decision. Defined.

(** [b_emitted]: the reasons counted so far. *)
Record blocker := Blocker { b_state : BlockerState; b_force : bool; b_emitted : list string }.
Definition new_blocker : blocker := Blocker NORMAL false [].

Definition reason_of (layer : string) : string :=
  if String.eqb layer "NAS_bucket" then "nas_unreachable" else if String.eqb layer "L1_local" then "l1_full" else "wal_full".
Definition emit_blocked (layer : string) (b : blocker) : blocker :=
  Blocker (b_state b) (b_force b) (b_emitted b ++ [reason_of layer]).
Definition set_state (s : BlockerState) (b : blocker) : blocker := Blocker s (b_force b) (b_emitted b).

Section blocker_ops.
Context (thresholds : CapacityThresholds) (hysteresis_gap : double).

Definition unblock : double := fsub (critical_ratio thresholds) hysteresis_gap.
Definition layers_from (t : double) (r : CapacityReport) : list string :=
  (filter (λ l, Is_true (t <=f l.2)) (layer_ratios r)).*1.

(** [should_block] / [_evaluate] *)
Definition should_block (r : CapacityReport) (b : blocker) : blocker * bool :=
  if b_force b then (b, true)
  else match layers_from (critical_ratio thresholds) r with
  | _ :: _ => (foldl (λ b' l, emit_blocked l b') (set_state BLOCKED b) (layers_from (critical_ratio thresholds) r), true)
  | [] =>
      match b_state b with
      | BLOCKED => if unblock <=f max_ratio r then (b, true) else (set_state NORMAL b, false)
      | _ =>
          match layers_from (warn_ratio thresholds) r with
          | _ :: _ => (set_state WARN_DRAIN b, false)
          | [] => (set_state NORMAL b, false)
          end
      end
  end.

Definition on_capacity_warn (b : blocker) : blocker :=
  match b_state b with NORMAL => set_state WARN_DRAIN b | _ => b end.
Definition on_capacity_critical (layer : string) (b : blocker) : blocker :=
  emit_blocked layer (Blocker BLOCKED true (b_emitted b)).
Definition is_blocked (b : blocker) : bool := bool_decide (b_state b = BLOCKED) || b_force b.

(** A use of the blocker, call by call. *)
Inductive blocker_call := CallShouldBlock (r : CapacityReport) | CallWarn | CallCritical (layer : string).
Definition call_blocker (b : blocker) (c : blocker_call) : blocker :=
  match c with
  | CallShouldBlock r => (should_block r b).1
  | CallWarn => on_capacity_warn b
  | CallCritical layer => on_capacity_critical layer b
  end.
Definition calls (cs : list blocker_call) : blocker := foldl call_blocker new_blocker cs.

(** ** Lemmas *)

(** A report that blocks on its own, and one that keeps a block. *)
Definition is_critical (r : CapacityReport) : bool :=
  existsb (λ l, critical_ratio thresholds <=f l.2) (layer_ratios r).
Definition holds_block (r : CapacityReport) : bool := is_critical r || (unblock <=f max_ratio r).
(** A block is latched: a critical report, and since then none that releases. *)
Definition latched (rs : list CapacityReport) : Prop :=
  ∃ l1 c l2, rs = l1 ++ c :: l2 ∧ is_critical c = true ∧ Forall (λ r, holds_block r = true) l2.
Definition reports (cs : list blocker_call) : list CapacityReport :=
  omap (λ c, match c with CallShouldBlock r => Some r | _ => None end) cs.
Definition criticals (cs : list blocker_call) : list string :=
  omap (λ c, match c with CallCritical l => Some l | _ => None end) cs.

Lemma layers_from_critical r :
  is_critical r = match layers_from (critical_ratio thresholds) r with [] => false | _ => true end.
Proof.
  unfold is_critical, layers_from. induction (layer_ratios r) as [|[l x] ls IH]; [done|].
  cbn [existsb snd]. rewrite filter_cons. cbn [snd]. destruct (_ <=f x) eqn:Hx; [by rewrite decide_True|].
  rewrite decide_False; [|auto]. done.
Qed.

Lemma latched_snoc rs r :
  latched (rs ++ [r]) ↔ is_critical r = true ∨ (latched rs ∧ (unblock <=f max_ratio r) = true).
Proof.
  split.
  - intros (l1 & c & l2 & Heq & Hc & Hl2). destruct l2 as [|x l2 _] using rev_ind.
    { apply app_inj_tail in Heq as [_ ->]. by left. }
    rewrite app_comm_cons, app_assoc in Heq. apply app_inj_tail in Heq as [-> ->].
    apply Forall_app in Hl2 as [Hl2 [Hx _]%Forall_cons]. unfold holds_block in Hx.
    destruct (is_critical x); [by left|right]. split; [|done]. by exists l1, c, l2.
  - intros [Hc|[(l1 & c & l2 & -> & Hc & Hl2) Hr]]; [by exists rs, r, []|].
    exists l1, c, (l2 ++ [r]). split_and!; [by rewrite <- app_assoc|done|].
    apply Forall_app. split; [done|]. constructor; [|done]. unfold holds_block. by rewrite Hr, orb_true_r.
Qed.

Lemma foldl_emit_state ls b :
  b_state (foldl (λ b' l, emit_blocked l b') b ls) = b_state b ∧ b_force (foldl (λ b' l, emit_blocked l b') b ls) = b_force b.
Proof. revert b. induction ls as [|l ls IH]; intros b; [done|]. cbn. destruct (IH (emit_blocked l b)) as [-> ->]. done. Qed.

(** One evaluation of a blocker that is not forced. *)
Lemma should_block_step rs r b :
  b_force b = false → (b_state b = BLOCKED ↔ latched rs) →
  b_force (should_block r b).1 = false ∧ (b_state (should_block r b).1 = BLOCKED ↔ latched (rs ++ [r])) ∧
  ((should_block r b).2 = true ↔ latched (rs ++ [r])).
Proof.
  intros Hf Hl. rewrite latched_snoc, <- Hl, layers_from_critical. unfold should_block. rewrite Hf.
  destruct (layers_from (critical_ratio thresholds) r) as [|l ls] eqn:Hls.
  - destruct (b_state b) eqn:Hb; [..|destruct (unblock <=f max_ratio r) eqn:Hu];
      try destruct (layers_from (warn_ratio thresholds) r); cbn; rewrite ?Hf, ?Hb; naive_solver.
  - destruct (foldl_emit_state (l :: ls) (set_state BLOCKED b)) as [H1 H2]. cbn [fst snd]. rewrite H1, H2. cbn.
    naive_solver.
Qed.

Lemma calls_inv cs :
  (b_force (calls cs) = true ↔ criticals cs ≠ []) ∧
  (b_force (calls cs) = false → (b_state (calls cs) = BLOCKED ↔ latched (reports cs))).
Proof.
  induction cs as [|c cs IH] using rev_ind.
  { split; [done|]. intros _. split; [done|]. by intros ([|??] & ? & ? & ? & _). }
  destruct IH as [IHf IHs]. unfold calls, reports, criticals in *. rewrite foldl_app, !omap_app. cbn [foldl].
  set (b := foldl call_blocker new_blocker cs) in *.
  destruct c as [r| |layer]; cbn [omap list_omap call_blocker]; rewrite ?app_nil_r.
  - destruct (b_force b) eqn:Hf.
    + unfold should_block. rewrite Hf. cbn. rewrite Hf. split; [|done]. done.
    + destruct (should_block_step _ r b Hf (IHs eq_refl)) as (-> & Hs & _). split; [done|]. by intros _.
  - unfold on_capacity_warn, set_state. destruct (b_state b) eqn:Hb; cbn; rewrite ?Hb; split; auto.
    intros Hf. specialize (IHs Hf). naive_solver.
  - cbn. split; [|done]. split; [|done]. intros _ Happ%app_nil. naive_solver.
Qed.
End blocker_ops.

(** ** Properties *)

(** The hysteresis of the blocker, for any thresholds and any sequence of
    calls from its creation.  A report is answered with a block exactly if an
    operator forced one earlier, or if some report up to this one reached the
    critical ratio and every later one (this one included) reached it too or
    kept its maximum at or above the unblock ratio.  The state the blocker
    shows afterwards is the answer. *)
Theorem blocker_hysteresis (thresholds : CapacityThresholds) (gap : double) (cs : list blocker_call) (r : CapacityReport) :
  ((should_block thresholds gap r (calls thresholds gap cs)).2 = true ↔
     criticals cs ≠ [] ∨ latched thresholds gap (reports cs ++ [r])) ∧
  is_blocked (calls thresholds gap (cs ++ [CallShouldBlock r])) =
    (should_block thresholds gap r (calls thresholds gap cs)).2.
Proof.
  destruct (calls_inv thresholds gap cs) as [Hf Hs]. unfold calls at 2. rewrite foldl_app. cbn [foldl call_blocker].
  fold (calls thresholds gap cs). set (b := calls thresholds gap cs) in *.
  destruct (b_force b) eqn:Hb.
  - unfold should_block. rewrite Hb. unfold is_blocked. cbn. rewrite Hb, orb_true_r. naive_solver.
  - destruct (should_block_step thresholds gap (reports cs) r b Hb (Hs eq_refl)) as (H1 & H2 & H3). split; [naive_solver|].
    unfold is_blocked. rewrite H1, orb_false_r. apply eq_true_iff_eq. rewrite bool_decide_eq_true. naive_solver.
Qed.

(** The default gap: 0.95 - 0.05 is a double below 0.9. *)
Lemma default_unblock : unblock default_thresholds f0_05 = pos_double 8106479329266892 (-53).
Proof. vm_compute. reflexivity. Qed.

(** A force is never taken back: no operation resets it, so one
    [on_capacity_critical] blocks every later report, empty disks included. *)
Lemma force_is_permanent thresholds gap cs layer r cs' :
  (should_block thresholds gap r (calls thresholds gap (cs ++ CallCritical layer :: cs'))).2 = true.
Proof.
  destruct (calls_inv thresholds gap (cs ++ CallCritical layer :: cs')) as [Hf _].
  unfold should_block. rewrite (proj2 Hf); [done|]. unfold criticals. rewrite omap_app. cbn.
  intros [_ ?]%app_nil. done.
Qed.

(** A store that cannot be listed counts as empty. *)
Lemma unreachable_nas_is_empty pages e : Raise e ∈ pages → probe_nas_bytes pages = 0.
Proof.
  unfold probe_nas_bytes. generalize 0 at 1 as total. induction pages as [|[s|e'] ps IH]; intros total; cbn.
  - by intros ?%elem_of_nil.
  - intros [?|?]%elem_of_cons; [done|]. by apply IH.
  - done.
Qed.
