(* ===== verification/Collector.v ===== *)
(** * The collector daemon ([collector.py])

    One [CollectorDaemon]: a write-ahead log per channel, the capacity check
    before each event, the observers after it, the session of one stream and
    the restart loop of [MultiSymbolCollector].  The stream, the probe's
    measurements and the clocks are arguments; [encode_record] is the codec. *)
From S2P Require Import Prelude PyDict PyDecimal PyFloat Wal IngestBlocker.
Open Scope string_scope.
Open Scope list_scope.
Open Scope Z_scope.

(** ** Events and records *)

(** An event of the stream.  [ev_raw] is what [json.dumps(raw)] answers, if
    [raw] is neither absent nor empty; times are microseconds. *)
Record event := Event {
  ev_kind : string; ev_symbol : string; ev_event_time : Z; ev_received_at : Z;
  ev_price : decimal; ev_quantity : decimal; ev_side : string;
  ev_bids : list (decimal * decimal); ev_asks : list (decimal * decimal);
  ev_changes : list (string * decimal * decimal); ev_raw : option (res string) }.

Inductive value :=
| VNone | VStr (s : string) | VTime (us : Z) | VDec (d : decimal) | VRows (rows : list (list (string * value))).
Notation record := (list (string * value)).

Record daemon_config := DaemonConfig {
  c_exchange : string; c_symbol : string;
  c_transactions : bool; c_orderbook : bool; c_snapshot : bool;
  c_redis : bool; c_heartbeat : bool; c_coverage : bool;
  c_wal : wal_config; c_thresholds : CapacityThresholds; c_gap : double; c_has_probe : bool }.

(** [d_published]: what was handed to Redis; [d_tier_ts], [d_coverage]: the
    heartbeat's last event times and the coverage's row counts and last times. *)
Record daemon := Daemon {
  d_ingesters : dict string wal; d_blocker : option blocker;
  d_published : list (string * record); d_tier_ts : gmap string Z; d_coverage : gmap (string * string) (Z * Z) }.

Definition set_ingesters (i : dict string wal) (d : daemon) : daemon :=
  Daemon i (d_blocker d) (d_published d) (d_tier_ts d) (d_coverage d).
Definition set_blocker (b : blocker) (d : daemon) : daemon :=
  Daemon (d_ingesters d) (Some b) (d_published d) (d_tier_ts d) (d_coverage d).

Section collector.
Context (encode_record : record → res string) (cfg : daemon_config).

(** [json.dumps(raw) if raw else None] *)
Definition raw_json (ev : event) : res value :=
  match ev_raw ev with None => Ok VNone | Some r => rbind r (λ s, Ok (VStr s)) end.
Definition levels (l : list (decimal * decimal)) : value :=
  VRows ((λ x, [("price", VDec x.1); ("quantity", VDec x.2)]) <$> l).
Definition header (ev : event) : record :=
  [("ts_utc", VTime (ev_event_time ev)); ("received_at", VTime (ev_received_at ev));
   ("exchange", VStr (c_exchange cfg)); ("symbol", VStr (c_symbol cfg))].
Definition with_raw (ev : event) (channel : string) (body : record) : res record :=
  rbind (raw_json ev) (λ raw, Ok (header ev ++ body ++ [("raw_json", raw); ("channel", VStr channel)])).

Definition transaction_record (ev : event) : res record :=
  with_raw ev "transaction" [("price", VDec (ev_price ev)); ("quantity", VDec (ev_quantity ev)); ("side", VStr (ev_side ev))].
Definition snapshot_record (ev : event) : res record :=
  with_raw ev "orderbooksnapshot" [("bids", levels (ev_bids ev)); ("asks", levels (ev_asks ev))].
Definition depth_record (ev : event) : res record :=
  with_raw ev "orderbookdepth"
    [("changes", VRows ((λ x, [("side", VStr x.1.1); ("price", VDec x.1.2); ("quantity", VDec x.2)]) <$> ev_changes ev))].

(** ** Observers *)

Definition publish (key : string) (r : record) (d : daemon) : daemon :=
  if c_redis cfg then Daemon (d_ingesters d) (d_blocker d) (d_published d ++ [(key, r)]) (d_tier_ts d) (d_coverage d) else d.
Definition update_tier_event_ts (tier : string) (ts : Z) (d : daemon) : daemon :=
  if c_heartbeat cfg
  then Daemon (d_ingesters d) (d_blocker d) (d_published d) (<[tier := ts]> (d_tier_ts d)) (d_coverage d) else d.
Definition record_event (tier : string) (ts : Z) (d : daemon) : daemon :=
  if c_coverage cfg then
    let n := match d_coverage d !! (c_symbol cfg, tier) with Some (n, _) => n | None => 0 end in
    Daemon (d_ingesters d) (d_blocker d) (d_published d) (d_tier_ts d) (<[(c_symbol cfg, tier) := (n + 1, ts)]> (d_coverage d))
  else d.

(** ** One event *)

(** The report used without a probe. *)
Definition dummy_report : CapacityReport := Report 0 0 0 0 (30 * gib) (20 * gib) (1024 * gib) (200 * gib).
(** [probe]: what [probe_once] answers; an error lets the event through. *)
Definition check_blocker (probe : res CapacityReport) (d : daemon) : daemon * bool :=
  match d_blocker d with
  | None => (d, false)
  | Some b =>
      match (if c_has_probe cfg then probe else Ok dummy_report) with
      | Ok r => let '(b', blocked) := should_block (c_thresholds cfg) (c_gap cfg) r b in (set_blocker b' d, blocked)
      | Raise _ => (d, false)
      end
  end.

(** The body of one branch: append, then the observers. *)
Definition store (channel : string) (rec : res record) (c : clocks) (after : record → daemon → daemon) : proc daemon unit := λ d,
  match dget (d_ingesters d) channel with
  | None => (d, Ok tt)
  | Some w =>
      match rec with
      | Raise e => (d, Raise e)
      | Ok r =>
          let '(w', a) := append encode_record (c_wal cfg) c r w in
          let d1 := set_ingesters (dset (d_ingesters d) channel w') d in
          match a with Ok _ => (after r d1, Ok tt) | Raise e => (d1, Raise e) end
      end
  end.

Definition after_transaction (ev : event) (r : record) (d : daemon) : daemon :=
  record_event "tick" (ev_event_time ev) (update_tier_event_ts "tick" (ev_event_time ev)
    (publish ("mctrader:stream:transaction:" +:+ c_exchange cfg +:+ ":" +:+ ev_symbol ev) r d)).
Definition after_snapshot (ev : event) (r : record) (d : daemon) : daemon :=
  record_event "orderbook" (ev_received_at ev) (update_tier_event_ts "orderbook_snapshot" (ev_received_at ev)
    (publish ("mctrader:ob:" +:+ c_exchange cfg +:+ ":" +:+ ev_symbol ev) r d)).
Definition after_depth (ev : event) (r : record) (d : daemon) : daemon :=
  record_event "orderbook" (ev_event_time ev)
    (match ev_changes ev with [] => d | _ => update_tier_event_ts "orderbook" (ev_event_time ev) d end).

(** An event as it arrives: whether the cancel event is set by then, the
    probe's answer and the clocks of the append. *)
Record item := Item { it_event : event; it_cancelled : bool; it_probe : res CapacityReport; it_clocks : clocks }.

(** [_emit_to_wal] *)
Definition emit_to_wal (it : item) : proc daemon unit := λ d,
  let ev := it_event it in
  let '(d1, blocked) := check_blocker (it_probe it) d in
  if blocked then (d1, Ok tt)
  else if String.eqb (ev_kind ev) "transaction"
    then store "transaction" (transaction_record ev) (it_clocks it) (after_transaction ev) d1
  else if String.eqb (ev_kind ev) "orderbook_snapshot"
    then store "orderbooksnapshot" (snapshot_record ev) (it_clocks it) (after_snapshot ev) d1
  else if String.eqb (ev_kind ev) "orderbook_delta"
    then store "orderbookdepth" (depth_record ev) (it_clocks it) (after_depth ev) d1
  else (d1, Ok tt).

(** ** Sessions *)

(** [_build_ingesters] over the files of each channel. *)
Definition build_ingesters (fs : string → wal_fs) (c : string → clocks) : dict string wal :=
  let open ch := (ch, open_ingester (c_wal cfg) (fs ch) (c ch)) in
  (if c_transactions cfg then [open "transaction"] else []) ++
  (if c_orderbook cfg && String.eqb (c_exchange cfg) "bithumb" then [open "orderbookdepth"] else []) ++
  (if c_snapshot cfg then [open "orderbooksnapshot"] else []).
Definition new_daemon (fs : string → wal_fs) (c : string → clocks) (b : option blocker) : daemon :=
  Daemon (build_ingesters fs c) b [] ∅ ∅.

(** The files of the ingesters. *)
Definition files_of (i : dict string wal) (ch : string) : wal_fs :=
  match dget i ch with Some w => w_files w | None => ∅ end.
Definition reopen (c : string → clocks) (d : daemon) : daemon :=
  if existsb (λ x, ig_closed (w_ig x.2)) (d_ingesters d)
  then set_ingesters (build_ingesters (files_of (d_ingesters d)) c) d else d.
Definition close_all (d : daemon) : daemon :=
  set_ingesters ((λ x, (x.1, (close x.2).1)) <$> d_ingesters d) d.

(** One stream: does [get_ws_stream] answer, what arrives, how it ends. *)
Record session := Session { s_open : res unit; s_items : list item; s_end : res unit }.

(** [async for event in stream.messages()] *)
Fixpoint consume (items : list item) (ending : res unit) : proc daemon unit := λ d,
  match items with
  | [] => (d, ending)
  | it :: its => if it_cancelled it then (d, Ok tt) else pbind (emit_to_wal it) (λ _, consume its ending) d
  end.

(** [run] *)
Definition run (c : string → clocks) (s : session) : proc daemon unit := λ d,
  let d1 := reopen c d in
  match s_open s with
  | Raise e => (d1, Raise e)
  | Ok _ => let '(d2, r) := consume (s_items s) (s_end s) d1 in (close_all d2, r)
  end.

Definition RESTART_BACKOFF : list Z := [5; 30; 120].
Definition CancelledError : exn := OtherException "CancelledError".
Definition restart_delay (attempt : nat) : Z := List.nth (Nat.min attempt (length RESTART_BACKOFF - 1)) RESTART_BACKOFF 0.

(** [_run_with_restart] over the sessions the exchange offers: the daemon, the
    delays slept, and the answer once it returns. *)
Fixpoint run_with_restart (attempt : nat) (sessions : list ((string → clocks) * session)) (d : daemon)
    : daemon * list Z * option (res unit) :=
  match sessions with
  | [] => (d, [], None)
  | (c, s) :: rest =>
      match run c s d with
      | (d', Ok _) => (d', [], Some (Ok tt))
      | (d', Raise (OtherException "CancelledError")) => (d', [], Some (Raise CancelledError))
      | (d', Raise _) =>
          let '(d'', delays, r) := run_with_restart (S attempt) rest d' in (d'', restart_delay attempt :: delays, r)
      end
  end.
End collector.

(** ** Lemmas *)

Section collector_lemmas.
Context (encode_record : record → res string) (cfg : daemon_config).
Context (fs0 : string → wal_fs) (start : string → Z).
#[local] Notation w_inv ch := (wal_inv (c_wal cfg) (fs0 ch) (start ch)).

(** The channel an event belongs to, its record and its line there. *)
Definition channel_of (ev : event) : option string :=
  if String.eqb (ev_kind ev) "transaction" then Some "transaction"
  else if String.eqb (ev_kind ev) "orderbook_snapshot" then Some "orderbooksnapshot"
  else if String.eqb (ev_kind ev) "orderbook_delta" then Some "orderbookdepth"
  else None.
Definition record_of (ev : event) : res record :=
  if String.eqb (ev_kind ev) "transaction" then transaction_record cfg ev
  else if String.eqb (ev_kind ev) "orderbook_snapshot" then snapshot_record cfg ev
  else depth_record cfg ev.
Definition line_of (ch : string) (it : item) : option string :=
  if bool_decide (channel_of (it_event it) = Some ch) then
    match rbind (record_of (it_event it)) encode_record with Ok l => Some l | Raise _ => None end
  else None.

(** The items the blocker lets through. *)
Fixpoint admitted (d : daemon) (items : list item) : list item :=
  match items with
  | [] => []
  | it :: its =>
      let '(d1, blocked) := check_blocker cfg (it_probe it) d in
      if blocked then admitted d1 its else it :: admitted d1 its
  end.

Definition logs_inv (log : string → list string) (i : dict string wal) : Prop :=
  ∀ ch w, dget i ch = Some w → w_inv ch (log ch) w.
Definition extend (log : string → list string) (ch : string) (l : list string) : string → list string :=
  λ ch', if bool_decide (ch = ch') then log ch' ++ l else log ch'.

(** The blocker check leaves the logs, and depends on the blocker only. *)
Lemma check_blocker_ingesters probe d : d_ingesters (check_blocker cfg probe d).1 = d_ingesters d.
Proof. unfold check_blocker. repeat case_match; done. Qed.

Lemma admitted_blocker d d' items : d_blocker d = d_blocker d' → admitted d items = admitted d' items.
Proof.
  revert d d'. induction items as [|it its IH]; intros d d' Heq; [done|]. cbn. unfold check_blocker. rewrite Heq.
  destruct (d_blocker d') as [b|] eqn:Hd'; [|by rewrite (IH d d') by congruence].
  destruct (if c_has_probe cfg then it_probe it else _) as [r|e]; [|by rewrite (IH d d') by congruence].
  destruct (should_block _ _ r b) as [b' []]; rewrite (IH (set_blocker b' d) (set_blocker b' d')); done.
Qed.

Lemma logs_inv_dset log i ch w l w' :
  dget i ch = Some w → logs_inv log i → w_inv ch (log ch ++ l) w' → logs_inv (extend log ch l) (dset i ch w').
Proof.
  intros Hw Hinv Hw' ch' v. unfold extend. case_bool_decide as Hd; [subst ch'|].
  - rewrite dget_dset_eq. by intros [= <-].
  - rewrite dget_dset_ne by done. apply Hinv.
Qed.

(** What an observer may do. *)
Definition observer (f : daemon → daemon) : Prop :=
  ∀ d, d_ingesters (f d) = d_ingesters d ∧ d_blocker (f d) = d_blocker d.

Lemma publish_observer key r : observer (publish cfg key r).
Proof. intros d. unfold publish. by case_match. Qed.
Lemma tier_observer tier ts : observer (update_tier_event_ts cfg tier ts).
Proof. intros d. unfold update_tier_event_ts. by case_match. Qed.
Lemma coverage_observer tier ts : observer (record_event cfg tier ts).
Proof. intros d. unfold record_event. by case_match. Qed.
Lemma observer_comp f g : observer f → observer g → observer (λ d, f (g d)).
Proof. intros Hf Hg d. destruct (Hf (g d)) as [-> ->]. apply Hg. Qed.

Lemma after_observers ev r :
  observer (after_transaction cfg ev r) ∧ observer (after_snapshot cfg ev r) ∧ observer (after_depth cfg ev r).
Proof.
  split_and!.
  - apply (observer_comp (record_event _ _ _)); [apply coverage_observer|].
    apply (observer_comp (update_tier_event_ts _ _ _)); [apply tier_observer|apply publish_observer].
  - apply (observer_comp (record_event _ _ _)); [apply coverage_observer|].
    apply (observer_comp (update_tier_event_ts _ _ _)); [apply tier_observer|apply publish_observer].
  - intros d. unfold after_depth. destruct (coverage_observer "orderbook" (ev_event_time ev)
      (match ev_changes ev with [] => d | _ => update_tier_event_ts cfg "orderbook" (ev_event_time ev) d end)) as [-> ->].
    case_match; [done|apply tier_observer].
Qed.

(** One branch: on success the line is in the log, else the log is as it was. *)
Lemma store_inv ch rec c after log d d' r :
  fsync_batch (c_wal cfg) ≠ 0 → logs_inv log (d_ingesters d) → (∀ x, observer (after x)) →
  store encode_record cfg ch rec c after d = (d', r) →
  dkeys (d_ingesters d') = dkeys (d_ingesters d) ∧ d_blocker d' = d_blocker d ∧
  match r with
  | Ok _ => ∃ l, (ch ∈ dkeys (d_ingesters d) → rbind rec encode_record = Ok l) ∧
                 logs_inv (extend log ch [l]) (d_ingesters d')
  | Raise _ => logs_inv log (d_ingesters d')
  end.
Proof.
  intros Hb Hinv Hobs. unfold store. destruct (dget (d_ingesters d) ch) as [w|] eqn:Hw.
  2:{ intros [= <- <-]. split_and!; [done..|]. exists "". split; [intros Hin; by apply dget_None in Hw|].
      intros ch' v Hv. unfold extend. rewrite bool_decide_eq_false_2; [by apply Hinv|]. intros ->. congruence. }
  destruct rec as [rc|e]; [|by intros [= <- <-]].
  destruct (append encode_record (c_wal cfg) c rc w) as [w' a] eqn:Ha.
  pose proof (run_ops_inv encode_record (c_wal cfg) (fs0 ch) (start ch) [OpAppend c rc] w w' (log ch) (accepted encode_record rc a)
    Hb (Hinv _ _ Hw)) as Hinv'.
  cbn [run_ops run_op] in Hinv'. rewrite Ha in Hinv'. specialize (Hinv' ltac:(by rewrite app_nil_r)).
  apply (logs_inv_dset _ _ _ _ _ _ Hw Hinv) in Hinv'.
  assert (dkeys (dset (d_ingesters d) ch w') = dkeys (d_ingesters d)) as Hk.
  { apply dkeys_dset_mem, dget_is_Some. eauto. }
  destruct a as [[]|e]; intros [= <- <-].
  - destruct (Hobs rc (set_ingesters (dset (d_ingesters d) ch w') d)) as [-> ->]. cbn. split_and!; [done..|].
    destruct (encode_record rc) as [l|e] eqn:He; unfold accepted in Hinv'; rewrite He in Hinv'; [by exists l|].
    exfalso. unfold append, pbind, append_line in Ha. rewrite He in Ha. repeat case_match; simplify_eq.
  - cbn. split_and!; [done..|]. intros ch' v Hv. specialize (Hinv' ch' v Hv). unfold extend, accepted in Hinv'.
    rewrite app_nil_r in Hinv'. by case_bool_decide.
Qed.

Lemma logs_inv_ext log log' i : (∀ ch, ch ∈ dkeys i → log ch = log' ch) → logs_inv log i → logs_inv log' i.
Proof. intros Heq Hinv ch w Hw. rewrite <- Heq; [by apply Hinv|]. apply dget_is_Some. eauto. Qed.

(** What [emit_to_wal] promises about the channels [keys]. *)
Definition emitted (keys : list string) (log : string → list string) (its : list item) (d : daemon) : Prop :=
  dkeys (d_ingesters d) = keys ∧
  logs_inv (λ ch, log ch ++ omap (line_of ch) its) (d_ingesters d) ∧
  ∀ it ch, it ∈ its → ch ∈ keys → channel_of (it_event it) = Some ch → is_Some (line_of ch it).

Lemma emitted_nil keys log d : dkeys (d_ingesters d) = keys → logs_inv log (d_ingesters d) → emitted keys log [] d.
Proof.
  intros Hk Hinv. split_and!; [done| |by intros ? ? ?%elem_of_nil].
  eapply logs_inv_ext; [|exact Hinv]. intros. cbn. by rewrite app_nil_r.
Qed.

(** One branch of the dispatch on the kind. *)
Lemma store_emitted it ch rec after log d d' r :
  fsync_batch (c_wal cfg) ≠ 0 → logs_inv log (d_ingesters d) → (∀ x, observer (after x)) →
  channel_of (it_event it) = Some ch → record_of (it_event it) = rec →
  store encode_record cfg ch rec (it_clocks it) after d = (d', r) →
  d_blocker d' = d_blocker d ∧ emitted (dkeys (d_ingesters d)) log (match r with Ok _ => [it] | Raise _ => [] end) d'.
Proof.
  intros Hb Hinv Hobs Hch Hrec Hst. destruct (store_inv _ _ _ _ _ _ _ _ Hb Hinv Hobs Hst) as (Hk & -> & Hr).
  split; [done|]. destruct r as [[]|e]; [|by apply emitted_nil]. destruct Hr as (l & Hl & Hlog).
  assert (ch ∈ dkeys (d_ingesters d) → line_of ch it = Some l) as Hline.
  { intros Hin. unfold line_of. by rewrite bool_decide_eq_true_2, Hrec, (Hl Hin). }
  split_and!; [done| |].
  - eapply logs_inv_ext; [|exact Hlog]. intros ch' Hin. rewrite Hk in Hin. cbn. unfold extend.
    case_bool_decide as Hd; [subst ch'; by rewrite (Hline Hin)|].
    unfold line_of. rewrite Hch. rewrite bool_decide_eq_false_2 by congruence. by rewrite app_nil_r.
  - intros it' ch' ->%list_elem_of_singleton Hin Hc. rewrite Hch in Hc. injection Hc as <-. eauto.
Qed.

Lemma emit_inv it log d d' r :
  fsync_batch (c_wal cfg) ≠ 0 → logs_inv log (d_ingesters d) → emit_to_wal encode_record cfg it d = (d', r) →
  let '(d1, blocked) := check_blocker cfg (it_probe it) d in
  d_blocker d' = d_blocker d1 ∧
  emitted (dkeys (d_ingesters d)) log (match r with Ok _ => if blocked then [] else [it] | Raise _ => [] end) d'.
Proof.
  intros Hb Hinv. unfold emit_to_wal. pose proof (check_blocker_ingesters (it_probe it) d) as Hi.
  destruct (check_blocker cfg (it_probe it) d) as [d1 blocked]. cbn in Hi. rewrite <- Hi in Hinv |- *.
  destruct blocked; [intros [= <- <-]; split; [done|by apply emitted_nil]|].
  pose proof (store_emitted it) as Hst. unfold channel_of, record_of in Hst.
  destruct (String.eqb _ "transaction") eqn:H1; [intros H; eapply Hst in H; eauto; intros; apply after_observers|].
  destruct (String.eqb _ "orderbook_snapshot") eqn:H2; [intros H; eapply Hst in H; eauto; intros; apply after_observers|].
  destruct (String.eqb _ "orderbook_delta") eqn:H3; [intros H; eapply Hst in H; eauto; intros; apply after_observers|].
  assert (channel_of (it_event it) = None) as Hnone by (unfold channel_of; by rewrite H1, H2, H3).
  intros [= <- <-]. split; [done|]. split_and!; [done| |].
  - eapply logs_inv_ext; [|exact Hinv]. intros ch _. cbn. unfold line_of. rewrite Hnone. by rewrite app_nil_r.
  - intros it' ch ->%list_elem_of_singleton _ Hc. congruence.
Qed.

Lemma emitted_app keys log a b d :
  emitted keys (λ ch, log ch ++ omap (line_of ch) a) b d →
  (∀ it ch, it ∈ a → ch ∈ keys → channel_of (it_event it) = Some ch → is_Some (line_of ch it)) →
  emitted keys log (a ++ b) d.
Proof.
  intros (Hk & Hlog & Hb) Ha. split_and!; [done| |].
  - eapply logs_inv_ext; [|exact Hlog]. intros ch _. cbn. by rewrite omap_app, app_assoc.
  - intros it ch [?|?]%elem_of_app; [by apply Ha|by apply Hb].
Qed.

(** The loop stores what the blocker admits of a prefix; the prefix ends at a
    raise, at the first item that finds the cancel event, or at the end. *)
Lemma consume_inv items ending log d d' r :
  fsync_batch (c_wal cfg) ≠ 0 → logs_inv log (d_ingesters d) →
  consume encode_record cfg items ending d = (d', r) →
  ∃ n, (n <= length items)%nat ∧ emitted (dkeys (d_ingesters d)) log (admitted d (take n items)) d' ∧
    Forall (λ it, it_cancelled it = false) (take n items) ∧
    (r = Ok tt → n = length items ∨ ∃ it, items !! n = Some it ∧ it_cancelled it = true).
Proof.
  intros Hb. revert log d. induction items as [|it its IH]; intros log d Hinv.
  { cbn. intros [= <- <-]. exists 0%nat. split_and!; [done|by apply emitted_nil|constructor|auto]. }
  cbn [consume]. destruct (it_cancelled it) eqn:Hc.
  { intros [= <- <-]. exists 0%nat. split_and!; [lia|by apply emitted_nil|constructor|]. intros _. right. by exists it. }
  unfold pbind. destruct (emit_to_wal encode_record cfg it d) as [d1 r1] eqn:He.
  pose proof (emit_inv it log d d1 r1 Hb Hinv He) as Hem.
  destruct (check_blocker cfg (it_probe it) d) as [dc blocked] eqn:Hcb. destruct Hem as [Hbl Hem].
  destruct r1 as [[]|e].
  - intros Hcons. pose proof Hem as (Hk & Hlog & Ha). destruct (IH _ _ Hlog Hcons) as (n & Hn & Hem' & Hf & Hr).
    exists (S n). cbn [length take admitted]. rewrite Hcb. rewrite Hk in Hem'. split_and!; [lia| |by constructor|].
    + apply emitted_app in Hem'; [|done]. rewrite <- (admitted_blocker _ _ _ Hbl). by destruct blocked.
    + intros Hok. destruct (Hr Hok) as [->|?]; auto.
  - intros [= <- <-]. exists 0%nat. split_and!; [lia|done|constructor|done].
Qed.

(** Closing seals every channel and keeps its log. *)
Lemma close_inv ch log w :
  fsync_batch (c_wal cfg) ≠ 0 → w_inv ch log w → ∃ segs, closed_inv (fs0 ch) (start ch) segs log (close w).1.
Proof.
  intros Hb Hinv. destruct (close w) as [w' r] eqn:Hcl.
  pose proof (run_ops_inv encode_record (c_wal cfg) (fs0 ch) (start ch) [OpClose] w w' log [] Hb Hinv) as H.
  cbn [run_ops run_op] in H. rewrite Hcl in H. specialize (H eq_refl). rewrite app_nil_r in H.
  destruct H as [(segs & j & f & H)|H]; [|done]. exfalso. destruct (oi_ig _ _ _ _ _ _ _ _ H) as (_ & _ & Hopen).
  unfold close in Hcl. destruct (ig_closed (w_ig w)) eqn:Hw; injection Hcl as <- _; [congruence|discriminate].
Qed.

Lemma dget_close_all (d : daemon) ch w :
  dget (d_ingesters d) ch = Some w → dget (d_ingesters (close_all d)) ch = Some (close w).1.
Proof.
  unfold close_all. cbn. induction (d_ingesters d) as [|[k v] i IH]; cbn; [done|].
  case_decide; [by intros [= ->]|done].
Qed.
End collector_lemmas.

Lemma build_ingesters_open cfg fs c ch w :
  dget (build_ingesters cfg fs c) ch = Some w → w = open_ingester (c_wal cfg) (fs ch) (c ch).
Proof.
  intros (k & Hk)%dget_Some_elem%list_elem_of_lookup. apply list_elem_of_lookup_2 in Hk. revert Hk.
  unfold build_ingesters. destruct (c_transactions cfg), (c_orderbook cfg && _), (c_snapshot cfg); cbn [app];
    rewrite ?elem_of_cons, ?elem_of_nil; naive_solver.
Qed.

Lemma reopen_new cfg fs c b : reopen cfg c (new_daemon cfg fs c b) = new_daemon cfg fs c b.
Proof.
  unfold reopen, new_daemon, build_ingesters. cbn [d_ingesters].
  destruct (c_transactions cfg), (c_orderbook cfg && _), (c_snapshot cfg); reflexivity.
Qed.


(** Lines of the items of a channel, none missing. *)
Lemma line_of_all encode_record cfg ch (its : list item) :
  (∀ it, it ∈ its → channel_of (it_event it) = Some ch → is_Some (line_of encode_record cfg ch it)) →
  Some <$> omap (line_of encode_record cfg ch) its =
  line_of encode_record cfg ch <$> filter (λ it, channel_of (it_event it) = Some ch) its.
Proof.
  induction its as [|it its IH]; intros Hall; [done|]. cbn [omap list_omap]. rewrite filter_cons.
  specialize (IH (λ it' Hin, Hall it' (list_elem_of_further _ _ _ Hin))).
  case_decide as Hc.
  - destruct (Hall it (list_elem_of_here _ _) Hc) as [l Hl]. rewrite Hl. rewrite !fmap_cons, Hl. f_equal. exact IH.
  - unfold line_of at 1. rewrite bool_decide_eq_false_2 by done. exact IH.
Qed.

(** ** Properties *)

(** C5. A session loses no event it takes.  A daemon opened where no segment
    of its buckets or later ones exists runs one stream: there is a prefix of
    the stream (all of it, or up to the cancel event, unless the session
    raised) such that afterwards every channel is sealed and its segments hold,
    in order, exactly the lines of the events of that channel which the
    capacity check let through; none of them failed to be encoded.  A blocked
    event leaves no line, and an event whose append raised ends the prefix. *)
Theorem session_stores_prefix (encode_record : record → res string) (cfg : daemon_config) (fs : string → wal_fs)
    (c : string → clocks) (b : option blocker) (s : session) (d' : daemon) (r : res unit) :
  let start ch := segment_index (ck_wall (c ch)) (segment_seconds (c_wal cfg)) in
  let d := new_daemon cfg fs c b in
  fsync_batch (c_wal cfg) ≠ 0 →
  (∀ ch i, start ch <= i → fs ch !! Active i = None ∧ fs ch !! Sealed i = None) →
  s_open s = Ok tt →
  run encode_record cfg c s d = (d', r) →
  ∃ n, (n <= length (s_items s))%nat ∧ Forall (λ it, it_cancelled it = false) (take n (s_items s)) ∧
    (r = Ok tt → n = length (s_items s) ∨ ∃ it, s_items s !! n = Some it ∧ it_cancelled it = true) ∧
    ∀ ch, ch ∈ dkeys (d_ingesters d) →
      let stored := filter (λ it, channel_of (it_event it) = Some ch) (admitted cfg d (take n (s_items s))) in
      ∃ w sealed, dget (d_ingesters d') ch = Some w ∧ StronglySorted Z.lt sealed ∧
        (∀ i, start ch <= i → (i ∈ sealed ↔ is_Some (w_files w !! Sealed i)) ∧ w_files w !! Active i = None) ∧
        Some <$> concat ((λ i, lines_of (w_files w) (Sealed i)) <$> sealed) = line_of encode_record cfg ch <$> stored.
Proof.
  intros start d Hb Hfresh Hopen Hrun. unfold run in Hrun. rewrite Hopen in Hrun. unfold d in Hrun. rewrite reopen_new in Hrun.
  fold d in Hrun. destruct (consume encode_record cfg (s_items s) (s_end s) d) as [d2 r2] eqn:Hc.
  injection Hrun as <- <-.
  assert (logs_inv cfg fs start (λ _, []) (d_ingesters d)) as Hinit.
  { intros ch w ->%build_ingesters_open. left. exists [], (start ch), (WalFile [] 0). apply open_ingester_inv; [done|by apply Hfresh]. }
  destruct (consume_inv _ _ _ _ _ _ _ _ _ _ Hb Hinit Hc) as (n & Hn & (Hk & Hlog & Hall) & Hf & Hr).
  exists n. split_and!; [done..|]. intros ch Hch stored.
  rewrite <- Hk in Hch. apply dget_is_Some in Hch as [w Hw]. specialize (Hlog ch w Hw).
  destruct (close_inv encode_record cfg fs start ch _ w Hb Hlog) as [segs [Hs _ Hsort Hact Hsegs]].
  destruct (sealed_inv_files _ _ _ _ Hs) as (H1 & H2 & _).
  exists (close w).1, segs.*1. split_and!; [by apply dget_close_all|done|intros i Hi; split; [by apply H1|by apply Hact]|].
  rewrite H2, <- Hsegs. cbn. apply line_of_all. intros it Hit Hchan. apply Hall; [done| |done].
  rewrite <- Hk. apply dget_is_Some. eauto.
Qed.

(** A trade, and a codec that writes the side of a trade. *)
Definition example_trade (side : string) : event :=
  Event "transaction" "KRW-BTC" 0 0 (Dec 100 0) (Dec 1 0) side [] [] [] None.
Definition side_codec (r : record) : res string :=
  Ok (match List.nth 6 r ("", VNone) with (_, VStr s) => s | _ => "" end).
Definition example_config : daemon_config :=
  DaemonConfig "bithumb" "KRW-BTC" true true true true true true example_wal_config default_thresholds f0_05 true.
Definition small_report : CapacityReport := Report 1 1 1 1 (30 * gib) (20 * gib) (1024 * gib) (200 * gib).
Definition full_report : CapacityReport := Report (29 * gib) 1 1 1 (30 * gib) (20 * gib) (1024 * gib) (200 * gib).
Definition trade_item (side : string) (sec : Z) (probe : res CapacityReport) : item :=
  Item (example_trade side) false probe (at_second sec).
(** Two trades, with a full log between them. *)
Definition example_session : session :=
  Session (Ok tt) [trade_item "bid" 1 (Ok small_report); trade_item "lost" 2 (Ok full_report);
                   trade_item "ask" 3 (Ok small_report)] (Ok tt).
Definition example_daemon : daemon := new_daemon example_config (λ _, ∅) (λ _, at_second 0) (Some new_blocker).
Definition example_run : daemon * res unit := run side_codec example_config (λ _, at_second 0) example_session example_daemon.

Lemma session_stores_prefix_witness :
  ∃ w sealed, dget (d_ingesters example_run.1) "transaction" = Some w ∧
    concat ((λ i, lines_of (w_files w) (Sealed i)) <$> sealed) = ["bid"; "ask"].
Proof.
  destruct (session_stores_prefix side_codec example_config (λ _, ∅) (λ _, at_second 0) (Some new_blocker) example_session
    example_run.1 example_run.2) as (n & _ & _ & Hr & Hch).
  - discriminate.
  - intros ch i _. by rewrite !lookup_empty.
  - reflexivity.
  - unfold example_run, example_daemon. apply surjective_pairing.
  - assert (n = 3%nat) as ->.
    { destruct Hr as [->|(it & Hit & Hc)]; [vm_compute; reflexivity|reflexivity|].
      destruct n as [|[|[|n]]]; cbn in Hit; simplify_eq; discriminate. }
    destruct (Hch "transaction" (list_elem_of_here "transaction" ["orderbookdepth"; "orderbooksnapshot"])) as (w & sealed & Hw & _ & _ & Hl).
    exists w, sealed. split; [exact Hw|]. apply (inj (fmap Some)). rewrite Hl. vm_compute. reflexivity.
Defined.

(** A stream error loses stored events.  The restart loop waits five
    seconds and opens the channels again in the same five-minute bucket; when
    the new session is closed its segment replaces the sealed one.  Both
    trades were accepted, fsynced and published, the log keeps the second. *)
Theorem stream_error_loses_stored_events :
  let sessions := [(λ _ : string, at_second 0, Session (Ok tt) [trade_item "bid" 1 (Ok small_report)] (Raise OSErrorOther));
                   (λ _ : string, at_second 10, Session (Ok tt) [trade_item "ask" 11 (Ok small_report)] (Ok tt))] in
  let '(d, delays, answer) := run_with_restart side_codec example_config 0 sessions example_daemon in
  delays = [5] ∧ answer = Some (Ok tt) ∧ length (d_published d) = 2%nat ∧
  lines_of (files_of (d_ingesters d) "transaction") (Sealed 0) = ["ask"] ∧
  (∀ i, i ≠ 0 → files_of (d_ingesters d) "transaction" !! Sealed i = None) ∧
  (∀ i, files_of (d_ingesters d) "transaction" !! Active i = None).
Proof.
  intros sessions.
  assert (∃ d, run_with_restart side_codec example_config 0 sessions example_daemon = (d, [5], Some (Ok tt)) ∧
    length (d_published d) = 2%nat ∧
    files_of (d_ingesters d) "transaction" = {[Sealed 0 := WalFile ["ask"] 1]}) as (d & -> & Hp & Hf).
  { eexists. split; [vm_compute; reflexivity|]. split; vm_compute; reflexivity. }
  rewrite Hf. split_and!; [done..| |].
  - intros i Hi. by rewrite lookup_singleton_ne by congruence.
  - intros i. by rewrite lookup_singleton_ne by congruence.
Qed.

(** A full buffer ends the session: nothing in the daemon flushes it. *)
Lemma buffer_overflow_ends_session :
  let cfg := DaemonConfig "bithumb" "KRW-BTC" true true true true true true (WalConfig 1 300 None (Some 100) (Some 1))
               default_thresholds f0_05 true in
  (run side_codec cfg (λ _, at_second 0)
    (Session (Ok tt) [trade_item "bid" 1 (Ok small_report); trade_item "ask" 2 (Ok small_report)] (Ok tt))
    (new_daemon cfg (λ _, ∅) (λ _, at_second 0) None)).2 = Raise WalBufferOverflowError.
Proof. vm_compute. reflexivity. Qed.
