(* ===== verification/Rekey.v ===== *)
(** * The migration of object keys ([nas_migration/rekey.py])

    The one-off move of the objects under [l1/] to flat keys: copy, verify by
    HEAD, delete, driven by a manifest that is saved after every transition
    and by a sentinel per partition.  The state is the store, the manifest in
    memory and on disk, the sentinels and a script of I/O faults: each save of
    the manifest and each sentinel consumes one entry and raises if it is
    [true], so that a run may die at every durable step.  Audit timestamps,
    counters of Prometheus and log lines are left out. *)
From S2P Require Import Prelude PyDict Hoare PyFloat ObjectStore NasUploader NasKey Wal Invariants.
Open Scope string_scope.
Open Scope list_scope.
Open Scope Z_scope.

(** ** Manifest entries *)

Inductive rk_status :=
| pending | copying | rk_copied | verifying | verified | deleting | deleted | done | failed | legacy_no_sha256 | rolled_back.
#[export] Instance rk_status_eq_dec : EqDecision rk_status.
Proof. solve_decision. Defined.

Definition mid_flight (s : rk_status) : bool :=
  match s with pending | copying | rk_copied | verifying | verified | deleting => true | _ => false end.

(** The dictionary key is the [partition_id]. *)
Record PartitionEntry := Entry {
  e_old_key : string; e_new_key : string; e_status : rk_status;
  e_old_etag : string; e_old_sha256 : option string; e_old_content_length : Z; e_old_version_id : option string;
  e_new_etag : string; e_new_sha256 : option string; e_new_content_length : Z; e_new_version_id : option string;
  e_pre_delete_version_id : option string; e_retry_count : Z; e_error_message : option string }.
Notation manifest := (dict string PartitionEntry).

Definition new_entry (old_key new_key : string) : PartitionEntry :=
  Entry old_key new_key pending "" None 0 None "" None 0 None None 0 None.
Definition set_status (s : rk_status) (e : PartitionEntry) : PartitionEntry :=
  Entry (e_old_key e) (e_new_key e) s (e_old_etag e) (e_old_sha256 e) (e_old_content_length e) (e_old_version_id e)
    (e_new_etag e) (e_new_sha256 e) (e_new_content_length e) (e_new_version_id e)
    (e_pre_delete_version_id e) (e_retry_count e) (e_error_message e).
Definition set_error (msg : string) (e : PartitionEntry) : PartitionEntry :=
  Entry (e_old_key e) (e_new_key e) (e_status e) (e_old_etag e) (e_old_sha256 e) (e_old_content_length e) (e_old_version_id e)
    (e_new_etag e) (e_new_sha256 e) (e_new_content_length e) (e_new_version_id e)
    (e_pre_delete_version_id e) (e_retry_count e + 1) (Some msg).
Definition set_new (etag : string) (version : option string) (e : PartitionEntry) : PartitionEntry :=
  Entry (e_old_key e) (e_new_key e) (e_status e) (e_old_etag e) (e_old_sha256 e) (e_old_content_length e) (e_old_version_id e)
    etag (e_new_sha256 e) (e_new_content_length e) version
    (e_pre_delete_version_id e) (e_retry_count e) (e_error_message e).
Definition set_heads (src dst : head_response) (e : PartitionEntry) : PartitionEntry :=
  Entry (e_old_key e) (e_new_key e) (e_status e) (h_etag src) (h_sha256 src) (h_content_length src) (h_version_id src)
    (h_etag dst) (h_sha256 dst) (h_content_length dst) (h_version_id dst)
    (e_pre_delete_version_id e) (e_retry_count e) (e_error_message e).
Definition set_pre_delete (e : PartitionEntry) : PartitionEntry :=
  Entry (e_old_key e) (e_new_key e) (e_status e) (e_old_etag e) (e_old_sha256 e) (e_old_content_length e) (e_old_version_id e)
    (e_new_etag e) (e_new_sha256 e) (e_new_content_length e) (e_new_version_id e)
    (e_old_version_id e) (e_retry_count e) (e_error_message e).

(** ** The state *)

(** [rk_file]: no file, an unreadable one ([Some None]), or a saved manifest. *)
Record rk_world (S : Type) := RkWorld {
  rk_nas : world S; rk_manifest : manifest; rk_file : option (option manifest);
  rk_sentinels : gset string; rk_faults : list bool; rk_partial : Z }.
Arguments RkWorld {S}.
Arguments rk_nas {S}.
Arguments rk_manifest {S}.
Arguments rk_file {S}.
Arguments rk_sentinels {S}.
Arguments rk_faults {S}.
Arguments rk_partial {S}.

Record rk_config := RkConfig {
  rk_exchange : string; rk_channel : string; batch_size : Z; dry_run : bool; threshold : double;
  max_partitions : option Z; i_understand_irreversible : bool }.
(** What one run meets: is the pid file locked, the versioning answer, is the
    disk low, and was SIGTERM received before the [n]-th partition. *)
Record rk_env := RkEnv {
  env_locked : bool; env_versioning : res string; env_low_disk : bool; env_shutdown : nat → bool }.

Record RekeyResult := RkResult {
  partitions_total : Z; n_copied : Z; n_verified : Z; n_deleted : Z; skipped_already_migrated : Z;
  n_failed : Z; n_legacy : Z }.

Definition SystemExit (code : string) : exn := OtherException ("SystemExit(" +:+ code +:+ ")").

(** [s.replace("/", "-")] and [s.replace("..", "")] *)
Definition dash_char : Ascii.ascii := Ascii.ascii_of_nat 45.
Definition slash_char : Ascii.ascii := Ascii.ascii_of_nat 47.
Definition dot_char : Ascii.ascii := Ascii.ascii_of_nat 46.
Fixpoint slash_to_dash (s : string) : string :=
  match s with
  | EmptyString => EmptyString
  | String a s' => String (if Ascii.eqb a slash_char then dash_char else a) (slash_to_dash s')
  end.
Fixpoint drop_dotdot (s : string) : string :=
  match s with
  | String a (String b s'' as s') =>
      if Ascii.eqb a dot_char && Ascii.eqb b dot_char then drop_dotdot s'' else String a (drop_dotdot s')
  | _ => s
  end.

Definition build_partition_id (old_key : string) : string :=
  rstrip dash_char (slash_to_dash (legacy_key_to_canonical old_key)).
Definition build_new_key (old_key : string) : string := legacy_key_to_canonical old_key.

(** The objects with a [.compacted] marker, of the exchange and the tier. *)
Definition select_candidates (exchange : string) (all_keys : list string) : list string :=
  let filtered := List.filter (λ k, contains ("/exchange=" +:+ exchange +:+ "/") k && contains "/tier=L1/" k) all_keys in
  let compacted_base := drop_suffix ".compacted" <$> List.filter (endswith ".compacted") filtered in
  List.filter (λ k, negb (endswith ".compacted" k) && existsb (String.eqb k) compacted_base) filtered.

Section rekey.
Context {S : Type} `{S3 S}.
Context (sha256_hex : string → string) (cfg : rk_config) (env : rk_env).
#[local] Notation proc := (proc (rk_world S)).

(** ** Primitives *)

Definition on_nas {A} (m : Prelude.proc (world S) A) : proc A := λ w,
  let '(n, r) := m (rk_nas w) in
  (RkWorld n (rk_manifest w) (rk_file w) (rk_sentinels w) (rk_faults w) (rk_partial w), r).
Definition with_manifest (f : manifest → manifest) : proc unit := pmodify (λ w,
  RkWorld (rk_nas w) (f (rk_manifest w)) (rk_file w) (rk_sentinels w) (rk_faults w) (rk_partial w)).
Definition io_step (effect : rk_world S → rk_world S) : proc unit := λ w,
  let w1 := RkWorld (rk_nas w) (rk_manifest w) (rk_file w) (rk_sentinels w) (tail (rk_faults w)) (rk_partial w) in
  match head (rk_faults w) with Some true => (w1, Raise OSErrorOther) | _ => (effect w1, Ok tt) end.
Definition gauge (d : Z) : proc unit := pmodify (λ w,
  RkWorld (rk_nas w) (rk_manifest w) (rk_file w) (rk_sentinels w) (rk_faults w) (rk_partial w + d)).

(** [write_atomic] *)
Definition write_atomic : proc unit := io_step (λ w,
  RkWorld (rk_nas w) (rk_manifest w) (Some (Some (rk_manifest w))) (rk_sentinels w) (rk_faults w) (rk_partial w)).
(** [update_status] with its keyword arguments as [f]; an unknown partition is only logged. *)
Definition update_entry (pid : string) (f : PartitionEntry → PartitionEntry) (d : manifest) : manifest :=
  match dget d pid with Some e => dset d pid (f e) | None => d end.
Definition update_status (pid : string) (s : rk_status) (f : PartitionEntry → PartitionEntry) : proc unit :=
  with_manifest (update_entry pid (λ e, f (set_status s e))).
Definition upsert_pending (pid old_key new_key : string) : proc unit :=
  with_manifest (λ d, match dget d pid with Some _ => d | None => dset d pid (new_entry old_key new_key) end).
(** [RekeyManifest.__init__]: an unreadable file counts as fresh. *)
Definition load_manifest (file : option (option manifest)) : manifest :=
  match file with Some (Some d) => d | _ => [] end.
Definition is_done (e : PartitionEntry) : bool := bool_decide (e_status e = done).

Definition sentinel_name (pid : string) : string :=
  String.substring 0 16 (sha256_hex (drop_dotdot (slash_to_dash pid))) +:+ ".completed".
Definition write_sentinel (pid : string) : proc unit := io_step (λ w,
  RkWorld (rk_nas w) (rk_manifest w) (rk_file w) ({[sentinel_name pid]} ∪ rk_sentinels w) (rk_faults w) (rk_partial w)).

Definition discover_l1_objects : proc (list string) :=
  pbind (plift (build_legacy_l1_discovery_prefix (rk_channel cfg))) (λ prefix,
  pbind (on_nas (list_objects prefix)) (λ keys, pret (select_candidates (rk_exchange cfg) keys))).

(** ** One partition *)

(** [update_status(..., "failed", ...)], save, and the answer. *)
Definition fail (pid msg : string) : proc rk_status :=
  pbind (update_status pid failed (set_error msg)) (λ _, pbind write_atomic (λ _, pret failed)).

Definition truthy (s : option string) : bool := match s with Some s' => negb (String.eqb s' "") | None => false end.

(** HEAD-2 to HEAD-4 (HEAD-1, the ETag, is advisory). *)
Definition heads_pass (src dst : head_response) : bool :=
  truthy (h_version_id dst) &&
  match h_sha256 src, h_sha256 dst with
  | None, None => true
  | Some a, Some b => String.eqb a b
  | _, _ => false
  end &&
  (h_content_length src =? h_content_length dst).

(** [_verify_4head]; it writes the answers into the manifest entry. *)
Definition verify_4head (pid old_key new_key : string) : proc bool := λ w,
  match on_nas (head_object old_key) w with
  | (w1, Raise (ClientError code)) => if String.eqb code "404" then (w1, Ok false) else (w1, Raise (ClientError code))
  | (w1, Raise e) => (w1, Raise e)
  | (w1, Ok src) =>
      match on_nas (head_object new_key) w1 with
      | (w2, Raise (ClientError _)) => (w2, Ok false)
      | (w2, Raise e) => (w2, Raise e)
      | (w2, Ok dst) => pbind (with_manifest (update_entry pid (set_heads src dst))) (λ _, pret (heads_pass src dst)) w2
      end
  end.

(** Step A for a source that is gone. *)
Definition source_missing (pid new_key : string) (c : CopyResult) : proc (option rk_status) := λ w,
  match on_nas (head_object new_key) w with
  | (w1, Ok dst) =>
      if truthy (h_sha256 dst) then
        pbind (update_status pid done (set_new (h_etag dst) (h_version_id dst))) (λ _,
        pbind write_atomic (λ _, pbind (write_sentinel pid) (λ _, pret (Some done)))) w1
      else pbind (fail pid "source_404+target_200 dst sha256 absent") (λ s, pret (Some s)) w1
  | (w1, Raise (ClientError code)) =>
      if String.eqb code "404" then pbind (fail pid "both_head_404") (λ s, pret (Some s)) w1
      else (w1, Raise (ClientError code))
  | (w1, Raise e) => (w1, Raise e)
  end.

(** Step A: copy.  [Some s] is an early return. *)
Definition step_a (pid old_key new_key : string) : proc (option rk_status) :=
  pbind (update_status pid copying id) (λ _, pbind write_atomic (λ _, λ w,
  match on_nas (copy_object old_key new_key) w with
  | (w1, Raise _) => pbind (fail pid "copy_object failed") (λ s, pret (Some s)) w1
  | (w1, Ok c) =>
      match cp_status c with
      | source_not_found => source_missing pid new_key c w1
      | dst_conflict => pbind (fail pid "dst_conflict") (λ s, pret (Some s)) w1
      | _ => pbind (update_status pid rk_copied (set_new (cp_dst_etag c) (cp_dst_version_id c))) (λ _,
             pbind write_atomic (λ _, pret None)) w1
      end
  end)).

(** The entry of a partition of the manifest. *)
Definition entry_of (pid : string) (w : rk_world S) : PartitionEntry :=
  default (new_entry "" "") (dget (rk_manifest w) pid).

(** Step B: verify. *)
Definition step_b (pid old_key new_key : string) : proc (option rk_status) :=
  pbind (update_status pid verifying id) (λ _, pbind write_atomic (λ _,
  pbind (verify_4head pid old_key new_key) (λ verify_pass,
  if negb verify_pass then pbind (fail pid "4-HEAD verify FAIL") (λ s, pret (Some s))
  else pbind pget (λ w, match e_old_sha256 (entry_of pid w), e_new_sha256 (entry_of pid w) with
    | None, None => pbind (update_status pid legacy_no_sha256 id) (λ _, pbind write_atomic (λ _, pret (Some legacy_no_sha256)))
    | _, _ => pbind (update_status pid verified id) (λ _, pbind write_atomic (λ _, pret None))
    end)))).

(** Step C: delete. *)
Definition step_c (pid old_key : string) : proc rk_status :=
  pbind (update_status pid deleting set_pre_delete) (λ _, pbind write_atomic (λ _, pbind (gauge 1) (λ _, λ w,
  match (if dry_run cfg then (w, Ok tt) else on_nas (delete_object old_key) w) with
  | (w1, Raise _) => fail pid "delete failed" w1
  | (w1, Ok _) =>
      pbind (write_sentinel pid) (λ _, pbind (update_status pid done id) (λ _,
      pbind write_atomic (λ _, pbind (gauge (-1)) (λ _, pret done)))) w1
  end))).

(** [_process_partition]: the steps that the status asks for. *)
Definition process_partition (pid : string) : proc rk_status := λ w0,
  let entry := entry_of pid w0 in
  let old_key := e_old_key entry in
  let new_key := e_new_key entry in
  let skip_b := match e_status entry with verified | deleting => true | _ => false end in
  let skip_a := skip_b || match e_status entry with rk_copied | verifying => true | _ => false end in
  pbind (if skip_a then pret None else step_a pid old_key new_key) (λ a,
  match a with
  | Some s => pret s
  | None =>
      pbind (if skip_b then pret None else step_b pid old_key new_key) (λ b,
      match b with Some s => pret s | None => step_c pid old_key end)
  end) w0.

(** ** A run *)

Definition count_skipped (n : Z) (r : RekeyResult) : RekeyResult :=
  RkResult (partitions_total r) (n_copied r) (n_verified r) (n_deleted r) (skipped_already_migrated r + n) (n_failed r) (n_legacy r).
Definition count_status (s : rk_status) (r : RekeyResult) : RekeyResult :=
  match s with
  | done => RkResult (partitions_total r) (n_copied r + 1) (n_verified r + 1) (n_deleted r + if dry_run cfg then 0 else 1)
              (skipped_already_migrated r) (n_failed r) (n_legacy r)
  | legacy_no_sha256 => RkResult (partitions_total r) (n_copied r) (n_verified r) (n_deleted r) (skipped_already_migrated r)
              (n_failed r) (n_legacy r + 1)
  | failed => RkResult (partitions_total r) (n_copied r) (n_verified r) (n_deleted r) (skipped_already_migrated r)
              (n_failed r + 1) (n_legacy r)
  | _ => r
  end.

(** Registering the discovered keys. *)
Fixpoint populate (keys : list string) (r : RekeyResult) : proc RekeyResult :=
  match keys with
  | [] => pret r
  | k :: ks =>
      let pid := build_partition_id k in
      pbind pget (λ w,
      if bool_decide (sentinel_name pid ∈ rk_sentinels w)
      then pbind (update_status pid done id) (λ _, populate ks (count_skipped 1 r))
      else pbind (upsert_pending pid k (build_new_key k)) (λ _, populate ks r))
  end.

(** Is the batch to be abandoned after a failure? *)
Definition over_threshold (failed_in_batch total_done : Z) : bool :=
  if (SFeqb (threshold cfg) f0_00 && (0 <? failed_in_batch))%bool then true
  else (0 <? total_done) && SFltb (threshold cfg) (int_div failed_in_batch total_done).

(** The loop over [iter_resumable], [processed] partitions in. *)
Fixpoint sweep (processed : nat) (failed_in_batch : Z) (pids : list string) (r : RekeyResult) : proc RekeyResult :=
  match pids with
  | [] => pret r
  | pid :: rest => λ w,
      if negb (mid_flight (e_status (entry_of pid w))) then sweep processed failed_in_batch rest r w
      else if env_shutdown env processed then (w, Ok r)
      else if batch_size cfg <=? Z.of_nat processed then (w, Ok r)
      else if match max_partitions cfg with Some m => m <=? Z.of_nat processed | None => false end then (w, Ok r)
      else pbind (process_partition pid) (λ s,
        let r' := count_status s r in
        let failures := failed_in_batch + match s with failed => 1 | _ => 0 end in
        match s with
        | failed => if over_threshold failures (Z.of_nat processed + 1) then pret r'
                    else sweep (Datatypes.S processed) failures rest r'
        | _ => sweep (Datatypes.S processed) failures rest r'
        end) w
  end.

(** The gates before anything is touched. *)
Definition gates : res unit :=
  if negb (dry_run cfg) && negb (i_understand_irreversible cfg) then Raise (SystemExit "3")
  else if env_locked env then Raise (SystemExit "2")
  else rbind (env_versioning env) (λ v,
    if negb (String.eqb v "Enabled") then Raise (SystemExit "2")
    else if env_low_disk env then Raise (SystemExit "1") else Ok tt).

Definition RekeyResult_new (total : Z) : RekeyResult := RkResult total 0 0 0 0 0 0.

(** [run] *)
Definition run : proc RekeyResult :=
  pbind (plift gates) (λ _, pbind discover_l1_objects (λ candidates, pbind pget (λ w,
  let r := RekeyResult_new (Z.of_nat (length candidates)) in
  let done_count := Z.of_nat (length (List.filter (λ x, is_done x.2) (load_manifest (rk_file w)))) in
  if negb (dry_run cfg) && match candidates with [] => true | _ => false end then
    if 0 <? done_count then pret (count_skipped done_count r) else praise (SystemExit "4")
  else
    pbind (with_manifest (λ _, load_manifest (rk_file w))) (λ _,
    pbind (populate candidates r) (λ r1, pbind pget (λ w1,
    let gone := List.filter (λ x, is_done x.2 && negb (existsb (String.eqb x.1) (build_partition_id <$> candidates))) (rk_manifest w1) in
    pbind write_atomic (λ _,
    sweep 0 0 (dkeys (rk_manifest w1)) (count_skipped (Z.of_nat (length gone)) r1)))))))).
End rekey.

(** ** Lemmas on keys *)

(** The keys the migration discovers. *)
Definition is_old (k : string) : Prop := String.prefix "l1/market/" k = true.

Lemma is_old_split k : is_old k → ∃ t, k = "l1/" +:+ ("market/" +:+ t) ∧ build_new_key k = "market/" +:+ t.
Proof.
  intros (t & ->)%prefix_split. exists t. split; [done|]. unfold build_new_key, legacy_key_to_canonical.
  change ("l1/market/" +:+ t) with ("l1/" +:+ ("market/" +:+ t)). apply removeprefix_app.
Qed.

Lemma new_key_inj k k' : is_old k → is_old k' → build_new_key k = build_new_key k' → k = k'.
Proof. intros (t & -> & ->)%is_old_split (t' & -> & ->)%is_old_split Heq. by rewrite Heq. Qed.

Lemma new_key_not_old k : is_old k → ¬ is_old (build_new_key k).
Proof. intros (t & -> & ->)%is_old_split. unfold is_old. cbn. discriminate. Qed.

(** ** The invariant *)

Section invariant.
(** The objects at the start, and whether deleting is allowed. *)
Context (m0 : gmap string object) (del : bool).
Implicit Types (m : gmap string object) (old : string).

(** Two objects with one recorded digest and one length. *)
Definition same_content (o o' : object) : Prop :=
  ∃ sha, ob_sha256 o = Some sha ∧ ob_sha256 o' = Some sha ∧ blen (ob_body o) = blen (ob_body o').
(** Deleting [old] loses nothing. *)
Definition pair m old : Prop :=
  m !! old = None ∨ ∃ o o', m !! old = Some o ∧ m !! build_new_key old = Some o' ∧ same_content o o'.

Record preserved m : Prop := {
  pr_old k o : is_old k → m0 !! k = Some o →
    m !! k = Some o ∨ del = true ∧ m !! k = None ∧ ∃ o', m !! build_new_key k = Some o' ∧ same_content o o';
  pr_none k : is_old k → m0 !! k = None → m !! k = None;
  pr_flat k : ¬ is_old k → m !! k = m0 !! k ∨
    ∃ src o, is_old src ∧ build_new_key src = k ∧ m0 !! src = Some o ∧ m !! k = Some o ∧
      ∀ o0, m0 !! k = Some o0 → ob_sha256 o = None ∨ ob_sha256 o0 = None }.

Definition trusting (s : rk_status) : bool := match s with verified | deleting => true | _ => false end.
Definition entries_ok m (d : manifest) : Prop := ∀ pid e, dget d pid = Some e →
  is_old (e_old_key e) ∧ e_new_key e = build_new_key (e_old_key e) ∧ (trusting (e_status e) = true → pair m (e_old_key e)).

(** An object under an old key is the original one. *)
Lemma preserved_original m k o : preserved m → is_old k → m !! k = Some o → m0 !! k = Some o.
Proof.
  intros Hp Hk Hm. destruct (m0 !! k) as [o0|] eqn:H0.
  - destruct (pr_old m Hp k o0 Hk H0) as [?|(_ & ? & _)]; congruence.
  - rewrite (pr_none m Hp k Hk H0) in Hm. done.
Qed.

Lemma preserved_copy m src o :
  preserved m → is_old src → m !! src = Some o → overwritable src (build_new_key src) m →
  preserved (<[build_new_key src := o]> m).
Proof.
  intros Hp Hs Ho Hov. pose proof (new_key_not_old src Hs) as Hn.
  pose proof (preserved_original _ _ _ Hp Hs Ho) as H0. split.
  - intros k ok Hk Hk0. rewrite (lookup_insert_ne m (build_new_key src) k) by congruence.
    destruct (pr_old m Hp k ok Hk Hk0) as [?|(? & ? & o' & ? & ?)]; [by left|right]. split_and!; [done..|].
    rewrite lookup_insert_ne; [by exists o'|]. intros Heq%new_key_inj; [congruence|done..].
  - intros k Hk Hk0. rewrite lookup_insert_ne by congruence. by apply (pr_none m Hp).
  - intros k Hk. destruct (decide (build_new_key src = k)) as [<-|Hne].
    2:{ rewrite lookup_insert_ne by done. by apply (pr_flat m Hp). }
    right. exists src, o. rewrite lookup_insert_eq. split_and!; [done..|]. intros o0 Ho0.
    destruct (pr_flat m Hp _ Hk) as [Heq|(src' & o' & Hs' & Heq' & H0' & _ & Hov')].
    + rewrite <- Heq in Ho0. by apply Hov.
    + apply new_key_inj in Heq' as ->; [|done..]. assert (o' = o) as -> by congruence. by apply Hov'.
Qed.

Lemma preserved_delete m old : del = true → preserved m → is_old old → pair m old → preserved (delete old m).
Proof.
  intros Hdel Hp Ho Hpair. pose proof (new_key_not_old old Ho) as Hn.
  assert (∀ k, is_old k → delete old m !! build_new_key k = m !! build_new_key k) as Hnew.
  { intros k Hk. apply lookup_delete_ne. intros ->. by apply (new_key_not_old k). }
  split.
  - intros k ok Hk Hk0. rewrite Hnew by done. destruct (decide (old = k)) as [<-|Hne].
    + right. rewrite lookup_delete_eq. split_and!; [done..|]. destruct (pr_old m Hp old ok Hk Hk0) as [Hm|(_ & _ & ?)]; [|done].
      destruct Hpair as [|(o & o' & Hmo & Hmo' & Hsame)]; [congruence|]. exists o'. split; [done|]. by replace ok with o by congruence.
    + rewrite lookup_delete_ne by done. by apply (pr_old m Hp).
  - intros k Hk Hk0. destruct (decide (old = k)) as [<-|]; [apply lookup_delete_eq|].
    rewrite lookup_delete_ne by done. by apply (pr_none m Hp).
  - intros k Hk. rewrite lookup_delete_ne by congruence. by apply (pr_flat m Hp).
Qed.

Lemma pair_copy m src o old :
  is_old src → is_old old → m !! src = Some o → overwritable src (build_new_key src) m →
  pair m old → pair (<[build_new_key src := o]> m) old.
Proof.
  intros Hs Hold Ho Hov. pose proof (new_key_not_old src Hs) as Hn. unfold pair. rewrite lookup_insert_ne by congruence.
  intros [?|(o1 & o2 & H1 & H2 & Hsame)]; [by left|right]. destruct (decide (src = old)) as [<-|Hne].
  - exfalso. destruct Hsame as (sha & Ha & Hb & _). destruct (Hov _ _ H1 H2); congruence.
  - exists o1, o2. rewrite lookup_insert_ne; [done|]. intros ?%new_key_inj; done.
Qed.

Lemma pair_delete m k old : is_old k → is_old old → pair m old → pair (delete k m) old.
Proof.
  intros Hk Hold. unfold pair. destruct (decide (k = old)) as [->|Hne]; [left; apply lookup_delete_eq|].
  rewrite lookup_delete_ne by done. intros [?|(o & o' & ? & ? & ?)]; [by left|right]. exists o, o'.
  rewrite lookup_delete_ne; [done|]. intros ->. by apply (new_key_not_old old).
Qed.

Lemma entries_ok_dset m d pid e :
  entries_ok m d → is_old (e_old_key e) → e_new_key e = build_new_key (e_old_key e) →
  (trusting (e_status e) = true → pair m (e_old_key e)) → entries_ok m (dset d pid e).
Proof.
  intros Hd Ho Hn Ht pid' e' He'. destruct (decide (pid = pid')) as [<-|Hne].
  - rewrite dget_dset_eq in He'. by injection He' as <-.
  - rewrite dget_dset_ne in He' by done. by eapply Hd.
Qed.

Lemma entries_ok_mono m m' d :
  (∀ old, is_old old → pair m old → pair m' old) → entries_ok m d → entries_ok m' d.
Proof. intros Hmono Hd pid e He. destruct (Hd pid e He) as (? & ? & ?). split_and!; auto. Qed.
End invariant.

(** ** The steps keep the invariant *)

Section steps.
Context {S : Type} `{S3Laws S}.
Context (sha256_hex : string → string) (cfg : rk_config).
Context (m0 : gmap string object) (del : bool) (Hdel : dry_run cfg = false → del = true).
(** The registered partitions. *)
Context (ks : list string).
#[local] Notation world := (rk_world S).
#[local] Notation store w := (objects (rk_nas w)).

Definition rk_inv (w : world) : Prop :=
  preserved m0 del (store w) ∧ entries_ok (store w) (rk_manifest w) ∧ entries_ok (store w) (load_manifest (rk_file w)).
(** Partition [pid] moves [old]; with [b], deleting [old] is safe. *)
Definition at_partition (pid old : string) (b : bool) (w : world) : Prop :=
  rk_inv w ∧ (is_old old ∧ ∃ e, dget (rk_manifest w) pid = Some e ∧ e_old_key e = old ∧ dkeys (rk_manifest w) = ks) ∧ (b = true → pair (store w) old).

Definition same_ids (f : PartitionEntry → PartitionEntry) : Prop :=
  ∀ e, e_old_key (f e) = e_old_key e ∧ e_new_key (f e) = e_new_key e ∧ e_status (f e) = e_status e.

Lemma at_weaken pid old b w : at_partition pid old b w → at_partition pid old false w.
Proof. intros (Hi & Ho & _). split; [exact Hi|]. split; [exact Ho|discriminate]. Qed.

Lemma at_done pid old b w : at_partition pid old b w → rk_inv w ∧ dkeys (rk_manifest w) = ks.
Proof. by intros (? & (_ & e & _ & _ & ?) & _). Qed.

Section partition.
Context (pid old : string) (b : bool).
#[local] Notation inv := (at_partition pid old b).
#[local] Notation new := (build_new_key old).

Lemma update_keeps f : (∀ e, e_old_key (f e) = e_old_key e ∧ e_new_key (f e) = e_new_key e) →
  (∀ e, trusting (e_status (f e)) = true → b = true ∨ e_status (f e) = e_status e) →
  keeps inv (with_manifest (update_entry pid f)).
Proof.
  intros Hf Hs. apply keeps_modify. intros w ((Hp & Hm & Hfile) & (Ho & e & He & Hold & Hks) & Hpair).
  destruct (Hm pid e He) as (He1 & He2 & He3). destruct (Hf e) as [Hf1 Hf2].
  unfold update_entry. rewrite He. (split; [split; [exact Hp|split; [|exact Hfile]]|split; [split; [exact Ho|]|exact Hpair]]); simpl.
  - apply entries_ok_dset; [done|congruence|congruence|]. intros Ht. rewrite Hf1, Hold. destruct (Hs e Ht) as [Hb|Hst].
    + by apply Hpair.
    + rewrite Hst in Ht. rewrite <- Hold. by apply He3.
  - exists (f e). split_and!; [apply dget_dset_eq|congruence|]. rewrite dkeys_dset_mem; [done|]. apply dget_is_Some. eauto.
Qed.

(** A transition to [s]: to a trusting status only where deleting is safe. *)
Lemma update_status_keeps s f : same_ids f → (trusting s = true → b = true) → keeps inv (update_status pid s f).
Proof.
  intros Hf Hs. apply update_keeps.
  - intros e. destruct (Hf (set_status s e)) as (-> & -> & _). done.
  - intros e. destruct (Hf (set_status s e)) as (_ & _ & ->). auto.
Qed.

Lemma io_step_keeps f : (∀ w, inv w → inv (f w)) → keeps inv (io_step f).
Proof.
  intros Hf w w' r Hi. unfold io_step. destruct (head (rk_faults w)) as [[]|]; intros [= <- <-]; auto.
Qed.
Lemma write_atomic_keeps : keeps inv (write_atomic (S := S)).
Proof. apply io_step_keeps. intros w ((Hp & Hm & Hfile) & Ho & Hpair). by (split; [split|]). Qed.
Lemma write_sentinel_keeps sha p : keeps inv (write_sentinel (S := S) sha p).
Proof. apply io_step_keeps. auto. Qed.
Lemma gauge_keeps d : keeps inv (gauge (S := S) d).
Proof. by apply keeps_modify. Qed.

(** A call to the store that leaves its objects. *)
Lemma on_nas_reads {A} (m : proc (NasUploader.world S) A) :
  (∀ n n' r, m n = (n', r) → objects n' = objects n) → keeps inv (on_nas m).
Proof.
  intros Hm w w' r Hi. unfold on_nas. destruct (m (rk_nas w)) as [n' r'] eqn:Heq. intros [= <- <-].
  unfold at_partition, rk_inv in *. simpl. by rewrite (Hm _ _ _ Heq).
Qed.

Lemma head_object_frame key n n' r : head_object key n = (n', r) → objects n' = objects n ∧
  ∀ h, r = Ok h → ∃ o, objects n !! key = Some o ∧ h_sha256 h = ob_sha256 o ∧ h_content_length h = blen (ob_body o).
Proof.
  unfold head_object, pbind, pret. destruct (call_s3 (s3_head key) n) as [n1 [h|e]] eqn:Hh; intros [= <- <-];
    apply head_inv in Hh as (Ho & _ & _ & Hok & _); (split; [done|]); [|done].
  intros h' [= <-]. simpl. by apply Hok.
Qed.
Lemma head_keeps key : keeps inv (on_nas (head_object key)).
Proof. apply on_nas_reads. intros n n' r Hh. by apply head_object_frame in Hh as [? _]. Qed.

Lemma fail_keeps msg : keeps inv (fail (S := S) pid msg).
Proof.
  apply keeps_bind; [|intros; apply keeps_bind; [apply write_atomic_keeps|eauto with hoare]].
  by apply update_status_keeps.
Qed.
Lemma fail_some_keeps msg : keeps inv (pbind (fail (S := S) pid msg) (λ s, pret (Some s))).
Proof. apply keeps_bind; [apply fail_keeps|eauto with hoare]. Qed.
Lemma set_save_keeps {A} s f (a : A) : same_ids f → trusting s = false →
  keeps inv (pbind (update_status (S := S) pid s f) (λ _, pbind write_atomic (λ _, pret a))).
Proof.
  intros Hf Hs. apply keeps_bind; [apply update_status_keeps; [done|congruence]|].
  intros. apply keeps_bind; [apply write_atomic_keeps|eauto with hoare].
Qed.

Lemma source_missing_keeps c : keeps inv (source_missing (S := S) sha256_hex pid new c).
Proof.
  intros w w' r Hi. unfold source_missing. destruct (on_nas (head_object new) w) as [w1 [dst|e]] eqn:Hh;
    apply (head_keeps new) in Hh; try exact Hi.
  - destruct (truthy _); [|by apply fail_some_keeps].
    revert w1 w' r Hh. apply keeps_bind; [by apply update_status_keeps|]. intros. apply keeps_bind; [apply write_atomic_keeps|].
    intros. apply keeps_bind; [apply write_sentinel_keeps|eauto with hoare].
  - destruct e; try (by intros [= <- <-]). destruct (String.eqb code "404"); [by apply fail_some_keeps|by intros [= <- <-]].
Qed.
End partition.

Section partition_steps.
Context (pid old : string).
#[local] Notation inv := (at_partition pid old).
#[local] Notation new := (build_new_key old).

Lemma copy_keeps : keeps (inv false) (on_nas (copy_object old new)).
Proof.
  intros w w' r ((Hp & Hm & Hf) & (Ho & He) & _). unfold on_nas.
  destruct (copy_object old new (rk_nas w)) as [n' r'] eqn:Hc. intros [= <- <-].
  apply copy_object_inv in Hc as (_ & _ & Hobj & _).
  split; [|split; [split; [exact Ho|exact He]|discriminate]]. unfold rk_inv. simpl.
  destruct Hobj as [->|(Hov & o & Hsrc & ->)]; [done|].
  split; [by apply preserved_copy|]. split; eapply entries_ok_mono; try eassumption; intros old' Ho'; by apply pair_copy.
Qed.

Lemma delete_keeps : dry_run cfg = false → keeps (inv true) (on_nas (delete_object old)).
Proof.
  intros Hdry w w' r ((Hp & Hm & Hf) & (Ho & He) & Hpair). specialize (Hpair eq_refl). unfold on_nas.
  destruct (delete_object old (rk_nas w)) as [n' r'] eqn:Hc. intros [= <- <-].
  assert (objects n' = delete old (store w) ∨ objects n' = store w) as Hobj.
  { unfold delete_object in Hc. destruct (call_s3 (s3_delete old) (rk_nas w)) as [n1 r1] eqn:Hd.
    apply call_s3_inv in Hd as (Hd & _). apply s3_delete_any in Hd.
    assert (n' = n1) as -> by (repeat case_match; by simplify_eq). naive_solver. }
  destruct Hobj as [Heq|Heq]; (split; [|split; [split; [exact Ho|exact He]|]]); unfold rk_inv; simpl; rewrite Heq; try done.
  - split; [apply preserved_delete; auto|]. split; eapply entries_ok_mono; try eassumption; intros; by apply pair_delete.
  - intros _. by apply pair_delete.
Qed.

Lemma step_a_keeps : keeps (inv false) (step_a sha256_hex pid old new).
Proof.
  apply keeps_bind; [by apply update_status_keeps|]. intros _. apply keeps_bind; [apply write_atomic_keeps|]. intros _.
  intros w w' r Hi. destruct (on_nas (copy_object old new) w) as [w1 [c|e]] eqn:Hc; apply copy_keeps in Hc; try exact Hi.
  - destruct (cp_status c); [| |by apply source_missing_keeps|by apply fail_some_keeps];
      revert w1 w' r Hc; by apply set_save_keeps.
  - by apply fail_some_keeps.
Qed.

(** Passing HEADs of digested objects make the deletion safe. *)
Lemma verify_4head_spec :
  triple (inv false) (verify_4head pid old new) (λ r w, inv false w ∧
    (r = Ok true → pair (store w) old ∨
       e_old_sha256 (entry_of pid w) = None ∧ e_new_sha256 (entry_of pid w) = None)).
Proof.
  intros w w' r Hi. unfold verify_4head, on_nas.
  destruct (head_object old (rk_nas w)) as [n1 [src|e]] eqn:H1; pose proof (head_object_frame _ _ _ _ H1) as [Hf1 Ho1];
    set (w1 := RkWorld n1 _ _ _ _ _); assert (inv false w1) as Hi1 by (eapply (head_keeps pid old false old w); [exact Hi|unfold on_nas; by rewrite H1]).
  2:{ destruct e; try (intros [= <- <-]; by (split; [exact Hi1|])). destruct (String.eqb code "404"); intros [= <- <-]; by split. }
  change (rk_nas w1) with n1. destruct (head_object new n1) as [n2 [dst|e]] eqn:H2; pose proof (head_object_frame _ _ _ _ H2) as [Hf2 Ho2];
    set (w2 := RkWorld n2 _ _ _ _ _); assert (inv false w2) as Hi2 by (eapply (head_keeps pid old false new w1); [exact Hi1|unfold on_nas; change (rk_nas w1) with n1; by rewrite H2]).
  2:{ destruct e; intros [= <- <-]; by split. }
  unfold pbind, with_manifest, pmodify, pret. intros [= <- <-]. split.
  { eapply (update_keeps pid old false (set_heads src dst)); [done|by right|exact Hi2|reflexivity]. }
  intros [= Hpass]. destruct (Ho1 src eq_refl) as (o & Hk & Hs & Hl), (Ho2 dst eq_refl) as (o' & Hk' & Hs' & Hl').
  destruct Hi2 as (_ & (_ & e & He & _) & _). cbn [rk_manifest w2 w1] in He.
  unfold heads_pass in Hpass. apply andb_true_iff in Hpass as [[_ Hsha]%andb_true_iff Hlen%Z.eqb_eq].
  unfold entry_of. cbn [rk_manifest rk_nas w2 w1]. unfold update_entry. rewrite He, dget_dset_eq. cbn.
  destruct (h_sha256 src) as [a|] eqn:Ha; [left|right; by destruct (h_sha256 dst)].
  destruct (h_sha256 dst) as [c|] eqn:Hb; [|done]. apply String.eqb_eq in Hsha as <-.
  right. exists o, o'. rewrite Hf2. rewrite Hf1 in Hk' |- *. split_and!; [done..|]. exists a. split_and!; congruence.
Qed.

Lemma at_strengthen w : inv false w → pair (store w) old → inv true w.
Proof. intros (Hi & Ho & _) Hp. by split. Qed.

(** Step B answers [None] only where deleting is safe. *)
Lemma step_b_spec :
  triple (inv false) (step_b pid old new) (λ r w, inv false w ∧ (r = Ok None → inv true w)).
Proof.
  eapply (triple_bind _ _ _ (λ _, inv false)); [by apply update_status_keeps| |by intros e w ?; split].
  intros _. eapply (triple_bind _ _ _ (λ _, inv false)); [apply write_atomic_keeps| |by intros e w ?; split].
  intros _. eapply triple_bind; [apply verify_4head_spec| |intros e w [Hi _]; by split].
  intros pass w w' r [Hi Hpass]. destruct pass; simpl.
  - unfold pbind at 1, pget. specialize (Hpass eq_refl). intros Hrun.
    assert (∀ r' : res (option rk_status), inv true w →
      pbind (update_status pid verified id) (λ _, pbind write_atomic (λ _, pret None)) w = (w', r') →
      inv false w' ∧ (r' = Ok None → inv true w')) as Hver.
    { intros r' Hi' Hr. cut (inv true w'); [intros; split; [by eapply at_weaken|done]|]. revert Hi' Hr.
      apply (keeps_bind (inv true)); [by apply update_status_keeps|]. intros _.
      apply keeps_bind; [apply write_atomic_keeps|eauto with hoare]. }
    destruct Hpass as [Hpair|[H1 H2]].
    + destruct (e_old_sha256 (entry_of pid w)), (e_new_sha256 (entry_of pid w));
        try (apply Hver; [by apply at_strengthen|done]).
      split; [revert Hi Hrun; by apply set_save_keeps|]. intros ->. revert Hrun.
      unfold pbind, update_status, with_manifest, pmodify, write_atomic, io_step, pret. by repeat case_match.
    + rewrite H1, H2 in Hrun. split; [revert Hi Hrun; by apply set_save_keeps|]. intros ->. revert Hrun.
      unfold pbind, update_status, with_manifest, pmodify, write_atomic, io_step, pret. by repeat case_match.
  - intros Hrun. split; [by eapply fail_some_keeps|]. intros ->. revert Hrun.
    unfold fail, pbind, update_status, with_manifest, pmodify, write_atomic, io_step, pret. by repeat case_match.
Qed.

Lemma step_c_keeps : keeps (inv true) (step_c sha256_hex cfg pid old).
Proof.
  apply keeps_bind; [by apply update_status_keeps|]. intros _. apply keeps_bind; [apply write_atomic_keeps|]. intros _.
  apply keeps_bind; [apply gauge_keeps|]. intros _ w w' r Hi.
  destruct (if dry_run cfg then _ else _) as [w1 r1] eqn:Hd.
  assert (inv true w1) as Hi1.
  { pose proof delete_keeps as Hdelete. revert Hdelete Hd. case (dry_run cfg); [by intros _ [= <- _]|].
    intros Hdelete Hd. by apply (Hdelete eq_refl w w1 r1). }
  destruct r1 as [[]|e]; [|by apply fail_keeps]. revert w1 w' r Hi1 Hd. intros w1 w' r Hi1 _. revert w1 w' r Hi1.
  apply keeps_bind; [apply write_sentinel_keeps|]. intros _. apply keeps_bind; [by apply update_status_keeps|]. intros _.
  apply keeps_bind; [apply write_atomic_keeps|]. intros _. apply keeps_bind; [apply gauge_keeps|eauto with hoare].
Qed.
End partition_steps.

Lemma process_partition_keeps pid : pid ∈ ks →
  keeps (λ w, rk_inv w ∧ dkeys (rk_manifest w) = ks) (process_partition sha256_hex cfg pid).
Proof.
  intros Hin w w' r [Hi Hks]. rewrite <- Hks in Hin. apply dget_is_Some in Hin as [e He].
  destruct Hi as (Hp & Hm & Hf). destruct (Hm pid e He) as (Ho & Hn & Ht).
  unfold process_partition. replace (entry_of pid w) with e by (unfold entry_of; by rewrite He). cbv zeta. rewrite Hn.
  assert (at_partition pid (e_old_key e) (trusting (e_status e)) w) as Hat.
  { split; [by split|]. split; [|exact Ht]. split; [exact Ho|]. by exists e. }
  assert (triple (at_partition pid (e_old_key e) true)
    (pbind (pret None) (λ b, match b with Some s => pret s | None => step_c sha256_hex cfg pid (e_old_key e) end)) (λ _ w, rk_inv w ∧ dkeys (rk_manifest w) = ks)) as Hc.
  { intros v v' q Hv Hq. apply step_c_keeps in Hq; [by eapply at_done|done]. }
  assert (triple (at_partition pid (e_old_key e) false)
    (pbind (step_b pid (e_old_key e) (build_new_key (e_old_key e)))
      (λ b, match b with Some s => pret s | None => step_c sha256_hex cfg pid (e_old_key e) end)) (λ _ w, rk_inv w ∧ dkeys (rk_manifest w) = ks)) as Hbc.
  { eapply triple_bind; [apply step_b_spec| |intros ? ? [? _]; by eapply at_done]. intros [s|] v v' q [Hv Hv'].
    - intros [= <- <-]. by eapply at_done.
    - intros Hq. apply step_c_keeps in Hq; [by eapply at_done|by apply Hv']. }
  assert (triple (at_partition pid (e_old_key e) false)
    (pbind (step_a sha256_hex pid (e_old_key e) (build_new_key (e_old_key e))) (λ a, match a with
       | Some s => pret s
       | None => pbind (step_b pid (e_old_key e) (build_new_key (e_old_key e)))
                   (λ b, match b with Some s => pret s | None => step_c sha256_hex cfg pid (e_old_key e) end) end))
    (λ _ w, rk_inv w ∧ dkeys (rk_manifest w) = ks)) as Habc.
  { eapply triple_bind; [apply step_a_keeps| |intros ? ? Hx; exact (at_done _ _ _ _ Hx)]. intros [s|]; [|exact Hbc].
    intros v v' q ? [= <- <-]. by eapply at_done. }
  intros Hrun. destruct (e_status e) eqn:Hst; cbn in Hrun, Hat; eauto using at_weaken.
Qed.

Lemma sweep_keeps env processed n pids r : Forall (λ pid, pid ∈ ks) pids →
  keeps (λ w, rk_inv w ∧ dkeys (rk_manifest w) = ks) (sweep sha256_hex cfg env processed n pids r).
Proof.
  intros Hpids. revert processed n r. induction Hpids as [|pid pids Hpid Hpids IH]; intros processed n r; [apply keeps_ret|].
  intros w w' q Hi. cbn [sweep]. destruct (negb _); [by apply IH|].
  destruct (env_shutdown env processed); [by intros [= <- <-]|]. destruct (batch_size cfg <=? _); [by intros [= <- <-]|].
  destruct (match max_partitions cfg with Some m => _ | None => _ end); [by intros [= <- <-]|]. revert w w' q Hi.
  apply keeps_bind; [by apply process_partition_keeps|]. intros s. cbv zeta.
  destruct s; try apply IH. destruct (over_threshold _ _ _); [apply keeps_ret|apply IH].
Qed.
End steps.

Section runs.
Context {S : Type} `{S3Laws S}.
Context (sha256_hex : string → string) (cfg : rk_config) (env : rk_env).
Context (m0 : gmap string object) (del : bool) (Hdel : dry_run cfg = false → del = true).
#[local] Notation world := (rk_world S).
#[local] Notation store w := (objects (rk_nas w)).
#[local] Notation rk_inv := (rk_inv m0 del).

Lemma populate_keeps keys r : Forall is_old keys → keeps rk_inv (populate (S := S) sha256_hex keys r).
Proof.
  intros Hkeys. revert r. induction Hkeys as [|k keys Hk Hkeys IH]; intros r; [apply keeps_ret|]. cbn [populate]. cbv zeta.
  intros w. unfold pbind at 1, pget. revert w. intros w0 w' q Hi. revert Hi. generalize (rk_sentinels w0) as sent. intros sent Hi.
  revert w0 w' q Hi. case_bool_decide; (apply keeps_bind; [apply keeps_modify|intros _; apply IH]);
    intros w (Hp & Hm & Hf); (split; [exact Hp|split; [|exact Hf]]); simpl.
  - unfold update_entry. destruct (dget _ _) as [e|] eqn:He; [|done].
    destruct (Hm _ _ He) as (? & ? & _). by apply entries_ok_dset.
  - destruct (dget _ _) as [e|] eqn:He; [done|]. by apply entries_ok_dset.
Qed.

Lemma discover_spec : triple rk_inv (discover_l1_objects (S := S) cfg)
  (λ r w, rk_inv w ∧ ∀ keys, r = Ok keys → Forall is_old keys).
Proof.
  intros w w' r Hi. unfold discover_l1_objects, pbind, plift, pret.
  destruct (build_legacy_l1_discovery_prefix (rk_channel cfg)) as [prefix|e] eqn:Hpre; [|by intros [= <- <-]].
  unfold on_nas, list_objects, pbind, pret.
  destruct (call_s3 (s3_list prefix) (rk_nas w)) as [n [keys|e]] eqn:Hl; apply call_s3_inv in Hl as (Hl & _);
    pose proof (s3_list_frame _ _ _ _ Hl) as Hframe; intros [= <- <-]; unfold rk_inv in *; simpl; rewrite Hframe; (split; [done|]).
  2:{ done. }
  intros keys' [= <-]. apply s3_list_ok in Hl as [_ Hl]. apply Forall_forall. intros k Hk.
  apply list_elem_of_In in Hk. unfold select_candidates in Hk. apply List.filter_In in Hk as [[Hk _]%List.filter_In _].
  apply list_elem_of_In in Hk. rewrite (sort_le_perm String.leb) in Hk. apply Hl in Hk as [Hk _].
  unfold build_legacy_l1_discovery_prefix in Hpre. destruct (String.eqb _ ""); [done|]. injection Hpre as <-.
  apply prefix_split in Hk as [t ->]. unfold is_old. rewrite !string_app_assoc. apply prefix_app.
Qed.

(** Saving the manifest and sweeping over its partitions. *)
Lemma sweep_all_keeps (f : world → RekeyResult) :
  keeps rk_inv (pbind pget (λ w, pbind write_atomic (λ _, sweep sha256_hex cfg env 0 0 (dkeys (rk_manifest w)) (f w)))).
Proof.
  intros w w' r Hi. unfold pbind at 1, pget. remember (dkeys (rk_manifest w)) as ks eqn:Hks. generalize (f w) as a.
  intros a Hrun. cut (rk_inv w' ∧ dkeys (rk_manifest w') = ks); [by intros []|].
  assert (rk_inv w ∧ dkeys (rk_manifest w) = ks) as Hi' by done. clear Hi Hks. revert w w' r Hi' Hrun. apply keeps_bind.
  - intros w w' r [(Hp & Hm & Hf) Hks]. unfold write_atomic, io_step. destruct (head (rk_faults w)) as [[]|]; intros [= <- <-]; by split.
  - intros _. apply sweep_keeps; [done|]. apply Forall_forall. auto.
Qed.

(** A whole run, whatever it meets. *)
Lemma run_keeps : keeps rk_inv (run sha256_hex cfg env).
Proof.
  apply keeps_bind. { by intros w w' r Hi [= <- <-]. } intros _.
  eapply triple_bind; [apply discover_spec| |by intros e w [? _]]. intros candidates w w' r [Hi Hkeys].
  specialize (Hkeys _ eq_refl). unfold pbind at 1, pget. cbv zeta.
  destruct (negb _ && _); [destruct (0 <? _); by intros [= <- <-]|]. intros Hrun.
  revert Hrun. unfold pbind at 1, with_manifest, pmodify.
  set (w1 := RkWorld _ _ _ _ _ _). assert (rk_inv w1) as Hi1 by (destruct Hi as (Hp & _ & Hf); by split).
  revert w1 w' r Hi1. intros w1 w' r Hi1. clear Hi. revert w1 w' r Hi1. apply keeps_bind; [by apply populate_keeps|].
  intros r1. apply sweep_all_keeps.
Qed.
End runs.

(** ** Properties *)

(** Runs one after another; a run that raises is a process that died. *)
Definition run_all {S} `{S3 S} (sha256_hex : string → string) (runs : list (rk_config * rk_env)) (w : rk_world S) : rk_world S :=
  foldl (λ w x, (run sha256_hex x.1 x.2 w).1) w runs.

(** C6. The migration loses nothing.  Take any number of runs, dry or live,
    whatever the store answers and wherever each of them dies, starting with
    no readable manifest.  An object under an [l1/market/] key is still there,
    or a live run moved it: its flat key holds an object with the same
    recorded digest and the same length.  No [l1/market/] key appears.  Any
    other key is untouched, or it is the flat key of such an object, holds its
    copy, and what it held before was nothing or an object such that one of
    the two has no recorded digest. *)
Theorem rekey_loses_nothing {S : Type} `{S3Laws S} (sha256_hex : string → string) (runs : list (rk_config * rk_env)) (w : rk_world S) :
  rk_manifest w = [] → load_manifest (rk_file w) = [] →
  let m := objects (rk_nas w) in
  let m' := objects (rk_nas (run_all sha256_hex runs w)) in
  (∀ k o, is_old k → m !! k = Some o →
     m' !! k = Some o ∨
     existsb (λ x, negb (dry_run x.1)) runs = true ∧ m' !! k = None ∧
       ∃ o' sha, m' !! build_new_key k = Some o' ∧ ob_sha256 o = Some sha ∧ ob_sha256 o' = Some sha ∧
         blen (ob_body o) = blen (ob_body o')) ∧
  (∀ k, is_old k → m !! k = None → m' !! k = None) ∧
  (∀ k, ¬ is_old k → m' !! k = m !! k ∨
     ∃ src o, is_old src ∧ build_new_key src = k ∧ m !! src = Some o ∧ m' !! k = Some o ∧
       ∀ o0, m !! k = Some o0 → ob_sha256 o = None ∨ ob_sha256 o0 = None).
Proof.
  intros Hman Hfile m m'. set (del := existsb (λ x, negb (dry_run x.1)) runs).
  assert (rk_inv m del w) as Hinit.
  { split; [split; eauto|]. unfold entries_ok. rewrite Hman, Hfile. done. }
  assert (rk_inv m del (run_all sha256_hex runs w)) as (Hp & _ & _).
  { assert (∀ x, x ∈ runs → dry_run x.1 = false → del = true) as Hdel.
    { intros x Hx Hdry. apply existsb_exists. exists x. split; [by apply list_elem_of_In|by rewrite Hdry]. }
    clearbody del. clear Hman Hfile m'. revert Hinit. generalize m as m0. clear m. intros m0. revert w. unfold run_all.
    induction runs as [|x xs IH]; intros w Hi; [done|]. cbn [foldl]. apply IH; [intros; eapply Hdel; [by right|done]|].
    destruct (run sha256_hex x.1 x.2 w) as [w1 r1] eqn:Hr. eapply run_keeps; [|exact Hi|exact Hr]. apply Hdel. left. }
  destruct Hp as [Hold Hnone Hflat]. split_and!; [|exact Hnone|exact Hflat].
  intros k o Hk Ho. destruct (Hold k o Hk Ho) as [?|(Hd & Hn & o' & Ho' & sha & Hs)]; [by left|right].
  split_and!; [exact Hd|exact Hn|]. exists o', sha. split; [exact Ho'|exact Hs].
Qed.

Definition example_old_key : string := "l1/market/tick/schema_version=v1/tier=L1/exchange=upbit/a.parquet".
Definition example_rk_store : versioned_s3 := VersionedS3
  {[example_old_key := Object "body" (Some "digest"%string); example_old_key +:+ ".compacted" := Object "" None]}.
Definition example_rk_world (faults : list bool) : rk_world versioned_s3 :=
  RkWorld (World example_rk_store None 0 ∅ []) [] None ∅ faults 0.
Definition example_rk_config (dry : bool) : rk_config := RkConfig "upbit" "tick" 500 dry f0_00 None true.
Definition example_rk_env : rk_env := RkEnv false (Ok "Enabled") false (λ _, false).
Definition example_run (dry : bool) : rk_config * rk_env := (example_rk_config dry, example_rk_env).

(** A live run that dies between the deletion and the sentinel, and a second one. *)
Lemma rekey_loses_nothing_witness :
  let m' := objects (rk_nas (run_all id [example_run false; example_run false]
              (example_rk_world [false; false; false; false; false; false; true]))) in
  m' !! example_old_key = None ∧
  ∃ o' sha, m' !! build_new_key example_old_key = Some o' ∧ Some "digest"%string = Some sha ∧ ob_sha256 o' = Some sha ∧
    blen "body" = blen (ob_body o').
Proof.
  intros m'.
  destruct (rekey_loses_nothing id [example_run false; example_run false]
    (example_rk_world [false; false; false; false; false; false; true]) eq_refl eq_refl) as (Hold & _ & _).
  destruct (Hold example_old_key (Object "body" (Some "digest"%string)) eq_refl) as [Hno|(_ & Hn & Hc)].
  - vm_compute. reflexivity.
  - exfalso. revert Hno. fold m'. assert (m' !! example_old_key = None) as -> by (vm_compute; reflexivity). discriminate.
  - split; [exact Hn|exact Hc].
Defined.

(** A dry run disarms the live run.  The documented procedure is a dry
    run, then a live one.  The dry run copies, marks the partition [done] and
    writes its sentinel, so the live run skips it: it deletes nothing and
    reports success. *)
Theorem dry_run_disarms_live_run :
  let w := run_all id [example_run true] (example_rk_world []) in
  (run id (example_rk_config false) example_rk_env w).2 = Ok (RkResult 1 0 0 0 1 0 0) ∧
  objects (rk_nas (run id (example_rk_config false) example_rk_env w).1) !! example_old_key = Some (Object "body" (Some "digest"%string)) ∧
  (run id (example_rk_config false) example_rk_env (example_rk_world [])).2 = Ok (RkResult 1 1 1 1 0 0 0).
Proof. split_and!; vm_compute; reflexivity. Qed.

(** A failure is final: after one failing copy the partition is skipped by all
    later runs over the same manifest. *)
Lemma failed_partition_is_never_retried sha256_hex cfg env {S} `{S3 S} processed n pid r (w : rk_world S) :
  e_status (entry_of pid w) = failed → sweep sha256_hex cfg env processed n [pid] r w = (w, Ok r).
Proof. intros Hst. cbn [sweep]. by rewrite Hst. Qed.
