(* ===== verification/Parquet.v ===== *)
(** * Parquet files, as an interface

    pyarrow is not part of the repository: the model takes what the compactor
    calls of it as operations of a class over rows of any type, and
    [ParquetLaws] states the documented behaviour the code relies on (a written
    file reads back, batches partition the rows, footers are exact).
    [ascii_parquet] is a concrete format, one character a row, for witnesses. *)
From S2P Require Import Prelude.
Open Scope Z_scope.

(** What the footer tells: the rows, whether there is a [ts_utc] column, and
    its minimum in each row group that has statistics. *)
Record pq_metadata := PqMetadata { pm_num_rows : Z; pm_has_ts : bool; pm_group_min : list (option Z) }.

Class Parquet (Row : Type) := {
  (** The [ts_utc] column, in microseconds since the epoch *)
  row_ts : Row → Z;
  (** The file a closed [ParquetWriter] of this schema leaves *)
  pq_write : string → list Row → bytes;
  (** [ParquetFile(f).iter_batches(batch_size=n)] *)
  pq_batches : Z → bytes → res (list (list Row));
  (** [ParquetFile(f).schema_arrow] *)
  pq_schema : bytes → res string;
  (** Does a writer of the first schema take a batch of the second? *)
  pq_accepts : string → string → bool;
  (** [ParquetFile(f).metadata] *)
  pq_meta : bytes → res pq_metadata }.

(** The least element of a list. *)
Definition zmin (l : list Z) : option Z :=
  match l with [] => None | x :: l => Some (foldl Z.min x l) end.

Class ParquetLaws (Row : Type) `{Parquet Row} := {
  pq_write_batches n schema rows : 0 < n → ∃ bs, pq_batches n (pq_write schema rows) = Ok bs ∧ concat bs = rows;
  pq_batches_rows n n' b bs bs' : 0 < n → 0 < n' →
    pq_batches n b = Ok bs → pq_batches n' b = Ok bs' → concat bs = concat bs';
  pq_meta_rows n b bs m : 0 < n → pq_meta b = Ok m → pq_batches n b = Ok bs →
    pm_num_rows m = Z.of_nat (length (concat bs));
  (** A footer without rows belongs to a file without rows. *)
  pq_meta_empty n b m : 0 < n → pq_meta b = Ok m → pm_num_rows m = 0 → ∃ bs, pq_batches n b = Ok bs;
  (** Statistics, where all row groups have them *)
  pq_meta_min n b bs m mins : 0 < n → pq_meta b = Ok m → pq_batches n b = Ok bs →
    pm_group_min m = Some <$> mins → mins ≠ [] → zmin mins = zmin (row_ts <$> concat bs) }.

(** All rows of a file, as the batch loop of the compactor reads them. *)
Definition pq_rows {Row} `{Parquet Row} (b : bytes) : res (list Row) := rbind (pq_batches 1024 b) (λ bs, Ok (concat bs)).

Lemma pq_rows_write {Row} `{ParquetLaws Row} schema rows : pq_rows (pq_write schema rows) = Ok rows.
Proof. unfold pq_rows. destruct (pq_write_batches 1024 schema rows) as (bs&->&<-); [lia|done]. Qed.

Lemma pq_rows_batches {Row} `{Parquet Row} b bs : pq_batches 1024 b = Ok bs → pq_rows b = Ok (concat bs).
Proof. unfold pq_rows. by intros ->. Qed.

Lemma zmin_le (l : list Z) m x : zmin l = Some m → x ∈ l → m <= x.
Proof.
  destruct l as [|y l]; [done|]. intros [= <-].
  assert (∀ a, foldl Z.min a l <= a ∧ ∀ x, x ∈ l → foldl Z.min a l <= x) as Hf.
  { induction l as [|z l IH]; intros a; simpl; [split; [lia|by intros ? ?%not_elem_of_nil]|].
    destruct (IH (Z.min a z)) as [H1 H2]. split; [lia|]. intros u [->|Hu]%elem_of_cons; [lia|by apply H2]. }
  destruct (Hf y) as [H1 H2]. intros [->|Hx]%elem_of_cons; auto.
Qed.

Lemma zmin_elem (l : list Z) m : zmin l = Some m → m ∈ l.
Proof.
  destruct l as [|y l]; [done|]. intros [= <-].
  assert (∀ a, foldl Z.min a l = a ∨ foldl Z.min a l ∈ l) as Hf.
  { induction l as [|z l IH]; intros a; simpl; [by left|].
    destruct (IH (Z.min a z)) as [->|]; [|right; by right].
    destruct (Z.min_spec a z) as [[_ ->]|[_ ->]]; [by left|right; left]. }
  destruct (Hf y) as [->|]; [left|by right].
Qed.

(** ** A concrete format *)

Fixpoint string_list (s : string) : list Ascii.ascii :=
  match s with EmptyString => [] | String a s' => a :: string_list s' end.
Fixpoint list_string (l : list Ascii.ascii) : string :=
  match l with [] => EmptyString | a :: l' => String a (list_string l') end.

Lemma string_list_string l : string_list (list_string l) = l.
Proof. induction l as [|a l IH]; simpl; [done|]. by rewrite IH. Qed.

Definition ascii_ts (a : Ascii.ascii) : Z := Z.of_nat (Ascii.nat_of_ascii a).

#[export] Instance ascii_parquet : Parquet Ascii.ascii := {|
  row_ts := ascii_ts;
  pq_write _ rows := list_string rows;
  pq_batches _ b := Ok ((λ a, [a]) <$> string_list b);
  pq_schema _ := Ok "one character"%string;
  pq_accepts := String.eqb;
  pq_meta b := let rows := string_list b in
    Ok (PqMetadata (Z.of_nat (length rows)) true
          (match zmin (ascii_ts <$> rows) with Some m => [Some m] | None => [] end)) |}.

Lemma concat_singletons {A} (l : list A) : concat ((λ a, [a]) <$> l) = l.
Proof. induction l as [|x l IH]; simpl; [done|]. f_equal. exact IH. Qed.

#[export] Instance ascii_parquet_laws : ParquetLaws Ascii.ascii.
Proof.
  split; simpl; intros *.
  - intros _. eexists. split; [done|]. rewrite concat_singletons. apply string_list_string.
  - intros _ _ [= <-] [= <-]. done.
  - intros _ [= <-] [= <-]. simpl. by rewrite concat_singletons.
  - eauto.
  - intros _ [= <-] [= <-]. simpl. rewrite concat_singletons.
    destruct (zmin (ascii_ts <$> string_list b)) as [z|] eqn:Hz; [|destruct mins; done].
    destruct mins as [|m [|m' mins]]; simpl; try done. by intros [= ->] _.
Qed.

(** A second format, for rows of any countable type: the binary digits of the
    rows' code. *)
Section countable_rows.
Context {Row : Type} `{Countable Row} (ts : Row → Z).

Fixpoint bits (p : positive) : string :=
  match p with
  | xH => EmptyString
  | xO p => String (Ascii.ascii_of_nat 48) (bits p)
  | xI p => String (Ascii.ascii_of_nat 49) (bits p)
  end.
Fixpoint of_bits (s : string) : positive :=
  match s with
  | EmptyString => xH
  | String c s => if Ascii.eqb c (Ascii.ascii_of_nat 48) then xO (of_bits s) else xI (of_bits s)
  end.

Lemma of_bits_bits p : of_bits (bits p) = p.
Proof. induction p as [p IH|p IH|]; simpl; [|rewrite IH|]; [by rewrite IH|done|done]. Qed.

Definition countable_rows (b : bytes) : res (list Row) :=
  match decode (of_bits b) with Some rows => Ok rows | None => Raise (OtherException "ArrowInvalid") end.

Definition countable_parquet : Parquet Row := {|
  row_ts := ts;
  pq_write _ rows := bits (encode rows);
  pq_batches _ b := rbind (countable_rows b) (λ rows, Ok [rows]);
  pq_schema _ := Ok "rows"%string;
  pq_accepts := String.eqb;
  pq_meta b := rbind (countable_rows b) (λ rows,
    Ok (PqMetadata (Z.of_nat (length rows)) true (match zmin (ts <$> rows) with Some m => [Some m] | None => [] end))) |}.

Lemma countable_rows_bits (rows : list Row) : countable_rows (bits (encode rows)) = Ok rows.
Proof. unfold countable_rows. by rewrite of_bits_bits, decode_encode. Qed.

Lemma countable_parquet_laws : @ParquetLaws Row countable_parquet.
Proof.
  split; cbn [pq_write pq_batches pq_meta row_ts countable_parquet].
  - intros n schema rows _. rewrite countable_rows_bits. simpl. eexists. split; [done|]. apply app_nil_r.
  - intros n n' b bs bs' _ _. destruct (countable_rows b); simpl; [|done]. congruence.
  - intros n b bs m _. destruct (countable_rows b) as [rows|]; simpl; [|done]. intros [= <-] [= <-]. simpl. by rewrite app_nil_r.
  - intros n b m _. destruct (countable_rows b); simpl; [eauto|done].
  - intros n b bs m mins _. destruct (countable_rows b) as [rows|]; simpl; [|done]. intros [= <-] [= <-]. simpl. rewrite app_nil_r.
    destruct (zmin (ts <$> rows)) as [z|] eqn:Hz; [|destruct mins; done].
    destruct mins as [|m0 [|m' mins]]; simpl; try done. by intros [= ->] _.
Qed.

End countable_rows.
