(* ===== verification/L1Rows.v ===== *)
(** * From log lines to rows ([compactor/l1.py], the conversion)

    A sealed segment is read line by line, each line decoded and turned into
    the records of its channel; pyarrow makes a table of them, which is sorted.
    Tables, and the [TickRecord] class of the market package, are the interface
    [Tables]; what precedes them is computed here.  The text of a segment is
    its UTF-8 bytes: white space outside ASCII is not stripped from a line. *)
From S2P Require Import Prelude PyDict PyDecimal PyFloat NasKey Wal PyTime Ndjson DecimalText Parquet Collector.
From Stdlib Require Import Ascii.
Open Scope string_scope.
Open Scope list_scope.
Open Scope Z_scope.

(** ** Python's operations on decoded values *)

Definition AttributeError : exn := OtherException "AttributeError".
(** [d[k]], [d.get(k)] and [for x in d] *)
Definition item (v : pyval) (k : string) : res pyval :=
  match v with PDict d => match dget d k with Some x => Ok x | None => Raise KeyError end | _ => Raise TypeError end.
Definition get_item (v : pyval) (k : string) : res pyval :=
  match v with PDict d => Ok (default PNone (dget d k)) | _ => Raise AttributeError end.
Fixpoint chars (s : string) : list string := match s with String c s' => String c "" :: chars s' | EmptyString => [] end.
Definition iterate (v : pyval) : res (list pyval) :=
  match v with
  | PList l => Ok l
  | PDict d => Ok (PStr <$> d.*1)
  | PStr s => Ok (PStr <$> chars s)
  | _ => Raise TypeError
  end.

(** [_parse_ts] *)
Definition parse_ts (v : pyval) : res Z :=
  match v with PDatetime us => Ok us | PStr s => fromisoformat s | _ => Raise TypeError end.

(** ** Records *)

Record tick_record := Tick {
  t_ts : Z; t_received : Z; t_exchange : pyval; t_symbol : pyval; t_price : num; t_quantity : num;
  t_side : pyval; t_raw : pyval }.
Record snapshot_level := SnapshotLevel {
  s_ts : Z; s_received : Z; s_exchange : pyval; s_symbol : pyval; s_baseline_seq : Z; s_side : string; s_level : Z;
  s_price : num; s_quantity : num; s_payload_hash : string; s_raw : pyval }.
Record depth_row := DepthRow {
  d_ts : Z; d_received : Z; d_exchange : pyval; d_symbol : pyval; d_side : pyval; d_price : num; d_quantity : num;
  d_raw : pyval; d_node_id : string; d_run_id : string; d_ingest_seq : Z }.

(** ** The tables *)

Class Tables (Row : Type) `{Parquet Row} := {
  (** [TickRecord(...)]: the checks of the market package *)
  tick_init : tick_record → res unit;
  (** [pa.Table.from_pydict] and [from_pylist] with the channel's schema *)
  tick_table : list tick_record → res (list Row);
  snapshot_table : list snapshot_level → res (list Row);
  depth_table : list depth_row → res (list Row);
  (** [table.sort_by("ts_utc")] *)
  table_sort : list Row → list Row;
  (** [schema.with_metadata({node_id: ...})] *)
  with_node_id : string → string → string }.

Class TablesLaws (Row : Type) `{Tables Row} := {
  tick_table_rows rs rows : tick_table rs = Ok rows → row_ts <$> rows = t_ts <$> rs;
  snapshot_table_rows rs rows : snapshot_table rs = Ok rows → row_ts <$> rows = s_ts <$> rs;
  depth_table_rows rs rows : depth_table rs = Ok rows → row_ts <$> rows = d_ts <$> rs;
  table_sort_perm rows : table_sort rows ≡ₚ rows;
  table_sort_sorted rows : StronglySorted Z.le (row_ts <$> table_sort rows) }.

(** ** Reading the segment *)

Definition is_newline (c : ascii) : bool := (ord c =? 10) || (ord c =? 13).
(** The lines of a text; a [\r\n] gives an empty line more, and those are
    skipped. *)
Fixpoint text_lines (s : string) : list string :=
  match s with
  | EmptyString => [""]
  | String c s' =>
      if is_newline c then "" :: text_lines s'
      else match text_lines s' with l :: ls => String c l :: ls | [] => [String c ""] end
  end.
(** [_read_ndjson] *)
Definition read_ndjson (text : string) : res (list pyval) :=
  res_map decode_line (List.filter (λ l, negb (String.eqb l "")) (strip_ws <$> text_lines text)).

(** ** Transactions ([_tick_dicts_to_arrow]) *)

Section rows.
Context {Row : Type} `{Tables Row}.
Open Scope py_scope.

Definition tick_of (d : pyval) : res tick_record :=
  let? ts := rbind (item d "ts_utc") parse_ts in
  let? received := rbind (item d "received_at") parse_ts in
  let? raw := get_item d "raw_json" in
  let? exchange := item d "exchange" in
  let? symbol := item d "symbol" in
  let? price := rbind (item d "price") decimal_of_value in
  let? quantity := rbind (item d "quantity") decimal_of_value in
  let? side := item d "side" in
  let t := Tick ts received exchange symbol price quantity side raw in
  let? _ := tick_init t in Ok t.

Definition tick_dicts_to_arrow (raws : list pyval) : res (list Row) := rbind (res_map tick_of raws) tick_table.

(** ** Order-book snapshots ([_ob_snapshot_dicts_to_arrow]) *)

(** [json.dumps(v, sort_keys=True, separators=(",", ":"))] *)
Fixpoint dumps (v : pyval) : res string :=
  match v with
  | PNone => Ok "null"
  | PBool b => Ok (if b then "true" else "false")
  | PInt z => Ok (int_text z)
  | PStr s => Ok (quoted (escape_key s))
  | PConst s => Ok s
  | PList l => rbind (res_map dumps l) (λ ts, Ok ("[" +:+ comma ts +:+ "]"))
  | PDict d =>
      rbind (res_map (λ e, rbind (dumps e.2) (λ t, Ok (e.1, t))) d) (λ kts,
      Ok ("{" +:+ comma ((λ e, quoted (escape_key e.1) +:+ ":" +:+ e.2) <$> sort_le (λ a b, String.leb a.1 b.1) kts) +:+ "}"))
  | PDec _ | PDecSpecial | PDatetime _ | POther => Raise TypeError
  end.

Context (sha256_hex : bytes → string).
(** [_compute_payload_hash] *)
Definition compute_payload_hash (exchange symbol : pyval) (seq : Z) (bids asks : list (num * num)) : res string :=
  let pairs l := PList ((λ p : num * num, PList [PStr (num_text p.1); PStr (num_text p.2)]) <$> l) in
  let? canonical := dumps (PDict [("exchange", exchange); ("symbol", symbol); ("baseline_seq", PInt seq);
                                  ("bids", pairs bids); ("asks", pairs asks)]) in
  Ok (String.substring 0 16 (sha256_hex canonical)).

Definition level_pair (lvl : pyval) : res (num * num) :=
  let? price := rbind (item lvl "price") decimal_of_value in
  let? quantity := rbind (item lvl "quantity") decimal_of_value in Ok (price, quantity).

(** The levels of one side, numbered from 0 *)
Definition side_levels (make : string → Z → num → num → snapshot_level) (side : string) (pairs : list (num * num)) :
    list snapshot_level :=
  imap (λ i p, make side (Z.of_nat i) p.1 p.2) pairs.

Definition snapshot_levels_of (d : pyval) : res (list snapshot_level) :=
  let? ts := rbind (item d "ts_utc") parse_ts in
  let? received := rbind (item d "received_at") parse_ts in
  let? exchange := item d "exchange" in
  let? symbol := item d "symbol" in
  let? raw := get_item d "raw_json" in
  let? bids := rbind (rbind (item d "bids") iterate) (res_map level_pair) in
  let? asks := rbind (rbind (item d "asks") iterate) (res_map level_pair) in
  let? hash := compute_payload_hash exchange symbol (baseline_seq ts) bids asks in
  let make side level price quantity :=
    SnapshotLevel ts received exchange symbol (baseline_seq ts) side level price quantity hash raw in
  Ok (side_levels make "bid" bids ++ side_levels make "ask" asks).

Definition ob_snapshot_dicts_to_arrow (raws : list pyval) : res (list Row) :=
  rbind (res_map snapshot_levels_of raws) (λ ls, snapshot_table (concat ls)).

(** ** Order-book changes ([_orderbookdepth_dicts_to_arrow]) *)

Definition is_none (v : pyval) : bool := match v with PNone => true | _ => false end.

(** One change of the frame at index [ingest_seq]; the counter of malformed
    frames is not modelled. *)
Definition depth_row_of (node_id run_id : string) (ts received ingest_seq : Z) (frame change : pyval) : res depth_row :=
  let? side := get_item change "side" in
  let? price := get_item change "price" in
  let? quantity := get_item change "quantity" in
  if is_none side || is_none price || is_none quantity then Raise ValueError else
  let? exchange := item frame "exchange" in
  let? symbol := item frame "symbol" in
  let? p := decimal_of_value price in
  let? q := decimal_of_value quantity in
  let? raw := get_item frame "raw_json" in
  Ok (DepthRow ts received exchange symbol side p q raw node_id run_id ingest_seq).

Definition depth_rows_of (node_id run_id : string) (ingest_seq : Z) (frame : pyval) : res (list depth_row) :=
  let? ts := rbind (item frame "ts_utc") parse_ts in
  let? received := rbind (item frame "received_at") parse_ts in
  let? changes := rbind (item frame "changes") iterate in
  res_map (depth_row_of node_id run_id ts received ingest_seq frame) changes.

Definition orderbookdepth_dicts_to_arrow (node_id run_id : string) (raws : list pyval) : res (list Row) :=
  rbind (res_map id (imap (λ i, depth_rows_of node_id run_id (Z.of_nat i)) raws)) (λ rs, depth_table (concat rs)).

(** [_convert_to_arrow] *)
Definition convert_to_arrow (node_id run_id channel : string) (raws : list pyval) : res (list Row) :=
  if String.eqb channel "transaction" then tick_dicts_to_arrow raws
  else if String.eqb channel "orderbooksnapshot" then ob_snapshot_dicts_to_arrow raws
  else if String.eqb channel "orderbookdepth" then orderbookdepth_dicts_to_arrow node_id run_id raws
  else Raise NotImplementedError.

(** The table of a segment's text *)
Definition segment_rows (node_id run_id channel text : string) : res (list Row) :=
  let? raws := read_ndjson text in
  let? rows := convert_to_arrow node_id run_id channel raws in Ok (table_sort rows).
End rows.

(** ** Lemmas *)

#[local] Arguments String.append !_ _ / : simpl nomatch.

(** *** Encoded text has no control characters *)

Definition printable (c : ascii) : bool := 32 <=? ord c.
Notation clean := (all_chars printable).

Lemma digit_printable c : is_digit c = true → printable c = true.
Proof. unfold is_digit, printable. intros [H _]%andb_true_iff. apply Z.leb_le in H. apply Z.leb_le. lia. Qed.

Lemma clean_int z : clean (int_text z) = true.
Proof.
  destruct (int_text_signed z) as [-> _]. rewrite all_chars_app, (all_chars_nat _ _ digit_printable). by destruct (z <? 0).
Qed.

Lemma clean_format_f d : clean (format_f d) = true.
Proof.
  destruct (decide (0 <= expo d)) as [He|He]; [rewrite format_f_integral by done; apply clean_int|].
  unfold format_f. replace (0 <=? expo d) with false by (symmetry; apply Z.leb_gt; lia). cbv zeta.
  rewrite !all_chars_app, (all_chars_nat _ _ digit_printable), (all_chars_pad _ _ _ digit_printable).
  by destruct (coef d <? 0).
Qed.

Lemma clean_escape s : clean (escape s) = true.
Proof.
  induction s as [|c s IH]; [done|]. cbn [escape]. rewrite all_chars_app, IH, andb_true_r. clear.
  destruct c as [[] [] [] [] [] [] [] []]; reflexivity.
Qed.
Lemma clean_quoted s : clean (quoted (escape s)) = true.
Proof. unfold quoted. cbn [all_chars]. rewrite all_chars_app, clean_escape. done. Qed.

Lemma clean_comma ts : Forall (λ t, clean t = true) ts → clean (comma ts) = true.
Proof.
  induction 1 as [|t ts Ht Hts IH]; [done|]. rewrite comma_cons, all_chars_app, Ht. destruct ts; [done|].
  by rewrite all_chars_app, IH.
Qed.

Lemma res_map_Forall {A B} (f : A → res B) (P : B → Prop) l ts :
  res_map f l = Ok ts → Forall (λ x, ∀ t, f x = Ok t → P t) l → Forall P ts.
Proof.
  intros Hts%res_map_ok Hl. induction Hts as [|x t l ts Ht _ IH]; [done|].
  apply Forall_cons_1 in Hl as [Hx Hl]. constructor; auto.
Qed.

Lemma encode_clean v t : json_ok v = true → encode v = Ok t → clean t = true.
Proof.
  revert t. apply (pyval_nested (λ v, ∀ t, json_ok v = true → encode v = Ok t → clean t = true)); clear v.
  - intros l Hl t Hok. cbn [json_ok encode] in *. destruct (res_map encode l) as [ts|] eqn:Hts; [|done].
    intros <-%Ok_inj. rewrite !all_chars_app, clean_comma; [done|]. eapply res_map_Forall; [exact Hts|].
    eapply Forall_impl; [apply Forall_and; split; [exact Hl|apply Forall_forall; intros x Hx; eapply forallb_forall in Hok; [exact Hok|by apply list_elem_of_In]]|].
    intros x [Hx Hxo] t' Ht'. by apply Hx.
  - intros d Hd t Hok. cbn [json_ok encode] in *. apply andb_true_iff in Hok as [Hok _].
    match goal with |- context [res_map ?f d] => destruct (res_map f d) as [ts|] eqn:Hts end; [|done].
    intros <-%Ok_inj. rewrite !all_chars_app, clean_comma; [done|]. eapply res_map_Forall; [exact Hts|].
    eapply Forall_impl; [apply Forall_and; split; [exact Hd|apply Forall_forall; intros x Hx; eapply forallb_forall in Hok; [exact Hok|by apply list_elem_of_In]]|].
    intros e [He [Hk Heo]%andb_true_iff] t' Ht'. destruct (encode e.2) as [t2|] eqn:H2; [|done]. apply Ok_inj in Ht' as <-.
    rewrite all_chars_app, escape_key_ok, clean_quoted by done. cbn. by apply He.
  - intros v. destruct v; try done; intros t Hok; cbn [encode json_ok] in *; intros <-%Ok_inj.
    + done.
    + by destruct b.
    + apply clean_int.
    + apply clean_format_f.
    + apply clean_quoted.
    + apply clean_quoted.
    + repeat (apply orb_true_iff in Hok as [->%String.eqb_eq|Hok]; [done|]). done.
Qed.

(** *** The lines of a segment *)

Lemma text_lines_line t rest : clean t = true → text_lines (t +:+ newline +:+ rest) = t :: text_lines rest.
Proof.
  induction t as [|c t IH]; cbn [all_chars String.append]; [done|]. intros [Hc Ht]%andb_true_iff.
  cbn [text_lines]. rewrite (IH Ht). unfold is_newline, printable in *. apply Z.leb_le in Hc.
  replace (ord c =? 10) with false by (symmetry; apply Z.eqb_neq; lia).
  replace (ord c =? 13) with false by (symmetry; apply Z.eqb_neq; lia). done.
Qed.

Lemma strip_ws_braces x : strip_ws ("{" +:+ x +:+ "}") = "{" +:+ x +:+ "}".
Proof.
  unfold strip_ws. change (lstrip_ws ("{" +:+ x +:+ "}")) with ("{" +:+ x +:+ "}").
  rewrite <- string_app_assoc, string_rev_app. change (string_rev "}") with "}".
  change (lstrip_ws ("}" +:+ string_rev ("{" +:+ x))) with ("}" +:+ string_rev ("{" +:+ x)).
  by rewrite string_rev_app, string_rev_rev.
Qed.

Lemma decode_encoded record t : json_ok (PDict record) = true → encode (PDict record) = Ok t →
  decode_line t = Ok (decoded (PDict record)).
Proof.
  intros Hok Ht. unfold decode_line. destruct (encode_head _ _ Hok Ht) as (c&t'&Htc&Hws&_).
  assert (skip_ws t = t) as -> by (rewrite Htc; by apply skip_ws_first).
  pose proof (all_read_back (PDict record) t (line_fuel t) "" Hok Ht) as Hb. rewrite string_app_nil_r in Hb.
  rewrite Hb; [done|unfold line_fuel; lia|done].
Qed.

Fixpoint concat_text (ls : list string) : string := match ls with l :: ls => l +:+ concat_text ls | [] => "" end.

(** A text made of encoded records reads back as those records. *)
Lemma read_ndjson_lines records lines : Forall (λ r, json_ok (PDict r) = true) records →
  res_map encode_record records = Ok lines →
  read_ndjson (concat_text lines) = Ok ((λ r, decoded (PDict r)) <$> records).
Proof.
  intros Hok Hl%res_map_ok. unfold read_ndjson. induction Hl as [|r line records lines Hr _ IH]; [done|].
  apply Forall_cons_1 in Hok as [Hr_ok Hok]. specialize (IH Hok). unfold encode_record in Hr.
  destruct (encode (PDict r)) as [t|] eqn:Ht; [|done]. apply Ok_inj in Hr as <-. cbn [concat_text].
  rewrite string_app_assoc, text_lines_line by (by eapply encode_clean). rewrite fmap_cons. cbn [List.filter].
  assert (strip_ws t = t) as ->.
  { cbn [encode] in Ht. destruct (res_map _ r); [|done]. apply Ok_inj in Ht as <-. apply strip_ws_braces. }
  assert (negb (String.eqb t "") = true) as ->.
  { destruct (encode_head _ _ Hr_ok Ht) as (c&t'&->&_). done. }
  cbn [res_map]. rewrite (decode_encoded r t) by done. cbn [rbind]. 
  fold (res_map decode_line). rewrite IH. done.
Qed.

(** ** From an event to its row

    The records of the collector are encoded by the codec, read back and
    converted. *)

(** The collector's values as the codec sees them *)
Definition json_value (v : value) : pyval :=
  match v with
  | VNone => PNone
  | VStr s => PStr s
  | VTime us => PDatetime us
  | VDec d => PDec d
  | VRows rows => PList ((λ r, PDict ((λ e, (e.1, match e.2 with VStr s => PStr s | VDec d => PDec d | VTime us => PDatetime us | _ => PNone end)) <$> r)) <$> rows)
  end.
Definition json_record (r : record) : list (string * pyval) := (λ e, (e.1, json_value e.2)) <$> r.
Definition wal_line (r : record) : res string := encode_record (json_record r).

(** The number a row holds for a logged decimal, and what the row holds of an
    event; [raw] is the text of the raw message. *)
Definition plain (d : decimal) : decimal := if 0 <=? expo d then Dec (coef d * 10 ^ expo d) 0 else d.
Definition raw_value (ev : event) : pyval := match raw_json ev with Ok v => json_value v | Raise _ => PNone end.
Definition tick_of_event (cfg : daemon_config) (ev : event) : tick_record :=
  Tick (ev_event_time ev) (ev_received_at ev) (PStr (c_exchange cfg)) (PStr (c_symbol cfg))
    (Num (plain (ev_price ev))) (Num (plain (ev_quantity ev))) (PStr (ev_side ev)) (raw_value ev).
Definition depth_rows_of_event (cfg : daemon_config) (node_id run_id : string) (ingest_seq : Z) (ev : event) : list depth_row :=
  (λ x, DepthRow (ev_event_time ev) (ev_received_at ev) (PStr (c_exchange cfg)) (PStr (c_symbol cfg)) (PStr x.1.1)
     (Num (plain x.1.2)) (Num (plain x.2)) (raw_value ev) node_id run_id ingest_seq) <$> ev_changes ev.

(** The times of an event are in the range of [datetime]. *)
Definition times_ok (ev : event) : Prop :=
  date_in_range (ev_event_time ev / 1000000 / 86400) ∧ date_in_range (ev_received_at ev / 1000000 / 86400).

Lemma raw_json_decoded ev v : raw_json ev = Ok v → decoded (json_value v) = raw_value ev.
Proof.
  unfold raw_value. intros Hr. rewrite Hr. unfold raw_json in Hr. destruct (ev_raw ev) as [[s|]|]; simpl in Hr; [| done |];
    by apply Ok_inj in Hr as <-.
Qed.

Lemma raw_json_ok ev v : raw_json ev = Ok v → json_ok (json_value v) = true.
Proof. unfold raw_json. destruct (ev_raw ev) as [[s|]|]; simpl; [| done |]; by intros <-%Ok_inj. Qed.

Lemma decoded_num d : decimal_of_value (decoded (PDec d)) = Ok (Num (plain d)).
Proof. apply decoded_number. Qed.

(** Fields of a concrete dictionary *)
Lemma item_cons k k' v d : item (PDict ((k', v) :: d)) k = if String.eqb k k' then Ok v else item (PDict d) k.
Proof. unfold item. simpl. destruct (String.eqb_spec k k'), (decide (k = k')); congruence. Qed.
Lemma get_item_cons k k' v d : get_item (PDict ((k', v) :: d)) k = if String.eqb k k' then Ok v else get_item (PDict d) k.
Proof. unfold get_item. simpl. destruct (String.eqb_spec k k'), (decide (k = k')); simpl; congruence. Qed.
Lemma parse_ts_decoded us : date_in_range (us / 1000000 / 86400) → parse_ts (decoded (PDatetime us)) = Ok us.
Proof. apply time_round_trip. Qed.
Lemma decoded_dict d : decoded (PDict d) = PDict (List.map (λ e, (e.1, decoded e.2)) d).
Proof. done. Qed.
Ltac fields := rewrite ?item_cons, ?get_item_cons; cbn [String.eqb Ascii.eqb Bool.eqb rbind].

Section event_rows.
Context {Row : Type} `{Tables Row}.
Context (cfg : daemon_config).

Lemma transaction_tick ev r : times_ok ev → transaction_record cfg ev = Ok r → tick_init (tick_of_event cfg ev) = Ok tt →
  json_ok (PDict (json_record r)) = true ∧ tick_of (decoded (PDict (json_record r))) = Ok (tick_of_event cfg ev).
Proof.
  intros [Ht Hr] Hrec Hinit. unfold transaction_record, with_raw in Hrec. destruct (raw_json ev) as [v|] eqn:Hv; [|done].
  apply Ok_inj in Hrec as <-. split.
  - cbn [json_record header app fmap list_fmap json_value json_ok forallb fst snd key_ok andb]. rewrite (raw_json_ok _ _ Hv).
    reflexivity.
  - unfold tick_of. cbn [json_record header app fmap list_fmap json_value]. rewrite decoded_dict.
    cbn [List.map fst snd json_value]. fields.
    rewrite !parse_ts_decoded, (raw_json_decoded _ _ Hv), !decoded_num by done. cbn [rbind].
    unfold tick_of_event in Hinit. cbn [decoded] in *. by rewrite Hinit.
Qed.

(** The dictionaries of a list of changes or levels *)
Lemma map_fmap_list {A B} (f : A → B) l : List.map f l = f <$> l.
Proof. done. Qed.

Lemma res_map_cons {A B} (f : A → res B) x l :
  res_map f (x :: l) = rbind (f x) (λ y, rbind (res_map f l) (λ ys, Ok (y :: ys))).
Proof. done. Qed.
Lemma res_map_fmap {A B C} (f : B → res C) (g : A → B) l : res_map f (g <$> l) = res_map (λ x, f (g x)) l.
Proof. induction l as [|x l IH]; [done|]. by rewrite fmap_cons, !res_map_cons, IH. Qed.
Lemma res_map_pure {A B} (f : A → res B) (g : A → B) l : (∀ x, x ∈ l → f x = Ok (g x)) → res_map f l = Ok (g <$> l).
Proof.
  intros Hf. induction l as [|x l IH]; [done|]. rewrite res_map_cons, Hf by left. cbn [rbind].
  rewrite IH; [done|]. intros y Hy. apply Hf. by right.
Qed.

Definition change_dict (x : string * decimal * decimal) : pyval :=
  PDict [("side", PStr x.1.1); ("price", PDec x.1.2); ("quantity", PDec x.2)].
Definition level_dict (x : decimal * decimal) : pyval := PDict [("price", PDec x.1); ("quantity", PDec x.2)].

Lemma forallb_fmap {A B} (p : B → bool) (f : A → B) l : (∀ x, p (f x) = true) → forallb p (f <$> l) = true.
Proof. intros Hp. induction l as [|x l IH]; [done|]. rewrite fmap_cons. cbn [forallb]. by rewrite Hp, IH. Qed.

Lemma decoded_list l : decoded (PList l) = PList (decoded <$> l).
Proof. done. Qed.

Lemma depth_rows ev r node_id run_id seq : times_ok ev → depth_record cfg ev = Ok r →
  json_ok (PDict (json_record r)) = true ∧
  depth_rows_of node_id run_id seq (decoded (PDict (json_record r))) = Ok (depth_rows_of_event cfg node_id run_id seq ev).
Proof.
  intros [Ht Hr] Hrec. unfold depth_record, with_raw in Hrec. destruct (raw_json ev) as [v|] eqn:Hv; [|done].
  apply Ok_inj in Hrec as <-. set (cs := ev_changes ev).
  assert (json_value (VRows ((λ x, [("side", VStr x.1.1); ("price", VDec x.1.2); ("quantity", VDec x.2)]) <$> cs)) =
    PList (change_dict <$> cs)) as Hcs.
  { cbn [json_value]. by rewrite <- list_fmap_compose. }
  split.
  - cbn [json_record header app fmap list_fmap fst snd]. rewrite Hcs.
    cbn [json_value json_ok forallb fst snd key_ok andb]. rewrite (raw_json_ok _ _ Hv), forallb_fmap; [reflexivity|done].
  - unfold depth_rows_of. cbn [json_record header app fmap list_fmap fst snd]. rewrite Hcs, decoded_dict.
    cbn [List.map fst snd json_value]. fields. rewrite !parse_ts_decoded by done. cbn [rbind].
    rewrite decoded_list. cbn [iterate rbind]. rewrite res_map_fmap, res_map_fmap.
    apply res_map_pure. intros x _. unfold depth_row_of, change_dict. rewrite decoded_dict. cbn [List.map fst snd]. fields.
    assert (∀ d, is_none (decoded (PDec d)) = false) as Hnone by (intros d; cbn; by destruct (0 <=? expo d)).
    rewrite !Hnone. change (is_none (decoded (PStr x.1.1))) with false. cbn [orb].
    fields. rewrite !decoded_num, (raw_json_decoded _ _ Hv). done.
Qed.

Context (sha256_hex : bytes → string).
(** The levels of a logged snapshot *)
Definition snapshot_levels_of_event (ev : event) : res (list snapshot_level) :=
  let plain2 l := (λ x : decimal * decimal, (Num (plain x.1), Num (plain x.2))) <$> l in
  let seq := baseline_seq (ev_event_time ev) in
  rbind (compute_payload_hash sha256_hex (PStr (c_exchange cfg)) (PStr (c_symbol cfg)) seq (plain2 (ev_bids ev)) (plain2 (ev_asks ev))) (λ hash,
  let make side level price quantity :=
    SnapshotLevel (ev_event_time ev) (ev_received_at ev) (PStr (c_exchange cfg)) (PStr (c_symbol cfg)) seq side level price quantity hash (raw_value ev) in
  Ok (side_levels make "bid" (plain2 (ev_bids ev)) ++ side_levels make "ask" (plain2 (ev_asks ev)))).

Lemma level_pairs l : res_map level_pair (decoded <$> (level_dict <$> l)) =
  Ok ((λ x : decimal * decimal, (Num (plain x.1), Num (plain x.2))) <$> l).
Proof.
  rewrite !res_map_fmap. apply res_map_pure. intros x _. unfold level_pair, level_dict. rewrite decoded_dict.
  cbn [List.map fst snd]. fields. by rewrite !decoded_num.
Qed.

Lemma snapshot_rows ev r : times_ok ev → snapshot_record cfg ev = Ok r →
  json_ok (PDict (json_record r)) = true ∧
  snapshot_levels_of sha256_hex (decoded (PDict (json_record r))) = snapshot_levels_of_event ev.
Proof.
  intros [Ht Hr] Hrec. unfold snapshot_record, with_raw in Hrec. destruct (raw_json ev) as [v|] eqn:Hv; [|done].
  apply Ok_inj in Hrec as <-.
  assert (∀ l, json_value (levels l) = PList (level_dict <$> l)) as Hl.
  { intros l. unfold levels. cbn [json_value]. by rewrite <- list_fmap_compose. }
  split.
  - cbn [json_record header app fmap list_fmap fst snd]. rewrite !Hl.
    cbn [json_value json_ok forallb fst snd key_ok andb]. rewrite (raw_json_ok _ _ Hv), !forallb_fmap; [reflexivity|done|done].
  - unfold snapshot_levels_of. cbn [json_record header app fmap list_fmap fst snd]. rewrite !Hl, decoded_dict.
    cbn [List.map fst snd json_value]. fields. rewrite !parse_ts_decoded by done. cbn [rbind].
    rewrite !decoded_list. cbn [iterate rbind]. rewrite !level_pairs. cbn [rbind]. by rewrite (raw_json_decoded _ _ Hv).
Qed.
End event_rows.

(** Lines the collector writes for a list of events *)
Definition logged (f : event → res record) (evs : list event) (lines : list string) : Prop :=
  ∃ recs, res_map f evs = Ok recs ∧ res_map wal_line recs = Ok lines.

Lemma logged_read (f : event → res record) (P : event → pyval → Prop) evs lines :
  (∀ ev r, ev ∈ evs → f ev = Ok r → json_ok (PDict (json_record r)) = true ∧ P ev (decoded (PDict (json_record r)))) →
  logged f evs lines → ∃ raws, read_ndjson (concat_text lines) = Ok raws ∧ Forall2 P evs raws.
Proof.
  intros Hf (recs&Hrecs%res_map_ok&Hlines). exists ((λ r, decoded (PDict r)) <$> (json_record <$> recs)). split.
  - apply read_ndjson_lines; [|by rewrite res_map_fmap]. apply Forall_fmap, Forall_forall. intros r Hr.
    apply list_elem_of_lookup in Hr as [i Hi]. destruct (Forall2_lookup_r _ _ _ _ _ Hrecs Hi) as (ev&Hev&Hok).
    eapply Hf; [by eapply list_elem_of_lookup_2|exact Hok].
  - rewrite <- list_fmap_compose. apply Forall2_fmap_r. clear Hlines.
    induction Hrecs as [|ev r evs recs Hr _ IH]; constructor; [eapply Hf; [by left|exact Hr]|].
    apply IH. intros ev' r' Hin. apply Hf. by right.
Qed.

Lemma res_map_related {A B C} (f : A → res C) (g : B → res C) l l' : Forall2 (λ y x, f x = g y) l' l → res_map f l = res_map g l'.
Proof. induction 1 as [|y x l' l Hxy _ IH]; [done|]. by rewrite !res_map_cons, Hxy, IH. Qed.

Lemma imap_related {A B C} (f : nat → A → C) (g : nat → B → C) l l' :
  Forall2 (λ y x, ∀ i, f i x = g i y) l' l → imap f l = imap g l'.
Proof.
  revert f g l'. induction l as [|x l IH]; intros f g l' Hl.
  - by apply Forall2_nil_inv_r in Hl as ->.
  - apply Forall2_cons_inv_r in Hl as (y&l1&Hxy&Hl1&->). cbn [imap]. rewrite Hxy. f_equal. apply IH.
    eapply Forall2_impl; [exact Hl1|]. intros u v Huv i. apply Huv.
Qed.

(** C8.  A segment that holds the lines the collector wrote for some events is
    converted to the rows of exactly those events: no event is lost, added or
    altered by the log and its reading, times are kept to the microsecond,
    prices and quantities keep their value, and the rows are those in
    timestamp order.  (Transactions, order-book changes and snapshots.) *)
Theorem logged_events_become_rows {Row} `{Tables Row} sha256_hex cfg node_id run_id evs lines :
  Forall times_ok evs →
  (logged (transaction_record cfg) evs lines → Forall (λ ev, tick_init (tick_of_event cfg ev) = Ok tt) evs →
   segment_rows sha256_hex node_id run_id "transaction" (concat_text lines) =
     rbind (tick_table (tick_of_event cfg <$> evs)) (λ rows, Ok (table_sort rows))) ∧
  (logged (depth_record cfg) evs lines →
   segment_rows sha256_hex node_id run_id "orderbookdepth" (concat_text lines) =
     rbind (depth_table (concat (imap (λ i, depth_rows_of_event cfg node_id run_id (Z.of_nat i)) evs))) (λ rows, Ok (table_sort rows))) ∧
  (logged (snapshot_record cfg) evs lines →
   segment_rows sha256_hex node_id run_id "orderbooksnapshot" (concat_text lines) =
     rbind (rbind (res_map (snapshot_levels_of_event cfg sha256_hex) evs) (λ ls, snapshot_table (concat ls))) (λ rows, Ok (table_sort rows))).
Proof.
  intros Ht. assert (∀ ev, ev ∈ evs → times_ok ev) as Ht' by (by apply Forall_forall). split_and!; intros Hl.
  - intros Hi. destruct (logged_read (transaction_record cfg) (λ ev d, tick_of d = Ok (tick_of_event cfg ev)) evs lines) as (raws&Hraws&Heq); [|exact Hl|].
    { intros ev r Hin Hr. apply transaction_tick; [by apply Ht'|done|]. eapply Forall_forall in Hi; done. }
    unfold segment_rows. rewrite Hraws. cbn [rbind]. change (convert_to_arrow _ _ _ "transaction" raws) with (tick_dicts_to_arrow raws).
    unfold tick_dicts_to_arrow. by rewrite (res_map_related _ _ _ _ Heq), (res_map_pure _ (tick_of_event cfg)).
  - destruct (logged_read (depth_record cfg) (λ ev d, ∀ i : nat, depth_rows_of node_id run_id (Z.of_nat i) d = Ok (depth_rows_of_event cfg node_id run_id (Z.of_nat i) ev))
      evs lines) as (raws&Hraws&Heq); [|exact Hl|].
    { intros ev r Hin Hr. split; [by eapply (depth_rows cfg ev r "" "" 0); [apply Ht'|]|].
      intros i. by apply (depth_rows cfg ev r); [apply Ht'|]. }
    unfold segment_rows. rewrite Hraws. cbn [rbind].
    change (convert_to_arrow _ _ _ "orderbookdepth" raws) with (orderbookdepth_dicts_to_arrow node_id run_id raws).
    unfold orderbookdepth_dicts_to_arrow. rewrite (imap_related (λ i, depth_rows_of node_id run_id (Z.of_nat i))
      (λ i ev, Ok (depth_rows_of_event cfg node_id run_id (Z.of_nat i) ev)) raws evs Heq).
    replace (imap (λ i ev, Ok (depth_rows_of_event cfg node_id run_id (Z.of_nat i) ev)) evs)
      with (Ok <$> imap (λ i, depth_rows_of_event cfg node_id run_id (Z.of_nat i)) evs) by (by rewrite fmap_imap).
    rewrite res_map_fmap, (res_map_pure _ id), list_fmap_id by done. done.
  - destruct (logged_read (snapshot_record cfg) (λ ev d, snapshot_levels_of sha256_hex d = snapshot_levels_of_event cfg sha256_hex ev) evs lines)
      as (raws&Hraws&Heq); [|exact Hl|].
    { intros ev r Hin Hr. apply snapshot_rows; [by apply Ht'|done]. }
    unfold segment_rows. rewrite Hraws. cbn [rbind].
    change (convert_to_arrow _ _ _ "orderbooksnapshot" raws) with (ob_snapshot_dicts_to_arrow sha256_hex raws).
    unfold ob_snapshot_dicts_to_arrow. by rewrite (res_map_related _ _ _ _ Heq).
Qed.

(** ** A concrete table format, for witnesses

    The rows of [ascii_parquet]: a table keeps the times of its records, which
    must be below 256 microseconds. *)

Definition ascii_table (ts : list Z) : res (list ascii) :=
  if forallb (λ t, (0 <=? t) && (t <? 256)) ts then Ok ((λ t, ascii_of_nat (Z.to_nat t)) <$> ts) else Raise (OtherException "ArrowInvalid").

#[export] Instance ascii_tables : Tables ascii := {|
  tick_init _ := Ok tt;
  tick_table rs := ascii_table (t_ts <$> rs);
  snapshot_table rs := ascii_table (s_ts <$> rs);
  depth_table rs := ascii_table (d_ts <$> rs);
  table_sort := sorted_by row_ts;
  with_node_id schema node_id := schema +:+ ";node_id=" +:+ node_id |}.

Lemma ascii_table_rows ts rows : ascii_table ts = Ok rows → row_ts <$> rows = ts.
Proof.
  unfold ascii_table. destruct (forallb _ ts) eqn:Hts; [|done]. intros [= <-]. rewrite <- list_fmap_compose.
  induction ts as [|t ts IH]; [done|]. cbn [forallb] in Hts. apply andb_true_iff in Hts as [Ht Hts].
  rewrite fmap_cons, (IH Hts). f_equal. apply andb_true_iff in Ht as [H1 H2]. py_bool. simpl. unfold ascii_ts.
  rewrite nat_ascii_embedding by lia. lia.
Qed.

#[export] Instance ascii_tables_laws : TablesLaws ascii.
Proof.
  split; simpl.
  - intros rs rows. apply ascii_table_rows.
  - intros rs rows. apply ascii_table_rows.
  - intros rs rows. apply ascii_table_rows.
  - intros rows. apply sorted_by_perm.
  - intros rows. generalize (sorted_by_sorted ascii_ts rows). intros Hs. generalize dependent (sorted_by ascii_ts rows).
    induction 1 as [|r l _ IH Hall]; constructor; [done|by apply Forall_fmap].
Qed.

Definition example_events : list event :=
  [Event "transaction" "KRW-BTC" 70 90 (Dec 1500 (-2)) (Dec 3 1) "buy" [] [] [] None;
   Event "transaction" "KRW-BTC" 65 91 (Dec 12345 (-3)) (Dec 5 0) "sell" [] [] [] None].
Definition example_lines : list string :=
  match res_map (transaction_record example_config) example_events with
  | Ok recs => match res_map wal_line recs with Ok ls => ls | _ => [] end
  | _ => [] end.

Lemma logged_events_become_rows_witness :
  segment_rows (λ b, b) "n" "r" "transaction" (concat_text example_lines) =
  rbind (tick_table (tick_of_event example_config <$> example_events)) (λ rows, Ok (table_sort (Row := ascii) rows)).
Proof.
  assert (Forall times_ok example_events) as Ht by (repeat constructor; vm_compute; congruence).
  assert (logged (transaction_record example_config) example_events example_lines) as Hl.
  { eexists. split; [vm_compute; reflexivity|]. vm_compute. reflexivity. }
  destruct (logged_events_become_rows (Row := ascii) (λ b, b) example_config "n" "r" example_events example_lines Ht) as (H&_&_).
  apply H; [exact Hl|]. repeat constructor.
Defined.

(** The sequence number of a snapshot is its time through a double: it is exact
    until January 2038 ([PyFloat.baseline_seq_exact]), and from then on off by
    one for some times. *)
Lemma baseline_seq_off_by_one :
  baseline_seq 1747100000123457 = 1747100000123457 ∧ baseline_seq 2147549192139158 = 2147549192139157.
Proof. split; vm_compute; reflexivity. Qed.
