(* ===== verification/Compactor.v ===== *)
(** * Compaction of L1 files into L2 and L3

    [compactor/l2.py], [compactor/l3.py] with [compactor/sort_key.py],
    [compactor/quarantine.py], [compactor/_nas_stream_cache.py] and
    [nas_storage/get_streaming.py].  Rows, Parquet files and their footers are
    those of the interface of [Parquet]; local files and the store are the
    [world] of [NasUploader].  A directory is recorded in the tree of files by
    its name with a slash at the end.  The order in which [rglob] meets files
    is an arbitrary function [scan]. *)
From S2P Require Import Prelude PyDict Hoare RetryQueue ObjectStore NasUploader NasKey Promotion DualWriter Wal PyTime Parquet.
Open Scope string_scope.
Open Scope list_scope.
Open Scope Z_scope.

Definition CHANNEL_SCHEMA_VERSION : dict string string :=
  [("transaction", "tick.v1"); ("orderbooksnapshot", "orderbook_snapshot.v1"); ("orderbookdepth", "orderbook_depth.v1")]%string.

(** [_schema_version]; the counter of unsupported channels is not modelled. *)
Definition schema_version (channel : string) : res string :=
  match dget CHANNEL_SCHEMA_VERSION channel with Some v => Ok v | None => Raise NotImplementedError end.

(** Errors of the file operations of one merge: creating the directory,
    writing the temporary file (which then holds [cf_partial]), the final
    replace, the rename into quarantine; does the clean-up unlink fail? *)
Record compact_faults := CompactFaults {
  cf_mkdir : option exn; cf_write : option exn; cf_partial : bytes; cf_replace : option exn;
  cf_rename : option exn; cf_unlink : bool }.
Definition no_compact_faults : compact_faults := CompactFaults None None "" None None false.

(** [path.stem] *)
Fixpoint split_first (c : Ascii.ascii) (s : string) : option (string * string) :=
  match s with
  | EmptyString => None
  | String a s' => if Ascii.eqb a c then Some ("", s') else (λ p, (String a p.1, p.2)) <$> split_first c s'
  end.
Definition stem (name : string) : string :=
  match split_first (Ascii.ascii_of_nat 46) (string_rev name) with
  | Some (ext, base) => if String.eqb ext "" || String.eqb base "" then name else string_rev base
  | None => name
  end.

(** ["|".join(parts)] *)
Fixpoint join_bar (parts : list string) : string :=
  match parts with [] => "" | [c] => c | c :: parts' => c +:+ "|" +:+ join_bar parts' end.

(** The name of a directory in the tree, and the tree once it and its parents
    exist ([mkdir(parents=True, exist_ok=True)]). *)
Definition dir_name (p : path) : string := fs_name p +:+ "/".
Definition add_dirs (p : path) (fs : gmap string bytes) : gmap string bytes :=
  foldr (λ i, <[dir_name (take i p) := ""]>) fs (seq 0 (S (length p))).

(** Does [dir.rglob("part-*.parquet")] meet the file? *)
Definition base_name (k : string) : string := default "" (last (split_slash k)).
Definition is_part (name : string) : bool := startswith "part-" name && endswith ".parquet" name.
Definition part_below (dir : path) (k : string) : bool := startswith (dir_name dir) k && is_part (base_name k).

(** [_extract_min_ts] of a file's content. *)
Section sort_key.
Context {Row : Type} `{Parquet Row}.

(** The group minima, or none if some group lacks statistics. *)
Definition stat_mins (mins : list (option Z)) : list Z := default [] (mapM id mins).

Definition extract_min_ts (b : bytes) : res (option Z) :=
  rbind (pq_meta b) (λ meta,
  if pm_num_rows meta =? 0 then Ok None else
  if negb (pm_has_ts meta) then Raise KeyError else
  match stat_mins (pm_group_min meta) with
  | [] => rbind (pq_batches 1 b) (λ batches,
      match batches with
      | (r :: _) :: _ => Ok (Some (row_ts r))
      | [] :: _ => Raise (OtherException "IndexError")
      | [] => Raise (OtherException "StopIteration")
      end)
  | mins => Ok (zmin mins)
  end).

(** The inner loop over one batch's timestamps: the new [last_ts], or a
    violation. *)
Fixpoint monotonic (last_ts : option Z) (ts : list Z) : option (option Z) :=
  match ts with
  | [] => Some last_ts
  | cur :: ts' =>
      if match last_ts with Some l => cur <? l | None => false end then None else monotonic (Some cur) ts'
  end.

(** The batches of one file: [last_ts], the rows written, the violation flag. *)
Fixpoint write_batches (schema file_schema : string) (last_ts : option Z) (written : list Row)
    (batches : list (list Row)) : res (option Z * list Row * bool) :=
  match batches with
  | [] => Ok (last_ts, written, false)
  | b :: batches' =>
      match monotonic last_ts (row_ts <$> b) with
      | None => Ok (last_ts, written, true)
      | Some last_ts' =>
          if pq_accepts schema file_schema
          then write_batches schema file_schema last_ts' (written ++ b) batches' else Raise ValueError
      end
  end.
End sort_key.

(** ** How the bytes of a source are obtained

    Locally a file is opened, on the NAS path an object is downloaded through
    a cache; the merge loop is the same.  [fetch_content] is what the source
    holds and [fetch_inv] relates the cache to the world. *)

(** A step that reads files and store only. *)
Definition reads {S} `{S3 S} (w w' : world S) : Prop := objects w' = objects w ∧ same_queue w w' ∧ same_files w w'.

Class Fetch (S C : Type) := {
  fetch : C → string → proc (world S) (C * bytes);
  fetch_content : world S → string → option bytes;
  fetch_inv : C → world S → Prop }.

Class FetchLaws (S C : Type) `{S3 S} `{!Fetch S C} := {
  fetch_reads c k w w' r : fetch c k w = (w', r) → reads w w';
  fetch_ok c k w w' c' b : fetch_inv c w → fetch c k w = (w', Ok (c', b)) →
    fetch_inv c' w' ∧ fetch_content w k = Some b;
  fetch_inv_frame c w w' : objects w' = objects w → fetch_inv c w → fetch_inv c w';
  fetch_content_frame w w' k : objects w' = objects w → w_fs w' !! k = w_fs w !! k →
    fetch_content w' k = fetch_content w k }.

(** [get_streaming] of a whole object, the only use the code makes of it. *)
Definition get_streaming {S} `{S3 S} (nas_key : string) : proc (world S) bytes := call_s3 (s3_get nas_key).

(** [_SizeGatedStreamCache] *)
Definition DEFAULT_THRESHOLD : Z := 128 * 1024 * 1024.
Record stream_cache := StreamCache { sc_cache : gmap string bytes; sc_total : Z }.
Definition empty_cache : stream_cache := StreamCache ∅ 0.

Definition get_or_fetch {S} `{S3 S} (threshold : Z) (c : stream_cache) (nas_key : string) :
    proc (world S) (stream_cache * bytes) :=
  match sc_cache c !! nas_key with
  | Some cached => pret (c, cached)
  | None =>
      pbind (get_streaming nas_key) (λ data,
      if sc_total c + blen data <=? threshold
      then pret (StreamCache (<[nas_key := data]> (sc_cache c)) (sc_total c + blen data), data)
      else pret (c, data))
  end.

#[export] Instance fetch_local {S} : Fetch S unit := {|
  fetch _ k := pbind (read_file k) (λ b, pret (tt, b));
  fetch_content w k := w_fs w !! k;
  fetch_inv _ _ := True |}.

#[export] Instance fetch_nas {S} `{S3 S} : Fetch S stream_cache := {|
  fetch := get_or_fetch DEFAULT_THRESHOLD;
  fetch_content w k := ob_body <$> objects w !! k;
  fetch_inv c w := map_Forall (λ k b, ob_body <$> objects w !! k = Some b) (sc_cache c) |}.

Section compactor.
Context {S : Type} `{S3 S} {Row : Type} `{Parquet Row}.
Context (sha256_hex : bytes → string) (scan : list string → list string) (pid : string) (faults : compact_faults).
Local Notation proc := (proc (world S)).

Definition mkdir (p : path) : proc unit :=
  match cf_mkdir faults with Some e => praise e | None => set_fs (add_dirs p) end.

(** [old.rename(new)], which replaces an existing file. *)
Definition rename (fault : option exn) (old new : string) : proc unit := λ w,
  match w_fs w !! old, fault with
  | None, _ => (w, Raise FileNotFoundError)
  | Some _, Some e => (w, Raise e)
  | Some b, None => set_fs (λ fs, <[new := b]> (delete old fs)) w
  end.

(** [quarantine_l2] ([depth] 9) and [quarantine_l3] ([depth] 8);
    [path.parents[depth]] exists when the path has more components. *)
Definition quarantine_path (depth : nat) (tmp : path) (channel date reason : string) : path :=
  take (length tmp - Datatypes.S depth) tmp ++
  ["market"; channel; "quarantine"; date; reason; "part-" +:+ stem (default "" (last tmp)) +:+ ".parquet"]%string.

Definition quarantine (depth : nat) (tmp : path) (channel date reason : string) : proc path :=
  if (length tmp <=? depth)%nat then praise (OtherException "IndexError") else
  let local_root := take (length tmp - Datatypes.S depth) tmp in
  pbind (plift (relative_to tmp local_root)) (λ _,
  let qpath := quarantine_path depth tmp channel date reason in
  let qdir := take (length qpath - 1) qpath in
  pbind (mkdir qdir) (λ _,
  pbind (plift (relative_to qdir local_root)) (λ _,
  pbind (rename (cf_rename faults) (fs_name tmp) (fs_name qpath)) (λ _, pret qpath)))).

(** The files [dir.rglob("part-*.parquet")] yields, in some order. *)
Definition rglob_parts (dir : path) : proc (list string) := λ w,
  (w, Ok (scan (List.filter (part_below dir) (map_to_list (w_fs w)).*1))).

Section merge.
Context {C : Type} `{!Fetch S C}.

(** The candidates with their sort keys; 0-row files are dropped. *)
Fixpoint keyed_from (c : C) (ks : list string) : proc (C * list (string * Z)) :=
  match ks with
  | [] => pret (c, [])
  | k :: ks' =>
      pbind (fetch c k) (λ cb,
      pbind (plift (extract_min_ts cb.2)) (λ ts,
      pbind (keyed_from cb.1 ks') (λ ck,
      pret (ck.1, match ts with Some t => (k, t) :: ck.2 | None => ck.2 end))))
  end.

(** The loop over the sources: the rows written and the violation flag. *)
Fixpoint write_sources (c : C) (schema : string) (last_ts : option Z) (written : list Row) (ks : list string) :
    proc (list Row * bool) :=
  match ks with
  | [] => pret (written, false)
  | k :: ks' =>
      pbind (fetch c k) (λ cb,
      pbind (plift (pq_schema cb.2)) (λ file_schema,
      pbind (plift (pq_batches 1024 cb.2)) (λ batches,
      pbind (plift (write_batches schema file_schema last_ts written batches)) (λ r,
      let '(last_ts', written', violation) := r in
      if violation then pret (written', true) else write_sources cb.1 schema last_ts' written' ks'))))
  end.

(** [with pq.ParquetWriter(str(tmp), schema) as writer: ...]: the violation
    flag.  A failure leaves something in the temporary file. *)
Definition write_tmp_file (c : C) (schema : string) (ks : list string) (tmp : path) : proc bool := λ w,
  let partial e := pbind (set_fs (<[fs_name tmp := cf_partial faults]>)) (λ _, praise e) in
  match write_sources c schema None [] ks w with
  | (w1, Raise e) => partial e w1
  | (w1, Ok (rows, violation)) =>
      match cf_write faults with
      | Some e => partial e w1
      | None => pbind (set_fs (<[fs_name tmp := pq_write schema rows]>)) (λ _, pret violation) w1
      end
  end.

(** [except Exception: os.unlink(tmp); raise] *)
Definition unlink_tmp {A} (tmp : path) (m : proc A) : proc A := λ w,
  match m w with
  | (w1, Ok a) => (w1, Ok a)
  | (w1, Raise e) => pbind (if cf_unlink faults then pret tt else set_fs (delete (fs_name tmp))) (λ _, praise e) w1
  end.

(** From the temporary file on: write, quarantine on a violation, publish
    otherwise. *)
Definition merge_tail (c : C) (schema : string) (ks : list string) (out_path tmp : path) (depth : nat)
    (channel date : string) : proc (option path) :=
  unlink_tmp tmp
    (pbind (write_tmp_file c schema ks tmp) (λ violation,
     if violation then pbind (quarantine depth tmp channel date "monotonic_violation") (λ _, pret None)
     else pbind (rename (cf_replace faults) (fs_name tmp) (fs_name out_path)) (λ _, pret (Some out_path)))).

(** The part the four entry points share, from the first source's schema on. *)
Definition merge (c : C) (ks : list string) (run_id : string) (out_dir : path) (depth : nat) (channel date : string) :
    proc (option path) :=
  match ks with
  | [] => pret None
  | k0 :: _ =>
      pbind (fetch c k0) (λ cb,
      pbind (plift (pq_schema cb.2)) (λ schema,
      pbind (mkdir out_dir) (λ _,
      merge_tail cb.1 schema ks (out_dir ++ ["part-" +:+ run_id +:+ ".parquet"])
        (out_dir ++ ["part-tmp-" +:+ pid +:+ ".tmp"]) depth channel date)))
  end.
End merge.

(** [[k for k, _ in sorted(keyed, key=lambda x: x[1])]] *)
Definition by_min_ts (keyed : list (string * Z)) : list string := (sorted_by snd keyed).*1.

(** [sha256("|".join(...)).hexdigest()[:16]] *)
Definition run_id (names : list string) : string := String.substring 0 16 (sha256_hex (join_bar names)).

Definition is_parquet (k : string) : bool := endswith ".parquet" k.

Context (root : path).
Local Notation day_dir tier channel schema_ver exchange symbol date :=
  (root ++ hive_dir tier channel schema_ver exchange symbol date).
Definition hour_dir (channel schema_ver exchange symbol date : string) (hour_utc : Z) : path :=
  day_dir "L2" channel schema_ver exchange symbol date ++ ["hour=" +:+ pad 2 hour_utc; "node=MERGED"].
Definition l3_dir (channel schema_ver exchange symbol date : string) : path :=
  day_dir "L3" channel schema_ver exchange symbol date ++ ["node=MERGED"].

(** The flat and legacy L1 keys of the day, one per canonical key, the flat one
    preferred. *)
Definition canonical_map (flat_keys legacy_keys : list string) : dict string string :=
  foldl (λ d k, (dsetdefault d (legacy_key_to_canonical k) k).2)
    (foldl (λ d k, dset d k k) [] flat_keys) legacy_keys.

Definition l1_candidates (flat_prefix legacy_prefix : string) : proc (list string) :=
  pbind (list_objects flat_prefix) (λ flat,
  pbind (list_objects legacy_prefix) (λ legacy,
  pret (sort_le String.leb (dvalues (canonical_map
    (sort_le String.leb (List.filter is_parquet flat)) (sort_le String.leb (List.filter is_parquet legacy))))))).

Definition compact_hour_nas (exchange symbol channel date schema_ver : string) (hour_utc : Z) : proc (option path) :=
  pbind (plift (build_l1_prefix channel schema_ver exchange symbol date)) (λ flat_prefix,
  pbind (plift (build_legacy_l1_prefix channel schema_ver exchange symbol date)) (λ legacy_prefix,
  pbind (emit_always (NasKeyHelperCall "l2_compactor_get_source" "L1")) (λ _,
  λ w, match l1_candidates flat_prefix legacy_prefix w with
  | (w1, Raise _) => (w1, Ok None)
  | (w1, Ok candidate_keys) =>
      pbind (keyed_from empty_cache candidate_keys) (λ ck,
      let nas_keys := by_min_ts ck.2 in
      let canonical_keys := sort_le String.leb (legacy_key_to_canonical <$> nas_keys) in
      merge ck.1 nas_keys (run_id canonical_keys) (hour_dir channel schema_ver exchange symbol date hour_utc)
        9 channel date) w1
  end))).

(** [L2Compactor.compact_hour] *)
Definition compact_hour (use_nas : bool) (exchange symbol channel : string) (date_utc hour_utc : Z) : proc (option path) :=
  let date := isoformat date_utc in
  pbind (plift (schema_version channel)) (λ schema_ver,
  if use_nas then compact_hour_nas exchange symbol channel date schema_ver hour_utc else
  pbind (rglob_parts (day_dir "L1" channel schema_ver exchange symbol date)) (λ candidates,
  pbind (keyed_from tt candidates) (λ ck,
  let l1_files := by_min_ts ck.2 in
  merge ck.1 l1_files (run_id l1_files) (hour_dir channel schema_ver exchange symbol date hour_utc) 9 channel date))).

Definition compact_day_nas (exchange symbol channel date schema_ver : string) : proc (option path) :=
  pbind (plift (build_nas_prefix "L2" channel schema_ver exchange symbol date)) (λ nas_prefix,
  pbind (emit_always (NasKeyHelperCall "l3_compactor_get_source" "L2")) (λ _,
  λ w, match list_objects nas_prefix w with
  | (w1, Raise _) => (w1, Ok None)
  | (w1, Ok keys) =>
      pbind (keyed_from empty_cache (List.filter is_parquet keys)) (λ ck,
      let nas_keys := by_min_ts ck.2 in
      merge ck.1 nas_keys (run_id nas_keys) (l3_dir channel schema_ver exchange symbol date) 8 channel date) w1
  end)).

(** [L3Compactor.compact_day] *)
Definition compact_day (use_nas : bool) (exchange symbol channel : string) (date_utc : Z) : proc (option path) :=
  let date := isoformat date_utc in
  pbind (plift (schema_version channel)) (λ schema_ver,
  if use_nas then compact_day_nas exchange symbol channel date schema_ver else
  pbind (rglob_parts (day_dir "L2" channel schema_ver exchange symbol date)) (λ candidates,
  pbind (keyed_from tt candidates) (λ ck,
  let l2_files := by_min_ts ck.2 in
  merge ck.1 l2_files (run_id l2_files) (l3_dir channel schema_ver exchange symbol date) 8 channel date))).
End compactor.

(** ** Lemmas *)

(** *** Names *)

#[local] Arguments String.append !_ _ / : simpl nomatch.

Fixpoint slashed (p : path) : string :=
  match p with [] => "" | c :: p' => String slash (c +:+ slashed p') end.

Lemma fs_name_app p q : p ≠ [] → fs_name (p ++ q) = fs_name p +:+ slashed q.
Proof.
  intros Hp. unfold fs_name. rewrite string_app_assoc. f_equal.
  induction p as [|c [|d p] IH]; [done| |].
  - cbn [app]. rewrite join_cons_app. change (join [c]) with c. f_equal. clear. induction q as [|d q IH]; [done|].
    cbn [slashed]. f_equal. rewrite join_cons_app. f_equal. exact IH.
  - cbn [app] in *. rewrite !(join_cons_app c), string_app_assoc. f_equal. cbn. f_equal. by apply IH.
Qed.

(** A name that starts with a Hive directory of one tier is not below one of
    another tier, nor below the quarantine. *)
Definition tier_prefix (root : path) (ch v tier : string) : string :=
  fs_name (root ++ ["market"; ch; "schema_version=" +:+ v]) +:+ "/tier=" +:+ tier +:+ "/".

Lemma hive_name root ch v tier e s d rest :
  ∃ t, fs_name (root ++ hive_dir tier ch v e s d ++ rest) = tier_prefix root ch v tier +:+ t.
Proof.
  unfold tier_prefix, hive_dir.
  change (?r ++ (?a :: ?b :: ?c :: ?l) ++ rest) with (r ++ [a; b; c] ++ (l ++ rest)).
  rewrite (app_assoc root), fs_name_app by (by destruct root). cbn [app slashed].
  exists ("exchange=" +:+ e +:+ slashed (["symbol=" +:+ s; "date=" +:+ d] ++ rest)).
  rewrite !string_app_assoc. f_equal.
Qed.

Lemma part_below_hive root ch v tier e s d k :
  part_below (root ++ hive_dir tier ch v e s d) k = true → ∃ t, k = tier_prefix root ch v tier +:+ t.
Proof.
  unfold part_below, dir_name, startswith. intros [[t ->]%prefix_split _]%andb_true_iff.
  destruct (hive_name root ch v tier e s d []) as [u Hu]. rewrite app_nil_r in Hu. rewrite Hu.
  eexists. by rewrite !string_app_assoc.
Qed.

Lemma tier_prefix_ne root ch v t1 t2 x y :
  (∀ x y, (t1 +:+ "/") +:+ x ≠ (t2 +:+ "/") +:+ y) →
  tier_prefix root ch v t1 +:+ x ≠ tier_prefix root ch v t2 +:+ y.
Proof.
  unfold tier_prefix. intros Hne. rewrite !string_app_assoc. intros Heq%string_app_inj_l.
  apply (string_app_inj_l "/tier=") in Heq. by rewrite <- !string_app_assoc in Heq; apply Hne in Heq.
Qed.

Lemma base_name_app s t : no_slash t = true → base_name (s +:+ String slash t) = t.
Proof.
  intros Ht%split_slash_component. unfold base_name.
  assert (∃ x l, split_slash (s +:+ String slash t) = x :: l ++ [t]) as (x&l&->).
  { induction s as [|a s (x&l&IH)]; simpl; [exists "", []; by rewrite Ht|]. rewrite IH.
    destruct (Ascii.eqb a slash); [by exists "", (x :: l)|by exists (String a x), l]. }
  change (x :: l ++ [t]) with ((x :: l) ++ [t]). by rewrite last_snoc.
Qed.

(** *** The merge loop on lists of rows *)

Notation sorted_ts rows := (StronglySorted Z.le (row_ts <$> rows)).

Lemma ssorted_last (l : list Z) z x : StronglySorted Z.le l → last l = Some z → x ∈ l → x <= z.
Proof.
  intros Hs (l'&->)%last_Some Hx. apply elem_of_app in Hx as [Hx| ->%list_elem_of_singleton]; [|done].
  eapply (StronglySorted_app_1_elem_of Z.le); [exact Hs|done|by left].
Qed.

Lemma ssorted_snoc (l : list Z) x :
  StronglySorted Z.le l → match last l with Some z => z <= x | None => True end → StronglySorted Z.le (l ++ [x]).
Proof.
  intros Hs Hl. apply StronglySorted_app. split_and!; [|done|by repeat constructor].
  intros y ? Hy ->%list_elem_of_singleton. destruct (last l) as [z|] eqn:Hz.
  - pose proof (ssorted_last _ _ _ Hs Hz Hy). lia.
  - apply last_None in Hz as ->. by apply not_elem_of_nil in Hy.
Qed.

Lemma monotonic_spec ts acc : StronglySorted Z.le acc →
  match monotonic (last acc) ts with
  | Some l => l = last (acc ++ ts) ∧ StronglySorted Z.le (acc ++ ts)
  | None => ¬ StronglySorted Z.le (acc ++ ts)
  end.
Proof.
  revert acc. induction ts as [|x ts IH]; intros acc Hs; simpl; [by rewrite app_nil_r|].
  destruct (match last acc with Some l => _ | None => _ end) eqn:Hc.
  - destruct (last acc) as [z|] eqn:Hz; [|done]. py_bool. intros Hall.
    apply last_Some in Hz as [l' ->].
    assert (z <= x); [|lia]. eapply (StronglySorted_app_1_elem_of Z.le); [exact Hall|set_solver|by left].
  - assert (StronglySorted Z.le (acc ++ [x])) as Hs'.
    { apply ssorted_snoc; [done|]. destruct (last acc); [|done]. by py_bool. }
    specialize (IH _ Hs'). rewrite last_snoc in IH.
    replace (acc ++ x :: ts) with ((acc ++ [x]) ++ ts) by by rewrite <- app_assoc. exact IH.
Qed.

Section rows.
Context {Row : Type} `{Parquet Row}.

Lemma write_batches_ok schema fs acc batches last' acc' viol :
  sorted_ts acc → write_batches schema fs (last (row_ts <$> acc)) acc batches = Ok (last', acc', viol) →
  sorted_ts acc' ∧ if viol then ¬ sorted_ts (acc ++ concat batches)
    else last' = last (row_ts <$> acc') ∧ acc' = acc ++ concat batches.
Proof.
  revert acc. induction batches as [|b batches IH]; intros acc Hs; simpl.
  { intros [= <- <- <-]. by rewrite app_nil_r. }
  pose proof (monotonic_spec (row_ts <$> b) (row_ts <$> acc) Hs) as Hm. rewrite <- fmap_app in Hm.
  destruct (monotonic _ _) as [l|].
  - destruct Hm as [-> Hs']. destruct (pq_accepts schema fs); [|done].
    intros Hw. apply IH in Hw; [|done]. by rewrite <- app_assoc in Hw.
  - intros [= <- <- <-]. split; [done|]. rewrite app_assoc, (fmap_app _ (acc ++ b)). intros Hss.
    by apply StronglySorted_app_1_l in Hss.
Qed.

(** Conversely, rows in order are all written. *)
Lemma write_batches_sorted schema fs acc batches :
  pq_accepts schema fs = true → sorted_ts (acc ++ concat batches) →
  write_batches schema fs (last (row_ts <$> acc)) acc batches =
    Ok (last (row_ts <$> acc ++ concat batches), acc ++ concat batches, false).
Proof.
  intros Ha. revert acc. induction batches as [|b batches IH]; intros acc Hs; simpl; [by rewrite app_nil_r|].
  simpl in Hs. rewrite app_assoc in Hs. pose proof Hs as Hb. rewrite fmap_app in Hb.
  apply StronglySorted_app_1_l in Hb. pose proof Hb as Hacc. rewrite fmap_app in Hacc.
  apply StronglySorted_app_1_l in Hacc.
  pose proof (monotonic_spec (row_ts <$> b) (row_ts <$> acc) Hacc) as Hm. rewrite <- fmap_app in Hm.
  destruct (monotonic _ _); [|done]. destruct Hm as [-> _]. rewrite Ha, IH by done. by rewrite app_assoc.
Qed.

Lemma stat_mins_all l : stat_mins l ≠ [] → l = Some <$> stat_mins l.
Proof.
  unfold stat_mins. destruct (mapM id l) as [ms|] eqn:Hm; [|done]. intros _. simpl.
  apply mapM_Some_1 in Hm. induction Hm as [|? ? ? ? Hx ? IH]; [done|]. rewrite fmap_cons, IH. by simpl in Hx; rewrite Hx.
Qed.

Context `{!ParquetLaws Row}.

(** The sort key of a file: none for a file without rows; otherwise the
    timestamp of some row, which is the least one where the file is sorted. *)
Lemma extract_min_ts_ok b t rows : extract_min_ts b = Ok t → pq_rows b = Ok rows →
  match t with
  | None => rows = []
  | Some z => rows ≠ [] ∧ z ∈ (row_ts <$> rows) ∧ (sorted_ts rows → ∀ x, x ∈ (row_ts <$> rows) → z <= x)
  end.
Proof.
  unfold extract_min_ts, pq_rows. destruct (pq_meta b) as [m|] eqn:Hm; [|done]. simpl.
  destruct (pq_batches 1024 b) as [bs|] eqn:Hb; [|done]. simpl. intros Ht [= <-].
  pose proof (pq_meta_rows 1024 b bs m ltac:(lia) Hm Hb) as Hn.
  destruct (pm_num_rows m =? 0) eqn:H0; py_bool.
  { injection Ht as <-. destruct (concat bs); [done|]. simpl in Hn. lia. }
  assert (concat bs ≠ []) as Hne by (intros Heq; rewrite Heq in Hn; simpl in Hn; lia).
  destruct (pm_has_ts m); [|done]. simpl in Ht.
  destruct (stat_mins (pm_group_min m)) as [|z0 zs] eqn:Hmins.
  - destruct (pq_batches 1 b) as [bs1|] eqn:H1; [|done]. simpl in Ht.
    pose proof (pq_batches_rows 1 1024 b bs1 bs ltac:(lia) ltac:(lia) H1 Hb) as Hrows.
    destruct bs1 as [|[|r b1] bs1]; [done|done|]. injection Ht as <-. rewrite <- Hrows. simpl.
    split_and!; [done|by left|]. intros [_ Hall]%StronglySorted_inv x [->|Hx]%elem_of_cons; [lia|].
    by eapply Forall_forall in Hall.
  - pose proof (pq_meta_min 1024 b bs m (z0 :: zs) ltac:(lia) Hm Hb) as Hmin.
    rewrite (stat_mins_all (pm_group_min m)), Hmins in Hmin by congruence. specialize (Hmin eq_refl ltac:(done)).
    destruct (zmin (z0 :: zs)) as [z|] eqn:Hz; [|done]. assert (t = Some z) as -> by (simpl in Hz; congruence).
    symmetry in Hmin. split_and!; [done|by apply zmin_elem|]. intros _ x. by apply zmin_le.
Qed.
End rows.

(** *** Sources *)

Section fetch_lemmas.
Context {S : Type} `{S3Laws S}.
Implicit Types (w : world S).

Lemma reads_refl w : reads w w.
Proof. done. Qed.
Lemma reads_trans w1 w2 w3 : reads w1 w2 → reads w2 w3 → reads w1 w3.
Proof. unfold reads, same_queue, same_files. intros (?&?&?) (?&?&?). split_and!; congruence. Qed.

Lemma call_s3_reads {A} (m : S → S * res A) w w' r :
  (∀ s s' r, m s = (s', r) → s3_objects s' = s3_objects s) → call_s3 m w = (w', r) → reads w w'.
Proof. intros Hm (Hc&?&?&_)%call_s3_inv. split_and!; [|done|done]. by eapply Hm. Qed.

#[export] Instance fetch_local_laws : FetchLaws S unit.
Proof.
  split; simpl; unfold pbind, pret, read_file; [| |done|by intros * _ ->].
  - intros [] k w w' r. destruct (w_fs w !! k); by intros [= <- <-].
  - intros [] k w w' [] b _. destruct (w_fs w !! k) eqn:Hb; by intros [= <- <-].
Qed.

#[export] Instance fetch_nas_laws : FetchLaws S stream_cache.
Proof.
  split; simpl; [| |by intros c w w' ->|by intros w w' k ->].
  - intros c k w w' r. unfold get_or_fetch, pbind, pret, get_streaming. destruct (sc_cache c !! k); [by intros [= <- <-]|].
    destruct (call_s3 (s3_get k) w) as [w1 o] eqn:Hg. apply call_s3_reads in Hg; [|intros *; apply s3_get_frame].
    destruct o as [b|e]; [destruct (_ <=? _)|]; by intros [= <- <-].
  - intros c k w w' c' b Hc. unfold get_or_fetch. destruct (sc_cache c !! k) as [b'|] eqn:Hk.
    { intros [= <- <- <-]. split; [done|]. by apply (Hc k b'). }
    unfold pbind, get_streaming. destruct (call_s3 (s3_get k) w) as [w1 o] eqn:Hg.
    pose proof Hg as Hr. apply call_s3_reads in Hr as (Hobj&_&_); [|intros *; apply s3_get_frame].
    destruct o as [a|e]; [|done]. apply call_s3_inv in Hg as (Hg&_). apply s3_get_ok in Hg as (o&Ho&<-).
    assert (ob_body <$> objects w !! k = Some (ob_body o)) as Hb by by rewrite Ho.
    destruct (_ <=? _); intros [= <- <- <-]; (split; [|done]); rewrite Hobj; [|done].
    apply map_Forall_insert_2; [|done]. by rewrite Hb.
Qed.

(** The cache never holds more than its threshold. *)
Lemma get_or_fetch_bounded threshold c k w w' c' b :
  sc_total c <= threshold → get_or_fetch threshold c k w = (w', Ok (c', b)) → sc_total c' <= threshold.
Proof.
  intros Hle. unfold get_or_fetch, pbind, pret. destruct (_ !! k); [by intros [= <- <- <-]|].
  destruct (get_streaming k w) as [w1 [a|]]; [|done].
  destruct (_ <=? _) eqn:Hb; intros [= <- <- <-]; simpl; py_bool; lia.
Qed.
End fetch_lemmas.

Section merge_lemmas.
Context {S : Type} `{S3Laws S} {Row : Type} `{ParquetLaws Row}.
Context (pid : string) (faults : compact_faults).
Context {C : Type} `{!Fetch S C, !FetchLaws S C}.
Implicit Types (w : world S) (c : C).

Definition source_rows w k (rows : list Row) : Prop := ∃ b, fetch_content w k = Some b ∧ pq_rows b = Ok rows.
Definition source_key w k (t : option Z) : Prop := ∃ b, fetch_content w k = Some b ∧ extract_min_ts b = Ok t.

Lemma reads_content w w' k : reads w w' → fetch_content w' k = fetch_content w k.
Proof. intros (Ho&_&Hf). by apply fetch_content_frame; [|rewrite Hf]. Qed.
Lemma reads_inv c w w' : reads w w' → fetch_inv c w → fetch_inv c w'.
Proof. intros (Ho&_&_). by apply fetch_inv_frame. Qed.

Lemma source_rows_frame w w' k rows : fetch_content w' k = fetch_content w k → source_rows w' k rows ↔ source_rows w k rows.
Proof. intros Hr. unfold source_rows. by rewrite Hr. Qed.
Lemma source_key_frame w w' k t : reads w w' → source_key w' k t ↔ source_key w k t.
Proof. intros Hr. unfold source_key. by rewrite (reads_content w w' k Hr). Qed.

(** The candidates split into those with a key and those without rows. *)
Definition keyed_of w (ks : list string) (keyed : list (string * Z)) : Prop :=
  ∃ empties, ks ≡ₚ keyed.*1 ++ empties ∧ Forall (λ kt, source_key w kt.1 (Some kt.2)) keyed ∧
    Forall (λ k, source_key w k None) empties.

Lemma keyed_from_inv c ks w w' r : fetch_inv c w → keyed_from c ks w = (w', r) →
  reads w w' ∧ ∀ c' keyed, r = Ok (c', keyed) → fetch_inv c' w' ∧ keyed_of w ks keyed.
Proof.
  revert c w w' r. induction ks as [|k ks IH]; intros c w w' r Hc; simpl.
  { intros [= <- <-]. split; [done|]. intros ? ? [= <- <-]. split; [done|]. exists []. by split_and!. }
  unfold pbind, plift, pret. destruct (fetch c k w) as [w1 o] eqn:Hf. pose proof (fetch_reads _ _ _ _ _ Hf) as Hr1.
  destruct o as [[c1 b]|e]; [|intros [= <- <-]; by split]. apply fetch_ok in Hf as [Hc1 Hb]; [|done].
  simpl. destruct (extract_min_ts b) as [t|e] eqn:Ht; [|intros [= <- <-]; by split].
  destruct (keyed_from c1 ks w1) as [w2 o] eqn:Hk. apply IH in Hk as [Hr2 Hk]; [|done].
  assert (reads w w2) as Hr by by eapply reads_trans.
  destruct o as [[c2 keyed]|e]; intros [= <- <-]; (split; [done|]); [|done].
  intros ? ? [= <- <-]. destruct (Hk _ _ eq_refl) as (Hc2&es&Hp&Hks&Hes). split; [done|].
  assert (source_key w k t) as Hkt by (exists b; done).
  assert (Forall (λ kt, source_key w kt.1 (Some kt.2)) keyed) by (eapply Forall_impl; [exact Hks|intros ? ?; by apply (source_key_frame w w1)]).
  assert (Forall (λ k, source_key w k None) es) by (eapply Forall_impl; [exact Hes|intros ? ?; by apply (source_key_frame w w1)]).
  destruct t as [t|].
  - exists es. split_and!; [by simpl; rewrite Hp|by constructor|done].
  - exists (k :: es). split_and!; [by rewrite Hp, Permutation_middle|done|by constructor].
Qed.

(** All rows of the sources in the order the loop visits them. *)
Definition sources_rows w (ks : list string) (rss : list (list Row)) : Prop := Forall2 (source_rows w) ks rss.

Lemma sources_rows_frame w w' ks rss : (∀ k, k ∈ ks → fetch_content w' k = fetch_content w k) →
  sources_rows w' ks rss ↔ sources_rows w ks rss.
Proof.
  intros Hc. unfold sources_rows. rewrite !Forall2_same_length_lookup.
  split; intros [Hl Hall]; (split; [done|]); intros i k rs Hk Hrs; pose proof (list_elem_of_lookup_2 _ _ _ Hk);
    eapply source_rows_frame; first [by eapply Hall | symmetry; by apply Hc | by apply Hc].
Qed.

Lemma write_sources_inv c schema acc ks w w' r :
  fetch_inv c w → sorted_ts acc → write_sources c schema (last (row_ts <$> acc)) acc ks w = (w', r) →
  reads w w' ∧ ∀ rows viol, r = Ok (rows, viol) → sorted_ts rows ∧
    (if viol then ∀ rss, sources_rows w ks rss → ¬ sorted_ts (acc ++ concat rss)
     else ∃ rss, sources_rows w ks rss ∧ rows = acc ++ concat rss).
Proof.
  revert c acc w r. induction ks as [|k ks IH]; intros c acc w r Hc Hs; simpl.
  { intros [= <- <-]. split; [done|]. intros ? ? [= <- <-]. split; [done|]. exists [].
    split; [constructor|by rewrite app_nil_r]. }
  unfold pbind at 1, plift. destruct (fetch c k w) as [w1 o] eqn:Hf. pose proof (fetch_reads _ _ _ _ _ Hf) as Hr1.
  destruct o as [[c1 b]|e]; [|intros [= <- <-]; by split]. apply fetch_ok in Hf as [Hc1 Hb]; [|done].
  unfold pbind. simpl.
  destruct (pq_schema b) as [fs|e]; [|intros [= <- <-]; by split].
  destruct (pq_batches 1024 b) as [bs|e] eqn:Hbs; [|intros [= <- <-]; by split].
  destruct (write_batches _ _ _ acc bs) as [[[last' acc'] viol]|e] eqn:Hw; [|intros [= <- <-]; by split].
  apply write_batches_ok in Hw as [Hs' Hw]; [|done].
  assert (source_rows w k (concat bs)) as Hk by (exists b; split; [done|by apply pq_rows_batches]).
  assert (∀ rss, sources_rows w (k :: ks) rss → ∃ rss', rss = concat bs :: rss' ∧ sources_rows w ks rss') as Hinv.
  { intros rss (rs&rss'&(b'&Hb'&Hrs)&?&->)%Forall2_cons_inv_l. exists rss'. split; [|done].
    assert (b' = b) as -> by congruence. rewrite (pq_rows_batches b bs Hbs) in Hrs. by injection Hrs as <-. }
  destruct viol.
  - intros [= <- <-]. split; [done|]. intros ? ? [= <- <-]. split; [done|]. intros rss (rss'&->&_)%Hinv.
    simpl. rewrite app_assoc, (fmap_app _ (acc ++ concat bs)). intros ?%StronglySorted_app_1_l. done.
  - destruct Hw as [-> ->]. intros Hrec. apply IH in Hrec as [Hr2 Hrec]; [|done|done].
    split; [by eapply reads_trans|]. intros rows viol Hres. destruct (Hrec _ _ Hres) as [Hsr Hv]. split; [done|].
    pose proof (λ rss, sources_rows_frame w w1 ks rss (λ k _, reads_content w w1 k Hr1)) as Hfr.
    destruct viol.
    + intros rss (rss'&->&Hrest)%Hinv. simpl. rewrite app_assoc. by apply Hv, Hfr.
    + destruct Hv as (rss&Hrss%Hfr&->). exists (concat bs :: rss). split; [by constructor|by simpl; rewrite app_assoc].
Qed.
End merge_lemmas.

(** *** What a merge may change *)

Section frame.
Context {S : Type} `{S3Laws S} (T : string → Prop) (faults : compact_faults).
Implicit Types (w : world S).

(** Store and queue are the same, and the files outside [T]. *)
Definition files_but w w' : Prop :=
  objects w' = objects w ∧ same_queue w w' ∧ ∀ k, ¬ T k → w_fs w' !! k = w_fs w !! k.

Lemma files_but_refl w : files_but w w.
Proof. done. Qed.
Lemma files_but_trans w1 w2 w3 : files_but w1 w2 → files_but w2 w3 → files_but w1 w3.
Proof.
  intros (Ho&Hq&Hf) (Ho'&Hq'&Hf'). unfold same_queue in *.
  split_and!; [congruence|congruence|]. intros k Hk. by rewrite Hf', Hf.
Qed.
Lemma reads_files_but w w' : reads w w' → files_but w w'.
Proof. intros (Ho&Hq&Hf). split_and!; [done|done|]. by rewrite Hf. Qed.

Context (w0 : world S).

Lemma set_fs_keeps f : (∀ fs k, ¬ T k → f fs !! k = fs !! k) → keeps (files_but w0) (set_fs f).
Proof. intros Hf w w' r Hw [= <- <-]. eapply files_but_trans; [exact Hw|]. split_and!; [done|done|]. intros k Hk. by apply Hf. Qed.

Lemma plift_keeps {A} (I : world S → Prop) (r : res A) : keeps I (plift r).
Proof. intros w w' o Hw [= <- <-]. done. Qed.

Lemma add_dirs_lookup p fs k : (∀ q, k ≠ dir_name q) → add_dirs p fs !! k = fs !! k.
Proof.
  intros Hk. unfold add_dirs. induction (seq 0 _) as [|i l IH]; simpl; [done|].
  by rewrite lookup_insert_ne by (intros Heq; by apply (Hk (take i p))).
Qed.

Lemma mkdir_keeps p : (∀ q, T (dir_name q)) → keeps (files_but w0) (mkdir faults p).
Proof.
  intros Hd. unfold mkdir. destruct (cf_mkdir faults); [apply keeps_raise|].
  apply set_fs_keeps. intros fs k Hk. apply add_dirs_lookup. intros q ->. by apply Hk, Hd.
Qed.

Lemma rename_keeps fault old new : T old → T new → keeps (files_but w0) (rename (S := S) fault old new).
Proof.
  intros Ho Hn w w' r Hw. unfold rename. destruct (w_fs w !! old); [|by intros [= <- <-]].
  destruct fault; [by intros [= <- <-]|]. apply set_fs_keeps; [|done].
  intros fs k Hk. rewrite lookup_insert_ne, lookup_delete_ne; [done|congruence..].
Qed.

Lemma quarantine_keeps depth tmp channel date reason :
  (∀ q, T (dir_name q)) → T (fs_name tmp) → T (fs_name (quarantine_path depth tmp channel date reason)) →
  keeps (files_but w0) (quarantine faults depth tmp channel date reason).
Proof.
  intros Hd Ht Hq. unfold quarantine. destruct (_ <=? _)%nat; [apply keeps_raise|].
  repeat (apply keeps_bind; [first [apply plift_keeps | by apply mkdir_keeps | by apply rename_keeps]|intros _]). apply keeps_ret.
Qed.
End frame.

Section merge_theorem.
Context {S : Type} `{S3Laws S} {Row : Type} `{ParquetLaws Row}.
Context (pid : string) (faults : compact_faults).
Context {C : Type} `{!Fetch S C, !FetchLaws S C}.
Implicit Types (w : world S) (c : C).

(** The names a merge into [out_dir] may touch. *)
Definition tmp_file (out_dir : path) : path := out_dir ++ ["part-tmp-" +:+ pid +:+ ".tmp"].
Definition out_file (out_dir : path) (run : string) : path := out_dir ++ ["part-" +:+ run +:+ ".parquet"].
Definition merge_files (out_dir : path) (run : string) (depth : nat) (channel date : string) (k : string) : Prop :=
  (∃ q, k = dir_name q) ∨ k = fs_name (tmp_file out_dir) ∨ k = fs_name (out_file out_dir run) ∨
  k = fs_name (quarantine_path depth (tmp_file out_dir) channel date "monotonic_violation").

Lemma write_tmp_file_inv c schema ks tmp w w' r :
  fetch_inv c w → write_tmp_file faults c schema ks tmp w = (w', r) →
  objects w' = objects w ∧ same_queue w w' ∧ (∀ k, k ≠ fs_name tmp → w_fs w' !! k = w_fs w !! k) ∧
  ∀ viol, r = Ok viol →
    if viol then ∀ rss, sources_rows w ks rss → ¬ sorted_ts (concat rss)
    else ∃ rss, sources_rows w ks rss ∧ sorted_ts (concat rss) ∧ w_fs w' !! fs_name tmp = Some (pq_write schema (concat rss)).
Proof.
  intros Hc. unfold write_tmp_file. destruct (write_sources c schema None [] ks w) as [w1 o] eqn:Hw.
  apply (write_sources_inv c schema []) in Hw as [(Ho&Hq&Hf) Hw]; [|done|constructor]. unfold same_files in Hf.
  assert (∀ b k, k ≠ fs_name tmp → <[fs_name tmp := b]> (w_fs w1) !! k = w_fs w !! k) as Hins.
  { intros b k Hk. by rewrite lookup_insert_ne, Hf. }
  destruct o as [[rows viol]|e]; [|intros [= <- <-]; split_and!; [done|done|exact (Hins _)|done]].
  destruct (cf_write faults); intros [= <- <-]; (split_and!; [done|done|exact (Hins _)|]); [done|].
  intros ? [= <-]. destruct (Hw _ _ eq_refl) as [Hs Hv]. destruct viol; [exact Hv|].
  destruct Hv as (rss&Hrss&->). exists rss. split_and!; [done|done|]. simpl. apply lookup_insert_eq.
Qed.

Definition merged w w' (ks : list string) (out : path) (p : option path) : Prop :=
  match p with
  | Some p => p = out ∧ ∃ schema rss, sources_rows w ks rss ∧ sorted_ts (concat rss) ∧
      w_fs w' !! fs_name p = Some (pq_write schema (concat rss))
  | None => ∀ rss, sources_rows w ks rss → ¬ sorted_ts (concat rss)
  end.

Lemma write_tmp_file_frame (T : string → Prop) c schema ks tmp w0 w w' r :
  T (fs_name tmp) → fetch_inv c w → files_but T w0 w → write_tmp_file faults c schema ks tmp w = (w', r) → files_but T w0 w'.
Proof.
  intros HT Hc Hw (Ho&Hq&Hf&_)%write_tmp_file_inv; [|done]. eapply files_but_trans; [exact Hw|].
  split_and!; [done|done|]. intros k Hk. apply Hf. by intros ->.
Qed.

Lemma merged_frame w1 w2 w' ks out p : (∀ k, k ∈ ks → fetch_content w2 k = fetch_content w1 k) →
  merged w2 w' ks out p → merged w1 w' ks out p.
Proof.
  intros Hc. pose proof (λ rss, sources_rows_frame w1 w2 ks rss Hc) as Hf. destruct p as [p|].
  - intros (->&schema&rss&Hrss%Hf&?). split; [done|]. by exists schema, rss.
  - intros Hp rss Hrss. by apply Hp, Hf.
Qed.

Lemma merge_tail_inv (T : string → Prop) c schema ks out tmp depth channel date w w' r :
  (∀ q, T (dir_name q)) → T (fs_name tmp) → T (fs_name out) →
  T (fs_name (quarantine_path depth tmp channel date "monotonic_violation")) → fetch_inv c w →
  merge_tail faults c schema ks out tmp depth channel date w = (w', r) →
  files_but T w w' ∧ ∀ p, r = Ok p → merged w w' ks out p.
Proof.
  intros HTd HTt HTo HTq Hc. unfold merge_tail.
  set (m := pbind (write_tmp_file _ _ _ _ _) _).
  assert (∀ w1 o, m w = (w1, o) → files_but T w w1 ∧ ∀ p, o = Ok p → merged w w1 ks out p) as Hm.
  { intros w1 o. unfold m, pbind at 1. destruct (write_tmp_file faults c schema ks tmp w) as [w2 [viol|e]] eqn:Hw;
      pose proof (write_tmp_file_frame T _ _ _ _ w _ _ _ HTt Hc (files_but_refl T w) Hw) as Hb2;
      [|intros [= <- <-]; by split].
    apply write_tmp_file_inv in Hw as (_&_&_&Hw); [|done]. specialize (Hw _ eq_refl). destruct viol.
    - intros Hq. split.
      + revert Hq. apply (keeps_bind (files_but T w)); [by apply quarantine_keeps|auto with hoare|done].
      + intros p ->. unfold pbind, pret in Hq. destruct (quarantine _ _ _ _ _ _ w2) as [? []]; [|done]. by injection Hq as _ <-.
    - destruct Hw as (rss&Hrss&Hs&Ht). unfold pbind. destruct (rename _ _ _ w2) as [w3 o'] eqn:Hrn.
      assert (files_but T w w3) by (eapply (rename_keeps T w); [exact HTt|exact HTo|exact Hb2|exact Hrn]).
      destruct o' as [[]|e]; intros [= <- <-]; (split; [done|]); [|done]. intros ? [= <-]. split; [done|].
      exists schema, rss. split_and!; [done|done|]. revert Hrn. unfold rename. rewrite Ht.
      destruct (cf_replace faults); [done|]. intros [= <-]. simpl. apply lookup_insert_eq. }
  intros Hu. unfold unlink_tmp in Hu. destruct (m w) as [w1 [p|e]] eqn:Hmw; destruct (Hm _ _ eq_refl) as [Hb1 Hp].
  - injection Hu as <- <-. by split.
  - split; [|unfold pbind in Hu; destruct (cf_unlink faults); by injection Hu as _ <-].
    revert Hu. apply (keeps_bind (files_but T w)); [|auto with hoare|done].
    apply keeps_if; [auto with hoare|]. apply set_fs_keeps. intros fs k Hk. rewrite lookup_delete_ne; [done|congruence].
Qed.

Lemma merge_inv c ks run out_dir depth channel date w w' r :
  fetch_inv c w → (∀ k q, k ∈ ks → k ≠ dir_name q) →
  merge pid faults c ks run out_dir depth channel date w = (w', r) →
  files_but (merge_files out_dir run depth channel date) w w' ∧
  ∀ p, r = Ok p → ks = [] ∧ p = None ∨ merged w w' ks (out_file out_dir run) p.
Proof.
  intros Hc Hks. unfold merge. destruct ks as [|k0 ks']; [intros [= <- <-]; split; [done|]; intros ? [= <-]; by left|].
  set (ks := k0 :: ks') in *. set (T := merge_files _ _ _ _ _).
  unfold pbind at 1. destruct (fetch c k0 w) as [w1 o] eqn:Hf. pose proof (fetch_reads _ _ _ _ _ Hf) as Hr1.
  pose proof (reads_files_but T _ _ Hr1) as Hb1.
  destruct o as [[c1 b]|e]; [|intros [= <- <-]; by split]. apply fetch_ok in Hf as [Hc1 _]; [|done]. simpl.
  unfold pbind at 1, plift. destruct (pq_schema b) as [schema|e]; [|intros [= <- <-]; by split].
  unfold pbind at 1. destruct (mkdir faults out_dir w1) as [w2 o] eqn:Hm.
  assert (files_but (λ k, ∃ q, k = dir_name q) w1 w2) as (Hobj2&Hq2&Hf2).
  { eapply mkdir_keeps; [by eexists|done|exact Hm]. }
  assert (files_but T w w2) as Hb2.
  { eapply files_but_trans; [exact Hb1|]. split_and!; [done|done|]. intros k Hk. apply Hf2. intros [q ->]. apply Hk. left. by eexists. }
  destruct o as [[]|e]; [|intros [= <- <-]; by split].
  assert (∀ k, k ∈ ks → fetch_content w2 k = fetch_content w k) as Hcont.
  { intros k Hk. rewrite <- (reads_content w w1) by done. apply fetch_content_frame; [done|].
    apply Hf2. intros [q ->]. by eapply Hks. }
  intros Ht. apply (merge_tail_inv T) in Ht as [Hb3 Hp].
  - split; [by eapply files_but_trans|]. intros p ->. right. eapply merged_frame; [exact Hcont|auto].
  - left. by eexists.
  - right; left. done.
  - right; right; left. done.
  - right; right; right. done.
  - by eapply fetch_inv_frame.
Qed.
End merge_theorem.

(** *** From candidates to a merged file *)

(** The rows of a local file, and of an object. *)
Definition file_rows {S Row} `{Parquet Row} (w : world S) (k : string) (rows : list Row) : Prop :=
  ∃ b, w_fs w !! k = Some b ∧ pq_rows b = Ok rows.
Definition object_rows {S Row} `{S3 S} `{Parquet Row} (w : world S) (k : string) (rows : list Row) : Prop :=
  ∃ o, objects w !! k = Some o ∧ pq_rows (ob_body o) = Ok rows.

Section select.
Context {S : Type} `{S3Laws S} {Row : Type} `{ParquetLaws Row}.
Context {C : Type} `{!Fetch S C, !FetchLaws S C}.
Implicit Types (w : world S).

Lemma by_min_ts_perm keyed : by_min_ts keyed ≡ₚ keyed.*1.
Proof. unfold by_min_ts. by rewrite sorted_by_perm. Qed.

Lemma source_key_rows w k t rows : source_key w k t → source_rows w k rows →
  match t with
  | None => rows = []
  | Some z => rows ≠ [] ∧ z ∈ (row_ts <$> rows) ∧ (sorted_ts rows → ∀ x, x ∈ (row_ts <$> rows) → z <= x)
  end.
Proof. intros (b&Hb&Ht) (b'&Hb'&Hr). assert (b' = b) as -> by congruence. by eapply extract_min_ts_ok. Qed.

Lemma source_key_None w k : source_key w k None → source_rows w k ([] : list Row).
Proof.
  intros (b&Hb&Ht). pose proof Ht as Hk. revert Ht. unfold extract_min_ts. destruct (pq_meta b) as [m|] eqn:Hm; [|done]. simpl.
  destruct (pm_num_rows m =? 0) eqn:Hn; py_bool.
  - intros _. destruct (pq_meta_empty 1024 b m) as [bs Hbs]; [lia|done|done|].
    exists b. split; [done|]. rewrite (pq_rows_batches b bs Hbs). f_equal.
    by apply (extract_min_ts_ok b None), pq_rows_batches.
  - destruct (pm_has_ts m); [|done]. simpl. destruct (stat_mins _) as [|z0 zs]; [|done].
    destruct (pq_batches 1 b) as [[|[|]]|]; done.
Qed.

(** A merged file holds the rows of all candidates, in order. *)
Lemma merged_sources w w' cands keyed out p :
  keyed_of (C := C) w cands keyed → merged (C := C) w w' (by_min_ts keyed) out (Some p) →
  p = out ∧ ∃ srcs : list (string * list Row), srcs.*1 ≡ₚ cands ∧ Forall (λ s, source_rows w s.1 s.2) srcs ∧
    sorted_ts (concat srcs.*2) ∧ file_rows w' (fs_name p) (concat srcs.*2).
Proof.
  intros (empties&Hp&_&He) (->&schema&rss&Hrss&Hs&Hout). split; [done|].
  pose proof (Forall2_length _ _ _ Hrss) as Hlen.
  exists (zip (by_min_ts keyed) rss ++ ((λ k, (k, [])) <$> empties)).
  assert (concat ((zip (by_min_ts keyed) rss ++ ((λ k, (k, [])) <$> empties)).*2) = concat rss) as Hc.
  { rewrite fmap_app, snd_zip, concat_app by (rewrite Hlen; lia).
    assert (concat ((λ k : string, (k, [] : list Row)) <$> empties).*2 = []) as ->; [|by rewrite app_nil_r].
    clear. induction empties; done. }
  rewrite Hc. split_and!.
  - rewrite fmap_app, fst_zip, <- list_fmap_compose, list_fmap_id by (rewrite Hlen; lia). by rewrite by_min_ts_perm.
  - apply Forall_app. split.
    + clear Hlen Hc Hs Hout. induction Hrss; simpl; by constructor.
    + apply Forall_fmap. eapply Forall_impl; [exact He|]. intros k Hk. by apply source_key_None.
  - done.
  - eexists. split; [exact Hout|apply pq_rows_write].
Qed.
End select.

(** *** The names of a merge *)

Lemma part_not_dir dir k q : part_below dir k = true → k ≠ dir_name q.
Proof.
  unfold part_below, dir_name. intros [_ Hk]%andb_true_iff ->.
  change "/" with (String slash "") in Hk. by rewrite base_name_app in Hk.
Qed.

Lemma quarantine_not_tier root ch v t x rest :
  fs_name (root ++ "market" :: ch :: "quarantine" :: rest) ≠ tier_prefix root ch v t +:+ x.
Proof.
  unfold tier_prefix.
  change ("market" :: ch :: "quarantine" :: rest) with (["market"; ch] ++ "quarantine" :: rest).
  change ["market"; ch; "schema_version=" +:+ v] with (["market"; ch] ++ ["schema_version=" +:+ v]).
  rewrite !(app_assoc root), (fs_name_app _ ("quarantine" :: rest)), (fs_name_app _ ["schema_version=" +:+ v]) by (by destruct root).
  rewrite !string_app_assoc.
  intros Heq%string_app_inj_l. done.
Qed.

Section names.
Context (root : path) (pid : string).

(** A merge into a directory of another tier leaves the parts of a tier. *)
Lemma tier_untouched t1 t2 ch v e s d rest run depth date k :
  (∀ x y, (t1 +:+ "/") +:+ x ≠ (t2 +:+ "/") +:+ y) → length rest = (depth - 7)%nat → (7 <= depth)%nat →
  part_below (root ++ hive_dir t1 ch v e s d) k = true →
  ¬ merge_files pid ((root ++ hive_dir t2 ch v e s d) ++ rest) run depth ch date k.
Proof.
  intros Hne Hlen Hdep Hk. destruct (part_below_hive _ _ _ _ _ _ _ _ Hk) as [t Ht].
  assert (∀ l, k ≠ fs_name (((root ++ hive_dir t2 ch v e s d) ++ rest) ++ l)) as Hn.
  { intros l ->. destruct (hive_name root ch v t2 e s d (rest ++ l)) as [u Hu].
    rewrite <- !app_assoc in Ht. rewrite Hu in Ht. symmetry in Ht. by apply tier_prefix_ne in Ht. }
  intros [[q ->]|[->|[->|Hq]]].
  - by eapply part_not_dir.
  - by apply (Hn _ eq_refl).
  - by apply (Hn _ eq_refl).
  - revert Hq. unfold quarantine_path, tmp_file. rewrite !length_app, Hlen. cbn [length hive_dir].
    replace (_ - _)%nat with (length root) by lia. rewrite <- !app_assoc, take_app_length, Ht.
    intros Heq. symmetry in Heq. by apply quarantine_not_tier in Heq.
Qed.
End names.

(** *** Local runs *)

Section local.
Context {S : Type} `{S3Laws S} {Row : Type} `{ParquetLaws Row}.
Context (scan : list string → list string) (pid : string) (faults : compact_faults).
Implicit Types (w : world S).

(** The candidate files of a directory. *)
Definition parts_of (dir : path) w : list string := List.filter (part_below dir) (map_to_list (w_fs w)).*1.

Lemma elem_parts_of dir w k : k ∈ parts_of dir w ↔ part_below dir k = true ∧ is_Some (w_fs w !! k).
Proof.
  unfold parts_of. rewrite list_elem_of_In, List.filter_In, <- list_elem_of_In, list_elem_of_fmap.
  split.
  - intros [([k' b]&->&Hin) Hk]. split; [done|]. exists b. by apply elem_of_map_to_list.
  - intros [Hk [b Hb]]. split; [|done]. exists (k, b). split; [done|]. by apply elem_of_map_to_list.
Qed.

(** A file whose rows are those of [srcs], one after the other, in order. *)
Definition merge_of w (dir : path) w' (p : path) (srcs : list (string * list Row)) : Prop :=
  srcs.*1 ≡ₚ parts_of dir w ∧ Forall (λ s, file_rows w s.1 s.2) srcs ∧
  sorted_ts (concat srcs.*2) ∧ file_rows w' (fs_name p) (concat srcs.*2).

Lemma local_compact_inv (rid : list (string * Z) → string) dir out_dir depth channel date w w' r :
  (∀ l, scan l ≡ₚ l) →
  (∀ run k, part_below dir k = true → ¬ merge_files pid out_dir run depth channel date k) →
  pbind (rglob_parts scan dir) (λ candidates,
    pbind (keyed_from (Row := Row) tt candidates) (λ ck,
    merge pid faults (Row := Row) ck.1 (by_min_ts ck.2) (rid ck.2) out_dir depth channel date)) w = (w', r) →
  objects w' = objects w ∧ same_queue w w' ∧ (∀ k, part_below dir k = true → w_fs w' !! k = w_fs w !! k) ∧
  ∀ p, r = Ok (Some p) → ∃ keyed srcs, p = out_file out_dir (rid keyed) ∧ merge_of w dir w' p srcs.
Proof.
  intros Hscan Hdis. unfold pbind, rglob_parts. fold (parts_of dir w). set (cands := scan (parts_of dir w)).
  assert (∀ k, k ∈ cands → part_below dir k = true) as Hcands.
  { intros k. unfold cands. rewrite Hscan, elem_parts_of. tauto. }
  destruct (keyed_from tt cands w) as [w1 o] eqn:Hk. apply keyed_from_inv in Hk as [Hr Hk]; [|done].
  destruct o as [[[] keyed]|e]; [|intros [= <- <-]; destruct Hr as (?&?&Hf); split_and!; [done|done|by rewrite Hf|done]].
  destruct (Hk _ _ eq_refl) as [_ Hkeyed]. simpl. intros Hm.
  assert (keyed_of (C := unit) (Row := Row) w cands keyed) as Hkd by done. clear Hk.
  assert (∀ k, k ∈ by_min_ts keyed → k ∈ cands) as Hin.
  { intros k. rewrite by_min_ts_perm. destruct Hkeyed as (es&->&_). set_solver. }
  apply merge_inv in Hm as [(Ho&Hq&Hf) Hp]. 2: apply _. 2: done.
  2: { intros k q Hkin. apply (part_not_dir dir), Hcands, Hin, Hkin. }
  destruct Hr as (Ho1&Hq1&Hf1). unfold same_queue, same_files in *.
  split_and!; [congruence|congruence| |].
  - intros k Hkp. rewrite Hf by by apply Hdis. by rewrite Hf1.
  - intros p ->. destruct (Hp _ eq_refl) as [[_ [=]]|Hmd].
    apply (merged_frame w) in Hmd; [|intros k _; simpl; by rewrite Hf1].
    apply (merged_sources w w' cands keyed) in Hmd as (->&srcs&Hperm&Hrows&Hs&Hout); [|done].
    exists keyed, srcs. split; [done|]. split_and!; [etrans; [exact Hperm|apply Hscan]|done..].
Qed.
End local.

(** The rows of a source are among those of the merged file. *)
Lemma merge_of_elem {S Row} `{S3Laws S} `{ParquetLaws Row} (w w' : world S) dir p srcs k (rows : list Row) x :
  merge_of w dir w' p srcs → part_below dir k = true → file_rows w k rows → x ∈ rows → x ∈ concat srcs.*2.
Proof.
  intros (Hperm&Hall&_) Hk (b&Hb&Hrows) Hx.
  assert (k ∈ srcs.*1) as ([k' rs]&->&Hin)%list_elem_of_fmap by (rewrite Hperm; apply elem_parts_of; by split; [|eexists]).
  pose proof (proj1 (Forall_forall _ _) Hall _ Hin) as (b'&Hb'&Hrs). simpl in *.
  assert (rs = rows) as -> by congruence. apply list_elem_of_In, List.in_concat. exists rows.
  split; [|by apply list_elem_of_In]. apply list_elem_of_In, list_elem_of_fmap. by exists (k', rows).
Qed.

Lemma concat_two_blocks {Row} `{Parquet Row} (srcs : list (string * list Row)) s1 s2 :
  s1 ∈ srcs → s2 ∈ srcs → s1.1 ≠ s2.1 → sorted_ts (concat srcs.*2) →
  (∀ a b, a ∈ s1.2 → b ∈ s2.2 → row_ts a <= row_ts b) ∨ (∀ a b, a ∈ s2.2 → b ∈ s1.2 → row_ts a <= row_ts b).
Proof.
  intros H1 H2 Hne Hs. apply list_elem_of_split in H1 as (l1&l2&->).
  assert (∀ (t1 t2 : string * list Row) m1 m2 m3, sorted_ts (concat ((m1 ++ t1 :: m2 ++ t2 :: m3).*2)) →
    ∀ a b, a ∈ t1.2 → b ∈ t2.2 → row_ts a <= row_ts b) as Hord.
  { intros t1 t2 m1 m2 m3 Hst a b Ha Hb. rewrite fmap_app, fmap_cons, fmap_app, fmap_cons, !concat_app in Hst.
    simpl in Hst. rewrite concat_app in Hst. simpl in Hst. rewrite fmap_app in Hst. apply StronglySorted_app_1_r in Hst. rewrite fmap_app in Hst.
    eapply (StronglySorted_app_1_elem_of Z.le); [exact Hst| |]; [set_solver|]. rewrite !fmap_app. set_solver. }
  apply elem_of_app in H2 as [H2|[->|H2]%elem_of_cons]; [|done|]; apply list_elem_of_split in H2 as (m1&m2&->).
  - right. rewrite <- app_assoc in Hs. simpl in Hs. by eapply Hord.
  - left. by eapply Hord.
Qed.

Section hours.
Context {S : Type} `{S3Laws S} {Row : Type} `{ParquetLaws Row}.
Context (sha256_hex : bytes → string) (scan : list string → list string) (pid : string) (faults : compact_faults) (root : path).
Implicit Types (w : world S).
Local Notation compact_hour := (compact_hour (Row := Row) sha256_hex scan pid faults root false).
Local Notation compact_day := (compact_day (Row := Row) sha256_hex scan pid faults root false).
Local Notation day_dir tier v ex sym ch d := (root ++ hive_dir tier ch v ex sym (isoformat d)).

Lemma compact_hour_inv ex sym ch d h w w' r :
  (∀ l, scan l ≡ₚ l) → compact_hour ex sym ch d h w = (w', r) →
  objects w' = objects w ∧ same_queue w w' ∧
  ∀ v, schema_version ch = Ok v →
    (∀ k, part_below (day_dir "L1" v ex sym ch d) k = true → w_fs w' !! k = w_fs w !! k) ∧
    ∀ p, r = Ok (Some p) → ∃ names srcs, p = out_file (hour_dir root ch v ex sym (isoformat d) h) (run_id sha256_hex names) ∧
      merge_of w (day_dir "L1" v ex sym ch d) w' p srcs.
Proof.
  intros Hscan. unfold Compactor.compact_hour, pbind at 1, plift.
  destruct (schema_version ch) as [v|e]; [|intros [= <- <-]; by split_and!].
  cbn iota. intros Hm.
  apply (local_compact_inv scan pid faults (λ kd, run_id sha256_hex (by_min_ts kd))) in Hm as (?&?&?&Hp); [|done|].
  - split_and!; [done|done|]. intros ? [= <-]. split; [done|]. intros p ->.
    destruct (Hp p eq_refl) as (kd&srcs&?&?). by exists (by_min_ts kd), srcs.
  - intros run k. unfold hour_dir. apply tier_untouched; [done|done|lia].
Qed.

Lemma compact_day_inv ex sym ch d w w' r :
  (∀ l, scan l ≡ₚ l) → compact_day ex sym ch d w = (w', r) →
  objects w' = objects w ∧ same_queue w w' ∧
  ∀ v, schema_version ch = Ok v →
    (∀ k, part_below (day_dir "L2" v ex sym ch d) k = true → w_fs w' !! k = w_fs w !! k) ∧
    ∀ p, r = Ok (Some p) → ∃ names srcs, p = out_file (l3_dir root ch v ex sym (isoformat d)) (run_id sha256_hex names) ∧
      merge_of w (day_dir "L2" v ex sym ch d) w' p srcs.
Proof.
  intros Hscan. unfold Compactor.compact_day, pbind at 1, plift.
  destruct (schema_version ch) as [v|e]; [|intros [= <- <-]; by split_and!].
  cbn iota. intros Hm.
  apply (local_compact_inv scan pid faults (λ kd, run_id sha256_hex (by_min_ts kd))) in Hm as (?&?&?&Hp); [|done|].
  - split_and!; [done|done|]. intros ? [= <-]. split; [done|]. intros p ->.
    destruct (Hp p eq_refl) as (kd&srcs&?&?). by exists (by_min_ts kd), srcs.
  - intros run k. unfold l3_dir. apply tier_untouched; [done|done|lia].
Qed.
End hours.

(** *** Two hours *)

Lemma pad_length n x : String.length (pad n x) = n.
Proof. revert x. induction n as [|n IH]; intros x; simpl; [done|]. rewrite string_app_length, IH. simpl. lia. Qed.

Lemma hour_pad_inj h1 h2 : 0 <= h1 < 24 → 0 <= h2 < 24 → pad 2 h1 = pad 2 h2 → h1 = h2.
Proof.
  intros H1 H2. assert (forallb (λ a, forallb (λ b, negb (String.eqb (pad 2 a) (pad 2 b)) || (a =? b)) (seqZ 0 24)) (seqZ 0 24) = true) as Hall
    by by vm_compute.
  rewrite forallb_forall in Hall. specialize (Hall h1 ltac:(apply list_elem_of_In, elem_of_seqZ; lia)).
  rewrite forallb_forall in Hall. specialize (Hall h2 ltac:(apply list_elem_of_In, elem_of_seqZ; lia)).
  apply orb_true_iff in Hall as [Hp|He]; py_bool; [|done]. intros Heq. rewrite Heq, String.eqb_refl in Hp. done.
Qed.

Lemma hour_names_differ root ch v ex sym d h1 h2 run1 run2 :
  0 <= h1 < 24 → 0 <= h2 < 24 → h1 ≠ h2 →
  fs_name (out_file (hour_dir root ch v ex sym d h1) run1) ≠ fs_name (out_file (hour_dir root ch v ex sym d h2) run2).
Proof.
  intros H1 H2 Hne. unfold out_file, hour_dir. rewrite <- !app_assoc. cbn [app].
  rewrite !(app_assoc root), !(fs_name_app (root ++ hive_dir _ _ _ _ _ _)) by (by destruct root).
  intros Heq%string_app_inj_l. cbn [slashed] in Heq. rewrite !(string_app_assoc "hour=") in Heq.
  apply (string_app_inj_l (String slash "hour=")) in Heq.
  apply string_app_inj_len in Heq as [Heq _]; [|by rewrite !pad_length]. by apply hour_pad_inj in Heq.
Qed.


Lemma no_slash_substring n s : no_slash s = true → no_slash (String.substring 0 n s) = true.
Proof.
  revert n. induction s as [|a s IH]; intros [|n]; simpl; try done.
  intros [Ha Hs]%andb_true_iff. by rewrite Ha, IH.
Qed.

Lemma out_file_below root ch v ex sym d h run :
  no_slash run = true →
  part_below (root ++ hive_dir "L2" ch v ex sym d) (fs_name (out_file (hour_dir root ch v ex sym d h) run)) = true.
Proof.
  intros Hrun. unfold part_below. apply andb_true_iff. split.
  - unfold dir_name, out_file, hour_dir. rewrite <- app_assoc, (fs_name_app (root ++ hive_dir _ _ _ _ _ _)) by (by destruct root).
    cbn [app slashed]. unfold startswith.
    match goal with |- String.prefix _ (?a +:+ String slash ?x) = _ => change (String slash x) with ("/" +:+ x) end.
    rewrite <- string_app_assoc. apply prefix_app.
  - unfold out_file. rewrite fs_name_app by (by destruct root). cbn [slashed]. rewrite string_app_nil_r.
    rewrite base_name_app by by rewrite !no_slash_app, Hrun.
    unfold is_part. apply andb_true_iff. split; [apply prefix_app|].
    rewrite <- string_app_assoc. apply endswith_app.
Qed.

(** *** The NAS path *)

(** The flat keys, and the legacy keys without a flat counterpart. *)
Lemma foldl_dset_id (l : list string) (d : dict string string) x :
  dget (foldl (λ d k, dset d k k) d l) x = if decide (x ∈ l) then Some x else dget d x.
Proof.
  revert d. induction l as [|k l IH]; intros d; simpl; [done|]. rewrite IH.
  destruct (decide (x ∈ l)), (decide (x ∈ k :: l)); try set_solver.
  - assert (x = k) as -> by set_solver. apply dget_dset_eq.
  - apply dget_dset_ne. set_solver.
Qed.

Lemma dget_dsetdefault (d : dict string string) k v x :
  dget (dsetdefault d k v).2 x = match dget d x with Some u => Some u | None => if decide (x = k) then Some v else None end.
Proof.
  unfold dsetdefault. destruct (dget d k) as [u|] eqn:Hk; simpl.
  - destruct (dget d x) eqn:Hx; [done|]. destruct (decide (x = k)); congruence.
  - destruct (decide (x = k)) as [->|Hne]; [by rewrite dget_dset_eq, Hk|]. rewrite dget_dset_ne by done. by destruct (dget d x).
Qed.

Lemma foldl_setdefault (f : string → string) (l : list string) (d : dict string string) x v :
  (∀ a b, a ∈ l → b ∈ l → f a = f b → a = b) →
  dget (foldl (λ d k, (dsetdefault d (f k) k).2) d l) x = Some v ↔
  dget d x = Some v ∨ dget d x = None ∧ v ∈ l ∧ f v = x.
Proof.
  revert d. induction l as [|k l IH]; intros d Hinj; simpl; [set_solver|].
  rewrite IH by (intros; apply Hinj; set_solver). rewrite dget_dsetdefault.
  destruct (dget d x) as [u|] eqn:Hx; [naive_solver|]. destruct (decide (x = f k)) as [->|Hne].
  - split; [intros [[= ->]|(?&?)]; [right; set_solver|done]|].
    intros [?|(_&Hv&Hf)]; [done|]. left. f_equal. apply Hinj; set_solver.
  - split; [intros [?|(_&Hv&Hf)]; [done|right; set_solver]|].
    intros [?|(_&Hv&Hf)]; [done|]. right. split_and!; [done| |done]. apply elem_of_cons in Hv as [->|?]; [congruence|done].
Qed.

Lemma dict_wf_foldl {A} (f : dict string string → A → dict string string) l d :
  (∀ d a, dict_wf d → dict_wf (f d a)) → dict_wf d → dict_wf (foldl f d l).
Proof. intros Hf. revert d. induction l as [|a l IH]; intros d Hd; simpl; auto. Qed.

Lemma canonical_map_values flat legacy :
  (∀ k, k ∈ flat → legacy_key_to_canonical k = k) →
  (∀ a b, a ∈ legacy → b ∈ legacy → legacy_key_to_canonical a = legacy_key_to_canonical b → a = b) →
  let vs := dvalues (canonical_map flat legacy) in
  NoDup (legacy_key_to_canonical <$> vs) ∧
  ∀ v, v ∈ vs ↔ v ∈ flat ∨ v ∈ legacy ∧ legacy_key_to_canonical v ∉ flat.
Proof.
  intros Hflat Hinj. unfold canonical_map. set (d1 := foldl (λ (d : dict string string) k, dset d k k) [] flat).
  match goal with |- context [foldl ?f d1 legacy] => set (d := foldl f d1 legacy) end.
  assert (dict_wf d) as Hwf.
  { apply dict_wf_foldl; [|apply dict_wf_foldl; [intros; by apply dict_wf_dset|apply dict_wf_nil]].
    intros d' a Hd. unfold dsetdefault. destruct (dget d' _); [done|by apply dict_wf_dset]. }
  assert (∀ x v, (x, v) ∈ d ↔ (v = x ∧ x ∈ flat) ∨ x ∉ flat ∧ v ∈ legacy ∧ legacy_key_to_canonical v = x) as Hd.
  { intros x v. transitivity (dget d x = Some v); [split; [by apply elem_dget|by apply dget_Some_elem]|].
    unfold d. rewrite foldl_setdefault by done. unfold d1. rewrite foldl_dset_id. destruct (decide (x ∈ flat)); naive_solver. }
  split.
  - assert (legacy_key_to_canonical <$> dvalues d = dkeys d) as ->; [|exact Hwf].
    unfold dvalues, dkeys. rewrite <- list_fmap_compose. apply list_fmap_ext. intros i [x v] Hl. simpl.
    apply list_elem_of_lookup_2, Hd in Hl as [[-> Hx]|(_&_&Hx)]; auto.
  - intros v. unfold dvalues. rewrite list_elem_of_fmap. split.
    + intros ([x u]&->&[[-> Hx]|(Hx&Hv&<-)]%Hd); auto.
    + intros [Hv|[Hv Hn]]; [exists (v, v)|exists (legacy_key_to_canonical v, v)]; (split; [done|]); apply Hd; auto.
Qed.

Lemma list_objects_inv {S} `{S3Laws S} prefix (w w' : world S) r : list_objects prefix w = (w', r) →
  reads w w' ∧ ∀ keys, r = Ok keys → ∀ k, k ∈ keys ↔ String.prefix prefix k = true ∧ is_Some (objects w !! k).
Proof.
  unfold list_objects, pbind, pret. destruct (call_s3 (s3_list prefix) w) as [w1 o] eqn:Hl. pose proof Hl as Hr.
  apply call_s3_reads in Hr; [|intros *; apply s3_list_frame].
  destruct o as [keys|e]; intros [= <- <-]; (split; [done|]); [|done]. intros ? [= <-] k.
  rewrite sort_le_perm. apply call_s3_inv in Hl as (Hl&_). by apply s3_list_ok in Hl as [_ Hl].
Qed.

Lemma prefix_app_long p s t : (String.length p <= String.length s)%nat → String.prefix p (s +:+ t) = String.prefix p s.
Proof.
  revert s. induction p as [|a p IH]; intros [|b s] Hl; simpl in *; [by destruct t|done|lia|].
  destruct (Ascii.ascii_dec a b); [|done]. apply IH. lia.
Qed.

Lemma string_rev_length s : String.length (string_rev s) = String.length s.
Proof.
  induction s as [|a s IH]; [done|]. change (String a s) with ((String a "") +:+ s).
  rewrite string_rev_app, !string_app_length, IH. simpl. lia.
Qed.

Lemma is_parquet_legacy k : (8 <= String.length k)%nat → is_parquet ("l1/" +:+ k) = is_parquet k.
Proof.
  intros Hl. unfold is_parquet, endswith. rewrite string_rev_app. apply prefix_app_long. by rewrite !string_rev_length.
Qed.

Section nas.
Context {S : Type} `{S3Laws S} (ch v ex sym d : string).
Implicit Types (w : world S).
Local Notation flat := (flat_prefix "L1" ch v ex sym d).

(** The objects a day's L2 merge reads: the flat Parquet objects, and the
    legacy ones without a flat counterpart. *)
Definition l1_source (m : gmap string object) (k : string) : Prop :=
  is_parquet k = true ∧ is_Some (m !! k) ∧
  (startswith flat k = true ∨ startswith ("l1/" +:+ flat) k = true ∧ m !! legacy_key_to_canonical k = None).

Lemma canonical_flat k : startswith flat k = true → legacy_key_to_canonical k = k.
Proof. unfold startswith. intros [t ->]%prefix_split. done. Qed.

Lemma legacy_key_inv k : startswith ("l1/" +:+ flat) k = true →
  ∃ c, k = "l1/" +:+ c ∧ legacy_key_to_canonical k = c ∧ startswith flat c = true ∧ (8 <= String.length c)%nat.
Proof.
  unfold startswith. intros [t ->]%prefix_split. exists (flat +:+ t). rewrite string_app_assoc.
  split_and!; [done|apply removeprefix_app|apply prefix_app|]. rewrite string_app_length. unfold flat_prefix.
  rewrite !string_app_length. simpl. lia.
Qed.

Lemma l1_candidates_inv w w' r : l1_candidates flat ("l1/" +:+ flat) w = (w', r) →
  reads w w' ∧ ∀ cands, r = Ok cands →
    NoDup (legacy_key_to_canonical <$> cands) ∧ ∀ k, k ∈ cands ↔ l1_source (objects w) k.
Proof.
  unfold l1_candidates, pbind, pret. destruct (list_objects flat w) as [w1 o] eqn:Hf. apply list_objects_inv in Hf as [Hr1 Hf].
  destruct o as [fk|e]; [|intros [= <- <-]; by split]. specialize (Hf _ eq_refl).
  destruct (list_objects _ w1) as [w2 o] eqn:Hl. apply list_objects_inv in Hl as [Hr2 Hl].
  assert (reads w w2) as Hr by by eapply reads_trans.
  destruct o as [lk|e]; intros [= <- <-]; (split; [done|]); [|done]. specialize (Hl _ eq_refl). intros ? [= <-].
  assert (objects w1 = objects w) as Ho by by destruct Hr1. rewrite Ho in Hl.
  set (fs := sort_le String.leb (List.filter is_parquet fk)). set (ls := sort_le String.leb (List.filter is_parquet lk)).
  assert (∀ k, k ∈ fs ↔ startswith flat k = true ∧ is_Some (objects w !! k) ∧ is_parquet k = true) as Hfs.
  { intros k. unfold fs. rewrite sort_le_perm, list_elem_of_In, List.filter_In, <- list_elem_of_In, Hf. unfold startswith. tauto. }
  assert (∀ k, k ∈ ls ↔ startswith ("l1/" +:+ flat) k = true ∧ is_Some (objects w !! k) ∧ is_parquet k = true) as Hls.
  { intros k. unfold ls. rewrite sort_le_perm, list_elem_of_In, List.filter_In, <- list_elem_of_In, Hl. unfold startswith. tauto. }
  clearbody fs ls. destruct (canonical_map_values fs ls) as [Hnd Hv].
  - intros k (Hk&_)%Hfs. by apply canonical_flat.
  - intros a b (Ha&_)%Hls (Hb&_)%Hls. apply legacy_key_inv in Ha as (ca&->&->&_), Hb as (cb&->&->&_). by intros ->.
  - split; [by rewrite sort_le_perm|]. intros k. rewrite sort_le_perm, Hv. unfold l1_source. split.
    + intros [(?&?&?)%Hfs|[(Hp&Hs&Hq)%Hls Hn]]; [by auto|]. split_and!; [done|done|]. right. split; [done|].
      destruct (legacy_key_inv k Hp) as (c&->&Hc&Hfc&Hlen). rewrite Hc in *. rewrite is_parquet_legacy in Hq by done.
      destruct (objects w !! c) eqn:Hoc; [|done]. exfalso. apply Hn, Hfs. split_and!; [done|by eexists|done].
    + intros (Hq&Hs&[Hp|[Hp Hn]]); [left; by apply Hfs|]. right. split; [by apply Hls|].
      intros (_&[? Hsome]&_)%Hfs. congruence.
Qed.
End nas.

Lemma parquet_not_dir k q : is_parquet k = true → k ≠ dir_name q.
Proof.
  intros Hk ->. unfold is_parquet, endswith, dir_name in Hk. rewrite string_rev_app in Hk.
  by destruct (string_rev (fs_name q)).
Qed.

Lemma build_l1_prefix_ok ch v ex sym d p : build_l1_prefix ch v ex sym d = Ok p →
  p = flat_prefix "L1" ch v ex sym d ∧ build_legacy_l1_prefix ch v ex sym d = Ok ("l1/" +:+ p).
Proof. unfold build_l1_prefix, build_legacy_l1_prefix. destruct (all_nonempty _); [by intros [= <-]|done]. Qed.

(** *** A local run without faults *)

Section fault_free.
Context {S : Type} `{S3Laws S} {Row : Type} `{ParquetLaws Row}.
Context (sha256_hex : bytes → string) (scan : list string → list string) (pid : string).
Implicit Types (w : world S).

(** A readable source of the given schema. *)
Definition readable w (schema : string) (s : string * list Row) : Prop :=
  ∃ b t, w_fs w !! s.1 = Some b ∧ pq_rows b = Ok s.2 ∧ pq_schema b = Ok schema ∧ extract_min_ts b = Ok t.

Lemma fetch_local_runs w k b : w_fs w !! k = Some b → fetch tt k w = (w, Ok (tt, b)).
Proof. intros Hb. unfold fetch, fetch_local, pbind, pret, read_file. by rewrite Hb. Qed.
#[local] Arguments fetch : simpl never.

Lemma keyed_from_runs w ks (t : string → option Z) :
  (∀ k, k ∈ ks → ∃ b, w_fs w !! k = Some b ∧ extract_min_ts b = Ok (t k)) →
  keyed_from tt ks w = (w, Ok (tt, omap (λ k, (k,.) <$> t k) ks)).
Proof.
  induction ks as [|k ks IH]; intros Hks; simpl; [done|].
  destruct (Hks k ltac:(by left)) as (b&Hb&Ht). unfold pbind, plift. rewrite (fetch_local_runs _ _ _ Hb). simpl. rewrite Ht.
  rewrite IH by (intros; apply Hks; by right). simpl. by destruct (t k).
Qed.

Lemma write_sources_runs w schema acc srcs :
  pq_accepts schema schema = true → Forall (readable w schema) srcs → sorted_ts (acc ++ concat srcs.*2) →
  write_sources tt schema (last (row_ts <$> acc)) acc srcs.*1 w = (w, Ok (acc ++ concat srcs.*2, false)).
Proof.
  intros Ha Hall. revert acc. induction Hall as [|[k rows] srcs (b&t&Hb&Hrows&Hsch&_) _ IH]; intros acc Hs; simpl.
  { by rewrite app_nil_r. }
  simpl in Hb, Hrows. unfold pbind, plift. rewrite (fetch_local_runs _ _ _ Hb). simpl. rewrite Hsch. unfold pq_rows in Hrows. destruct (pq_batches 1024 b) as [bs|] eqn:Hbs; [|done].
  injection Hrows as <-. simpl in Hs. rewrite app_assoc in Hs.
  rewrite write_batches_sorted; [|done|by rewrite (fmap_app _ (acc ++ _)) in Hs; apply StronglySorted_app_1_l in Hs].
  by rewrite IH, app_assoc.
Qed.

Lemma merge_runs w schema srcs run out_dir depth channel date :
  srcs ≠ [] → (∀ s q, s ∈ srcs → s.1 ≠ dir_name q) →
  pq_accepts schema schema = true → Forall (readable w schema) srcs → sorted_ts (concat srcs.*2) →
  ∃ w', merge (Row := Row) pid no_compact_faults tt srcs.*1 run out_dir depth channel date w =
    (w', Ok (Some (out_file out_dir run))).
Proof.
  intros Hne Hdir Ha Hall Hs. destruct srcs as [|[k0 rows0] srcs]; [done|]. unfold merge. cbn [fmap list_fmap fst].
  pose proof (Forall_inv Hall) as (b&t&Hb&_&Hsch&_). simpl in Hb.
  unfold pbind at 1. rewrite (fetch_local_runs _ _ _ Hb). cbn [fst snd].
  unfold pbind at 1, plift. rewrite Hsch. unfold pbind at 1, mkdir. cbn [cf_mkdir no_compact_faults]. unfold set_fs at 1.
  set (w2 := World _ _ _ _ _).
  assert (Forall (readable w2 schema) ((k0, rows0) :: srcs)) as Hall2.
  { apply Forall_forall. intros s Hin. pose proof (proj1 (Forall_forall _ _) Hall s Hin) as (b'&t'&Hb'&?).
    exists b', t'. split; [|done]. unfold w2. simpl. rewrite add_dirs_lookup; [done|]. intros q. by apply Hdir. }
  unfold merge_tail, unlink_tmp, pbind at 1, write_tmp_file.
  pose proof (write_sources_runs w2 schema [] ((k0, rows0) :: srcs) Ha Hall2 Hs) as Hw.
  cbn [fmap list_fmap fst last] in Hw |- *. rewrite Hw. cbn [cf_write no_compact_faults].
  unfold pbind at 1, set_fs at 1, pret at 1. unfold pbind, rename. cbn [w_fs cf_replace no_compact_faults].
  rewrite lookup_insert_eq. unfold set_fs, pret. eexists. reflexivity.
Qed.
(** *** The order of the sort keys *)

(** The first timestamp of a source with rows *)
Definition first_ts (s : string * list Row) : Z := match s.2 with r :: _ => row_ts r | [] => 0 end.
Definition key_of (s : string * list Row) : string * Z := (s.1, first_ts s).

Lemma first_ts_elem s : s.2 ≠ [] → ∃ r, r ∈ s.2 ∧ first_ts s = row_ts r.
Proof. destruct s as [k [|r rs]]; [done|]. intros _. exists r. split; [by left|done]. Qed.

Lemma keys_sorted (srcs : list (string * list Row)) : Forall (λ s, s.2 ≠ []) srcs → sorted_ts (concat srcs.*2) →
  StronglySorted (λ a b, a.2 <= b.2) (key_of <$> srcs).
Proof.
  induction 1 as [|s srcs Hne Hall IH]; simpl; [constructor|]. rewrite fmap_app. intros Hs.
  constructor; [by apply IH; apply StronglySorted_app_1_r in Hs|]. apply Forall_fmap, Forall_forall. intros s' Hin. simpl.
  pose proof (proj1 (Forall_forall _ _) Hall _ Hin) as Hne'.
  destruct (first_ts_elem s Hne) as (r&Hr&->), (first_ts_elem s' Hne') as (r'&Hr'&->).
  eapply (StronglySorted_app_1_elem_of Z.le); [exact Hs| |]; apply list_elem_of_fmap; [by exists r|].
  exists r'. split; [done|]. apply list_elem_of_In, List.in_concat. exists s'.2.
  split; [|by apply list_elem_of_In]. apply list_elem_of_In, list_elem_of_fmap. by exists s'.
Qed.

(** With distinct first timestamps the stable sort by key finds that order. *)
Lemma by_min_ts_unique (srcs : list (string * list Row)) keyed : Forall (λ s, s.2 ≠ []) srcs → sorted_ts (concat srcs.*2) →
  NoDup (first_ts <$> srcs) → keyed ≡ₚ key_of <$> srcs → by_min_ts keyed = srcs.*1.
Proof.
  intros Hne Hs Hnd Hp. unfold by_min_ts.
  assert (sorted_by snd keyed = key_of <$> srcs) as ->; [|by rewrite <- list_fmap_compose].
  apply (StronglySorted_unique_strong (λ a b, a.2 <= b.2)).
  - intros a b Ha Hb Hab Hba. rewrite sorted_by_perm, Hp in Ha.
    apply list_elem_of_fmap in Ha as (s1&->&Hs1), Hb as (s2&->&Hs2). simpl in *.
    apply list_elem_of_lookup in Hs1 as [i Hi], Hs2 as [j Hj].
    assert (i = j) as ->; [|congruence]. eapply NoDup_lookup; [exact Hnd| |]; rewrite list_lookup_fmap, ?Hi, ?Hj; simpl; [done|].
    f_equal. lia.
  - apply sorted_by_sorted.
  - by apply keys_sorted.
  - by rewrite sorted_by_perm.
Qed.

Definition expected_key (s : string * list Row) : option Z := match s.2 with [] => None | r :: _ => Some (row_ts r) end.

Lemma readable_key w schema s : readable w schema s → sorted_ts s.2 →
  ∃ b, w_fs w !! s.1 = Some b ∧ extract_min_ts b = Ok (expected_key s).
Proof.
  intros (b&t&Hb&Hrows&_&Ht) Hs. exists b. split; [done|]. rewrite Ht. f_equal.
  apply (extract_min_ts_ok _ _ _ Ht) in Hrows. destruct s as [k rows]. unfold expected_key. simpl in *. destruct t as [z|].
  - destruct Hrows as (Hne&Hz&Hmin). destruct rows as [|r rs]; [done|]. simpl in *. f_equal.
    specialize (Hmin Hs (row_ts r) ltac:(by left)). apply elem_of_cons in Hz as [->|Hz]; [done|].
    apply StronglySorted_inv in Hs as [_ Hall]. pose proof (proj1 (Forall_forall _ _) Hall _ Hz). lia.
  - by rewrite Hrows.
Qed.

Lemma sorted_block (s : string * list Row) srcs : s ∈ srcs → sorted_ts (concat srcs.*2) → sorted_ts s.2.
Proof.
  intros (l1&l2&->)%list_elem_of_split. rewrite fmap_app, concat_app, fmap_app. simpl. rewrite fmap_app.
  intros ?%StronglySorted_app_1_r. by eapply StronglySorted_app_1_l.
Qed.

(** What the sort phase finds. *)
Lemma keyed_candidates w schema cands (srcs empties : list (string * list Row)) :
  cands ≡ₚ srcs.*1 ++ empties.*1 → NoDup cands → Forall (readable w schema) (srcs ++ empties) →
  Forall (λ s, s.2 ≠ []) srcs → Forall (λ s, s.2 = []) empties → sorted_ts (concat srcs.*2) →
  ∃ keyed, keyed_from (Row := Row) tt cands w = (w, Ok (tt, keyed)) ∧ keyed ≡ₚ key_of <$> srcs.
Proof.
  intros Hp Hnd Hread Hne He Hs.
  set (all := srcs ++ empties).
  set (t k := from_option expected_key None (List.find (λ s, String.eqb s.1 k) all)).
  assert (cands ≡ₚ all.*1) as Hp' by (unfold all; by rewrite fmap_app).
  assert (∀ s, s ∈ all → t s.1 = expected_key s) as Ht.
  { intros s Hin. unfold t. destruct (List.find _ all) as [s'|] eqn:Hf; simpl.
    - apply List.find_some in Hf as [Hin' Heq%String.eqb_eq]. apply list_elem_of_In in Hin'.
      rewrite Hp' in Hnd. apply list_elem_of_lookup in Hin as [i Hi], Hin' as [j Hj].
      assert (i = j) as ->; [|congruence]. eapply NoDup_lookup; [exact Hnd| |]; rewrite list_lookup_fmap, ?Hi, ?Hj; simpl; [done|by rewrite Heq].
    - apply list_elem_of_In, (List.find_none _ _ Hf) in Hin. by rewrite String.eqb_refl in Hin. }
  clearbody t. exists (omap (λ k, (k,.) <$> t k) cands). split.
  - apply keyed_from_runs. intros k. rewrite Hp'. intros (s&->&Hin)%list_elem_of_fmap. rewrite Ht by done.
    eapply readable_key; [by eapply Forall_forall in Hread|].
    apply elem_of_app in Hin as [Hin|Hin]; [by eapply sorted_block|].
    pose proof (proj1 (Forall_forall _ _) He _ Hin) as ->. constructor.
  - rewrite Hp'. assert (omap (λ k, (k,.) <$> t k) all.*1 = omap (λ s, (s.1,.) <$> expected_key s) all) as ->.
    { clearbody all. clear -Ht. induction all as [|s l IH]; simpl; [done|]. rewrite Ht by by left.
      destruct (expected_key s); simpl; [f_equal|]; (apply IH; intros; apply Ht; by right). }
    unfold all. rewrite omap_app. clear -Hne He.
    assert (omap (λ s, (s.1,.) <$> expected_key s) empties = []) as ->.
    { induction He as [|[k rows] l Hs _ IH]; simpl in *; [done|]. by rewrite Hs. }
    rewrite app_nil_r. apply reflexive_eq. induction Hne as [|[k [|r rows]] l Hs _ IH]; simpl in *; [done|done|].
    unfold key_of at 1. simpl. by f_equal.
Qed.
End fault_free.

(** ** Properties *)

(** The rows of a UTC hour of a day *)
Definition in_hour {Row : Type} `{Parquet Row} (d h : Z) (x : Row) : bool :=
  ((d * 24 + h) * 3600000000 <=? row_ts x) && (row_ts x <? (d * 24 + h + 1) * 3600000000).


Definition l1_name (node part : string) : string :=
  "/d/market/transaction/schema_version=tick.v1/tier=L1/exchange=upbit/symbol=KRW-BTC/date=1970-01-01/node=" +:+
  node +:+ "/part-" +:+ part +:+ ".parquet".
Definition key_of_file (k : string) : string := removeprefix "/d/" k.
Definition l1_disk : gmap string bytes :=
  {[ l1_name "a" "1" := "abc"; l1_name "a" "2" := "de"; l1_name "a" "0" := "" ]}.
Definition disk_world (fs : gmap string bytes) : world mem_s3 := World (MemS3 ∅ []) None 0 fs [].
Definition example_sha (b : bytes) : string := "0123456789abcdef01".
Definition example_hour (h : Z) (w : world mem_s3) : world mem_s3 * res (option path) :=
  compact_hour (Row := Ascii.ascii) example_sha id "7" no_compact_faults ["d"] false "upbit" "KRW-BTC" "transaction" 0 h w.
Definition l2_path (h : Z) : path :=
  out_file (hour_dir ["d"] "transaction" "tick.v1" "upbit" "KRW-BTC" "1970-01-01" h) "0123456789abcdef".


(** [compact_hour] does not restrict itself to its hour: every hour's file
    holds the whole day.  So once two hours have been compacted, and the day
    has rows of two different times, the L3 merge of the day cannot succeed:
    it raises or ends in quarantine, however the files are ordered.  (What
    happens between the three calls may be anything that keeps the L1 files
    before the second and the two L2 files before the third.) *)
Theorem two_hours_block_the_day {S Row : Type} `{S3Laws S} `{ParquetLaws Row} sha256_hex scan pid faults root
    ex sym ch v d h1 h2 (w w1 v1 w2 v2 w3 : world S) p1 p2 (r : res (option path)) k (rows : list Row) (x y : Row) :
  (∀ l, scan l ≡ₚ l) → (∀ b, no_slash (sha256_hex b) = true) → schema_version ch = Ok v →
  0 <= h1 < 24 → 0 <= h2 < 24 → h1 ≠ h2 →
  let l1 := root ++ hive_dir "L1" ch v ex sym (isoformat d) in
  part_below l1 k = true → file_rows w k rows → x ∈ rows → y ∈ rows → row_ts x < row_ts y →
  compact_hour (Row := Row) sha256_hex scan pid faults root false ex sym ch d h1 w = (w1, Ok (Some p1)) →
  w_fs v1 !! k = w_fs w1 !! k →
  compact_hour (Row := Row) sha256_hex scan pid faults root false ex sym ch d h2 v1 = (w2, Ok (Some p2)) →
  w_fs v2 !! fs_name p1 = w_fs w1 !! fs_name p1 → w_fs v2 !! fs_name p2 = w_fs w2 !! fs_name p2 →
  compact_day (Row := Row) sha256_hex scan pid faults root false ex sym ch d v2 = (w3, r) →
  ∀ p, r ≠ Ok (Some p).
Proof.
  intros Hscan Hhex Hv Hh1 Hh2 Hne l1 Hk (b&Hb&Hrows) Hx Hy Hlt Hc1 Hkeep Hc2 Hp1 Hp2 Hc3 p ->.
  apply compact_hour_inv in Hc1 as (_&_&Hc1), Hc2 as (_&_&Hc2); [|done..].
  apply compact_day_inv in Hc3 as (_&_&Hc3); [|done].
  destruct (Hc1 v Hv) as [Hf1 Hr1], (Hc2 v Hv) as [_ Hr2], (Hc3 v Hv) as [_ Hr3].
  destruct (Hr1 _ eq_refl) as (n1&s1&->&Hm1), (Hr2 _ eq_refl) as (n2&s2&->&Hm2), (Hr3 _ eq_refl) as (n3&s3&->&Hm3).
  assert (∀ n, no_slash (run_id sha256_hex n) = true) as Hns by (intros; by apply no_slash_substring).
  assert (file_rows v1 k rows) as Hk2 by (exists b; by rewrite Hkeep, (Hf1 k Hk)).
  assert (file_rows w k rows) as Hk1 by by exists b.
  pose proof (merge_of_elem _ _ _ _ _ _ _ x Hm1 Hk Hk1 Hx) as Hx1. pose proof (merge_of_elem _ _ _ _ _ _ _ y Hm1 Hk Hk1 Hy) as Hy1.
  pose proof (merge_of_elem _ _ _ _ _ _ _ x Hm2 Hk Hk2 Hx) as Hx2. pose proof (merge_of_elem _ _ _ _ _ _ _ y Hm2 Hk Hk2 Hy) as Hy2.
  destruct Hm1 as (_&_&_&b1&Hb1&Hrows1), Hm2 as (_&_&_&b2&Hb2&Hrows2), Hm3 as (Hperm&Hall&Hs&_).
  rewrite <- Hp1 in Hb1. rewrite <- Hp2 in Hb2.
  pose proof (out_file_below root ch v ex sym (isoformat d) h1 _ (Hns n1)) as Hbel1.
  pose proof (out_file_below root ch v ex sym (isoformat d) h2 _ (Hns n2)) as Hbel2.
  assert (∀ q bq rq, part_below (root ++ hive_dir "L2" ch v ex sym (isoformat d)) q = true → w_fs v2 !! q = Some bq →
    pq_rows bq = Ok rq → (q, rq) ∈ s3) as Hsrc.
  { intros q bq rq Hq Hbq Hrq. assert (q ∈ s3.*1) as ([q' rs]&->&Hin)%list_elem_of_fmap.
    { rewrite Hperm. apply elem_parts_of. by split; [|eexists]. }
    pose proof (proj1 (Forall_forall _ _) Hall _ Hin) as (b'&Hb'&Hrs). simpl in *. by assert (rs = rq) as -> by congruence. }
  destruct (concat_two_blocks s3 _ _ (Hsrc _ _ _ Hbel1 Hb1 Hrows1) (Hsrc _ _ _ Hbel2 Hb2 Hrows2)) as [Hle|Hle]; [|done| |].
  - by apply hour_names_differ.
  - specialize (Hle y x Hy1 Hx2). lia.
  - specialize (Hle y x Hy2 Hx1). lia.
Qed.

Lemma run_pair {W A} (m : proc W A) (w : W) r : (m w).2 = r → m w = ((m w).1, r).
Proof. intros <-. apply surjective_pairing. Qed.

Notation two_hours_world := ((example_hour 6 (example_hour 5 (disk_world l1_disk)).1).1).
Definition example_day (w : world mem_s3) : world mem_s3 * res (option path) :=
  compact_day (Row := Ascii.ascii) example_sha id "7" no_compact_faults ["d"] false "upbit" "KRW-BTC" "transaction" 0 w.

Lemma two_hours_block_the_day_witness :
  (example_hour 6 (example_hour 5 (disk_world l1_disk)).1).2 = Ok (Some (l2_path 6)) ∧
  ∀ p, (example_day two_hours_world).2 ≠ Ok (Some p).
Proof.
  split; [vm_compute; reflexivity|].
  apply (two_hours_block_the_day (Row := Ascii.ascii) example_sha id "7" no_compact_faults ["d"] "upbit" "KRW-BTC" "transaction"
    "tick.v1" 0 5 6 (disk_world l1_disk) (example_hour 5 (disk_world l1_disk)).1 (example_hour 5 (disk_world l1_disk)).1
    two_hours_world two_hours_world (example_day two_hours_world).1 (l2_path 5) (l2_path 6) (example_day two_hours_world).2
    (l1_name "a" "1") (string_list "abc") (Ascii.ascii_of_nat 97) (Ascii.ascii_of_nat 98)).
  - intros l. reflexivity.
  - intros b. reflexivity.
  - reflexivity.
  - lia.
  - lia.
  - discriminate.
  - vm_compute. reflexivity.
  - exists "abc". split; vm_compute; reflexivity.
  - by left.
  - by right; left.
  - vm_compute. reflexivity.
  - apply run_pair. vm_compute. reflexivity.
  - reflexivity.
  - apply run_pair. vm_compute. reflexivity.
  - vm_compute. reflexivity.
  - vm_compute. reflexivity.
  - apply run_pair. reflexivity.
Defined.

(** On the NAS path the sources of an L2 file are one object for each
    canonical L1 key of the day, the flat object where there is one and the
    legacy object otherwise (so rows are not doubled while both copies exist),
    and the file holds all their rows in timestamp order.  The store is only
    read. *)
Theorem compact_hour_nas_merges_each_key_once {S Row : Type} `{S3Laws S} `{ParquetLaws Row} sha256_hex scan pid faults root
    ex sym ch v d h (w w' : world S) (r : res (option path)) :
  schema_version ch = Ok v →
  compact_hour (Row := Row) sha256_hex scan pid faults root true ex sym ch d h w = (w', r) →
  objects w' = objects w ∧
  ∀ p, r = Ok (Some p) →
    ∃ srcs : list (string * list Row),
      (∀ k, k ∈ srcs.*1 ↔ l1_source ch v ex sym (isoformat d) (objects w) k) ∧
      NoDup (legacy_key_to_canonical <$> srcs.*1) ∧
      Forall (λ s, object_rows w s.1 s.2) srcs ∧ sorted_ts (concat srcs.*2) ∧
      file_rows w' (fs_name p) (concat srcs.*2).
Proof.
  intros Hv. unfold compact_hour, pbind at 1, plift. rewrite Hv. cbn iota. unfold compact_hour_nas, pbind at 1, plift.
  destruct (build_l1_prefix _ _ _ _ _) as [fp|e] eqn:Hfp; [|by intros [= <- <-]].
  apply build_l1_prefix_ok in Hfp as [-> Hlp]. unfold pbind at 1. rewrite Hlp.
  unfold pbind at 1, emit_always. set (w0 := World _ _ _ _ _).
  destruct (l1_candidates _ _ w0) as [w1 o] eqn:Hc. apply l1_candidates_inv in Hc as [(Ho1&Hq1&Hf1) Hc].
  assert (objects w1 = objects w) as Ho by by rewrite Ho1. assert (objects w0 = objects w) as Hw0 by done. clearbody w0.
  destruct o as [cands|e]; [|by intros [= <- <-]]. destruct (Hc _ eq_refl) as [Hnd Hcands].
  unfold pbind. destruct (keyed_from empty_cache cands w1) as [w2 o] eqn:Hk.
  apply keyed_from_inv in Hk as [Hr2 Hk]; [|apply map_Forall_empty].
  pose proof Hr2 as (Ho2&_&_). destruct o as [[c keyed]|e]; [|intros [= <- <-]; split; [congruence|done]].
  destruct (Hk _ _ eq_refl) as [Hinv Hkeyed]. simpl. intros Hm. apply merge_inv in Hm as [(Ho3&_) Hp]; [|apply _|done|].
  2: { intros k q. rewrite by_min_ts_perm. intros Hin. destruct Hkeyed as (es&Hperm&_).
       apply parquet_not_dir, (Hcands k). rewrite Hperm. set_solver. }
  split; [congruence|]. intros p ->. destruct (Hp _ eq_refl) as [[_ [=]]|Hmd].
  apply (merged_frame w1) in Hmd; [|intros k _; by apply reads_content].
  apply (merged_sources w1 w' cands keyed) in Hmd as (->&srcs&Hperm&Hrows&Hs&Hout).
  - exists srcs. split_and!; [|by rewrite Hperm| |done|done].
    + intros k. by rewrite Hperm, Hcands, Hw0.
    + eapply Forall_impl; [exact Hrows|]. intros [k rows] (b&Hb&Hrs). simpl in *. rewrite Ho in Hb.
      destruct (objects w !! k) as [o|] eqn:Hok; [|done]. exists o. injection Hb as <-. done.
  - exact Hkeyed.
Qed.

Definition legacy_and_flat : gmap string object :=
  {[ key_of_file (l1_name "a" "1") := Object "abc" None; "l1/" +:+ key_of_file (l1_name "a" "1") := Object "abc" None;
     "l1/" +:+ key_of_file (l1_name "a" "2") := Object "de" None ]}.
Definition nas_world : world mem_s3 := World (MemS3 legacy_and_flat []) None 0 ∅ [].
Definition example_hour_nas : world mem_s3 * res (option path) :=
  compact_hour (Row := Ascii.ascii) example_sha id "7" no_compact_faults ["d"] true "upbit" "KRW-BTC" "transaction" 0 5 nas_world.

Lemma compact_hour_nas_merges_each_key_once_witness :
  example_hour_nas.2 = Ok (Some (l2_path 5)) ∧ w_fs example_hour_nas.1 !! fs_name (l2_path 5) = Some "abcde" ∧
  objects example_hour_nas.1 = objects nas_world.
Proof.
  split; [vm_compute; reflexivity|]. split; [vm_compute; reflexivity|].
  apply (compact_hour_nas_merges_each_key_once (Row := Ascii.ascii) example_sha id "7" no_compact_faults ["d"] "upbit" "KRW-BTC"
    "transaction" "tick.v1" 0 5 nas_world example_hour_nas.1 example_hour_nas.2).
  - reflexivity.
  - apply run_pair. reflexivity.
Defined.

(** A day whose L1 files can be put in an order is compacted: on a disk
    without faults, with readable files of one schema, if the files with rows
    can be arranged so that their rows one after the other are in timestamp
    order, and no two of them start at the same time, then every hour of the
    day produces its L2 file, in whatever order the directory lists them. *)
Theorem compact_hour_produces {S Row : Type} `{S3Laws S} `{ParquetLaws Row} sha256_hex scan pid root
    ex sym ch v d h (w : world S) schema (srcs empties : list (string * list Row)) :
  (∀ l, scan l ≡ₚ l) → schema_version ch = Ok v → pq_accepts schema schema = true →
  srcs.*1 ++ empties.*1 ≡ₚ List.filter (part_below (root ++ hive_dir "L1" ch v ex sym (isoformat d))) (map_to_list (w_fs w)).*1 →
  Forall (readable w schema) (srcs ++ empties) → srcs ≠ [] → Forall (λ s, s.2 ≠ []) srcs → Forall (λ s, s.2 = []) empties →
  sorted_ts (concat srcs.*2) → NoDup (first_ts <$> srcs) →
  ∃ w', compact_hour (Row := Row) sha256_hex scan pid no_compact_faults root false ex sym ch d h w =
    (w', Ok (Some (out_file (hour_dir root ch v ex sym (isoformat d) h) (run_id sha256_hex srcs.*1)))).
Proof.
  intros Hscan Hv Ha Hperm Hread Hsrcs Hne He Hs Hnd. unfold compact_hour, pbind at 1, plift. rewrite Hv. cbn iota.
  unfold pbind at 1, rglob_parts. set (parts := List.filter _ _) in *. pose proof (Hscan parts) as Hsc.
  assert (NoDup (scan parts)) as Hndp.
  { rewrite Hsc. apply NoDup_ListNoDup, List.NoDup_filter, NoDup_ListNoDup, NoDup_fst_map_to_list. }
  destruct (keyed_candidates w schema (scan parts) srcs empties) as (keyed&Hk&Hkp); [by rewrite Hsc|done..|].
  unfold pbind at 1. rewrite Hk. cbn [fst snd]. rewrite (by_min_ts_unique srcs keyed) by done.
  apply merge_runs with schema; [done| |done|by apply Forall_app in Hread as [? _]|done].
  intros s q Hin. apply (part_not_dir (root ++ hive_dir "L1" ch v ex sym (isoformat d))).
  assert (s.1 ∈ parts) as Hp by (rewrite <- Hperm; apply elem_of_app; left; apply list_elem_of_fmap; by exists s).
  by apply list_elem_of_In, List.filter_In in Hp as [_ ?].
Qed.

Lemma compact_hour_produces_witness :
  ∃ w', compact_hour (Row := Ascii.ascii) example_sha id "7" no_compact_faults ["d"] false "upbit" "KRW-BTC" "transaction" 0 5
    (disk_world l1_disk) = (w', Ok (Some (l2_path 5))).
Proof.
  apply (compact_hour_produces (Row := Ascii.ascii) example_sha id "7" ["d"] "upbit" "KRW-BTC" "transaction" "tick.v1" 0 5
    (disk_world l1_disk) "one character" [(l1_name "a" "1", string_list "abc"); (l1_name "a" "2", string_list "de")]
    [(l1_name "a" "0", [])]).
  - intros l. reflexivity.
  - reflexivity.
  - reflexivity.
  - vm_compute. solve_Permutation.
  - repeat (apply Forall_cons; split; [eexists _, _; split_and!; vm_compute; reflexivity|]). apply Forall_nil. exact I.
  - discriminate.
  - repeat (apply Forall_cons; split; [discriminate|]). apply Forall_nil. exact I.
  - repeat (apply Forall_cons; split; [reflexivity|]). apply Forall_nil. exact I.
  - vm_compute. repeat constructor; discriminate.
  - vm_compute. repeat constructor; set_solver.
Defined.

(** The name of a quarantined file keeps neither exchange nor symbol nor hour:
    a second violation on the same day and channel, in the same process,
    replaces the file of the first. *)
Lemma quarantine_name_forgets pid root ch v d reason ex sym h ex' sym' h' :
  quarantine_path 9 (tmp_file pid (hour_dir root ch v ex sym d h)) ch d reason =
  quarantine_path 9 (tmp_file pid (hour_dir root ch v ex' sym' d h')) ch d reason.
Proof.
  unfold quarantine_path, tmp_file, hour_dir. rewrite !last_snoc, !length_app. cbn [length hive_dir]. f_equal.
  replace (_ - _)%nat with (length root) by lia. rewrite <- !app_assoc. by rewrite !take_app_length.
Qed.
