(* ===== verification/L1.v ===== *)
(** * L1 compaction ([compactor/l1.py])

    One sealed segment of the log becomes one Parquet file, written through a
    temporary file and a rename, optionally uploaded, described by a lineage
    file, and marked as compacted.  Files and the store are the [world] of
    [NasUploader], paths are lists of components, the conversion is
    [L1Rows]. *)
From S2P Require Import Prelude PyDict Hoare PyDecimal RetryQueue ObjectStore NasUploader NasKey Promotion DualWriter Wal PyTime Ndjson DecimalText Collector Parquet L1Rows Compactor.
From Stdlib Require Import Ascii.
Open Scope string_scope.
Open Scope list_scope.
Open Scope Z_scope.

(** The dictionary of [_parse_segment_meta] *)
Record segment_meta := SegmentMeta { m_exchange : string; m_channel : string; m_symbol : string; m_date : string; m_node_id : string }.

(** Errors of one call: the directory, the temporary file and the rename
    ([compact_faults]), opening the segment, [mkstemp], the lineage file (then
    [lf_lineage_partial] is left) and the marker. *)
Record l1_faults := L1Faults {
  lf_files : compact_faults; lf_read : option exn; lf_mkstemp : option exn;
  lf_lineage : option exn; lf_lineage_partial : option bytes; lf_touch : option exn }.
Definition no_l1_faults : l1_faults := L1Faults no_compact_faults None None None None None.

(** The last component, [path.name] *)
Definition path_name (p : path) : string := default "" (last p).
(** [compacted_path(sealed)] *)
Definition marker_path (sealed : path) : path := removelast sealed ++ [compacted_path (path_name sealed)].

(** [json.dumps(d, indent=2)] of strings *)
Fixpoint json_lines (d : list (string * string)) : string :=
  match d with
  | [] => ""
  | [(k, v)] => "  " +:+ quoted (escape_key k) +:+ ": " +:+ quoted (escape_key v)
  | (k, v) :: d' => "  " +:+ quoted (escape_key k) +:+ ": " +:+ quoted (escape_key v) +:+ "," +:+ newline +:+ json_lines d'
  end.
Definition json_indent2 (d : list (string * string)) : string := "{" +:+ newline +:+ json_lines d +:+ newline +:+ "}".

Section l1.
Context {S : Type} `{S3 S} {Row : Type} `{Tables Row}.
(** The dual writer of the compactor: its queue, clocks, faults and root *)
Context (cfg : rq_config) (new_id : nat → string) (enqueue_clock : nat → Z * Z)
        (enqueue_faults : nat → option exn * option exn) (has_metrics : bool)
        (sha256_hex : bytes → string) (dwf : dw_faults) (dw_root : path).
(** Is a dual writer injected?  The compactor's root, the random part of
    [mkstemp]'s name, the clock, the errors *)
Context (has_dual_writer : bool) (root : path) (tmp_random : string) (now : Z) (faults : l1_faults).
Local Notation proc := (proc (world S)).
Local Notation put_l1 := (put_l1 cfg new_id enqueue_clock enqueue_faults has_metrics sha256_hex dwf).

Definition wal_root : path := root ++ ["wal"].

(** [_parse_segment_meta] *)
Definition parse_segment_meta (sealed : path) : res segment_meta :=
  rbind (relative_to sealed wal_root) (λ parts,
  match parts with
  | exchange :: channel :: symbol :: date :: _ :: _ =>
      Ok (SegmentMeta exchange channel symbol date (parse_node_id_from_segment (path_name sealed)))
  | _ => Raise ValueError
  end).

(** [_derive_run_id] *)
Definition derive_run_id (sealed : path) : string :=
  let rel := match relative_to sealed wal_root with Ok rel => as_posix rel | Raise _ => fs_name sealed end in
  String.substring 0 16 (sha256_hex rel).

(** [_derive_parquet_path]: the directory and the file *)
Definition l1_dir (m : segment_meta) (schema_ver : string) : path :=
  root ++ hive_dir "L1" (m_channel m) schema_ver (m_exchange m) (m_symbol m) (m_date m) ++ ["node=" +:+ m_node_id m].
Definition l1_name (ts_prefix run_id : string) : string := "part-" +:+ ts_prefix +:+ "-" +:+ run_id +:+ ".parquet".
Definition derive_parquet_path (m : segment_meta) (run_id ts_prefix : string) : res path :=
  rbind (schema_version (m_channel m)) (λ v, Ok (l1_dir m v ++ [l1_name ts_prefix run_id])).

Definition arrow_schema_for_channel (channel : string) : res string :=
  if String.eqb channel "transaction" then Ok "_TICK_SCHEMA"
  else if String.eqb channel "orderbooksnapshot" then Ok "_OB_SNAPSHOT_SCHEMA"
  else if String.eqb channel "orderbookdepth" then Ok "_ORDERBOOKDEPTH_SCHEMA"
  else Raise NotImplementedError.

(** The file's content for a table *)
Definition parquet_bytes (m : segment_meta) (rows : list Row) : res bytes :=
  rbind (arrow_schema_for_channel (m_channel m)) (λ schema, Ok (pq_write (with_node_id schema (m_node_id m)) rows)).

Definition exists_file (p : path) : proc bool := λ w, (w, Ok (match w_fs w !! fs_name p with Some _ => true | None => false end)).

(** [mkstemp(dir=target.parent, suffix=".parquet.tmp")] *)
Definition mkstemp_file (target : path) : path := removelast target ++ ["tmp" +:+ tmp_random +:+ ".parquet.tmp"].

(** [_write_parquet_atomic]; gauges of open writers are not modelled. *)
Definition write_parquet_atomic (rows : list Row) (target : path) (m : segment_meta) : proc unit :=
  let tmp := mkstemp_file target in
  pbind (plift (parquet_bytes m rows)) (λ content,
  pbind (match lf_mkstemp faults with Some e => praise e | None => set_fs (<[fs_name tmp := ""]>) end) (λ _,
  unlink_tmp (lf_files faults) tmp
    (pbind (match cf_write (lf_files faults) with
            | Some e => pbind (set_fs (<[fs_name tmp := cf_partial (lf_files faults)]>)) (λ _, praise e)
            | None => set_fs (<[fs_name tmp := content]>)
            end) (λ _,
     rename (cf_replace (lf_files faults)) (fs_name tmp) (fs_name target))))).

(** [_put_l1_nas]: whatever happens, the compactor goes on. *)
Definition put_l1_nas (p : path) : proc unit := λ w, ((put_l1 p dw_root w).1, Ok tt).

(** [_write_lineage] *)
Definition lineage_text (sealed p : path) (m : segment_meta) (run_id : string) : res string :=
  rbind (schema_version (m_channel m)) (λ v,
  Ok (json_indent2
    [("run_id", run_id); ("node_id", m_node_id m); ("exchange", m_exchange m); ("channel", m_channel m);
     ("symbol", m_symbol m); ("date", m_date m); ("compacted_from", path_name sealed);
     ("compacted_from_abs", fs_name sealed); ("output", fs_name p); ("tier", "L1"); ("schema_version", v);
     ("compacted_at_utc", iso_time now)])).
Definition lineage_path (p : path) (run_id : string) : path := removelast p ++ ["lineage-" +:+ run_id +:+ ".json"].
Definition write_lineage (sealed p : path) (m : segment_meta) (run_id : string) : proc unit :=
  let name := fs_name (lineage_path p run_id) in
  pbind (plift (lineage_text sealed p m run_id)) (λ text,
  match lf_lineage faults with
  | Some e => pbind (match lf_lineage_partial faults with Some b => set_fs (<[name := b]>) | None => pret tt end) (λ _, praise e)
  | None => set_fs (<[name := text]>)
  end).

(** [marker.touch()] where there is none *)
Definition touch_marker (sealed : path) : proc unit :=
  pbind (exists_file (marker_path sealed)) (λ there,
  if there : bool then pret tt else
  match lf_touch faults with Some e => praise e | None => set_fs (<[fs_name (marker_path sealed) := ""]>) end).

(** The part of [compact_segment] that writes the Parquet file *)
Definition build_parquet (sealed p : path) (m : segment_meta) (run_id : string) : proc unit :=
  pbind (match lf_read faults with Some e => praise e | None => read_file (fs_name sealed) end) (λ text,
  pbind (plift (segment_rows sha256_hex (m_node_id m) run_id (m_channel m) text)) (λ rows,
  write_parquet_atomic rows p m)).

(** [compact_segment] *)
Definition compact_segment (sealed : path) : proc path :=
  pbind (plift (parse_segment_meta sealed)) (λ m,
  let run_id := derive_run_id sealed in
  pbind (plift (parse_ts_from_segment (path_name sealed))) (λ ts_prefix,
  pbind (plift (derive_parquet_path m run_id ts_prefix)) (λ p,
  pbind (mkdir (lf_files faults) (removelast p)) (λ _,
  pbind (exists_file p) (λ there,
  pbind (if there : bool then pret tt else build_parquet sealed p m run_id) (λ _,
  pbind (if has_dual_writer then put_l1_nas p else pret tt) (λ _,
  pbind (write_lineage sealed p m run_id) (λ _,
  pbind (touch_marker sealed) (λ _,
  pret p))))))))).
End l1.

(** ** Lemmas *)

#[local] Arguments String.append !_ _ / : simpl nomatch.

(** *** File names are told apart by their last character *)

Definition last_char (k : string) : option ascii := match string_rev k with String c _ => Some c | EmptyString => None end.

Lemma last_char_app u t : t ≠ "" → last_char (u +:+ t) = last_char t.
Proof.
  intros Ht. unfold last_char. rewrite string_rev_app. destruct (string_rev t) as [|c r] eqn:Hr; [|done].
  exfalso. apply Ht. rewrite <- (string_rev_rev t), Hr. done.
Qed.

Lemma fs_name_snoc d x t : t ≠ "" → last_char (fs_name (d ++ [x +:+ t])) = last_char t.
Proof.
  intros Ht. destruct d as [|c d].
  - unfold fs_name. cbn [app join]. rewrite <- string_app_assoc. by apply last_char_app.
  - rewrite fs_name_app by done. cbn [slashed]. rewrite string_app_nil_r.
    change (String slash (x +:+ t)) with (("/" +:+ x) +:+ t). rewrite <- string_app_assoc. by apply last_char_app.
Qed.

Lemma fs_name_siblings d x y : d ≠ [] → x ≠ y → fs_name (d ++ [x]) ≠ fs_name (d ++ [y]).
Proof.
  intros Hd Hxy. rewrite !fs_name_app by done. cbn [slashed]. rewrite !string_app_nil_r.
  intros Heq%string_app_inj_l. by injection Heq.
Qed.

Lemma dir_name_last q : last_char (dir_name q) = Some slash.
Proof. unfold dir_name. by rewrite last_char_app. Qed.

(** *** Stages of a compaction *)

Section l1_lemmas.
Context {S : Type} `{S3Laws S} {Row : Type} `{TablesLaws Row}.
Context (cfg : rq_config) (new_id : nat → string) (enqueue_clock : nat → Z * Z)
        (enqueue_faults : nat → option exn * option exn) (has_metrics : bool)
        (sha256_hex : bytes → string) (dwf : dw_faults) (dw_root : path).
Context (has_dual_writer : bool) (root : path) (tmp_random : string) (now : Z) (faults : l1_faults).
Implicit Types (w : world S) (sealed p : path) (m : segment_meta).
Local Notation put_l1 := (put_l1 cfg new_id enqueue_clock enqueue_faults has_metrics sha256_hex dwf).
Local Notation build_parquet := (build_parquet (Row := Row) sha256_hex tmp_random faults).
Local Notation write_parquet_atomic := (write_parquet_atomic (Row := Row) tmp_random faults).
Local Notation compact_segment := (compact_segment (Row := Row) cfg new_id enqueue_clock enqueue_faults has_metrics sha256_hex dwf
  dw_root has_dual_writer root tmp_random now faults).

(** The upload keeps the file, or deletes it behind a verified copy. *)
Lemma put_l1_files p w body : w_fs w !! fs_name p = Some body →
  let w' := (put_l1 p dw_root w).1 in
  w_fs w' = w_fs w ∨
  w_fs w' = delete (fs_name p) (w_fs w) ∧
  ∃ key, build_nas_key p dw_root (Some "L1") = Ok key ∧ verified_copy sha256_hex (w_s3 w') key body.
Proof.
  intros Hb. destruct (put_l1 p dw_root w) as [w' r] eqn:Hp. cbn [fst].
  destruct (build_nas_key p dw_root (Some "L1")) as [key|e] eqn:Hk.
  - destruct (put_l1_inv _ _ _ _ _ _ _ _ _ _ _ _ _ _ Hb Hk Hp) as (_&[Hf|(Hf&Hv&_)]&_); [by left|right].
    split; [done|by exists key].
  - left. unfold DualWriter.put_l1, pbind, plift in Hp. destruct (relative_to p dw_root); [|by injection Hp as <- _].
    rewrite Hk in Hp. by injection Hp as <- _.
Qed.

Lemma unlink_keeps {A} (T : string → Prop) w0 tmp (m : proc (world S) A) fl : T (fs_name tmp) →
  keeps (files_but T w0) m → keeps (files_but T w0) (unlink_tmp fl tmp m).
Proof.
  intros Ht Hm. unfold unlink_tmp.
  apply (keeps_try _ m (λ a, pret a) (λ e, pbind (if cf_unlink fl then pret tt else set_fs (delete (fs_name tmp))) (λ _, praise e)));
    [done|intros a; apply keeps_ret|intros e].
  apply keeps_bind; [|intros _; apply keeps_raise]. apply keeps_if; [apply keeps_ret|]. apply set_fs_keeps.
  intros fs k Hk. apply lookup_delete_ne. congruence.
Qed.

Lemma insert_keeps (T : string → Prop) w0 k b : T k → keeps (files_but T w0) (set_fs (<[k := b]>)).
Proof. intros Hk. apply set_fs_keeps. intros fs k' Hk'. apply lookup_insert_ne. congruence. Qed.

Lemma write_parquet_atomic_keeps (T : string → Prop) rows p m w0 :
  T (fs_name (mkstemp_file tmp_random p)) → T (fs_name p) → keeps (files_but T w0) (write_parquet_atomic rows p m).
Proof.
  intros Htmp Hp. unfold L1.write_parquet_atomic.
  repeat first [apply keeps_bind; [|intros ?] | apply plift_keeps | apply unlink_keeps | apply rename_keeps
    | match goal with |- keeps _ (match ?o with Some _ => _ | None => _ end) => destruct o end
    | apply keeps_raise | apply insert_keeps | assumption].
Qed.

Lemma write_parquet_atomic_ok rows p m w w' u :
  write_parquet_atomic rows p m w = (w', Ok u) → ∃ content, parquet_bytes m rows = Ok content ∧ w_fs w' !! fs_name p = Some content.
Proof.
  unfold L1.write_parquet_atomic, pbind, plift. destruct (parquet_bytes m rows) as [content|]; [|done].
  destruct (lf_mkstemp faults); [done|]. unfold unlink_tmp, set_fs. cbn [w_fs].
  destruct (cf_write (lf_files faults)); [by destruct (cf_unlink _)|]. unfold rename. cbn [w_fs].
  rewrite lookup_insert_eq. destruct (cf_replace (lf_files faults)); [by destruct (cf_unlink _)|].
  unfold set_fs. intros [= <- _]. exists content. split; [done|]. cbn [w_fs]. apply lookup_insert_eq.
Qed.

Lemma build_parquet_keeps (T : string → Prop) sealed p m run w0 :
  T (fs_name (mkstemp_file tmp_random p)) → T (fs_name p) → keeps (files_but T w0) (build_parquet sealed p m run).
Proof.
  intros Htmp Hp. unfold L1.build_parquet. apply keeps_bind; [|intros text].
  { destruct (lf_read faults); [apply keeps_raise|]. intros w w' r Hw. unfold read_file. destruct (w_fs w !! _); by intros [= <- <-]. }
  apply keeps_bind; [apply plift_keeps|intros rows]. by apply write_parquet_atomic_keeps.
Qed.

(** What the file of a segment must hold *)
Definition segment_file w sealed m run content (rows : list Row) : Prop :=
  ∃ text, w_fs w !! fs_name sealed = Some text ∧
    segment_rows sha256_hex (m_node_id m) run (m_channel m) text = Ok rows ∧ parquet_bytes m rows = Ok content.

Lemma build_parquet_ok sealed p m run w w' u :
  build_parquet sealed p m run w = (w', Ok u) → ∃ content rows, segment_file w sealed m run content rows ∧ w_fs w' !! fs_name p = Some content.
Proof.
  unfold L1.build_parquet, pbind at 1. destruct (lf_read faults); [done|]. unfold read_file.
  destruct (w_fs w !! fs_name sealed) as [text|] eqn:Ht; [|done]. unfold pbind, plift.
  destruct (segment_rows _ _ _ _ text) as [rows|] eqn:Hr; [|done].
  intros (content&Hc&Hf)%write_parquet_atomic_ok. exists content, rows. split; [|done]. by exists text.
Qed.

(** *** The whole call *)

(** The segment's metadata and the Parquet file it goes to *)
Definition l1_path sealed : res (segment_meta * path) :=
  rbind (parse_segment_meta root sealed) (λ m,
  rbind (parse_ts_from_segment (path_name sealed)) (λ ts,
  rbind (derive_parquet_path root m (derive_run_id sha256_hex root sealed) ts) (λ p, Ok (m, p)))).

Lemma l1_path_shape sealed m p : l1_path sealed = Ok (m, p) →
  ∃ v ts, p = l1_dir root m v ++ [l1_name ts (derive_run_id sha256_hex root sealed)] ∧ removelast p = l1_dir root m v ∧ l1_dir root m v ≠ [].
Proof.
  unfold l1_path, derive_parquet_path. destruct (parse_segment_meta root sealed) as [m'|]; [|done].
  destruct (parse_ts_from_segment _) as [ts|]; [|done]. cbn [rbind]. destruct (schema_version _) as [v|]; [|done].
  cbn [rbind]. intros [= <- <-]. exists v, ts. split_and!; [done|by rewrite removelast_last|]. unfold l1_dir. by destruct root.
Qed.

(** The names of the other files a compaction may touch differ from the
    Parquet file's. *)
Definition scratch sealed p (k : string) : Prop :=
  (∃ q, k = dir_name q) ∨ k = fs_name (mkstemp_file tmp_random p) ∨ k = fs_name (lineage_path p (derive_run_id sha256_hex root sealed)).

Lemma l1_path_last sealed m p : l1_path sealed = Ok (m, p) → last_char (fs_name p) = Some "t"%char.
Proof.
  intros (v&ts&->&_)%l1_path_shape. unfold l1_name.
  rewrite <- !string_app_assoc. rewrite fs_name_snoc by done. done.
Qed.
Lemma scratch_last sealed p k : scratch sealed p k → last_char k = Some slash ∨ last_char k = Some "p"%char ∨ last_char k = Some "n"%char.
Proof.
  intros [[q ->]|[->| ->]]; [left; apply dir_name_last|right; left|right; right].
  - unfold mkstemp_file. rewrite <- string_app_assoc. by rewrite fs_name_snoc.
  - unfold lineage_path. rewrite <- string_app_assoc. by rewrite fs_name_snoc.
Qed.

Lemma sealed_last sealed : is_sealed (path_name sealed) = true → sealed ≠ [] ∧ last_char (fs_name sealed) = Some "d"%char ∧
  fs_name (marker_path sealed) = fs_name sealed +:+ ".compacted".
Proof.
  intros [[u Hu]%endswith_app_iff _]%andb_true_iff. unfold path_name in Hu. destruct (last sealed) as [x|] eqn:Hl.
  2: { simpl in Hu. by destruct u. }
  apply last_Some in Hl as [d ->]. simpl in Hu. subst x. split_and!; [by destruct d|by rewrite fs_name_snoc|].
  unfold marker_path, path_name. rewrite removelast_last, last_snoc. cbn [default from_option id].
  unfold compacted_path. destruct d as [|c d].
  - unfold fs_name. cbn [app join]. by rewrite !string_app_assoc.
  - rewrite !fs_name_app by done. cbn [slashed]. rewrite !string_app_nil_r.
    change (String slash ((u +:+ ".ndjson.sealed") +:+ ".compacted")) with (String slash (u +:+ ".ndjson.sealed") +:+ ".compacted").
    by rewrite string_app_assoc.
Qed.

Lemma marker_last sealed : is_sealed (path_name sealed) = true →
  last_char (fs_name (marker_path sealed)) = Some "d"%char ∧ fs_name (marker_path sealed) ≠ fs_name sealed.
Proof.
  intros (_&_&->)%sealed_last. split; [by rewrite last_char_app|].
  intros Heq%(f_equal String.length). rewrite string_app_length in Heq. simpl in Heq. lia.
Qed.

(** The file is there, or stored behind a verified copy. *)
Definition held w p content : Prop :=
  w_fs w !! fs_name p = Some content ∨
  has_dual_writer = true ∧ ∃ key, build_nas_key p dw_root (Some "L1") = Ok key ∧ verified_copy sha256_hex (w_s3 w) key content.

(** What one call may do to the files, and what it promises when it returns. *)
Definition compact_post sealed w w' (r : res path) : Prop :=
  let marker := fs_name (marker_path sealed) in
  (∀ k, k ≠ marker → (∀ m p, l1_path sealed = Ok (m, p) → ¬ scratch sealed p k ∧ k ≠ fs_name p) → (∀ q, k ≠ dir_name q) → w_fs w' !! k = w_fs w !! k) ∧
  match r with
  | Raise _ => w_fs w' !! marker = w_fs w !! marker
  | Ok p => is_Some (w_fs w' !! marker) ∧ ∃ m content, l1_path sealed = Ok (m, p) ∧ held w' p content ∧
      match w_fs w !! fs_name p with
      | Some existing => content = existing
      | None => ∃ rows, segment_file w sealed m (derive_run_id sha256_hex root sealed) content rows
      end
  end.

Lemma store_stage sealed m p w w' r : l1_path sealed = Ok (m, p) →
  pbind (mkdir (lf_files faults) (removelast p)) (λ _, pbind (exists_file p) (λ there,
    if there : bool then pret tt else build_parquet sealed p m (derive_run_id sha256_hex root sealed))) w = (w', r) →
  files_but (λ k, scratch sealed p k ∨ k = fs_name p) w w' ∧
  ∀ u, r = Ok u → ∃ content, w_fs w' !! fs_name p = Some content ∧
    match w_fs w !! fs_name p with
    | Some existing => content = existing
    | None => fs_name sealed ≠ fs_name p → (∀ q, fs_name sealed ≠ dir_name q) →
        ∃ rows, segment_file w sealed m (derive_run_id sha256_hex root sealed) content rows
    end.
Proof.
  intros Hp. set (T := λ k, scratch sealed p k ∨ k = fs_name p). set (run := derive_run_id sha256_hex root sealed).
  assert (∀ q, fs_name p ≠ dir_name q) as Hpd.
  { intros q Hq. pose proof (l1_path_last _ _ _ Hp) as Hlast. rewrite Hq, dir_name_last in Hlast. done. }
  intros Hrun. split.
  - revert Hrun. apply (keeps_bind (files_but T w) (mkdir (lf_files faults) (removelast p))); [| |apply files_but_refl].
    + apply mkdir_keeps. intros q. by left; left; exists q.
    + intros _. apply keeps_bind; [by intros w1 w2 o Hw1 [= <- <-]|]. intros there. apply keeps_if; [apply keeps_ret|].
      apply build_parquet_keeps; [left; right; by left|by right].
  - intros u ->. unfold pbind at 1 in Hrun. destruct (mkdir _ _ w) as [w1 [[]|e]] eqn:Hm; [|done].
    assert (files_but (λ k, ∃ q, k = dir_name q) w w1) as (_&_&Hd).
    { revert Hm. apply mkdir_keeps; [eauto|apply files_but_refl]. }
    unfold pbind, exists_file in Hrun. rewrite (Hd (fs_name p)) in Hrun by (intros [q Hq]; by apply (Hpd q)).
    destruct (w_fs w !! fs_name p) as [existing|] eqn:He.
    + injection Hrun as <- _. exists existing. split; [|done]. rewrite Hd; [done|]. intros [q Hq]. by apply (Hpd q).
    + apply build_parquet_ok in Hrun as (content&rows&(text&Ht&Hrows)&Hc). exists content. split; [done|].
      intros _ Hsd. exists rows, text. split; [|exact Hrows]. rewrite <- Ht. symmetry. apply Hd. intros [q Hq]. by apply (Hsd q).
Qed.

Lemma upload_stage sealed m p w w' r content : l1_path sealed = Ok (m, p) → w_fs w !! fs_name p = Some content →
  (if has_dual_writer then put_l1_nas cfg new_id enqueue_clock enqueue_faults has_metrics sha256_hex dwf dw_root p else pret tt) w = (w', r) →
  r = Ok tt ∧ held w' p content ∧ ∀ k, k ≠ fs_name p → w_fs w' !! k = w_fs w !! k.
Proof.
  intros Hp Hc. unfold held. destruct has_dual_writer.
  - unfold put_l1_nas. intros [= <- <-]. split; [done|]. pose proof (put_l1_files p w content Hc) as Hf. cbv zeta in Hf.
    destruct Hf as [Hf|(Hf&Hk)]; rewrite Hf.
    + split; [by left|done].
    + split; [by right|]. intros k Hne. by apply lookup_delete_ne.
  - intros [= <- <-]. split; [done|]. split; [by left|done].
Qed.

Lemma held_frame w w' p content : w_s3 w' = w_s3 w → w_fs w' !! fs_name p = w_fs w !! fs_name p → held w p content → held w' p content.
Proof. unfold held. intros -> ->. done. Qed.

Lemma lineage_stage sealed m p w w' r : write_lineage now faults sealed p m (derive_run_id sha256_hex root sealed) w = (w', r) →
  w_s3 w' = w_s3 w ∧ ∀ k, ¬ scratch sealed p k → w_fs w' !! k = w_fs w !! k.
Proof.
  unfold write_lineage, pbind, plift. destruct (lineage_text _ _ _ _ _) as [text|]; [|by intros [= <- <-]].
  assert (∀ b k, ¬ scratch sealed p k → <[fs_name (lineage_path p (derive_run_id sha256_hex root sealed)) := b]> (w_fs w) !! k = w_fs w !! k) as Hins.
  { intros b k Hk. apply lookup_insert_ne. intros <-. apply Hk. right. by right. }
  destruct (lf_lineage faults); [|by intros [= <- <-]; split; [|apply Hins]].
  destruct (lf_lineage_partial faults); intros [= <- <-]; [by split; [|apply Hins]|done].
Qed.

Lemma marker_stage sealed w w' r : touch_marker faults sealed w = (w', r) →
  w_s3 w' = w_s3 w ∧ (∀ k, k ≠ fs_name (marker_path sealed) → w_fs w' !! k = w_fs w !! k) ∧
  match r with
  | Ok _ => is_Some (w_fs w' !! fs_name (marker_path sealed))
  | Raise _ => w_fs w' !! fs_name (marker_path sealed) = w_fs w !! fs_name (marker_path sealed)
  end.
Proof.
  unfold touch_marker, pbind, exists_file. destruct (w_fs w !! fs_name (marker_path sealed)) as [b|] eqn:Hm.
  - intros [= <- <-]. rewrite Hm. eauto.
  - destruct (lf_touch faults); intros [= <- <-]; [done|]. cbn [w_fs w_s3]. rewrite lookup_insert_eq. split_and!; [done| |eauto].
    intros k Hk. apply lookup_insert_ne. congruence.
Qed.

(** The call is the three stages behind the derivation of the path. *)
Lemma compact_segment_start sealed w :
  (∀ m p, l1_path sealed = Ok (m, p) →
    let run := derive_run_id sha256_hex root sealed in
    compact_segment sealed w =
    pbind (pbind (mkdir (lf_files faults) (removelast p)) (λ _, pbind (exists_file p) (λ there,
             if there : bool then pret tt else build_parquet sealed p m run))) (λ _,
    pbind (if has_dual_writer then put_l1_nas cfg new_id enqueue_clock enqueue_faults has_metrics sha256_hex dwf dw_root p else pret tt) (λ _,
    pbind (write_lineage now faults sealed p m run) (λ _,
    pbind (touch_marker faults sealed) (λ _, pret p)))) w) ∧
  (∀ e, l1_path sealed = Raise e → compact_segment sealed w = (w, Raise e)).
Proof.
  unfold L1.compact_segment, l1_path, plift, pbind, exists_file.
  destruct (parse_segment_meta root sealed) as [m|e]; cbn [rbind]; [|by split; [|intros ? [= ->]]].
  destruct (parse_ts_from_segment (path_name sealed)) as [ts|e]; cbn [rbind]; [|by split; [|intros ? [= ->]]].
  destruct (derive_parquet_path root m _ ts) as [p|e]; cbn [rbind]; [|by split; [|intros ? [= ->]]].
  split; [|done]. intros m' p' [= <- <-]. cbv zeta.
  destruct (mkdir _ _ w) as [w1 [[]|]]; [|done]. reflexivity.
Qed.

Lemma compact_segment_inv sealed w w' r : is_sealed (path_name sealed) = true →
  compact_segment sealed w = (w', r) → compact_post sealed w w' r.
Proof.
  intros Hs Hrun. destruct (marker_last _ Hs) as [Hml Hms]. destruct (sealed_last _ Hs) as (_&Hsl&_).
  assert (∀ m p, l1_path sealed = Ok (m, p) → fs_name p ≠ fs_name (marker_path sealed) ∧ fs_name p ≠ fs_name sealed ∧
    ¬ scratch sealed p (fs_name p) ∧ ¬ scratch sealed p (fs_name (marker_path sealed))) as Hnames.
  { intros m p Hp. pose proof (l1_path_last _ _ _ Hp) as Hpl.
    split_and!; [congruence|congruence|intros Hx%scratch_last; naive_solver..]. }
  unfold compact_post. destruct (l1_path sealed) as [[m p]|e] eqn:Hp.
  2: { destruct (compact_segment_start sealed w) as [_ Hstart]. rewrite (Hstart e Hp) in Hrun. by injection Hrun as <- <-. }
  destruct (compact_segment_start sealed w) as [Hstart _]. rewrite (Hstart m p Hp) in Hrun.
  destruct (Hnames m p eq_refl) as (Hpm&Hps&Hpp&Hpk). unfold pbind at 1 in Hrun.
  destruct (pbind (mkdir _ _) _ w) as [w2 r2] eqn:Hstore. apply (store_stage _ _ _ _ _ _ Hp) in Hstore as [(_&_&Hf2) Hok2].
  assert (∀ k, (∀ m' p', Ok (m, p) = Ok (m', p') → ¬ scratch sealed p' k ∧ k ≠ fs_name p') → ¬ scratch sealed p k ∧ k ≠ fs_name p) as Hmp.
  { intros k Hk. exact (Hk m p eq_refl). }
  destruct r2 as [[]|e].
  2: { injection Hrun as <- <-. split; [|by apply Hf2; naive_solver]. intros k _ [Hk1 Hk2]%Hmp _. apply Hf2. naive_solver. }
  destruct (Hok2 tt eq_refl) as (content&Hc&Hcont). unfold pbind at 1 in Hrun.
  match type of Hrun with (let (_, _) := ?x in _) = _ => destruct x as [w3 r3] eqn:Hup end.
  apply (upload_stage _ _ _ _ _ _ _ Hp Hc) in Hup as (->&Hheld&Hf3).
  unfold pbind at 1 in Hrun. destruct (write_lineage _ _ _ _ _ _ w3) as [w4 r4] eqn:Hlin.
  apply lineage_stage in Hlin as [Hs4 Hf4].
  assert (∀ k, ¬ scratch sealed p k → k ≠ fs_name p → w_fs w4 !! k = w_fs w !! k) as Hf.
  { intros k Hk1 Hk2. rewrite Hf4, Hf3 by done. apply Hf2. naive_solver. }
  apply (held_frame _ w4) in Hheld; [|done|by apply Hf4].
  destruct r4 as [[]|e].
  2: { injection Hrun as <- <-. split; [|by apply Hf]. intros k _ [Hk1 Hk2]%Hmp _. by apply Hf. }
  unfold pbind in Hrun. destruct (touch_marker _ _ w4) as [w5 r5] eqn:Hmark. apply marker_stage in Hmark as (Hs5&Hf5&Hm5).
  assert (∀ k, k ≠ fs_name (marker_path sealed) → ¬ scratch sealed p k → k ≠ fs_name p → w_fs w5 !! k = w_fs w !! k) as Hf'.
  { intros k Hk1 Hk2 Hk3. rewrite Hf5 by done. by apply Hf. }
  destruct r5 as [[]|e]; injection Hrun as <- <-; (split; [intros k Hk [Hk1 Hk2]%Hmp _; by apply Hf'|]).
  2: { rewrite Hm5. by apply Hf. }
  split; [exact Hm5|]. exists m, content. split; [done|]. split; [by apply (held_frame w4); [|apply Hf5|]|].
  destruct (w_fs w !! fs_name p); [done|]. apply Hcont; [congruence|]. intros q Hq. by rewrite Hq, dir_name_last in Hsl.
Qed.
End l1_lemmas.

(** ** Properties *)

(** Rows of a file's content, in timestamp order *)
Definition sorted_file {Row} `{Parquet Row} (content : bytes) (rows : list Row) : Prop := pq_rows content = Ok rows ∧ sorted_ts rows.

Section l1_theorems.
Context {S : Type} `{S3Laws S} {Row : Type} `{!Parquet Row, !Tables Row, !ParquetLaws Row, !TablesLaws Row}.

Lemma segment_file_sorted sha256_hex (w : world S) sealed m run content (rows : list Row) :
  segment_file sha256_hex w sealed m run content rows → sorted_file content rows.
Proof.
  intros (text&_&Hr&Hc). split.
  - unfold parquet_bytes in Hc. destruct (arrow_schema_for_channel _); [|done]. injection Hc as <-. apply pq_rows_write.
  - unfold segment_rows in Hr. destruct (read_ndjson text); [|done]. simpl in Hr. destruct (convert_to_arrow _ _ _ _ _); [|done].
    injection Hr as <-. apply table_sort_sorted.
Qed.

(** C7.  A segment is marked as compacted only when its rows are safe: if the
    call returns, the Parquet file of the segment is in place or, with a dual
    writer, stored in the NAS behind a verified copy; the file holds the rows
    decoded from the segment in timestamp order, unless it was there before
    the call.  If the call raises, no marker appears.  In every outcome,
    faults of every step and of the store included, the segment itself and
    all files other than the segment's own output are as before. *)
Theorem marked_segment_is_stored cfg new_id clock qfaults has_metrics sha256_hex dwf dw_root has_dw root rnd now faults
    (sealed : path) (w w' : world S) (r : res path) :
  is_sealed (path_name sealed) = true →
  compact_segment (Row := Row) cfg new_id clock qfaults has_metrics sha256_hex dwf dw_root has_dw root rnd now faults sealed w = (w', r) →
  let marker := fs_name (marker_path sealed) in
  w_fs w' !! fs_name sealed = w_fs w !! fs_name sealed ∧
  (∀ k, is_parquet k = true → (∀ m p, l1_path sha256_hex root sealed = Ok (m, p) → k ≠ fs_name p) → w_fs w' !! k = w_fs w !! k) ∧
  match r with
  | Raise _ => w_fs w' !! marker = w_fs w !! marker
  | Ok p => is_Some (w_fs w' !! marker) ∧ ∃ m content, l1_path sha256_hex root sealed = Ok (m, p) ∧
      (w_fs w' !! fs_name p = Some content ∨
       has_dw = true ∧ ∃ key, build_nas_key p dw_root (Some "L1") = Ok key ∧ verified_copy sha256_hex (w_s3 w') key content) ∧
      match w_fs w !! fs_name p with
      | Some existing => content = existing
      | None => ∃ text rows, w_fs w !! fs_name sealed = Some text ∧
          segment_rows sha256_hex (m_node_id m) (derive_run_id sha256_hex root sealed) (m_channel m) text = Ok rows ∧
          sorted_file (Row := Row) content rows
      end
  end.
Proof.
  intros Hs Hrun marker. apply compact_segment_inv in Hrun as [Hframe Hr]; [|done].
  destruct (marker_last _ Hs) as [Hml Hms]. destruct (sealed_last _ Hs) as (_&Hsl&_).
  split_and!.
  - apply Hframe; [congruence| |intros q Hq; by rewrite Hq, dir_name_last in Hsl]. intros m p Hp. split.
    + intros Hx%scratch_last. rewrite Hsl in Hx. naive_solver.
    + intros Heq. pose proof (l1_path_last _ _ _ _ _ Hp) as Hl. rewrite <- Heq, Hsl in Hl. done.
  - intros k Hk Hne. apply endswith_app_iff in Hk as [u ->].
    assert (last_char (u +:+ ".parquet") = Some "t"%char) as Hl by by rewrite last_char_app.
    apply Hframe; [congruence| |intros q Hq; by rewrite Hq, dir_name_last in Hl]. intros m p Hp. split; [|by eapply Hne].
    intros Hx%scratch_last. rewrite Hl in Hx. naive_solver.
  - destruct r as [p|e]; [|exact Hr]. destruct Hr as (Hm&m&content&Hp&Hheld&Hc). split; [exact Hm|]. exists m, content.
    split_and!; [done|exact Hheld|]. destruct (w_fs w !! fs_name p); [done|]. destruct Hc as (rows&Hfile).
    pose proof (segment_file_sorted _ _ _ _ _ _ _ Hfile) as Hsorted. destruct Hfile as (text&Ht&Hrows&_). by exists text, rows.
Qed.

Lemma pbind_Ok {W A B} (m : proc W A) (k : A → proc W B) w w1 a : m w = (w1, Ok a) → pbind m k w = k a w1.
Proof. unfold pbind. by intros ->. Qed.

Lemma known_channel ch v : schema_version ch = Ok v → ∃ schema, arrow_schema_for_channel ch = Ok schema.
Proof.
  unfold schema_version, CHANNEL_SCHEMA_VERSION, arrow_schema_for_channel. cbn [dget].
  repeat (destruct (decide (ch = _)) as [->|]; [by eexists|]). done.
Qed.

Lemma build_parquet_runs sha256_hex rnd (sealed p : path) m run text (rows : list Row) v (w : world S) :
  w_fs w !! fs_name sealed = Some text → schema_version (m_channel m) = Ok v →
  segment_rows sha256_hex (m_node_id m) run (m_channel m) text = Ok rows →
  ∃ w', build_parquet sha256_hex rnd no_l1_faults sealed p m run w = (w', Ok tt).
Proof.
  intros Ht (schema&Hschema)%known_channel Hrows. unfold build_parquet, pbind, plift, read_file. cbn [lf_read no_l1_faults].
  rewrite Ht, Hrows. unfold write_parquet_atomic, pbind, plift, parquet_bytes. rewrite Hschema. cbn [rbind].
  unfold unlink_tmp, rename, set_fs. cbn. rewrite lookup_insert_eq. cbn. by eexists.
Qed.

Lemma compact_segment_runs cfg new_id clock qfaults has_metrics sha256_hex dwf dw_root has_dw root rnd now
    (sealed p : path) m text (rows : list Row) (w : world S) :
  l1_path sha256_hex root sealed = Ok (m, p) → is_sealed (path_name sealed) = true → w_fs w !! fs_name sealed = Some text →
  segment_rows sha256_hex (m_node_id m) (derive_run_id sha256_hex root sealed) (m_channel m) text = Ok rows →
  ∃ w', compact_segment (Row := Row) cfg new_id clock qfaults has_metrics sha256_hex dwf dw_root has_dw root rnd now no_l1_faults sealed w = (w', Ok p).
Proof.
  intros Hp Hs Ht Hrows.
  destruct (compact_segment_start (Row := Row) cfg new_id clock qfaults has_metrics sha256_hex dwf dw_root has_dw root rnd now no_l1_faults sealed w) as [Hstart _].
  rewrite (Hstart m p Hp). cbv zeta. set (run := derive_run_id sha256_hex root sealed) in *.
  assert (∃ v, schema_version (m_channel m) = Ok v) as [v Hv].
  { unfold l1_path, derive_parquet_path in Hp. destruct (parse_segment_meta root sealed); [|done].
    destruct (parse_ts_from_segment _); [|done]. cbn [rbind] in Hp. destruct (schema_version _) eqn:Hv; [|done].
    injection Hp as <- _. by eexists. }
  destruct (sealed_last _ Hs) as (_&Hsl&_).
  set (w1 := World (w_s3 w) (w_rq w) (w_enqueues w) (add_dirs (removelast p) (w_fs w)) (w_metrics w)).
  assert (w_fs w1 !! fs_name sealed = Some text) as Ht1.
  { cbn [w_fs w1]. rewrite add_dirs_lookup; [done|]. intros q Hq. by rewrite Hq, dir_name_last in Hsl. }
  destruct (build_parquet_runs sha256_hex rnd sealed p m run text rows v w1 Ht1 Hv Hrows) as [w2 Hb].
  assert (∃ w3, (if match w_fs w1 !! fs_name p with Some _ => true | None => false end then pret tt
    else build_parquet (Row := Row) sha256_hex rnd no_l1_faults sealed p m run) w1 = (w3, Ok tt)) as [w3 Hw3].
  { destruct (w_fs w1 !! fs_name p); by eexists. }
  erewrite pbind_Ok by (erewrite (pbind_Ok _ _ _ w1) by reflexivity; erewrite (pbind_Ok _ _ _ w1) by reflexivity; exact Hw3).
  assert (∃ w4, (if has_dw then put_l1_nas cfg new_id clock qfaults has_metrics sha256_hex dwf dw_root p else pret tt) w3 = (w4, Ok tt)) as [w4 Hw4].
  { destruct has_dw; by eexists. }
  erewrite pbind_Ok by exact Hw4.
  unfold write_lineage, pbind, plift, lineage_text. rewrite Hv. cbn [rbind no_l1_faults lf_lineage]. unfold set_fs.
  unfold touch_marker, pbind, exists_file. cbn [w_fs]. by destruct (_ !! fs_name (marker_path sealed)); eexists.
Qed.

(** C34.  A segment that can be decoded is compacted: without file errors,
    whatever the store and the retry queue do (an upload that raises, a full
    queue), the call returns the path and leaves the marker, so no segment is
    stuck because the NAS is away. *)
Theorem compaction_survives_the_store cfg new_id clock qfaults has_metrics sha256_hex dwf dw_root has_dw root rnd now
    (sealed p : path) m text (rows : list Row) (w : world S) :
  l1_path sha256_hex root sealed = Ok (m, p) →
  is_sealed (path_name sealed) = true →
  w_fs w !! fs_name sealed = Some text →
  segment_rows sha256_hex (m_node_id m) (derive_run_id sha256_hex root sealed) (m_channel m) text = Ok rows →
  ∃ w', compact_segment (Row := Row) cfg new_id clock qfaults has_metrics sha256_hex dwf dw_root has_dw root rnd now no_l1_faults sealed w = (w', Ok p) ∧
    is_Some (w_fs w' !! fs_name (marker_path sealed)).
Proof.
  intros Hp Hs Ht Hrows.
  destruct (compact_segment_runs cfg new_id clock qfaults has_metrics sha256_hex dwf dw_root has_dw root rnd now _ _ _ _ _ w Hp Hs Ht Hrows) as [w' Hrun].
  exists w'. split; [exact Hrun|]. apply compact_segment_inv in Hrun as [_ [Hm _]]; done.
Qed.
End l1_theorems.

(** *** Examples: the log of two trades *)

Definition example_sealed : path :=
  ["d"; "wal"; "bithumb"; "transaction"; "KRW-BTC"; "1970-01-01"; "segment-19700101T000000Z-n1.ndjson.sealed"].
Definition example_parquet : path :=
  ["d"; "market"; "transaction"; "schema_version=tick.v1"; "tier=L1"; "exchange=bithumb"; "symbol=KRW-BTC"; "date=1970-01-01"; "node=n1";
   "part-19700101T000000Z-0123456789abcdef.parquet"].
Definition example_digest (b : bytes) : string := "0123456789abcdef01".
Definition example_text : string := concat_text example_lines.
Definition example_world1 (files : gmap string bytes) (script : list (option fault)) : world mem_s3 :=
  World (MemS3 ∅ script) (Some (Rq [] ∅)) 0 files [].
Notation example_compact faults w := (compact_segment (Row := ascii) RetryQueue.example_config example_ids example_clock no_faults true
  example_digest no_dw_faults ["d"] true ["d"] "r" 0 faults example_sealed w).
Notation log_world script := (example_world1 {[ fs_name example_sealed := example_text ]} script).

Lemma marked_segment_is_stored_witness :
  ∃ p content m, (example_compact no_l1_faults (log_world [Some NetDown])).2 = Ok p ∧
    l1_path example_digest ["d"] example_sealed = Ok (m, p) ∧
    w_fs (example_compact no_l1_faults (log_world [Some NetDown])).1 !! fs_name p = Some content ∧ pq_rows content = Ok ["A"; "F"]%char.
Proof.
  assert ((example_compact no_l1_faults (log_world [Some NetDown])).2 = Ok example_parquet) as Hr by (vm_compute; reflexivity).
  destruct (marked_segment_is_stored (Row := ascii) RetryQueue.example_config example_ids example_clock no_faults true
    example_digest no_dw_faults ["d"] true ["d"] "r" 0 no_l1_faults example_sealed (log_world [Some NetDown])
    (example_compact no_l1_faults (log_world [Some NetDown])).1 (Ok example_parquet) ltac:(reflexivity) (run_pair _ _ _ Hr))
    as (_&_&_&m&content&Hp&_&Hrows).
  assert (w_fs (log_world [Some NetDown]) !! fs_name example_parquet = None) as Hnone by (vm_compute; reflexivity).
  rewrite Hnone in Hrows. destruct Hrows as (text&rows&Ht&Hseg&Hfile&_).
  exists example_parquet, "AF", m. split_and!; [exact Hr|exact Hp|vm_compute; reflexivity|vm_compute; reflexivity].
Defined.

Lemma compaction_survives_the_store_witness :
  ∃ w', example_compact no_l1_faults (log_world [Some NetDown]) = (w', Ok example_parquet) ∧
    is_Some (w_fs w' !! fs_name (marker_path example_sealed)).
Proof.
  apply (compaction_survives_the_store (Row := ascii) RetryQueue.example_config example_ids example_clock no_faults true
    example_digest no_dw_faults ["d"] true ["d"] "r" 0 example_sealed example_parquet
    (SegmentMeta "bithumb" "transaction" "KRW-BTC" "1970-01-01" "n1") example_text ["A"; "F"]%char (log_world [Some NetDown]));
    vm_compute; reflexivity.
Defined.

(** A file of the name is never rebuilt: the segment is not even read. *)
Lemma existing_file_not_rebuilt :
  let run text := (example_compact no_l1_faults (example_world1 (<[fs_name example_parquet := "A"]> {[ fs_name example_sealed := text ]}) [])) in
  (run example_text).2 = Ok example_parquet ∧ (run "not json").2 = Ok example_parquet ∧
  is_Some (w_fs (run "not json").1 !! fs_name (marker_path example_sealed)).
Proof. cbv zeta. split_and!; [vm_compute; reflexivity|vm_compute; reflexivity|]. vm_compute. by eexists. Qed.

(** One line that does not decode, a torn last one say, and the segment raises:
    nothing is written of the lines before it. *)
Lemma torn_line_blocks_segment :
  let w := example_world1 {[ fs_name example_sealed := example_text +:+ "{" ]} [] in
  (example_compact no_l1_faults w).2 = Raise ValueError ∧
  w_fs (example_compact no_l1_faults w).1 !! fs_name example_parquet = None ∧
  w_fs (example_compact no_l1_faults w).1 !! fs_name (marker_path example_sealed) = None.
Proof. cbv zeta. split_and!; vm_compute; reflexivity. Qed.
