(* ===== verification/Discovery.v ===== *)
(** * Finding partitions and segments on the local disk

    [_discover_partitions_in_range] of [compactor/runner.py], the directory
    globs of the runner and of [compactor/historical_reclaim.py], [scan_sealed]
    of [wal/segment.py] and [iter_frozen_segments] of [compactor/backfill.py].
    They read the names of the tree: a directory exists where some name lies
    below it. *)
From S2P Require Import Prelude PyDict NasKey DualWriter Wal PyTime Compactor L1.
Open Scope string_scope.
Open Scope list_scope.
Open Scope Z_scope.

(** The components of a file's name (a directory's name ends with an empty one). *)
Definition components (k : string) : path := List.tl (split_slash k).
Definition names (fs : gmap string bytes) : list string := (map_to_list fs).*1.

(** [path.exists()] of a directory *)
Definition dir_exists (p : path) (fs : gmap string bytes) : bool := existsb (startswith (dir_name p)) (names fs).

(** [p.split("=", 1)[1]] of the first part with the prefix *)
Definition part_value (prefix : string) (parts : path) : option string :=
  removeprefix prefix <$> List.find (startswith prefix) parts.

(** The directories
    [<channel_root>/schema_version=*/tier=<tier>/exchange=*/symbol=*/date=*]
    some name lies in *)
Definition date_dir_of (channel_root : path) (tier k : string) : option path :=
  match relative_to (components k) channel_root with
  | Ok (sv :: t :: ex :: sym :: dt :: _ :: _) =>
      if startswith "schema_version=" sv && String.eqb t ("tier=" +:+ tier) && startswith "exchange=" ex &&
         startswith "symbol=" sym && startswith "date=" dt
      then Some (channel_root ++ [sv; t; ex; sym; dt]) else None
  | _ => None
  end.
Definition date_dirs (channel_root : path) (tier : string) (fs : gmap string bytes) : list path :=
  remove_dups (omap (date_dir_of channel_root tier) (names fs)).

(** Does the directory hold a part file, at any depth? *)
Definition has_part (dir : path) (fs : gmap string bytes) : bool := existsb (part_below dir) (names fs).

Notation partition := (string * string * Z)%type.

(** The partition of a date directory, if it is wanted. *)
Definition wanted (start_date end_date : Z) (exchange : option string) (fs : gmap string bytes) (date_dir : path) : option partition :=
  match part_value "exchange=" date_dir, part_value "symbol=" date_dir, part_value "date=" date_dir with
  | Some ex, Some sym, Some date_str =>
      match date_fromisoformat date_str with
      | Raise _ => None
      | Ok d =>
          if match exchange with Some e => negb (String.eqb ex e) | None => false end then None
          else if negb ((start_date <=? d) && (d <=? end_date)) then None
          else if negb (has_part date_dir fs) then None else Some (ex, sym, d)
      end
  | _, _, _ => None
  end.

(** The order of tuples *)
Definition string_cmp (a b : string) (eq : bool) : bool :=
  match String.compare a b with Lt => true | Gt => false | Eq => eq end.
Definition partition_leb (a b : partition) : bool :=
  string_cmp a.1.1 b.1.1 (string_cmp a.1.2 b.1.2 (a.2 <=? b.2)).

(** [_discover_partitions_in_range]; without the channel's directory there is
    nothing to match. *)
Definition discover_partitions_in_range (root : path) (channel : string) (start_date end_date : Z)
    (exchange : option string) (tier : string) (fs : gmap string bytes) : list partition :=
  sort_le partition_leb
    (omap (wanted start_date end_date exchange fs) (date_dirs (root ++ ["market"; channel]) tier fs)).

(** [root.glob(f"market/{channel}/schema_version=*/tier={tier}/exchange={exchange}/symbol={symbol}/date={date}")] *)
Definition partition_dirs (root : path) (channel tier exchange symbol date : string) (fs : gmap string bytes) : list path :=
  List.filter (λ p, bool_decide (drop (length root + 4) p =
      ["exchange=" +:+ exchange; "symbol=" +:+ symbol; "date=" +:+ date]))
    (date_dirs (root ++ ["market"; channel]) tier fs).

(** ** Segments *)

(** Lexicographic order of paths by components, as Python sorts [Path]s *)
Fixpoint path_leb (a b : path) : bool :=
  match a, b with
  | [], _ => true
  | _ :: _, [] => false
  | x :: a', y :: b' => string_cmp x y (path_leb a' b')
  end.

Definition no_marker (fs : gmap string bytes) (p : path) : bool :=
  match fs !! fs_name (marker_path p) with Some _ => false | None => true end.

(** [scan_sealed]: sealed segments below [wal/] without a marker *)
Definition scan_sealed (root : path) (fs : gmap string bytes) : list path :=
  List.filter (no_marker fs)
    (sort_le path_leb (components <$> List.filter (λ k, startswith (dir_name (root ++ ["wal"])) k && endswith ".ndjson.sealed" k) (names fs))).

(** [iter_frozen_segments]: the same of one exchange and channel, at the depth
    of [<symbol>/<date>/<file>] *)
Definition frozen_segment (channel_dir : path) (k : string) : option path :=
  match relative_to (components k) channel_dir with
  | Ok [sym; date; f] => if endswith ".ndjson.sealed" f then Some (channel_dir ++ [sym; date; f]) else None
  | _ => None
  end.
Definition iter_frozen_segments (wal_root : path) (exchange channel : string) (fs : gmap string bytes) : list path :=
  List.filter (no_marker fs) (sort_le path_leb (omap (frozen_segment (wal_root ++ [exchange; channel])) (names fs))).
