(* ===== verification/Runner.v ===== *)
(** * The compactor's loop ([compactor/runner.py])

    One tick: L1 for every sealed segment, L2 and L3 for the partitions of
    yesterday and today when their interval has passed, each output handed to
    the dual writer, the legacy clean-up every twelfth tick, and the garbage
    collection.  A tick's environment (faults, clocks, random names, the order
    of directory listings) is an argument.  Steps run to their end: the
    timeout of [_run_step_with_timeout], which lets a stalled step go on in
    its thread, and Prometheus gauges are not modelled. *)
From S2P Require Import Prelude PyDict Hoare PyDecimal RetryQueue ObjectStore NasUploader NasKey Promotion DualWriter Wal PyTime Ndjson Retention Parquet L1Rows Compactor L1 Discovery.
From Stdlib Require Import Ascii.
Open Scope string_scope.
Open Scope list_scope.
Open Scope Z_scope.

Definition L2_INTERVAL_SECONDS : Z := 300.
Definition L3_INTERVAL_SECONDS : Z := 3600.
Definition LEGACY_CLEANUP_EVERY_N_CYCLES : Z := 12.
Definition CHANNELS_FOR_L2 : list string := ["transaction"; "orderbooksnapshot"; "orderbookdepth"].
Definition LEGACY_BATCH_DEFAULT : Z := 500.

(** Errors around one merge: touching and removing the sentinel, the merge and
    the dual write of its output. *)
Record step_env := StepEnv { se_touch_fails : bool; se_unlink_fails : bool; se_merge : compact_faults; se_dw : dw_faults }.
Definition calm : step_env := StepEnv false false no_compact_faults no_dw_faults.

(** The world of a segment's compaction *)
Record segment_env := SegmentEnv { sg_random : string; sg_now : Z; sg_faults : l1_faults; sg_dw : dw_faults }.

(** The counters of [scan_and_cleanup_legacy] *)
Record cleanup_counts := Cleanup { cl_cleaned : Z; cl_preserved : Z; cl_errors : Z }.

Section runner.
Context {S : Type} `{S3 S} {Row : Type} `{Tables Row}.
Context (cfg : rq_config) (new_id : nat → string) (enqueue_clock : nat → Z * Z)
        (enqueue_faults : nat → option exn * option exn) (has_metrics : bool)
        (sha256_hex : bytes → string) (dw_metrics : bool) (dw_root : path).
(** Is there a dual writer?  Its uploader is then the source of L2 and L3. *)
Context (has_dual_writer : bool) (root : path) (pid : string)
        (scan : list string → list string) (scan_dirs : list path → list path).
Local Notation proc := (proc (world S)).
Local Notation write := (write cfg new_id enqueue_clock enqueue_faults has_metrics sha256_hex dw_metrics).

(** A read of the tree *)
Definition tree_of : proc (gmap string bytes) := λ w, (w, Ok (w_fs w)).
(** [try: m except Exception: log] *)
Definition logged_errors (m : proc unit) : proc unit := λ w, ((m w).1, Ok tt).

(** ** L2 and L3 *)

(** [_dispatch_dual_write] *)
Definition dispatch_dual_write (faults : dw_faults) (p : path) (tier : string) : proc unit :=
  pbind (plift (build_nas_key p root (Some tier))) (λ nas_key,
  pbind (emit_always (NasKeyHelperCall "runner_dispatch_dual_write" tier)) (λ _,
  pbind (read_file (fs_name p)) (λ body, λ w,
  match write faults (fs_name p) nas_key (DataPath (fs_name p)) (sha256_hex body) (Some (fs_name p)) w with
  | (w1, Ok x) => emit_always (DualWriteResultTotal (dw_status_label (dw_result x)) tier) w1
  | (w1, Raise (NASOperationalAlert code reason)) => (w1, Raise (NASOperationalAlert code reason))
  | (w1, Raise _) => (w1, Ok tt)
  end))).

Definition forward_sentinel (date_dir : path) : path := date_dir ++ [".forward-processing"].

(** The sentinel of the partition's L1 directory, if it was created *)
Definition touch_sentinel (env : step_env) (exchange symbol channel date : string) : proc (option path) :=
  pbind tree_of (λ fs,
  match scan_dirs (partition_dirs root channel "L1" exchange symbol date fs) with
  | [] => pret None
  | date_dir :: _ =>
      if se_touch_fails env then pret None
      else pbind (set_fs (λ fs, <[fs_name (forward_sentinel date_dir) := ""]> (add_dirs date_dir fs))) (λ _,
           pret (Some (forward_sentinel date_dir)))
  end).

(** [try: m finally: unlink the sentinel] *)
Definition with_sentinel (env : step_env) (sentinel : option path) (m : proc unit) : proc unit := λ w,
  let '(w1, r) := m w in
  match sentinel with
  | Some s => if se_unlink_fails env then (w1, r) else ((set_fs (delete (fs_name s)) w1).1, r)
  | None => (w1, r)
  end.

(** [_run_l2_for_parquet] *)
Definition run_l2_for_parquet (env : step_env) (exchange symbol channel : string) (date_utc hour_utc : Z) : proc unit :=
  pbind (touch_sentinel env exchange symbol channel (isoformat date_utc)) (λ sentinel,
  with_sentinel env sentinel
    (pbind (compact_hour (Row := Row) sha256_hex scan pid (se_merge env) root has_dual_writer exchange symbol channel date_utc hour_utc) (λ out,
     match out with
     | None => pret tt
     | Some p => if has_dual_writer then dispatch_dual_write (se_dw env) p "L2" else pret tt
     end))).

(** [_run_l3_for_parquet] *)
Definition run_l3_for_parquet (env : step_env) (exchange symbol channel : string) (date_utc : Z) : proc unit :=
  pbind (compact_day (Row := Row) sha256_hex scan pid (se_merge env) root has_dual_writer exchange symbol channel date_utc) (λ out,
  match out with
  | None => pret tt
  | Some p => if has_dual_writer then dispatch_dual_write (se_dw env) p "L3" else pret tt
  end).

(** The environment of each step of a tick *)
Context (l2_env : string → partition → Z → step_env) (l3_env : string → partition → step_env).

Definition for_each {A} (l : list A) (body : A → proc unit) : proc unit :=
  pbind (pmap body l) (λ _, pret tt).

(** [_run_l2] *)
Definition run_l2 (today : Z) : proc unit :=
  for_each CHANNELS_FOR_L2 (λ channel,
  pbind tree_of (λ fs,
  for_each (discover_partitions_in_range root channel (today - 1) today None "L1" fs) (λ part,
  for_each (seqZ 0 24) (λ hour,
  logged_errors (run_l2_for_parquet (l2_env channel part hour) part.1.1 part.1.2 channel part.2 hour))))).

(** [_run_l3] *)
Definition run_l3 (today : Z) : proc unit :=
  for_each CHANNELS_FOR_L2 (λ channel,
  pbind tree_of (λ fs,
  for_each (discover_partitions_in_range root channel (today - 1) today None "L2" fs) (λ part,
  logged_errors (run_l3_for_parquet (l3_env channel part) part.1.1 part.1.2 channel part.2)))).

(** ** The legacy clean-up ([scan_and_cleanup_legacy]) *)

(** [root.glob("market/**/*.parquet")], in some order *)
Definition legacy_parquets (fs : gmap string bytes) : list string :=
  scan (List.filter (λ k, startswith (dir_name (root ++ ["market"])) k && is_parquet k) (names fs)).

Definition count_cleaned (c : cleanup_counts) : cleanup_counts := Cleanup (cl_cleaned c + 1) (cl_preserved c) (cl_errors c).
Definition count_preserved (c : cleanup_counts) : cleanup_counts := Cleanup (cl_cleaned c) (cl_preserved c + 1) (cl_errors c).
Definition count_error (c : cleanup_counts) : cleanup_counts := Cleanup (cl_cleaned c) (cl_preserved c) (cl_errors c + 1).
Definition counted (c : cleanup_counts) : Z := cl_cleaned c + cl_preserved c + cl_errors c.

(** One file; [unlink_fault] is the error of its removal. *)
Definition cleanup_one (unlink_fault : string → option exn) (k : string) (c : cleanup_counts) : proc cleanup_counts :=
  let p := components k in
  pbind (plift (build_legacy_nas_key p root)) (λ nas_key,
  pbind (emit_always (NasKeyHelperCall "runner_cleanup" (default "unknown" (part_value "tier=" p)))) (λ _, λ w,
  match promote_l1 sha256_hex (unlink_fault k) k nas_key w with
  | (w1, Ok _) => (w1, Ok (count_cleaned c))
  | (w1, Raise PromotionVerifyError) => (w1, Ok (count_preserved c))
  | (w1, Raise FileNotFoundError) => (w1, Ok c)
  | (w1, Raise e) => if is_OSError e || (match e with RuntimeError => true | _ => false end) then (w1, Ok (count_error c)) else (w1, Raise e)
  end)).

Fixpoint cleanup_loop (unlink_fault : string → option exn) (batch_limit : Z) (ks : list string) (c : cleanup_counts) : proc cleanup_counts :=
  match ks with
  | [] => pret c
  | k :: ks' =>
      if batch_limit <=? counted c then pret c
      else pbind (cleanup_one unlink_fault k c) (cleanup_loop unlink_fault batch_limit ks')
  end.

Definition scan_and_cleanup_legacy (unlink_fault : string → option exn) (batch_limit : Z) : proc cleanup_counts :=
  pbind tree_of (λ fs, cleanup_loop unlink_fault batch_limit (legacy_parquets fs) (Cleanup 0 0 0)).

(** ** One tick *)

(** [run_gc] on the tree: modification times and failing unlinks as in
    [Retention]. *)
Definition collect_garbage (mtime : string → Z) (unlink_fails : string → bool) (now : Z) : proc unit := λ w,
  let fs := w_fs w in
  let markers := scan (List.filter (λ k, startswith (dir_name (root ++ ["wal"])) k && is_compacted k) (names fs)) in
  let left := run_gc unlink_fails now markers (map_imap (λ k _, Some (mtime k)) fs) in
  set_fs (filter (λ e, is_Some (left !! e.1))) w.

(** What the runner remembers between ticks; times in seconds. *)
Record runner := MkRunner { ru_last_l2 : Z; ru_last_l3 : Z; ru_cycle_count : Z }.

(** A tick's clock, date and environment *)
Record tick_env := TickEnv {
  te_now : Z; te_today : Z; te_segment : path → segment_env;
  te_unlink_fault : string → option exn; te_batch_limit : Z;
  te_mtime : string → Z; te_unlink_fails : string → bool }.

(** [_l1.compact_segment(sealed)], its errors logged *)
Definition l1_step (env : segment_env) (sealed : path) : proc unit :=
  logged_errors (pbind (compact_segment (Row := Row) cfg new_id enqueue_clock enqueue_faults has_metrics sha256_hex (sg_dw env)
    dw_root has_dual_writer root (sg_random env) (sg_now env) (sg_faults env) sealed) (λ _, pret tt)).

(** [_tick] *)
Definition tick (env : tick_env) (ru : runner) : proc runner :=
  pbind tree_of (λ fs,
  pbind (for_each (scan_sealed root fs) (λ sealed, l1_step (te_segment env sealed) sealed)) (λ _,
  let run_l2_now := L2_INTERVAL_SECONDS <=? te_now env - ru_last_l2 ru in
  let run_l3_now := L3_INTERVAL_SECONDS <=? te_now env - ru_last_l3 ru in
  pbind (if run_l2_now then run_l2 (te_today env) else pret tt) (λ _,
  pbind (if run_l3_now then run_l3 (te_today env) else pret tt) (λ _,
  let cycle := ru_cycle_count ru + 1 in
  pbind (if (cycle mod LEGACY_CLEANUP_EVERY_N_CYCLES =? 0) && has_dual_writer
         then logged_errors (pbind (scan_and_cleanup_legacy (te_unlink_fault env) (te_batch_limit env)) (λ _, pret tt))
         else pret tt) (λ _,
  pbind (collect_garbage (te_mtime env) (te_unlink_fails env) (te_now env)) (λ _,
  pret (MkRunner (if run_l2_now then te_now env else ru_last_l2 ru) (if run_l3_now then te_now env else ru_last_l3 ru) cycle))))))).
End runner.

(** ** Lemmas: what a step may change *)

#[local] Arguments String.append !_ _ / : simpl nomatch.

(** *** Merges, from either source *)

Section merge_keeps.
Context {S : Type} `{S3Laws S} {Row : Type} `{!Parquet Row} (pid : string) (faults : compact_faults).
Context (T : string → Prop) (w0 : world S).
Notation keep := (keeps (files_but T w0)).

Lemma keep_reads {A} (m : proc (world S) A) : (∀ w w' r, m w = (w', r) → reads w w') → keep m.
Proof. intros Hm w w' r Hw Hr. eapply files_but_trans; [exact Hw|]. by eapply reads_files_but, Hm. Qed.
Lemma emit_keeps m : keep (emit_always m).
Proof. intros w w' r Hw [= <- <-]. exact Hw. Qed.
Lemma tree_keeps : keep tree_of.
Proof. intros w w' r Hw [= <- <-]. exact Hw. Qed.
Lemma read_file_keeps k : keep (read_file k).
Proof. intros w w' r Hw. unfold read_file. by destruct (w_fs w !! k); intros [= <- <-]. Qed.

Section source.
Context {C : Type} `{!Fetch S C, !FetchLaws S C}.

Lemma fetch_keeps (c : C) k : keep (fetch c k).
Proof. apply keep_reads. intros. by eapply fetch_reads. Qed.

Lemma keyed_from_keeps (c : C) ks : keep (keyed_from (Row := Row) c ks).
Proof.
  revert c. induction ks as [|k ks IH]; intros c; cbn [keyed_from]; [apply keeps_ret|].
  apply keeps_bind; [apply fetch_keeps|intros [c1 b]]. apply keeps_bind; [apply plift_keeps|intros ts].
  apply keeps_bind; [apply IH|intros ck]. apply keeps_ret.
Qed.
Lemma write_sources_keeps (c : C) schema last_ts written ks : keep (write_sources (Row := Row) c schema last_ts written ks).
Proof.
  revert c last_ts written. induction ks as [|k ks IH]; intros c last_ts written; cbn [write_sources]; [apply keeps_ret|].
  apply keeps_bind; [apply fetch_keeps|intros [c1 b]]. do 2 (apply keeps_bind; [apply plift_keeps|intros ?]).
  apply keeps_bind; [apply plift_keeps|intros [[last' written'] violation]]. apply keeps_if; [apply keeps_ret|apply IH].
Qed.

Lemma merge_keeps (c : C) ks run out_dir depth channel date :
  (∀ k, merge_files pid out_dir run depth channel date k → T k) →
  keep (merge (Row := Row) pid faults c ks run out_dir depth channel date).
Proof.
  intros HT. unfold merge. destruct ks as [|k0 ks]; [apply keeps_ret|].
  apply keeps_bind; [apply fetch_keeps|intros [c1 b]]. apply keeps_bind; [apply plift_keeps|intros schema].
  apply keeps_bind; [apply mkdir_keeps; intros q; apply HT; left; by exists q|intros _].
  assert (T (fs_name (tmp_file pid out_dir))) as Htmp by (apply HT; right; by left).
  assert (T (fs_name (out_file out_dir run))) as Hout by (apply HT; right; right; by left).
  unfold merge_tail. apply unlink_keeps; [exact Htmp|]. apply keeps_bind.
  - intros w w' r Hw. unfold write_tmp_file. destruct (write_sources _ _ _ _ _ w) as [w1 o] eqn:Hws.
    apply write_sources_keeps in Hws; [|exact Hw].
    assert (∀ b (m : proc (world S) bool), keep m → pbind (set_fs (<[fs_name (tmp_file pid out_dir) := b]>)) (λ _, m) w1 = (w', r) →
      files_but T w0 w') as Hset.
    { intros b' m Hm. apply (keeps_bind (files_but T w0)); [by apply insert_keeps|by intros _|exact Hws]. }
    destruct o as [[rows viol]|e]; [destruct (cf_write faults)|]; apply Hset; [apply keeps_raise|apply keeps_ret|apply keeps_raise].
  - intros [].
    + apply keeps_bind; [apply quarantine_keeps|intros; apply keeps_ret]; [intros q; apply HT; left; by exists q|exact Htmp|].
      apply HT. right; right; by right.
    + apply keeps_bind; [by apply rename_keeps|intros; apply keeps_ret].
Qed.
End source.
End merge_keeps.

(** The answer of a merge is the output path. *)
Definition answers {W A} (m : proc W A) (P : A → Prop) : Prop := ∀ w w' a, m w = (w', Ok a) → P a.

Lemma answers_ret {W A} (a : A) P : P a → answers (W := W) (pret a) P.
Proof. intros Ha w w' b [= _ <-]. exact Ha. Qed.
Lemma answers_bind {W A B} (m : proc W A) (k : A → proc W B) P : (∀ a, answers (k a) P) → answers (pbind m k) P.
Proof. intros Hk w w' b. unfold pbind. destruct (m w) as [w1 [a|e]]; [apply Hk|done]. Qed.

Section merge_answers.
Context {S : Type} `{S3 S} {Row : Type} `{!Parquet Row} {C : Type} `{!Fetch S C} (pid : string) (faults : compact_faults).

Lemma merge_answers (c : C) ks run out_dir depth channel date :
  answers (merge (Row := Row) pid faults c ks run out_dir depth channel date)
    (λ p, p = None ∨ p = Some (out_file out_dir run)).
Proof.
  unfold merge. destruct ks as [|k0 ks]; [apply answers_ret; by left|].
  apply answers_bind. intros [c1 b]. apply answers_bind. intros schema. apply answers_bind. intros _.
  unfold merge_tail, unlink_tmp. intros w w' a. destruct (pbind (write_tmp_file _ _ _ _ _) _ w) as [w1 [a'|e]] eqn:Hb;
    [|unfold pbind; by destruct (cf_unlink faults)]. intros [= <- <-]. revert Hb.
  assert (answers (pbind (write_tmp_file (Row := Row) faults c1 schema (k0 :: ks) (out_dir ++ ["part-tmp-" +:+ pid +:+ ".tmp"])) (λ violation,
     if violation then pbind (quarantine faults depth (out_dir ++ ["part-tmp-" +:+ pid +:+ ".tmp"]) channel date "monotonic_violation") (λ _, pret None)
     else pbind (rename (cf_replace faults) (fs_name (out_dir ++ ["part-tmp-" +:+ pid +:+ ".tmp"])) (fs_name (out_dir ++ ["part-" +:+ run +:+ ".parquet"])))
       (λ _, pret (Some (out_dir ++ ["part-" +:+ run +:+ ".parquet"]))))) (λ p, p = None ∨ p = Some (out_file out_dir run))) as Hans.
  { apply answers_bind. intros []; apply answers_bind; intros; apply answers_ret; [by left|by right]. }
  apply Hans.
Qed.
End merge_answers.

Section compact_keeps.
Context {S : Type} `{S3Laws S} {Row : Type} `{!Parquet Row}.
Context (sha256_hex : bytes → string) (scan : list string → list string) (pid : string) (faults : compact_faults) (root : path).
Context (T : string → Prop) (w0 : world S).
Notation keep := (keeps (files_but T w0)).

Lemma keeps_plift {A B} (I : world S → Prop) (r : res A) (k : A → proc (world S) B) :
  (∀ a, r = Ok a → keeps I (k a)) → keeps I (pbind (plift r) k).
Proof. intros Hk w w' o Hw. unfold pbind, plift. destruct r as [a|e]; [by apply Hk|by intros [= <- <-]]. Qed.

Lemma list_objects_keeps prefix : keep (list_objects prefix).
Proof. apply keep_reads. intros w w' r Hl. by apply list_objects_inv in Hl as [Hr _]. Qed.

(** The merge of the objects a listing finds *)
Lemma nas_merge_keeps {A} (m : proc (world S) A) (keys : A → list string) (sort : list (string * Z) → list string) (rid : list string → string)
    out_dir depth channel date :
  keep m → (∀ run k, merge_files pid out_dir run depth channel date k → T k) →
  keep (λ w, match m w with
    | (w1, Raise _) => (w1, Ok None)
    | (w1, Ok a) => pbind (keyed_from (Row := Row) empty_cache (keys a)) (λ ck,
        merge (Row := Row) pid faults ck.1 (sort ck.2) (rid (sort ck.2)) out_dir depth channel date) w1
    end).
Proof.
  intros Hm HT. apply (keeps_try _ m (λ a, pbind (keyed_from empty_cache (keys a)) _) (λ _, pret None)); [done| |intros; apply keeps_ret].
  intros a. apply keeps_bind; [apply keyed_from_keeps; apply _|]. intros ck. apply merge_keeps; [apply _|]. intros k. apply HT.
Qed.

Lemma local_merge_keeps dir (rid : list string → string) out_dir depth channel date :
  (∀ run k, merge_files pid out_dir run depth channel date k → T k) →
  keep (pbind (rglob_parts scan dir) (λ candidates, pbind (keyed_from (Row := Row) tt candidates) (λ ck,
    merge (Row := Row) pid faults ck.1 (by_min_ts ck.2) (rid (by_min_ts ck.2)) out_dir depth channel date))).
Proof.
  intros HT. apply keeps_bind; [by intros w w' r Hw [= <- <-]|]. intros ks.
  apply keeps_bind; [apply keyed_from_keeps; apply _|]. intros ck. apply merge_keeps; [apply _|]. intros k. apply HT.
Qed.

Lemma compact_hour_keeps use_nas ex sym ch d h :
  (∀ v run k, schema_version ch = Ok v → merge_files pid (hour_dir root ch v ex sym (isoformat d) h) run 9 ch (isoformat d) k → T k) →
  keep (compact_hour (Row := Row) sha256_hex scan pid faults root use_nas ex sym ch d h).
Proof.
  intros HT. unfold compact_hour. apply keeps_plift. intros v Hv. apply keeps_if.
  - unfold compact_hour_nas. apply keeps_plift. intros flat _. apply keeps_plift. intros legacy _.
    apply keeps_bind; [apply emit_keeps|intros _].
    apply (nas_merge_keeps (l1_candidates flat legacy) id by_min_ts (λ l, run_id sha256_hex (sort_le String.leb (legacy_key_to_canonical <$> l)))).
    + unfold l1_candidates. do 2 (apply keeps_bind; [apply list_objects_keeps|intros ?]). apply keeps_ret.
    + intros run k. by apply HT.
  - apply (local_merge_keeps _ (run_id sha256_hex)). intros run k. by apply HT.
Qed.

Lemma compact_day_keeps use_nas ex sym ch d :
  (∀ v run k, schema_version ch = Ok v → merge_files pid (l3_dir root ch v ex sym (isoformat d)) run 8 ch (isoformat d) k → T k) →
  keep (compact_day (Row := Row) sha256_hex scan pid faults root use_nas ex sym ch d).
Proof.
  intros HT. unfold compact_day. apply keeps_plift. intros v Hv. apply keeps_if.
  - unfold compact_day_nas. apply keeps_plift. intros prefix _. apply keeps_bind; [apply emit_keeps|intros _].
    apply (nas_merge_keeps (list_objects prefix) (List.filter is_parquet) by_min_ts (run_id sha256_hex)); [apply list_objects_keeps|].
    intros run k. by apply HT.
  - apply (local_merge_keeps _ (run_id sha256_hex)). intros run k. by apply HT.
Qed.
End compact_keeps.

Section compact_answers.
Context {S : Type} `{S3 S} {Row : Type} `{!Parquet Row}.
Context (sha256_hex : bytes → string) (scan : list string → list string) (pid : string) (faults : compact_faults) (root : path).

Lemma answers_plift {A B} (r : res A) (k : A → proc (world S) B) P :
  (∀ a, r = Ok a → answers (k a) P) → answers (pbind (plift r) k) P.
Proof. intros Hk w w' b. unfold pbind, plift. destruct r as [a|e]; [by apply Hk|done]. Qed.
Lemma answers_conseq {W A} (m : proc W A) (P Q : A → Prop) : answers m P → (∀ a, P a → Q a) → answers m Q.
Proof. intros Hm HPQ w w' a Ha. by eapply HPQ, Hm. Qed.
Lemma answers_default {W A B} (m : proc W A) (k : A → proc W B) b (P : B → Prop) : P b → (∀ a, answers (k a) P) →
  answers (λ w, match m w with (w1, Raise _) => (w1, Ok b) | (w1, Ok a) => k a w1 end) P.
Proof. intros Hb Hk w w' c. destruct (m w) as [w1 [a|e]]; [apply Hk|]. by intros [= _ <-]. Qed.

Lemma compact_hour_answers use_nas ex sym ch d h :
  answers (compact_hour (Row := Row) sha256_hex scan pid faults root use_nas ex sym ch d h)
    (λ p, ∀ q, p = Some q → ∃ v run, schema_version ch = Ok v ∧ q = out_file (hour_dir root ch v ex sym (isoformat d) h) run).
Proof.
  unfold compact_hour. apply answers_plift. intros v Hv.
  assert (∀ p run, p = None ∨ p = Some (out_file (hour_dir root ch v ex sym (isoformat d) h) run) →
    ∀ q, p = Some q → ∃ v run, schema_version ch = Ok v ∧ q = out_file (hour_dir root ch v ex sym (isoformat d) h) run) as Hp.
  { intros p run [->| ->] q; [done|]. intros [= <-]. by exists v, run. }
  destruct use_nas.
  - unfold compact_hour_nas. do 2 (apply answers_plift; intros ? _). apply answers_bind. intros _. apply answers_default; [done|]. intros keys.
    apply answers_bind. intros ck. eapply answers_conseq; [apply merge_answers|]. intros p. apply Hp.
  - do 2 (apply answers_bind; intros ?). eapply answers_conseq; [apply merge_answers|]. intros p. apply Hp.
Qed.

Lemma compact_day_answers use_nas ex sym ch d :
  answers (compact_day (Row := Row) sha256_hex scan pid faults root use_nas ex sym ch d)
    (λ p, ∀ q, p = Some q → ∃ v run, schema_version ch = Ok v ∧ q = out_file (l3_dir root ch v ex sym (isoformat d)) run).
Proof.
  unfold compact_day. apply answers_plift. intros v Hv.
  assert (∀ p run, p = None ∨ p = Some (out_file (l3_dir root ch v ex sym (isoformat d)) run) →
    ∀ q, p = Some q → ∃ v run, schema_version ch = Ok v ∧ q = out_file (l3_dir root ch v ex sym (isoformat d)) run) as Hp.
  { intros p run [->| ->] q; [done|]. intros [= <-]. by exists v, run. }
  destruct use_nas.
  - unfold compact_day_nas. apply answers_plift. intros ? _. apply answers_bind. intros _. apply answers_default; [done|]. intros keys.
    apply answers_bind. intros ck. eapply answers_conseq; [apply merge_answers|]. intros p. apply Hp.
  - do 2 (apply answers_bind; intros ?). eapply answers_conseq; [apply merge_answers|]. intros p. apply Hp.
Qed.
End compact_answers.

(** *** L1 part files *)

(** A part file of some L1 partition of a known channel *)
Definition l1_part (root : path) (k : string) : Prop :=
  ∃ ch v ex sym d, schema_version ch = Ok v ∧ part_below (root ++ hive_dir "L1" ch v ex sym d) k = true.

Lemma known_channels ch v : schema_version ch = Ok v →
  (ch, v) ∈ [("transaction", "tick.v1"); ("orderbooksnapshot", "orderbook_snapshot.v1"); ("orderbookdepth", "orderbook_depth.v1")].
Proof.
  unfold schema_version, CHANNEL_SCHEMA_VERSION. cbn [dget].
  repeat (destruct (decide (ch = _)) as [->|]; [intros [= <-]; set_solver|]). done.
Qed.

(** Names below [market/<channel>] *)
Lemma market_name root ch rest : fs_name (root ++ "market" :: ch :: rest) = fs_name (root ++ ["market"]) +:+ String slash (ch +:+ slashed rest).
Proof. change ("market" :: ch :: rest) with (["market"] ++ ch :: rest). by rewrite (app_assoc root), fs_name_app by (by destruct root). Qed.

Lemma l1_part_market root k : l1_part root k → ∃ ch v t, schema_version ch = Ok v ∧
  k = fs_name (root ++ ["market"]) +:+ String slash (ch +:+ "/schema_version=" +:+ v +:+ "/tier=L1/" +:+ t) ∧ is_part (base_name k) = true.
Proof.
  intros (ch&v&ex&sym&d&Hv&Hk). pose proof (part_below_hive _ _ _ _ _ _ _ _ Hk) as [t Ht]. exists ch, v, t. split; [done|].
  apply andb_true_iff in Hk as [_ Hpart]. split; [|exact Hpart]. rewrite Ht. unfold tier_prefix. rewrite market_name. cbn [slashed].
  rewrite !string_app_assoc. cbn [String.append]. rewrite !string_app_assoc. cbn [String.append]. by rewrite !string_app_assoc.
Qed.

(** Names of another tier and of the quarantine are none of them. *)
Lemma l1_part_other root k ch v t rest : l1_part root k → schema_version ch = Ok v → t ∈ ["L2"; "L3"] →
  k ≠ fs_name (root ++ "market" :: ch :: ("schema_version=" +:+ v) :: ("tier=" +:+ t) :: rest).
Proof.
  intros (ch'&v'&t'&Hv'%known_channels&->&_)%l1_part_market Hv%known_channels Ht. rewrite market_name.
  intros Heq%string_app_inj_l. injection Heq as Heq. cbn [slashed] in Heq.
  repeat (apply elem_of_cons in Hv as [[= -> ->]|Hv]); try by apply not_elem_of_nil in Hv.
  all: repeat (apply elem_of_cons in Hv' as [[= -> ->]|Hv']); try by apply not_elem_of_nil in Hv'.
  all: repeat (apply elem_of_cons in Ht as [->|Ht]); try by apply not_elem_of_nil in Ht.
  all: by discriminate Heq.
Qed.

Lemma l1_part_quarantine root k ch v rest : l1_part root k → schema_version ch = Ok v → k ≠ fs_name (root ++ "market" :: ch :: "quarantine" :: rest).
Proof.
  intros (ch'&v'&t'&Hv'%known_channels&->&_)%l1_part_market Hv%known_channels. rewrite market_name.
  intros Heq%string_app_inj_l. injection Heq as Heq. cbn [slashed] in Heq.
  repeat (apply elem_of_cons in Hv as [[= -> ->]|Hv]); try by apply not_elem_of_nil in Hv.
  all: repeat (apply elem_of_cons in Hv' as [[= -> ->]|Hv']); try by apply not_elem_of_nil in Hv'.
  all: by discriminate Heq.
Qed.

Lemma l1_part_not_dir root k q : l1_part root k → k ≠ dir_name q.
Proof. intros (ch&v&ex&sym&d&_&Hk). by eapply part_not_dir. Qed.

Lemma l1_part_not_merged root pid ch v ex sym date t rest run depth k :
  l1_part root k → schema_version ch = Ok v → t ∈ ["L2"; "L3"] → length rest = (depth - 7)%nat → (7 <= depth)%nat →
  ¬ merge_files pid ((root ++ hive_dir t ch v ex sym date) ++ rest) run depth ch date k.
Proof.
  intros Hk Hv Ht Hlen Hdep [[q ->]|[->|[->|Hq]]].
  - by eapply l1_part_not_dir.
  - eapply l1_part_other; [exact Hk|exact Hv|exact Ht|]. unfold tmp_file. rewrite <- !app_assoc. reflexivity.
  - eapply l1_part_other; [exact Hk|exact Hv|exact Ht|]. unfold out_file. rewrite <- !app_assoc. reflexivity.
  - revert Hq. unfold quarantine_path, tmp_file. rewrite !length_app, Hlen. cbn [length hive_dir].
    replace (_ - _)%nat with (length root) by lia. rewrite <- !app_assoc, take_app_length. by eapply l1_part_quarantine.
Qed.

Lemma split_slash_ne k : split_slash k ≠ [].
Proof. destruct k as [|c k]; [done|]. simpl. destruct (Ascii.eqb c slash); [done|]. by destruct (split_slash k). Qed.
Lemma join_split k : join (split_slash k) = k.
Proof.
  induction k as [|c k IH]; [done|]. simpl. pose proof (split_slash_ne k) as Hne. destruct (Ascii.eqb_spec c slash) as [->|].
  - destruct (split_slash k); [done|]. by rewrite <- IH.
  - destruct (split_slash k) as [|x l]; [done|]. rewrite <- IH. by destruct l.
Qed.
Lemma join_last l x : ∃ u, join (l ++ [x]) = u +:+ x.
Proof.
  induction l as [|y l [u IH]]; [by exists ""|]. cbn [app]. exists (y +:+ String slash u).
  destruct (l ++ [x]) as [|z r] eqn:Hl; [by destruct l|]. change (join (y :: z :: r)) with (y +:+ String slash (join (z :: r))).
  by rewrite IH, string_app_assoc.
Qed.
Lemma base_name_suffix k : ∃ x, k = x +:+ base_name k.
Proof.
  unfold base_name. destruct (last (split_slash k)) as [x|] eqn:Hl.
  - apply last_Some in Hl as [l Hl]. destruct (join_last l x) as [u Hu]. exists u.
    rewrite <- (join_split k) at 1. by rewrite Hl, Hu.
  - apply last_None in Hl. by apply split_slash_ne in Hl.
Qed.

Lemma l1_part_last root k : l1_part root k → last_char k = Some "t"%char.
Proof.
  intros (_&_&_&_&_&_&[_ Hp]%andb_true_iff). apply andb_true_iff in Hp as [_ [u Hu]%endswith_app_iff].
  destruct (base_name_suffix k) as [x ->]. rewrite Hu, <- string_app_assoc. by apply last_char_app.
Qed.

(** *** Steps of the runner *)

Definition l1_same {S} (root : path) (w0 w : world S) : Prop := ∀ k, l1_part root k → w_fs w !! k = w_fs w0 !! k.

Section runner_lemmas.
Context {S : Type} `{S3Laws S} {Row : Type} `{!Parquet Row, !Tables Row}.
Context (cfg : rq_config) (new_id : nat → string) (enqueue_clock : nat → Z * Z)
        (enqueue_faults : nat → option exn * option exn) (has_metrics : bool)
        (sha256_hex : bytes → string) (dw_metrics : bool).
Context (has_dual_writer : bool) (root : path) (pid : string) (scan : list string → list string) (scan_dirs : list path → list path).
Context (w0 : world S).
Notation keep := (keeps (l1_same root w0)).
Local Notation dispatch_dual_write := (dispatch_dual_write cfg new_id enqueue_clock enqueue_faults has_metrics sha256_hex dw_metrics root).

Lemma keep_files {A} (m : proc (world S) A) : (∀ w1, keeps (files_but (λ k, ¬ l1_part root k) w1) m) → keep m.
Proof.
  intros Hm w w' r Hw Hr k Hk. destruct (Hm w w w' r (files_but_refl _ _) Hr) as (_&_&Hf).
  rewrite Hf by tauto. by apply Hw.
Qed.
Lemma keep_outside (f : gmap string bytes → gmap string bytes) : (∀ fs k, l1_part root k → f fs !! k = fs !! k) → keep (set_fs f).
Proof. intros Hf w w' r Hw [= <- <-] k Hk. cbn [w_fs]. rewrite Hf by done. by apply Hw. Qed.

Lemma write_outside faults local key sha body w w' r : w_fs w !! local = Some body →
  write cfg new_id enqueue_clock enqueue_faults has_metrics sha256_hex dw_metrics faults local key (DataPath local) sha (Some local) w = (w', r) →
  ∀ k, k ≠ local → k ≠ tmp_path local → w_fs w' !! k = w_fs w !! k.
Proof.
  intros Hb Hw. apply (write_inv _ _ _ _ _ _ _ _ _ _ _ _ _ body) in Hw as (_&Hf&_).
  2: { unfold read_data, read_file. by rewrite Hb. }
  intros k Hk1 Hk2. destruct Hf as [[Hf _]|[[Hf _]|(s&b&x&[= <-]&Hf&_)]].
  - by apply Hf.
  - by rewrite Hf, lookup_insert_ne, lookup_delete_ne.
  - by rewrite Hf, lookup_delete_ne, lookup_insert_ne, lookup_delete_ne.
Qed.

Lemma dispatch_keeps faults p tier : ¬ l1_part root (fs_name p) → keep (dispatch_dual_write faults p tier).
Proof.
  intros Hp w w' r Hw. unfold Runner.dispatch_dual_write, pbind, plift, emit_always, read_file.
  destruct (build_nas_key p root (Some tier)) as [key|e]; [|by intros [= <- <-]]. cbn [w_fs].
  destruct (w_fs w !! fs_name p) as [body|] eqn:Hb; [|by intros [= <- <-]].
  destruct (write _ _ _ _ _ _ _ _ _ _ _ _ _ _) as [w1 o] eqn:Hrun. intros Hr.
  assert (w_fs w' = w_fs w1) as Hw1.
  { destruct o as [x|e]; [by injection Hr as <- _|]. by destruct e; injection Hr as <- _. }
  intros k Hk. rewrite Hw1. rewrite <- (Hw k Hk). eapply write_outside in Hrun; [rewrite Hrun; done|exact Hb|congruence|].
  intros ->. pose proof (l1_part_last _ _ Hk) as Hl. unfold tmp_path in Hl. by rewrite last_char_app in Hl.
Qed.

(** [try: m finally: unlink the sentinel] *)
Lemma sentinel_not_part dir : ¬ l1_part root (fs_name (forward_sentinel dir)).
Proof.
  intros Hk%l1_part_last. unfold forward_sentinel in Hk. change ".forward-processing" with (".forward-" +:+ "processing") in Hk.
  by rewrite fs_name_snoc in Hk.
Qed.

Lemma touch_sentinel_keeps env ex sym ch date : keep (touch_sentinel root scan_dirs env ex sym ch date).
Proof.
  unfold touch_sentinel. apply keeps_bind; [by intros w w' r Hw [= <- <-]|]. intros fs.
  destruct (scan_dirs _) as [|dir dirs]; [apply keeps_ret|]. apply keeps_if; [apply keeps_ret|].
  apply keeps_bind; [|intros; apply keeps_ret]. apply keep_outside. intros fs' k Hk.
  rewrite lookup_insert_ne by (intros <-; by apply sentinel_not_part in Hk). apply add_dirs_lookup. intros q. by eapply l1_part_not_dir.
Qed.

Lemma touch_sentinel_answers env ex sym ch date :
  answers (touch_sentinel (S := S) root scan_dirs env ex sym ch date) (λ s, ∀ p, s = Some p → ∃ dir, p = forward_sentinel dir).
Proof.
  unfold touch_sentinel. apply answers_bind. intros fs. destruct (scan_dirs _) as [|dir dirs]; [by apply answers_ret|].
  destruct (se_touch_fails env); [by apply answers_ret|]. apply answers_bind. intros _. apply answers_ret.
  intros p [= <-]. by exists dir.
Qed.

(** What follows may use what a step answers. *)
Lemma keeps_answers {A B} I (m : proc (world S) A) (k : A → proc (world S) B) P :
  keeps I m → answers m P → (∀ a, P a → keeps I (k a)) → keeps I (pbind m k).
Proof.
  intros Hm Ha Hk w w' r Hw. unfold pbind. destruct (m w) as [w1 [a|e]] eqn:Hr.
  - apply Hk; [by eapply Ha|by eapply Hm].
  - intros [= <- <-]. by eapply Hm.
Qed.

Lemma with_sentinel_keeps env s (m : proc (world S) unit) : (∀ p, s = Some p → ¬ l1_part root (fs_name p)) → keep m → keep (with_sentinel env s m).
Proof.
  intros Hs Hm w w' r Hw. unfold with_sentinel. destruct (m w) as [w1 o] eqn:Hr. pose proof (Hm _ _ _ Hw Hr) as Hw1.
  destruct s as [p|]; [|by intros [= <- <-]]. destruct (se_unlink_fails env); intros [= <- <-]; [done|].
  intros k Hk. cbn [w_fs set_fs fst]. rewrite lookup_delete_ne; [by apply Hw1|]. intros <-. by eapply Hs.
Qed.

Lemma logged_keeps (m : proc (world S) unit) : keep m → keep (logged_errors m).
Proof. intros Hm w w' r Hw [= <- <-]. destruct (m w) as [w1 o] eqn:Hr. by eapply Hm. Qed.

Lemma pmap_keeps {A B} I (l : list A) (body : A → proc (world S) B) : (∀ a, keeps I (body a)) → keeps I (pmap body l).
Proof.
  intros Hb. induction l as [|a l IH]; cbn [pmap]; [apply keeps_ret|]. apply keeps_bind; [done|intros b].
  apply keeps_bind; [done|intros bs; apply keeps_ret].
Qed.
Lemma for_each_keeps {A} I (l : list A) (body : A → proc (world S) unit) : (∀ a, keeps I (body a)) → keeps I (for_each l body).
Proof. intros Hb. apply keeps_bind; [by apply pmap_keeps|intros; apply keeps_ret]. Qed.

Lemma hour_out_not_part ch v ex sym date h run : schema_version ch = Ok v → ¬ l1_part root (fs_name (out_file (hour_dir root ch v ex sym date h) run)).
Proof. intros Hv Hk. eapply l1_part_other; [exact Hk|exact Hv|by left|]. unfold out_file, hour_dir. rewrite <- !app_assoc. reflexivity. Qed.
Lemma day_out_not_part ch v ex sym date run : schema_version ch = Ok v → ¬ l1_part root (fs_name (out_file (l3_dir root ch v ex sym date) run)).
Proof. intros Hv Hk. eapply (l1_part_other _ _ _ _ "L3"); [exact Hk|exact Hv|by right; left|]. unfold out_file, l3_dir. rewrite <- !app_assoc. reflexivity. Qed.

Lemma run_l2_for_parquet_keeps env ex sym ch d h :
  keep (run_l2_for_parquet (Row := Row) cfg new_id enqueue_clock enqueue_faults has_metrics sha256_hex dw_metrics has_dual_writer root pid scan scan_dirs env ex sym ch d h).
Proof.
  unfold run_l2_for_parquet. eapply keeps_answers; [apply touch_sentinel_keeps|apply touch_sentinel_answers|]. intros s Hs.
  apply with_sentinel_keeps; [intros p [dir ->]%Hs; apply sentinel_not_part|].
  eapply keeps_answers; [|apply compact_hour_answers|].
  - apply keep_files. intros w1. apply compact_hour_keeps. intros v run k Hv Hk Hpart. revert Hk.
    unfold hour_dir. by apply l1_part_not_merged; [| |left| |lia].
  - intros [p|] Hp; [|apply keeps_ret]. destruct (Hp p eq_refl) as (v&run&Hv&->).
    apply keeps_if; [|apply keeps_ret]. apply dispatch_keeps. by apply hour_out_not_part.
Qed.

Lemma run_l3_for_parquet_keeps env ex sym ch d :
  keep (run_l3_for_parquet (Row := Row) cfg new_id enqueue_clock enqueue_faults has_metrics sha256_hex dw_metrics has_dual_writer root pid scan env ex sym ch d).
Proof.
  unfold run_l3_for_parquet. eapply keeps_answers; [|apply compact_day_answers|].
  - apply keep_files. intros w1. apply compact_day_keeps. intros v run k Hv Hk Hpart. revert Hk.
    unfold l3_dir. by apply l1_part_not_merged; [| |right; left| |lia].
  - intros [p|] Hp; [|apply keeps_ret]. destruct (Hp p eq_refl) as (v&run&Hv&->).
    apply keeps_if; [|apply keeps_ret]. apply dispatch_keeps. by apply day_out_not_part.
Qed.
End runner_lemmas.

(** *** The clean-up loop *)

Section cleanup.
Context {S : Type} `{S3Laws S} (sha256_hex : bytes → string) (root : path) (unlink_fault : string → option exn) (batch_limit : Z).
Implicit Types (w : world S) (k : string) (c : cleanup_counts).
Local Notation cleanup_one := (cleanup_one sha256_hex root unlink_fault).
Local Notation cleanup_loop := (cleanup_loop sha256_hex root unlink_fault batch_limit).

(** A file removed as a verified copy of its legacy object *)
Definition cleaned_as_copy w k : Prop := ∃ body key,
  w_fs w !! k = Some body ∧ build_legacy_nas_key (components k) root = Ok key ∧ verified_copy sha256_hex (w_s3 w) key body.

Lemma cleanup_one_inv k c w w' r : is_Some (w_fs w !! k) → cleanup_one k c w = (w', r) →
  objects w' = objects w ∧ same_queue w w' ∧
  (w_fs w' = w_fs w ∧ (∀ c', r = Ok c' → cl_cleaned c' = cl_cleaned c) ∨
   w_fs w' = delete k (w_fs w) ∧ cleaned_as_copy w k ∧ r = Ok (count_cleaned c)) ∧
  (∀ c', r = Ok c' → counted c' <= counted c + 1).
Proof.
  intros Hk. unfold Runner.cleanup_one, pbind, plift, emit_always.
  destruct (build_legacy_nas_key (components k) root) as [key|e] eqn:Hkey; [|intros [= <- <-]; split_and!; [done|done|by left|done]].
  match goal with |- context [promote_l1 _ _ _ _ ?w1] => set (w1' := w1) end.
  destruct (promote_l1 _ _ _ _ w1') as [w2 o] eqn:Hp. apply promote_l1_inv in Hp as (Ho&Hq&_&Hf&_).
  assert (w_fs w1' = w_fs w) as Hf1 by done. rewrite Hf1 in Hf. unfold same_files in Hf. rewrite Hf1 in Hf.
  assert (∀ c', counted c' <= counted c + 1 → cl_cleaned c' = cl_cleaned c → (∀ p, o ≠ Ok p) → (w2, Ok c') = (w', r) → objects w' = objects w ∧ same_queue w w' ∧
    (w_fs w' = w_fs w ∧ (∀ c'', r = Ok c'' → cl_cleaned c'' = cl_cleaned c) ∨ w_fs w' = delete k (w_fs w) ∧ cleaned_as_copy w k ∧ r = Ok (count_cleaned c)) ∧
    (∀ c'', r = Ok c'' → counted c'' <= counted c + 1)) as Hsame.
  { intros c' Hc Hcl Hno [= <- <-]. split_and!; [exact Ho|exact Hq| |by intros ? [= <-]]. left.
    destruct Hf as [[Hf _]|(_&p&_&Hp&_)]; [|by apply Hno in Hp]. split; [exact Hf|by intros ? [= <-]]. }
  destruct o as [p|e].
  - intros [= <- <-]. split_and!; [exact Ho|exact Hq| |intros ? [= <-]; unfold counted; simpl; lia].
    destruct Hf as [[_ Hp]|(Hf&p'&body&[= <-]&_&Hb&Hv)].
    + destruct (Hp p eq_refl) as [_ Hnone]. rewrite Hnone in Hk. by destruct Hk.
    + right. split_and!; [exact Hf|by exists body, key|done].
  - assert (w2 = w' → (∃ e', r = Raise e') → objects w' = objects w ∧ same_queue w w' ∧
      (w_fs w' = w_fs w ∧ (∀ c'', r = Ok c'' → cl_cleaned c'' = cl_cleaned c) ∨ w_fs w' = delete k (w_fs w) ∧ cleaned_as_copy w k ∧ r = Ok (count_cleaned c)) ∧
      (∀ c'', r = Ok c'' → counted c'' <= counted c + 1)) as Hraise.
    { intros <- [e' ->]. split_and!; [exact Ho|exact Hq| |done]. left. destruct Hf as [[Hf _]|(_&p&_&[=]&_)]. done. }
    destruct e; cbn [is_OSError orb]; intros Hr;
      first [by apply Hraise; injection Hr as <- <-; eauto
            | eapply Hsame; [| | |exact Hr]; [unfold counted; simpl; lia|done|done]].
Qed.

Definition cleanup_post (ks : list string) c w w' (r : res cleanup_counts) : Prop :=
  objects w' = objects w ∧ same_queue w w' ∧
  (∀ k, w_fs w' !! k = w_fs w !! k ∨ k ∈ ks ∧ w_fs w' !! k = None ∧ cleaned_as_copy w k) ∧
  (∀ c', r = Ok c' → counted c' <= Z.max batch_limit (counted c) ∧
     Z.of_nat (size (w_fs w)) = Z.of_nat (size (w_fs w')) + (cl_cleaned c' - cl_cleaned c)).

Lemma cleanup_loop_inv ks c w w' r : NoDup ks → (∀ k, k ∈ ks → is_Some (w_fs w !! k)) →
  cleanup_loop ks c w = (w', r) → cleanup_post ks c w w' r.
Proof.
  revert c w. induction ks as [|k ks IH]; intros c w Hnd Hks; cbn [Runner.cleanup_loop].
  { intros [= <- <-]. split_and!; [done|done|by left|]. intros ? [= <-]. lia. }
  apply NoDup_cons in Hnd as [Hk Hnd]. destruct (batch_limit <=? counted c) eqn:Hlim.
  { intros [= <- <-]. split_and!; [done|done|by left|]. intros ? [= <-]. lia. }
  py_bool. unfold pbind. destruct (cleanup_one k c w) as [w1 o] eqn:Hone.
  apply cleanup_one_inv in Hone as (Ho&Hq&Hf&Hc); [|by apply Hks; left].
  assert (∀ k', k' ∈ ks → w_fs w1 !! k' = w_fs w !! k') as Hkeep.
  { intros k' Hin. destruct Hf as [[-> _]|(->&_)]; [done|]. rewrite lookup_delete_ne; [done|]. by intros ->. }
  assert (∀ k', w_fs w1 !! k' = w_fs w !! k' ∨ k' ∈ k :: ks ∧ w_fs w1 !! k' = None ∧ cleaned_as_copy w k') as Hf1.
  { intros k'. destruct Hf as [[-> _]|(->&Hcopy&_)]; [by left|]. destruct (decide (k' = k)) as [->|].
    - right. rewrite lookup_delete_eq. split_and!; [by left|done|done].
    - left. by apply lookup_delete_ne. }
  destruct o as [c1|e]; [|intros [= <- <-]; by split_and!].
  intros Hrun. apply IH in Hrun as (Ho2&Hq2&Hf2&Hc2); [|done|intros k' Hin; rewrite Hkeep by done; apply Hks; by right].
  unfold same_queue in *. split_and!; [congruence|congruence| |].
  - intros k'. destruct (Hf2 k') as [->|(Hin&Hnone&body&key&Hb&Hkey&Hv)]; [apply Hf1|]. right.
    split_and!; [by right|done|]. exists body, key. split_and!; [by rewrite <- Hkeep|done|]. unfold verified_copy in *. by rewrite <- Ho.
  - intros c' Hc'. destruct (Hc2 c' Hc') as [Hcount Hsize]. specialize (Hc c1 eq_refl). split; [lia|].
    destruct Hf as [[Hfs Hcl]|(Hfs&(body&key&Hb&_)&[= ->])].
    + rewrite <- Hfs, <- (Hcl c1 eq_refl). exact Hsize.
    + rewrite Hfs, map_size_delete_Some in Hsize by (by eexists). cbn [count_cleaned cl_cleaned] in Hsize.
      assert (size (w_fs w) ≠ 0%nat) as Hne. { intros Hz%map_size_empty_iff. by rewrite Hz, lookup_empty in Hb. } lia.
Qed.
End cleanup.

(** ** Properties *)

(** The legacy clean-up.  Whatever the store answers, one sweep removes
    a local file only when it lies below [market/], is a Parquet file and the
    store holds a verified copy under its legacy key; the store and the queue
    stay as they were, at most [batch_limit] files are counted, and the
    [cleaned] count is the number of files removed. *)
Theorem legacy_cleanup_removes_only_copies {S} `{S3Laws S} sha256_hex root scan unlink_fault batch_limit (w w' : world S) r :
  (∀ l, scan l ≡ₚ l) →
  scan_and_cleanup_legacy sha256_hex root scan unlink_fault batch_limit w = (w', r) →
  objects w' = objects w ∧ w_rq w' = w_rq w ∧
  (∀ k, w_fs w' !! k = w_fs w !! k ∨
     w_fs w' !! k = None ∧ startswith (dir_name (root ++ ["market"])) k = true ∧ is_parquet k = true ∧
     ∃ body key, w_fs w !! k = Some body ∧ build_legacy_nas_key (components k) root = Ok key ∧ verified_copy sha256_hex (w_s3 w') key body) ∧
  (∀ c, r = Ok c → cl_cleaned c + cl_preserved c + cl_errors c <= Z.max batch_limit 0 ∧
     Z.of_nat (size (w_fs w)) = Z.of_nat (size (w_fs w')) + cl_cleaned c).
Proof.
  intros Hscan. unfold scan_and_cleanup_legacy, pbind, tree_of.
  assert (∀ k, k ∈ legacy_parquets root scan (w_fs w) ↔
    (startswith (dir_name (root ++ ["market"])) k = true ∧ is_parquet k = true) ∧ is_Some (w_fs w !! k)) as Hin.
  { intros k. unfold legacy_parquets, names. rewrite Hscan, list_elem_of_In, List.filter_In, <- list_elem_of_In, andb_true_iff, list_elem_of_fmap.
    split; [intros [([k' b]&->&Hb%elem_of_map_to_list) ?]; by split; [|exists b]|].
    intros [? [b Hb]]. split; [|done]. exists (k, b). split; [done|]. by apply elem_of_map_to_list. }
  intros Hrun. apply cleanup_loop_inv in Hrun as (Ho&Hq&Hf&Hc).
  - split_and!; [done|done| |].
    + intros k. destruct (Hf k) as [->|(Hk&Hnone&body&key&Hb&Hkey&Hv)]; [by left|]. right. apply Hin in Hk as [[? ?] _].
      split_and!; [done|done|done|]. exists body, key. split_and!; [done|done|]. unfold verified_copy in *. by rewrite Ho.
    + intros c Hr. destruct (Hc c Hr) as [H1 H2]. unfold counted in H1. cbn in H1, H2. lia.
  - unfold legacy_parquets, names. rewrite Hscan. apply NoDup_ListNoDup, List.NoDup_filter, NoDup_ListNoDup, NoDup_fst_map_to_list.
  - intros k [_ Hk]%Hin. exact Hk.
Qed.

(** C24.  A forward cycle never touches L1: whatever the faults, the store and
    the contents of the files, [_run_l2] and [_run_l3] leave every L1 part file
    of the tree as it is; temporary files, quarantine, sentinels, published
    outputs and their removal after the upload all lie elsewhere. *)
Theorem forward_cycle_keeps_l1 {S} `{S3Laws S} {Row} `{!Parquet Row, !Tables Row} cfg new_id clock qfaults has_metrics sha256_hex dw_metrics
    has_dual_writer root pid scan scan_dirs l2_env l3_env today k (w : world S) :
  l1_part root k →
  let w2 := (run_l2 (Row := Row) cfg new_id clock qfaults has_metrics sha256_hex dw_metrics has_dual_writer root pid scan scan_dirs l2_env today w).1 in
  let w3 := (run_l3 (Row := Row) cfg new_id clock qfaults has_metrics sha256_hex dw_metrics has_dual_writer root pid scan l3_env today w2).1 in
  w_fs w2 !! k = w_fs w !! k ∧ w_fs w3 !! k = w_fs w !! k.
Proof.
  intros Hk w2 w3.
  assert (∀ w0, keeps (l1_same root w0) (run_l2 (Row := Row) cfg new_id clock qfaults has_metrics sha256_hex dw_metrics has_dual_writer root pid scan scan_dirs l2_env today)) as H2.
  { intros w0. unfold run_l2. apply for_each_keeps. intros ch. apply keeps_bind; [by intros ? ? ? Hw [= <- <-]|]. intros fs.
    apply for_each_keeps. intros part. apply for_each_keeps. intros h. apply logged_keeps, run_l2_for_parquet_keeps. }
  assert (∀ w0, keeps (l1_same root w0) (run_l3 (Row := Row) cfg new_id clock qfaults has_metrics sha256_hex dw_metrics has_dual_writer root pid scan l3_env today)) as H3.
  { intros w0. unfold run_l3. apply for_each_keeps. intros ch. apply keeps_bind; [by intros ? ? ? Hw [= <- <-]|]. intros fs.
    apply for_each_keeps. intros part. apply logged_keeps, run_l3_for_parquet_keeps. }
  assert (l1_same root w w2) as Hw2 by (eapply (H2 w w); [done|apply surjective_pairing]).
  split; [by apply Hw2|]. by apply (H3 w w2 w3 _ Hw2 (surjective_pairing _)).
Qed.

(** No error leaves a forward cycle, an operational alert of the store no more
    than any other. *)
Definition always {W A} (m : proc W A) : Prop := ∀ w, ∃ w' a, m w = (w', Ok a).

Lemma for_each_always {S A} (l : list A) (body : A → proc (world S) unit) : (∀ a, always (body a)) → always (for_each l body).
Proof.
  intros Hb w. assert (always (pmap body l)) as Hp.
  { induction l as [|a l IH]; intros w0; cbn [pmap]; [by eexists _, _|].
    unfold pbind. destruct (Hb a w0) as (w1&b&->), (IH w1) as (w2&bs&->). by eexists _, _. }
  unfold for_each, pbind. destruct (Hp w) as (w'&a&->). by eexists _, _.
Qed.

Lemma forward_cycle_swallows_alerts {S} `{S3 S} {Row} `{!Parquet Row} cfg new_id clock qfaults has_metrics sha256_hex dw_metrics
    has_dual_writer root pid scan scan_dirs l2_env l3_env today :
  always (run_l2 (Row := Row) cfg new_id clock qfaults has_metrics sha256_hex dw_metrics has_dual_writer root pid scan scan_dirs l2_env today) ∧
  always (run_l3 (Row := Row) cfg new_id clock qfaults has_metrics sha256_hex dw_metrics has_dual_writer root pid scan l3_env today).
Proof.
  split; apply for_each_always; intros ch w; unfold pbind at 1, tree_of.
  - apply for_each_always. intros part. apply for_each_always. intros h w1. by eexists _, _.
  - apply for_each_always. intros part w1. by eexists _, _.
Qed.

(** *** Examples *)

Definition calm_tick (now : Z) : tick_env :=
  TickEnv now 0 (λ _, SegmentEnv "r" 0 no_l1_faults no_dw_faults) (λ _, None) 500 (λ _, now) (λ _, false).
Notation example_tick now ru w := (tick (Row := ascii) RetryQueue.example_config example_ids example_clock no_faults true
  example_digest true ["d"] true ["d"] "1" id id (λ _ _ _, calm) (λ _ _, calm) (calm_tick now) ru w).
Definition l1_key : string :=
  "market/transaction/schema_version=tick.v1/tier=L1/exchange=bithumb/symbol=KRW-BTC/date=1970-01-01/node=n1/part-19700101T000000Z-0123456789abcdef.parquet".

(** With a healthy store the upload removes the local L1 file, and discovery
    looks at local files only: no tick ever produces an L2 or L3 object. *)
Lemma healthy_store_stops_compaction :
  let w1 := (example_tick 1000 (MkRunner 0 0 0) (log_world [])).1 in
  let w2 := (example_tick 5000 (MkRunner 1000 1000 1) w1).1 in
  (example_tick 1000 (MkRunner 0 0 0) (log_world [])).2 = Ok (MkRunner 1000 0 1) ∧
  (map_to_list (objects w1)).*1 = [l1_key] ∧
  List.filter is_parquet (names (w_fs w1)) = [] ∧
  (map_to_list (objects w2)).*1 = [l1_key].
Proof. cbv zeta. split_and!; vm_compute; reflexivity. Qed.

(** A local L1 file, with its legacy object or without. *)
Definition l1_file_name : string := "/d/" +:+ l1_key.
Definition local_world (objs : gmap string object) : world mem_s3 := World (MemS3 objs []) None 0 {[ l1_file_name := "AF" ]} [].

Lemma forward_cycle_keeps_l1_witness :
  let w2 := (run_l2 (Row := ascii) RetryQueue.example_config example_ids example_clock no_faults true example_digest true false ["d"] "1" id id
    (λ _ _ _, calm) 0 (local_world ∅)).1 in
  w_fs w2 !! l1_file_name = Some "AF" ∧ List.filter is_parquet (names (w_fs w2)) ≠ [l1_file_name].
Proof.
  intros w2. split; [|vm_compute; discriminate].
  assert (l1_part ["d"] l1_file_name) as Hk.
  { exists "transaction", "tick.v1", "bithumb", "KRW-BTC", "1970-01-01". split; reflexivity. }
  destruct (forward_cycle_keeps_l1 (Row := ascii) RetryQueue.example_config example_ids example_clock no_faults true example_digest true false ["d"] "1" id id
    (λ _ _ _, calm) (λ _ _, calm) 0 l1_file_name (local_world ∅) Hk) as [H _].
  unfold w2. rewrite H. reflexivity.
Defined.

Lemma legacy_cleanup_removes_only_copies_witness :
  let w := local_world {[ "l1/" +:+ l1_key := Object "AF" None ]} in
  let run := scan_and_cleanup_legacy example_digest ["d"] id (λ _, None) 500 w in
  run.2 = Ok (Cleanup 1 0 0) ∧ w_fs run.1 !! l1_file_name = None ∧
  ∃ body key, w_fs w !! l1_file_name = Some body ∧ build_legacy_nas_key (components l1_file_name) ["d"] = Ok key ∧
    verified_copy example_digest (w_s3 run.1) key body.
Proof.
  intros w run. split; [vm_compute; reflexivity|].
  assert (w_fs run.1 !! l1_file_name = None) as Hnone by (vm_compute; reflexivity). split; [exact Hnone|].
  destruct (legacy_cleanup_removes_only_copies example_digest ["d"] id (λ _, None) 500 w run.1 run.2 ltac:(done) (surjective_pairing _)) as (_&_&Hf&_).
  destruct (Hf l1_file_name) as [Hk|(_&_&_&Hc)]; [|exact Hc]. exfalso. rewrite Hnone in Hk. vm_compute in Hk. discriminate Hk.
Defined.
