(* ===== verification/Historical.v ===== *)
(** * Historical promotion ([compactor/runner.py], [compactor/historical_reclaim.py])

    [run_historical_promotion]: for each partition of a past range of dates,
    L2 for every hour, L3 for the day, both uploaded, then the removal of the
    partition's local L1 files; [run_backfill]: L1 for the frozen segments of
    one exchange and channel.  Faults are arguments of each step. *)
From S2P Require Import Prelude PyDict Hoare PyDecimal RetryQueue ObjectStore NasUploader NasKey Promotion DualWriter Wal PyTime Ndjson Parquet L1Rows Compactor L1 Discovery Runner.
From Stdlib Require Import Ascii.
Open Scope string_scope.
Open Scope list_scope.
Open Scope Z_scope.

(** ** Reclaiming a partition *)

Inductive reclaim_status := reclaim_ok | skip_sentinel | skip_today_window | skip_forward_in_flight | skip_nas_missing | fail_verify.
#[export] Instance reclaim_status_eq_dec : EqDecision reclaim_status.
Proof. solve_decision. Defined.
(** [ReclaimOutcome]; [ro_errors]: the files and steps that failed *)
Record ReclaimOutcome := MkReclaim { ro_outcome : reclaim_status; ro_files_unlinked : Z; ro_bytes_freed : Z; ro_errors : list string }.
Definition skipped (s : reclaim_status) : ReclaimOutcome := MkReclaim s 0 0 [].

(** Errors of the removals, and of the sentinel (with what is kept of its
    temporary file) *)
Record reclaim_faults := ReclaimFaults { rf_unlink : string → option exn; rf_sentinel : option (exn * bool) }.
Definition no_reclaim_faults : reclaim_faults := ReclaimFaults (λ _, None) None.

Section reclaim.
Context {S : Type} `{S3 S} (root : path) (scan : list string → list string) (scan_dirs : list path → list path).
Local Notation proc := (proc (world S)).

(** [NASUploader.list_prefix_count] *)
Definition list_prefix_count (prefix : string) (max_keys : Z) : proc Z :=
  pbind (call_s3 (s3_list prefix)) (λ keys, pret (Z.min max_keys (Z.of_nat (length keys)))).

(** The date directory of a partition's L1 files *)
Definition l1_date_dir (exchange symbol channel date schema_ver : string) (fs : gmap string bytes) : path :=
  match scan_dirs (partition_dirs root channel "L1" exchange symbol date fs) with
  | d :: _ => d
  | [] => root ++ hive_dir "L1" channel schema_ver exchange symbol date
  end.

Definition promoted_sentinel (date_dir : path) : path := date_dir ++ [".l1-promoted"].

(** [_write_sentinel_atomic] *)
Definition write_sentinel_atomic (faults : reclaim_faults) (date_dir : path) : proc unit :=
  let tmp := fs_name (date_dir ++ [".l1-promoted.tmp"]) in
  pbind (set_fs (add_dirs date_dir)) (λ _,
  match rf_sentinel faults with
  | Some (e, kept) => pbind (if kept : bool then set_fs (<[tmp := ""]>) else pret tt) (λ _, praise e)
  | None => set_fs (λ fs, <[fs_name (promoted_sentinel date_dir) := ""]> (delete tmp fs))
  end).

(** The loop over the L1 files: files removed, bytes, errors.  A listed file
    that is not found has been removed by somebody else meanwhile. *)
Fixpoint unlink_files (faults : reclaim_faults) (ks : list string) (acc : Z * Z * list string) : proc (Z * Z * list string) :=
  match ks with
  | [] => pret acc
  | k :: ks' => λ w,
      match w_fs w !! k, rf_unlink faults k with
      | None, _ | Some _, Some FileNotFoundError => pbind (set_fs (delete k)) (λ _, unlink_files faults ks' acc) w
      | Some _, Some e => if is_OSError e then unlink_files faults ks' (acc.1, acc.2 ++ [k]) w else (w, Raise e)
      | Some b, None =>
          pbind (set_fs (delete k)) (λ _, unlink_files faults ks' (acc.1.1 + 1, acc.1.2 + blen b, acc.2)) w
      end
  end.

(** The part after the verification *)
Definition reclaim_files (faults : reclaim_faults) (date_dir : path) : proc ReclaimOutcome :=
  pbind tree_of (λ fs,
  if negb (dir_exists date_dir fs) then
    pbind (write_sentinel_atomic faults date_dir) (λ _, pret (MkReclaim reclaim_ok 0 0 []))
  else
    pbind (unlink_files faults (scan (List.filter (part_below date_dir) (names fs))) (0, 0, [])) (λ r,
    let '(n, bytes, errors) := r in λ w,
    match write_sentinel_atomic faults date_dir w with
    | (w1, Ok _) => (w1, Ok (MkReclaim reclaim_ok n bytes errors))
    | (w1, Raise e) => if is_OSError e then (w1, Ok (MkReclaim reclaim_ok n bytes (errors ++ ["sentinel write"]))) else (w1, Raise e)
    end)).

(** [reclaim_partition_l1_local] *)
Definition reclaim_partition_l1_local (faults : reclaim_faults) (exchange symbol channel : string) (date_utc now_snapshot : Z) : proc ReclaimOutcome :=
  let date := isoformat date_utc in
  let schema_ver := match schema_version channel with Ok v => v | Raise _ => "v1" end in
  pbind tree_of (λ fs,
  let date_dir := l1_date_dir exchange symbol channel date schema_ver fs in
  if bool_decide (is_Some (fs !! fs_name (promoted_sentinel date_dir))) then pret (skipped skip_sentinel) else
  if now_snapshot - 1 <=? date_utc then pret (skipped skip_today_window) else
  if bool_decide (is_Some (fs !! fs_name (forward_sentinel date_dir))) then pret (skipped skip_forward_in_flight) else
  λ w, match list_prefix_count (flat_prefix "L2" channel schema_ver exchange symbol date) 1 w with
  | (w1, Raise (ClientError _)) | (w1, Raise EndpointConnectionError) => (w1, Ok (skipped fail_verify))
  | (w1, Raise e) => (w1, Raise e)
  | (w1, Ok key_count) =>
      if key_count =? 0 then (w1, Ok (skipped skip_nas_missing)) else
      match partition_dirs root channel "L2" exchange symbol date (w_fs w1) with
      | [] => (w1, Ok (skipped fail_verify))
      | _ => reclaim_files faults date_dir w1
      end
  end).
End reclaim.

(** ** The promotion *)

Notation counts := (dict string Z).
Definition bump (key : string) (n : Z) (c : counts) : counts := dset c key (default 0 (dget c key) + n).
Definition zero_counts : counts :=
  [("partitions_processed", 0); ("l2_compacted", 0); ("l3_compacted", 0); ("skipped_no_l1", 0); ("errors", 0);
   ("l1_reclaim_ok", 0); ("l1_reclaim_skipped", 0); ("l1_bytes_freed", 0)].

(** Faults of one partition: each hour, the day, the reclaim *)
Record partition_env := PartitionEnv { pe_hour : Z → step_env; pe_day : step_env; pe_reclaim : reclaim_faults }.

Section historical.
Context {S : Type} `{S3 S} {Row : Type} `{!Parquet Row}.
Context (cfg : rq_config) (new_id : nat → string) (enqueue_clock : nat → Z * Z)
        (enqueue_faults : nat → option exn * option exn) (has_metrics : bool)
        (sha256_hex : bytes → string) (dw_metrics : bool).
Context (root : path) (pid : string) (scan : list string → list string) (scan_dirs : list path → list path).
Local Notation proc := (proc (world S)).

(** [_historical_dual_write] *)
Definition historical_dual_write (faults : dw_faults) (p : path) (tier : string) : proc dw_status :=
  pbind (plift (build_nas_key p root (Some tier))) (λ nas_key,
  pbind (emit_always (NasKeyHelperCall "runner_historical_dual_write" tier)) (λ _,
  pbind (read_file (fs_name p)) (λ body,
  pbind (write cfg new_id enqueue_clock enqueue_faults has_metrics sha256_hex dw_metrics faults
           (fs_name p) nas_key (DataPath (fs_name p)) (sha256_hex body) None) (λ x, pret (dw_result x))))).

(** The counters and the errors of the partition *)
Definition one_error (acc : counts * Z) : counts * Z := (bump "errors" 1 acc.1, acc.2 + 1).

(** An output that was merged: its upload and the counters *)
Definition promote_output (faults : dw_faults) (p : path) (tier counter : string) (acc : counts * Z) : proc (counts * Z) := λ w,
  match historical_dual_write faults p tier w with
  | (w1, Raise (NASOperationalAlert code reason)) => (w1, Raise (NASOperationalAlert code reason))
  | (w1, Raise _) => (w1, Ok (one_error acc))
  | (w1, Ok committed) => (w1, Ok (bump counter 1 acc.1, acc.2))
  | (w1, Ok _) => (w1, Ok (one_error acc))
  end.

Definition hour_step (env : step_env) (part : partition) (channel : string) (hour : Z) (acc : counts * Z) : proc (counts * Z) := λ w,
  match compact_hour (Row := Row) sha256_hex scan pid (se_merge env) root false part.1.1 part.1.2 channel part.2 hour w with
  | (w1, Raise _) => (w1, Ok (one_error acc))
  | (w1, Ok None) => (w1, Ok (bump "skipped_no_l1" 1 acc.1, acc.2))
  | (w1, Ok (Some p)) => promote_output (se_dw env) p "L2" "l2_compacted" acc w1
  end.

Definition day_step (env : step_env) (part : partition) (channel : string) (acc : counts * Z) : proc (counts * Z) := λ w,
  match compact_day (Row := Row) sha256_hex scan pid (se_merge env) root false part.1.1 part.1.2 channel part.2 w with
  | (w1, Raise _) => (w1, Ok (one_error acc))
  | (w1, Ok None) => (w1, Ok acc)
  | (w1, Ok (Some p)) => promote_output (se_dw env) p "L3" "l3_compacted" acc w1
  end.

Definition reclaim_step (faults : reclaim_faults) (part : partition) (channel : string) (now_snapshot : Z) (acc : counts * Z) : proc counts := λ w,
  if acc.2 =? 0 then
    match reclaim_partition_l1_local root scan scan_dirs faults part.1.1 part.1.2 channel part.2 now_snapshot w with
    | (w1, Ok o) =>
        if bool_decide (ro_outcome o = reclaim_ok)
        then (w1, Ok (bump "l1_bytes_freed" (ro_bytes_freed o) (bump "l1_reclaim_ok" 1 acc.1)))
        else (w1, Ok (bump "l1_reclaim_skipped" 1 acc.1))
    | (w1, Raise _) => (w1, Ok acc.1)
    end
  else (w, Ok (bump "l1_reclaim_skipped" 1 acc.1)).

(** A loop that carries a value *)
Fixpoint pfold {A B} (f : A → B → proc B) (l : list A) (b : B) : proc B :=
  match l with [] => pret b | a :: l' => pbind (f a b) (pfold f l') end.

Definition partition_step (env : partition_env) (channel : string) (now_snapshot : Z) (part : partition) (c : counts) : proc counts :=
  pbind (pfold (λ hour, hour_step (pe_hour env hour) part channel hour) (seqZ 0 24) (bump "partitions_processed" 1 c, 0)) (λ acc,
  pbind (day_step (pe_day env) part channel acc) (λ acc,
  reclaim_step (pe_reclaim env) part channel now_snapshot acc)).

(** [run_historical_promotion] *)
Definition run_historical_promotion (env : partition → partition_env) (start_date end_date now_snapshot : Z) (exchange : option string)
    (channel : string) : proc counts :=
  if now_snapshot - 1 <=? end_date then praise ValueError else
  pbind tree_of (λ fs,
  pfold (λ part, partition_step (env part) channel now_snapshot part)
    (discover_partitions_in_range root channel start_date end_date exchange "L1" fs) zero_counts).
End historical.

(** ** L1 for the frozen segments *)

(** [BackfillManifest]; its fields without a default *)
Record BackfillManifest := MkBackfillManifest {
  bm_exchange : string; bm_channel : string; bm_date_range_start : string; bm_date_range_end : string;
  bm_segment_count : Z; bm_segments_processed : Z; bm_segments_skipped : Z; bm_l1_parquets_created : Z;
  bm_partial_boundary_symbols : list string }.

(** Counters of the loop *)
Record progress := Progress { bp_processed : Z; bp_errors : Z; bp_partial : list string }.

(** [min(dates) if dates else ""] *)
Fixpoint fold_strings (keep : string → string → bool) (d : string) (l : list string) : string :=
  match l with [] => d | x :: l' => fold_strings keep (if keep d x then d else x) l' end.
Definition date_min (dates : list string) : string := match dates with [] => "" | d :: l => fold_strings String.leb d l end.
Definition date_max (dates : list string) : string := match dates with [] => "" | d :: l => fold_strings (λ d x, String.leb x d) d l end.

Section backfill.
Context {S : Type} `{S3 S} {Row : Type} `{Tables Row}.
Context (cfg : rq_config) (new_id : nat → string) (enqueue_clock : nat → Z * Z)
        (enqueue_faults : nat → option exn * option exn) (has_metrics : bool) (sha256_hex : bytes → string).
(** [yaml.dump] of the manifest, created at some time *)
Context (yaml_dump : BackfillManifest → string) (root : path).
(** The environment of each segment; errors of the manifest's directory and
    of its write *)
Context (env : path → segment_env) (manifest_mkdir manifest_write : option exn).
Local Notation proc := (proc (world S)).

Definition manifest_text (m : BackfillManifest) : string := "---" +:+ newline +:+ yaml_dump m +:+ "---" +:+ newline.

(** [BackfillManifest.write_manifest]; a failing write leaves an empty file. *)
Definition write_manifest (m : BackfillManifest) (p : path) : proc unit :=
  pbind (match manifest_mkdir with Some e => praise e | None => set_fs (add_dirs (removelast p)) end) (λ _,
  match manifest_write with
  | Some e => pbind (set_fs (<[fs_name p := ""]>)) (λ _, praise e)
  | None => set_fs (<[fs_name p := manifest_text m]>)
  end).

(** Symbol and date of a segment *)
Definition segment_part (n : nat) (d : string) (seg : path) : string :=
  match relative_to seg (root ++ ["wal"]) with
  | Ok rel => if (5 <=? length rel)%nat then default d (rel !! n) else d
  | Raise _ => d
  end.

(** One segment of the loop *)
Definition backfill_one (seg : path) (acc : progress) : proc progress := λ w,
  match compact_segment (Row := Row) cfg new_id enqueue_clock enqueue_faults has_metrics sha256_hex (sg_dw (env seg)) root false root
          (sg_random (env seg)) (sg_now (env seg)) (sg_faults (env seg)) seg w with
  | (w1, Raise _) => (w1, Ok (Progress (bp_processed acc) (bp_errors acc + 1) (bp_partial acc)))
  | (w1, Ok _) =>
      match w_fs w1 !! fs_name seg with
      | None => (w1, Ok (Progress (bp_processed acc + 1) (bp_errors acc + 1) (bp_partial acc)))
      | Some body =>
          let key := segment_part 2 "unknown" seg +:+ "/" +:+ segment_part 3 "unknown" seg in
          (w1, Ok (Progress (bp_processed acc + 1) (bp_errors acc)
             (if (blen body =? 0) && negb (bool_decide (key ∈ bp_partial acc)) then bp_partial acc ++ [key] else bp_partial acc)))
      end
  end.

(** [run_backfill] *)
Definition run_backfill (exchange tier channel : string) (manifest_path : option path) : proc BackfillManifest :=
  if negb (String.eqb tier "L1") then praise NotImplementedError else
  pbind tree_of (λ fs,
  let segments := iter_frozen_segments (root ++ ["wal"]) exchange channel fs in
  match segments with
  | [] =>
      let manifest := MkBackfillManifest exchange channel "" "" 0 0 0 0 [] in
      pbind (match manifest_path with Some p => write_manifest manifest p | None => pret tt end) (λ _, pret manifest)
  | _ =>
      let dates := List.filter (λ d, negb (String.eqb d "")) (segment_part 3 "" <$> segments) in
      pbind (pfold backfill_one segments (Progress 0 0 [])) (λ acc,
      let audit_dir := root ++ ["audit"] in
      pbind (match manifest_path with
             | Some p => pret p
             | None => match manifest_mkdir with
                       | Some e => praise e
                       | None => pbind (set_fs (add_dirs audit_dir)) (λ _,
                           pret (audit_dir ++ ["backfill-manifest-" +:+ exchange +:+ "-" +:+ channel +:+ ".yaml"]))
                       end
             end) (λ p,
      let manifest := MkBackfillManifest exchange channel (date_min dates) (date_max dates) (Z.of_nat (length segments))
        (bp_processed acc) 0 (bp_processed acc) (bp_partial acc) in
      pbind (write_manifest manifest p) (λ _, pret manifest)))
  end).
End backfill.

(** ** Lemmas *)

#[local] Arguments String.append !_ _ / : simpl nomatch.

(** *** Discovery *)

Lemma date_dir_of_shape channel_root tier k p : date_dir_of channel_root tier k = Some p →
  ∃ sv ex sym dt, p = channel_root ++ [sv; "tier=" +:+ tier; ex; sym; dt].
Proof.
  unfold date_dir_of. destruct (relative_to _ _) as [rel|]; [|done].
  destruct rel as [|sv [|t [|ex [|sym [|dt [|f rest]]]]]]; try done.
  destruct (_ && _) eqn:Hb; [|done]. intros [= <-]. py_bool. apply String.eqb_eq in H3 as ->. eauto.
Qed.

(** The directories of one partition *)
Definition partition_dir (root : path) (channel sv tier ex sym date : string) : path :=
  root ++ ["market"; channel; sv; "tier=" +:+ tier; "exchange=" +:+ ex; "symbol=" +:+ sym; "date=" +:+ date].

Lemma partition_dirs_shape root ch tier ex sym date fs p : p ∈ partition_dirs root ch tier ex sym date fs →
  ∃ sv, p = partition_dir root ch sv tier ex sym date.
Proof.
  unfold partition_dirs, date_dirs. rewrite list_elem_of_In, List.filter_In, <- list_elem_of_In, elem_of_remove_dups, list_elem_of_omap.
  intros [(k&_&(sv&e&s&dt&->)%date_dir_of_shape) Hd%bool_decide_eq_true].
  rewrite <- app_assoc in Hd. rewrite drop_app_ge in Hd by lia. replace (length root + 4 - length root)%nat with 4%nat in Hd by lia.
  injection Hd as -> -> ->. exists sv. unfold partition_dir. by rewrite <- app_assoc.
Qed.

Lemma l1_date_dir_shape root scan_dirs ex sym ch date v fs : (∀ l, scan_dirs l ≡ₚ l) →
  ∃ sv, l1_date_dir root scan_dirs ex sym ch date v fs = partition_dir root ch sv "L1" ex sym date.
Proof.
  intros Hs. unfold l1_date_dir. destruct (scan_dirs _) as [|d ds] eqn:Hd; [by eexists|].
  apply (partition_dirs_shape _ _ _ _ _ _ fs). rewrite <- Hs, Hd. left.
Qed.

Lemma discovered_in_range root ch start_date end_date exchange tier fs part :
  part ∈ discover_partitions_in_range root ch start_date end_date exchange tier fs → start_date <= part.2 <= end_date.
Proof.
  unfold discover_partitions_in_range. rewrite sort_le_perm, list_elem_of_omap. intros (p&_&Hw). revert Hw. unfold wanted.
  destruct (part_value "exchange=" p), (part_value "symbol=" p), (part_value "date=" p); try done.
  destruct (date_fromisoformat _) as [d|]; [|done]. destruct (match exchange with Some _ => _ | None => _ end); [done|].
  destruct (negb ((start_date <=? d) && _)) eqn:Hr; [done|]. destruct (negb (has_part _ _)); [done|]. intros [= <-]. py_bool. simpl. lia.
Qed.

(** *** Reclaiming *)

Section reclaim_lemmas.
Context {S : Type} `{S3Laws S} (root : path) (scan : list string → list string) (scan_dirs : list path → list path).
Implicit Types (w : world S).

Lemma list_prefix_count_inv prefix n w w' r : list_prefix_count prefix n w = (w', r) →
  reads w w' ∧ ∀ c, r = Ok c → c = 0 ∨ n <= 0 ∨ ∃ key, startswith prefix key = true ∧ is_Some (objects w !! key).
Proof.
  unfold list_prefix_count, pbind. destruct (call_s3 _ w) as [w1 o] eqn:Hc. pose proof Hc as Hr.
  apply call_s3_reads in Hr; [|intros *; apply s3_list_frame]. apply call_s3_inv in Hc as (Hc&_).
  destruct o as [keys|e]; intros [= <- <-]; (split; [done|]); [|done]. intros c [= <-].
  apply s3_list_ok in Hc as [_ Hk]. destruct keys as [|key keys]; [simpl; lia|]. right; right. exists key. apply Hk. left.
Qed.

(** What the sentinel's write may touch *)
Definition sentinel_names (dir : path) (k : string) : Prop :=
  (∃ q, k = dir_name q) ∨ k = fs_name (dir ++ [".l1-promoted.tmp"]) ∨ k = fs_name (promoted_sentinel dir).

Lemma write_sentinel_inv faults dir w w' r : write_sentinel_atomic faults dir w = (w', r) →
  files_but (sentinel_names dir) w w' ∧ (r = Ok tt → is_Some (w_fs w' !! fs_name (promoted_sentinel dir))).
Proof.
  intros Hrun. split.
  - revert Hrun. unfold write_sentinel_atomic.
    apply (keeps_bind (files_but _ w)); [|intros _|apply files_but_refl].
    + apply set_fs_keeps. intros fs k Hk. apply add_dirs_lookup. intros q ->. apply Hk. left. by exists q.
    + destruct (rf_sentinel faults) as [[e [|]]|].
      * apply keeps_bind; [|intros; apply keeps_raise]. apply set_fs_keeps. intros fs k Hk.
        apply lookup_insert_ne. intros <-. apply Hk. right. by left.
      * apply keeps_bind; [apply keeps_ret|intros; apply keeps_raise].
      * apply set_fs_keeps. intros fs k Hk. rewrite lookup_insert_ne, lookup_delete_ne; [done|..];
          intros <-; apply Hk; right; [by left|by right].
  - intros ->. unfold write_sentinel_atomic, pbind, set_fs in Hrun. destruct (rf_sentinel faults) as [[e [|]]|]; [done..|].
    injection Hrun as <-. cbn [w_fs]. rewrite lookup_insert_eq. eauto.
Qed.

(** The loop removes listed files only; without errors, all of them. *)
Definition unlinked (ks : list string) (acc : Z * Z * list string) w w' (r : res (Z * Z * list string)) : Prop :=
  objects w' = objects w ∧ same_queue w w' ∧
  (∀ k, w_fs w' !! k = w_fs w !! k ∨ k ∈ ks ∧ w_fs w' !! k = None) ∧
  ∀ acc', r = Ok acc' → (∃ new, acc'.2 = acc.2 ++ new) ∧ (acc'.2 = acc.2 → ∀ k, k ∈ ks → w_fs w' !! k = None).

Lemma unlinked_cons k ks acc acc1 w w1 w' r :
  objects w1 = objects w → same_queue w w1 →
  (w_fs w1 = w_fs w ∧ (w_fs w !! k = None ∨ ∃ e, acc1.2 = acc.2 ++ [e]) ∨ w_fs w1 = delete k (w_fs w)) → (∃ new, acc1.2 = acc.2 ++ new) →
  unlinked ks acc1 w1 w' r → unlinked (k :: ks) acc w w' r.
Proof.
  intros Ho Hq Hk [new0 Hn] (Ho'&Hq'&Hf'&Hr'). unfold same_queue in *. split_and!; [congruence..| |].
  - intros k'. destruct (Hf' k') as [->|[? ?]]; [|right; split; [by right|done]].
    destruct Hk as [[-> _]| ->]; [by left|]. destruct (decide (k' = k)) as [->|].
    + right. split; [by left|apply lookup_delete_eq].
    + left. by apply lookup_delete_ne.
  - intros acc' Ha. destruct (Hr' acc' Ha) as [[new Hnew] Hall]. split.
    { exists (new0 ++ new). by rewrite Hnew, Hn, app_assoc. }
    intros Heq. rewrite Hnew, Hn, <- app_assoc in Heq.
    assert (new0 = [] ∧ new = []) as [-> ->].
    { apply app_nil. apply (app_inv_head acc.2). by rewrite app_nil_r. }
    rewrite !app_nil_r in *. specialize (Hall Hnew). intros k' [->|Hin]%elem_of_cons; [|by apply Hall].
    destruct (Hf' k) as [->|[_ ?]]; [|done].
    destruct Hk as [[-> [Hnone|[e He]]]| ->]; [done| |apply lookup_delete_eq].
    exfalso. rewrite Hn in He. by apply (f_equal length) in He; rewrite length_app in He; simpl in He; lia.
Qed.

Lemma unlink_files_inv faults ks acc w w' r : unlink_files faults ks acc w = (w', r) → unlinked ks acc w w' r.
Proof.
  revert acc w. induction ks as [|k ks IH]; intros acc w; cbn [unlink_files].
  { intros [= <- <-]. split_and!; [done|done|by left|]. intros acc' [= <-]. split; [exists []; by rewrite app_nil_r|]. by intros _ k ?%not_elem_of_nil. }
  destruct (w_fs w !! k) as [b|] eqn:Hb.
  - assert (∀ acc1, (∃ new, acc1.2 = acc.2 ++ new) → pbind (set_fs (delete k)) (λ _, unlink_files faults ks acc1) w = (w', r) →
      unlinked (k :: ks) acc w w' r) as Hdel.
    { intros acc1 Hacc. unfold pbind, set_fs. intros Hrun%IH. eapply unlinked_cons; [| | |exact Hacc|exact Hrun]; [done|done|by right]. }
    assert (∀ acc1 e, acc1.2 = acc.2 ++ [e] → unlink_files faults ks acc1 w = (w', r) → unlinked (k :: ks) acc w w' r) as Herr.
    { intros acc1 e Hacc Hrun%IH. eapply (unlinked_cons _ _ _ acc1 w w); [done|done| |by eexists|exact Hrun]. left. eauto. }
    assert (∀ e, (w, Raise e) = (w', r) → unlinked (k :: ks) acc w w' r) as Hraise by (intros e [= <- <-]; split_and!; [done|done|by left|done]).
    destruct (rf_unlink faults k) as [e|]; [|apply Hdel; exists []; by rewrite app_nil_r].
    destruct e; cbn [is_OSError];
      first [apply Hraise | apply Hdel; exists []; by rewrite app_nil_r | by apply (Herr _ k)].
  - unfold pbind, set_fs. intros Hrun%IH. eapply (unlinked_cons _ _ _ acc); [| | | |exact Hrun]; [done|done|by right|exists []; by rewrite app_nil_r].
Qed.
End reclaim_lemmas.

Lemma part_below_last dir k : part_below dir k = true → last_char k = Some "t"%char.
Proof.
  intros [_ [_ [u Hu]%endswith_app_iff]%andb_true_iff]%andb_true_iff.
  destruct (base_name_suffix k) as [x ->]. rewrite Hu, <- string_app_assoc. by apply last_char_app.
Qed.
Lemma part_not_sentinel dir dir' k : part_below dir k = true → ¬ sentinel_names dir' k.
Proof.
  intros Hk%part_below_last [[q ->]|[->| ->]].
  - by rewrite dir_name_last in Hk.
  - change ".l1-promoted.tmp" with (".l1-promoted" +:+ ".tmp") in Hk. by rewrite fs_name_snoc in Hk.
  - unfold promoted_sentinel in Hk. change ".l1-promoted" with (".l1" +:+ "-promoted") in Hk. by rewrite fs_name_snoc in Hk.
Qed.

Section reclaim_theorems.
Context {S : Type} `{S3Laws S} (root : path) (scan : list string → list string) (scan_dirs : list path → list path).
Context (scan_perm : ∀ l, scan l ≡ₚ l).
Implicit Types (w : world S).

(** What the part after the verification does to the files of a directory *)
Definition dir_reclaimed (dir : path) w w' (r : res ReclaimOutcome) : Prop :=
  objects w' = objects w ∧ same_queue w w' ∧
  (∀ k, ¬ sentinel_names dir k → w_fs w' !! k = w_fs w !! k ∨ part_below dir k = true ∧ w_fs w' !! k = None) ∧
  ∀ o, r = Ok o → ro_outcome o = reclaim_ok ∧
    (ro_errors o = [] → is_Some (w_fs w' !! fs_name (promoted_sentinel dir)) ∧ ∀ k, part_below dir k = true → w_fs w' !! k = None).

Lemma dir_reclaimed_raise dir w w' e : files_but (sentinel_names dir) w w' → dir_reclaimed dir w w' (Raise e).
Proof. intros (?&?&Hf). split_and!; [done|done| |done]. intros k Hk. left. by apply Hf. Qed.

(** Every name below a directory starts with the directory's. *)
Lemma no_dir_no_part dir w k : dir_exists dir (w_fs w) = false → part_below dir k = true → w_fs w !! k = None.
Proof.
  intros Hd [Hk _]%andb_true_iff. destruct (w_fs w !! k) as [b|] eqn:Hb; [|done].
  enough (dir_exists dir (w_fs w) = true) by congruence.
  apply existsb_exists. exists k. split; [|exact Hk]. apply list_elem_of_In, list_elem_of_fmap.
  exists (k, b). split; [done|]. by apply elem_of_map_to_list.
Qed.

Lemma listed_parts dir w k : k ∈ scan (List.filter (part_below dir) (names (w_fs w))) ↔ part_below dir k = true ∧ is_Some (w_fs w !! k).
Proof.
  rewrite scan_perm, list_elem_of_In, List.filter_In, <- list_elem_of_In. unfold names. rewrite list_elem_of_fmap. split.
  - intros [([k' b]&->&Hb%elem_of_map_to_list) Hk]. by split; [|exists b].
  - intros [Hk [b Hb]]. split; [|done]. exists (k, b). split; [done|]. by apply elem_of_map_to_list.
Qed.

Lemma reclaim_files_inv faults dir w w' r : reclaim_files scan faults dir w = (w', r) → dir_reclaimed dir w w' r.
Proof.
  unfold reclaim_files, pbind at 1, tree_of. destruct (dir_exists dir (w_fs w)) eqn:Hd; cbn [negb].
  - unfold pbind at 1. destruct (unlink_files _ _ _ w) as [w1 o] eqn:Hu. apply unlink_files_inv in Hu as (Ho1&Hq1&Hf1&Hr1).
    assert (∀ k, w_fs w1 !! k = w_fs w !! k ∨ part_below dir k = true ∧ w_fs w1 !! k = None) as Hk1.
    { intros k. destruct (Hf1 k) as [|[[Hk _]%listed_parts ?]]; auto. }
    destruct o as [[[n bytes] errs]|e].
    2: { intros [= <- <-]. split_and!; [done|done|intros k _; apply Hk1|done]. }
    destruct (write_sentinel_atomic faults dir w1) as [w2 o] eqn:Hs. apply write_sentinel_inv in Hs as [(Ho2&Hq2&Hf2) Hsok].
    assert (objects w2 = objects w ∧ same_queue w w2 ∧ ∀ k, ¬ sentinel_names dir k → w_fs w2 !! k = w_fs w !! k ∨ part_below dir k = true ∧ w_fs w2 !! k = None) as (Ho&Hq&Hf).
    { unfold same_queue in *. split_and!; [congruence..|]. intros k Hk. rewrite Hf2 by done. apply Hk1. }
    destruct o as [[]|e].
    + intros [= <- <-]. split_and!; [done..|]. intros o [= <-]. split; [done|]. cbn [ro_errors]. intros ->. split; [by apply Hsok|].
      intros k Hk. rewrite Hf2 by (by eapply part_not_sentinel). destruct (Hr1 _ eq_refl) as [_ Hall].
      destruct (w_fs w !! k) as [b|] eqn:Hb; [apply Hall; [done|]; apply listed_parts; eauto|]. destruct (Hf1 k) as [->|[_ ?]]; done.
    + destruct (is_OSError e); intros [= <- <-]; (split_and!; [done..|]); [|done]. intros o [= <-]. split; [done|]. cbn [ro_errors]. by destruct errs.
  - unfold pbind. destruct (write_sentinel_atomic faults dir w) as [w2 o] eqn:Hs. apply write_sentinel_inv in Hs as [(Ho2&Hq2&Hf2) Hsok].
    destruct o as [[]|e]; intros [= <- <-]; [|by apply dir_reclaimed_raise]. split_and!; [done|done|intros k Hk; left; by apply Hf2|].
    intros o [= <-]. split; [done|]. intros _. split; [by apply Hsok|]. intros k Hk.
    rewrite Hf2 by (by eapply part_not_sentinel). by eapply no_dir_no_part.
Qed.

(** The conditions under which files are touched *)
Definition reclaimable (ex sym ch v : string) (d now : Z) (dir : path) w : Prop :=
  d < now - 1 ∧ w_fs w !! fs_name (promoted_sentinel dir) = None ∧ w_fs w !! fs_name (forward_sentinel dir) = None ∧
  partition_dirs root ch "L2" ex sym (isoformat d) (w_fs w) ≠ [] ∧
  ∃ key, startswith (flat_prefix "L2" ch v ex sym (isoformat d)) key = true ∧ is_Some (objects w !! key).

Definition ver (ch : string) : string := match schema_version ch with Ok v => v | Raise _ => "v1" end.

Lemma reclaim_inv faults ex sym ch d now w w' r :
  reclaim_partition_l1_local root scan scan_dirs faults ex sym ch d now w = (w', r) →
  let dir := l1_date_dir root scan_dirs ex sym ch (isoformat d) (ver ch) (w_fs w) in
  reads w w' ∧ (∀ o, r = Ok o → ro_outcome o ≠ reclaim_ok ∧ ro_files_unlinked o = 0) ∨
  reclaimable ex sym ch (ver ch) d now dir w ∧ dir_reclaimed dir w w' r.
Proof.
  unfold reclaim_partition_l1_local, pbind at 1, tree_of. fold (ver ch). cbv zeta. set (dir := l1_date_dir _ _ _ _ _ _ _ _).
  assert (∀ s, s ≠ reclaim_ok → (w, Ok (skipped s)) = (w', r) → reads w w' ∧ ∀ o, r = Ok o → ro_outcome o ≠ reclaim_ok ∧ ro_files_unlinked o = 0) as Hskip.
  { intros s Hs [= <- <-]. split; [done|]. by intros o [= <-]. }
  case_bool_decide as Hsent; [intros Hx; left; eapply Hskip; [|exact Hx]; done|]. destruct (now - 1 <=? d) eqn:Hnow; [intros Hx; left; eapply Hskip; [|exact Hx]; done|].
  case_bool_decide as Hfwd; [intros Hx; left; eapply Hskip; [|exact Hx]; done|]. py_bool. rewrite <- eq_None_not_Some in Hsent, Hfwd.
  destruct (list_prefix_count _ _ w) as [w1 o] eqn:Hl. apply list_prefix_count_inv in Hl as [Hr1 Hcount].
  assert (∀ s, s ≠ reclaim_ok → (w1, Ok (skipped s)) = (w', r) → reads w w' ∧ ∀ o, r = Ok o → ro_outcome o ≠ reclaim_ok ∧ ro_files_unlinked o = 0) as Hskip1.
  { intros s Hs [= <- <-]. split; [done|]. by intros o' [= <-]. }
  destruct o as [count|e].
  2: { intros Hx. left. destruct e; first [by injection Hx as <- <- | eapply Hskip1; [|exact Hx]; done]. }
  destruct (count =? 0) eqn:Hz; [intros Hx; left; eapply Hskip1; [|exact Hx]; done|]. py_bool. destruct Hr1 as (Ho1&Hq1&Hf1). unfold same_files in Hf1. rewrite Hf1.
  destruct (partition_dirs _ _ _ _ _ _ _) as [|x l] eqn:Hdirs; [intros Hx; left; eapply Hskip1; [|exact Hx]; done|].
  intros (Ho&Hq&Hf&Hok)%reclaim_files_inv. right. rewrite Ho1 in Ho. unfold same_queue in *. rewrite Hf1 in Hf. split.
  - destruct (Hcount count eq_refl) as [?|[?|Hkey]]; [done|lia|]. split_and!; [lia|done|done|by rewrite Hdirs|done].
  - split_and!; [done|congruence|done|done].
Qed.
End reclaim_theorems.

(** *** The promotion *)

Section historical_lemmas.
Context {S : Type} `{S3Laws S} {Row : Type} `{!Parquet Row}.
Context (cfg : rq_config) (new_id : nat → string) (enqueue_clock : nat → Z * Z)
        (enqueue_faults : nat → option exn * option exn) (has_metrics : bool)
        (sha256_hex : bytes → string) (dw_metrics : bool).
Context (root : path) (pid : string) (scan : list string → list string) (scan_dirs : list path → list path).
Context (scan_perm : ∀ l, scan l ≡ₚ l) (scan_dirs_perm : ∀ l, scan_dirs l ≡ₚ l).
Context (channel : string) (start_date end_date now : Z).
Implicit Types (w : world S).

(** An L1 file that may be gone: its day lies in the range and before the
    forward window, and the store holds an object of the day's L2. *)
Definition promoted_part w (k : string) : Prop := ∃ sv ex sym d,
  part_below (partition_dir root channel sv "L1" ex sym (isoformat d)) k = true ∧
  start_date <= d <= end_date ∧ d < now - 1 ∧
  ∃ key, startswith (flat_prefix "L2" channel (ver channel) ex sym (isoformat d)) key = true ∧ is_Some (objects w !! key).

Definition promotes w0 w : Prop :=
  (∀ k, is_Some (objects w0 !! k) → is_Some (objects w !! k)) ∧
  ∀ k, l1_part root k → w_fs w !! k = w_fs w0 !! k ∨ w_fs w !! k = None ∧ promoted_part w k.

(** Steps that touch no L1 part and remove no object *)
Definition grows w w' : Prop :=
  (∀ k, is_Some (objects w !! k) → is_Some (objects w' !! k)) ∧ ∀ k, l1_part root k → w_fs w' !! k = w_fs w !! k.

Lemma promotes_grows w0 w w' : promotes w0 w → grows w w' → promotes w0 w'.
Proof.
  intros [Ho Hf] [Ho' Hf']. split; [auto|]. intros k Hk. rewrite (Hf' k Hk).
  destruct (Hf k Hk) as [|[? (sv&ex&sym&d&Hb&Hd&Hn&key&Hkey&Hs)]]; [by left|right]. split; [done|]. exists sv, ex, sym, d. eauto 10.
Qed.

Lemma files_but_grows w w' : files_but (λ k, ¬ l1_part root k) w w' → grows w w'.
Proof. intros (Ho&_&Hf). split; [by rewrite Ho|]. intros k Hk. apply Hf. tauto. Qed.

Lemma historical_write_grows faults p tier w w' r : ¬ l1_part root (fs_name p) →
  historical_dual_write cfg new_id enqueue_clock enqueue_faults has_metrics sha256_hex dw_metrics root faults p tier w = (w', r) → grows w w'.
Proof.
  intros Hp. unfold historical_dual_write, pbind, plift, emit_always, read_file.
  destruct (build_nas_key p root (Some tier)) as [key|e]; [|by intros [= <- <-]]. cbn [w_fs].
  destruct (w_fs w !! fs_name p) as [body|] eqn:Hb; [|by intros [= <- <-]].
  destruct (write _ _ _ _ _ _ _ _ _ _ _ _ _ _) as [w1 o] eqn:Hrun. intros Hr.
  assert (w' = w1) as -> by (destruct o; by injection Hr as <- _). clear Hr.
  apply (write_inv _ _ _ _ _ _ _ _ _ _ _ _ _ body) in Hrun as (Ho&Hf&_); [|by unfold read_data, read_file; cbn [w_fs]; rewrite Hb].
  split.
  - intros k Hk. destruct Ho as [->|[-> _]]; [done|]. destruct (decide (k = key)) as [->|]; [rewrite lookup_insert_eq|rewrite lookup_insert_ne]; eauto.
  - intros k Hk. assert (k ≠ fs_name p) as Hk1 by congruence. assert (k ≠ tmp_path (fs_name p)) as Hk2.
    { intros ->. apply l1_part_last in Hk. unfold tmp_path in Hk. by rewrite last_char_app in Hk. }
    destruct Hf as [[Hf _]|[[Hf _]|(s&b&x&Hs&Hf&_)]].
    + by rewrite Hf.
    + by rewrite Hf, lookup_insert_ne, lookup_delete_ne.
    + exfalso. clear -Hs. unfold self_delete_target in Hs. destruct (String.eqb_spec (fs_name p) (fs_name p)); done.
Qed.

Lemma promote_output_grows faults p tier counter acc w w' r : ¬ l1_part root (fs_name p) →
  promote_output cfg new_id enqueue_clock enqueue_faults has_metrics sha256_hex dw_metrics root faults p tier counter acc w = (w', r) → grows w w'.
Proof.
  intros Hp. unfold promote_output. destruct (historical_dual_write _ _ _ _ _ _ _ _ _ _ _ w) as [w1 o] eqn:Hw.
  apply historical_write_grows in Hw; [|done]. destruct o as [[]|[]]; by intros [= <- <-].
Qed.

Lemma hour_step_grows env part hour acc w w' r :
  hour_step (Row := Row) cfg new_id enqueue_clock enqueue_faults has_metrics sha256_hex dw_metrics root pid scan env part channel hour acc w = (w', r) → grows w w'.
Proof.
  unfold hour_step. destruct (compact_hour _ _ _ _ _ _ _ _ _ _ _ w) as [w1 o] eqn:Hc.
  pose proof Hc as Hg. eapply compact_hour_keeps in Hg; [apply files_but_grows in Hg| |apply files_but_refl].
  2: { intros v run k Hv Hk Hpart. revert Hk. unfold hour_dir. by apply l1_part_not_merged; [| |left| |lia]. }
  destruct o as [[p|]|e]; [|by intros [= <- <-]..]. apply compact_hour_answers in Hc. destruct (Hc p eq_refl) as (v&run&Hv&->).
  intros [Ho Hf]%promote_output_grows; [|by apply hour_out_not_part]. destruct Hg as [Ho1 Hf1].
  split; [auto|]. intros k Hk. by rewrite Hf, Hf1.
Qed.

Lemma day_step_grows env part acc w w' r :
  day_step (Row := Row) cfg new_id enqueue_clock enqueue_faults has_metrics sha256_hex dw_metrics root pid scan env part channel acc w = (w', r) → grows w w'.
Proof.
  unfold day_step. destruct (compact_day _ _ _ _ _ _ _ _ _ _ w) as [w1 o] eqn:Hc.
  pose proof Hc as Hg. eapply compact_day_keeps in Hg; [apply files_but_grows in Hg| |apply files_but_refl].
  2: { intros v run k Hv Hk Hpart. revert Hk. unfold l3_dir. by apply l1_part_not_merged; [| |right; left| |lia]. }
  destruct o as [[p|]|e]; [|by intros [= <- <-]..]. apply compact_day_answers in Hc. destruct (Hc p eq_refl) as (v&run&Hv&->).
  intros [Ho Hf]%promote_output_grows; [|by apply day_out_not_part]. destruct Hg as [Ho1 Hf1].
  split; [auto|]. intros k Hk. by rewrite Hf, Hf1.
Qed.

Lemma reclaim_step_promotes faults part acc w0 w w' r : start_date <= part.2 <= end_date → promotes w0 w →
  reclaim_step root scan scan_dirs faults part channel now acc w = (w', r) → promotes w0 w'.
Proof.
  intros Hd Hw. unfold reclaim_step. destruct (acc.2 =? 0); [|by intros [= <- <-]].
  destruct (reclaim_partition_l1_local _ _ _ _ _ _ _ _ _ w) as [w1 o] eqn:Hr.
  intros Hres. assert (w' = w1) as -> by (destruct o as [out|e]; [case_bool_decide|]; by injection Hres as <- _).
  clear Hres. apply reclaim_inv in Hr as [[(Ho&_&Hf) _]|[(Hnow&_&_&_&key&Hkey&Hs) (Ho&_&Hf&_)]]; [| |exact scan_perm].
  - apply (promotes_grows _ w); [done|]. split; [by rewrite Ho|]. by rewrite Hf.
  - destruct Hw as [Hwo Hwf]. split; [by rewrite Ho|]. intros k Hk.
    destruct (l1_date_dir_shape root scan_dirs part.1.1 part.1.2 channel (isoformat part.2) (ver channel) (w_fs w) scan_dirs_perm) as [sv Hsv].
    rewrite Hsv in Hf. destruct (Hf k) as [->|[Hbelow Hnone]].
    + destruct Hk as (?&?&?&?&?&_&Hk). by eapply part_not_sentinel.
    + destruct (Hwf k Hk) as [|[? (sv'&ex&sym&d&Hb&Hd'&Hn&key'&Hkey'&Hs')]]; [by left|right]. split; [done|].
      exists sv', ex, sym, d. rewrite Ho. eauto 10.
    + right. split; [done|]. exists sv, part.1.1, part.1.2, part.2. split_and!; [done|lia|lia|lia|]. exists key. by rewrite Ho.
Qed.

Lemma pfold_keeps {A B} (I : world S → Prop) (f : A → B → proc (world S) B) (l : list A) b :
  (∀ a b, a ∈ l → keeps I (f a b)) → keeps I (pfold f l b).
Proof.
  revert b. induction l as [|a l IH]; intros b Hf; cbn [pfold]; [apply keeps_ret|]. apply keeps_bind; [apply Hf; left|].
  intros b'. apply IH. intros a' b'' Ha. apply Hf. by right.
Qed.

Lemma partition_step_keeps env part c w0 : start_date <= part.2 <= end_date →
  keeps (promotes w0) (partition_step (Row := Row) cfg new_id enqueue_clock enqueue_faults has_metrics sha256_hex dw_metrics root pid scan scan_dirs env channel now part c).
Proof.
  intros Hd. unfold partition_step. apply keeps_bind.
  { apply pfold_keeps. intros hour acc _ w w' r Hw Hr. eapply promotes_grows; [exact Hw|]. by eapply hour_step_grows. }
  intros acc. apply keeps_bind; [intros w w' r Hw Hr; eapply promotes_grows; [exact Hw|]; by eapply day_step_grows|].
  intros acc' w w' r Hw Hr. by eapply reclaim_step_promotes.
Qed.
End historical_lemmas.

(** *** Backfill *)

(** Names of a tree start with a slash. *)
Definition absolute (fs : gmap string bytes) : Prop := ∀ k, is_Some (fs !! k) → startswith "/" k = true.

Lemma fs_name_components k : startswith "/" k = true → fs_name (components k) = k.
Proof.
  intros Hk. destruct k as [|c k]; [done|].
  assert (c = slash) as ->.
  { apply prefix_split in Hk as [t Ht]. by injection Ht. }
  unfold components. cbn [split_slash]. rewrite Ascii.eqb_refl. cbn [List.tl]. unfold fs_name. by rewrite join_split.
Qed.

Section segments.
Context (root : path).
Implicit Types (fs : gmap string bytes) (seg : path).

(** Segments of the loop: sealed paths that their names give back *)
Definition sealed_path (seg : path) : Prop := is_sealed (path_name seg) = true ∧ components (fs_name seg) = seg.

Lemma frozen_segments_spec exchange channel fs seg :
  seg ∈ iter_frozen_segments (root ++ ["wal"]) exchange channel fs ↔
  (∃ sym date f, seg = (root ++ ["wal"; exchange; channel; sym; date; f]) ∧ endswith ".ndjson.sealed" f = true) ∧
  (∃ k, is_Some (fs !! k) ∧ components k = seg) ∧ no_marker fs seg = true.
Proof.
  unfold iter_frozen_segments. rewrite list_elem_of_In, List.filter_In, <- list_elem_of_In, sort_le_perm, list_elem_of_omap.
  assert (∀ k, frozen_segment ((root ++ ["wal"]) ++ [exchange; channel]) k = Some seg ↔
    (∃ sym date f, seg = root ++ ["wal"; exchange; channel; sym; date; f] ∧ endswith ".ndjson.sealed" f = true) ∧ components k = seg) as Hs.
  { intros k. unfold frozen_segment. destruct (relative_to _ _) as [rel|e] eqn:Hr.
    - apply relative_to_ok in Hr. split.
      + destruct rel as [|sym [|date [|f [|? ?]]]]; try done. destruct (endswith _ f) eqn:Hf; [|done]. intros [= <-].
        rewrite Hr, <- !app_assoc. eauto 10.
      + intros [(sym&date&f&->&Hf) Hc]. rewrite Hc, <- !app_assoc in Hr. apply app_inv_head in Hr. cbn [app] in Hr. injection Hr as <-.
        by rewrite Hf, <- !app_assoc.
    - split; [done|]. intros [(sym&date&f&->&Hf) Hc]. rewrite Hc in Hr.
      rewrite (proj2 (relative_to_ok _ _ [sym; date; f])) in Hr; [done|]. by rewrite <- !app_assoc. }
  unfold names. split.
  - intros [(k&([k' b]&->&Hb%elem_of_map_to_list)%list_elem_of_fmap&[Hshape Hc]%Hs) Hm]. split; [done|]. split; [|done]. exists k'. split; [by exists b|done].
  - intros (Hshape&(k&[b Hb]&Hc)&Hm). split; [|done]. exists k. split; [|by apply Hs].
    apply list_elem_of_fmap. exists (k, b). split; [done|]. by apply elem_of_map_to_list.
Qed.

Lemma sealed_name_path sym date f exchange channel : endswith ".ndjson.sealed" f = true →
  is_sealed (path_name (root ++ ["wal"; exchange; channel; sym; date; f])) = true.
Proof.
  intros Hf. unfold path_name. change ["wal"; exchange; channel; sym; date; f] with (["wal"; exchange; channel; sym; date] ++ [f]).
  rewrite app_assoc, last_snoc. cbn [default from_option id]. unfold is_sealed. rewrite Hf. cbn [andb].
  apply endswith_app_iff in Hf as [u ->]. unfold endswith. by rewrite string_rev_app.
Qed.

Lemma marker_names_differ seg seg' : sealed_path seg → sealed_path seg' → seg ≠ seg' → fs_name (marker_path seg) ≠ fs_name (marker_path seg').
Proof.
  intros [Hs Hc] [Hs' Hc'] Hne. destruct (sealed_last _ Hs) as (_&_&->). destruct (sealed_last _ Hs') as (_&_&->).
  intros Heq%string_app_inj_r. apply Hne. by rewrite <- Hc, <- Hc', Heq.
Qed.

Definition unmarked fs (segs : list path) : Z := Z.of_nat (length (List.filter (no_marker fs) segs)).

Lemma unmarked_frame fs fs' segs : (∀ seg, seg ∈ segs → fs' !! fs_name (marker_path seg) = fs !! fs_name (marker_path seg)) →
  unmarked fs' segs = unmarked fs segs.
Proof.
  intros Hf. unfold unmarked. f_equal. f_equal. apply List.filter_ext_in. intros seg Hin%list_elem_of_In. unfold no_marker. by rewrite Hf.
Qed.

End segments.

Section backfill_lemmas.
Context {S : Type} `{S3Laws S} {Row : Type} `{TablesLaws Row}.
Context (cfg : rq_config) (new_id : nat → string) (enqueue_clock : nat → Z * Z)
        (enqueue_faults : nat → option exn * option exn) (has_metrics : bool) (sha256_hex : bytes → string).
Context (yaml_dump : BackfillManifest → string) (root : path).
Context (env : path → segment_env) (manifest_mkdir manifest_write : option exn).
Implicit Types (w : world S) (fs : gmap string bytes).
Local Notation backfill_one := (backfill_one (Row := Row) cfg new_id enqueue_clock enqueue_faults has_metrics sha256_hex root env).

(** One segment: files whose names end as those of segments and markers *)
Lemma backfill_one_inv seg acc w w' r : is_sealed (path_name seg) = true → no_marker (w_fs w) seg = true → backfill_one seg acc w = (w', r) →
  (∀ k, last_char k = Some "d"%char → k ≠ fs_name (marker_path seg) → w_fs w' !! k = w_fs w !! k) ∧
  ∃ acc', r = Ok acc' ∧ bp_processed acc' + (if no_marker (w_fs w') seg then 1 else 0) = bp_processed acc + 1.
Proof.
  intros Hs Hm. unfold Historical.backfill_one. destruct (compact_segment _ _ _ _ _ _ _ _ _ _ _ _ _ _ w) as [w1 o] eqn:Hc.
  apply compact_segment_inv in Hc as [Hframe Hpost]; [|done].
  assert (∀ k, last_char k = Some "d"%char → k ≠ fs_name (marker_path seg) → w_fs w1 !! k = w_fs w !! k) as Hf.
  { intros k Hk Hne. apply Hframe; [done| |intros q ->; by rewrite dir_name_last in Hk]. intros m p Hp. split.
    - intros Hx%scratch_last. rewrite Hk in Hx. naive_solver.
    - intros ->. apply l1_path_last in Hp. by rewrite Hp in Hk. }
  unfold no_marker in *. destruct o as [p|e].
  - destruct Hpost as [[b Hb] _]. destruct (w_fs w1 !! fs_name seg) as [body|]; intros [= <- <-];
      (split; [exact Hf|]); (eexists; split; [reflexivity|]); cbn [bp_processed]; rewrite Hb; lia.
  - intros [= <- <-]. split; [exact Hf|]. eexists. split; [reflexivity|]. cbn [bp_processed]. rewrite Hpost. destruct (w_fs w !! _); [done|lia].
Qed.

Lemma backfill_loop_inv segs acc w w' r : NoDup segs → Forall sealed_path segs → Forall (λ seg, no_marker (w_fs w) seg = true) segs →
  pfold backfill_one segs acc w = (w', r) →
  (∀ k, last_char k = Some "d"%char → (∀ seg, seg ∈ segs → k ≠ fs_name (marker_path seg)) → w_fs w' !! k = w_fs w !! k) ∧
  ∃ acc', r = Ok acc' ∧ bp_processed acc' + unmarked (w_fs w') segs = bp_processed acc + Z.of_nat (length segs).
Proof.
  revert acc w. induction segs as [|seg segs IH]; intros acc w Hnd Hs Hm; cbn [pfold].
  { intros [= <- <-]. split; [done|]. eexists. split; [reflexivity|]. unfold unmarked. simpl. lia. }
  apply NoDup_cons in Hnd as [Hnin Hnd]. apply Forall_cons in Hs as [Hs1 Hs]. apply Forall_cons in Hm as [Hm1 Hm].
  unfold pbind at 1. destruct (backfill_one seg acc w) as [w1 o] eqn:Hone.
  apply backfill_one_inv in Hone as [Hf1 (acc1&->&Hacc1)]; [|apply Hs1|done].
  assert (∀ seg', seg' ∈ segs → fs_name (marker_path seg') ≠ fs_name (marker_path seg) ∧ last_char (fs_name (marker_path seg')) = Some "d"%char) as Hother.
  { intros seg' Hin. pose proof (proj1 (Forall_forall _ _) Hs _ Hin) as Hs'. split; [|by apply marker_last, Hs'].
    apply marker_names_differ; [done|done|]. by intros ->. }
  intros Hrun. apply IH in Hrun as [Hf (acc'&->&Hacc')]; [|done|done|].
  2: { apply Forall_forall. intros seg' Hin. pose proof (proj1 (Forall_forall _ _) Hm _ Hin) as Hm'. simpl in Hm'.
       unfold no_marker in *. by rewrite Hf1 by (by apply Hother). }
  split.
  - intros k Hk Hne. rewrite Hf, Hf1; [done|done|by apply Hne; left|done|]. intros seg' Hin. apply Hne. by right.
  - exists acc'. split; [done|]. assert (no_marker (w_fs w') seg = no_marker (w_fs w1) seg) as Heq.
    { unfold no_marker. rewrite Hf; [done|by apply marker_last, Hs1|]. intros seg' Hin. apply not_eq_sym. by apply Hother. }
    unfold unmarked in *. cbn [List.filter length]. rewrite Heq. destruct (no_marker (w_fs w1) seg); cbn [length]; lia.
Qed.
End backfill_lemmas.

Section frozen.
Context (root : path).
Implicit Types (fs : gmap string bytes) (seg : path).
Notation frozen := (iter_frozen_segments (root ++ ["wal"])).

Lemma sealed_not_marker k seg : endswith ".sealed" k = true → is_sealed (path_name seg) = true →
  last_char k = Some "d"%char ∧ k ≠ fs_name (marker_path seg).
Proof.
  intros [u ->]%endswith_app_iff (_&_&->)%sealed_last. split; [by rewrite last_char_app|].
  intros Heq%(f_equal string_rev). rewrite !string_rev_app in Heq. done.
Qed.

Lemma frozen_sealed exchange channel fs seg : absolute fs → seg ∈ frozen exchange channel fs → sealed_path seg ∧ no_marker fs seg = true.
Proof.
  intros Habs ((sym&date&f&->&Hf)&(k&Hk&Hc)&Hm)%frozen_segments_spec. split; [|done]. split; [by apply sealed_name_path|].
  rewrite <- Hc. by rewrite fs_name_components by (by apply Habs).
Qed.

Lemma frozen_NoDup exchange channel fs : absolute fs → NoDup (frozen exchange channel fs).
Proof.
  intros Habs. unfold iter_frozen_segments. apply NoDup_ListNoDup, List.NoDup_filter, NoDup_ListNoDup. rewrite sort_le_perm.
  assert (∀ k, k ∈ names fs → startswith "/" k = true) as Hn.
  { unfold names. intros k ([k' b]&->&Hb%elem_of_map_to_list)%list_elem_of_fmap. apply Habs. by exists b. }
  assert (NoDup (names fs)) as Hnd by apply NoDup_fst_map_to_list.
  induction Hnd as [|k l Hk Hnd IH]; [constructor|]. cbn [omap list_omap].
  assert (NoDup (omap (frozen_segment ((root ++ ["wal"]) ++ [exchange; channel])) l)) as HIH by (apply IH; intros; apply Hn; by right).
  destruct (frozen_segment _ k) as [seg|] eqn:Hs; [|exact HIH]. constructor; [|exact HIH].
  intros (k'&Hk'&Hs')%list_elem_of_omap.
  assert (∀ k s, frozen_segment ((root ++ ["wal"]) ++ [exchange; channel]) k = Some s → components k = s) as Hc.
  { intros k0 s. unfold frozen_segment. destruct (relative_to _ _) as [rel|] eqn:Hr; [|done]. apply relative_to_ok in Hr.
    destruct rel as [|a [|b [|c [|? ?]]]]; try done. destruct (endswith _ c); [|done]. by intros [= <-]. }
  apply Hc in Hs as <-, Hs'. apply (f_equal fs_name) in Hs'.
  rewrite !fs_name_components in Hs' by (apply Hn; set_solver). by subst.
Qed.

(** A tree with the same sealed names has the same segments, but for the
    marked ones. *)
Lemma components_sealed k sym date f exchange channel :
  components k = root ++ ["wal"; exchange; channel; sym; date; f] → endswith ".ndjson.sealed" f = true → endswith ".sealed" k = true.
Proof.
  intros Hc [u ->]%endswith_app_iff. apply endswith_app_iff.
  assert (∃ y, k = y +:+ fs_name (components k)) as [y Hk].
  { pose proof (join_split k) as Hj. unfold components in *. destruct (split_slash k) as [|y l]; [by destruct root|]. cbn [List.tl] in *.
    exists y. rewrite <- Hj. unfold fs_name. destruct l; [by destruct root|done]. }
  change ["wal"; exchange; channel; sym; date; u +:+ ".ndjson.sealed"] with (["wal"; exchange; channel; sym; date] ++ [u +:+ ".ndjson.sealed"]) in Hc.
  rewrite Hk, Hc, app_assoc, fs_name_app by (by destruct root). cbn [slashed]. rewrite string_app_nil_r.
  exists (y +:+ fs_name (root ++ ["wal"; exchange; channel; sym; date]) +:+ "/" +:+ u +:+ ".ndjson").
  rewrite !string_app_assoc. cbn [String.append]. by rewrite ?string_app_assoc.
Qed.

Lemma frozen_next exchange channel fs fs' : absolute fs → (∀ k, endswith ".sealed" k = true → fs' !! k = fs !! k) →
  (∀ seg, no_marker fs' seg = true → is_sealed (path_name seg) = true → no_marker fs seg = true) →
  ∀ seg, seg ∈ frozen exchange channel fs' ↔ seg ∈ frozen exchange channel fs ∧ no_marker fs' seg = true.
Proof.
  intros Habs Hf Hm seg. rewrite !frozen_segments_spec. split.
  - intros ((sym&date&f&->&He)&(k&Hk&Hc)&Hno). split_and!; [eauto 10| | |done].
    + exists k. split; [|done]. rewrite <- Hf; [done|]. by eapply components_sealed.
    + apply Hm; [done|]. by apply sealed_name_path.
  - intros [((sym&date&f&->&He)&(k&Hk&Hc)&_) Hno]. split_and!; [eauto 10| |done]. exists k. split; [|done]. rewrite Hf; [done|].
    by eapply components_sealed.
Qed.
End frozen.

Section backfill_run.
Context {S : Type} `{S3Laws S} {Row : Type} `{TablesLaws Row}.
Context (cfg : rq_config) (new_id : nat → string) (enqueue_clock : nat → Z * Z)
        (enqueue_faults : nat → option exn * option exn) (has_metrics : bool) (sha256_hex : bytes → string).
Context (yaml_dump : BackfillManifest → string) (root : path).
Context (env : path → segment_env) (manifest_mkdir manifest_write : option exn).
Implicit Types (w : world S).
Notation frozen := (iter_frozen_segments (root ++ ["wal"])).
(** The manifest and its directories *)
Definition manifest_name (k : string) : Prop := last_char k = Some slash ∨ last_char k = Some "l"%char.

Lemma write_manifest_keeps m p w0 : manifest_name (fs_name p) →
  keeps (files_but manifest_name w0) (write_manifest (S := S) yaml_dump manifest_mkdir manifest_write m p).
Proof.
  intros Hp. unfold write_manifest. apply keeps_bind; [|intros _].
  - destruct manifest_mkdir; [apply keeps_raise|]. apply set_fs_keeps. intros fs k Hk. apply add_dirs_lookup. intros q ->.
    apply Hk. left. apply dir_name_last.
  - destruct manifest_write; [apply keeps_bind; [by apply insert_keeps|intros; apply keeps_raise]|by apply insert_keeps].
Qed.

(** What follows the loop *)
Notation manifest_path_of manifest_path exchange channel :=
  (match manifest_path with
   | Some p => pret p
   | None => match manifest_mkdir with
             | Some e => praise e
             | None => pbind (set_fs (add_dirs (root ++ ["audit"]))) (λ _,
                 pret ((root ++ ["audit"]) ++ ["backfill-manifest-" +:+ exchange +:+ "-" +:+ channel +:+ ".yaml"]))
             end
   end).

Lemma manifest_tail m manifest_path exchange channel w0 : (∀ p, manifest_path = Some p → manifest_name (fs_name p)) →
  keeps (files_but manifest_name w0)
    (pbind (manifest_path_of manifest_path exchange channel) (λ p, pbind (write_manifest (S := S) yaml_dump manifest_mkdir manifest_write m p) (λ _, pret m))).
Proof.
  intros Hname. eapply (keeps_answers _ _ _ (λ p, manifest_name (fs_name p))).
  - destruct manifest_path; [apply keeps_ret|]. destruct manifest_mkdir; [apply keeps_raise|]. apply keeps_bind; [|intros; apply keeps_ret].
    apply set_fs_keeps. intros fs k Hk. apply add_dirs_lookup. intros q ->. apply Hk. left. apply dir_name_last.
  - destruct manifest_path as [p|]; [apply answers_ret; by apply Hname|]. destruct manifest_mkdir; [by intros w w' a|].
    apply answers_bind. intros _. apply answers_ret. right. rewrite <- !string_app_assoc. by rewrite fs_name_snoc.
  - intros p Hp. apply keeps_bind; [by apply write_manifest_keeps|intros; apply keeps_ret].
Qed.

Lemma manifest_tail_answers m (pm : proc (world S) path) w w' m' :
  pbind pm (λ p, pbind (write_manifest (S := S) yaml_dump manifest_mkdir manifest_write m p) (λ _, pret m)) w = (w', Ok m') → m' = m.
Proof.
  intros Hr. assert (answers (pbind pm (λ p, pbind (write_manifest (S := S) yaml_dump manifest_mkdir manifest_write m p) (λ _, pret m))) (λ a, a = m)) as Ha; [|by eapply Ha].
  apply answers_bind. intros p. apply answers_bind. intros _. by apply answers_ret.
Qed.

(** After the loop: the manifest, with the loop's counts *)
Lemma backfill_run_inv exchange channel manifest_path w w' r :
  absolute (w_fs w) → (∀ p, manifest_path = Some p → endswith ".yaml" (fs_name p) = true) →
  run_backfill (Row := Row) cfg new_id enqueue_clock enqueue_faults has_metrics sha256_hex yaml_dump root env manifest_mkdir manifest_write
    exchange "L1" channel manifest_path w = (w', r) →
  let segs := frozen exchange channel (w_fs w) in
  (∀ k, endswith ".sealed" k = true → w_fs w' !! k = w_fs w !! k) ∧
  (∀ seg, is_sealed (path_name seg) = true → (∀ seg', seg' ∈ segs → fs_name (marker_path seg) ≠ fs_name (marker_path seg')) →
     w_fs w' !! fs_name (marker_path seg) = w_fs w !! fs_name (marker_path seg)) ∧
  (∀ m, r = Ok m → bm_segment_count m = Z.of_nat (length segs) ∧ bm_l1_parquets_created m = bm_segments_processed m ∧
     bm_segments_processed m + unmarked (w_fs w') segs = bm_segment_count m).
Proof.
  intros Habs Hyaml. unfold run_backfill. cbn [String.eqb Ascii.eqb Bool.eqb negb]. unfold pbind at 1, tree_of. cbv zeta.
  set (segs := frozen exchange channel (w_fs w)).
  assert (∀ p, manifest_path = Some p → manifest_name (fs_name p)) as Hname.
  { intros p Hp. right. apply Hyaml, endswith_app_iff in Hp as [u ->]. by apply last_char_app. }
  assert (∀ seg, seg ∈ segs → sealed_path seg ∧ no_marker (w_fs w) seg = true) as Hsegs by (intros; by eapply frozen_sealed).
  assert (∀ k, last_char k = Some "d"%char → ¬ manifest_name k) as Hd by (intros k Hk [Hl|Hl]; by rewrite Hk in Hl).
  pose proof (frozen_NoDup root exchange channel _ Habs) as Hnd. fold segs in Hnd.
  clearbody segs. destruct segs as [|s0 rest].
  { intros Hrun. assert (files_but manifest_name w w') as (_&_&Hf).
    { revert Hrun. apply (keeps_bind (files_but manifest_name w)); [|intros; apply keeps_ret|apply files_but_refl].
      destruct manifest_path as [p|]; [apply write_manifest_keeps; by apply Hname|apply keeps_ret]. }
    split_and!; [|intros seg Hs _; apply Hf, Hd; by apply marker_last|].
    - intros k [u ->]%endswith_app_iff. apply Hf, Hd. by apply last_char_app.
    - intros m ->. revert Hrun. unfold pbind. destruct manifest_path as [p|]; [destruct (write_manifest _ _ _ _ _ w) as [? []]|]; by intros [= _ <-]. }
  set (segs := s0 :: rest) in *. unfold pbind at 1. destruct (pfold _ segs _ w) as [w1 o] eqn:Hloop.
  apply backfill_loop_inv in Hloop as [Hf1 (acc'&->&Hacc)]; [|done|apply Forall_forall; intros; by apply Hsegs..].
  intros Hrun. assert (files_but manifest_name w1 w') as (_&_&Hf) by (revert Hrun; by apply manifest_tail).
  assert (∀ k, last_char k = Some "d"%char → w_fs w' !! k = w_fs w1 !! k) as Hf' by (intros k Hk; by apply Hf, Hd).
  split_and!.
  - intros k Hk. assert (last_char k = Some "d"%char) as Hl by (apply endswith_app_iff in Hk as [u ->]; by apply last_char_app).
    rewrite Hf', Hf1; [done|done| |done]. intros seg Hin. apply sealed_not_marker; [done|]. by apply Hsegs.
  - intros seg Hs Hout. pose proof (marker_last _ Hs) as [Hl _]. rewrite Hf', Hf1; [done|done|exact Hout|done].
  - intros m ->. apply manifest_tail_answers in Hrun as ->. cbn [bm_segment_count bm_l1_parquets_created bm_segments_processed]. split_and!; [done|done|]. rewrite (unmarked_frame (w_fs w1)).
    + cbn [bp_processed] in Hacc. lia.
    + intros seg Hin. apply Hf'. by apply marker_last, Hsegs.
Qed.
End backfill_run.

(** ** Properties *)

(** Reclaiming a partition.  Whatever the faults, the store and the queue
    are as before; a file is touched only when the day lies before the forward
    window, neither sentinel is there, the store lists an object of the
    partition's L2 and an L2 directory exists locally; then only part files
    below the partition's L1 directory go, and its sentinel comes.  Every
    outcome but [ok] leaves the files as they were; [ok] without errors means
    that no part file is left and that the sentinel stands. *)
Theorem reclaim_contract {S} `{S3Laws S} root scan scan_dirs faults ex sym ch d now (w w' : world S) r :
  (∀ l, scan l ≡ₚ l) →
  reclaim_partition_l1_local root scan scan_dirs faults ex sym ch d now w = (w', r) →
  let dir := l1_date_dir root scan_dirs ex sym ch (isoformat d) (ver ch) (w_fs w) in
  objects w' = objects w ∧ w_rq w' = w_rq w ∧
  (w_fs w' ≠ w_fs w → d < now - 1 ∧ w_fs w !! fs_name (promoted_sentinel dir) = None ∧ w_fs w !! fs_name (forward_sentinel dir) = None ∧
     partition_dirs root ch "L2" ex sym (isoformat d) (w_fs w) ≠ [] ∧
     ∃ key, startswith (flat_prefix "L2" ch (ver ch) ex sym (isoformat d)) key = true ∧ is_Some (objects w !! key)) ∧
  (∀ k, ¬ sentinel_names dir k → w_fs w' !! k = w_fs w !! k ∨ part_below dir k = true ∧ w_fs w' !! k = None) ∧
  (∀ o, r = Ok o → ro_outcome o ≠ reclaim_ok → w_fs w' = w_fs w ∧ ro_files_unlinked o = 0) ∧
  (∀ o, r = Ok o → ro_outcome o = reclaim_ok → ro_errors o = [] →
     is_Some (w_fs w' !! fs_name (promoted_sentinel dir)) ∧ ∀ k, part_below dir k = true → w_fs w' !! k = None).
Proof.
  intros Hscan Hrun dir. apply reclaim_inv in Hrun as [[(Ho&Hq&Hf) Hr]|[Hc (Ho&Hq&Hf&Hr)]]; [| |done].
  - unfold same_files in Hf. split_and!; [done|done|done|intros k _; left; by rewrite Hf| |].
    + intros o Hok _. split; [done|]. by apply Hr.
    + intros o Hok Hout. by destruct (Hr o Hok).
  - split_and!; [done|done|intros _; exact Hc|exact Hf| |].
    + intros o Hok Hout. by destruct (Hr o Hok).
    + intros o Hok _ He. by destruct (Hr o Hok) as [_ ?]; auto.
Qed.

(** C23.  The historical promotion loses no L1 file that is not promoted: in
    every outcome, faults and the store's answers included, an L1 part file is
    as it was, or it is gone and then it belongs to a day of the requested
    range before the forward window and the store holds an object of that
    partition's L2; objects never disappear.  A range that reaches the forward
    window is refused and changes nothing. *)
Theorem historical_removes_only_promoted {S} `{S3Laws S} {Row} `{!Parquet Row} cfg new_id clock qfaults has_metrics sha256_hex dw_metrics
    root pid scan scan_dirs env start_date end_date now exchange channel (w w' : world S) r :
  (∀ l, scan l ≡ₚ l) → (∀ l, scan_dirs l ≡ₚ l) →
  run_historical_promotion (Row := Row) cfg new_id clock qfaults has_metrics sha256_hex dw_metrics root pid scan scan_dirs env
    start_date end_date now exchange channel w = (w', r) →
  (now - 1 <= end_date → w' = w ∧ r = Raise ValueError) ∧
  (∀ k, is_Some (objects w !! k) → is_Some (objects w' !! k)) ∧
  ∀ k, l1_part root k → w_fs w' !! k = w_fs w !! k ∨ w_fs w' !! k = None ∧
    ∃ sv ex sym d, part_below (partition_dir root channel sv "L1" ex sym (isoformat d)) k = true ∧
      start_date <= d <= end_date ∧ d < now - 1 ∧
      ∃ key, startswith (flat_prefix "L2" channel (ver channel) ex sym (isoformat d)) key = true ∧ is_Some (objects w' !! key).
Proof.
  intros Hscan Hdirs. unfold run_historical_promotion. destruct (now - 1 <=? end_date) eqn:Hn.
  { intros [= <- <-]. split_and!; [done|done|by left]. }
  py_bool. unfold pbind, tree_of. intros Hrun. split; [lia|].
  assert (promotes root channel start_date end_date now w w) as Hrefl by (split; [done|by left]).
  assert (promotes root channel start_date end_date now w w') as Hp; [|exact Hp].
  revert Hrefl Hrun. apply pfold_keeps. intros part c Hpart%discovered_in_range. by apply partition_step_keeps.
Qed.

(** A backfill can be repeated: no sealed segment changes; the manifest
    counts exactly the segments that are marked afterwards; and a later run
    takes those of this run's snapshot that were left without a marker. *)
Theorem backfill_resumes {S} `{S3Laws S} {Row} `{TablesLaws Row} cfg new_id clock qfaults has_metrics sha256_hex yaml_dump root env
    manifest_mkdir manifest_write exchange channel manifest_path (w w' : world S) r :
  absolute (w_fs w) → (∀ p, manifest_path = Some p → endswith ".yaml" (fs_name p) = true) →
  run_backfill (Row := Row) cfg new_id clock qfaults has_metrics sha256_hex yaml_dump root env manifest_mkdir manifest_write
    exchange "L1" channel manifest_path w = (w', r) →
  let segments := iter_frozen_segments (root ++ ["wal"]) exchange channel (w_fs w) in
  (∀ k, endswith ".sealed" k = true → w_fs w' !! k = w_fs w !! k) ∧
  (∀ seg, seg ∈ iter_frozen_segments (root ++ ["wal"]) exchange channel (w_fs w') ↔ seg ∈ segments ∧ no_marker (w_fs w') seg = true) ∧
  (∀ m, r = Ok m → bm_segment_count m = Z.of_nat (length segments) ∧ bm_l1_parquets_created m = bm_segments_processed m ∧
     bm_segments_processed m + unmarked (w_fs w') segments = bm_segment_count m).
Proof.
  intros Habs Hyaml Hrun segments.
  destruct (backfill_run_inv cfg new_id clock qfaults has_metrics sha256_hex yaml_dump root env manifest_mkdir manifest_write
    exchange channel manifest_path w w' r Habs Hyaml Hrun) as (Hf&Hm&Hr). fold segments in Hf, Hm, Hr.
  assert (∀ seg, no_marker (w_fs w') seg = true → is_sealed (path_name seg) = true → no_marker (w_fs w) seg = true) as Hmark.
  { intros seg Hno Hs. unfold no_marker in *. destruct (decide (seg ∈ segments)) as [Hin|Hout].
    - by apply frozen_sealed in Hin as [_ Hin].
    - destruct (w_fs w !! fs_name (marker_path seg)) as [b|] eqn:Hb; [|done]. exfalso.
      rewrite Hm in Hno; [by rewrite Hb in Hno|done|]. intros seg' Hin Heq.
      apply frozen_sealed in Hin as [_ Hin]; [|done]. unfold no_marker in Hin. by rewrite <- Heq, Hb in Hin. }
  split_and!; [exact Hf|by apply frozen_next|exact Hr].
Qed.

(** *** Examples *)

Definition l2_key : string :=
  "market/transaction/schema_version=tick.v1/tier=L2/exchange=bithumb/symbol=KRW-BTC/date=1970-01-01/hour=05/part-0.parquet".
(** A partition of 1 January 1970 with its L2 file, also in the store *)
Definition promoted_world (l1 : string) : world mem_s3 :=
  World (MemS3 {[ l2_key := Object "A" None ]} []) None 0 {[ l1_file_name := l1; "/d/" +:+ l2_key := "A" ]} [].
Notation example_reclaim w := (reclaim_partition_l1_local ["d"] id id no_reclaim_faults "bithumb" "KRW-BTC" "transaction" 0 5 w).
Definition calm_partition : partition_env := PartitionEnv (λ _, calm) calm no_reclaim_faults.
Notation example_historical last w := (run_historical_promotion (Row := ascii) RetryQueue.example_config example_ids example_clock no_faults true
  example_digest true ["d"] "1" id id (λ _, calm_partition) 0 last 5 None "transaction" w).
Notation example_backfill w := (run_backfill (Row := ascii) RetryQueue.example_config example_ids example_clock no_faults true example_digest
  (λ m, bm_exchange m) ["d"] (λ _, SegmentEnv "r" 0 no_l1_faults no_dw_faults) None None "bithumb" "L1" "transaction" None w).

Lemma reclaim_contract_witness :
  let run := example_reclaim (promoted_world "AF") in
  run.2 = Ok (MkReclaim reclaim_ok 1 2 []) ∧ w_fs run.1 !! l1_file_name = None ∧ 0 < 5 - 1 ∧
  is_Some (w_fs run.1 !! fs_name (promoted_sentinel (partition_dir ["d"] "transaction" "schema_version=tick.v1" "L1" "bithumb" "KRW-BTC" "1970-01-01"))).
Proof.
  intros run. split; [vm_compute; reflexivity|].
  destruct (reclaim_contract ["d"] id id no_reclaim_faults "bithumb" "KRW-BTC" "transaction" 0 5 (promoted_world "AF") run.1 run.2
    ltac:(done) (surjective_pairing _)) as (_&_&Hcond&_&_&Hok).
  assert (w_fs run.1 !! l1_file_name = None) as Hnone by (vm_compute; reflexivity).
  split; [exact Hnone|]. split.
  - apply Hcond. intros Heq. rewrite Heq in Hnone. vm_compute in Hnone. discriminate Hnone.
  - eapply Hok; [vm_compute; reflexivity|reflexivity|reflexivity].
Defined.

Lemma historical_removes_only_promoted_witness :
  let run := example_historical 0 (local_world ∅) in
  (∃ c, run.2 = Ok c ∧ dget c "l1_reclaim_ok" = Some 1 ∧ dget c "l2_compacted" = Some 24) ∧ w_fs run.1 !! l1_file_name = None ∧
  ∃ sv ex sym d key, part_below (partition_dir ["d"] "transaction" sv "L1" ex sym (isoformat d)) l1_file_name = true ∧
    0 <= d <= 0 ∧ startswith (flat_prefix "L2" "transaction" (ver "transaction") ex sym (isoformat d)) key = true ∧ is_Some (objects run.1 !! key).
Proof.
  intros run. split; [eexists; split; [vm_compute; reflexivity|split; vm_compute; reflexivity]|].
  assert (w_fs run.1 !! l1_file_name = None) as Hnone by (vm_compute; reflexivity). split; [exact Hnone|].
  destruct (historical_removes_only_promoted (Row := ascii) RetryQueue.example_config example_ids example_clock no_faults true example_digest true
    ["d"] "1" id id (λ _, calm_partition) 0 0 5 None "transaction" (local_world ∅) run.1 run.2 ltac:(done) ltac:(done) (surjective_pairing _)) as (_&_&Hf).
  destruct (Hf l1_file_name) as [Hk|(_&sv&ex&sym&d&Hb&Hd&_&key&Hkey&Hs)].
  - exists "transaction", "tick.v1", "bithumb", "KRW-BTC", "1970-01-01". split; reflexivity.
  - exfalso. rewrite Hnone in Hk. vm_compute in Hk. discriminate Hk.
  - exists sv, ex, sym, d, key. auto.
Defined.

Lemma backfill_resumes_witness :
  let run := example_backfill (log_world []) in
  (∃ m, run.2 = Ok m ∧ bm_segments_processed m = 1) ∧
  iter_frozen_segments ["d"; "wal"] "bithumb" "transaction" (w_fs (log_world [])) = [example_sealed] ∧
  ¬ example_sealed ∈ iter_frozen_segments ["d"; "wal"] "bithumb" "transaction" (w_fs run.1).
Proof.
  intros run. split; [eexists; split; [vm_compute; reflexivity|reflexivity]|]. split; [vm_compute; reflexivity|].
  destruct (backfill_resumes (Row := ascii) RetryQueue.example_config example_ids example_clock no_faults true example_digest
    (λ m, bm_exchange m) ["d"] (λ _, SegmentEnv "r" 0 no_l1_faults no_dw_faults) None None "bithumb" "transaction" None
    (log_world []) run.1 run.2) as (_&Hnext&_).
  - intros k [b Hk]. cbn [w_fs log_world example_world1] in Hk. apply lookup_singleton_Some in Hk as [<- _]. reflexivity.
  - done.
  - apply surjective_pairing.
  - intros [_ Hno]%Hnext. vm_compute in Hno. discriminate Hno.
Defined.

(** A quarantined merge is not an error of its partition.  Two L1 files that
    overlap in time are quarantined at every hour; an older L2 file is there,
    so the reclaim removes both L1 files, and no object holds their rows. *)
Definition overlapping : gmap string bytes :=
  {[ l1_file_name := "AC"; "/d/" +:+ l2_key := "A";
     "/d/market/transaction/schema_version=tick.v1/tier=L1/exchange=bithumb/symbol=KRW-BTC/date=1970-01-01/node=n2/part-1.parquet" := "BD" ]}.
Lemma quarantined_rows_are_reclaimed :
  let run := example_historical 0 (World (MemS3 {[ l2_key := Object "A" None ]} []) None 0 overlapping []) in
  (∃ c, run.2 = Ok c ∧ dget c "errors" = Some 0 ∧ dget c "skipped_no_l1" = Some 24 ∧ dget c "l1_reclaim_ok" = Some 1) ∧
  List.filter (part_below ["d"; "market"; "transaction"; "schema_version=tick.v1"; "tier=L1"]) (names (w_fs run.1)) = [] ∧
  (λ e, ob_body e.2) <$> map_to_list (objects run.1) = ["A"; "A"].
Proof. intros run. split; [eexists; split; [vm_compute; reflexivity|split_and!; vm_compute; reflexivity]|]. split; vm_compute; reflexivity. Qed.
