(* ===== verification/Barrier.v ===== *)
(** * The compaction barrier ([nas_storage/compaction_barrier.py])

    A signal file asks the compactor not to start new work; the barrier then
    polls the number of tasks in flight from a JSON file the compactor
    writes, until there is none or the time is over.  The signal is a file of
    the [world]; what each read of the compactor's file gives, and each
    reading of the monotonic clock (nanoseconds), are arguments, since other
    processes determine them. *)
From S2P Require Import Prelude PyDict Hoare PyDecimal PyFloat RetryQueue ObjectStore NasUploader NasKey DualWriter PyTime Ndjson DecimalText L1Rows.
From Stdlib Require Import Ascii.
Open Scope string_scope.
Open Scope list_scope.
Open Scope Z_scope.

Inductive barrier_status := barrier_ok | drain_timeout | barrier_violated.
#[export] Instance barrier_status_eq_dec : EqDecision barrier_status.
Proof. solve_decision. Defined.
(** [BarrierResult]; the wait in nanoseconds *)
Record BarrierResult := MkBarrierResult { br_status : barrier_status; br_drain_wait : Z; br_in_flight_remaining : Z }.

(** Errors of the signal file: its directory, its write (with what is left of
    it), its removal. *)
Record signal_faults := SignalFaults {
  sf_mkdir : option exn; sf_write : option exn; sf_partial : option bytes; sf_unlink : option exn }.
Definition no_signal_faults : signal_faults := SignalFaults None None None None.

(** ** The state file *)

(** Digits with single underscores between them *)
Fixpoint grouped_digits (s : string) : bool :=
  match s with
  | String c s' =>
      is_digit c && match s' with
                    | String "_" s'' => grouped_digits s''
                    | EmptyString => true
                    | _ => grouped_digits s'
                    end
  | EmptyString => false
  end.
Fixpoint without_underscores (s : string) : string :=
  match s with
  | String c s' => if Ascii.eqb c "_" then without_underscores s' else String c (without_underscores s')
  | EmptyString => ""
  end.
(** [int(text)], of ASCII text *)
Definition int_of_text (text : string) : res Z :=
  let '(sign, ds) := match strip_ws text with
    | String "-" s => (-1, s) | String "+" s => (1, s) | s => (1, s) end in
  if grouped_digits ds then Ok (sign * digits_value (without_underscores ds)) else Raise ValueError.

(** The double nearest to a decimal *)
Definition decimal_double (d : decimal) : double :=
  if 0 <=? expo d then int_div (coef d * 10 ^ expo d) 1 else int_div (coef d) (10 ^ (- expo d)).

(** [int(v)] of a value [json.loads] gives; its numbers with a fraction or an
    exponent are doubles. *)
Definition int_of_json (v : pyval) : res Z :=
  match v with
  | PInt z => Ok z
  | PBool b => Ok (Z.b2z b)
  | PDec d => match decimal_double d with S754_infinity _ => Raise (OtherException "OverflowError") | x => Ok (float_int x) end
  | PConst s => if String.eqb s "NaN" then Raise ValueError else Raise (OtherException "OverflowError")
  | PStr s => int_of_text s
  | _ => Raise TypeError
  end.

(** [int(state.get("in_flight_count", 0))] *)
Definition in_flight_of (content : string) : res Z :=
  rbind (decode_line content) (λ state,
  match state with
  | PDict d => int_of_json (default (PInt 0) (dget d "in_flight_count"))
  | _ => Raise (OtherException "AttributeError")
  end).

(** [_read_in_flight_count] of what reading the file gives *)
Definition read_in_flight_count (read : res string) : res Z :=
  match rbind read in_flight_of with
  | Raise FileNotFoundError | Raise ValueError | Raise KeyError => Ok 0
  | r => r
  end.

Section barrier.
Context {S : Type} `{S3 S} (drain_timeout_seconds : Z) (signal_path : path) (faults : signal_faults).
Local Notation proc := (proc (world S)).

Definition signal : string := fs_name signal_path.

(** [_emit_barrier_signal] *)
Definition emit_barrier_signal : proc unit :=
  match sf_mkdir faults, sf_write faults with
  | Some e, _ => praise e
  | None, Some e => pbind (match sf_partial faults with Some b => set_fs (<[signal := b]>) | None => pret tt end) (λ _, praise e)
  | None, None => set_fs (<[signal := "barrier_active"]>)
  end.

Definition signal_present : proc bool := λ w, (w, Ok (bool_decide (is_Some (w_fs w !! signal)))).

(** What the reads of the state file give, and the clock's readings *)
Context (reads : nat → res string) (clock : nat → Z).

(** The wait loop, from its [i]-th round on; a round reads the file once and
    the clock twice.  With too little fuel it gives up. *)
Fixpoint drain_wait (fuel i : nat) : res BarrierResult :=
  match fuel with
  | O => out_of_fuel
  | Datatypes.S fuel =>
      match read_in_flight_count (reads i) with
      | Raise e => Raise e
      | Ok n =>
          let elapsed := clock (2 + 2 * i)%nat - clock 0%nat in
          if n =? 0 then Ok (MkBarrierResult barrier_ok elapsed 0)
          else if clock 1%nat + drain_timeout_seconds * 10 ^ 9 <=? clock (3 + 2 * i)%nat
          then Ok (MkBarrierResult drain_timeout elapsed n)
          else drain_wait fuel (i + 1)
      end
  end.

(** [drain_and_block] *)
Definition drain_and_block (fuel : nat) : proc BarrierResult :=
  pbind emit_barrier_signal (λ _, plift (drain_wait fuel 0)).

(** [release]; an [OSError] is logged. *)
Definition release : proc unit :=
  match sf_unlink faults with
  | Some e => if is_OSError e then pret tt else praise e
  | None => set_fs (delete signal)
  end.

(** [verify_barrier_intact]; [read] is what its read of the state file gives *)
Definition verify_barrier_intact (read : res string) : proc BarrierResult :=
  pbind signal_present (λ present,
  pbind (plift (read_in_flight_count read)) (λ n,
  pret (if negb present || (0 <? n) then MkBarrierResult barrier_violated 0 n else MkBarrierResult barrier_ok 0 0))).
End barrier.

(** ** Lemmas *)

Section lemmas.
Context (timeout : Z) (reads : nat → res string) (clock : nat → Z).
Local Notation drain_wait := (drain_wait timeout reads clock).
Definition deadline : Z := clock 1%nat + timeout * 10 ^ 9.

(** The loop ends at the first round that finds no task, fails, or is past the
    deadline. *)
Definition goes_on (i : nat) : Prop := ∃ n, read_in_flight_count (reads i) = Ok n ∧ n ≠ 0 ∧ clock (3 + 2 * i)%nat < deadline.

Lemma drain_wait_inv fuel i r : drain_wait fuel i = r →
  r = out_of_fuel ∧ (∀ j, (i <= j < i + fuel)%nat → goes_on j) ∨
  ∃ j, (i <= j < i + fuel)%nat ∧ (∀ k, (i <= k < j)%nat → goes_on k) ∧
    match r with
    | Ok b => ∃ n, read_in_flight_count (reads j) = Ok n ∧ br_in_flight_remaining b = n ∧
        br_drain_wait b = clock (2 + 2 * j)%nat - clock 0%nat ∧
        (br_status b = barrier_ok ∧ n = 0 ∨ br_status b = drain_timeout ∧ n ≠ 0 ∧ deadline <= clock (3 + 2 * j)%nat)
    | Raise e => read_in_flight_count (reads j) = Raise e
    end.
Proof.
  revert i r. induction fuel as [|fuel IH]; intros i r; cbn [Barrier.drain_wait].
  { intros <-. left. split; [done|]. lia. }
  destruct (read_in_flight_count (reads i)) as [n|e] eqn:Hr.
  2: { intros <-. right. exists i. split_and!; [lia..|done]. }
  destruct (n =? 0) eqn:Hz; [|destruct (_ <=? _) eqn:Hd]; py_bool; intros Heq.
  - subst r. right. exists i. split_and!; [lia..|]. exists n. cbn [br_status br_drain_wait br_in_flight_remaining]. subst n. eauto 10.
  - subst r. right. exists i. split_and!; [lia..|]. exists n. cbn [br_status br_drain_wait br_in_flight_remaining]. split_and!; [done..|]. right. split_and!; [done|done|]. unfold deadline. lia.
  - assert (goes_on i) as Hi by (exists n; unfold deadline; split_and!; [done|done|lia]).
    apply IH in Heq as [[-> Hall]|(j&Hj&Hall&Hj')].
    + left. split; [done|]. intros j Hj. destruct (decide (j = i)) as [->|]; [done|]. apply Hall. lia.
    + right. exists j. split_and!; [lia..| |exact Hj']. intros k Hk. destruct (decide (k = i)) as [->|]; [done|]. apply Hall. lia.
Qed.

(** A clock that advances by the poll interval at each sleep reaches the
    deadline. *)
Lemma rounds_bounded poll fuel : 0 < poll → clock 1%nat <= clock 3%nat → (∀ i, clock (3 + 2 * i)%nat + poll <= clock (3 + 2 * (i + 1))%nat) →
  (∀ j, (j < fuel)%nat → goes_on j) → poll * (Z.of_nat fuel - 1) < Z.max (timeout * 10 ^ 9) 0 ∨ fuel = 0%nat.
Proof.
  intros Hp H0 Hc Hall. destruct fuel as [|fuel]; [by right|left].
  assert (∀ n, clock 3%nat + poll * Z.of_nat n <= clock (3 + 2 * n)%nat) as Hn.
  { induction n as [|n IH]; [simpl; lia|]. specialize (Hc n). rewrite Nat.add_1_r in Hc. lia. }
  destruct (Hall fuel) as (n&_&_&Hlt); [lia|]. specialize (Hn fuel). unfold deadline in Hlt. lia.
Qed.
End lemmas.

Lemma emit_signal_inv {S} `{S3 S} sp faults (w w' : world S) r : emit_barrier_signal sp faults w = (w', r) →
  objects w' = objects w ∧ same_queue w w' ∧ (∀ k, k ≠ signal sp → w_fs w' !! k = w_fs w !! k) ∧
  (r = Ok tt → w_fs w' !! signal sp = Some "barrier_active").
Proof.
  unfold emit_barrier_signal, pbind, set_fs.
  assert (∀ b k, k ≠ signal sp → <[signal sp := b]> (w_fs w) !! k = w_fs w !! k) as Hk by (intros b k Hne; by rewrite lookup_insert_ne).
  destruct (sf_mkdir faults); [|destruct (sf_write faults); [destruct (sf_partial faults)|]]; intros [= <- <-]; split_and!; try done; try apply Hk.
  intros _. apply lookup_insert_eq.
Qed.

(** ** Properties *)

(** C33.  Draining.  If the clock advances by the poll interval between rounds,
    a number of rounds that covers the timeout always suffices: the call
    returns [ok] or [drain_timeout] or raises what a read of the state file
    raised, never [barrier_violated].  [ok] means that the last read counted
    no task and that the signal file is in place, so that the check of the
    barrier confirms it as long as no task is counted; [drain_timeout] that the
    deadline had passed with tasks left (where the caller has to release; see
    [timeout_leaves_signal]).  In every round before there were tasks and time.
    After either answer [release] takes the signal away, and nothing but the
    signal file ever changes. *)
Theorem drain_and_block_contract {S} `{S3 S} timeout sp faults reads clock poll fuel (w w' : world S) r :
  0 < poll → clock 1%nat <= clock 3%nat → (∀ i, clock (3 + 2 * i)%nat + poll <= clock (3 + 2 * (i + 1))%nat) →
  Z.max (timeout * 10 ^ 9) 0 <= poll * (Z.of_nat fuel - 1) → (0 < fuel)%nat →
  drain_and_block timeout sp faults reads clock fuel w = (w', r) →
  objects w' = objects w ∧ w_rq w' = w_rq w ∧ (∀ k, k ≠ signal sp → w_fs w' !! k = w_fs w !! k) ∧
  match r with
  | Ok b =>
      (∃ j n, read_in_flight_count (reads j) = Ok n ∧ br_in_flight_remaining b = n ∧
        (br_status b = barrier_ok ∧ n = 0 ∧ w_fs w' !! signal sp = Some "barrier_active" ∧
           (∀ read, read_in_flight_count read = Ok 0 → verify_barrier_intact sp read w' = (w', Ok (MkBarrierResult barrier_ok 0 0))) ∨
         br_status b = drain_timeout ∧ n ≠ 0 ∧ deadline timeout clock <= clock (3 + 2 * j)%nat) ∧
        ∀ k, (k < j)%nat → goes_on timeout reads clock k) ∧
      (sf_unlink faults = None → ∃ w2, release sp faults w' = (w2, Ok tt) ∧ w_fs w2 !! signal sp = None ∧
        objects w2 = objects w ∧ w_rq w2 = w_rq w ∧ ∀ k, k ≠ signal sp → w_fs w2 !! k = w_fs w !! k)
  | Raise e => (sf_mkdir faults = Some e ∨ sf_write faults = Some e) ∨ ∃ j, read_in_flight_count (reads j) = Raise e
  end.
Proof.
  intros Hp H0 Hc Hfuel Hpos. unfold drain_and_block, pbind. destruct (emit_barrier_signal sp faults w) as [w1 o] eqn:He.
  pose proof He as He'. apply emit_signal_inv in He as (Ho&Hq&Hf&Hs). destruct o as [[]|e].
  - unfold plift. intros [= <- <-]. split_and!; [done..|]. specialize (Hs eq_refl).
    destruct (drain_wait_inv timeout reads clock fuel 0 _ eq_refl) as [[_ Hall]|(j&Hj&Hall&Hr)].
    { exfalso. destruct (rounds_bounded timeout reads clock poll fuel Hp H0 Hc) as [|]; [intros; apply Hall; lia|lia|lia]. }
    destruct (Barrier.drain_wait _ _ _ _ _) as [b|e]; [|by right; exists j]. split.
    + destruct Hr as (n&Hn&Hb&_&Hst). exists j, n. split_and!; [done|done| |intros k Hk; apply Hall; lia].
      destruct Hst as [[Hst ->]|Hst]; [left; split_and!; try done|by right]. intros read Hread.
      unfold verify_barrier_intact, pbind, signal_present, plift. rewrite Hread, Hs. done.
    + intros Hun. unfold release, set_fs. rewrite Hun. eexists. split; [done|]. cbn [w_fs w_rq objects]. split_and!; [apply lookup_delete_eq|done|done|].
      intros k Hk. cbn [w_fs]. rewrite lookup_delete_ne by done. by apply Hf.
  - intros [= <- <-]. split_and!; [done..|]. left. unfold emit_barrier_signal, pbind, set_fs in He'.
    destruct (sf_mkdir faults); [left; by injection He' as _ <-|].
    destruct (sf_write faults); [|done]. right. destruct (sf_partial faults); by injection He' as _ <-.
Qed.

(** What a reading of the barrier means: [ok] exactly when the signal is in
    place and the state file counts no task or fewer.  Nothing changes. *)
Lemma verify_barrier_spec {S} `{S3 S} sp read (w w' : world S) r : verify_barrier_intact sp read w = (w', r) →
  w' = w ∧ ∀ b, r = Ok b → (br_status b = barrier_ok ↔ is_Some (w_fs w !! signal sp) ∧ ∃ n, read_in_flight_count read = Ok n ∧ n <= 0) ∧
    br_status b ≠ drain_timeout.
Proof.
  unfold verify_barrier_intact, pbind, signal_present, plift. destruct (read_in_flight_count read) as [n|e]; [|by intros [= <- <-]].
  case_bool_decide as Hs; cbn [negb orb]; [destruct (0 <? n) eqn:Hn|]; intros [= <- <-]; (split; [done|]); intros b [= <-]; cbn [br_status]; py_bool.
  - split; [|done]. split; [done|]. intros [_ (m&[= <-]&?)]. lia.
  - split; [|done]. split; [|done]. intros _. split; [done|]. exists n. split; [done|lia].
  - split; [|done]. split; [done|]. by intros [? _].
Qed.

(** *** Examples *)

Definition in_flight_text (n : string) : string := "{" +:+ quoted "in_flight_count" +:+ ": " +:+ n +:+ "}".
(** A round takes a tenth of a second. *)
Definition example_poll : nat → Z := λ i, Z.of_nat i * 50000000.
Definition counts_then (n : nat) (i : nat) : res string :=
  Ok (if (i <? n)%nat then in_flight_text "2" else in_flight_text "0").
Definition barrier_world : world mem_s3 := World (MemS3 ∅ []) None 0 ∅ [].
Notation example_drain n timeout := (drain_and_block timeout ["d"; "signal"] no_signal_faults (counts_then n) example_poll 100 barrier_world).

Lemma drain_and_block_contract_witness :
  (example_drain 3 5).2 = Ok (MkBarrierResult barrier_ok 400000000 0) ∧
  ∃ w2, release ["d"; "signal"] no_signal_faults (example_drain 3 5).1 = (w2, Ok tt) ∧ w_fs w2 !! "/d/signal" = None.
Proof.
  split; [vm_compute; reflexivity|].
  destruct (drain_and_block_contract (S := mem_s3) 5 ["d"; "signal"] no_signal_faults (counts_then 3) example_poll 100000000 100
    barrier_world (example_drain 3 5).1 (Ok (MkBarrierResult barrier_ok 400000000 0))) as (_&_&_&_&Hrel).
  - lia.
  - unfold example_poll. lia.
  - intros i. unfold example_poll. lia.
  - lia.
  - lia.
  - vm_compute. reflexivity.
  - destruct (Hrel eq_refl) as (w2&H1&H2&_). exists w2. split; [exact H1|exact H2].
Defined.

(** After a timeout the signal stays, so the compactor starts no new work
    until somebody releases the barrier. *)
Lemma timeout_leaves_signal :
  (example_drain 100 5).2 = Ok (MkBarrierResult drain_timeout 5000000000 2) ∧
  w_fs (example_drain 100 5).1 !! "/d/signal" = Some "barrier_active".
Proof. split; vm_compute; reflexivity. Qed.

(** A torn or empty state file reads as no task in flight, a file that is not
    an object stops the call with an error. *)
Lemma torn_state_reads_as_idle :
  read_in_flight_count (Ok "") = Ok 0 ∧ read_in_flight_count (Ok (String.substring 0 20 (in_flight_text "2"))) = Ok 0 ∧
  read_in_flight_count (Ok "[2]") = Raise (OtherException "AttributeError").
Proof. split_and!; vm_compute; reflexivity. Qed.
