(* ===== verification/UnreachableSop.v ===== *)
(** * The procedure for an unreachable store ([ops/nas_unreachable_sop.py])

    One tick probes the store with a HEAD; a reachable store is drained into,
    an unreachable one moves the procedure, by backlog and by time, to the
    state that asks for an operator.  The retry queue is the one of the
    uploader ([w_rq]).  Clock readings are nanoseconds of the monotonic clock;
    the comparison in hours is exact.  Prometheus gauges are left out. *)
From S2P Require Import Prelude PyDict Hoare RetryQueue ObjectStore NasUploader.
Open Scope string_scope.
Open Scope list_scope.
Open Scope Z_scope.

Inductive SOPState := AUTO_RESUME | THRESHOLD_BREACHED | MANUAL_GATE.
#[export] Instance SOPState_eq_dec : EqDecision SOPState.
Proof. solve_decision. Defined.

(** The attributes that change *)
Record sop := MkSop {
  so_state : SOPState; so_unreachable_since : option Z; so_grace_extended : bool; so_grace_extension_id : Z }.
Definition initial_sop : sop := MkSop AUTO_RESUME None false 0.

Record sop_config := SopConfig { threshold_segments : Z; threshold_bytes : Z; manual_gate_after_hours : Z }.
Definition default_sop : sop_config := SopConfig 1000 (10 * 1024 ^ 3) 24.

(** Nanoseconds of the gate *)
Definition gate_after (cfg : sop_config) : Z := manual_gate_after_hours cfg * 3600 * 10 ^ 9.

(** [_check_threshold_breached], on the queue *)
Definition check_threshold_breached (cfg : sop_config) (q : rq) : bool :=
  (threshold_segments cfg <=? depth q true) || (threshold_bytes cfg <=? total_bytes q true).

(** [_emit_grace_extension] *)
Definition emit_grace_extension (s : sop) : sop :=
  if so_grace_extended s then s else MkSop (so_state s) (so_unreachable_since s) true (so_grace_extension_id s + 1).

Definition is_manual_gate (s : sop) : bool := bool_decide (so_state s = MANUAL_GATE).

Section sop.
Context {S : Type} `{S3 S}.
Context (rq_cfg : rq_config) (new_id : nat → string) (enqueue_clock : nat → Z * Z)
        (enqueue_faults : nat → option exn * option exn) (has_metrics : bool) (sha256_hex : bytes → string).
Context (cfg : sop_config).
Local Notation proc := (proc (world S)).

(** [_ping_nas] *)
Definition ping_nas : proc bool := λ w,
  match call_s3 (s3_head "__sop_ping__") w with
  | (w1, Ok _) => (w1, Ok true)
  | (w1, Raise (ClientError _)) => (w1, Ok true)
  | (w1, Raise _) => (w1, Ok false)
  end.

(** The queue; without one the attribute access raises. *)
Definition retry_queue : proc rq := λ w,
  match w_rq w with Some q => (w, Ok q) | None => (w, Raise (OtherException "AttributeError")) end.

(** [self._retry_queue.drain(self._uploader)] *)
Definition drain_queue (q : rq) : proc unit := λ w,
  let d := @drain (world S) (nas_uploader rq_cfg new_id enqueue_clock enqueue_faults has_metrics sha256_hex) q w in
  (World (w_s3 (ds_u d)) (Some (ds_q d)) (w_enqueues (ds_u d)) (w_fs (ds_u d)) (w_metrics (ds_u d)), Ok tt).

(** A tick with a reachable store *)
Definition recovered (s : sop) : proc sop :=
  pbind retry_queue (λ q,
  pbind (if negb (is_manual_gate s) && (0 <? depth q false) then drain_queue q else pret tt) (λ _,
  pret (MkSop AUTO_RESUME None false (so_grace_extension_id s)))).

(** A tick with an unreachable one *)
Definition unreachable (now : Z) (s : sop) : proc sop :=
  let s1 := match so_unreachable_since s with
            | None => emit_grace_extension (MkSop (so_state s) (Some now) (so_grace_extended s) (so_grace_extension_id s))
            | Some _ => s
            end in
  let duration := now - default now (so_unreachable_since s1) in
  pbind retry_queue (λ q,
  let st := if check_threshold_breached cfg q then THRESHOLD_BREACHED else so_state s1 in
  let st := if gate_after cfg <=? duration then MANUAL_GATE else st in
  pret (MkSop st (so_unreachable_since s1) (so_grace_extended s1) (so_grace_extension_id s1))).

(** [run_once] *)
Definition run_once (now : Z) (s : sop) : proc sop :=
  pbind ping_nas (λ nas_reachable, if nas_reachable : bool then recovered s else unreachable now s).
End sop.

(** ** Lemmas *)

Section sop_lemmas.
Context {S : Type} `{S3Laws S}.
Context (rq_cfg : rq_config) (new_id : nat → string) (enqueue_clock : nat → Z * Z)
        (enqueue_faults : nat → option exn * option exn) (has_metrics : bool) (sha256_hex : bytes → string).
Context (cfg : sop_config).
Implicit Types (w : world S) (s : sop) (q : rq).
Local Notation run_once := (run_once rq_cfg new_id enqueue_clock enqueue_faults has_metrics sha256_hex cfg).
Local Notation drain_queue := (drain_queue rq_cfg new_id enqueue_clock enqueue_faults has_metrics sha256_hex).

Lemma ping_nas_inv w w' r : ping_nas w = (w', r) → objects w' = objects w ∧ same_queue w w' ∧ same_files w w' ∧ ∃ b, r = Ok b.
Proof.
  unfold ping_nas. destruct (call_s3 _ w) as [w1 o] eqn:Hc. apply head_inv in Hc as (Ho&Hq&Hf&_).
  destruct o as [h|[]]; intros [= <- <-]; eauto.
Qed.

(** Rows of a queue are kept or stored. *)
Definition kept_or_stored (q : rq) w w' : Prop :=
  (∃ q', w_rq w' = Some q' ∧ ∀ r, r ∈ rq_rows q → r ∈ rq_rows q' ∨ stored_sha (w_s3 w') (r_key r) (r_sha256 r)) ∧
  ∀ key sha, stored_sha (w_s3 w) key sha → stored_sha (w_s3 w') key sha.

Lemma drain_queue_inv q w w' r : NoDup (r_id <$> rq_rows q) → drain_queue q w = (w', r) → kept_or_stored q w w' ∧ r = Ok tt.
Proof.
  intros Hnd [= <- <-]. cbn [w_rq w_s3].
  pose proof (@drain_safe (world S) (nas_uploader rq_cfg new_id enqueue_clock enqueue_faults has_metrics sha256_hex) _ q w Hnd) as [Hs _].
  split; [|done]. split; [eexists; split; [reflexivity|exact Hs]|]. intros key sha Hk.
  exact (@drain_mono (world S) (nas_uploader rq_cfg new_id enqueue_clock enqueue_faults has_metrics sha256_hex) _ q w key sha Hk).
Qed.

(** A tick in terms of what it saw *)
Definition sop_next (now : Z) (reachable breached : bool) (s : sop) : sop :=
  if reachable then MkSop AUTO_RESUME None false (so_grace_extension_id s) else
  let since := default now (so_unreachable_since s) in
  let fresh := match so_unreachable_since s with None => negb (so_grace_extended s) | Some _ => false end in
  MkSop (if gate_after cfg <=? now - since then MANUAL_GATE else if breached then THRESHOLD_BREACHED else so_state s)
    (Some since) (so_grace_extended s || fresh) (so_grace_extension_id s + Z.b2z fresh).

Lemma run_once_inv now s w w' r q : w_rq w = Some q → NoDup (r_id <$> rq_rows q) → run_once now s w = (w', r) →
  kept_or_stored q w w' ∧ ∃ reachable, (ping_nas w).2 = Ok reachable ∧ r = Ok (sop_next now reachable (check_threshold_breached cfg q) s).
Proof.
  intros Hq Hnd. unfold UnreachableSop.run_once, pbind at 1. destruct (ping_nas w) as [w1 o] eqn:Hp.
  apply ping_nas_inv in Hp as (Ho&Hq1&_&[b ->]). unfold same_queue in Hq1. rewrite Hq in Hq1.
  assert (∀ w2, w_rq w2 = Some q → objects w2 = objects w → kept_or_stored q w w2) as Hkeep.
  { intros w2 Hw2 Ho2. split; [exists q; split; [done|auto]|]. intros key sha (o&Hk&Hs). exists o. by rewrite Ho2. }
  destruct b; cbn [snd].
  - unfold recovered, pbind at 1, retry_queue. rewrite Hq1. destruct (negb _ && _).
    + unfold pbind. destruct (drain_queue q w1) as [w2 o] eqn:Hd. apply drain_queue_inv in Hd as [[Hk Hm] ->]; [|done].
      intros [= <- <-]. split; [|by exists true]. split; [exact Hk|]. intros key sha (o&Hk'&Hs). apply Hm. exists o. by rewrite Ho.
    + intros [= <- <-]. split; [by apply Hkeep|]. by exists true.
  - unfold unreachable, pbind, retry_queue. rewrite Hq1. intros [= <- <-]. split; [by apply Hkeep|]. exists false. split; [done|]. f_equal.
    destruct s as [st since ext gid]. unfold sop_next, emit_grace_extension. cbn [so_unreachable_since so_state so_grace_extended so_grace_extension_id].
    destruct since as [t|]; cbn [default from_option id so_unreachable_since so_state so_grace_extended so_grace_extension_id negb orb].
    + rewrite orb_false_r, Z.add_0_r. done.
    + destruct ext; cbn [so_unreachable_since so_state so_grace_extended so_grace_extension_id negb orb Z.b2z default from_option id]; f_equal; lia.
Qed.
End sop_lemmas.

(** ** The specification: outages *)

(** What a tick sees *)
Record tick_seen := TickSeen { ts_now : Z; ts_reachable : bool; ts_breached : bool }.

(** The ticks of the current outage *)
Definition outage (seen : list tick_seen) : list tick_seen :=
  foldl (λ acc t, if ts_reachable t then [] else acc ++ [t]) [] seen.
(** How many outages there were *)
Definition outages (seen : list tick_seen) : Z :=
  (foldl (λ acc t, (negb (ts_reachable t), if negb (ts_reachable t) && negb acc.1 then acc.2 + 1 else acc.2)) (false, 0) seen).2.

(** The state an outage calls for *)
Definition outage_state (cfg : sop_config) (out : list tick_seen) : SOPState :=
  match last out, head out with
  | Some t, Some first =>
      if gate_after cfg <=? ts_now t - ts_now first then MANUAL_GATE
      else if existsb ts_breached out then THRESHOLD_BREACHED else AUTO_RESUME
  | _, _ => AUTO_RESUME
  end.

(** The procedure as a step relation: between ticks the world changes as it
    likes. *)
Inductive sop_run {S : Type} `{S3 S} (rq_cfg : rq_config) (new_id : nat → string) (enqueue_clock : nat → Z * Z)
    (enqueue_faults : nat → option exn * option exn) (has_metrics : bool) (sha256_hex : bytes → string) (cfg : sop_config) :
    list tick_seen → sop → Prop :=
| sop_start : sop_run rq_cfg new_id enqueue_clock enqueue_faults has_metrics sha256_hex cfg [] initial_sop
| sop_tick seen s now w q w' s' reachable breached :
    sop_run rq_cfg new_id enqueue_clock enqueue_faults has_metrics sha256_hex cfg seen s →
    Forall (λ t, ts_now t <= now) seen →
    w_rq w = Some q → NoDup (r_id <$> rq_rows q) → (ping_nas w).2 = Ok reachable →
    check_threshold_breached cfg q = breached →
    run_once rq_cfg new_id enqueue_clock enqueue_faults has_metrics sha256_hex cfg now s w = (w', Ok s') →
    sop_run rq_cfg new_id enqueue_clock enqueue_faults has_metrics sha256_hex cfg
      (seen ++ [TickSeen now reachable breached]) s'.

Section refinement.
Context (cfg : sop_config).
Implicit Types (seen out : list tick_seen) (s : sop).

Lemma outage_snoc seen t : outage (seen ++ [t]) = if ts_reachable t then [] else outage seen ++ [t].
Proof. unfold outage. by rewrite foldl_snoc. Qed.

Definition outages_state (seen : list tick_seen) : bool * Z :=
  foldl (λ acc t, (negb (ts_reachable t), if negb (ts_reachable t) && negb acc.1 then acc.2 + 1 else acc.2)) (false, 0) seen.
Lemma outages_down seen : (outages_state seen).1 = match outage seen with [] => false | _ => true end.
Proof.
  induction seen as [|t seen IH] using rev_ind; [done|]. unfold outages_state. rewrite foldl_snoc, outage_snoc. cbn [fst].
  destruct (ts_reachable t); [done|]. by destruct (outage seen).
Qed.
Lemma outages_snoc seen t : outages (seen ++ [t]) =
  outages seen + (if ts_reachable t then 0 else match outage seen with [] => 1 | _ => 0 end).
Proof.
  unfold outages. rewrite foldl_snoc. cbn [snd]. pose proof (outages_down seen) as Hd. unfold outages_state in Hd. rewrite Hd.
  destruct (ts_reachable t); cbn [negb andb]; [lia|]. destruct (outage seen); cbn [negb]; lia.
Qed.

(** What a run keeps *)
Definition sop_inv seen s : Prop :=
  so_state s = outage_state cfg (outage seen) ∧
  so_unreachable_since s = ts_now <$> head (outage seen) ∧
  so_grace_extended s = match outage seen with [] => false | _ => true end ∧
  so_grace_extension_id s = outages seen.

Lemma outage_incl seen t : t ∈ outage seen → t ∈ seen.
Proof.
  induction seen as [|x seen IH] using rev_ind; [done|]. rewrite outage_snoc. destruct (ts_reachable x); [by intros ?%not_elem_of_nil|].
  rewrite !elem_of_app. intros [?%IH|?]; auto.
Qed.

(** The gate, once reached, stays during the outage. *)
Lemma outage_state_snoc out t : (∀ x, x ∈ out → ts_now x <= ts_now t) →
  outage_state cfg (out ++ [t]) =
  if gate_after cfg <=? ts_now t - default (ts_now t) (ts_now <$> head out) then MANUAL_GATE
  else if ts_breached t then THRESHOLD_BREACHED else outage_state cfg out.
Proof.
  intros Hle. unfold outage_state. rewrite last_snoc. destruct out as [|x out]; cbn [app hd_error head fmap option_fmap option_map default from_option id existsb].
  { destruct (gate_after cfg <=? _); [done|]. by destruct (ts_breached t). }
  destruct (gate_after cfg <=? ts_now t - ts_now x) eqn:Hg; [done|].
  rewrite existsb_app. cbn [existsb]. rewrite orb_false_r.
  destruct (last (x :: out)) as [y|] eqn:Hl.
  - assert (ts_now y <= ts_now t) by (apply Hle; apply last_Some in Hl as [l' ->]; set_solver).
    assert ((gate_after cfg <=? ts_now y - ts_now x) = false) as -> by (py_bool; lia).
    destruct (ts_breached t); [by rewrite !orb_true_r|]. by rewrite orb_false_r.
  - by apply last_None in Hl.
Qed.

Lemma sop_next_inv seen s t : Forall (λ x, ts_now x <= ts_now t) seen → sop_inv seen s →
  sop_inv (seen ++ [t]) (sop_next cfg (ts_now t) (ts_reachable t) (ts_breached t) s).
Proof.
  intros Hle (Hst&Hsince&Hext&Hid). unfold sop_inv, sop_next. rewrite outage_snoc, outages_snoc.
  destruct (ts_reachable t) eqn:Hr; [split_and!; [done|done|done|simpl; lia]|].
  cbn [so_state so_unreachable_since so_grace_extended so_grace_extension_id]. rewrite Hst, Hsince, Hext, Hid.
  rewrite outage_state_snoc by (intros x Hx; apply outage_incl in Hx; by apply (proj1 (Forall_forall _ _) Hle)).
  split_and!; [done|by destruct (outage seen)|by destruct (outage seen)|by destruct (outage seen)].
Qed.
End refinement.

(** ** Properties *)

(** C15.  The procedure refines its specification in terms of outages.  Over
    any sequence of ticks with a clock that does not go back, whatever happens
    to the queue and the store between them: the state is [MANUAL_GATE]
    exactly when the store has been unreachable at every tick since some tick
    at least [manual_gate_after_hours] before the last one, otherwise
    [THRESHOLD_BREACHED] exactly when the backlog was over a threshold at some
    tick of the outage, otherwise [AUTO_RESUME]; and the grace period has been
    extended once per outage. *)
Theorem sop_follows_outages {S : Type} `{S3Laws S} rq_cfg new_id clock faults has_metrics sha256_hex cfg (seen : list tick_seen) (s : sop) :
  sop_run rq_cfg new_id clock faults has_metrics sha256_hex cfg seen s →
  so_state s = outage_state cfg (outage seen) ∧
  so_unreachable_since s = ts_now <$> head (outage seen) ∧
  so_grace_extension_id s = outages seen.
Proof.
  intros Hrun. assert (sop_inv cfg seen s) as (?&?&?&?); [|done].
  induction Hrun as [|seen s now w q w' s' reachable breached Hrun IH Hle Hq Hnd Hp <- Ho]; [done|].
  apply (run_once_inv _ _ _ _ _ _ _ _ _ _ _ _ q) in Ho as (_&b&Hb&[= ->]); [|done..]. rewrite Hp in Hb. injection Hb as <-.
  by apply (sop_next_inv cfg seen s (TickSeen now reachable (check_threshold_breached cfg q))).
Qed.

(** A tick of the procedure loses nothing: whatever state it is in and
    whatever the store answers, it returns, every row of the queue is still
    queued or stored under its key with its digest, and no stored digest
    disappears. *)
Theorem sop_tick_loses_nothing {S : Type} `{S3Laws S} rq_cfg new_id clock faults has_metrics sha256_hex cfg now (s : sop) (q : rq)
    (w w' : world S) r :
  w_rq w = Some q → NoDup (r_id <$> rq_rows q) →
  run_once rq_cfg new_id clock faults has_metrics sha256_hex cfg now s w = (w', r) →
  (∃ s', r = Ok s') ∧
  (∃ q', w_rq w' = Some q' ∧ ∀ row, row ∈ rq_rows q → row ∈ rq_rows q' ∨ stored_sha (w_s3 w') (r_key row) (r_sha256 row)) ∧
  (∀ key sha, stored_sha (w_s3 w) key sha → stored_sha (w_s3 w') key sha).
Proof.
  intros Hq Hnd Hrun. apply (run_once_inv _ _ _ _ _ _ _ _ _ _ _ _ q) in Hrun as ([Hk Hm]&b&_&->); [|done..]. eauto.
Qed.

(** *** Examples *)

Definition hours (n : Z) : Z := n * 3600 * 10 ^ 9.
Notation example_once now s w := (run_once RetryQueue.example_config example_ids example_clock no_faults true (λ b, b) default_sop now s w).
Definition sop_world (script : list (option fault)) (q : rq) : world mem_s3 := World (MemS3 ∅ script) (Some q) 0 ∅ [].

Lemma example_queue_NoDup : NoDup (r_id <$> rq_rows example_queue).
Proof.
  vm_compute. apply NoDup_cons_2; [intros Hin; inversion Hin as [|? ? ? Hin']; inversion Hin'|].
  apply NoDup_cons_2; [intros Hin; inversion Hin|constructor].
Qed.

Lemma sop_follows_outages_witness :
  ∃ s2, sop_run (S := mem_s3) RetryQueue.example_config example_ids example_clock no_faults true (λ b, b) default_sop
    [TickSeen 0 false false; TickSeen (hours 24) false false] s2 ∧ so_state s2 = MANUAL_GATE ∧ so_grace_extension_id s2 = 1.
Proof.
  pose (w := sop_world [Some NetDown] example_queue). pose (down := MkSop AUTO_RESUME (Some 0) true 1).
  exists (MkSop MANUAL_GATE (Some 0) true 1).
  assert (sop_run (S := mem_s3) RetryQueue.example_config example_ids example_clock no_faults true (λ b, b) default_sop
    [TickSeen 0 false false; TickSeen (hours 24) false false] (MkSop MANUAL_GATE (Some 0) true 1)) as Hrun.
  - apply (sop_tick _ _ _ _ _ _ _ [TickSeen 0 false false] down (hours 24) w example_queue (example_once (hours 24) down w).1);
      [|repeat constructor; cbn; unfold hours; lia|reflexivity|exact example_queue_NoDup|vm_compute; reflexivity..].
    apply (sop_tick _ _ _ _ _ _ _ [] initial_sop 0 w example_queue (example_once 0 initial_sop w).1);
      [constructor|constructor|reflexivity|exact example_queue_NoDup|vm_compute; reflexivity..].
  - destruct (sop_follows_outages _ _ _ _ _ _ _ _ _ Hrun) as (Hs&_&Hid).
    split; [exact Hrun|]. split; [rewrite Hs|rewrite Hid]; vm_compute; reflexivity.
Defined.

Lemma sop_tick_loses_nothing_witness :
  let run := example_once 0 initial_sop (sop_world [] example_queue) in
  run.2 = Ok initial_sop ∧ ∃ q', w_rq run.1 = Some q' ∧ rq_rows q' = [] ∧
    ∀ row, row ∈ rq_rows example_queue → row ∈ rq_rows q' ∨ stored_sha (w_s3 run.1) (r_key row) (r_sha256 row).
Proof.
  intros run. split; [vm_compute; reflexivity|].
  destruct (sop_tick_loses_nothing RetryQueue.example_config example_ids example_clock no_faults true (λ b, b) default_sop 0 initial_sop example_queue
    (sop_world [] example_queue) run.1 run.2 eq_refl example_queue_NoDup (surjective_pairing _)) as (_&(q'&Hq'&Hrows)&_).
  exists q'. split; [exact Hq'|]. split; [|exact Hrows]. vm_compute in Hq'. injection Hq' as <-. reflexivity.
Defined.

(** The first tick that finds the store again after the gate does not drain:
    only the states before the gate do. *)
Lemma recovery_from_gate_skips_drain :
  let run := example_once (hours 30) (MkSop MANUAL_GATE (Some 0) true 1) (sop_world [] example_queue) in
  run.2 = Ok (MkSop AUTO_RESUME None false 1) ∧ w_rq run.1 = Some example_queue.
Proof. split; vm_compute; reflexivity. Qed.
