(* ===== verification/Window.v ===== *)
(** * A cycle of the dual-write window ([ops/dual_write_window_runner.py])

    One cycle takes a lock, asks the unreachability procedure for its state,
    drains the compactor behind the barrier, verifies every partition, judges
    the latency of the store against a baseline and cleans up.  The state of a
    cycle is the [world], the attributes of the runner and the locals of
    [run], which the clean-up reads also after an exception.  The answers of
    Prometheus, the partition list, the reads of the compactor's state file
    and the clocks are arguments.  Gauges and counters other than the status
    counter are left out. *)
From S2P Require Import Prelude PyDict Hoare PyDecimal PyFloat RetryQueue ObjectStore NasUploader NasKey DualWriter Invariants Wal PyTime Ndjson DecimalText L1Rows Barrier UnreachableSop.
From Stdlib Require Import Ascii.
Open Scope string_scope.
Open Scope list_scope.
Open Scope Z_scope.

(** ** Numbers *)

(** [time.monotonic()] of a counter of nanoseconds *)
Definition monotonic (ns : Z) : double :=
  if ns mod 10 ^ 9 =? 0 then double_of_Z (ns / 10 ^ 9) else fdiv (double_of_Z ns) (double_of_Z (10 ^ 9)).

(** [format(x, ".<k>f")]: the exact value, rounded half to even *)
Definition fixed_digits (k : nat) (m : positive) (e : Z) : Z :=
  if 0 <=? e then Z.pos m * 2 ^ e * 10 ^ Z.of_nat k else div_half_even (Z.pos m * 10 ^ Z.of_nat k) (2 ^ (- e)).
Definition format_fixed (k : nat) (x : double) : string :=
  let digits n := nat_text (n / 10 ^ Z.of_nat k) +:+ "." +:+ pad k (n mod 10 ^ Z.of_nat k) in
  let sign (s : bool) := if s then "-" else "" in
  match x with
  | S754_zero s => sign s +:+ digits 0
  | S754_infinity s => sign s +:+ "inf"
  | S754_nan => "nan"
  | S754_finite s m e => sign s +:+ digits (fixed_digits k m e)
  end.

(** [float(text)], of ASCII text: [Decimal]'s grammar without signalling NaNs
    and payloads, with single underscores between digits only *)
Fixpoint underscores_ok (after_digit : bool) (s : string) : bool :=
  match s with
  | String "_" s' => after_digit && match s' with String c _ => is_digit c | EmptyString => false end && underscores_ok false s'
  | String c s' => underscores_ok (is_digit c) s'
  | EmptyString => true
  end.
Definition float_of_text (text : string) : res double :=
  if negb (underscores_ok false (strip_ws text)) then Raise ValueError else
  match decimal_of_text text with
  | Ok (Num d) =>
      match decimal_double d, startswith "-" (strip_ws text) with
      | S754_zero _, true => Ok (S754_zero true)
      | x, _ => Ok x
      end
  | Ok (NumSpecial s) =>
      if String.eqb s "Infinity" then Ok (S754_infinity false)
      else if String.eqb s "-Infinity" then Ok (S754_infinity true)
      else if existsb (String.eqb s) ["NaN"; "-NaN"] then Ok S754_nan else Raise ValueError
  | Raise _ => Raise ValueError
  end.

(** [float(v)] of a value [json.loads] gives *)
Definition float_of_json (v : pyval) : res double :=
  match v with
  | PInt z => match double_of_Z z with S754_infinity _ => Raise (OtherException "OverflowError") | x => Ok x end
  | PBool b => Ok (double_of_Z (Z.b2z b))
  | PDec d => Ok (decimal_double d)
  | PConst s | PStr s => float_of_text s
  | _ => Raise TypeError
  end.

(** ** The latency snapshot ([IOPSCollector]) *)

Record IOPSDelta := MkIOPSDelta {
  id_pre_baseline_p99_put_ms : double; id_during_p99_put_ms : double; id_delta_pct : double; id_within_15pct_gate : bool;
  id_host_disk_read_iops : double; id_host_disk_write_iops : double; id_container_io_time_pct : double }.

(** [data.get(key, default)]; [None] where an exception is raised *)
Definition jget (v : pyval) (key : string) (default_value : pyval) : option pyval :=
  match v with PDict d => Some (default default_value (dget d key)) | _ => None end.
(** [result[0]["value"][1]] *)
Definition sample_of (result : pyval) : option pyval :=
  match result with
  | PList (PDict d :: _) =>
      match dget d "value" with
      | Some (PList (_ :: v :: _)) => Some v
      | Some (PStr (String _ (String c _))) => Some (PStr (String c ""))
      | _ => None
      end
  | _ => None
  end.
(** The body of a [_query_*] method: [None] where it falls back, on an empty
    result as on any exception *)
Definition query_value (response : res string) : option double :=
  match rbind response decode_line with
  | Ok data =>
      d ← jget data "data" (PDict []);
      result ← jget d "result" (PList []);
      v ← sample_of result;
      match float_of_json v with Ok x => Some x | Raise _ => None end
  | Raise _ => None
  end.

(** The answers to the four queries *)
Record responses := Responses { rs_p99 : res string; rs_read : res string; rs_write : res string; rs_container : res string }.

Section iops.
Context (baseline_p99_ms gate_pct : double).
(** [_query_prometheus], and the other three queries *)
Definition query_prometheus (response : res string) : double := default baseline_p99_ms (query_value response).
Definition query_host (response : res string) : double := default f0_00 (query_value response).

(** [snapshot]; the division raises with a zero baseline *)
Definition snapshot (rs : responses) : res IOPSDelta :=
  let during := query_prometheus (rs_p99 rs) in
  match baseline_p99_ms with
  | S754_zero _ => Raise (OtherException "ZeroDivisionError")
  | _ =>
      let delta_pct := fmul (fdiv (fsub during baseline_p99_ms) baseline_p99_ms) (double_of_Z 100) in
      Ok (MkIOPSDelta baseline_p99_ms during delta_pct (SFleb (SFabs delta_pct) gate_pct)
            (query_host (rs_read rs)) (query_host (rs_write rs)) (query_host (rs_container rs)))
  end.
End iops.
Definition default_gate : double := double_of_Z 15.
(** 2870.65 *)
Definition default_baseline : double := decimal_double (Dec 287065 (-2)).

(** ** The runner *)

Inductive window_status := healthy | drift_detected | barrier_drain_timeout | sop_manual_gate | iops_gate_breached.
#[export] Instance window_status_eq_dec : EqDecision window_status.
Proof. solve_decision. Defined.
Definition window_status_text (s : window_status) : string :=
  match s with
  | healthy => "healthy" | drift_detected => "drift_detected" | barrier_drain_timeout => "barrier_drain_timeout"
  | sop_manual_gate => "sop_manual_gate" | iops_gate_breached => "iops_gate_breached"
  end.
Definition sop_state_value (s : SOPState) : string :=
  match s with AUTO_RESUME => "auto_resume" | THRESHOLD_BREACHED => "threshold_breached" | MANUAL_GATE => "manual_gate" end.

(** [DualWriteWindowResult] *)
Record window_result := WindowResult {
  wr_status : window_status; wr_barrier_result : option BarrierResult;
  wr_per_partition : dict string InvariantResult; wr_iops_delta : option IOPSDelta; wr_sop_state : string;
  wr_run_timestamp_iso : string; wr_cycle_duration_ms : double; wr_evidence_pack_path : option path }.

(** The attributes that change: the passes in a row, whether the lock's file
    is held, the counter of the statuses *)
Record runner := Runner { ru_consecutive_pass_count : Z; ru_lock : bool; ru_statuses : list window_status }.
Definition initial_runner : runner := Runner 0 false [].

(** The locals the clean-up reads *)
Record locals := Locals {
  lo_status : window_status; lo_barrier : option BarrierResult;
  lo_per_partition : dict string InvariantResult; lo_iops : option IOPSDelta }.
Definition initial_locals : locals := Locals healthy None [] None.

Record window_config := WindowConfig {
  wc_local_root : path; wc_nas_partition_root : string; wc_evidence_pack_path : path; wc_lock_path : path;
  wc_baseline : double; wc_drain_timeout : Z; wc_signal : path }.

(** Errors of the lock's file, and of the evidence with what was appended
    before *)
Record window_faults := WindowFaults {
  wf_lock_mkdir : option exn; wf_lock_open : option exn; wf_flock : option exn; wf_lock_write : option exn;
  wf_evidence : option (exn * option bytes); wf_signal : signal_faults }.
Definition no_window_faults : window_faults := WindowFaults None None None None None no_signal_faults.

(** What the cycle sees of the rest *)
Record cycle_env := CycleEnv {
  ce_now : Z;                              (* the time of the run, microseconds *)
  ce_monotonic : nat → Z;                  (* the clock at the start, at an early return, at the exit *)
  ce_sop : sop;
  ce_partitions : res (list (string * string));
  ce_reads : nat → res string; ce_clock : nat → Z; ce_fuel : nat;
  ce_responses : responses }.

(** [root / p] *)
Definition path_div (root : path) (p : string) : path :=
  let parts := List.filter (λ s, negb (String.eqb s "" || String.eqb s ".")) (split_slash p) in
  if startswith "/" p then parts else root ++ parts.

Section window.
Context {S : Type} `{S3 S} (sha256_hex : bytes → string) (read_parquet_meta : bytes → res parquet_meta).
Context (harness : harness_config) (cfg : window_config) (faults : window_faults) (env : cycle_env).

(** The state of a cycle *)
Record wstate := WState { ws_world : world S; ws_runner : runner; ws_locals : locals }.
Local Notation proc := (proc wstate).

(** A procedure over the world *)
Definition on_world {A} (m : Prelude.proc (world S) A) : proc A := λ s,
  match m (ws_world s) with (w, r) => (WState w (ws_runner s) (ws_locals s), r) end.
Definition on_runner (f : runner → runner) : proc unit := λ s, (WState (ws_world s) (f (ws_runner s)) (ws_locals s), Ok tt).
Definition on_locals (f : locals → locals) : proc unit := λ s, (WState (ws_world s) (ws_runner s) (f (ws_locals s)), Ok tt).
Definition set_lock (b : bool) : proc unit := on_runner (λ r, Runner (ru_consecutive_pass_count r) b (ru_statuses r)).
Definition set_passes (f : Z → Z) : proc unit := on_runner (λ r, Runner (f (ru_consecutive_pass_count r)) (ru_lock r) (ru_statuses r)).
Definition set_status (st : window_status) : proc unit := on_locals (λ l, Locals st (lo_barrier l) (lo_per_partition l) (lo_iops l)).

Definition lock_file : string := fs_name (wc_lock_path cfg).
Definition evidence_file : string := fs_name (wc_evidence_pack_path cfg).

(** A step that may fail *)
Definition may_fail (f : option exn) : proc unit := match f with Some e => praise e | None => pret tt end.

(** [_acquire_lock] on a POSIX system *)
Definition acquire_lock : proc unit :=
  pbind (may_fail (wf_lock_mkdir faults)) (λ _,
  pbind (may_fail (wf_lock_open faults)) (λ _,
  pbind (on_world (set_fs (<[lock_file := ""]>))) (λ _,
  pbind (set_lock true) (λ _,
  pcatch (pbind (may_fail (wf_flock faults)) (λ _,
          pbind (may_fail (wf_lock_write faults)) (λ _,
          on_world (set_fs (<[lock_file := "locked"]>)))))
    (λ e, if is_OSError e then pbind (set_lock false) (λ _, praise OSErrorOther) else praise e))))).

(** [_release_lock]; its errors are suppressed *)
Definition release_lock : proc unit := set_lock false.

(** The text [_append_evidence_pack] appends *)
Definition evidence_entry (status : window_status) (cycle_duration_ms : double) (results : dict string InvariantResult)
    (iops : option IOPSDelta) (passes : Z) : string :=
  let drift_count := Z.of_nat (length (List.filter (λ r, negb (bool_decide (ir_status r = all_pass))) (dvalues results))) in
  newline +:+ "## cycle run_timestamp=" +:+ iso_time (ce_now env) +:+ newline +:+
  "- status: " +:+ window_status_text status +:+ newline +:+
  "- cycle_duration_ms: " +:+ format_fixed 1 cycle_duration_ms +:+ newline +:+
  "- drift_count: " +:+ int_text drift_count +:+ " / " +:+ int_text (Z.of_nat (length results)) +:+ " partitions" +:+ newline +:+
  "- iops_gate_ok: " +:+ (if match iops with Some d => id_within_15pct_gate d | None => true end then "True" else "False") +:+ newline +:+
  "- iops_delta_pct: " +:+ match iops with Some d => format_fixed 2 (id_delta_pct d) | None => "N/A" end +:+ newline +:+
  "- consecutive_pass_count: " +:+ int_text passes +:+ newline.

Definition append_file (p : string) (text : bytes) (fs : gmap string bytes) : gmap string bytes :=
  <[p := default "" (fs !! p) +:+ text]> fs.

(** [_append_evidence_pack]; every exception is logged *)
Definition append_evidence_pack (cycle_duration_ms : double) : proc unit := λ s,
  let l := ws_locals s in
  let entry := evidence_entry (lo_status l) cycle_duration_ms (lo_per_partition l) (lo_iops l) (ru_consecutive_pass_count (ws_runner s)) in
  match wf_evidence faults with
  | None => on_world (set_fs (append_file evidence_file entry)) s
  | Some (_, Some written) => on_world (set_fs (append_file evidence_file written)) s
  | Some (_, None) => (s, Ok tt)
  end.

(** Phase B for one partition *)
Definition nas_partition_of (partition : string) : string :=
  if startswith (wc_nas_partition_root cfg) partition then partition else wc_nas_partition_root cfg +:+ "/" +:+ partition.
Definition partition_key (ps : string * string) : string := ps.1 +:+ "|" +:+ ps.2.
Definition verify_partition (ps : string * string) : proc unit :=
  pbind (on_world (verify sha256_hex read_parquet_meta harness (fs_name (path_div (wc_local_root cfg) ps.1)) (nas_partition_of ps.1) None None)) (λ v,
  on_locals (λ l, Locals (lo_status l) (lo_barrier l) (dset (lo_per_partition l) (partition_key ps) v) (lo_iops l))).

Fixpoint verify_all (l : list (string * string)) : proc unit :=
  match l with
  | [] => pret tt
  | ps :: l => pbind (verify_partition ps) (λ _, verify_all l)
  end.

(** Phase C *)
Definition judge_drift : proc unit := λ s,
  (if existsb (λ r, negb (bool_decide (ir_status r = all_pass))) (dvalues (lo_per_partition (ws_locals s)))
   then pbind (set_status drift_detected) (λ _, set_passes (λ _, 0))
   else pbind (set_status healthy) (λ _, set_passes (λ n, n + 1))) s.

(** Phase D *)
Definition judge_iops : proc unit :=
  pbind (plift (snapshot (wc_baseline cfg) default_gate (ce_responses env))) (λ d,
  pbind (on_locals (λ l, Locals (lo_status l) (lo_barrier l) (lo_per_partition l) (Some d))) (λ _ s,
  if negb (id_within_15pct_gate d) && bool_decide (lo_status (ws_locals s) = healthy) then set_status iops_gate_breached s else (s, Ok tt))).

(** [(time.monotonic() - cycle_start_mono) * 1000] *)
Definition duration (i : nat) : double :=
  fmul (fsub (monotonic (ce_monotonic env i)) (monotonic (ce_monotonic env 0%nat))) (double_of_Z 1000).
(** A result returned before the end *)
Definition early (st : window_status) (b : option BarrierResult) (sop_state : string) (evidence : option path) : window_result :=
  WindowResult st b [] None sop_state (iso_time (ce_now env)) (duration 1) evidence.

(** The body of the [try]: a result where it returns early *)
Definition cycle_body : proc (option window_result) :=
  let sop_state := sop_state_value (so_state (ce_sop env)) in
  if is_manual_gate (ce_sop env)
  then pbind (set_status sop_manual_gate) (λ _,
       pret (Some (early sop_manual_gate None sop_state (Some (wc_evidence_pack_path cfg)))))
  else
  pbind (on_world (drain_and_block (wc_drain_timeout cfg) (wc_signal cfg) (wf_signal faults) (ce_reads env) (ce_clock env) (ce_fuel env))) (λ b,
  pbind (on_locals (λ l, Locals (lo_status l) (Some b) (lo_per_partition l) (lo_iops l))) (λ _,
  if bool_decide (br_status b = drain_timeout) || bool_decide (br_status b = barrier_violated)
  then pbind (set_status barrier_drain_timeout) (λ _, pret (Some (early barrier_drain_timeout (Some b) sop_state None)))
  else
  pbind (plift (ce_partitions env)) (λ partitions,
  pbind (verify_all partitions) (λ _,
  pbind judge_drift (λ _,
  pbind judge_iops (λ _, pret None)))))).

(** Phase E *)
Definition cleanup : proc unit :=
  pbind (λ s, match lo_barrier (ws_locals s) with
              | Some b => if bool_decide (br_status b = barrier_ok) then on_world (release (wc_signal cfg) (wf_signal faults)) s else (s, Ok tt)
              | None => (s, Ok tt)
              end) (λ _,
  pbind (append_evidence_pack (duration 2)) (λ _,
  pbind release_lock (λ _ s,
  on_runner (λ r, Runner (ru_consecutive_pass_count r) (ru_lock r) (ru_statuses r ++ [lo_status (ws_locals s)])) s))).

(** [try: m finally: c]; an exception of [c] replaces what [m] did *)
Definition finally {A} (m : proc A) (c : proc unit) : proc A := λ s,
  let '(s1, r) := m s in
  match c s1 with
  | (s2, Ok _) => (s2, r)
  | (s2, Raise e) => (s2, Raise e)
  end.

(** [run], from the world and the runner *)
Definition locked_run : proc window_result :=
  pbind (finally cycle_body cleanup) (λ r,
  match r with
  | Some result => pret result
  | None => λ s,
      let l := ws_locals s in
      (s, Ok (WindowResult (lo_status l) (lo_barrier l) (lo_per_partition l) (lo_iops l) (sop_state_value (so_state (ce_sop env)))
                (iso_time (ce_now env)) (duration 2) (Some (wc_evidence_pack_path cfg))))
  end).
Definition run (ru : runner) (w : world S) : wstate * res window_result :=
  match acquire_lock (WState w ru initial_locals) with
  | (s, Ok _) => locked_run s
  | (s, Raise e) => if is_OSError e then (s, Ok (early barrier_drain_timeout None "auto_resume" None)) else (s, Raise e)
  end.

(** [shutdown] *)
Definition shutdown : proc unit := release_lock.
End window.

(** ** Lemmas *)

Section window_lemmas.
Context {S : Type} `{S3Laws S} (sha256_hex : bytes → string) (read_parquet_meta : bytes → res parquet_meta).
Context (harness : harness_config) (cfg : window_config) (faults : window_faults) (env : cycle_env).
Local Notation wstate := (wstate (S := S)).
Implicit Types (w : world S) (s : wstate).
Local Notation verify_partition := (verify_partition sha256_hex read_parquet_meta harness cfg).
Local Notation verify_all := (verify_all sha256_hex read_parquet_meta harness cfg).
Local Notation cycle_body := (cycle_body sha256_hex read_parquet_meta harness cfg faults env).
Local Notation signal_file := (signal (wc_signal cfg)).

(** Only the lock, the evidence and the signal may have changed. *)
Definition framed w w' : Prop :=
  objects w' = objects w ∧ w_rq w' = w_rq w ∧
  ∀ k, k ≠ lock_file cfg → k ≠ evidence_file cfg → k ≠ signal_file → w_fs w' !! k = w_fs w !! k.
Lemma framed_refl w : framed w w.
Proof. done. Qed.
Lemma framed_trans w1 w2 w3 : framed w1 w2 → framed w2 w3 → framed w1 w3.
Proof. intros (?&?&Hf) (?&?&Hg). split_and!; [congruence..|]. intros k ???. by rewrite Hg, Hf. Qed.
Lemma framed_same_storage w w' : same_storage w w' → framed w w'.
Proof. intros (?&?&Hf). split_and!; [done|done|]. intros. by rewrite Hf. Qed.
Lemma framed_set_fs w w' f r :
  (∀ fs k, k ≠ lock_file cfg → k ≠ evidence_file cfg → k ≠ signal_file → f fs !! k = fs !! k) →
  set_fs f w = (w', r) → framed w w' ∧ r = Ok tt ∧ w_fs w' = f (w_fs w).
Proof. intros Hf [= <- <-]. split; [|done]. split; [done|]. split; [done|]. intros k ???. cbn [w_fs]. by apply Hf. Qed.

(** What the verification of a partition answered *)
Definition verified w (ps : string * string) (v : InvariantResult) : Prop :=
  ∃ w0 w1, framed w w0 ∧
    verify sha256_hex read_parquet_meta harness (fs_name (path_div (wc_local_root cfg) ps.1)) (nas_partition_of cfg ps.1) None None w0 = (w1, Ok v).

Lemma window_partition_inv ps s s' r : verify_partition ps s = (s', r) →
  framed (ws_world s) (ws_world s') ∧ ws_runner s' = ws_runner s ∧
  match r with
  | Ok _ => ∃ v, verified (ws_world s) ps v ∧ ws_locals s' =
      Locals (lo_status (ws_locals s)) (lo_barrier (ws_locals s)) (dset (lo_per_partition (ws_locals s)) (partition_key ps) v) (lo_iops (ws_locals s))
  | Raise _ => ws_locals s' = ws_locals s
  end.
Proof.
  unfold Window.verify_partition, pbind, on_world. destruct (verify _ _ _ _ _ _ _ _) as [w1 o] eqn:Hv.
  pose proof (reads_only_verify _ _ _ _ _ _ _ _ _ _ Hv) as Hro%framed_same_storage.
  destruct o as [v|e]; intros [= <- <-]; cbn [ws_world ws_runner ws_locals on_locals]; [|done].
  split_and!; [done..|]. exists v. split; [|done]. exists (ws_world s), w1. split; [apply framed_refl|exact Hv].
Qed.

Lemma verified_framed w w' ps v : framed w w' → verified w' ps v → verified w ps v.
Proof. intros Hf (w0&w1&Hf'&Hv). exists w0, w1. split; [by eapply framed_trans|done]. Qed.

Lemma verify_all_inv l s s' r : verify_all l s = (s', r) →
  framed (ws_world s) (ws_world s') ∧ ws_runner s' = ws_runner s ∧
  lo_status (ws_locals s') = lo_status (ws_locals s) ∧ lo_barrier (ws_locals s') = lo_barrier (ws_locals s) ∧
  (∀ k v, dget (lo_per_partition (ws_locals s')) k = Some v →
     dget (lo_per_partition (ws_locals s)) k = Some v ∨ ∃ ps, ps ∈ l ∧ partition_key ps = k ∧ verified (ws_world s) ps v) ∧
  (∀ k, is_Some (dget (lo_per_partition (ws_locals s)) k) → is_Some (dget (lo_per_partition (ws_locals s')) k)) ∧
  (r = Ok tt → ∀ ps, ps ∈ l → is_Some (dget (lo_per_partition (ws_locals s')) (partition_key ps))).
Proof.
  revert s. induction l as [|ps l IH]; intros s; cbn [Window.verify_all].
  { intros [= <- <-]. split_and!; try done; auto using framed_refl. by intros _ ps ?%not_elem_of_nil. }
  unfold pbind. destruct (verify_partition ps s) as [s1 o] eqn:Hp. apply window_partition_inv in Hp as (Hf&Hr&Ho).
  destruct o as [[]|e]; [|intros [= <- <-]; rewrite Ho; split_and!; try done; auto].
  destruct Ho as (v&Hv&Hl). intros (Hf'&Hr'&Hst&Hb&Hsome&Hmono&Hall)%IH. rewrite Hl in *. cbn [lo_status lo_barrier lo_per_partition] in *.
  assert (∀ k, is_Some (dget (lo_per_partition (ws_locals s)) k) ∨ k = partition_key ps → is_Some (dget (lo_per_partition (ws_locals s')) k)) as Hkeep.
  { intros k Hk. apply Hmono. destruct (decide (partition_key ps = k)) as [<-|Hne]; [rewrite dget_dset_eq; eauto|].
    rewrite dget_dset_ne by done. destruct Hk; [done|congruence]. }
  split_and!; [by eapply framed_trans|congruence|done|done| |by auto|].
  - intros k u Hu. destruct (Hsome k u Hu) as [Hk|(qs&Hin&<-&Hq)].
    + destruct (decide (partition_key ps = k)) as [<-|Hne].
      * rewrite dget_dset_eq in Hk. injection Hk as <-. right. exists ps. split_and!; [by left|done|done].
      * rewrite dget_dset_ne in Hk by done. by left.
    + right. exists qs. split_and!; [by right|done|]. by eapply verified_framed.
  - intros Hok qs [->|Hin]%elem_of_cons; [by auto|by apply Hall].
Qed.

Lemma acquire_lock_inv w ru s r : acquire_lock cfg faults (WState w ru initial_locals) = (s, r) →
  framed w (ws_world s) ∧ ws_locals s = initial_locals ∧ ru_consecutive_pass_count (ws_runner s) = ru_consecutive_pass_count ru ∧
  ru_statuses (ws_runner s) = ru_statuses ru ∧
  (r = Ok tt ↔ wf_lock_mkdir faults = None ∧ wf_lock_open faults = None ∧ wf_flock faults = None ∧ wf_lock_write faults = None).
Proof.
  assert (∀ b w1, framed w w1 → framed w (World (w_s3 w1) (w_rq w1) (w_enqueues w1) (<[lock_file cfg := b]> (w_fs w1)) (w_metrics w1))) as Hins.
  { intros b w1 (Ho&Hq&Hf). split_and!; [done|done|]. intros k Hk Hk1 Hk2. cbn [w_fs]. rewrite lookup_insert_ne by done. by apply Hf. }
  unfold acquire_lock, may_fail, pbind, pcatch, set_lock, on_world, on_runner, set_fs, praise, pret.
  destruct (wf_lock_mkdir faults); [intros [= <- <-]; split; [apply framed_refl|split_and!; intuition done]|].
  destruct (wf_lock_open faults); [intros [= <- <-]; split; [apply framed_refl|split_and!; intuition done]|].
  cbn [ws_world ws_runner ws_locals w_s3 w_rq w_enqueues w_fs w_metrics].
  destruct (wf_flock faults) as [e|]; [|destruct (wf_lock_write faults) as [e|]]; [destruct (is_OSError e)..|];
    intros [= <- <-]; (split; [|split_and!; intuition done]); try exact (Hins "" w (framed_refl w)).
  exact (Hins "locked" _ (Hins "" w (framed_refl w))).
Qed.

(** What Phase C asks of the results *)
Definition all_passed (results : dict string InvariantResult) : Prop := ∀ v, v ∈ dvalues results → ir_status v = all_pass.
Lemma drift_spec results :
  existsb (λ r, negb (bool_decide (ir_status r = all_pass))) (dvalues results) = false ↔ all_passed results.
Proof.
  unfold all_passed. induction (dvalues results) as [|v l IH]; cbn [existsb].
  { split; [by intros _ v ?%not_elem_of_nil|done]. }
  rewrite orb_false_iff, negb_false_iff, bool_decide_eq_true, IH. split.
  - intros [Hv Hl] u [->|Hu]%elem_of_cons; auto.
  - intros Hl. split; [apply Hl; by left|]. intros u Hu. apply Hl. by right.
Qed.

(** Every partition of the list has a result, every result is that of a
    verification. *)
Definition covers w (l : list (string * string)) (results : dict string InvariantResult) : Prop :=
  (∀ ps, ps ∈ l → is_Some (dget results (partition_key ps))) ∧
  (∀ k v, dget results k = Some v → ∃ ps, ps ∈ l ∧ partition_key ps = k ∧ verified w ps v).

(** How a completed cycle is judged *)
Definition judged (passes passes' : Z) (results : dict string InvariantResult) (d : IOPSDelta) (st : window_status) : Prop :=
  all_passed results ∧ passes' = passes + 1 ∧ st = (if id_within_15pct_gate d then healthy else iops_gate_breached) ∨
  ¬ all_passed results ∧ passes' = 0 ∧ st = drift_detected.

Lemma judge_inv s s' r : pbind judge_drift (λ _, judge_iops cfg env) s = (s', r) →
  ws_world s' = ws_world s ∧ lo_barrier (ws_locals s') = lo_barrier (ws_locals s) ∧
  lo_per_partition (ws_locals s') = lo_per_partition (ws_locals s) ∧ ru_statuses (ws_runner s') = ru_statuses (ws_runner s) ∧
  match r with
  | Ok _ => ∃ d, snapshot (wc_baseline cfg) default_gate (ce_responses env) = Ok d ∧ lo_iops (ws_locals s') = Some d ∧
      judged (ru_consecutive_pass_count (ws_runner s)) (ru_consecutive_pass_count (ws_runner s')) (lo_per_partition (ws_locals s)) d (lo_status (ws_locals s'))
  | Raise _ => True
  end.
Proof.
  unfold judge_drift, judge_iops, pbind, plift, set_status, set_passes, on_locals, on_runner, judged.
  pose proof (drift_spec (lo_per_partition (ws_locals s))) as Hall. destruct (existsb _ _);
    cbn [ws_world ws_locals ws_runner lo_status lo_barrier lo_per_partition lo_iops ru_consecutive_pass_count ru_statuses ru_lock];
    (destruct (snapshot _ _ _) as [d|e]; [|by intros [= <- <-]]);
    cbn [ws_world ws_locals ws_runner lo_status lo_barrier lo_per_partition lo_iops ru_consecutive_pass_count ru_statuses ru_lock];
    destruct (id_within_15pct_gate d) eqn:Hd; cbn [negb andb bool_decide_spec]; intros [= <- <-];
    cbn [ws_world ws_locals ws_runner lo_status lo_barrier lo_per_partition lo_iops ru_consecutive_pass_count ru_statuses ru_lock];
    (split; [done|]; split; [done|]; split; [done|]; split; [done|]); exists d; rewrite ?Hd; (split; [done|]; split; [done|]); [right|right|left|left]; (split; [|done]); [by intros ?%Hall..|by apply Hall|by apply Hall].
Qed.

(** What the body of a cycle does *)
Definition body_post w (passes : Z) s (r : res (option window_result)) : Prop :=
  match r with
  | Ok (Some result) =>
      wr_status result = lo_status (ws_locals s) ∧ ru_consecutive_pass_count (ws_runner s) = passes ∧
      wr_barrier_result result = lo_barrier (ws_locals s) ∧
      (is_manual_gate (ce_sop env) = true ∧ wr_status result = sop_manual_gate ∧ lo_barrier (ws_locals s) = None ∨
       is_manual_gate (ce_sop env) = false ∧ wr_status result = barrier_drain_timeout ∧
         ∃ b, lo_barrier (ws_locals s) = Some b ∧ br_status b ≠ barrier_ok)
  | Ok None => is_manual_gate (ce_sop env) = false ∧
      ∃ b ps d, lo_barrier (ws_locals s) = Some b ∧ br_status b = barrier_ok ∧ ce_partitions env = Ok ps ∧
        covers w ps (lo_per_partition (ws_locals s)) ∧ lo_iops (ws_locals s) = Some d ∧
        snapshot (wc_baseline cfg) default_gate (ce_responses env) = Ok d ∧
        judged passes (ru_consecutive_pass_count (ws_runner s)) (lo_per_partition (ws_locals s)) d (lo_status (ws_locals s))
  | Raise _ => True
  end.

Lemma drain_framed w w' r :
  drain_and_block (wc_drain_timeout cfg) (wc_signal cfg) (wf_signal faults) (ce_reads env) (ce_clock env) (ce_fuel env) w = (w', r) → framed w w'.
Proof.
  unfold drain_and_block, pbind. destruct (emit_barrier_signal _ _ w) as [w1 o] eqn:He.
  apply emit_signal_inv in He as (Ho&Hq&Hf&_). assert (framed w w1) by (split; [done|]; split; [done|]; intros k _ _ Hk; by apply Hf).
  destruct o; [unfold plift|]; by intros [= <- <-].
Qed.

Lemma body_inv w ru1 s r : ws_world s = w → ws_runner s = ru1 → ws_locals s = initial_locals → ∀ s', cycle_body s = (s', r) →
  framed w (ws_world s') ∧ ru_statuses (ws_runner s') = ru_statuses ru1 ∧ body_post w (ru_consecutive_pass_count ru1) s' r.
Proof.
  destruct s as [? ? ?]. cbn [ws_world ws_runner ws_locals]. intros -> -> -> s'. unfold Window.cycle_body.
  destruct (is_manual_gate (ce_sop env)) eqn:Hgate.
  { intros [= <- <-]. split; [apply framed_refl|]. split; [done|]. unfold body_post. rewrite Hgate. split_and!; [done..|by left]. }
  unfold pbind at 1, on_world at 1. cbn [ws_world ws_runner ws_locals].
  destruct (drain_and_block _ _ _ _ _ _ w) as [w1 [b|e]] eqn:Hd; apply drain_framed in Hd;
    [|intros [= <- <-]; split; [apply Hd|done]].
  unfold pbind at 1, on_locals at 1. cbn [ws_world ws_runner ws_locals lo_status lo_per_partition lo_iops initial_locals].
  destruct (bool_decide (br_status b = drain_timeout) || _) eqn:Hb.
  { intros [= <- <-]. split; [apply Hd|]. split; [done|]. unfold body_post. rewrite Hgate. split_and!; [done..|].
    right. split_and!; [done..|]. exists b. split; [done|]. intros Hok. by rewrite Hok in Hb. }
  assert (br_status b = barrier_ok) as Hok by (destruct (br_status b); [done|discriminate Hb..]).
  unfold pbind at 1, plift at 1. destruct (ce_partitions env) as [ps|e] eqn:Hps; [|intros [= <- <-]; split; [apply Hd|done]].
  unfold pbind at 1. destruct (verify_all ps _) as [s2 o] eqn:Hv. apply verify_all_inv in Hv as (Hf&Hr&Hst&Hba&Hsome&_&Hall).
  cbn [ws_world ws_runner ws_locals lo_status lo_per_partition lo_barrier] in *.
  assert (framed w (ws_world s2)) as Hf2 by (by eapply framed_trans).
  destruct o as [[]|e]; [|intros [= <- <-]; split; [done|]; split; [by rewrite Hr|done]].
  intros Hj. assert (∃ o, pbind judge_drift (λ _, judge_iops cfg env) s2 = (s', o) ∧ r = match o with Ok _ => Ok None | Raise e => Raise e end) as (o&Hj'&->).
  { revert Hj. unfold pbind. destruct (judge_drift s2) as [s3 [[]|e]]; [|intros [= <- <-]; by eexists].
    destruct (judge_iops cfg env s3) as [s4 [[]|e]]; intros [= <- <-]; by eexists. }
  apply judge_inv in Hj' as (Hw&Hb'&Hpp&Hs'&Hd'). rewrite Hw, Hs', Hr. split; [exact Hf2|]. split; [done|].
  destruct o as [[]|e]; [|done]. destruct Hd' as (d&Hsn&Hio&Hju). split; [done|]. exists b, ps, d.
  rewrite Hb', Hba, Hpp. rewrite <- Hr. split; [done|]. split; [done|]. split; [done|]. split; [|split; [done|]; split; [done|exact Hju]].
  split; [by apply Hall|].
  - intros k v Hk. destruct (Hsome k v Hk) as [?|(p&Hp&Hpk&Hpv)]; [done|]. exists p. split; [done|]. split; [done|]. exact (verified_framed _ _ _ _ Hd Hpv).
Qed.

(** What the clean-up does *)
Lemma cleanup_inv s s' r : cleanup cfg faults env s = (s', r) →
  framed (ws_world s) (ws_world s') ∧ ws_locals s' = ws_locals s ∧
  match r with
  | Ok _ => ws_runner s' = Runner (ru_consecutive_pass_count (ws_runner s)) false (ru_statuses (ws_runner s) ++ [lo_status (ws_locals s)]) ∧
      ∀ b, lo_barrier (ws_locals s) = Some b → br_status b = barrier_ok → sf_unlink (wf_signal faults) = None →
        evidence_file cfg ≠ signal_file → w_fs (ws_world s') !! signal_file = None
  | Raise e => sf_unlink (wf_signal faults) = Some e ∧ is_OSError e = false
  end.
Proof.
  unfold cleanup, pbind at 1.
  match goal with |- context [match ?m with _ => _ end = (s', r)] => destruct m as [s1 o] eqn:Hrel end.
  assert (framed (ws_world s) (ws_world s1) ∧ ws_locals s1 = ws_locals s ∧ ws_runner s1 = ws_runner s ∧
    match o with
    | Ok _ => ∀ b, lo_barrier (ws_locals s) = Some b → br_status b = barrier_ok → sf_unlink (wf_signal faults) = None → w_fs (ws_world s1) !! signal_file = None
    | Raise e => sf_unlink (wf_signal faults) = Some e ∧ is_OSError e = false
    end) as (Hf&Hl&Hr&Ho).
  { revert Hrel. destruct (lo_barrier (ws_locals s)) as [b|]; [|by intros [= <- <-]].
    case_bool_decide as Hok; [|by intros [= <- <-]; split; [apply framed_refl|]; split_and!; [done..|]; intros ? [= <-]].
    unfold on_world, release. destruct (sf_unlink (wf_signal faults)) as [e|].
    - destruct (is_OSError e) eqn:He; intros [= <- <-]; by split_and!.
    - unfold set_fs. intros [= <- <-]. cbn [ws_world ws_runner ws_locals w_fs]. split; [|split_and!; [done..|]; intros; apply lookup_delete_eq].
      split; [done|]. split; [done|]. intros k _ _ Hk. cbn [w_fs]. by rewrite lookup_delete_ne. }
  destruct o as [[]|e]; [|intros [= <- <-]; exact (conj Hf (conj Hl Ho))].
  unfold pbind at 1. destruct (append_evidence_pack _ _ _ _ _) as [s2 o] eqn:Hev.
  assert (o = Ok tt ∧ framed (ws_world s1) (ws_world s2) ∧ ws_locals s2 = ws_locals s1 ∧ ws_runner s2 = ws_runner s1 ∧
    (evidence_file cfg ≠ signal_file → w_fs (ws_world s2) !! signal_file = w_fs (ws_world s1) !! signal_file)) as (->&Hf2&Hl2&Hr2&Hs2).
  { assert (∀ t w0 w1 x, set_fs (append_file (evidence_file cfg) t) w0 = (w1, x) → x = Ok tt ∧ framed w0 w1 ∧
      (evidence_file cfg ≠ signal_file → w_fs w1 !! signal_file = w_fs w0 !! signal_file)) as Happ.
    { intros t w0 w1 x Hx. apply framed_set_fs in Hx as (?&->&->); [|intros fs k _ Hk _; unfold append_file; by rewrite lookup_insert_ne].
      split; [done|]. split; [assumption|]. intros Hne. unfold append_file. by rewrite lookup_insert_ne. }
    revert Hev. unfold append_evidence_pack, on_world. destruct (wf_evidence faults) as [[e [t|]]|]; [|by intros [= <- <-]; (split; [done|]; split; [apply framed_refl|]; done)|];
      destruct (set_fs _ _) as [w1 x] eqn:Hx; apply Happ in Hx as (->&?&?); intros [= <- <-]; (split; [done|]; split; [assumption|]; split; [done|]; split; [done|assumption]). }
  intros [= <- <-]. cbn [ws_world ws_locals ws_runner ru_consecutive_pass_count ru_statuses ru_lock].
  rewrite Hl2, Hl, Hr2, Hr. split; [by eapply framed_trans|]. split; [done|]. split; [done|].
  intros b Hb Hok Hun Hne. rewrite Hs2 by done. by eapply Ho.
Qed.
End window_lemmas.

(** ** Properties *)

Definition lock_free (faults : window_faults) : Prop :=
  wf_lock_mkdir faults = None ∧ wf_lock_open faults = None ∧ wf_flock faults = None ∧ wf_lock_write faults = None.

(** What the verifications of a list of partitions make of a cycle: the status
    and the passes in a row, where there was something to verify; the latency
    decides between [healthy] and [iops_gate_breached] where it is a number. *)
Definition verdict (passes passes' : Z) (ps : list (string * string)) (results : dict string InvariantResult) (d : IOPSDelta)
    (st : window_status) : Prop :=
  ps ≠ [] →
  (¬ all_passed results → st = drift_detected ∧ passes' = 0) ∧
  (all_passed results → (st = healthy ∨ st = iops_gate_breached) ∧ passes' = passes + 1 ∧
     (id_during_p99_put_ms d ≠ S754_nan → (st = healthy ↔ id_within_15pct_gate d = true))).

(** What a result says about the cycle *)
Definition result_means {S : Type} `{S3 S} (sha256_hex : bytes → string) (read_parquet_meta : bytes → res parquet_meta)
    (harness : harness_config) (cfg : window_config) (env : cycle_env) (w : world S) (passes passes' : Z) (res : window_result) : Prop :=
  is_manual_gate (ce_sop env) = true ∧ wr_status res = sop_manual_gate ∧ passes' = passes ∨
  is_manual_gate (ce_sop env) = false ∧
    (wr_status res = barrier_drain_timeout ∧ passes' = passes ∧ (∃ b, wr_barrier_result res = Some b ∧ br_status b ≠ barrier_ok) ∨
     ∃ b ps d, wr_barrier_result res = Some b ∧ br_status b = barrier_ok ∧
       ce_partitions env = Ok ps ∧ covers sha256_hex read_parquet_meta harness cfg w ps (wr_per_partition res) ∧
       snapshot (wc_baseline cfg) default_gate (ce_responses env) = Ok d ∧ wr_iops_delta res = Some d ∧
       verdict passes passes' ps (wr_per_partition res) d (wr_status res)).

Lemma judged_verdict passes passes' ps results d st : judged passes passes' results d st → verdict passes passes' ps results d st.
Proof.
  intros [(Ha&->&->)|(Hn&->&->)] _; (split; [|]); try done. intros _. destruct (id_within_15pct_gate d); split_and!; auto; done.
Qed.

(** C14.  A cycle that gets the lock.  However it ends, it changes no object, no
    queue row and no file but the lock, the evidence and the signal, and, where
    the signal can be removed, a barrier that held is taken down again and the
    lock released.  If the cycle returns a result, its status is counted and
    says what happened: [sop_manual_gate] exactly when the procedure asks for an
    operator, [barrier_drain_timeout] when the barrier did not drain, and
    otherwise the barrier held, every partition of the list was verified and,
    unless the list was empty, the status is [drift_detected] with the passes in
    a row reset if a verification did not pass, and [healthy] or
    [iops_gate_breached], by the latency measured, with one more pass if all
    did.  (Of cycles that raise or verify nothing no status is claimed; see
    [crashed_cycle_reports_healthy] and [nothing_verified_is_healthy].) *)
Theorem window_cycle_contract {S : Type} `{S3Laws S} sha256_hex read_parquet_meta harness cfg faults env (ru : runner) (w : world S) s r :
  lock_free faults → evidence_file cfg ≠ signal (wc_signal cfg) →
  run sha256_hex read_parquet_meta harness cfg faults env ru w = (s, r) →
  framed cfg w (ws_world s) ∧
  (sf_unlink (wf_signal faults) = None → ru_lock (ws_runner s) = false ∧
    ∀ b, lo_barrier (ws_locals s) = Some b → br_status b = barrier_ok → w_fs (ws_world s) !! signal (wc_signal cfg) = None) ∧
  ∀ res, r = Ok res → wr_barrier_result res = lo_barrier (ws_locals s) ∧ ru_lock (ws_runner s) = false ∧
    ru_statuses (ws_runner s) = ru_statuses ru ++ [wr_status res] ∧
    result_means sha256_hex read_parquet_meta harness cfg env w
      (ru_consecutive_pass_count ru) (ru_consecutive_pass_count (ws_runner s)) res.
Proof.
  intros Hlock Hne. unfold run. destruct (acquire_lock _ _ _) as [s0 o0] eqn:Hacq. apply acquire_lock_inv in Hacq as (Hf0&Hl0&Hp0&Hst0&Hok).
  rewrite (proj2 Hok Hlock). unfold locked_run, pbind, finally. clear Hok.
  destruct (cycle_body _ _ _ _ _ _ s0) as [s1 r1] eqn:Hb. apply (body_inv _ _ _ _ _ _ _ _ _ _ eq_refl eq_refl Hl0) in Hb as (Hf1&Hst1&Hpost).
  destruct (cleanup cfg faults env s1) as [s2 o] eqn:Hc. apply cleanup_inv in Hc as (Hf2&Hl2&Hc).
  assert (framed cfg w (ws_world s2)) as Hf by (eapply framed_trans; [exact Hf0|eapply framed_trans; [exact Hf1|exact Hf2]]).
  destruct o as [[]|e].
  2:{ intros [= <- <-]. split; [done|]. split; [|done]. intros Hun. rewrite Hun in Hc. by destruct Hc. }
  destruct Hc as [Hr Hsig]. intros Heq. assert (s = s2) as -> by (destruct r1 as [[res|]|e]; by injection Heq as <- _).
  rewrite Hr, Hl2. cbn [ru_lock ru_statuses ru_consecutive_pass_count]. rewrite Hst1, Hst0.
  split; [done|]. split; [intros Hun; split; [done|]; intros b Hb1 Hb2; by apply (Hsig b)|]. rewrite Hp0 in Hpost.
  intros res ->. destruct r1 as [[res1|]|e]; [| |done]; injection Heq as <-; cbn [body_post] in Hpost.
  - destruct Hpost as (Hws&Hpp&Hwb&Hcase). split; [done|]. split; [done|]. split; [by rewrite Hws|].
    destruct Hcase as [(Hg&Hs&_)|(Hg&Hs&b&Hb1&Hb2)]; [left; done|right; split; [done|left]].
    split; [done|]. split; [done|]. exists b. by rewrite Hwb.
  - destruct Hpost as (Hg&b&ps&d&Hb1&Hb2&Hps&[Hc1 Hc2]&Hio&Hsn&Hj). rewrite Hl2. split; [done|]. split; [done|]. split; [done|].
    right. split; [done|]. right.
    exists b, ps, d. cbn [wr_barrier_result wr_per_partition wr_iops_delta wr_status].
    split; [done|]. split; [done|]. split; [done|]. split; [|split; [done|split; [done|by apply judged_verdict]]].
    split; [done|]. intros k v Hk. destruct (Hc2 k v Hk) as (p&?&?&Hv). exists p. split; [done|]. split; [done|].
    exact (verified_framed _ _ _ _ _ _ _ _ Hf0 Hv).
Qed.

(** Without the lock nothing is drained or verified. *)
Lemma locked_out {S : Type} `{S3Laws S} sha256_hex read_parquet_meta harness cfg faults env (ru : runner) (w : world S) s r :
  ¬ lock_free faults → run sha256_hex read_parquet_meta harness cfg faults env ru w = (s, r) →
  framed cfg w (ws_world s) ∧ ru_consecutive_pass_count (ws_runner s) = ru_consecutive_pass_count ru ∧
  ru_statuses (ws_runner s) = ru_statuses ru ∧ (∀ res, r = Ok res → wr_status res = barrier_drain_timeout ∧ wr_barrier_result res = None).
Proof.
  intros Hlock. unfold run. destruct (acquire_lock _ _ _) as [s0 [[]|e]] eqn:Hacq; apply acquire_lock_inv in Hacq as (Hf0&Hl0&Hp0&Hst0&Hok).
  { exfalso. apply Hlock, Hok. done. }
  destruct (is_OSError e); intros [= <- <-]; (split; [exact Hf0|]); split_and!; try done; intros res [= <-]; done.
Qed.

(** *** Examples *)

Definition sample (v : string) : res string :=
  Ok ("{" +:+ quoted "data" +:+ ": {" +:+ quoted "result" +:+ ": [{" +:+ quoted "value" +:+ ": [1.5, " +:+ quoted v +:+ "]}]}}").
Definition example_cfg : window_config := WindowConfig ["cold"] "nas" ["e.md"] ["l"] default_baseline 5 ["d"; "signal"].
Definition example_env (sop_state : SOPState) (polls : nat) (partitions : res (list (string * string))) (p99 : string) : cycle_env :=
  CycleEnv 0 (λ i, Z.of_nat i * 250000000) (MkSop sop_state None false 0) partitions (counts_then polls) example_poll 100
    (Responses (sample p99) (sample "12") (Raise OSErrorOther) (Ok "")).
Definition example_window (fs : gmap string bytes) : world plain_s3 := World (PlainS3 ∅) None 0 fs [].
Definition empty_partition : string := "schema_version=tick.v1/tier=L2/date=2025-11-01/hour=2".
Notation example_run env fs := (run (S := plain_s3) (λ b, b) example_meta example_harness example_cfg no_window_faults env initial_runner (example_window fs)).

Definition healthy_env : cycle_env := example_env AUTO_RESUME 2 (Ok [(empty_partition, "KRW-BTC")]) "2900.5".
Lemma window_cycle_contract_witness :
  (∃ res, (example_run healthy_env ∅).2 = Ok res ∧ wr_status res = healthy ∧
     result_means (λ b, b) example_meta example_harness example_cfg healthy_env (example_window ∅) 0 1 res) ∧
  w_fs (ws_world (example_run healthy_env ∅).1) !! "/d/signal" = None.
Proof.
  destruct (window_cycle_contract (S := plain_s3) (λ b, b) example_meta example_harness example_cfg no_window_faults healthy_env initial_runner
    (example_window ∅) (example_run healthy_env ∅).1 (example_run healthy_env ∅).2) as (_&_&Hres).
  - done.
  - vm_compute. discriminate.
  - apply surjective_pairing.
  - destruct (example_run healthy_env ∅).2 as [res|e] eqn:Hr; [|vm_compute in Hr; discriminate Hr].
    split; [|vm_compute; reflexivity]. exists res. split; [reflexivity|].
    split; [vm_compute in Hr; injection Hr as <-; reflexivity|]. apply (Hres res). reflexivity.
Defined.

(** A cycle whose verification raises reports and counts [healthy], with an
    exception for its caller. *)
Lemma crashed_cycle_reports_healthy :
  let r := example_run (example_env AUTO_RESUME 0 (Raise RuntimeError) "2900.5") ∅ in
  r.2 = Raise RuntimeError ∧ ru_statuses (ws_runner r.1) = [healthy] ∧
  w_fs (ws_world r.1) !! "/e.md" = Some (newline +:+ "## cycle run_timestamp=1970-01-01T00:00:00+00:00" +:+ newline +:+
    "- status: healthy" +:+ newline +:+ "- cycle_duration_ms: 500.0" +:+ newline +:+ "- drift_count: 0 / 0 partitions" +:+ newline +:+
    "- iops_gate_ok: True" +:+ newline +:+ "- iops_delta_pct: N/A" +:+ newline +:+ "- consecutive_pass_count: 0" +:+ newline).
Proof. split; [vm_compute; reflexivity|]. split; vm_compute; reflexivity. Qed.

(** After a drain timeout the runner leaves the signal in place: the compactor
    stays stopped. *)
Lemma timed_out_cycle_keeps_barrier :
  let r := example_run (example_env AUTO_RESUME 1000 (Ok []) "2900.5") ∅ in
  (∃ res, r.2 = Ok res ∧ wr_status res = barrier_drain_timeout) ∧ w_fs (ws_world r.1) !! "/d/signal" = Some "barrier_active".
Proof. split; [eexists; split; vm_compute; reflexivity|vm_compute; reflexivity]. Qed.

(** A quantile of no samples is [NaN] to Prometheus, and breaches the gate. *)
Lemma no_samples_breach_the_gate :
  (∀ response, query_value response = None → query_prometheus default_baseline response = default_baseline) ∧
  (∃ d, snapshot default_baseline default_gate (Responses (sample "NaN") (sample "1") (sample "1") (sample "1")) = Ok d ∧
     id_within_15pct_gate d = false).
Proof. split; [by intros response Hr; unfold query_prometheus; rewrite Hr|]. eexists. split; vm_compute; reflexivity. Qed.

(** A cycle over no partition is healthy and counts as a pass; a cycle that is
    skipped does not end the passes in a row. *)
Lemma nothing_verified_is_healthy :
  let r := example_run (example_env AUTO_RESUME 0 (Ok []) "2900.5") ∅ in
  (∃ res, r.2 = Ok res ∧ wr_status res = healthy) ∧ ru_consecutive_pass_count (ws_runner r.1) = 1.
Proof. split; [eexists; split; vm_compute; reflexivity|vm_compute; reflexivity]. Qed.

