(* ===== verification/Clock.v ===== *)
(** * Readings of a clock that does not go back

    A history of calls reads the clock in some order; [chain t l] says that
    the readings [l] start at [t] or later and never decrease, [chain_end] is
    the last of them. *)
From S2P Require Import Prelude.
Open Scope Z_scope.

Fixpoint chain (t : Z) (l : list Z) : Prop := match l with [] => True | x :: l => t <= x ∧ chain x l end.
Fixpoint chain_end (t : Z) (l : list Z) : Z := match l with [] => t | x :: l => chain_end x l end.

Lemma chain_app t l1 l2 : chain t (l1 ++ l2) ↔ chain t l1 ∧ chain (chain_end t l1) l2.
Proof. revert t. induction l1 as [|x l1 IH]; intros t; simpl; [tauto|]. rewrite IH. tauto. Qed.
Lemma chain_end_app t l1 l2 : chain_end t (l1 ++ l2) = chain_end (chain_end t l1) l2.
Proof. revert t. induction l1 as [|x l1 IH]; intros t; [done|]. apply IH. Qed.
Lemma chain_le t l : chain t l → t <= chain_end t l.
Proof. revert t. induction l as [|x l IH]; intros t; simpl; [lia|]. intros [? ?%IH]. lia. Qed.
