(* ===== verification/ReaderCache.v ===== *)
(** * The readers' cache ([io/reader_cache.py])

    Least-recently-used entries with an age limit, a bound on their number, an
    optional bound on their bytes, and a flush that checks itself with a probe
    entry.  The ordered dictionary is a [dict] of [PyDict], oldest access
    first.  Clock readings are nanoseconds and arguments of the operations;
    the lock makes each section of a method one step, and what other threads
    do between the sections of [flush_all] is an argument of it. *)
From S2P Require Import Prelude Clock PyDict PyFloat.
Open Scope string_scope.
Open Scope list_scope.
Open Scope Z_scope.

Record CacheEntry := MkCacheEntry { ce_value : bytes; ce_inserted_at : Z; ce_last_accessed_at : Z }.
Record cache_config := CacheConfig { cc_capacity : Z; cc_ttl : Z; cc_max_bytes : option Z; cc_latency_window : nat }.
Record cache := Cache {
  ca_entries : dict string CacheEntry; ca_hits : Z; ca_misses : Z; ca_bytes : Z; ca_latencies : list Z }.
Definition empty_cache : cache := Cache [] 0 0 0 [].

(** [OrderedDict.move_to_end], [popitem(last=False)] *)
Definition move_to_end (d : dict string CacheEntry) (key : string) : dict string CacheEntry :=
  match dget d key with Some e => dremove d key ++ [(key, e)] | None => d end.
(** [deque(maxlen=n).append] *)
Definition push_bounded (n : nat) (l : list Z) (x : Z) : list Z := drop (length l + 1 - n) (l ++ [x]).

(** [del self._cache[key]], with the byte count as it is *)
Definition set_entries (f : dict string CacheEntry → dict string CacheEntry) (c : cache) : cache :=
  Cache (f (ca_entries c)) (ca_hits c) (ca_misses c) (ca_bytes c) (ca_latencies c).

Section cache.
Context (cfg : cache_config).

Definition count_miss (elapsed : Z) (c : cache) : cache :=
  Cache (ca_entries c) (ca_hits c) (ca_misses c + 1) (ca_bytes c) (push_bounded (cc_latency_window cfg) (ca_latencies c) elapsed).
Definition count_hit (elapsed : Z) (c : cache) : cache :=
  Cache (ca_entries c) (ca_hits c + 1) (ca_misses c) (ca_bytes c) (push_bounded (cc_latency_window cfg) (ca_latencies c) elapsed).

(** [get]; [elapsed] is the latency it measures *)
Definition get (key : string) (now elapsed : Z) (c : cache) : cache * option bytes :=
  match dget (ca_entries c) key with
  | None => (count_miss elapsed c, None)
  | Some e =>
      if ce_inserted_at e + cc_ttl cfg <? now
      then (count_miss elapsed (set_entries (λ d, dremove d key) c), None)
      else (count_hit elapsed (set_entries (λ d,
              move_to_end (dset d key (MkCacheEntry (ce_value e) (ce_inserted_at e) now)) key) c), Some (ce_value e))
  end.

(** The eviction loop for the byte budget *)
Fixpoint evict_to_budget (max_bytes len : Z) (d : dict string CacheEntry) (current : Z) : dict string CacheEntry * Z :=
  match d with
  | [] => ([], current)
  | (k, e) :: d' =>
      if max_bytes <? current + len then evict_to_budget max_bytes len d' (current - blen (ce_value e)) else (d, current)
  end.

(** [put]; [popitem] of an empty dictionary raises *)
Definition put (key : string) (value : bytes) (now : Z) : proc cache unit := λ c,
  match dget (ca_entries c) key with
  | Some e =>
      (Cache (move_to_end (dset (ca_entries c) key (MkCacheEntry value now now)) key) (ca_hits c) (ca_misses c)
         (ca_bytes c - blen (ce_value e) + blen value) (ca_latencies c), Ok tt)
  | None =>
      let '(d, b) := match cc_max_bytes cfg with
                     | Some m => evict_to_budget m (blen value) (ca_entries c) (ca_bytes c)
                     | None => (ca_entries c, ca_bytes c)
                     end in
      let stored d b := (Cache (d ++ [(key, MkCacheEntry value now now)]) (ca_hits c) (ca_misses c) (b + blen value) (ca_latencies c), Ok tt) in
      if cc_capacity cfg <=? Z.of_nat (length d)
      then match d with
           | [] => (Cache d (ca_hits c) (ca_misses c) b (ca_latencies c), Raise KeyError)
           | (_, e) :: d' => stored d' (b - blen (ce_value e))
           end
      else stored d b
  end.

(** [self._cache.pop(key, None)] *)
Definition pop (key : string) (c : cache) : cache * option CacheEntry :=
  (set_entries (λ d, dremove d key) c, dget (ca_entries c) key).

Definition reset_counters (c : cache) : cache := Cache (ca_entries c) 0 0 (ca_bytes c) [].

(** What another thread may do *)
Inductive cache_op := OpGet (key : string) (now elapsed : Z) | OpPut (key : string) (value : bytes) (now : Z).
Definition run_op (c : cache) (op : cache_op) : cache :=
  match op with OpGet key now elapsed => (get key now elapsed c).1 | OpPut key value now => (put key value now c).1 end.
Definition run_ops (ops : list cache_op) (c : cache) : cache := foldl run_op c ops.

Inductive flush_status := flushed | partial_flush_failed | verify_probe_failed.
Record CacheFlushResult := MkCacheFlushResult {
  fl_status : flush_status; fl_flushed_count : Z; fl_remaining_count : Z; fl_verify_probe_key : string }.

(** [flush_all], with the probe's key, the clock at its [put] and its [get], and the operations of other threads
    after the swap, after the probe's [put], after its [pop] and after the
    [get] *)
Definition flush_all (probe : string) (now now' elapsed : Z) (o1 o2 o3 o4 : list cache_op) : proc cache CacheFlushResult := λ c,
  let flushed_count := Z.of_nat (length (ca_entries c)) in
  let c := run_ops o1 empty_cache in
  match put probe "verify_probe" now c with
  | (c, Raise e) => (c, Raise e)
  | (c, Ok _) =>
      let '(c, evicted) := pop probe (run_ops o2 c) in
      let c := match evicted with
               | Some e => Cache (ca_entries c) (ca_hits c) (ca_misses c) (ca_bytes c - blen (ce_value e)) (ca_latencies c)
               | None => c end in
      let remaining := Z.of_nat (length (ca_entries c)) in
      let '(c, probe_after) := get probe now' elapsed (run_ops o3 c) in
      let c := reset_counters (run_ops o4 c) in
      (c, Ok match probe_after with
             | Some _ => MkCacheFlushResult verify_probe_failed flushed_count remaining probe
             | None => if 0 <? remaining then MkCacheFlushResult partial_flush_failed flushed_count remaining probe
                       else MkCacheFlushResult flushed flushed_count 0 probe
             end)
  end.

(** [verify_flushed] *)
Definition verify_flushed (probe : string) (now now' elapsed : Z) : proc cache bool := λ c,
  match ca_entries c with
  | _ :: _ => (c, Ok false)
  | [] =>
      match put probe "check" now c with
      | (c, Raise e) => (c, Raise e)
      | (c, Ok _) =>
          let '(c, _) := pop probe c in
          let '(c, found) := get probe now' elapsed c in
          (reset_counters c, Ok (bool_decide (found = None)))
      end
  end.

Definition current_bytes (c : cache) : Z := ca_bytes c.
(** [hit_ratio] *)
Definition hit_ratio (c : cache) : double :=
  let total := ca_hits c + ca_misses c in if 0 <? total then int_div (ca_hits c) total else f0_00.

(** [math.ceil(len * 0.99) - 1], held within the list *)
Definition f0_99 : double := pos_double 8917127262193582 (-53).
Definition ceil_double (x : double) : Z :=
  match x with
  | S754_finite s m e => let n := if s then Z.neg m else Z.pos m in
      if 0 <=? e then n * 2 ^ e else - ((- n) / 2 ^ (- e))
  | _ => 0
  end.
Definition p99_index (n : nat) : nat :=
  let len := Z.of_nat n in
  Z.to_nat (Z.max 0 (Z.min (len - 1) (ceil_double (SFmul 53 1024 (int_div len 1) f0_99) - 1))).
(** [p99_ms], in the unit of the latencies *)
Definition p99 (c : cache) : Z :=
  match ca_latencies c with
  | [] => 0
  | l => nth (p99_index (length l)) (sort_le Z.leb l) 0
  end.

(** [stats] *)
Record cache_stats := CacheStats {
  st_size : Z; st_capacity : Z; st_ttl : Z; st_hit_count : Z; st_miss_count : Z; st_hit_ratio : double; st_p99 : Z }.
Definition stats (c : cache) : cache_stats :=
  CacheStats (Z.of_nat (length (ca_entries c))) (cc_capacity cfg) (cc_ttl cfg) (ca_hits c) (ca_misses c) (hit_ratio c) (p99 c).
End cache.

(** ** Lemmas *)

Section dict_lemmas.
Implicit Types (d : dict string CacheEntry) (k : string).

Lemma dget_snoc d k e k' : k ∉ dkeys d → dget (d ++ [(k, e)]) k' = if decide (k' = k) then Some e else dget d k'.
Proof.
  intros Hk. rewrite <- dset_new by done. destruct (decide (k' = k)) as [->|Hne]; [apply dget_dset_eq|].
  apply dget_dset_ne. congruence.
Qed.
Lemma dict_wf_snoc d k e : dict_wf d → k ∉ dkeys d → dict_wf (d ++ [(k, e)]).
Proof. intros Hd Hk. rewrite <- dset_new by done. by apply dict_wf_dset. Qed.

Lemma not_key_dremove d k : dict_wf d → k ∉ dkeys (dremove d k).
Proof. intros Hd. rewrite dkeys_dremove by done. by intros [_ ?]. Qed.

Lemma move_to_end_dget d k k' : dict_wf d → dget (move_to_end d k) k' = dget d k'.
Proof.
  intros Hd. unfold move_to_end. destruct (dget d k) as [e|] eqn:He; [|done].
  rewrite dget_snoc by (by apply not_key_dremove). destruct (decide (k' = k)) as [->|Hne]; [done|]. by apply dget_dremove_ne.
Qed.
Lemma move_to_end_wf d k : dict_wf d → dict_wf (move_to_end d k).
Proof.
  intros Hd. unfold move_to_end. destruct (dget d k); [|done]. apply dict_wf_snoc; [by apply dict_wf_dremove|by apply not_key_dremove].
Qed.
Lemma move_to_end_length d k : length (move_to_end d k) = length d.
Proof.
  unfold move_to_end. destruct (dget d k) as [e|] eqn:He; [|done]. rewrite length_app, <- (length_dremove d k).
  - simpl. lia.
  - apply dget_is_Some. eauto.
Qed.
(** Setting a present key and moving it: the others, then it *)
Lemma set_and_move d k e e' : dict_wf d → dget d k = Some e → move_to_end (dset d k e') k = dremove d k ++ [(k, e')].
Proof.
  intros Hd He. unfold move_to_end. rewrite dget_dset_eq. f_equal. clear Hd. induction d as [|[j w] d IH]; [done|].
  simpl in *. destruct (decide (k = j)) as [<-|Hne]; simpl.
  - by rewrite decide_True.
  - rewrite decide_False by done. f_equal. by apply IH.
Qed.

Definition total_bytes (d : dict string CacheEntry) : Z := foldr (λ x n, blen (ce_value x.2) + n) 0 d.
Lemma total_bytes_app d1 d2 : total_bytes (d1 ++ d2) = total_bytes d1 + total_bytes d2.
Proof. unfold total_bytes. induction d1 as [|x d1 IH]; simpl; lia. Qed.
Lemma total_bytes_nonneg d : 0 <= total_bytes d.
Proof. unfold total_bytes, blen. induction d as [|x d IH]; simpl; lia. Qed.
Lemma total_bytes_dremove d k e : dget d k = Some e → total_bytes (dremove d k) + blen (ce_value e) = total_bytes d.
Proof.
  unfold total_bytes. induction d as [|[j w] d IH]; simpl; [done|]. destruct (decide (k = j)) as [<-|Hne]; [intros [= ->]; lia|].
  intros He%IH. simpl. lia.
Qed.

Lemma evict_spec m len d b d' b' : evict_to_budget m len d b = (d', b') →
  (∃ l, d = l ++ d') ∧ b' - total_bytes d' = b - total_bytes d ∧ (d' = [] ∨ b' + len <= m).
Proof.
  revert b. induction d as [|[k e] d IH]; intros b; simpl; [intros [= <- <-]; split; [by exists []|]; split; [done|by left]|].
  destruct (m <? b + len) eqn:Hm; py_bool.
  - intros ([l ->]&Heq&Hor)%IH. split; [by exists ((k, e) :: l)|]. split; [|done]. change (total_bytes ((k, e) :: l ++ d')) with (blen (ce_value e) + total_bytes (l ++ d')). lia.
  - intros [= <- <-]. split; [by exists []|]. split; [done|right; lia].
Qed.
Lemma wf_suffix l d : dict_wf (l ++ d) → dict_wf d.
Proof. unfold dict_wf, dkeys. rewrite fmap_app. by intros (_&_&?)%NoDup_app. Qed.
Lemma dget_suffix l d k : dict_wf (l ++ d) → dget d k = dget (l ++ d) k ∨ dget d k = None.
Proof.
  intros Hwf. destruct (dget d k) as [e|] eqn:He; [|by right]. left. symmetry. apply elem_dget; [done|].
  apply elem_of_app. right. by apply dget_Some_elem.
Qed.
End dict_lemmas.

Section cache_lemmas.
Context (cfg : cache_config).
Implicit Types (c : cache) (k key : string).

(** What is cached under a key, and since when *)
Definition seen c k : option (bytes * Z) := (λ e, (ce_value e, ce_inserted_at e)) <$> dget (ca_entries c) k.
Definition wf c : Prop := dict_wf (ca_entries c).

Lemma get_seen key now el c c' r : wf c → get cfg key now el c = (c', r) →
  wf c' ∧ r = match seen c key with Some (v, t) => if t + cc_ttl cfg <? now then None else Some v | None => None end ∧
  ∀ k, seen c' k = if decide (k = key) then match seen c key with Some (v, t) => if t + cc_ttl cfg <? now then None else Some (v, t) | None => None end else seen c k.
Proof.
  unfold wf, seen, get. intros Hwf. destruct (dget (ca_entries c) key) as [e|] eqn:He; cbn [fmap option_fmap option_map].
  2: { intros [= <- <-]. split_and!; [done|done|]. intros k. case_decide; [subst; cbn [count_miss ca_entries]; by rewrite He|done]. }
  destruct (ce_inserted_at e + cc_ttl cfg <? now) eqn:Ht; intros [= <- <-];
    cbn [count_miss count_hit set_entries ca_entries ce_value ce_inserted_at].
  - split_and!; [by apply dict_wf_dremove|done|]. intros k. case_decide; subst; [by rewrite dget_dremove_eq|by rewrite dget_dremove_ne].
  - split_and!; [by apply move_to_end_wf, dict_wf_dset|done|]. intros k. rewrite move_to_end_dget by (by apply dict_wf_dset).
    case_decide; subst; [by rewrite dget_dset_eq|by rewrite dget_dset_ne].
Qed.

(** What a new entry finds *)
Lemma put_new key value now c c' r : wf c → dget (ca_entries c) key = None → put cfg key value now c = (c', r) →
  ∃ l d, ca_entries c = l ++ d ∧ ca_latencies c' = ca_latencies c ∧
    match r with
    | Ok _ => ca_entries c' = d ++ [(key, MkCacheEntry value now now)] ∧ ca_bytes c' - total_bytes (ca_entries c') = ca_bytes c - total_bytes (ca_entries c) ∧
        Z.of_nat (length d) < Z.max (cc_capacity cfg) (Z.of_nat (length (ca_entries c))) ∧
        (cc_max_bytes cfg = None → Z.of_nat (length (ca_entries c)) < cc_capacity cfg → l = []) ∧
        (∀ m, cc_max_bytes cfg = Some m → d = [] ∨ ca_bytes c' <= m)
    | Raise e => e = KeyError ∧ ca_entries c' = [] ∧ d = [] ∧ cc_capacity cfg <= 0
    end.
Proof.
  intros Hwf Hnone. unfold put. rewrite Hnone.
  destruct (match cc_max_bytes cfg with Some m => _ | None => _ end) as [d b] eqn:Hev.
  assert ((∃ l, ca_entries c = l ++ d ∧ (cc_max_bytes cfg = None → l = [])) ∧ b - total_bytes d = ca_bytes c - total_bytes (ca_entries c) ∧
    (∀ m, cc_max_bytes cfg = Some m → d = [] ∨ b + blen value <= m)) as ((l&Hl&Hl0)&Hb&Hm).
  { destruct (cc_max_bytes cfg) as [m|].
    - apply evict_spec in Hev as ([l Hl]&Hb&Hor). split_and!; [exists l; by split|done|]. by intros m' [= <-].
    - injection Hev as <- <-. split_and!; [by exists []|done|done]. }
  destruct (cc_capacity cfg <=? Z.of_nat (length d)) eqn:Hcap; py_bool.
  - destruct d as [|[k0 e0] d].
    + intros [= <- <-]. exists (ca_entries c), []. cbn [ca_entries ca_latencies]. rewrite app_nil_r. split_and!; done.
    + intros [= <- <-]. cbn [ca_entries ca_latencies ca_bytes]. exists (l ++ [(k0, e0)]), d.
      rewrite <- app_assoc. rewrite total_bytes_app. cbn [total_bytes foldr snd ce_value] in *.
      assert (length (ca_entries c) = length l + S (length d))%nat as Hlen by (rewrite Hl, length_app; done).
      split_and!; [done|done|done|unfold total_bytes in *; cbn [foldr snd] in *; lia|lia| |].
      * intros Hnm Hlt. cbn [length] in Hcap. lia.
      * intros m Hmm. right. destruct (Hm m Hmm) as [|?]; [done|]. unfold blen in *. lia.
  - intros [= <- <-]. cbn [ca_entries ca_latencies ca_bytes]. exists l, d. rewrite total_bytes_app.
    assert (length (ca_entries c) = length l + length d)%nat as Hlen by (rewrite Hl, length_app; done).
    split_and!; [done|done|done|cbn; lia|lia|by intros; apply Hl0|done].
Qed.

Lemma put_seen key value now c c' r : wf c → put cfg key value now c = (c', r) →
  wf c' ∧ (r = Ok tt → seen c' key = Some (value, now)) ∧
  (∀ k, k ≠ key → seen c' k = seen c k ∨ seen c' k = None) ∧ (r ≠ Ok tt → ca_entries c' = []) ∧
  (cc_max_bytes cfg = None → is_Some (seen c key) ∨ Z.of_nat (length (ca_entries c)) < cc_capacity cfg → ∀ k, k ≠ key → seen c' k = seen c k).
Proof.
  intros Hwf Hput. destruct (dget (ca_entries c) key) as [e|] eqn:He.
  - unfold put in Hput. rewrite He in Hput. injection Hput as <- <-. unfold wf, seen. cbn [ca_entries].
    assert (∀ k, k ≠ key → dget (move_to_end (dset (ca_entries c) key (MkCacheEntry value now now)) key) k = dget (ca_entries c) k) as Hne.
    { intros k Hk. rewrite move_to_end_dget by (by apply dict_wf_dset). apply dget_dset_ne. congruence. }
    split_and!; [by apply move_to_end_wf, dict_wf_dset| | |done|].
    + intros _. rewrite move_to_end_dget by (by apply dict_wf_dset). by rewrite dget_dset_eq.
    + intros k Hk. left. by rewrite Hne.
    + intros _ _ k Hk. by rewrite Hne.
  - apply put_new in Hput as (l&d&Hl&_&Hr); [|done..]. unfold wf, seen in *. destruct r as [[]|ex].
    + destruct Hr as (Hc'&_&_&Hnol&_). rewrite Hl in Hwf. pose proof (wf_suffix _ _ Hwf) as Hd.
      assert (key ∉ dkeys d) as Hkd.
      { intros Hin. apply dget_None in He. apply He. rewrite Hl. unfold dkeys. rewrite fmap_app. apply elem_of_app. by right. }
      rewrite Hc'. split_and!; [by apply dict_wf_snoc| | |done|].
      * intros _. rewrite dget_snoc by done. by rewrite decide_True.
      * intros k Hk. rewrite dget_snoc, decide_False by done. destruct (dget_suffix l d k Hwf) as [Hs|Hs]; rewrite Hs; [left; by rewrite Hl|by right].
      * intros Hnm Hor k Hk. rewrite dget_snoc, decide_False by done. rewrite Hl. rewrite (Hnol Hnm); [done|].
        destruct Hor as [[? Hs]|]; [|done]. by rewrite He in Hs.
    + destruct Hr as (->&Hc'&_&Hcap). rewrite Hc'. split_and!; [constructor|done|by right|done|].
      intros _ [[? Hs]|Hlt] k Hk; [by rewrite He in Hs|lia].
Qed.
End cache_lemmas.

(** ** The reference: the latest [put] of each key since the last flush *)

Inductive cache_call :=
| CallOp (op : cache_op)
| CallFlush (probe : string) (now now' elapsed : Z) (o1 o2 o3 o4 : list cache_op)
| CallVerify (probe : string) (now now' elapsed : Z).

Definition run_call (cfg : cache_config) (c : cache) (call : cache_call) : cache :=
  match call with
  | CallOp op => run_op cfg c op
  | CallFlush probe now now' elapsed o1 o2 o3 o4 => (flush_all cfg probe now now' elapsed o1 o2 o3 o4 c).1
  | CallVerify probe now now' elapsed => (verify_flushed cfg probe now now' elapsed c).1
  end.
Definition run_calls (cfg : cache_config) (calls : list cache_call) : cache := foldl (run_call cfg) empty_cache calls.

Definition reference_op (m : gmap string (bytes * Z)) (op : cache_op) : gmap string (bytes * Z) :=
  match op with OpGet _ _ _ => m | OpPut key value now => <[key := (value, now)]> m end.
Definition reference_call (m : gmap string (bytes * Z)) (call : cache_call) : gmap string (bytes * Z) :=
  match call with
  | CallOp op => reference_op m op
  | CallFlush _ _ _ _ o1 o2 o3 o4 => foldl reference_op ∅ (o1 ++ o2 ++ o3 ++ o4)
  | CallVerify _ _ _ _ => m
  end.
Definition reference (calls : list cache_call) : gmap string (bytes * Z) := foldl reference_call ∅ calls.

(** The keys put, the probes and the clock readings of a history *)
Definition op_key (op : cache_op) : list string := match op with OpGet _ _ _ => [] | OpPut key _ _ => [key] end.
Definition op_time (op : cache_op) : Z := match op with OpGet _ now _ => now | OpPut _ _ now => now end.
Definition call_ops (call : cache_call) : list cache_op :=
  match call with CallOp op => [op] | CallFlush _ _ _ _ o1 o2 o3 o4 => o1 ++ o2 ++ o3 ++ o4 | CallVerify _ _ _ _ => [] end.
Definition call_probe (call : cache_call) : option string :=
  match call with CallOp _ => None | CallFlush probe _ _ _ _ _ _ _ | CallVerify probe _ _ _ => Some probe end.

Section reference_lemmas.
Context (cfg : cache_config).
Implicit Types (c : cache) (m : gmap string (bytes * Z)) (ops : list cache_op) (exc : option string).

(** Never another value: an entry is the reference's. *)
Definition sound exc c m : Prop := wf c ∧ ∀ k, exc ≠ Some k → seen c k = None ∨ seen c k = m !! k.

Lemma sound_op exc c m op : sound exc c m → sound exc (run_op cfg c op) (reference_op m op).
Proof.
  intros [Hwf Hs]. destruct op as [key now el|key value now]; cbn [run_op reference_op].
  - destruct (get cfg key now el c) as [c' r] eqn:Hg. apply get_seen in Hg as (Hwf'&_&Hg); [|done]. split; [done|].
    intros k Hk. cbn [fst]. rewrite Hg. specialize (Hs k Hk). case_decide; [subst k|done].
    destruct (seen c key) as [[v t]|]; [|by left]. destruct (_ <? _); [by left|done].
  - destruct (put cfg key value now c) as [c' r] eqn:Hp. apply put_seen in Hp as (Hwf'&Hk&Hne&Hraise&_); [|done]. split; [done|].
    intros k Hexc. cbn [fst]. destruct (decide (k = key)) as [->|Hnk].
    + rewrite lookup_insert_eq. destruct r as [[]|e]; [right; by apply Hk|left]. unfold seen. by rewrite Hraise.
    + rewrite lookup_insert_ne by done. destruct (Hne k Hnk) as [->| ->]; [by apply Hs|by left].
Qed.
Lemma sound_ops exc ops c m : sound exc c m → sound exc (run_ops cfg ops c) (foldl reference_op m ops).
Proof. revert c m. induction ops as [|op ops IH]; intros c m Hs; [done|]. simpl. by apply IH, sound_op. Qed.

(** The probe's [put] and [pop] *)
Lemma sound_probe probe value now c c' r m : sound None c m → put cfg probe value now c = (c', r) → sound (Some probe) c' m.
Proof.
  intros [Hwf Hs] (Hwf'&_&Hne&_&_)%put_seen; [|done]. split; [done|]. intros k Hk.
  destruct (Hne k) as [->| ->]; [congruence|by apply Hs|by left].
Qed.
Lemma sound_pop probe c m : sound (Some probe) c m → sound None (pop probe c).1 m.
Proof.
  intros [Hwf Hs]. unfold pop, sound, wf, seen in *. cbn [fst set_entries ca_entries]. split; [by apply dict_wf_dremove|].
  intros k _. destruct (decide (probe = k)) as [<-|Hne]; [left; by rewrite dget_dremove_eq|]. rewrite dget_dremove_ne by done.
  apply Hs. congruence.
Qed.
Lemma sound_same_entries exc c c' m : ca_entries c' = ca_entries c → sound exc c m → sound exc c' m.
Proof. unfold sound, wf, seen. by intros ->. Qed.
Lemma sound_raised exc c m : ca_entries c = [] → sound exc c m.
Proof. unfold sound, wf, seen. intros ->. split; [constructor|by left]. Qed.
Lemma sound_get exc key now el c m : sound exc c m → sound exc (get cfg key now el c).1 m.
Proof. apply (sound_op exc c m (OpGet key now el)). Qed.

Lemma sound_flush probe now now' el o1 o2 o3 o4 c :
  sound None (flush_all cfg probe now now' el o1 o2 o3 o4 c).1 (foldl reference_op ∅ (o1 ++ o2 ++ o3 ++ o4)).
Proof.
  assert (sound None empty_cache ∅) as H0 by (split; [constructor|by left]). apply (sound_ops None o1) in H0. unfold flush_all.
  destruct (put cfg probe _ now (run_ops cfg o1 empty_cache)) as [c1 [[]|e]] eqn:Hp.
  2: { cbn [fst]. apply sound_raised. apply put_seen in Hp as (_&_&_&Hr&_); [by apply Hr|apply H0]. }
  apply (sound_probe _ _ _ _ _ _ _ H0) in Hp. apply (sound_ops _ o2), sound_pop in Hp.
  destruct (pop probe (run_ops cfg o2 c1)) as [c2 ev]. cbn [fst] in Hp.
  match goal with |- context [run_ops cfg o3 ?c'] => assert (sound None c' (foldl reference_op (foldl reference_op ∅ o1) o2)) as Hp2 by
    (destruct ev; [eapply sound_same_entries; [|exact Hp]; reflexivity|exact Hp]); clear Hp; revert Hp2; generalize c'; intros c3 Hp end.
  apply (sound_ops _ o3), (sound_get None probe now' el) in Hp. destruct (get cfg probe now' el _) as [c4 after].
  cbn [fst] in *. apply (sound_ops _ o4) in Hp. rewrite !foldl_app. eapply sound_same_entries; [|exact Hp]. done.
Qed.

Lemma sound_verify probe now now' el c m : sound None c m → sound None (verify_flushed cfg probe now now' el c).1 m.
Proof.
  intros Hs. unfold verify_flushed. destruct (ca_entries c); [|done].
  destruct (put cfg probe _ now c) as [c1 [[]|e]] eqn:Hp.
  - apply (sound_probe _ _ _ _ _ _ _ Hs) in Hp. apply sound_pop in Hp. destruct (pop probe c1) as [c2 ev]. cbn [fst] in Hp.
    apply (sound_get None probe now' el) in Hp. destruct (get cfg probe now' el c2) as [c3 found]. exact Hp.
  - cbn [fst]. apply sound_raised. apply put_seen in Hp as (_&_&_&Hr&_); [by apply Hr|apply Hs].
Qed.

Lemma sound_calls calls : sound None (run_calls cfg calls) (reference calls).
Proof.
  induction calls as [|call calls IH] using rev_ind; [split; [constructor|by left]|].
  unfold run_calls, reference. rewrite !foldl_snoc. destruct call; cbn [run_call reference_call].
  - by apply sound_op.
  - apply sound_flush.
  - by apply sound_verify.
Qed.
End reference_lemmas.

Section complete_lemmas.
Context (cfg : cache_config) (now : Z).
Implicit Types (c : cache) (m : gmap string (bytes * Z)) (ops : list cache_op) (exc : option string) (X : gset string).
Context (Hbudget : cc_max_bytes cfg = None).

(** Never a forgotten value: with room for the keys [X], what the reference
    holds and is young enough at [now] is cached. *)
Definition complete exc X c m : Prop :=
  wf c ∧ (∀ k, is_Some (seen c k) → k ∈ X) ∧
  ∀ k v t, exc ≠ Some k → m !! k = Some (v, t) → now <= t + cc_ttl cfg → seen c k = Some (v, t).

Lemma key_seen c k : k ∈ dkeys (ca_entries c) ↔ is_Some (seen c k).
Proof. rewrite <- dget_is_Some. unfold seen. by rewrite fmap_is_Some. Qed.

Lemma room X c key : wf c → (∀ k, is_Some (seen c k) → k ∈ X) → key ∈ X → Z.of_nat (size X) <= cc_capacity cfg →
  is_Some (seen c key) ∨ Z.of_nat (length (ca_entries c)) < cc_capacity cfg.
Proof.
  intros Hwf Hin Hkey Hcap. destruct (seen c key) eqn:Hs; [by left|right].
  assert (NoDup (key :: dkeys (ca_entries c))) as Hnd.
  { apply NoDup_cons. split; [rewrite key_seen, Hs; by intros []|exact Hwf]. }
  assert (length (key :: dkeys (ca_entries c)) <= size X)%nat as Hle.
  { rewrite <- (size_list_to_set (C := gset string)) by done. apply subseteq_size. intros k. rewrite elem_of_list_to_set.
    intros [->|Hk]%elem_of_cons; [done|]. by apply Hin, key_seen. }
  unfold dkeys in Hle. cbn [length] in Hle. rewrite length_fmap in Hle. lia.
Qed.

Lemma put_ok key value t c c' r : wf c → 0 < cc_capacity cfg → put cfg key value t c = (c', r) → r = Ok tt.
Proof.
  intros Hwf Hcap Hp. destruct (dget (ca_entries c) key) eqn:He; [unfold put in Hp; rewrite He in Hp; by injection Hp as _ <-|].
  apply put_new in Hp as (l&d&_&_&Hr); [|done..]. destruct r as [[]|e]; [done|]. destruct Hr as (_&_&_&?). lia.
Qed.

Lemma complete_op exc X c m op : (∀ k, k ∈ op_key op → k ∈ X) → Z.of_nat (size X) <= cc_capacity cfg → op_time op <= now →
  complete exc X c m → complete exc X (run_op cfg c op) (reference_op m op).
Proof.
  intros Hkeys Hcap Ht (Hwf&Hin&Hc). destruct op as [key t0 el|key value t0]; cbn [run_op reference_op op_key op_time] in *.
  - destruct (get cfg key t0 el c) as [c' r] eqn:Hg. apply get_seen in Hg as (Hwf'&_&Hg); [|done]. cbn [fst]. split; [done|]. split.
    + intros k. rewrite Hg. case_decide; [subst k|by apply Hin]. destruct (seen c key) as [[v t]|] eqn:Hs; [|by intros []]. intros _. apply Hin. by rewrite Hs.
    + intros k v t Hk Hm Hle. rewrite Hg. case_decide; [subst k|by apply Hc]. rewrite (Hc key v t Hk Hm Hle).
      destruct (t + cc_ttl cfg <? t0) eqn:Hlt; [|done]. py_bool. lia.
  - destruct (put cfg key value t0 c) as [c' r] eqn:Hp. assert (key ∈ X) as Hkey by (apply Hkeys; by left).
    assert (0 < Z.of_nat (size X)) as Hpos.
    { destruct (size X) eqn:Hsz; [|lia]. apply size_empty_inv in Hsz. set_solver. }
    pose proof (put_ok _ _ _ _ _ _ Hwf ltac:(lia) Hp) as ->.
    apply put_seen in Hp as (Hwf'&Hput&Hne&_&Hall); [|done]. cbn [fst]. specialize (Hput eq_refl).
    specialize (Hall Hbudget (room X c key Hwf Hin Hkey Hcap)). split; [done|]. split.
    + intros k. destruct (decide (k = key)) as [->|Hnk]; [done|]. rewrite Hall by done. apply Hin.
    + intros k v t Hk. destruct (decide (k = key)) as [->|Hnk]; [rewrite lookup_insert_eq; by intros [= <- <-]|].
      rewrite lookup_insert_ne by done. rewrite Hall by done. by apply Hc.
Qed.
Lemma complete_ops exc X ops c m : (∀ op k, op ∈ ops → k ∈ op_key op → k ∈ X) → Z.of_nat (size X) <= cc_capacity cfg →
  (∀ op, op ∈ ops → op_time op <= now) → complete exc X c m → complete exc X (run_ops cfg ops c) (foldl reference_op m ops).
Proof.
  intros Hkeys Hcap Ht. revert c m. induction ops as [|op ops IH]; intros c m Hc; [done|]. simpl. apply IH; [set_solver|set_solver|].
  apply complete_op; [set_solver|done|set_solver|done].
Qed.

Lemma complete_mono exc X Y c m : X ⊆ Y → complete exc X c m → complete exc Y c m.
Proof. intros HXY (?&Hin&?). split; [done|]. split; [|done]. intros k Hk. by apply HXY, Hin. Qed.

(** The probe takes one more place while it is there. *)
Lemma complete_probe X probe value t c c' r m : probe ∉ X → Z.of_nat (size X) < cc_capacity cfg →
  complete None X c m → put cfg probe value t c = (c', r) → r = Ok tt ∧ complete (Some probe) ({[probe]} ∪ X) c' m.
Proof.
  intros HpX Hcap (Hwf&Hin&Hc) Hp. pose proof (put_ok _ _ _ _ _ _ Hwf ltac:(lia) Hp) as ->. split; [done|].
  apply put_seen in Hp as (Hwf'&Hput&Hne&_&Hall); [|done].
  assert (is_Some (seen c probe) ∨ Z.of_nat (length (ca_entries c)) < cc_capacity cfg) as Hroom.
  { apply (room ({[probe]} ∪ X)); [done|set_solver|set_solver|]. rewrite size_union, size_singleton by set_solver. lia. }
  specialize (Hall Hbudget Hroom). split; [done|]. split.
  - intros k. destruct (decide (k = probe)) as [->|Hnk]; [set_solver|]. rewrite Hall by done. set_solver.
  - intros k v t' Hk. destruct (decide (k = probe)) as [->|Hnk]; [congruence|]. rewrite Hall by done. by apply Hc.
Qed.
Lemma complete_pop X probe c m : probe ∉ X → m !! probe = None →
  complete (Some probe) ({[probe]} ∪ X) c m → complete None X (pop probe c).1 m.
Proof.
  intros HpX Hm (Hwf&Hin&Hc). unfold pop, complete, wf, seen in *. cbn [fst set_entries ca_entries]. split; [by apply dict_wf_dremove|]. split.
  - intros k. destruct (decide (probe = k)) as [<-|Hne]; [rewrite dget_dremove_eq by done; by intros []|].
    rewrite dget_dremove_ne by done. intros Hk%Hin. set_solver.
  - intros k v t _ Hk Hle. destruct (decide (probe = k)) as [<-|Hne]; [congruence|]. rewrite dget_dremove_ne by done.
    apply Hc; [congruence|done|done].
Qed.
Lemma complete_same_entries exc X c c' m : ca_entries c' = ca_entries c → complete exc X c m → complete exc X c' m.
Proof. unfold complete, wf, seen. by intros ->. Qed.
End complete_lemmas.

Lemma reference_ops_key (m : gmap string (bytes * Z)) (ops : list cache_op) (X : gset string) : (∀ op k, op ∈ ops → k ∈ op_key op → k ∈ X) → (∀ k, is_Some (m !! k) → k ∈ X) →
  ∀ k, is_Some (foldl reference_op m ops !! k) → k ∈ X.
Proof.
  revert m. induction ops as [|op ops IH]; intros m Hk Hm; [done|]. simpl. apply IH; [set_solver|]. destruct op as [|key v t]; [done|]. simpl.
  intros k. destruct (decide (key = k)) as [<-|Hne]; [intros _; apply (Hk (OpPut key v t)); set_solver|]. rewrite lookup_insert_ne by done. apply Hm.
Qed.

Definition call_time (call : cache_call) : list Z :=
  match call with CallOp _ => [] | CallFlush _ t t' _ _ _ _ _ | CallVerify _ t t' _ => [t; t'] end.
(** A history over the keys [X], with probes of their own, read by [now] *)
Definition call_within (X : gset string) (now : Z) (call : cache_call) : Prop :=
  (∀ op, op ∈ call_ops call → op_time op <= now ∧ ∀ k, k ∈ op_key op → k ∈ X) ∧
  (∀ p, call_probe call = Some p → p ∉ X) ∧ (∀ t, t ∈ call_time call → t <= now).

Section complete_calls.
Context (cfg : cache_config) (now : Z) (X : gset string).
Context (Hbudget : cc_max_bytes cfg = None) (Hcap : Z.of_nat (size X) < cc_capacity cfg).
Implicit Types (c : cache) (m : gmap string (bytes * Z)).

Lemma complete_flush probe t t' el o1 o2 o3 o4 c : call_within X now (CallFlush probe t t' el o1 o2 o3 o4) →
  complete cfg now None X (flush_all cfg probe t t' el o1 o2 o3 o4 c).1 (foldl reference_op ∅ (o1 ++ o2 ++ o3 ++ o4)).
Proof.
  intros (Hops&Hprobe&Htime). cbn [call_ops call_probe call_time] in *. specialize (Hprobe probe eq_refl). specialize (Htime t' ltac:(set_solver)).
  assert (∀ o : list cache_op, (∀ op : cache_op, op ∈ o → op ∈ o1 ++ o2 ++ o3 ++ o4) → (∀ (op : cache_op) k, op ∈ o → k ∈ op_key op → k ∈ X) ∧ (∀ op : cache_op, op ∈ o → op_time op <= now)) as Hsub.
  { intros o Ho. split; [intros op k Hop; by apply Hops, Ho|intros op Hop; by apply Hops, Ho]. }
  destruct (Hsub o1) as [K1 T1]; [set_solver|]. destruct (Hsub o2) as [K2 T2]; [set_solver|].
  destruct (Hsub o3) as [K3 T3]; [set_solver|]. destruct (Hsub o4) as [K4 T4]; [set_solver|]. clear Hsub Hops.
  assert (complete cfg now None X empty_cache ∅) as H0 by (split; [constructor|split; [by intros ? []|done]]).
  apply (complete_ops cfg now Hbudget None X o1 _ _ K1 ltac:(lia) T1) in H0. unfold flush_all.
  assert (∀ (ops : list cache_op) m, (∀ (op : cache_op) k, op ∈ ops → k ∈ op_key op → k ∈ X) → (∀ k, is_Some (m !! k) → k ∈ X) → foldl reference_op m ops !! probe = None) as Hnone.
  { intros ops m Hk Hm. destruct (foldl reference_op m ops !! probe) eqn:Hp; [|done]. exfalso. apply Hprobe, (reference_ops_key m ops X Hk Hm). by rewrite Hp. }
  destruct (put cfg probe _ t (run_ops cfg o1 empty_cache)) as [c1 r] eqn:Hp.
  apply (complete_probe cfg now Hbudget X probe _ _ _ _ _ _ Hprobe Hcap H0) in Hp as [-> Hp].
  apply (complete_ops cfg now Hbudget _ _ o2) in Hp; [|set_solver|rewrite size_union, size_singleton by set_solver; lia|done].
  apply (complete_pop cfg now Hbudget) in Hp; [|done|rewrite <- foldl_app; apply Hnone; [set_solver|intros k Hk; rewrite lookup_empty in Hk; by destruct Hk]].
  destruct (pop probe (run_ops cfg o2 c1)) as [c2 ev]. cbn [fst] in Hp.
  match goal with |- context [run_ops cfg o3 ?c'] => assert (complete cfg now None X c' (foldl reference_op (foldl reference_op ∅ o1) o2)) as Hp2 by
    (destruct ev; [eapply complete_same_entries; [|exact Hp]; reflexivity|exact Hp]); clear Hp; revert Hp2; generalize c'; intros c3 Hp end.
  apply (complete_ops cfg now Hbudget _ _ o3 _ _ K3 ltac:(lia) T3) in Hp.
  apply (complete_op cfg now Hbudget _ _ _ _ (OpGet probe t' el)) in Hp; [|by intros k Hk; apply not_elem_of_nil in Hk|lia|done].
  cbn [run_op reference_op] in Hp. destruct (get cfg probe t' el _) as [c4 after].
  cbn [fst] in *. apply (complete_ops cfg now Hbudget _ _ o4 _ _ K4 ltac:(lia) T4) in Hp. rewrite !foldl_app.
  eapply complete_same_entries; [|exact Hp]. done.
Qed.

Lemma complete_verify probe t t' el c m : call_within X now (CallVerify probe t t' el) → (∀ k, is_Some (m !! k) → k ∈ X) →
  complete cfg now None X c m → complete cfg now None X (verify_flushed cfg probe t t' el c).1 m.
Proof.
  intros (_&Hprobe&Htime) Hm Hc. cbn [call_probe call_time] in *. specialize (Hprobe probe eq_refl). specialize (Htime t' ltac:(set_solver)).
  unfold verify_flushed. destruct (ca_entries c); [|done]. destruct (put cfg probe _ t c) as [c1 r] eqn:Hp.
  apply (complete_probe cfg now Hbudget X probe _ _ _ _ _ _ Hprobe Hcap Hc) in Hp as [-> Hp].
  apply (complete_pop cfg now Hbudget) in Hp; [|done|destruct (m !! probe) eqn:Hmp; [exfalso; apply Hprobe, Hm; by rewrite Hmp|done]].
  destruct (pop probe c1) as [c2 ev]. cbn [fst] in Hp.
  apply (complete_op cfg now Hbudget _ _ _ _ (OpGet probe t' el)) in Hp; [|by intros k Hk; apply not_elem_of_nil in Hk|lia|done].
  cbn [run_op reference_op] in Hp. destruct (get cfg probe t' el c2) as [c3 found]. exact Hp.
Qed.

Lemma reference_key calls : Forall (call_within X now) calls → ∀ k, is_Some (reference calls !! k) → k ∈ X.
Proof.
  induction calls as [|call calls IH] using rev_ind; [intros _ k Hk; change (reference []) with (∅ : gmap string (bytes * Z)) in Hk; rewrite lookup_empty in Hk; by destruct Hk|]. intros [Hc [Hw _]%Forall_cons]%Forall_app.
  unfold reference. rewrite foldl_snoc. fold (reference calls). destruct Hw as (Hops&_&_). destruct call as [op|probe t t' el o1 o2 o3 o4|probe t t' el]; cbn [reference_call call_ops] in *.
  - change (reference_op (reference calls) op) with (foldl reference_op (reference calls) [op]).
    apply reference_ops_key; [intros op' k Hop; by apply Hops|by apply IH].
  - apply reference_ops_key; [intros op' k Hop; by apply Hops|intros k Hk; rewrite lookup_empty in Hk; by destruct Hk].
  - by apply IH.
Qed.

Lemma complete_calls calls : Forall (call_within X now) calls → complete cfg now None X (run_calls cfg calls) (reference calls).
Proof.
  induction calls as [|call calls IH] using rev_ind; [intros _; split; [constructor|split; [intros k Hk; by destruct Hk|done]]|].
  intros Hall. pose proof Hall as [Hc [Hw _]%Forall_cons]%Forall_app. specialize (IH Hc). unfold run_calls, reference. rewrite !foldl_snoc.
  destruct call as [op|probe t t' el o1 o2 o3 o4|probe t t' el]; cbn [run_call reference_call].
  - destruct Hw as (Hops&_&_). destruct (Hops op ltac:(by left)) as [Ht Hk]. apply complete_op; [done|done|lia|done|exact IH].
  - by apply complete_flush.
  - apply complete_verify; [done|by apply reference_key|exact IH].
Qed.
End complete_calls.

(** ** The invariant *)

Section invariant.
Context (cfg : cache_config) (Hcap : 1 <= cc_capacity cfg).
Implicit Types (c : cache).

Definition by_access (x y : string * CacheEntry) : Prop := ce_last_accessed_at x.2 <= ce_last_accessed_at y.2.
(** Bounds, and the order of the entries: the least recently used first *)
Definition bounded c : Prop :=
  wf c ∧ Z.of_nat (length (ca_entries c)) <= cc_capacity cfg ∧ total_bytes (ca_entries c) <= ca_bytes c ∧
  (length (ca_latencies c) <= cc_latency_window cfg)%nat.
Definition ordered (t : Z) c : Prop :=
  StronglySorted by_access (ca_entries c) ∧
  Forall (λ x, ce_inserted_at x.2 <= ce_last_accessed_at x.2 ∧ ce_last_accessed_at x.2 <= t) (ca_entries c).
Definition cache_ok (t : Z) c : Prop := bounded c ∧ ordered t c.

Lemma push_bounded_length n l x : (length l <= n)%nat → (length (push_bounded n l x) <= n)%nat.
Proof. unfold push_bounded. rewrite length_drop, length_app. simpl. lia. Qed.

Lemma Forall_sublist (P : string * CacheEntry → Prop) l1 l2 : sublist l1 l2 → Forall P l2 → Forall P l1.
Proof. intros Hsub. rewrite !Forall_forall. intros HP x Hx. by eapply HP, elem_of_sublist. Qed.
Lemma StronglySorted_sublist (l1 l2 : list (string * CacheEntry)) : sublist l1 l2 → StronglySorted by_access l2 → StronglySorted by_access l1.
Proof.
  induction 1 as [|x l1 l2 Hsub IH|x l1 l2 Hsub IH]; intros Hs; [constructor| |]; apply StronglySorted_inv in Hs as [Hs Hx]; [|by apply IH].
  constructor; [by apply IH|]. by eapply Forall_sublist.
Qed.
Lemma StronglySorted_snoc (l : list (string * CacheEntry)) x : StronglySorted by_access l → Forall (λ y, by_access y x) l → StronglySorted by_access (l ++ [x]).
Proof.
  induction 1 as [|y l Hs IH Hy]; simpl; intros Hx; [repeat constructor|]. apply Forall_cons in Hx as [Hyx Hx].
  constructor; [by apply IH|]. apply Forall_app. by split; [|constructor].
Qed.

(** An ordered cache with fewer entries, and with one more accessed now *)
Lemma ordered_sublist t c c' : sublist (ca_entries c') (ca_entries c) → ordered t c → ordered t c'.
Proof. intros Hsub [Hs Hf]. split; [by eapply StronglySorted_sublist|by eapply Forall_sublist]. Qed.
Lemma ordered_snoc t now c c' d k e : sublist d (ca_entries c) → ca_entries c' = d ++ [(k, e)] → t <= now →
  ce_last_accessed_at e = now → ce_inserted_at e <= now → ordered t c → ordered now c'.
Proof.
  intros Hsub He Ht Hla Hins [Hs Hf]. unfold ordered. rewrite He.
  assert (Forall (λ x, ce_inserted_at x.2 <= ce_last_accessed_at x.2 ∧ ce_last_accessed_at x.2 <= t) d) as Hd by (by eapply Forall_sublist).
  split.
  - apply StronglySorted_snoc; [by eapply StronglySorted_sublist|]. eapply Forall_impl; [exact Hd|]. intros y [_ Hy]. unfold by_access. cbn [snd]. lia.
  - apply Forall_app. split; [eapply Forall_impl; [exact Hd|]; intros y [Hy1 Hy2]; cbv beta; lia|]. repeat constructor; cbn [snd]; lia.
Qed.
Lemma ordered_mono t t' c : t <= t' → ordered t c → ordered t' c.
Proof. intros Ht [Hs Hf]. split; [done|]. eapply Forall_impl; [exact Hf|]. intros y [Hy1 Hy2]. cbv beta. lia. Qed.

Lemma get_ok t key now el c : t <= now → cache_ok t c → cache_ok now (get cfg key now el c).1.
Proof.
  intros Ht [(Hwf&Hlen&Hb&Hl) Ho]. pose proof (ordered_mono t now c Ht Ho) as Ho'.
  destruct (get cfg key now el c) as [c' r] eqn:Hg. pose proof Hg as Hg'. apply get_seen in Hg' as [Hwf' _]; [|done]. cbn [fst].
  unfold get in Hg. destruct (dget (ca_entries c) key) as [e|] eqn:He.
  2: { injection Hg as <- <-. split; [|exact Ho']. split; [done|]. split; [done|]. split; [done|by apply push_bounded_length]. }
  destruct (_ <? now) eqn:Hexp; injection Hg as <- <-; cbn [count_miss count_hit set_entries ca_entries ca_bytes ca_latencies] in *.
  - split; [|eapply ordered_sublist; [|exact Ho']; apply dremove_sublist]. unfold bounded. cbn [count_miss set_entries ca_entries ca_bytes ca_latencies].
    pose proof (length_dremove _ key (proj1 (dget_is_Some _ _) (ex_intro _ _ He))). pose proof (total_bytes_dremove _ _ _ He).
    split; [done|]. split; [lia|]. split; [unfold blen in *; lia|by apply push_bounded_length].
  - unfold wf in Hwf'. cbn [count_hit set_entries ca_entries] in Hwf'. unfold cache_ok, bounded, wf. cbn [count_hit set_entries ca_entries ca_bytes ca_latencies].
    rewrite (set_and_move _ _ _ _ Hwf He) in *. pose proof (length_dremove _ key (proj1 (dget_is_Some _ _) (ex_intro _ _ He))). pose proof (total_bytes_dremove _ _ _ He).
    rewrite length_app, total_bytes_app. cbn [length total_bytes foldr snd ce_value].
    split; [split; [done|]; split; [lia|]; split; [lia|by apply push_bounded_length]|].
    assert (ce_inserted_at e <= t) as Hins.
    { destruct Ho as [_ Hf]. apply dget_Some_elem in He. destruct (proj1 (Forall_forall _ _) Hf _ He) as [? ?]. cbn [snd] in *. lia. }
    eapply (ordered_snoc t now c); [apply (dremove_sublist _ key)|exact (set_and_move _ _ _ _ Hwf He)|done|done|cbn; lia|exact Ho].
Qed.

Lemma put_bounds t key value now c : t <= now → cache_ok t c → cache_ok now (put cfg key value now c).1.
Proof.
  intros Ht [(Hwf&Hlen&Hb&Hl) Ho]. destruct (put cfg key value now c) as [c' r] eqn:Hp.
  pose proof Hp as Hp'. apply put_seen in Hp' as [Hwf' _]; [|done]. cbn [fst]. destruct (dget (ca_entries c) key) as [e|] eqn:He.
  - unfold put in Hp. rewrite He in Hp. injection Hp as <- <-. unfold wf in Hwf'. cbn [ca_entries] in Hwf'.
    unfold cache_ok, bounded, wf. cbn [ca_entries ca_bytes ca_latencies]. rewrite (set_and_move _ _ _ _ Hwf He) in *.
    pose proof (length_dremove _ key (proj1 (dget_is_Some _ _) (ex_intro _ _ He))). pose proof (total_bytes_dremove _ _ _ He).
    rewrite length_app, total_bytes_app. cbn [length total_bytes foldr snd ce_value].
    split; [split; [done|]; split; [lia|]; split; [lia|done]|].
    eapply (ordered_snoc t now c); [apply (dremove_sublist _ key)|reflexivity|done|done|cbn; lia|exact Ho].
  - apply put_new in Hp as (l&d&Hd&Hlat&Hr); [|done..]. destruct r as [[]|ex]; [|destruct Hr as (_&_&_&?); lia].
    destruct Hr as (He'&Hbytes&Hsize&_). split.
    + split; [done|]. split; [|split; [lia|by rewrite Hlat]]. rewrite He', length_app. cbn [length]. lia.
    + eapply (ordered_snoc t now c); [|exact He'|done|done|cbn; lia|exact Ho]. rewrite Hd. by apply sublist_inserts_l.
Qed.

Lemma op_ok t op c : t <= op_time op → cache_ok t c → cache_ok (op_time op) (run_op cfg c op).
Proof. destruct op; cbn [op_time run_op]; intros; [by eapply get_ok|by eapply put_bounds]. Qed.

(** The readings of a history, in order *)
Definition call_clock (call : cache_call) : list Z :=
  match call with
  | CallOp op => [op_time op]
  | CallFlush _ now now' _ o1 o2 o3 o4 =>
      (op_time <$> o1) ++ [now] ++ (op_time <$> o2) ++ (op_time <$> o3) ++ [now'] ++ (op_time <$> o4)
  | CallVerify _ now now' _ => [now; now']
  end.

Lemma ops_ok t ops c : chain t (op_time <$> ops) → cache_ok t c → cache_ok (chain_end t (op_time <$> ops)) (run_ops cfg ops c).
Proof.
  revert t c. induction ops as [|op ops IH]; intros t c; [by intros _|]. intros [Ht Hc] Hok. 
  apply (IH (op_time op)); [done|]. by eapply op_ok.
Qed.

Lemma pop_ok t probe c : cache_ok t c → cache_ok t (pop probe c).1 ∧
  ∀ e, (pop probe c).2 = Some e → total_bytes (ca_entries (pop probe c).1) <= ca_bytes (pop probe c).1 - blen (ce_value e).
Proof.
  intros [(Hwf&Hlen&Hb&Hl) Ho]. unfold pop, cache_ok, bounded, wf, ordered. cbn [fst snd set_entries ca_entries ca_bytes ca_latencies].
  pose proof (sublist_length _ _ (dremove_sublist (ca_entries c) probe)).
  assert (∀ e, dget (ca_entries c) probe = Some e → total_bytes (dremove (ca_entries c) probe) + blen (ce_value e) = total_bytes (ca_entries c)) as Hrem
    by (intros e; apply total_bytes_dremove).
  split; [split|].
  - split; [by apply dict_wf_dremove|]. split; [lia|]. split; [|done]. destruct (dget (ca_entries c) probe) as [e|] eqn:He.
    + specialize (Hrem e eq_refl). unfold blen in *. lia.
    + clear Hrem. revert Hb. generalize (ca_bytes c). intros b Hb. enough (dremove (ca_entries c) probe = ca_entries c) as -> by done.
      clear -He. induction (ca_entries c) as [|[j w] d IH]; [done|]. simpl in *. case_decide; [done|]. by rewrite IH.
  - eapply (ordered_sublist t c (set_entries (λ d, dremove d probe) c)); [apply dremove_sublist|exact Ho].
  - intros e He. specialize (Hrem e He). lia.
Qed.

Lemma reset_ok t c : cache_ok t c → cache_ok t (reset_counters c).
Proof. intros [(Hwf&Hlen&Hb&Hl) Ho]. split; [|exact Ho]. split; [done|]. split; [done|]. split; [done|]. simpl. lia. Qed.
Lemma empty_ok t : cache_ok t empty_cache.
Proof. split; [|by repeat constructor]. split; [constructor|]. cbn. split; [lia|]. split; [done|lia]. Qed.

Lemma flush_ok t probe now now' el o1 o2 o3 o4 c : chain t (call_clock (CallFlush probe now now' el o1 o2 o3 o4)) →
  cache_ok (chain_end t (call_clock (CallFlush probe now now' el o1 o2 o3 o4))) (flush_all cfg probe now now' el o1 o2 o3 o4 c).1.
Proof.
  cbn [call_clock]. rewrite !chain_app, !chain_end_app. cbn [chain]. intros (C1&[C2 _]&C3&C4&[C5 _]&C6). unfold flush_all.
  pose proof (ops_ok _ o1 empty_cache C1 (empty_ok t)) as H1. pose proof (put_bounds _ probe "verify_probe" now _ C2 H1) as H2.
  destruct (put cfg probe _ now _) as [c1 r] eqn:Hp. apply put_ok in Hp as ->; [|apply H1|lia]. cbn [fst] in H2.
  apply (ops_ok _ o2 _ C3), (pop_ok _ probe) in H2 as [H2 Hbytes]. revert H2 Hbytes. destruct (pop probe (run_ops cfg o2 c1)) as [c2 ev]. cbn [fst snd]. intros H2 Hbytes.
  match goal with |- context [run_ops cfg o3 ?c'] => assert (cache_ok (chain_end (chain_end (chain_end t (op_time <$> o1)) [now]) (op_time <$> o2)) c') as H3 by
    (destruct ev as [e|]; [|exact H2]; specialize (Hbytes e eq_refl); destruct H2 as [(?&?&?&?) ?]; split; [split; [done|]; split; [done|]; split; [exact Hbytes|done]|done]);
    clear H2 Hbytes; revert H3; generalize c'; intros c3 H3 end.
  apply (ops_ok _ o3 _ C4), (get_ok _ probe now' el _ C5) in H3. revert H3. destruct (get cfg probe now' el _) as [c4 after].
  cbn [fst]. intros H3. by apply reset_ok, ops_ok.
Qed.

Lemma call_ok t call c : chain t (call_clock call) → cache_ok t c → cache_ok (chain_end t (call_clock call)) (run_call cfg c call).
Proof.
  destruct call as [op|probe now now' el o1 o2 o3 o4|probe now now' el]; cbn [run_call].
  - intros [Ht _]. by apply op_ok.
  - intros Hc _. by apply flush_ok.
  - intros (Ht&Ht'&_) Hok. unfold verify_flushed. destruct (ca_entries c); [|].
    2: { cbn [fst call_clock]. destruct Hok as [? Ho]. split; [done|]. eapply ordered_mono; [|exact Ho]. cbn. lia. }
    pose proof (put_bounds _ probe "check" now _ Ht Hok) as H2. destruct (put cfg probe _ now _) as [c1 r] eqn:Hp. apply put_ok in Hp as ->; [|apply Hok|lia]. cbn [fst] in H2.
    apply (pop_ok _ probe) in H2 as [H2 _]. revert H2. destruct (pop probe c1) as [c2 ev]. cbn [fst]. intros H2. apply (get_ok _ probe now' el _ Ht') in H2. revert H2.
    destruct (get cfg probe now' el c2) as [c3 found]. by apply reset_ok.
Qed.
Lemma calls_ok t calls : chain t (mjoin (call_clock <$> calls)) → cache_ok (chain_end t (mjoin (call_clock <$> calls))) (run_calls cfg calls).
Proof.
  induction calls as [|call calls IH] using rev_ind; [intros _; apply empty_ok|].
  rewrite fmap_app, join_app. cbn [fmap list_fmap mjoin list_join]. rewrite app_nil_r, chain_app, chain_end_app. intros [Hc Hcall].
  unfold run_calls. rewrite foldl_snoc. apply call_ok; [done|]. by apply IH.
Qed.
End invariant.

(** ** Properties *)

(** C21.  The cache against its reference, the latest value put under each key
    since the last flush began, whatever other threads do while a flush runs.
    A hit is always that value and no older than the age limit: a value put
    before a flush is never read after it.  Without a byte budget and with
    room for one entry more than there are keys, every value that is young
    enough is a hit, so that the answers are exactly the reference's. *)
Theorem cache_matches_reference cfg (calls : list cache_call) key now elapsed :
  let answer := (get cfg key now elapsed (run_calls cfg calls)).2 in
  (∀ v, answer = Some v → ∃ t, reference calls !! key = Some (v, t) ∧ now <= t + cc_ttl cfg) ∧
  (∀ X : gset string, cc_max_bytes cfg = None → Z.of_nat (size X) < cc_capacity cfg → Forall (call_within X now) calls →
   ∀ v, answer = Some v ↔ ∃ t, reference calls !! key = Some (v, t) ∧ now <= t + cc_ttl cfg).
Proof.
  intros answer. destruct (sound_calls cfg calls) as [Hwf Hs]. specialize (Hs key ltac:(done)).
  assert (answer = match seen (run_calls cfg calls) key with Some (v, t) => if t + cc_ttl cfg <? now then None else Some v | None => None end) as Ha.
  { subst answer. destruct (get _ _ _ _ _) as [c' r] eqn:Hg. by apply get_seen in Hg as (_&->&_). }
  assert (∀ v, answer = Some v → ∃ t, reference calls !! key = Some (v, t) ∧ now <= t + cc_ttl cfg) as Hsound.
  { intros v. rewrite Ha. destruct (seen _ key) as [[u t]|]; [|done]. destruct Hs as [|Hs]; [done|].
    destruct (t + cc_ttl cfg <? now) eqn:Ht; [done|]. intros [= <-]. exists t. split; [done|]. py_bool. lia. }
  split; [exact Hsound|]. intros X Hb Hcap Hin v. split; [apply Hsound|]. intros (t&Hr&Ht).
  destruct (complete_calls cfg now X Hb Hcap calls Hin) as (_&_&Hc). rewrite Ha, (Hc key v t ltac:(done) Hr Ht).
  destruct (t + cc_ttl cfg <? now) eqn:Hlt; [|done]. py_bool. lia.
Qed.

(** The cache's invariant.  With room for at least one entry, whatever
    is called and whatever threads do during a flush, as long as the clock
    does not go back: keys are unique and at most [capacity], the entries
    stand in the order of their last access, so that an eviction takes the
    least recently used one, and the byte counter is never below the bytes
    that are held. *)
Theorem cache_invariant cfg (calls : list cache_call) t :
  1 <= cc_capacity cfg → chain t (mjoin (call_clock <$> calls)) →
  let c := run_calls cfg calls in
  NoDup (dkeys (ca_entries c)) ∧ Z.of_nat (length (ca_entries c)) <= cc_capacity cfg ∧
  StronglySorted by_access (ca_entries c) ∧ total_bytes (ca_entries c) <= ca_bytes c ∧
  (length (ca_latencies c) <= cc_latency_window cfg)%nat.
Proof. intros Hcap Hc. destruct (calls_ok cfg Hcap t calls Hc) as [(?&?&?&?) [? ?]]. done. Qed.

(** A [put] into no entries *)
Lemma put_empty cfg key value now h m b l : 1 <= cc_capacity cfg →
  put cfg key value now (Cache [] h m b l) = (Cache [(key, MkCacheEntry value now now)] h m (b + blen value) l, Ok tt).
Proof.
  intros Hcap. unfold put. cbn [ca_entries dget]. assert (cc_capacity cfg <=? Z.of_nat 0 = false) as Hc by (apply Z.leb_gt; lia).
  destruct (cc_max_bytes cfg); cbn [evict_to_budget ca_bytes length]; by rewrite Hc.
Qed.
(** What [flush_all] answers when no other thread interferes. *)
Lemma flush_all_alone cfg probe now now' elapsed c : 1 <= cc_capacity cfg →
  flush_all cfg probe now now' elapsed [] [] [] [] c =
  (empty_cache, Ok (MkCacheFlushResult flushed (Z.of_nat (length (ca_entries c))) 0 probe)).
Proof.
  intros Hcap. unfold flush_all, run_ops, empty_cache. cbn [foldl]. rewrite put_empty by done.
  unfold pop, set_entries, get. cbn [foldl ca_entries dget dremove]. by destruct (decide (probe = probe)).
Qed.

(** The p99 is the nearest rank: the product with the double 0.99 rounds the
    right way up to the default window. *)
Definition nearest_rank (n : nat) : nat := ((99 * n + 99) / 100 - 1)%nat.
Lemma p99_indices : forallb (λ n, Nat.eqb (p99_index n) (nearest_rank n)) (seq 1 1000) = true.
Proof. vm_compute. reflexivity. Qed.
Lemma p99_index_rank n : (1 <= n <= 1000)%nat → p99_index n = nearest_rank n.
Proof.
  intros Hn. apply Nat.eqb_eq. pose proof p99_indices as Hall. rewrite forallb_forall in Hall. apply (Hall n), in_seq.
  clear Hall. lia.
Qed.
Lemma p99_nearest_rank c : ca_latencies c ≠ [] → (length (ca_latencies c) <= 1000)%nat →
  p99 c = nth (nearest_rank (length (ca_latencies c))) (sort_le Z.leb (ca_latencies c)) 0.
Proof.
  intros Hne Hlen. unfold p99. destruct (ca_latencies c) as [|x l] eqn:Hl; [done|]. rewrite p99_index_rank; [done|].
  cbn [length] in *. lia.
Qed.

(** *** Examples *)

Definition seconds (n : Z) : Z := n * 10 ^ 9.
Definition example_cache : cache_config := CacheConfig 4 (seconds 300) None 1000.
Definition example_calls : list cache_call :=
  [CallOp (OpPut "a" "1" 0); CallFlush "p" 1 2 0 [] [OpPut "b" "2" 1] [] []; CallOp (OpGet "a" 3 0); CallOp (OpPut "c" "3" 4)].

Lemma cache_matches_reference_witness :
  (get example_cache "a" 5 0 (run_calls example_cache example_calls)).2 = None ∧
  (get example_cache "b" 5 0 (run_calls example_cache example_calls)).2 = Some "2".
Proof.
  split; [vm_compute; reflexivity|].
  refine (proj2 (proj2 (cache_matches_reference example_cache example_calls "b" 5 0) {["b"; "c"; "a"]} eq_refl _ _ "2") _).
  - vm_compute. reflexivity.
  - repeat (apply Forall_cons; split); [| | | |apply Forall_nil; exact I]; (split; [|split]);
      cbn [call_ops call_probe call_time app]; try (intros p [= <-]); try set_solver;
      intros op Hop; repeat (apply elem_of_cons in Hop as [->|Hop]); try (by apply not_elem_of_nil in Hop);
      first [lia|split; [cbn; lia|]; intros k Hk; cbn [op_key] in Hk; set_solver].
  - exists 1. split; [vm_compute; reflexivity|vm_compute; discriminate].
Defined.

Lemma cache_invariant_witness :
  let c := run_calls example_cache example_calls in
  dkeys (ca_entries c) = ["b"; "c"] ∧ Z.of_nat (length (ca_entries c)) <= 4 ∧ total_bytes (ca_entries c) <= ca_bytes c.
Proof.
  intros c. split; [vm_compute; reflexivity|].
  destruct (cache_invariant example_cache example_calls 0) as (_&Hsize&_&Hbytes&_); [cbn; lia|cbn; lia|]. split; [exact Hsize|exact Hbytes].
Defined.

(** An entry that expires leaves its bytes in the counter: the budget is then
    full of nothing, and each new entry evicts all others. *)
Definition budget_cache : cache_config := CacheConfig 100 (seconds 300) (Some 4) 1000.
Lemma expiry_leaks_bytes :
  let old := run_calls budget_cache [CallOp (OpPut "a" "1111" 0); CallOp (OpGet "a" (seconds 301) 0)] in
  let c := run_ops budget_cache [OpPut "b" "2" (seconds 302); OpPut "c" "3" (seconds 303)] old in
  ca_entries old = [] ∧ ca_bytes old = 4 ∧ dkeys (ca_entries c) = ["c"] ∧ total_bytes (ca_entries c) = 1 ∧ ca_bytes c = 5.
Proof. split_and!; vm_compute; reflexivity. Qed.

(** [verify_flushed] leaves the five bytes of its probe. *)
Lemma verify_flushed_leaks_bytes :
  let c := run_calls budget_cache [CallVerify "p" 0 0 0; CallVerify "p" 1 1 0] in ca_entries c = [] ∧ ca_bytes c = 10.
Proof. split; vm_compute; reflexivity. Qed.

(** An update is stored whatever the budget. *)
Lemma update_skips_budget :
  let c := run_calls budget_cache [CallOp (OpPut "a" "1" 0); CallOp (OpPut "b" "2" 1); CallOp (OpPut "b" "22222222" 2)] in
  dkeys (ca_entries c) = ["a"; "b"] ∧ total_bytes (ca_entries c) = 9.
Proof. split; vm_compute; reflexivity. Qed.

(** A cache of no capacity raises instead of caching nothing. *)
Lemma zero_capacity_raises : (put (CacheConfig 0 1 None 10) "a" "1" 0 empty_cache).2 = Raise KeyError.
Proof. reflexivity. Qed.
