(* ===== verification/DrMode.v ===== *)
(** * The circuit breaker of the readers ([io/dr_mode.py])

    Failures open the breaker, by their number in a row, by the number of
    server errors or of slow calls in a sliding window; after a delay it lets
    calls through again and closes on the first success.  An operator, or a
    path the reader cannot parse, sets a state by hand.  Clock readings are
    nanoseconds and arguments: a failure reads the clock when it is recorded,
    when the window is cut and when the breaker opens.  Metrics other than the
    object's own counters are left out. *)
From S2P Require Import Prelude Clock.
Open Scope list_scope.
Open Scope Z_scope.

Inductive DRState := CLOSED | OPEN | HALF_OPEN | UNKNOWN_TIER.
#[export] Instance DRState_eq_dec : EqDecision DRState.
Proof. solve_decision. Defined.

Record dr_config := DrConfig {
  consecutive_failure_threshold : Z; sliding_window : Z; error_count_threshold : Z;
  latency_p99_threshold : Z; latency_count_threshold : Z; half_open_delay : Z }.

(** An entry of the window: time, success, status code, latency *)
Record call_sample := CallSample { cs_time : Z; cs_ok : bool; cs_status_code : Z; cs_latency : Z }.
Record dr := MkDr {
  dr_state : DRState; dr_consecutive_failure : Z; dr_window : list call_sample; dr_open_started_at : option Z;
  dr_override_active : bool; dr_transition_count : Z; dr_ambiguity_count : Z }.
Definition initial_dr : dr := MkDr CLOSED 0 [] None false 0 0.

Section dr_mode.
Context (cfg : dr_config).

(** [_transition]; [now] is read where the breaker opens *)
Definition transition (new_state : DRState) (now : Z) (d : dr) : dr :=
  if decide (dr_state d = new_state) then d else
  MkDr new_state
    (match new_state with CLOSED => 0 | _ => dr_consecutive_failure d end) (dr_window d)
    (match new_state with OPEN => Some now | CLOSED => None | _ => dr_open_started_at d end)
    (dr_override_active d) (dr_transition_count d + 1) (dr_ambiguity_count d).

Definition set_window (w : list call_sample) (d : dr) : dr :=
  MkDr (dr_state d) (dr_consecutive_failure d) w (dr_open_started_at d) (dr_override_active d) (dr_transition_count d) (dr_ambiguity_count d).
Definition set_failures (n : Z) (d : dr) : dr :=
  MkDr (dr_state d) n (dr_window d) (dr_open_started_at d) (dr_override_active d) (dr_transition_count d) (dr_ambiguity_count d).

(** [while window and window[0][0] < cutoff: window.popleft()] *)
Fixpoint prune (cutoff : Z) (w : list call_sample) : list call_sample :=
  match w with
  | [] => []
  | s :: w' => if cs_time s <? cutoff then prune cutoff w' else w
  end.
Definition is_server_error (s : call_sample) : bool := negb (cs_ok s) && (500 <=? cs_status_code s) && (cs_status_code s <? 600).
Definition is_slow (s : call_sample) : bool := latency_p99_threshold cfg <? cs_latency s.
Definition count (p : call_sample → bool) (w : list call_sample) : Z := Z.of_nat (length (List.filter p w)).

(** [_check_thresholds_locked] *)
Definition check_thresholds (cut opened : Z) (d : dr) : dr :=
  if consecutive_failure_threshold cfg <=? dr_consecutive_failure d then transition OPEN opened d else
  let d := set_window (prune (cut - sliding_window cfg) (dr_window d)) d in
  if error_count_threshold cfg <=? count is_server_error (dr_window d) then transition OPEN opened d
  else if latency_count_threshold cfg <=? count is_slow (dr_window d) then transition OPEN opened d
  else d.

(** [_try_half_open_locked] *)
Definition try_half_open (now : Z) (d : dr) : dr :=
  match dr_state d, dr_open_started_at d with
  | OPEN, Some t => if half_open_delay cfg <=? now - t then transition HALF_OPEN now d else d
  | _, _ => d
  end.

(** [current_state] *)
Definition current_state (now : Z) (d : dr) : dr * DRState :=
  let d := if decide (dr_state d = OPEN) then try_half_open now d else d in (d, dr_state d).

(** [record_success] *)
Definition record_success (now : Z) (d : dr) : dr :=
  let d := set_failures 0 (set_window (dr_window d ++ [CallSample now true 200 0]) d) in
  if decide (dr_state d = HALF_OPEN) then transition CLOSED now d else d.

(** [record_failure] *)
Definition record_failure (status_code latency now cut opened : Z) (d : dr) : dr :=
  let d := set_failures (dr_consecutive_failure d + 1) (set_window (dr_window d ++ [CallSample now false status_code latency]) d) in
  match dr_state d with
  | HALF_OPEN => transition OPEN opened d
  | CLOSED => check_thresholds cut opened d
  | _ => d
  end.

(** [set_mode] *)
Definition set_mode (state : DRState) (now : Z) (d : dr) : dr :=
  MkDr state (dr_consecutive_failure d) (dr_window d)
    (match state with OPEN => Some now | _ => dr_open_started_at d end) true (dr_transition_count d)
    (match state with UNKNOWN_TIER => dr_ambiguity_count d + 1 | _ => dr_ambiguity_count d end).

Inductive dr_event :=
| Success (now : Z)
| Failure (status_code latency now cut opened : Z)
| Query (now : Z)
| SetMode (state : DRState) (now : Z).
Definition dr_step (d : dr) (e : dr_event) : dr :=
  match e with
  | Success now => record_success now d
  | Failure code latency now cut opened => record_failure code latency now cut opened d
  | Query now => (current_state now d).1
  | SetMode state now => set_mode state now d
  end.
Definition dr_run (h : list dr_event) : dr := foldl dr_step initial_dr h.
End dr_mode.

(** ** The specification, in terms of the history alone *)

Definition event_clock (e : dr_event) : list Z :=
  match e with Success now | Query now | SetMode _ now => [now] | Failure _ _ now cut opened => [now; cut; opened] end.
Definition event_sample (e : dr_event) : list call_sample :=
  match e with
  | Success now => [CallSample now true 200 0]
  | Failure code latency now _ _ => [CallSample now false code latency]
  | _ => []
  end.
Definition samples (h : list dr_event) : list call_sample := mjoin (event_sample <$> h).
(** Failures since the last success *)
Definition failures_in_a_row (h : list dr_event) : Z :=
  foldl (λ n e, match e with Success _ => 0 | Failure _ _ _ _ _ => n + 1 | _ => n end) 0 h.

Section specification.
Context (cfg : dr_config).

(** Whether the failure that ends the history [h] opens the breaker: too many
    in a row, or too many server errors or slow calls within the window *)
Definition trips (h : list dr_event) (cut : Z) : bool :=
  let recent := List.filter (λ s, cut - sliding_window cfg <=? cs_time s) (samples h) in
  (consecutive_failure_threshold cfg <=? failures_in_a_row h) ||
  (error_count_threshold cfg <=? count is_server_error recent) || (latency_count_threshold cfg <=? count (is_slow cfg) recent).

(** The state and, where it is open, since when *)
Definition breaker_next (h : list dr_event) (s : DRState * Z) (e : dr_event) : DRState * Z :=
  match s, e with
  | (CLOSED, _), Failure _ _ _ cut opened => if trips (h ++ [e]) cut then (OPEN, opened) else s
  | (OPEN, t), Query now => if half_open_delay cfg <=? now - t then (HALF_OPEN, t) else s
  | (HALF_OPEN, _), Success now => (CLOSED, now)
  | (HALF_OPEN, _), Failure _ _ _ _ opened => (OPEN, opened)
  | _, SetMode state now => (state, now)
  | _, _ => s
  end.
Fixpoint breaker_from (h : list dr_event) (s : DRState * Z) (l : list dr_event) : DRState * Z :=
  match l with [] => s | e :: l => breaker_from (h ++ [e]) (breaker_next h s e) l end.
Definition breaker (h : list dr_event) : DRState * Z := breaker_from [] (CLOSED, 0) h.
End specification.

(** ** Lemmas *)

Section lemmas.
Context (cfg : dr_config).
Implicit Types (h : list dr_event) (d : dr).

Lemma breaker_from_snoc h s l e : breaker_from cfg h s (l ++ [e]) = breaker_next cfg (h ++ l) (breaker_from cfg h s l) e.
Proof. revert h s. induction l as [|x l IH]; intros h s; simpl; [by rewrite app_nil_r|]. by rewrite IH, <- app_assoc. Qed.
Lemma breaker_snoc h e : breaker cfg (h ++ [e]) = breaker_next cfg h (breaker cfg h) e.
Proof. apply (breaker_from_snoc []). Qed.
Lemma samples_snoc h e : samples (h ++ [e]) = samples h ++ event_sample e.
Proof. unfold samples. rewrite fmap_app, join_app. simpl. by rewrite app_nil_r. Qed.
Lemma failures_snoc h e : failures_in_a_row (h ++ [e]) =
  match e with Success _ => 0 | Failure _ _ _ _ _ => failures_in_a_row h + 1 | _ => failures_in_a_row h end.
Proof. unfold failures_in_a_row. by rewrite foldl_snoc. Qed.

Definition sample_le (a b : call_sample) : Prop := cs_time a <= cs_time b.
Lemma prune_sorted c w : StronglySorted sample_le w → prune c w = List.filter (λ s, c <=? cs_time s) w.
Proof.
  induction 1 as [|s w Hs IH Hall]; [done|]. simpl. destruct (cs_time s <? c) eqn:Hlt; py_bool.
  - rewrite (proj2 (Z.leb_gt c (cs_time s))) by lia. exact IH.
  - rewrite (proj2 (Z.leb_le c (cs_time s))) by lia. f_equal.
    assert (∀ x, x ∈ w → c <= cs_time x) as Hw.
    { intros x Hx. pose proof (proj1 (Forall_forall _ _) Hall x Hx) as Hx'. unfold sample_le in Hx'. lia. }
    clear -Hw. induction w as [|x w IH]; [done|]. simpl. rewrite (proj2 (Z.leb_le c (cs_time x))) by (apply Hw; by left).
    f_equal. apply IH. intros y Hy. apply Hw. by right.
Qed.
Lemma sorted_filter (p : call_sample → bool) w : StronglySorted sample_le w → StronglySorted sample_le (List.filter p w).
Proof.
  induction 1 as [|s w Hs IH Hall]; simpl; [constructor|]. destruct (p s); [|done]. constructor; [done|].
  apply Forall_forall. intros x Hx. apply list_elem_of_In, List.filter_In in Hx as [Hx _]. apply (proj1 (Forall_forall _ _) Hall). by apply list_elem_of_In.
Qed.
Lemma filter_filter (p q : call_sample → bool) w : (∀ s, q s = true → p s = true) → List.filter q (List.filter p w) = List.filter q w.
Proof.
  intros Hpq. induction w as [|s w IH]; [done|]. simpl. destruct (p s) eqn:Hp; simpl; [by rewrite IH|].
  destruct (q s) eqn:Hq; [|done]. apply Hpq in Hq. congruence.
Qed.
Lemma sorted_snoc w s : StronglySorted sample_le w → Forall (λ x, sample_le x s) w → StronglySorted sample_le (w ++ [s]).
Proof.
  induction 1 as [|x w Hs IH Hall]; simpl; [repeat constructor|]. intros [Hx Hw]%Forall_cons. constructor; [by apply IH|].
  apply Forall_app. by split; [|constructor].
Qed.

Lemma filter_snoc (p : call_sample → bool) w s : List.filter p (w ++ [s]) = List.filter p w ++ (if p s then [s] else []).
Proof. rewrite List.filter_app. simpl. by destruct (p s). Qed.

(** The window holds the samples from some time on, which is no later than the
    window's length ago. *)
Definition window_ok (t : Z) h d : Prop :=
  StronglySorted sample_le (samples h) ∧ Forall (λ s, cs_time s <= t) (samples h) ∧
  ∃ c, c + sliding_window cfg <= t ∧ dr_window d = List.filter (λ s, c <=? cs_time s) (samples h).
Definition refines (t : Z) h d : Prop :=
  window_ok t h d ∧ dr_consecutive_failure d = failures_in_a_row h ∧
  dr_state d = (breaker cfg h).1 ∧ (dr_state d = OPEN → dr_open_started_at d = Some (breaker cfg h).2).

Context (Hwindow : 0 <= sliding_window cfg).

Lemma window_append t h d e s now : event_sample e = [s] → cs_time s = now → t <= now → window_ok t h d →
  window_ok now (h ++ [e]) (set_window (dr_window d ++ [s]) d).
Proof.
  intros He Hs Ht (Hsort&Hall&c&Hc&Hw). unfold window_ok. rewrite samples_snoc, He. cbn [set_window dr_window].
  assert (∀ x, x ∈ samples h → cs_time x <= t) as Hle by (by apply Forall_forall).
  split; [apply sorted_snoc; [done|]; apply Forall_forall; intros x Hx; apply Hle in Hx; unfold sample_le; lia|].
  split; [apply Forall_app; split; [|repeat constructor; lia]; apply Forall_forall; intros x Hx; apply Hle in Hx; lia|].
  exists c. split; [lia|]. rewrite filter_snoc, Hw, Hs. by rewrite (proj2 (Z.leb_le c now)) by lia.
Qed.
Lemma window_same t t' h d d' : dr_window d' = dr_window d → t <= t' → window_ok t h d → window_ok t' h d'.
Proof.
  intros Hw Ht (Hsort&Hall&c&Hc&Hwin). split; [done|]. split; [eapply Forall_impl; [exact Hall|]; intros s Hs; cbv beta in *; lia|].
  exists c. split; [lia|]. by rewrite Hw.
Qed.
Lemma window_quiet t t' h d d' e : event_sample e = [] → dr_window d' = dr_window d → t <= t' → window_ok t h d → window_ok t' (h ++ [e]) d'.
Proof.
  intros He Hw Ht Hok. apply (window_same t t' h d d' Hw Ht) in Hok. unfold window_ok. by rewrite samples_snoc, He, app_nil_r.
Qed.
(** What [prune] leaves *)
Lemma window_prune t h d cut : t <= cut → window_ok t h d →
  prune (cut - sliding_window cfg) (dr_window d) = List.filter (λ s, cut - sliding_window cfg <=? cs_time s) (samples h) ∧
  window_ok cut h (set_window (prune (cut - sliding_window cfg) (dr_window d)) d).
Proof.
  intros Hcut (Hsort&Hall&c&Hc&Hw).
  assert (prune (cut - sliding_window cfg) (dr_window d) = List.filter (λ s, cut - sliding_window cfg <=? cs_time s) (samples h)) as Hp.
  { rewrite Hw, prune_sorted by (by apply sorted_filter). apply filter_filter. intros s. rewrite !Z.leb_le. lia. }
  split; [exact Hp|]. split; [done|]. split; [eapply Forall_impl; [exact Hall|]; intros s Hs; cbv beta in *; lia|].
  exists (cut - sliding_window cfg). split; [lia|exact Hp].
Qed.

Lemma transition_window st now d : dr_window (transition st now d) = dr_window d.
Proof. unfold transition. by destruct (decide _). Qed.
Lemma transition_open now d : dr_state d ≠ OPEN → dr_state (transition OPEN now d) = OPEN ∧
  dr_open_started_at (transition OPEN now d) = Some now ∧ dr_consecutive_failure (transition OPEN now d) = dr_consecutive_failure d.
Proof. intros Hne. unfold transition. by rewrite decide_False. Qed.

(** The threshold check of a closed breaker *)
Lemma check_refines t h d cut opened : window_ok t h d → t <= cut <= opened → dr_state d = CLOSED →
  dr_consecutive_failure d = failures_in_a_row h →
  let d' := check_thresholds cfg cut opened d in
  window_ok opened h d' ∧ dr_consecutive_failure d' = failures_in_a_row h ∧
  dr_state d' = (if trips cfg h cut then OPEN else CLOSED) ∧ (dr_state d' = OPEN → dr_open_started_at d' = Some opened).
Proof.
  intros Hok [Hcut Hop] Hst Hf d'. subst d'. unfold check_thresholds, trips. rewrite <- Hf.
  destruct (consecutive_failure_threshold cfg <=? dr_consecutive_failure d) eqn:Hc; cbn [orb].
  { destruct (transition_open opened d) as (->&->&->); [congruence|]. split_and!; [|done..].
    eapply window_same; [apply transition_window| |exact Hok]. lia. }
  destruct (window_prune t h d cut Hcut Hok) as [Hp Hok']. rewrite <- Hp. cbn [set_window dr_window dr_state dr_consecutive_failure] in *.
  match goal with |- context [transition OPEN opened ?x] => set (d1 := x) in * end.
  assert (dr_state d1 = CLOSED) as Hst1 by done. destruct (transition_open opened d1) as (E1&E2&E3); [congruence|].
  destruct (_ <=? count is_server_error _) eqn:He; [|destruct (_ <=? count (is_slow cfg) _) eqn:Hs]; cbn [orb];
    rewrite ?E1, ?E2, ?E3; (split; [|split; [done|split; [done|by rewrite ?Hst1]]]);
    (eapply window_same; [| |exact Hok']; [by rewrite ?transition_window|lia]).
Qed.

Lemma refines_step t h d e : chain t (event_clock e) → refines t h d → refines (chain_end t (event_clock e)) (h ++ [e]) (dr_step cfg d e).
Proof.
  intros Hch (Hok&Hf&Hst&Hopen). unfold refines. rewrite breaker_snoc, failures_snoc. destruct (breaker cfg h) as [s t0] eqn:Hb. cbn [fst snd] in *.
  destruct e as [now|code lat now cut opened|now|st now]; cbn [event_clock chain chain_end dr_step] in *.
  - destruct Hch as [Ht _]. pose proof (window_append t h d (Success now) _ now eq_refl eq_refl Ht Hok) as Hok'.
    unfold record_success. match goal with |- context [decide (dr_state ?x = _)] => set (d1 := x) in * end.
    assert (dr_state d1 = s ∧ dr_consecutive_failure d1 = 0 ∧ dr_open_started_at d1 = dr_open_started_at d) as (E1&E2&E3) by (subst d1; done).
    assert (window_ok now (h ++ [Success now]) d1) as Hok1 by (eapply window_same; [| |exact Hok']; [done|lia]).
    destruct (decide (dr_state d1 = HALF_OPEN)) as [Hh|Hh].
    + rewrite E1 in Hh. rewrite Hh. cbn [breaker_next fst snd].
      assert (dr_state (transition CLOSED now d1) = CLOSED ∧ dr_consecutive_failure (transition CLOSED now d1) = 0) as [-> ->]
        by (unfold transition; by rewrite decide_False by congruence).
      split; [|split; [done|split; [done|discriminate]]]. eapply window_same; [apply transition_window| |exact Hok1]. lia.
    + rewrite E1, E2, E3. destruct s; cbn [breaker_next fst snd]; try congruence; (split; [done|]); (split; [done|]); (split; [done|]); try done.
      intros _. apply Hopen. by rewrite Hst.
  - destruct Hch as (Ht&Hcut&Hop&_). pose proof (window_append t h d (Failure code lat now cut opened) _ now eq_refl eq_refl Ht Hok) as Hok'.
    unfold record_failure. match goal with |- context [match dr_state ?x with _ => _ end] => set (d1 := x) in * end.
    assert (dr_state d1 = s ∧ dr_consecutive_failure d1 = failures_in_a_row h + 1 ∧ dr_open_started_at d1 = dr_open_started_at d) as (E1&E2&E3)
      by (subst d1; cbn; by rewrite Hf).
    assert (window_ok now (h ++ [Failure code lat now cut opened]) d1) as Hok1 by (eapply window_same; [| |exact Hok']; [done|lia]).
    assert (window_ok opened (h ++ [Failure code lat now cut opened]) d1) as Hok2 by (eapply window_same; [| |exact Hok1]; [done|lia]).
    rewrite E1. destruct s; cbn [breaker_next].
    + destruct (check_refines now _ d1 cut opened Hok1) as (W&F&Sx&O); [lia|done|by rewrite failures_snoc|].
      rewrite failures_snoc in F. split; [exact W|]. split; [exact F|]. rewrite Sx in *. destruct (trips _ _ _); cbn [fst snd]; done.
    + split; [exact Hok2|]. split; [done|]. split; [done|]. intros _. cbn [snd]. rewrite E3. apply Hopen. by rewrite Hst.
    + destruct (transition_open opened d1) as (->&->&->); [congruence|]. split; [|done]. eapply window_same; [apply transition_window| |exact Hok2]. lia.
    + split; [exact Hok2|]. split; [done|]. split; [done|]. congruence.
  - destruct Hch as [Ht _]. unfold current_state. cbn [fst].
    assert (window_ok now (h ++ [Query now]) d) as Hok' by (eapply window_quiet; [done| |exact Ht|exact Hok]; done).
    destruct (decide (dr_state d = OPEN)) as [Ho|Hno].
    + unfold try_half_open. rewrite Ho, (Hopen Ho). rewrite Hst in Ho. rewrite Ho. cbn [breaker_next].
      destruct (half_open_delay cfg <=? now - t0); cbn [fst snd];
        [|split; [exact Hok'|]; split; [done|]; split; [by rewrite Hst|]; intros _; apply Hopen; by rewrite Hst].
      assert (dr_state (transition HALF_OPEN now d) = HALF_OPEN ∧ dr_consecutive_failure (transition HALF_OPEN now d) = dr_consecutive_failure d) as [-> ->]
        by (unfold transition; by rewrite decide_False by congruence).
      split; [|split; [done|split; [done|discriminate]]]. eapply window_same; [apply transition_window| |exact Hok']. lia.
    + rewrite Hst. destruct s; cbn [breaker_next fst snd]; try done; congruence.
  - destruct Hch as [Ht _]. cbn [set_mode dr_state dr_consecutive_failure dr_open_started_at dr_window].
    split; [eapply window_quiet; [done| |exact Ht|exact Hok]; done|]. split; [done|].
    destruct s; cbn [breaker_next fst snd]; (split; [done|]); by intros ->.
Qed.

Lemma refines_run t h : chain t (mjoin (event_clock <$> h)) → refines (chain_end t (mjoin (event_clock <$> h))) h (dr_run cfg h).
Proof.
  induction h as [|e h IH] using rev_ind.
  { intros _. split; [|done]. split; [constructor|]. split; [constructor|]. exists (t - sliding_window cfg). split; [cbn; lia|done]. }
  rewrite fmap_app, join_app. cbn [fmap list_fmap mjoin list_join]. rewrite app_nil_r, chain_app, chain_end_app. intros [Hc He].
  unfold dr_run. rewrite foldl_snoc. apply refines_step; [done|]. by apply IH.
Qed.
End lemmas.

(** ** Properties *)

(** C22.  The breaker against its specification, which knows the history only:
    over any calls, an operator's included, with a clock that does not go
    back, the state is the specified one.  A closed breaker opens exactly at a
    failure that makes too many in a row since the last success, or too many
    server errors or slow calls among all samples of the last window; an open
    one lets calls through exactly at a query after the delay; one that lets
    calls through closes at a success and opens at a failure. *)
Theorem breaker_follows_history cfg (h : list dr_event) t :
  0 <= sliding_window cfg → chain t (mjoin (event_clock <$> h)) →
  dr_state (dr_run cfg h) = (breaker cfg h).1 ∧
  dr_consecutive_failure (dr_run cfg h) = failures_in_a_row h ∧
  (dr_state (dr_run cfg h) = OPEN → dr_open_started_at (dr_run cfg h) = Some (breaker cfg h).2).
Proof. intros Hw Hc. by destruct (refines_run cfg Hw t h Hc) as (_&?&?&?). Qed.

Definition by_hand (e : dr_event) : bool := match e with SetMode _ _ => true | _ => false end.
Lemma open_from cfg h0 l t : existsb by_hand l = false → (∀ now, Query now ∈ l → now - t < half_open_delay cfg) →
  breaker_from cfg h0 (OPEN, t) l = (OPEN, t).
Proof.
  revert h0. induction l as [|e l IH]; intros h0 Hb Hq; [done|]. cbn [existsb] in Hb. apply orb_false_iff in Hb as [He Hb].
  assert (breaker_next cfg h0 (OPEN, t) e = (OPEN, t)) as Hn.
  { destruct e as [now|code lat now cut opened|now|st now]; cbn [breaker_next]; try done. specialize (Hq now ltac:(by left)).
    by rewrite (proj2 (Z.leb_gt _ _)) by lia. }
  cbn [breaker_from]. rewrite Hn. apply IH; [done|]. intros now Hin. apply Hq. by right.
Qed.

(** An open breaker stays open: until the delay has passed since it
    opened, no success, failure or query closes it or lets a call through. *)
Theorem open_holds cfg (h l : list dr_event) t opened :
  0 <= sliding_window cfg → chain t (mjoin (event_clock <$> (h ++ l))) →
  dr_state (dr_run cfg h) = OPEN → dr_open_started_at (dr_run cfg h) = Some opened →
  existsb by_hand l = false → (∀ now, Query now ∈ l → now - opened < half_open_delay cfg) →
  dr_state (dr_run cfg (h ++ l)) = OPEN ∧ dr_open_started_at (dr_run cfg (h ++ l)) = Some opened.
Proof.
  intros Hw Hc Ho Hop Hb Hq. assert (chain t (mjoin (event_clock <$> h))) as Hch.
  { rewrite fmap_app, join_app, chain_app in Hc. by destruct Hc. }
  destruct (refines_run cfg Hw t h Hch) as (_&_&Hst&Hso). destruct (refines_run cfg Hw t (h ++ l) Hc) as (_&_&Hst'&Hso').
  specialize (Hso Ho). rewrite Hop in Hso. injection Hso as Heq.
  assert (breaker cfg (h ++ l) = (OPEN, opened)) as Hb'.
  { unfold breaker. rewrite <- (open_from cfg ([] ++ h) l opened Hb Hq). clear -Hst Ho Heq.
    assert (∀ h0 s l1 l2, breaker_from cfg h0 s (l1 ++ l2) = breaker_from cfg (h0 ++ l1) (breaker_from cfg h0 s l1) l2) as Happ.
    { intros h0 s l1. revert h0 s. induction l1 as [|e l1 IH]; intros h0 s l2; simpl; [by rewrite app_nil_r|]. by rewrite IH, <- app_assoc. }
    rewrite Happ. f_equal. unfold breaker in *. destruct (breaker_from cfg [] (CLOSED, 0) h) as [s1 t1]. cbn [fst snd] in *. congruence. }
  rewrite Hb' in Hst', Hso'. cbn [fst snd] in *. split; [done|]. by apply Hso'.
Qed.

(** *** Examples *)

Definition secs (n : Z) : Z := n * 10 ^ 9.
Definition default_dr : dr_config := DrConfig 5 (secs 60) 5 (500 * 10 ^ 6) 3 (secs 30).
(** A failure of the reader at a second *)
Definition failure_at (n : Z) : dr_event := Failure 503 (10 ^ 6) (secs n) (secs n) (secs n).
Definition five_failures : list dr_event := failure_at <$> [0; 1; 2; 3; 4].

Lemma breaker_follows_history_witness :
  dr_state (dr_run default_dr five_failures) = (breaker default_dr five_failures).1 ∧ dr_state (dr_run default_dr five_failures) = OPEN.
Proof.
  destruct (breaker_follows_history default_dr five_failures 0) as [Hs _].
  - vm_compute. discriminate.
  - vm_compute. repeat split; discriminate.
  - split; [exact Hs|vm_compute; reflexivity].
Defined.

Lemma open_holds_witness :
  dr_state (dr_run default_dr (five_failures ++ [Query (secs 33); Success (secs 33)])) = OPEN.
Proof.
  apply (open_holds default_dr five_failures [Query (secs 33); Success (secs 33)] 0 (secs 4)).
  - vm_compute. discriminate.
  - vm_compute. repeat split; discriminate.
  - vm_compute. reflexivity.
  - vm_compute. reflexivity.
  - reflexivity.
  - intros now Hin. repeat (apply elem_of_cons in Hin as [[= ->]|Hin]); [vm_compute; reflexivity|]. by apply not_elem_of_nil in Hin.
Defined.

(** Closing by hand keeps the failures in a row: the next one opens again. *)
Lemma manual_close_keeps_failures :
  dr_state (dr_run default_dr (five_failures ++ [SetMode CLOSED (secs 100)])) = CLOSED ∧
  dr_state (dr_run default_dr (five_failures ++ [SetMode CLOSED (secs 100); failure_at 101])) = OPEN.
Proof. split; vm_compute; reflexivity. Qed.

(** The delay is shorter than the window, and closing keeps the window: one
    failure after a recovery opens the breaker again. *)
Lemma recovery_keeps_window :
  dr_state (dr_run default_dr (five_failures ++ [Query (secs 34); Success (secs 34)])) = CLOSED ∧
  dr_state (dr_run default_dr (five_failures ++ [Query (secs 34); Success (secs 34); failure_at 35])) = OPEN.
Proof. split; vm_compute; reflexivity. Qed.
