(* ===== verification/EndpointRouter.v ===== *)
(** * The readers' endpoint ([io/endpoint_router.py])

    The router holds the endpoint of the store and a client made for it, and
    switches both, with the process's environment variable, in one step; a
    grace period refuses further switches.  Making a client is boto3's: what a
    call of the factory gives is an argument of the operation.  So are the
    clock and what reading the state file gives. *)
From S2P Require Import Prelude PyDict PyDecimal PyFloat NasKey Wal PyTime Ndjson DecimalText L1Rows Barrier.
From Stdlib Require Import Ascii.
Open Scope string_scope.
Open Scope list_scope.
Open Scope Z_scope.

(** ** Hiding what an endpoint contains *)

(** [s.split("://", 1)], [s.rsplit(c, 1)], [s.split(c, 1)]: what they give
    after, after and before the separator *)
Fixpoint after_scheme (s : string) : option string :=
  match s with
  | String c s' => if startswith "://" s then Some (removeprefix "://" s) else after_scheme s'
  | EmptyString => None
  end.
Fixpoint after_last (c : ascii) (s : string) : option string :=
  match s with
  | String x s' => match after_last c s' with
                   | Some r => Some r
                   | None => if Ascii.eqb x c then Some s' else None
                   end
  | EmptyString => None
  end.
Fixpoint before_first (c : ascii) (s : string) : string :=
  match s with
  | String x s' => if Ascii.eqb x c then "" else String x (before_first c s')
  | EmptyString => ""
  end.
(** [_mask_endpoint] *)
Definition mask_endpoint (endpoint_url : string) : string :=
  if String.eqb endpoint_url "" then "<empty>" else
  let body := default endpoint_url (after_scheme endpoint_url) in
  let body := default body (after_last "@" body) in
  before_first "/" body.

(** ** State *)

Record GraceModeState := MkGrace {
  g_active : bool; g_started_at_iso : string; g_grace_days : Z; g_last_invariant_verify_iso : string; g_last_invariant_status : string }.
Definition default_grace : GraceModeState := MkGrace false "" 7 "" "".

(** A client: the endpoint it was made for, and [client._endpoint.host] where it
    has one *)
Record client := Client { cl_endpoint : string; cl_host : option string }.
(** The environment variable and the router's attributes *)
Record router := Router { ro_env : option string; ro_endpoint : string; ro_client : option client; ro_grace : GraceModeState }.

Inductive flip_status := flipped | cache_flush_required | legacy_partition_detected | dual_write_grace_active | flip_blocked.
Record EndpointFlipResult := MkFlip {
  fr_status : flip_status; fr_new_endpoint : string; fr_previous_endpoint : string;
  fr_grace_started_at_iso : string; fr_grace_remaining_days : Z }.

(** What the factory gives for an endpoint: the host of the new client *)
Definition made (endpoint : string) (created : res (option string)) : option client :=
  match created with Ok host => Some (Client endpoint host) | Raise _ => None end.

(** [_reload_endpoint] *)
Definition reload_endpoint (created : res (option string)) (r : router) : router :=
  let endpoint := default "" (ro_env r) in
  Router (ro_env r) endpoint (if String.eqb endpoint "" then None else made endpoint created) (ro_grace r).

Section grace.
Context (str_other : pyval → string).

(** [bool(v)], [str(v)] of what YAML gives *)
Definition py_truth (v : pyval) : bool :=
  match v with
  | PNone | PBool false | PStr "" | PList [] | PDict [] => false
  | PInt z => negb (z =? 0)
  | PDec d => negb (coef d =? 0)
  | _ => true
  end.
Definition replace_T (s : string) : string := String.substring 0 10 s +:+ " " +:+ String.substring 11 (String.length s) s.
Definition py_str (v : pyval) : string :=
  match v with
  | PStr s => s
  | PInt z => int_text z
  | PBool b => if b then "True" else "False"
  | PNone => "None"
  | PDatetime us => replace_T (iso_time us)
  | v => str_other v
  end.

(** [_reload_grace_state] of what loading the file gives; [None] where there
    is none *)
Definition grace_of (parsed : pyval) : res GraceModeState :=
  match parsed with
  | PDict d =>
      let field name v := default v (dget d name) in
      rbind (int_of_json (field "grace_days" (PInt 7))) (λ days,
      Ok (MkGrace (py_truth (field "active" (PBool false))) (py_str (field "started_at_iso" (PStr ""))) days
            (py_str (field "last_invariant_verify_iso" (PStr ""))) (py_str (field "last_invariant_status" (PStr "")))))
  | _ => Raise ValueError
  end.
Definition reload_grace_state (loaded : option (res pyval)) (r : router) : router :=
  Router (ro_env r) (ro_endpoint r) (ro_client r)
    (match loaded with
     | None => default_grace
     | Some l => match rbind l grace_of with Ok g => g | Raise _ => default_grace end
     end).

(** [__init__] *)
Definition new_router (env : option string) (created : res (option string)) (loaded : option (res pyval)) : router :=
  reload_grace_state loaded (reload_endpoint created (Router env "" None default_grace)).
End grace.

Definition current_endpoint (r : router) : string := ro_endpoint r.
Definition current_client (r : router) : option client := ro_client r.

(** [grace_remaining_days] at a time in microseconds *)
Definition grace_remaining_days (now : Z) (r : router) : Z :=
  let g := ro_grace r in
  if negb (g_active g) || String.eqb (g_started_at_iso g) "" then 0 else
  match fromisoformat (g_started_at_iso g) with
  | Raise _ => 0
  | Ok started =>
      let elapsed_days := fdiv (int_div (now - started) 1000000) (double_of_Z 86400) in
      Z.max 0 (float_int (fsub (double_of_Z (g_grace_days g)) elapsed_days))
  end.

Definition start_grace (now days : Z) (g : GraceModeState) : GraceModeState :=
  MkGrace true (iso_time now) days (g_last_invariant_verify_iso g) (g_last_invariant_status g).

(** [flip] *)
Definition flip (new_endpoint : string) (activate_grace : bool) (grace_days : Z) (created : res (option string)) (now : Z) (r : router) :
    router * EndpointFlipResult :=
  if g_active (ro_grace r)
  then (r, MkFlip dual_write_grace_active (ro_endpoint r) (ro_endpoint r) (g_started_at_iso (ro_grace r)) (grace_remaining_days now r))
  else
  let previous := ro_endpoint r in
  match created with
  | Raise _ => (Router (Some new_endpoint) (ro_endpoint r) (ro_client r) (ro_grace r), MkFlip flip_blocked new_endpoint previous "" 0)
  | Ok host =>
      let swapped := Router (Some new_endpoint) new_endpoint (made new_endpoint created) (ro_grace r) in
      if match host with Some h => negb (String.eqb h "") && negb (String.eqb h new_endpoint) | None => false end
      then (swapped, MkFlip flip_blocked new_endpoint previous "" 0)
      else if activate_grace
      then (Router (ro_env swapped) (ro_endpoint swapped) (ro_client swapped) (start_grace now grace_days (ro_grace r)),
            MkFlip flipped new_endpoint previous (iso_time now) grace_days)
      else (swapped, MkFlip flipped new_endpoint previous "" 0)
  end.

(** [rollback] *)
Definition rollback (previous_endpoint : string) (created : res (option string)) (r : router) : router * EndpointFlipResult :=
  let prior := ro_endpoint r in
  match created with
  | Raise _ => (Router (Some previous_endpoint) (ro_endpoint r) (ro_client r) (ro_grace r), MkFlip flip_blocked previous_endpoint prior "" 0)
  | Ok _ =>
      let g := ro_grace r in
      (Router (Some previous_endpoint) previous_endpoint (made previous_endpoint created)
         (MkGrace false (g_started_at_iso g) (g_grace_days g) (g_last_invariant_verify_iso g) (g_last_invariant_status g)),
       MkFlip flipped previous_endpoint prior "" 0)
  end.

(** [activate_grace_mode] *)
Definition activate_grace_mode (grace_days now : Z) (r : router) : router :=
  let g := ro_grace r in
  Router (ro_env r) (ro_endpoint r) (ro_client r)
    (MkGrace true (if g_active g then g_started_at_iso g else iso_time now) grace_days (g_last_invariant_verify_iso g) (g_last_invariant_status g)).
Definition is_grace_active (r : router) : bool := g_active (ro_grace r).

(** ** Lemmas *)

#[local] Arguments String.append !_ _ / : simpl nomatch.

Lemma after_last_None c s : all_chars (λ x, negb (Ascii.eqb x c)) s = true → after_last c s = None.
Proof. induction s as [|x s IH]; simpl; [done|]. intros [Hx Hs]%andb_true_iff. rewrite IH by done. by rewrite (proj1 (negb_true_iff _) Hx). Qed.
Lemma after_last_app c s t : all_chars (λ x, negb (Ascii.eqb x c)) t = true → after_last c (s +:+ String c t) = Some t.
Proof.
  intros Ht. induction s as [|x s IH]; simpl; [rewrite after_last_None by done; by rewrite Ascii.eqb_refl|]. by rewrite IH.
Qed.
Lemma before_first_app c s t : all_chars (λ x, negb (Ascii.eqb x c)) s = true → before_first c (s +:+ String c t) = s.
Proof.
  induction s as [|x s IH]; simpl; [by rewrite Ascii.eqb_refl|]. intros [Hx Hs]%andb_true_iff. rewrite (proj1 (negb_true_iff _) Hx). by rewrite IH.
Qed.
Lemma after_scheme_app s t : all_chars (λ x, negb (Ascii.eqb x ":")) s = true → after_scheme (s +:+ "://" +:+ t) = Some t.
Proof.
  induction s as [|x s IH].
  { intros _. pose proof (removeprefix_app "://" t) as Hr. cbn [String.append] in *. cbn [after_scheme]. rewrite Hr.
    unfold startswith. cbn [String.prefix]. by destruct t. }
  cbn [all_chars]. intros [Hx Hs]%andb_true_iff. specialize (IH Hs).
  change (String x s +:+ "://" +:+ t) with (String x (s +:+ "://" +:+ t)). cbn [after_scheme].
  assert (startswith "://" (String x (s +:+ "://" +:+ t)) = false) as ->; [|exact IH].
  unfold startswith. cbn [String.prefix]. destruct (ascii_dec ":" x) as [<-|]; [done|done].
Qed.

(** The parts of the router agree. *)
Definition agrees (r : router) : Prop :=
  ro_env r = Some (ro_endpoint r) ∧ ∃ host, ro_client r = Some (Client (ro_endpoint r) host).

(** ** Properties *)

(** What the switches can do to a router *)
Inductive router_op :=
| DoFlip (new_endpoint : string) (activate : bool) (days : Z) (created : res (option string)) (now : Z)
| DoRollback (endpoint : string) (created : res (option string))
| DoActivate (days now : Z).
Definition router_step (r : router) (o : router_op) : router :=
  match o with
  | DoFlip e a d c now => (flip e a d c now r).1
  | DoRollback e c => (rollback e c r).1
  | DoActivate d now => activate_grace_mode d now r
  end.

(** The client always belongs to the endpoint. *)
Definition client_ok (r : router) : Prop := ∀ c, ro_client r = Some c → cl_endpoint c = ro_endpoint r.
Lemma client_ok_step r o : client_ok r → client_ok (router_step r o).
Proof.
  unfold client_ok. intros Hok. destruct o as [e a d c now|e c|d now]; cbn [router_step]; [| |exact Hok].
  - unfold flip. destruct (g_active (ro_grace r)); [exact Hok|]. destruct c as [host|ex]; [|exact Hok].
    destruct (match host with Some h => _ | None => _ end); [|destruct a]; cbn [fst ro_client made ro_endpoint]; by intros c' [= <-].
  - unfold rollback. destruct c as [host|ex]; [|exact Hok]. cbn [fst ro_client made ro_endpoint]. by intros c' [= <-].
Qed.

(** Switching the endpoint.  From a router whose client belongs to its
    endpoint, whatever switches, rollbacks and activations follow, whether or
    not making a client fails, it still does.  A [flip] answers
    [dual_write_grace_active] exactly in the grace period and then changes
    nothing; [flipped] means that the variable, the endpoint and the client
    are the new ones and that the period runs exactly if it was asked for;
    [flip_blocked] keeps the period.  A [rollback] is refused only where the
    client cannot be made, and otherwise ends the period. *)
Theorem router_contract (r0 : router) (ops : list router_op) :
  client_ok r0 → let r := foldl router_step r0 ops in
  client_ok r ∧
  (∀ e a d c now r' res, flip e a d c now r = (r', res) →
    (fr_status res = dual_write_grace_active ↔ is_grace_active r = true) ∧
    (fr_status res = dual_write_grace_active → r' = r) ∧
    (fr_status res = flipped → agrees r' ∧ ro_endpoint r' = e ∧ fr_previous_endpoint res = ro_endpoint r ∧ is_grace_active r' = a) ∧
    (fr_status res = flip_blocked → ro_grace r' = ro_grace r)) ∧
  (∀ e c r' res, rollback e c r = (r', res) →
    (fr_status res = flipped ↔ res_is_ok c = true) ∧
    (fr_status res = flipped → agrees r' ∧ ro_endpoint r' = e ∧ is_grace_active r' = false) ∧
    (fr_status res = flip_blocked → ro_endpoint r' = ro_endpoint r ∧ ro_client r' = ro_client r ∧ ro_grace r' = ro_grace r)).
Proof.
  intros Hok r. assert (client_ok r) as Hr.
  { subst r. revert r0 Hok. induction ops as [|o ops IH]; intros r0 Hok; [done|]. simpl. by apply IH, client_ok_step. }
  split; [exact Hr|]. split.
  - intros e a d c now r' res. unfold flip, is_grace_active, agrees. destruct (g_active (ro_grace r)) eqn:Hg.
    { intros [= <- <-]. by split_and!. }
    destruct c as [host|ex]; [|intros [= <- <-]; by split_and!].
    destruct (match host with Some h => _ | None => _ end); [intros [= <- <-]; by split_and!|].
    destruct a; intros [= <- <-]; cbn [fr_status ro_env ro_endpoint ro_client ro_grace made start_grace g_active fr_previous_endpoint];
      split_and!; try done; intros _; split_and!; eauto.
  - intros e c r' res. unfold rollback, agrees, is_grace_active. destruct c as [host|ex]; intros [= <- <-];
      cbn [fr_status ro_env ro_endpoint ro_client ro_grace made g_active res_is_ok]; split_and!; try done.
    intros _. split_and!; eauto.
Qed.

(** A masked endpoint shows the host and nothing else: of
    [scheme://credentials@host/path], where neither the host nor the path
    contains an at sign, only the host is left, whatever the credentials. *)
Theorem mask_hides_credentials scheme credentials host path :
  all_chars (λ x, negb (Ascii.eqb x ":")) scheme = true →
  all_chars (λ x, negb (Ascii.eqb x "@")) (host +:+ "/" +:+ path) = true →
  all_chars (λ x, negb (Ascii.eqb x "/")) host = true →
  mask_endpoint (scheme +:+ "://" +:+ credentials +:+ "@" +:+ host +:+ "/" +:+ path) = host ∧
  mask_endpoint (scheme +:+ "://" +:+ host +:+ "/" +:+ path) = host.
Proof.
  intros Hs Ha Hh. unfold mask_endpoint.
  assert (∀ t, String.eqb (scheme +:+ "://" +:+ t) "" = false) as Hne by (intros t; by destruct scheme).
  rewrite !Hne, !after_scheme_app by done. cbn [default from_option id].
  pose proof (after_last_app "@" credentials _ Ha) as E1. pose proof (after_last_None "@" _ Ha) as E2.
  pose proof (before_first_app "/" host path Hh) as E3. cbn [String.append] in *. rewrite E1, E2. cbn [default from_option id]. by rewrite E3.
Qed.

(** *** Examples *)

Definition example_router : router := new_router (λ _, "") (Some "http://a:9000") (Ok (Some "http://a:9000")) None.
Definition flip_to_b : router * EndpointFlipResult := flip "http://b:9000" true 7 (Ok (Some "http://b:9000")) 0 example_router.

Lemma router_contract_witness :
  agrees flip_to_b.1 ∧ is_grace_active flip_to_b.1 = true ∧ client_ok flip_to_b.1 ∧ grace_remaining_days (2 * 86400 * 1000000) flip_to_b.1 = 5.
Proof.
  destruct (router_contract example_router []) as (Hok&Hflip&_); [by intros c [= <-]|].
  destruct (Hflip "http://b:9000" true 7 (Ok (Some "http://b:9000")) 0 flip_to_b.1 flip_to_b.2 (surjective_pairing _)) as (_&_&Hf&_).
  destruct Hf as (Ha&_&_&Hg); [vm_compute; reflexivity|]. split; [exact Ha|]. split; [exact Hg|].
  split; [by intros c [= <-]|vm_compute; reflexivity].
Defined.

Lemma mask_hides_credentials_witness : mask_endpoint "https://access:se/cr@et@nas.local:9000/bucket" = "nas.local:9000".
Proof. apply (mask_hides_credentials "https" "access:se/cr@et" "nas.local:9000" "bucket"); vm_compute; reflexivity. Defined.

(** A [flip] that fails leaves the environment at the endpoint it could not
    reach, where the next process will take it; and one whose client does not
    report the endpoint answers [flip_blocked] with the switch made. *)
Lemma blocked_flip_changes_environment :
  let r := flip "http://b:9000" true 7 (Raise (OtherException "ValueError")) 0 example_router in
  fr_status r.2 = flip_blocked ∧ ro_env r.1 = Some "http://b:9000" ∧ ro_endpoint r.1 = "http://a:9000".
Proof. done. Qed.
Lemma blocked_flip_switches :
  let r := flip "http://b:9000/" true 7 (Ok (Some "http://b:9000")) 0 example_router in
  fr_status r.2 = flip_blocked ∧ ro_endpoint r.1 = "http://b:9000/" ∧ is_grace_active r.1 = false.
Proof. done. Qed.

(** The period does not end by itself: with no day left, a [flip] is still
    refused. *)
Lemma grace_outlives_its_days :
  let r := flip "http://c:9000" true 7 (Ok None) (30 * 86400 * 1000000) flip_to_b.1 in
  fr_status r.2 = dual_write_grace_active ∧ fr_grace_remaining_days r.2 = 0.
Proof. split; vm_compute; reflexivity. Qed.
