(* ===== verification/Readers.v ===== *)
(** * The tiered readers ([io/cold_reader.py], [io/l1_reader.py], [io/tier_reader.py])

    The facade looks into the cache, asks the circuit breaker, and reads the
    object from the store through the reader of its tier, or the local file of
    an old partition where the store cannot be read.  All readers share the
    cache of [ReaderCache] (the facade under the path, the readers under the
    object's key), the breaker of [DrMode] and the client of [EndpointRouter].
    The state is theirs with the [world]; the clock is a function of the
    number of readings.  Latencies in results are left out. *)
From S2P Require Import Prelude Clock PyDict Hoare PyDecimal PyFloat RetryQueue ObjectStore NasUploader NasKey DualWriter Invariants Wal PyTime Ndjson DecimalText L1Rows Barrier Window ReaderCache DrMode.
From Stdlib Require Import Ascii.
Open Scope string_scope.
Open Scope list_scope.
Open Scope Z_scope.

(** The statuses of the three result types *)
Inductive read_status := hit_cache | hit_nas | legacy_node_default | stale_refreshed | not_found | nas_unreachable | local_fallback.
#[export] Instance read_status_eq_dec : EqDecision read_status.
Proof. solve_decision. Defined.

(** [ReadResult] *)
Record ReadResult := MkReadResult {
  rr_status : read_status; rr_data : bytes; rr_nas_object_key : string; rr_is_legacy_node : bool; rr_cache_hit : bool }.
(** [L1ReadResult] *)
Record L1ReadResult := MkL1ReadResult {
  lr_status : read_status; lr_data : bytes; lr_nas_object_key : string; lr_cache_hit : bool; lr_etag : string }.
(** [TierReadResult] *)
Record TierReadResult := MkTierReadResult {
  tr_status : read_status; tr_data : bytes; tr_nas_object_key : string; tr_cache_hit : bool; tr_is_legacy : bool; tr_tier : string }.

(** ** Paths *)

(** [_inject_node_default] *)
Fixpoint insert_after_date (parts : list string) : option (list string) :=
  match parts with
  | [] => None
  | p :: parts' => if startswith "date=" p then Some (p :: "node=DEFAULT" :: parts') else cons p <$> insert_after_date parts'
  end.
Definition inject_node_default (partition_path : string) : string :=
  let parts := split_slash partition_path in
  match insert_after_date parts with
  | Some parts' => join parts'
  | None =>
      if (2 <=? length parts)%nat
      then join (List.removelast parts ++ ["node=DEFAULT"; List.last parts ""])
      else join (parts ++ ["node=DEFAULT"])
  end.

(** [f"{hour:02d}"] *)
Definition two_digits (hour : Z) : string := if (0 <=? hour) && (hour <? 100) then pad 2 hour else int_text hour.
(** [L1Reader._build_key] *)
Definition build_l1_key (symbol date : string) (hour : Z) : string :=
  "tier=L1/exchange=DEFAULT/symbol=" +:+ symbol +:+ "/date=" +:+ date +:+ "/hour=" +:+ two_digits hour +:+ "/" +:+
  symbol +:+ "_" +:+ date +:+ "_" +:+ two_digits hour +:+ ".parquet".

(** [_extract_tier], [_extract_date] *)
Definition first_value (prefix : string) (parts : list string) : option string :=
  removeprefix prefix <$> List.find (startswith prefix) parts.
Definition extract_tier (partition_path : string) : option string := first_value "tier=" (split_slash partition_path).
Definition extract_date (partition_path : string) : option string := first_value "date=" (split_slash partition_path).

(** [s.replace("-", "")] *)
Fixpoint drop_dashes (s : string) : string :=
  match s with
  | String c s' => if Ascii.eqb c "-" then drop_dashes s' else String c (drop_dashes s')
  | EmptyString => ""
  end.
(** [datetime(y, m, d, tzinfo=utc)] *)
Definition utc_midnight (y m d : Z) : option Z :=
  if (1 <=? y) && (y <=? 9999) && (1 <=? m) && (m <=? 12) && (1 <=? d) && (d <=? days_in_month y m)
  then Some (days_from_civil y m d * 86400 * 1000000) else None.
(** [_parse_partition_date] *)
Definition parse_partition_date (partition_path : string) : option Z :=
  match extract_date partition_path with
  | None => None
  | Some date_str =>
      let clean := drop_dashes date_str in
      if (String.length clean =? 8)%nat
      then match int_of_text (String.substring 0 4 clean), int_of_text (String.substring 4 2 clean), int_of_text (String.substring 6 2 clean) with
           | Ok y, Ok m, Ok d => utc_midnight y m d
           | _, _, _ => None
           end
      else None
  end.

(** The symbol, the date and the hour [_read_l1] finds in a path *)
Definition l1_field (acc : string * string * Z) (part : string) : string * string * Z :=
  let '(symbol, date, hour) := acc in
  if startswith "symbol=" part then (removeprefix "symbol=" part, date, hour)
  else if startswith "date=" part then (symbol, drop_dashes (removeprefix "date=" part), hour)
  else if startswith "hour=" part then (symbol, date, match int_of_text (removeprefix "hour=" part) with Ok h => h | Raise _ => 0 end)
  else acc.
Definition l1_fields (partition_path : string) : string * string * Z :=
  let '(symbol, date, hour) := foldl l1_field ("", "", 0) (split_slash partition_path) in
  if negb (String.eqb symbol "") && negb (String.eqb date "") then (symbol, date, hour) else ("UNKNOWN", "00000000", 0).

(** What the readers are built from *)
Record reader_config := ReaderConfig {
  rc_cache : cache_config; rc_dr : dr_config; rc_partition_normalization : bool; rc_local_path_base : option path; rc_cutoff : Z }.

Section readers.
Context {S : Type} `{S3 S} (cfg : reader_config).
(** [str(exc)], the ETag header of a GET, and the error of reading a local file *)
Context (str_exc : exn → string) (get_etag : bytes → string) (read_fault : option exn) (clock : nat → Z).

Record readers := Readers {
  rd_cache : cache; rd_dr : dr; rd_client : bool; rd_etag_cache : dict string string; rd_world : world S; rd_ticks : nat }.
Local Notation proc := (proc readers).

Definition set_cache (c : cache) (s : readers) : readers := Readers c (rd_dr s) (rd_client s) (rd_etag_cache s) (rd_world s) (rd_ticks s).
Definition set_dr (d : dr) (s : readers) : readers := Readers (rd_cache s) d (rd_client s) (rd_etag_cache s) (rd_world s) (rd_ticks s).
Definition set_etags (e : dict string string) (s : readers) : readers := Readers (rd_cache s) (rd_dr s) (rd_client s) e (rd_world s) (rd_ticks s).
Definition set_world (w : world S) (s : readers) : readers := Readers (rd_cache s) (rd_dr s) (rd_client s) (rd_etag_cache s) w (rd_ticks s).

(** [time.monotonic()] *)
Definition tick : proc Z := λ s,
  (Readers (rd_cache s) (rd_dr s) (rd_client s) (rd_etag_cache s) (rd_world s) (rd_ticks s + 1), Ok (clock (rd_ticks s))).
Definition on_store {A} (m : Prelude.proc (world S) A) : proc A := λ s, let '(w, r) := m (rd_world s) in (set_world w s, r).

Definition cache_get (key : string) : proc (option bytes) :=
  pbind tick (λ start, pbind tick (λ now, pbind tick (λ finish s,
  let '(c, r) := ReaderCache.get (rc_cache cfg) key now (finish - start) (rd_cache s) in (set_cache c s, Ok r)))).
Definition cache_put (key : string) (value : bytes) : proc unit :=
  pbind tick (λ now s, let '(c, r) := ReaderCache.put (rc_cache cfg) key value now (rd_cache s) in (set_cache c s, r)).

Definition dr_current_state : proc DRState :=
  pbind tick (λ now s, let '(d, st) := current_state (rc_dr cfg) now (rd_dr s) in (set_dr d s, Ok st)).
Definition dr_success : proc unit := pbind tick (λ now s, (set_dr (record_success now (rd_dr s)) s, Ok tt)).
Definition dr_failure (status_code latency : Z) : proc unit :=
  pbind tick (λ now, pbind tick (λ cut, pbind tick (λ opened s,
  (set_dr (record_failure (rc_dr cfg) status_code latency now cut opened (rd_dr s)) s, Ok tt)))).
Definition dr_set_mode (state : DRState) : proc unit := pbind tick (λ now s, (set_dr (set_mode state now (rd_dr s)) s, Ok tt)).

(** [type(exc).__name__] contains [NoSuchKey]; the texts that mean 404 *)
Definition named_no_such_key (e : exn) : bool := match e with ClientError code => String.eqb code "NoSuchKey" | _ => false end.
Definition cold_not_found (e : exn) : bool := named_no_such_key e || contains "404" (str_exc e).
Definition l1_not_found (e : exn) : bool := named_no_such_key e || contains "NoSuchKey" (str_exc e) || contains "404" (str_exc e).

(** ** [ColdReader] *)

Definition build_nas_object_key (partition_path : string) : string * bool :=
  let is_legacy_node := negb (contains "node=" partition_path) in
  (if is_legacy_node && rc_partition_normalization cfg then inject_node_default partition_path else partition_path, is_legacy_node).

(** [read] *)
Definition cold_read (partition_path : string) : proc ReadResult :=
  let '(key, legacy) := build_nas_object_key partition_path in
  pbind (cache_get key) (λ cached,
  match cached with
  | Some data => pret (MkReadResult hit_cache data key legacy true)
  | None => λ s,
      if negb (rd_client s) then (s, Ok (MkReadResult nas_unreachable "" key legacy false)) else
      match on_store (call_s3 (s3_get key)) s with
      | (s, Raise e) => (s, Ok (MkReadResult (if cold_not_found e then not_found else nas_unreachable) "" key legacy false))
      | (s, Ok data) => pbind (cache_put key data) (λ _, pret (MkReadResult (if legacy then legacy_node_default else hit_nas) data key legacy false)) s
      end
  end).

(** ** [L1Reader] *)

(** [_fetch_from_nas] *)
Definition fetch_from_nas (key : string) (on_success : read_status) : proc L1ReadResult := λ s,
  if negb (rd_client s) then (s, Ok (MkL1ReadResult nas_unreachable "" key false "")) else
  match on_store (call_s3 (s3_get key)) s with
  | (s, Raise e) => (s, Ok (MkL1ReadResult (if l1_not_found e then not_found else nas_unreachable) "" key false ""))
  | (s, Ok data) =>
      pbind (cache_put key data) (λ _ s,
      (set_etags (dset (rd_etag_cache s) key (get_etag data)) s, Ok (MkL1ReadResult on_success data key false (get_etag data)))) s
  end.

(** The check of a cached entry: a result where it is fetched again *)
Definition refresh_stale (key : string) : proc (option L1ReadResult) := λ s,
  if negb (rd_client s) then (s, Ok None) else
  match on_store (call_s3 (s3_head key)) s with
  | (s, Raise _) => (s, Ok None)
  | (s, Ok h) =>
      let cached_etag := default "" (dget (rd_etag_cache s) key) in
      if negb (String.eqb (h_etag h) "") && (String.eqb cached_etag "" || negb (String.eqb (h_etag h) cached_etag))
      then match fetch_from_nas key stale_refreshed s with
           | (s, Ok r) => (s, Ok (Some r))
           | (s, Raise _) => (s, Ok None)
           end
      else (s, Ok None)
  end.

(** [read] *)
Definition l1_read (symbol date : string) (hour : Z) : proc L1ReadResult :=
  let key := build_l1_key symbol date hour in
  pbind (cache_get key) (λ cached,
  match cached with
  | Some data => pbind (refresh_stale key) (λ again,
      match again with
      | Some r => pret r
      | None => λ s, (s, Ok (MkL1ReadResult hit_cache data key true (default "" (dget (rd_etag_cache s) key))))
      end)
  | None => fetch_from_nas key hit_nas
  end).

(** ** [TierReader] *)

Definition unreachable_result (partition_path tier : string) : TierReadResult := MkTierReadResult nas_unreachable "" partition_path false false tier.

(** [_local_fallback_or_unreachable] *)
Definition local_fallback_or_unreachable (partition_path : string) (dr_state : option DRState) (tier : string) : proc TierReadResult := λ s,
  let unreachable := (s, Ok (unreachable_result partition_path tier)) in
  if bool_decide (dr_state = Some UNKNOWN_TIER) then unreachable else
  match rc_local_path_base cfg, parse_partition_date partition_path with
  | Some base, Some partition_dt =>
      if rc_cutoff cfg <=? partition_dt then unreachable else
      match w_fs (rd_world s) !! fs_name (path_div base partition_path), read_fault with
      | Some data, None => (s, Ok (MkTierReadResult local_fallback data partition_path false true tier))
      | _, _ => unreachable
      end
  | _, _ => unreachable
  end.

(** What the facade takes from a reader's result: status, data, key *)
Definition read_tier (tier partition_path : string) : proc (read_status * bytes * string) :=
  if String.eqb tier "L1"
  then let '(symbol, date, hour) := l1_fields partition_path in
       pbind (l1_read symbol date hour) (λ r, pret (lr_status r, lr_data r, lr_nas_object_key r))
  else pbind (cold_read partition_path) (λ r, pret (rr_status r, rr_data r, rr_nas_object_key r)).

Definition is_nas_success (st : read_status) : bool :=
  match st with hit_nas | stale_refreshed | legacy_node_default => true | _ => false end.

(** The part of [read] that asks the store *)
Definition read_nas (partition_path tier : string) (start : Z) : proc TierReadResult :=
  pbind (read_tier tier partition_path) (λ '(st, data, key),
  if is_nas_success st
  then pbind dr_success (λ _, pbind (cache_put partition_path data) (λ _, pret (MkTierReadResult hit_nas data key false false tier)))
  else
  pbind tick (λ now, pbind (dr_failure 503 (now - start)) (λ _,
  if bool_decide (st = not_found) then pret (MkTierReadResult not_found "" key false false tier)
  else local_fallback_or_unreachable partition_path None tier))).

(** [read] *)
Definition tier_read (partition_path : string) : proc TierReadResult :=
  pbind tick (λ start,
  pbind (cache_get partition_path) (λ cached,
  match cached with
  | Some data => pret (MkTierReadResult hit_cache data partition_path true false "")
  | None =>
      pbind dr_current_state (λ dr_state,
      if bool_decide (dr_state = OPEN) || bool_decide (dr_state = UNKNOWN_TIER)
      then local_fallback_or_unreachable partition_path (Some dr_state) ""
      else
      match extract_tier partition_path with
      | None => pbind (dr_set_mode UNKNOWN_TIER) (λ _, pret (unreachable_result partition_path ""))
      | Some tier => read_nas partition_path tier start
      end)
  end)).

(** ** [ColdReader.run_smoke_test] *)

Record smoke_sample := SmokeSample {
  sm_partition_path : string; sm_status : read_status; sm_is_legacy_node : bool; sm_cache_hit : bool;
  sm_data_size_bytes : Z; sm_sha256 : string; sm_invariant_status : string; sm_passed : bool }.
Record smoke_summary := SmokeSummary { su_samples : list smoke_sample; su_total : Z; su_pass_count : Z; su_fail_count : Z; su_stats : cache_stats }.

(** [invariant_harness], with its [verify_schema_only] where it has one *)
Context (sha256_hex : bytes → string) (invariant_harness : option (option (bytes → res string))) (exn_name : exn → string).
Definition invariant_status_of (data : bytes) : string :=
  match invariant_harness with
  | Some h =>
      if String.eqb data "" then "skipped" else
      match h with
      | None => "no_verify_method"
      | Some f => match f data with Ok st => st | Raise e => "verify_error_" +:+ exn_name e end
      end
  | None => "skipped"
  end.
Definition is_read_success (st : read_status) : bool :=
  match st with hit_cache | hit_nas | legacy_node_default => true | _ => false end.
Definition smoke_one (partition_path : string) : proc smoke_sample :=
  pbind (cold_read partition_path) (λ r,
  let data := rr_data r in
  let inv := invariant_status_of data in
  pret (SmokeSample partition_path (rr_status r) (rr_is_legacy_node r) (rr_cache_hit r) (blen data)
    (if String.eqb data "" then "" else sha256_hex data) inv
    (is_read_success (rr_status r) && existsb (String.eqb inv) ["all_pass"; "skipped"]))).
Definition run_smoke_test (sample_partitions : list string) : proc smoke_summary :=
  pbind (pmap smoke_one sample_partitions) (λ samples s,
  let passed := Z.of_nat (length (List.filter sm_passed samples)) in
  (s, Ok (SmokeSummary samples (Z.of_nat (length sample_partitions)) passed (Z.of_nat (length samples) - passed)
            (stats (rc_cache cfg) (rd_cache s))))).
End readers.

(** ** Lemmas *)

Section reader_lemmas.
Context {S : Type} `{S3Laws S} (cfg : reader_config).
Context (str_exc : exn → string) (get_etag : bytes → string) (read_fault : option exn) (clock : nat → Z).
Local Notation readers := (readers (S := S)).
Implicit Types (s : readers).
Local Notation cache_get := (cache_get cfg clock).
Local Notation cache_put := (cache_put cfg clock).
Local Notation cold_read := (cold_read cfg str_exc clock).
Local Notation l1_read := (l1_read cfg str_exc get_etag clock).
Local Notation fetch_from_nas := (fetch_from_nas cfg str_exc get_etag clock).
Local Notation tier_read := (tier_read cfg str_exc get_etag read_fault clock).

(** The parts a step leaves alone *)
Definition same_rest s s' : Prop :=
  rd_world s' = rd_world s ∧ rd_dr s' = rd_dr s ∧ rd_client s' = rd_client s ∧ rd_etag_cache s' = rd_etag_cache s.
Lemma cache_get_inv key s s' r : cache_get key s = (s', r) →
  same_rest s s' ∧ ∃ el, r = Ok (ReaderCache.get (rc_cache cfg) key (clock (rd_ticks s + 1)%nat) el (rd_cache s)).2.
Proof.
  unfold Readers.cache_get, pbind, tick. cbn [rd_cache rd_dr rd_client rd_etag_cache rd_world rd_ticks].
  destruct (ReaderCache.get _ _ _ _ _) as [c v] eqn:Hg. intros [= <- <-]. split; [done|].
  eexists. rewrite Hg. done.
Qed.
Lemma get_hit key now el c v : (ReaderCache.get (rc_cache cfg) key now el c).2 = Some v →
  ∃ e, dget (ca_entries c) key = Some e ∧ ce_value e = v ∧ now <= ce_inserted_at e + cc_ttl (rc_cache cfg).
Proof.
  unfold ReaderCache.get. destruct (dget (ca_entries c) key) as [e|]; [|done]. destruct (Z.ltb_spec (ce_inserted_at e + cc_ttl (rc_cache cfg)) now); [done|].
  intros [= <-]. by exists e.
Qed.
Lemma cache_put_inv key v s s' r : cache_put key v s = (s', r) → same_rest s s'.
Proof.
  unfold Readers.cache_put, pbind, tick. cbn [rd_cache rd_dr rd_client rd_etag_cache rd_world rd_ticks].
  destruct (ReaderCache.put _ _ _ _ _) as [c o]. by intros [= <- <-].
Qed.

(** An object of the store *)
Definition holds (w : world S) (key : string) (data : bytes) : Prop := ∃ o, objects w !! key = Some o ∧ ob_body o = data.

Lemma store_get key s s' r : on_store (call_s3 (s3_get key)) s = (s', r) →
  same_storage (rd_world s) (rd_world s') ∧ rd_client s' = rd_client s ∧ rd_dr s' = rd_dr s ∧ ∀ data, r = Ok data → holds (rd_world s) key data.
Proof.
  unfold on_store. destruct (call_s3 (s3_get key) (rd_world s)) as [w o] eqn:Hc. intros [= <- <-]. cbn [rd_world set_world rd_client rd_dr].
  split; [by apply (reads_only_download key _ _ _ Hc)|]. split; [done|]. split; [done|]. intros data ->.
  apply call_s3_inv in Hc as (Hc&_). apply s3_get_ok in Hc as (ob&?&?). by exists ob.
Qed.
Lemma store_head key s s' r : on_store (call_s3 (s3_head key)) s = (s', r) →
  same_storage (rd_world s) (rd_world s') ∧ rd_client s' = rd_client s ∧ rd_dr s' = rd_dr s.
Proof.
  unfold on_store. destruct (call_s3 (s3_head key) (rd_world s)) as [w o] eqn:Hc. intros [= <- <-]. cbn [rd_world set_world rd_client rd_dr].
  apply head_inv in Hc as (?&?&?&_). by split_and!.
Qed.
Lemma holds_same w w' key data : same_storage w w' → holds w' key data → holds w key data.
Proof. intros (Ho&_&_) (o&Hk&Hb). exists o. by rewrite <- Ho. Qed.

(** What a tier's reader gives *)
Definition read_post (w : world S) (key : string) (st : read_status) (data : bytes) (key' : string) : Prop :=
  key' = key ∧ match st with
  | hit_nas | legacy_node_default | stale_refreshed => holds w key data
  | hit_cache => True
  | not_found | nas_unreachable => data = ""
  | local_fallback => False
  end.

Lemma cold_read_inv p s s' r : cold_read p s = (s', r) →
  same_storage (rd_world s) (rd_world s') ∧ rd_client s' = rd_client s ∧ rd_dr s' = rd_dr s ∧
  ∀ res, r = Ok res → read_post (rd_world s) (build_nas_object_key cfg p).1 (rr_status res) (rr_data res) (rr_nas_object_key res).
Proof.
  unfold Readers.cold_read. destruct (build_nas_object_key cfg p) as [key legacy]. cbn [fst]. unfold pbind at 1.
  destruct (cache_get key s) as [s1 o] eqn:Hg. apply cache_get_inv in Hg as ((Hw&Hd&Hc&_)&el&->).
  destruct ((ReaderCache.get _ _ _ _ _).2) as [data|].
  { intros [= <- <-]. rewrite Hw, Hc, Hd. split; [apply same_storage_refl|]. split; [done|]. split; [done|]. by intros res [= <-]. }
  destruct (negb (rd_client s1)).
  { intros [= <- <-]. rewrite Hw, Hc, Hd. split; [apply same_storage_refl|]. split; [done|]. split; [done|]. by intros res [= <-]. }
  destruct (on_store _ s1) as [s2 [data|e]] eqn:Hs; apply store_get in Hs as (Hsame&Hc2&Hd2&Hh); rewrite Hw in *.
  - unfold pbind. destruct (cache_put key data s2) as [s3 o] eqn:Hp. apply cache_put_inv in Hp as (Hw3&Hd3&Hc3&_).
    destruct o as [[]|e]; intros [= <- <-]; rewrite Hw3, Hc3, Hd3; (split; [done|]; split; [congruence|]; split; [congruence|]); intros res [= <-].
    split; [done|]. cbn [rr_status rr_data]. destruct legacy; by apply Hh.
  - intros [= <- <-]. split; [done|]. split; [congruence|]. split; [congruence|]. intros res [= <-]. split; [done|]. cbn. by destruct (cold_not_found str_exc e).
Qed.

Lemma fetch_inv key st s s' r : (st = hit_nas ∨ st = stale_refreshed) → fetch_from_nas key st s = (s', r) →
  same_storage (rd_world s) (rd_world s') ∧ rd_client s' = rd_client s ∧ rd_dr s' = rd_dr s ∧
  ∀ res, r = Ok res → read_post (rd_world s) key (lr_status res) (lr_data res) (lr_nas_object_key res).
Proof.
  intros Hst. unfold Readers.fetch_from_nas. destruct (negb (rd_client s)).
  { intros [= <- <-]. split; [apply same_storage_refl|]. split; [done|]. split; [done|]. by intros res [= <-]. }
  destruct (on_store _ s) as [s2 [data|e]] eqn:Hs; apply store_get in Hs as (Hsame&Hc2&Hd2&Hh).
  - unfold pbind. destruct (cache_put key data s2) as [s3 o] eqn:Hp. apply cache_put_inv in Hp as (Hw3&Hd3&Hc3&_).
    destruct o as [[]|e]; intros [= <- <-]; cbn [set_etags rd_world rd_client rd_dr]; rewrite Hw3, Hc3, Hd3;
      (split; [done|]; split; [congruence|]; split; [congruence|]); intros res [= <-].
    split; [done|]. cbn. destruct Hst as [->| ->]; by apply Hh.
  - intros [= <- <-]. split; [done|]. split; [congruence|]. split; [congruence|]. intros res [= <-]. split; [done|]. cbn. by destruct (l1_not_found str_exc e).
Qed.

Lemma refresh_inv key s s' r : refresh_stale cfg str_exc get_etag clock key s = (s', r) →
  same_storage (rd_world s) (rd_world s') ∧ rd_client s' = rd_client s ∧ rd_dr s' = rd_dr s ∧
  ∀ res, r = Ok (Some res) → read_post (rd_world s) key (lr_status res) (lr_data res) (lr_nas_object_key res).
Proof.
  unfold refresh_stale. destruct (negb (rd_client s)); [by intros [= <- <-]|].
  destruct (on_store _ s) as [s1 [h|e]] eqn:Hh; apply store_head in Hh as (Hsame&Hc&Hd); [|by intros [= <- <-]].
  destruct (negb _ && _); [|by intros [= <- <-]].
  destruct (fetch_from_nas key stale_refreshed s1) as [s2 o] eqn:Hf. apply fetch_inv in Hf as (Hsame2&Hc2&Hd2&Hpost); [|by right].
  assert (same_storage (rd_world s) (rd_world s2)) as Hs by (by eapply same_storage_trans).
  destruct o as [res|e]; intros [= <- <-]; (split; [done|]; split; [congruence|]; split; [congruence|]); intros res' [= <-].
  specialize (Hpost res eq_refl) as [Hk Hp]. split; [exact Hk|]. destruct (lr_status res); try done; exact (holds_same _ _ _ _ Hsame Hp).
Qed.

Lemma l1_read_inv symbol date hour s s' r : l1_read symbol date hour s = (s', r) →
  same_storage (rd_world s) (rd_world s') ∧ rd_client s' = rd_client s ∧ rd_dr s' = rd_dr s ∧
  ∀ res, r = Ok res → read_post (rd_world s) (build_l1_key symbol date hour) (lr_status res) (lr_data res) (lr_nas_object_key res).
Proof.
  unfold Readers.l1_read, pbind at 1. destruct (cache_get _ s) as [s1 o] eqn:Hg. apply cache_get_inv in Hg as ((Hw&Hd&Hc&_)&el&->).
  destruct ((ReaderCache.get _ _ _ _ _).2) as [data|].
  - unfold pbind. destruct (refresh_stale _ _ _ _ _ s1) as [s2 o] eqn:Hr. apply refresh_inv in Hr as (Hs&Hc2&Hd2&Hpost). rewrite Hw in *.
    destruct o as [[res|]|e]; intros [= <- <-]; (split; [done|]; split; [congruence|]; split; [congruence|]).
    + intros res' [= <-]. by apply Hpost.
    + by intros res' [= <-].
    + done.
  - intros (Hs&Hc2&Hd2&Hpost)%fetch_inv; [|by left]. rewrite Hw in *. split; [done|]. split; [congruence|]. split; [congruence|done].
Qed.

(** The object's key of a path *)
Definition object_key (tier partition_path : string) : string :=
  if String.eqb tier "L1" then let '(symbol, date, hour) := l1_fields partition_path in build_l1_key symbol date hour
  else (build_nas_object_key cfg partition_path).1.
Lemma read_tier_inv tier p s s' r : read_tier cfg str_exc get_etag clock tier p s = (s', r) →
  same_storage (rd_world s) (rd_world s') ∧ rd_client s' = rd_client s ∧ rd_dr s' = rd_dr s ∧
  ∀ st data key, r = Ok (st, data, key) → read_post (rd_world s) (object_key tier p) st data key.
Proof.
  unfold read_tier, object_key. destruct (String.eqb tier "L1").
  - destruct (l1_fields p) as [[symbol date] hour]. unfold pbind. destruct (l1_read symbol date hour s) as [s1 o] eqn:Hl.
    apply l1_read_inv in Hl as (?&?&?&Hpost). destruct o as [res|e]; intros [= <- <-]; (split; [done|]; split; [done|]; split; [done|]); intros st data key [= <- <- <-].
    by apply Hpost.
  - unfold pbind. destruct (cold_read p s) as [s1 o] eqn:Hl.
    apply cold_read_inv in Hl as (?&?&?&Hpost). destruct o as [res|e]; intros [= <- <-]; (split; [done|]; split; [done|]; split; [done|]); intros st data key [= <- <- <-].
    by apply Hpost.
Qed.

(** The local file of a partition before the cutoff *)
Definition from_local (w : world S) (p : string) (data : bytes) : Prop :=
  ∃ base dt, rc_local_path_base cfg = Some base ∧ parse_partition_date p = Some dt ∧ dt < rc_cutoff cfg ∧
    w_fs w !! fs_name (path_div base p) = Some data.
Lemma local_inv p st tier s s' r : local_fallback_or_unreachable cfg read_fault p st tier s = (s', r) →
  s' = s ∧ ∃ res, r = Ok res ∧ tr_nas_object_key res = p ∧
    (tr_status res = nas_unreachable ∧ tr_data res = "" ∨
     tr_status res = local_fallback ∧ from_local (rd_world s) p (tr_data res) ∧ st ≠ Some UNKNOWN_TIER).
Proof.
  unfold local_fallback_or_unreachable, from_local. case_bool_decide as Hst; [intros [= <- <-]; eauto 10|].
  destruct (rc_local_path_base cfg) as [base|]; [|intros [= <- <-]; eauto 10].
  destruct (parse_partition_date p) as [dt|]; [|intros [= <- <-]; eauto 10].
  destruct (rc_cutoff cfg <=? dt) eqn:Hc; [intros [= <- <-]; eauto 10|]. py_bool.
  destruct (w_fs (rd_world s) !! _) as [data|] eqn:Hf; [|intros [= <- <-]; eauto 10].
  destruct read_fault; intros [= <- <-]; (split; [done|]); eexists; (split; [done|]); (split; [done|]); [by left|right].
  split; [done|]. split; [|done]. exists base, dt. split_and!; [done..|]. exact Hf.
Qed.

(** A path of the documented layout of tier L1, and the object for it: [x] is
    the exchange in the object's name. *)
Definition l1_path (exchange symbol date hour file : string) : string :=
  join ["tier=L1"; "exchange=" +:+ exchange; "symbol=" +:+ symbol; "date=" +:+ date; "hour=" +:+ hour; file].
Definition l1_object (x symbol date : string) (hour : Z) : string :=
  "tier=L1/exchange=" +:+ x +:+ "/symbol=" +:+ symbol +:+ "/date=" +:+ date +:+ "/hour=" +:+ two_digits hour +:+ "/" +:+
  symbol +:+ "_" +:+ date +:+ "_" +:+ two_digits hour +:+ ".parquet".

(** Which object a path stands for.  Below L1 it has the path as its name, with
    a component [node=DEFAULT] where the path names no node; in L1 it is that of
    the path's symbol, date and hour. *)
Definition addresses (tier p key : string) : Prop :=
  (tier ≠ "L1" → key = p ∨ contains "node=" p = false ∧ ∃ l r, split_slash p = l ++ r ∧ key = join (l ++ "node=DEFAULT" :: r)) ∧
  (tier = "L1" → ∀ exchange symbol date ht hour file,
     p = l1_path exchange symbol date ht file → forallb no_slash [exchange; symbol; date; ht; file] = true → symbol ≠ "" → drop_dashes date ≠ "" →
     int_of_text ht = Ok hour → file ≠ "" → file ≠ "." → existsb (λ f, startswith f file) ["symbol="; "date="; "hour="] = false →
     ∃ x, key = l1_object x symbol (drop_dashes date) hour).

(** What a result of the facade stands for, read from the cache at [now] *)
Definition tier_post (w : world S) (c : cache) (now : Z) (p : string) (res : TierReadResult) : Prop :=
  match tr_status res with
  | hit_cache => ∃ e, dget (ca_entries c) p = Some e ∧ ce_value e = tr_data res ∧ now <= ce_inserted_at e + cc_ttl (rc_cache cfg)
  | hit_nas => holds w (tr_nas_object_key res) (tr_data res) ∧
      ∃ tier, extract_tier p = Some tier ∧ addresses tier p (tr_nas_object_key res)
  | local_fallback => from_local w p (tr_data res)
  | not_found | nas_unreachable => tr_data res = ""
  | legacy_node_default | stale_refreshed => False
  end.

Lemma insert_after_date_spec parts parts' : insert_after_date parts = Some parts' → ∃ l r, parts = l ++ r ∧ parts' = l ++ "node=DEFAULT" :: r.
Proof.
  revert parts'. induction parts as [|q parts IH]; intros parts'; simpl; [done|]. destruct (startswith "date=" q).
  - intros [= <-]. by exists [q], parts.
  - destruct (insert_after_date parts) as [ps|]; simpl; [|done]. intros [= <-]. destruct (IH ps eq_refl) as (l&r&->&->). by exists (q :: l), r.
Qed.
Lemma inject_node_spec p : ∃ l r, split_slash p = l ++ r ∧ inject_node_default p = join (l ++ "node=DEFAULT" :: r).
Proof.
  unfold inject_node_default. destruct (insert_after_date (split_slash p)) as [parts'|] eqn:Hi.
  { apply insert_after_date_spec in Hi as (l&r&?&->). by exists l, r. }
  destruct (Nat.leb_spec 2 (length (split_slash p))) as [Hl|_].
  - exists (List.removelast (split_slash p)), [List.last (split_slash p) ""]. split; [|done].
    apply List.app_removelast_last. by intros Hn; rewrite Hn in Hl; simpl in Hl; lia.
  - exists (split_slash p), []. by rewrite app_nil_r.
Qed.

Lemma l1_field_symbol y acc : l1_field acc ("symbol=" +:+ y) = (y, acc.1.2, acc.2).
Proof. destruct acc as [[a b] c]. unfold l1_field, startswith. by rewrite prefix_app, removeprefix_app. Qed.
Lemma l1_field_date d acc : l1_field acc ("date=" +:+ d) = (acc.1.1, drop_dashes d, acc.2).
Proof.
  destruct acc as [[a b] c]. unfold l1_field. change (startswith "symbol=" ("date=" +:+ d)) with false. unfold startswith.
  by rewrite prefix_app, removeprefix_app.
Qed.
Lemma l1_field_hour h acc : l1_field acc ("hour=" +:+ h) = (acc.1.1, acc.1.2, match int_of_text h with Ok n => n | Raise _ => 0 end).
Proof.
  destruct acc as [[a b] c]. unfold l1_field. change (startswith "symbol=" ("hour=" +:+ h)) with false.
  change (startswith "date=" ("hour=" +:+ h)) with false. unfold startswith. by rewrite prefix_app, removeprefix_app.
Qed.

Lemma object_addresses tier p : addresses tier p (object_key tier p).
Proof.
  unfold addresses, object_key. split.
  - intros Hne. rewrite (proj2 (String.eqb_neq _ _)) by done. unfold build_nas_object_key. cbn [fst].
    destruct (contains "node=" p); cbn [negb andb]; [by left|]. destruct (rc_partition_normalization cfg); [right|by left].
    split; [done|apply inject_node_spec].
  - intros -> ex sym d ht h file -> Hns Hsym Hd Hht Hf1 Hf2 Hf. rewrite String.eqb_refl. exists "DEFAULT".
    cbn [forallb] in Hns. rewrite !andb_true_iff in Hns. destruct Hns as (?&?&?&?&?&_).
    assert (split_slash (l1_path ex sym d ht file) = ["tier=L1"; "exchange=" +:+ ex; "symbol=" +:+ sym; "date=" +:+ d; "hour=" +:+ ht; file]) as Hsplit.
    { apply split_slash_join; [done|]. repeat constructor; done. }
    unfold l1_fields. rewrite Hsplit. cbn [existsb] in Hf. rewrite !orb_false_iff in Hf. destruct Hf as (Hf3&Hf4&Hf5&_). cbn [foldl].
    change (l1_field ("", "", 0) "tier=L1") with ("", "", 0). change (l1_field ("", "", 0) ("exchange=" +:+ ex)) with ("", "", 0).
    rewrite l1_field_symbol, l1_field_date, l1_field_hour, Hht. unfold l1_field. rewrite Hf3, Hf4, Hf5. cbn [fst snd].
    rewrite (proj2 (String.eqb_neq sym "")), (proj2 (String.eqb_neq (drop_dashes d) "")) by done. reflexivity.
Qed.

(** A step of the breaker's bookkeeping *)
Lemma dr_step_inv s s' : (∃ d, s' = Readers (rd_cache s) d (rd_client s) (rd_etag_cache s) (rd_world s) (rd_ticks s')) → rd_world s' = rd_world s.
Proof. by intros [d ->]. Qed.
Lemma dr_failure_inv code lat s s' r : dr_failure cfg clock code lat s = (s', r) → r = Ok tt ∧ rd_world s' = rd_world s.
Proof. unfold dr_failure, pbind, tick. by intros [= <- <-]. Qed.
Lemma dr_success_inv s s' r : dr_success clock s = (s', r) → r = Ok tt ∧ rd_world s' = rd_world s.
Proof. unfold dr_success, pbind, tick. by intros [= <- <-]. Qed.
Lemma dr_query_inv s s' r : dr_current_state cfg clock s = (s', r) → rd_world s' = rd_world s ∧ rd_cache s' = rd_cache s ∧
  r = Ok (current_state (rc_dr cfg) (clock (rd_ticks s)) (rd_dr s)).2 ∧ rd_dr s' = (current_state (rc_dr cfg) (clock (rd_ticks s)) (rd_dr s)).1.
Proof.
  unfold dr_current_state, pbind, tick. cbn [rd_cache rd_dr rd_client rd_etag_cache rd_world rd_ticks].
  destruct (current_state _ _ _) as [d st]. by intros [= <- <-].
Qed.

Lemma read_nas_inv p tier start s s' r : extract_tier p = Some tier → read_nas cfg str_exc get_etag read_fault clock p tier start s = (s', r) →
  same_storage (rd_world s) (rd_world s') ∧ ∀ c now res, r = Ok res → tier_post (rd_world s) c now p res.
Proof.
  intros Ht. unfold read_nas, pbind at 1. destruct (read_tier _ _ _ _ tier p s) as [s1 o] eqn:Hr.
  apply read_tier_inv in Hr as (Hs&_&_&Hpost). destruct o as [[[st data] key]|e]; [|by intros [= <- <-]].
  destruct (Hpost st data key eq_refl) as [-> Hst]. destruct (is_nas_success st) eqn:Hok.
  - assert (holds (rd_world s) (object_key tier p) data) as Hh by (by destruct st).
    unfold pbind. destruct (dr_success clock s1) as [s2 o] eqn:Hd. apply dr_success_inv in Hd as [-> Hw2].
    destruct (cache_put p data s2) as [s3 o] eqn:Hp. apply cache_put_inv in Hp as (Hw3&_).
    destruct o as [[]|e]; intros [= <- <-]; (split; [by rewrite Hw3, Hw2|]); intros c now res [= <-]. split; [exact Hh|]. exists tier. split; [done|]. apply object_addresses.
  - unfold pbind at 1, tick. unfold pbind at 1. cbn [rd_world rd_cache rd_dr rd_client rd_etag_cache rd_ticks].
    destruct (dr_failure _ _ _ _ _) as [s2 o] eqn:Hd. apply dr_failure_inv in Hd as [-> Hw2]. cbn [rd_world] in Hw2.
    case_bool_decide as Hnf; [intros [= <- <-]; rewrite Hw2; split; [done|]; by intros c now res [= <-]|].
    intros Hloc. apply local_inv in Hloc as (->&res&->&_&Hcase). rewrite Hw2. split; [done|]. intros c now res' [= <-]. unfold tier_post.
    destruct Hcase as [[-> ->]|(->&(base&dt&?&?&?&Hf)&_)]; [done|]. exists base, dt. split_and!; [done..|].
    destruct Hs as (_&_&Hfs). by rewrite <- Hfs, <- Hw2.
Qed.

Lemma tier_read_inv p s s' r : tier_read p s = (s', r) →
  same_storage (rd_world s) (rd_world s') ∧ ∀ res, r = Ok res → tier_post (rd_world s) (rd_cache s) (clock (rd_ticks s + 2)%nat) p res.
Proof.
  unfold Readers.tier_read. unfold pbind at 1, tick at 1. unfold pbind at 1.
  set (s0 := Readers _ _ _ _ _ _). replace (rd_ticks s + 2)%nat with (rd_ticks s0 + 1)%nat by (cbn; lia).
  change (rd_world s) with (rd_world s0). change (rd_cache s) with (rd_cache s0). clearbody s0.
  destruct (cache_get p s0) as [s1 o] eqn:Hg. apply cache_get_inv in Hg as ((Hw&Hd&Hc&_)&el&->).
  destruct ((ReaderCache.get _ _ _ _ _).2) as [data|] eqn:Hhit.
  { intros [= <- <-]. rewrite Hw. split; [apply same_storage_refl|]. intros res [= <-]. by apply get_hit in Hhit. }
  unfold pbind at 1. destruct (dr_current_state _ _ s1) as [s2 o] eqn:Hq. apply dr_query_inv in Hq as (Hw2&_&->&_).
  destruct (bool_decide _ || bool_decide _).
  { intros (->&res&->&_&Hcase)%local_inv. rewrite Hw2, Hw in *. split; [apply same_storage_refl|]. intros res' [= <-]. unfold tier_post.
    destruct Hcase as [[-> ->]|(->&Hl&_)]; done. }
  destruct (extract_tier p) as [tier|] eqn:Ht.
  - intros [Hs Hpost]%read_nas_inv; [|done]. rewrite Hw2, Hw in *. split; [done|]. intros res Hres. by apply Hpost.
  - unfold pbind, dr_set_mode, tick. intros [= <- <-]. cbn [set_dr rd_world]. rewrite Hw2, Hw. split; [apply same_storage_refl|]. by intros res [= <-].
Qed.

(** A breaker that answers [OPEN] or [UNKNOWN_TIER] keeps the store unasked. *)
Lemma tier_read_shielded p s s' r :
  (dr_state (rd_dr s) = UNKNOWN_TIER ∨
   dr_state (rd_dr s) = OPEN ∧ ∀ t, dr_open_started_at (rd_dr s) = Some t → clock (rd_ticks s + 4)%nat - t < half_open_delay (rc_dr cfg)) →
  tier_read p s = (s', r) →
  rd_world s' = rd_world s ∧ rd_dr s' = rd_dr s ∧ ∃ res, r = Ok res ∧
    (tr_status res = hit_cache ∨ tr_status res = nas_unreachable ∨ tr_status res = local_fallback ∧ dr_state (rd_dr s) = OPEN).
Proof.
  intros Hst. unfold Readers.tier_read. unfold pbind at 1, tick at 1. unfold pbind at 1.
  unfold Readers.cache_get. unfold pbind at 1, tick at 1. unfold pbind at 1, tick at 1. unfold pbind at 1, tick at 1.
  cbn [rd_cache rd_dr rd_client rd_etag_cache rd_world rd_ticks]. destruct (ReaderCache.get _ _ _ _ _) as [c [data|]].
  { intros [= <- <-]. cbn. eauto 10. }
  unfold set_cache. cbn [rd_cache rd_dr rd_client rd_etag_cache rd_world rd_ticks]. unfold pbind at 1.
  unfold dr_current_state at 1. unfold pbind at 1, tick at 1. cbn [rd_cache rd_dr rd_client rd_etag_cache rd_world rd_ticks].
  replace (rd_ticks s + 1 + 1 + 1 + 1)%nat with (rd_ticks s + 4)%nat by lia.
  assert (current_state (rc_dr cfg) (clock (rd_ticks s + 4)%nat) (rd_dr s) = (rd_dr s, dr_state (rd_dr s))) as ->.
  { unfold current_state, try_half_open. destruct Hst as [Hu|[Ho Hdelay]]; [by rewrite decide_False by congruence|].
    rewrite decide_True, Ho by done. destruct (dr_open_started_at (rd_dr s)) as [t|]; [|by rewrite Ho]. specialize (Hdelay t eq_refl).
    rewrite (proj2 (Z.leb_gt _ _)) by lia. by rewrite Ho. }
  assert (bool_decide (dr_state (rd_dr s) = OPEN) || bool_decide (dr_state (rd_dr s) = UNKNOWN_TIER) = true) as ->.
  { destruct Hst as [->|[-> _]]; done. }
  intros (->&res&->&_&Hcase)%local_inv. cbn [set_dr rd_world rd_dr]. split; [done|]. split; [done|]. exists res. split; [done|].
  destruct Hcase as [[? _]|(?&_&Hne)]; [by right; left|]. right. right. split; [done|]. destruct Hst as [Hu|[Ho _]]; [congruence|done].
Qed.
End reader_lemmas.

(** ** Properties *)

(** C20.  What the facade returns.  No object, queue row or file changes,
    whatever fails.  [hit_cache] carries a value cached under the path whose age
    is within the limit when the cache is asked; [hit_nas] the body of the
    object the answer names, which is the one the path stands for: below L1 the
    object of the path's own name, with [node=DEFAULT] where the path names no
    node, in L1 one of the path's symbol, date and hour (no claim is made on its
    exchange, see [exchanges_share_a_key]); [local_fallback] the local file of
    a partition whose date is before the cutoff; the other answers carry no
    data, and no other status occurs. *)
Theorem tier_read_contract {S : Type} `{S3Laws S} cfg str_exc get_etag read_fault clock (p : string) (s s' : readers (S := S)) r :
  tier_read cfg str_exc get_etag read_fault clock p s = (s', r) →
  same_storage (rd_world s) (rd_world s') ∧
  ∀ res, r = Ok res → tier_post cfg (rd_world s) (rd_cache s) (clock (rd_ticks s + 2)%nat) p res.
Proof. apply tier_read_inv. Qed.

(** The open breaker spares the store.  While it is open and its delay
    has not passed, or after a path without a tier has put it into
    [UNKNOWN_TIER], a read returns without a call of the store and leaves the
    breaker as it is; it is answered from the cache, or from a local file, the
    latter not in [UNKNOWN_TIER], or not at all. *)
Theorem open_breaker_spares_store {S : Type} `{S3Laws S} cfg str_exc get_etag read_fault clock (p : string) (s s' : readers (S := S)) r :
  (dr_state (rd_dr s) = UNKNOWN_TIER ∨
   dr_state (rd_dr s) = OPEN ∧ ∀ t, dr_open_started_at (rd_dr s) = Some t → clock (rd_ticks s + 4)%nat - t < half_open_delay (rc_dr cfg)) →
  tier_read cfg str_exc get_etag read_fault clock p s = (s', r) →
  rd_world s' = rd_world s ∧ rd_dr s' = rd_dr s ∧ ∃ res, r = Ok res ∧
    (tr_status res = hit_cache ∨ tr_status res = nas_unreachable ∨ tr_status res = local_fallback ∧ dr_state (rd_dr s) = OPEN).
Proof. apply tier_read_shielded. Qed.

(** *** Examples *)

Definition example_readers_cfg : reader_config := ReaderConfig (CacheConfig 10 (seconds 300) None 1000) default_dr true (Some ["local"]) (21000 * 86400 * 1000000).
Definition l1_key : string := "tier=L1/exchange=DEFAULT/symbol=KRW-BTC/date=20251101/hour=03/KRW-BTC_20251101_03.parquet".
Definition path_of (exchange : string) : string := "tier=L1/exchange=" +:+ exchange +:+ "/symbol=KRW-BTC/date=2025-11-01/hour=3/part-0.parquet".
Definition example_readers (objs : gmap string object) (script : list (option fault)) : readers (S := mem_s3) :=
  Readers empty_cache initial_dr true [] (World (MemS3 objs script) None 0 (<["/local/" +:+ path_of "upbit" := "old"]> ∅) []) 0.
Definition stored_l1 : gmap string object := <[l1_key := Object "rows" None]> ∅.
Definition missing_text (e : exn) : string := match e with ClientError code => code | _ => "" end.
(** Reads one after the other: their statuses, and the state *)
Definition read_each (s : readers (S := mem_s3)) (ps : list string) : readers (S := mem_s3) * list (res (read_status * bytes)) :=
  foldl (λ acc p, let '(s, r) := tier_read example_readers_cfg missing_text (λ b, b) None (λ n, Z.of_nat n * 1000) p acc.1 in
    (s, acc.2 ++ [rbind r (λ res, Ok (tr_status res, tr_data res))])) (s, []) ps.
Notation example_read p s := (tier_read example_readers_cfg missing_text (λ b : string, b) None (λ n, Z.of_nat n * 1000) p s).

Lemma tier_read_contract_witness :
  ∃ res, (example_read (path_of "upbit") (example_readers stored_l1 [])).2 = Ok res ∧ tr_status res = hit_nas ∧
    holds (rd_world (example_readers stored_l1 [])) l1_key (tr_data res) ∧ tr_data res = "rows" ∧
    ∃ x, tr_nas_object_key res = l1_object x "KRW-BTC" "20251101" 3.
Proof.
  destruct (example_read (path_of "upbit") (example_readers stored_l1 [])).2 as [res|e] eqn:Hr; [|vm_compute in Hr; discriminate Hr].
  destruct (tier_read_contract example_readers_cfg missing_text (λ b, b) None (λ n, Z.of_nat n * 1000) (path_of "upbit") (example_readers stored_l1 [])
    (example_read (path_of "upbit") (example_readers stored_l1 [])).1 (Ok res)) as [_ Hpost].
  { rewrite <- Hr. apply surjective_pairing. }
  specialize (Hpost res eq_refl). exists res. split; [reflexivity|]. vm_compute in Hr. injection Hr as <-.
  destruct Hpost as (Hh&tier&Ht&_&Hl1). vm_compute in Ht. injection Ht as <-.
  split; [reflexivity|]. split; [exact Hh|]. split; [reflexivity|].
  apply (Hl1 eq_refl "upbit" "KRW-BTC" "2025-11-01" "3" 3 "part-0.parquet"); try reflexivity; discriminate.
Defined.

Lemma open_breaker_spares_store_witness :
  let s := set_dr (set_mode OPEN 0 initial_dr) (example_readers stored_l1 []) in
  rd_world (example_read (path_of "upbit") s).1 = rd_world s ∧ (example_read (path_of "upbit") s).2 = Ok (MkTierReadResult local_fallback "old" (path_of "upbit") false true "").
Proof.
  intros s. split; [|vm_compute; reflexivity].
  destruct (open_breaker_spares_store example_readers_cfg missing_text (λ b, b) None (λ n, Z.of_nat n * 1000) (path_of "upbit") s
    (example_read (path_of "upbit") s).1 (example_read (path_of "upbit") s).2) as [Hw _].
  - right. split; [reflexivity|]. intros t [= <-]. vm_compute. reflexivity.
  - apply surjective_pairing.
  - exact Hw.
Defined.

(** The key of an L1 path names no exchange: two exchanges share one object,
    and where the first read cached it under that key, the reader's cache hit
    for the second counts as a failure of the store. *)
Lemma exchanges_share_a_key : object_key example_readers_cfg "L1" (path_of "upbit") = object_key example_readers_cfg "L1" (path_of "bithumb").
Proof. vm_compute. reflexivity. Qed.
Lemma inner_hit_counts_as_failure :
  let r := read_each (example_readers stored_l1 []) [path_of "upbit"; path_of "bithumb"] in
  r.2 = [Ok (hit_nas, "rows"); Ok (nas_unreachable, "")] ∧ dr_consecutive_failure (rd_dr r.1) = 1.
Proof. split; vm_compute; reflexivity. Qed.

(** Five reads of objects that do not exist open the breaker. *)
Lemma missing_objects_open_breaker :
  let r := read_each (example_readers ∅ []) (replicate 5 (path_of "upbit")) in
  r.2 = replicate 5 (Ok (not_found, "")) ∧ dr_state (rd_dr r.1) = OPEN.
Proof. split; vm_compute; reflexivity. Qed.

(** A path without a tier stops every later read until an operator acts. *)
Lemma unparsable_path_stops_reads :
  let r := read_each (example_readers stored_l1 []) ["exchange=upbit/x.parquet"; path_of "upbit"] in
  r.2 = [Ok (nas_unreachable, ""); Ok (nas_unreachable, "")] ∧ dr_state (rd_dr r.1) = UNKNOWN_TIER.
Proof. split; vm_compute; reflexivity. Qed.
