(* ===== verification/Reconciliation.v ===== *)
(** * Reconciliation ([reconciliation/hot_cold_consistency.py],
    [reconciliation/dual_write_harness.py])

    The hot/cold comparison with its drift SLO, and the daily sample of
    legacy against transaction-derived candles.  Bars and candles are
    third-party models: their fields are those the code reads, with the text
    of the symbol; aware times are microseconds since the epoch.  The
    providers and [random.Random(seed).sample] are arguments. *)
From S2P Require Import Prelude PyDict PyDecimal NasKey PyTime Aggregation.
From Stdlib Require Import Ascii.
Open Scope py_scope.
Open Scope string_scope.
Open Scope list_scope.
Open Scope Z_scope.

(** ** Two dicts side by side: what both harnesses share *)

Section keyed.
Context {K V : Type} `{EqDecision K} (eqv : V → V → bool).

(** [for key, v in a.items(): if key in b: ...] *)
Definition common_step (b : dict K V) (acc : list K * list (K * V * V)) (item : K * V)
  : list K * list (K * V * V) :=
  match dget b item.1 with
  | None => acc
  | Some v' => if eqv item.2 v' then (acc.1 ++ [item.1], acc.2)
               else (acc.1, acc.2 ++ [(item.1, item.2, v')])
  end.
Definition common (a b : dict K V) : list K * list (K * V * V) := foldl (common_step b) ([], []) a.

(** [tuple(k for k in a if k not in b)] *)
Definition only (a b : dict K V) : list K := filter (λ k, negb (dmem b k)) (dkeys a).

(** [for x in xs: m[key(x)] = x] *)
Definition index_by {A} (key : A → K) (val : A → V) (xs : list A) : dict K V :=
  foldl (λ m x, dset m (key x) (val x)) [] xs.

(** The specification: the last element of a key. *)
Definition latest {A} (key : A → K) (k : K) (xs : list A) : option A := last (filter (λ x, key x = k) xs).

Lemma index_by_snoc {A} (key : A → K) (val : A → V) xs x :
  index_by key val (xs ++ [x]) = dset (index_by key val xs) (key x) (val x).
Proof using Type. unfold index_by. by rewrite foldl_app. Qed.

Lemma index_by_wf {A} (key : A → K) (val : A → V) xs : dict_wf (index_by key val xs).
Proof using Type. induction xs using rev_ind; [apply dict_wf_nil|]. rewrite index_by_snoc. by apply dict_wf_dset. Qed.

Lemma dget_index_by {A} (key : A → K) (val : A → V) xs k :
  dget (index_by key val xs) k = val <$> latest key k xs.
Proof using Type.
  unfold latest. induction xs as [|x xs IH] using rev_ind; [done|].
  rewrite index_by_snoc, filter_app. destruct (decide (key x = k)) as [<-|Hne].
  - rewrite dget_dset_eq. rewrite (filter_cons_True _ x []) by done. by rewrite filter_nil, last_snoc.
  - rewrite dget_dset_ne by done. rewrite (filter_cons_False _ x []) by done. by rewrite filter_nil, app_nil_r.
Qed.

Lemma index_by_length {A} (key : A → K) (val : A → V) xs : (length (index_by key val xs) ≤ length xs)%nat.
Proof using Type.
  induction xs as [|x xs IH] using rev_ind; [done|]. rewrite index_by_snoc, length_app. simpl.
  destruct (decide (key x ∈ dkeys (index_by key val xs))).
  - rewrite length_dset_mem by done. lia.
  - rewrite length_dset_new by done. lia.
Qed.

Lemma index_by_keys {A} (key : A → K) (val : A → V) xs k :
  k ∈ dkeys (index_by key val xs) ↔ k ∈ key <$> xs.
Proof using Type.
  induction xs as [|x xs IH] using rev_ind; [done|].
  rewrite index_by_snoc, dkeys_dset_elem, IH, fmap_app, elem_of_app. simpl. rewrite list_elem_of_singleton. tauto.
Qed.

Lemma common_snoc a x b : common (a ++ [x]) b = common_step b (common a b) x.
Proof. unfold common. by rewrite foldl_app. Qed.

Lemma only_snoc a x b :
  only (a ++ [x]) b = only a b ++ (if dmem b x.1 then [] else [x.1]).
Proof using Type.
  unfold only, dkeys. rewrite fmap_app, filter_app. f_equal. simpl. destruct (dmem b x.1) eqn:E.
  - rewrite filter_cons_False by (rewrite E; simpl; tauto). done.
  - rewrite filter_cons_True by (by rewrite E). done.
Qed.

(** Every key is matched, different or missing. *)
Lemma common_partition a b :
  (length (common a b).1 + length (common a b).2 + length (only a b) = length a)%nat.
Proof.
  induction a as [|x a IH] using rev_ind; [done|].
  rewrite common_snoc, only_snoc, !length_app. unfold common_step, dmem.
  destruct (dget b x.1); [destruct (eqv _ _)|]; cbn [fst snd length]; rewrite ?length_app; cbn [length]; lia.
Qed.

Lemma common_matched_elem a b k :
  k ∈ (common a b).1 ↔ ∃ v v', (k, v) ∈ a ∧ dget b k = Some v' ∧ eqv v v' = true.
Proof.
  induction a as [|[k' w] a IH] using rev_ind; [split; [by intros ?%elem_of_nil|intros (?&?&?%elem_of_nil&_); done]|].
  rewrite common_snoc. unfold common_step. simpl.
  setoid_rewrite elem_of_app. setoid_rewrite list_elem_of_singleton.
  destruct (dget b k') as [v'|] eqn:Hb; [destruct (eqv w v') eqn:He|]; simpl; rewrite ?elem_of_app, ?list_elem_of_singleton, IH.
  all: split; [naive_solver|].
  all: intros (v&v0&[?|Hx]&Hg&?); [eauto 6|injection Hx as -> ->; rewrite Hb in Hg; first [discriminate|injection Hg as <-; first [congruence|eauto]]].
Qed.

Lemma common_mismatch_elem a b k v v' :
  (k, v, v') ∈ (common a b).2 ↔ (k, v) ∈ a ∧ dget b k = Some v' ∧ eqv v v' = false.
Proof.
  induction a as [|[k' w] a IH] using rev_ind; [split; [by intros ?%elem_of_nil|intros (?%elem_of_nil&_); done]|].
  rewrite common_snoc. unfold common_step. simpl.
  rewrite elem_of_app, list_elem_of_singleton.
  destruct (dget b k') as [w'|] eqn:Hb; [destruct (eqv w w') eqn:He|]; simpl; rewrite ?elem_of_app, ?list_elem_of_singleton, IH.
  all: split; [naive_solver|].
  all: intros ([?|Hx]&Hg&?); [eauto|injection Hx as -> ->; rewrite Hb in Hg; first [discriminate|injection Hg as <-; first [congruence|eauto]]].
Qed.

Lemma only_elem a b k : k ∈ only a b ↔ k ∈ dkeys a ∧ dget b k = None.
Proof using Type.
  clear eqv. unfold only, dmem. rewrite list_elem_of_filter. destruct (dget b k); simpl; naive_solver.
Qed.

(** The specification of agreement. *)
Definition agree (o o' : option V) : Prop :=
  match o, o' with
  | Some v, Some v' => eqv v v' = true
  | None, None => True
  | _, _ => False
  end.

Lemma clean_iff a b :
  dict_wf a → dict_wf b →
  (length (only a b) + length (only b a) + length (common a b).2 = 0)%nat ↔ ∀ k, agree (dget a k) (dget b k).
Proof.
  intros Ha Hb. split.
  - intros Hlen k.
    assert (only a b = [] ∧ only b a = [] ∧ (common a b).2 = []) as (H1&H2&H3).
    { split; [|split]; apply nil_length_inv; lia. }
    destruct (dget a k) as [v|] eqn:Hva, (dget b k) as [v'|] eqn:Hvb; simpl.
    + apply not_false_is_true. intros He.
      assert ((k, v, v') ∈ (common a b).2) as Hin by (apply common_mismatch_elem; eauto using dget_Some_elem).
      rewrite H3 in Hin. by apply elem_of_nil in Hin.
    + assert (k ∈ only a b) as Hin by (apply only_elem; rewrite <- dget_is_Some; eauto).
      rewrite H1 in Hin. by apply elem_of_nil in Hin.
    + assert (k ∈ only b a) as Hin by (apply only_elem; rewrite <- dget_is_Some; eauto).
      rewrite H2 in Hin. by apply elem_of_nil in Hin.
    + done.
  - intros Hag.
    assert (only a b = [] ∧ only b a = [] ∧ (common a b).2 = []) as (->&->&->); [|done].
    split; [|split]; apply elem_of_nil_inv.
    + intros k [Hk Hn]%only_elem. apply dget_is_Some in Hk as [v Hv]. specialize (Hag k). by rewrite Hv, Hn in Hag.
    + intros k [Hk Hn]%only_elem. apply dget_is_Some in Hk as [v Hv]. specialize (Hag k). by rewrite Hv, Hn in Hag.
    + intros [[k v] v'] (Hin&Hv'&He)%common_mismatch_elem. apply elem_dget in Hin; [|done].
      specialize (Hag k). rewrite Hin, Hv' in Hag. simpl in Hag. congruence.
Qed.

End keyed.

(** ** Hot against cold ([HotColdConsistencyHarness]) *)

(** What the harness reads of an [InformationBarModel]. *)
Record bar := Bar {
  br_bar_label : string; br_genesis_ts : Z; br_ts_close : Z; br_exchange : string; br_symbol : string;
  br_open : decimal; br_high : decimal; br_low : decimal; br_close : decimal;
  br_volume : decimal; br_value : option decimal }.

(** [_BarKey], [_OHLCV] *)
Record BarKey := MkBarKey {
  bk_bar_label : string; bk_genesis_ts : string; bk_ts_close : string; bk_exchange : string; bk_symbol : string }.
Record OHLCV := MkOHLCV {
  o_open : decimal; o_high : decimal; o_low : decimal; o_close : decimal;
  o_volume : decimal; o_value : option decimal }.

#[export] Instance BarKey_eq_dec : EqDecision BarKey.
Proof. solve_decision. Defined.

Definition key_of (b : bar) : BarKey :=
  MkBarKey (br_bar_label b) (iso_time (br_genesis_ts b)) (iso_time (br_ts_close b)) (br_exchange b) (br_symbol b).
Definition ohlcv_of (b : bar) : OHLCV :=
  MkOHLCV (br_open b) (br_high b) (br_low b) (br_close b) (br_volume b) (br_value b).

(** [hot_ohlcv == cold_map[key]]: decimals compare as numbers. *)
Definition option_deqb (a b : option decimal) : bool :=
  match a, b with Some x, Some y => deqb x y | None, None => true | _, _ => false end.
Definition ohlcv_eqb (a b : OHLCV) : bool :=
  deqb (o_open a) (o_open b) && deqb (o_high a) (o_high b) && deqb (o_low a) (o_low b) &&
  deqb (o_close a) (o_close b) && deqb (o_volume a) (o_volume b) && option_deqb (o_value a) (o_value b).

Record HotColdReport := MkHotColdReport {
  hot_count : Z; cold_count : Z; matched_count : Z;
  ohlcv_mismatches : list (BarKey * OHLCV * OHLCV);
  hot_only_keys : list BarKey; cold_only_keys : list BarKey; threshold : decimal }.

(** [Decimal("0.0001")] *)
Definition DRIFT_SLO_THRESHOLD : decimal := Dec 1 (-4).

Definition mismatch_count (r : HotColdReport) : Z :=
  Z.of_nat (length (hot_only_keys r)) + Z.of_nat (length (cold_only_keys r)) + Z.of_nat (length (ohlcv_mismatches r)).
Definition drift (r : HotColdReport) : decimal :=
  let denom := Z.max (hot_count r) (cold_count r) in
  if denom =? 0 then dint 0 else ddiv (dint (mismatch_count r)) (dint denom).
Definition is_within_slo (r : HotColdReport) : bool := dltb (drift r) (threshold r).

(** [ConsistencyDriftError] is a [RuntimeError]. *)
Definition assert_within_slo (r : HotColdReport) : res unit :=
  if dleb (threshold r) (drift r) then Raise RuntimeError else Ok tt.

(** [HotColdConsistencyHarness.__init__]: the threshold it keeps *)
Definition new_harness (thr : decimal) : res decimal := if dleb thr (dint 0) then Raise ValueError else Ok thr.

Definition compare (thr : decimal) (hot_bars cold_bars : list bar) : HotColdReport :=
  let hot_map := index_by key_of ohlcv_of hot_bars in
  let cold_map := index_by key_of ohlcv_of cold_bars in
  let '(matched, mismatches) := common ohlcv_eqb hot_map cold_map in
  MkHotColdReport (Z.of_nat (length hot_bars)) (Z.of_nat (length cold_bars)) (Z.of_nat (length matched))
    mismatches (only hot_map cold_map) (only cold_map hot_map) thr.

(** [HotColdReport.summary()] *)
Record hot_cold_summary := HotColdSummary {
  hs_hot_count : Z; hs_cold_count : Z; hs_matched_count : Z; hs_mismatch_count : Z; hs_hot_only_count : Z;
  hs_cold_only_count : Z; hs_ohlcv_mismatch_count : Z; hs_drift : string; hs_threshold : string; hs_is_within_slo : bool }.
Definition hot_cold_report_summary (r : HotColdReport) : hot_cold_summary :=
  HotColdSummary (hot_count r) (cold_count r) (matched_count r) (mismatch_count r)
    (Z.of_nat (length (hot_only_keys r))) (Z.of_nat (length (cold_only_keys r)))
    (Z.of_nat (length (ohlcv_mismatches r))) (dstr (drift r)) (dstr (threshold r)) (is_within_slo r).

(** ** The daily sample ([DualWriteHarness]) *)

(** What the harness reads of a [CandleModel]. *)
Record candle_model := CandleModel {
  cm_ts_utc : Z; cm_open : decimal; cm_high : decimal; cm_low : decimal; cm_close : decimal;
  cm_volume : decimal; cm_value : option decimal }.

Record SymbolContract := MkSymbolContract { sc_symbol : string; sc_timeframe : string; sc_exchange : option string }.

Record SymbolWindowDiff := MkSymbolWindowDiff {
  wd_symbol : string; wd_timeframe : string; wd_day : Z; wd_legacy_count : Z; wd_derived_count : Z;
  wd_matched_count : Z; wd_legacy_only_ts : list string; wd_derived_only_ts : list string;
  wd_ohlcv_mismatches : list (string * string) }.

Definition wd_mismatch_count (d : SymbolWindowDiff) : Z :=
  Z.of_nat (length (wd_legacy_only_ts d)) + Z.of_nat (length (wd_derived_only_ts d)) +
  Z.of_nat (length (wd_ohlcv_mismatches d)).
Definition count_mismatch_pct (d : SymbolWindowDiff) : decimal :=
  let denom := Z.max (wd_legacy_count d) (wd_derived_count d) in
  if denom =? 0 then dint 0
  else ddiv (dint (Z.abs (wd_legacy_count d - wd_derived_count d))) (dint denom).

(** [_ohlcv_diff_summary]: the parts, joined by ["; "] *)
Definition diff_part (name : string) (a b : decimal) : list string :=
  if deqb a b then [] else [name +:+ ": " +:+ dstr a +:+ " vs " +:+ dstr b].
Definition value_part (a b : option decimal) : list string :=
  match a, b with Some x, Some y => diff_part "value" x y | _, _ => [] end.
Definition diff_parts (legacy derived : candle_model) : list string :=
  diff_part "open" (cm_open legacy) (cm_open derived) ++ diff_part "high" (cm_high legacy) (cm_high derived) ++
  diff_part "low" (cm_low legacy) (cm_low derived) ++ diff_part "close" (cm_close legacy) (cm_close derived) ++
  diff_part "volume" (cm_volume legacy) (cm_volume derived) ++ value_part (cm_value legacy) (cm_value derived).
Definition ohlcv_diff_summary (legacy derived : candle_model) : string :=
  match diff_parts legacy derived with [] => "<identical>" | parts => String.concat "; " parts end.

Definition candle_ohlcv_equal (a b : candle_model) : bool :=
  if negb (deqb (cm_open a) (cm_open b)) then false
  else if negb (deqb (cm_high a) (cm_high b)) then false
  else if negb (deqb (cm_low a) (cm_low b)) then false
  else if negb (deqb (cm_close a) (cm_close b)) then false
  else if negb (deqb (cm_volume a) (cm_volume b)) then false
  else match cm_value a, cm_value b with Some x, Some y => deqb x y | _, _ => true end.

(** [_diff_window]; the key [_OHLCVKey] is the text of the time. *)
Definition candle_key (c : candle_model) : string := iso_time (cm_ts_utc c).
Definition diff_window (entry : SymbolContract) (day : Z) (legacy derived : list candle_model) : SymbolWindowDiff :=
  let legacy_by_ts := index_by candle_key id legacy in
  let derived_by_ts := index_by candle_key id derived in
  let '(matched, mismatches) := common candle_ohlcv_equal legacy_by_ts derived_by_ts in
  MkSymbolWindowDiff (sc_symbol entry) (sc_timeframe entry) day
    (Z.of_nat (length legacy_by_ts)) (Z.of_nat (length derived_by_ts)) (Z.of_nat (length matched))
    (only legacy_by_ts derived_by_ts) (only derived_by_ts legacy_by_ts)
    ((λ m, (m.1.1, ohlcv_diff_summary m.1.2 m.2)) <$> mismatches).

Record DualWriteReport := MkDualWriteReport {
  dw_day : Z; dw_sample_size : Z; dw_universe_size : Z; dw_sample_fraction_used : decimal;
  dw_diffs : list SymbolWindowDiff; dw_random_seed : Z; dw_edge_case_attached : list string }.

Definition zsum {A} (f : A → Z) (l : list A) : Z := foldr (λ x acc, f x + acc) 0 l.
Definition total_legacy_bars (r : DualWriteReport) : Z := zsum wd_legacy_count (dw_diffs r).
Definition total_derived_bars (r : DualWriteReport) : Z := zsum wd_derived_count (dw_diffs r).
Definition total_mismatches (r : DualWriteReport) : Z := zsum wd_mismatch_count (dw_diffs r).
Definition aggregate_count_mismatch_pct (r : DualWriteReport) : decimal :=
  let denom := Z.max (total_legacy_bars r) (total_derived_bars r) in
  if denom =? 0 then dint 0 else ddiv (dint (total_mismatches r)) (dint denom).

Record harness := Harness { h_sample_fraction : decimal; h_min_sample : Z; h_max_sample : Z; h_random_seed : Z }.

Definition new_dual_write_harness (fraction : decimal) (min_sample max_sample seed : Z) : res harness :=
  if dleb fraction (dint 0) || dltb (dint 1) fraction then Raise ValueError
  else if min_sample <=? 0 then Raise ValueError
  else if max_sample <? min_sample then Raise ValueError
  else Ok (Harness fraction min_sample max_sample seed).

(** The size of the sample of a non-empty universe *)
Definition target_size (h : harness) (universe_size : Z) : Z :=
  let target := dtrunc (dmul (dint universe_size) (h_sample_fraction h)) in
  let target := if target <? h_min_sample h then h_min_sample h else target in
  let target := if h_max_sample h <? target then h_max_sample h else target in
  if universe_size <? target then universe_size else target.

Section run.
(** The two providers, and [random.Random(seed).sample(population, k)] *)
Context (legacy : string → string → Z → Z → res (list candle_model))
        (derived : string → string → Z → Z → option string → res (list candle_model))
        (sample : Z → list SymbolContract → Z → list SymbolContract).

Definition microseconds_per_day : Z := 86400 * 1000000.

(** [_iter_diffs], read to its end *)
Fixpoint iter_diffs (entries : list SymbolContract) (day start end_ : Z) : res (list SymbolWindowDiff) :=
  match entries with
  | [] => Ok []
  | entry :: rest =>
      let? l := legacy (sc_symbol entry) (sc_timeframe entry) start end_ in
      let? d := derived (sc_symbol entry) (sc_timeframe entry) start end_ (sc_exchange entry) in
      let? ds := iter_diffs rest day start end_ in
      Ok (diff_window entry day l d :: ds)
  end.

(** [run]; [day] is the day number of the date. *)
Definition run (h : harness) (universe : list SymbolContract) (day : Z) (edge_cases : list string)
  : res DualWriteReport :=
  match universe with
  | [] => Ok (MkDualWriteReport day 0 0 (h_sample_fraction h) [] (h_random_seed h) edge_cases)
  | _ =>
      let n := Z.of_nat (length universe) in
      let entries := sample (h_random_seed h) universe (target_size h n) in
      let start := day * microseconds_per_day in
      let? diffs := iter_diffs entries day start (start + microseconds_per_day) in
      Ok (MkDualWriteReport day (Z.of_nat (length entries)) n (h_sample_fraction h) diffs (h_random_seed h) edge_cases)
  end.
End run.

(** ** The comparison *)

Section keyed_counts.
Context {K V : Type} `{EqDecision K} (eqv : V → V → bool).

Lemma dkeys_snoc (a : dict K V) x : dkeys (a ++ [x]) = dkeys a ++ [x.1].
Proof using Type. unfold dkeys. by rewrite fmap_app. Qed.

Lemma common_count (a b : dict K V) :
  (length (common eqv a b).1 + length (common eqv a b).2 = length (filter (λ k, k ∈ dkeys b) (dkeys a)))%nat.
Proof.
  induction a as [|[k v] a IH] using rev_ind; [done|].
  rewrite common_snoc, dkeys_snoc, filter_app, length_app. cbn [fst].
  unfold common_step. simpl. destruct (dget b k) as [v'|] eqn:Hb.
  - rewrite filter_cons_True by (apply dget_is_Some; eauto).
    destruct (eqv v v'); simpl; rewrite length_app; simpl; lia.
  - rewrite filter_cons_False by (by apply dget_None). simpl; lia.
Qed.

(** The common keys are counted alike from both sides. *)
Lemma common_count_sym (a b : dict K V) :
  dict_wf a → dict_wf b →
  (length (common eqv a b).1 + length (common eqv a b).2 = length (filter (λ k, k ∈ dkeys a) (dkeys b)))%nat.
Proof.
  intros Ha Hb. rewrite common_count. apply Permutation_length, NoDup_Permutation; [by apply NoDup_filter..|].
  intros k. rewrite !list_elem_of_filter. tauto.
Qed.

Lemma only_count (a b : dict K V) :
  (length (only b a) + length (filter (λ k, k ∈ dkeys a) (dkeys b)) = length b)%nat.
Proof using Type.
  induction b as [|[k v] b IH] using rev_ind; [done|].
  rewrite only_snoc, dkeys_snoc, filter_app, !length_app. cbn [fst]. unfold dmem.
  destruct (dget a k) as [v'|] eqn:Ha.
  - rewrite filter_cons_True by (apply dget_is_Some; eauto). simpl. lia.
  - rewrite filter_cons_False by (by apply dget_None). simpl. lia.
Qed.

Lemma common_partition_sym (a b : dict K V) :
  dict_wf a → dict_wf b →
  (length (common eqv a b).1 + length (common eqv a b).2 + length (only b a) = length b)%nat.
Proof. intros Ha Hb. rewrite common_count_sym by done. pose proof (only_count a b). lia. Qed.

End keyed_counts.

Lemma compare_unfold thr hot cold :
  let hm := index_by key_of ohlcv_of hot in
  let cm := index_by key_of ohlcv_of cold in
  compare thr hot cold =
  MkHotColdReport (Z.of_nat (length hot)) (Z.of_nat (length cold)) (Z.of_nat (length (common ohlcv_eqb hm cm).1))
    (common ohlcv_eqb hm cm).2 (only hm cm) (only cm hm) thr.
Proof. unfold compare. by destruct (common _ _ _). Qed.

Lemma mismatch_count_le thr hot cold :
  0 <= mismatch_count (compare thr hot cold) <= Z.of_nat (length hot) + Z.of_nat (length cold).
Proof.
  rewrite compare_unfold. unfold mismatch_count. simpl.
  set (hm := index_by key_of ohlcv_of hot). set (cm := index_by key_of ohlcv_of cold).
  pose proof (index_by_length key_of ohlcv_of hot). pose proof (index_by_length key_of ohlcv_of cold).
  pose proof (common_partition ohlcv_eqb hm cm). pose proof (only_count hm cm). unfold hm, cm in *. lia.
Qed.

(** Two bars of the streams agree: one key, equal numbers. *)
Definition same_bar (b b' : bar) : Prop := key_of b = key_of b' ∧ ohlcv_eqb (ohlcv_of b) (ohlcv_of b') = true.

(** In a stream without repeated keys every bar is the last of its key. *)
Lemma dget_index_bars bars b : NoDup (key_of <$> bars) → b ∈ bars → dget (index_by key_of ohlcv_of bars) (key_of b) = Some (ohlcv_of b).
Proof.
  intros Hnd Hin. rewrite dget_index_by. unfold latest.
  assert (filter (λ x, key_of x = key_of b) bars = [b]) as ->; [|done].
  induction bars as [|x bars IH]; [by apply elem_of_nil in Hin|].
  rewrite fmap_cons in Hnd. apply NoDup_cons in Hnd as [Hx Hnd]. apply elem_of_cons in Hin as [->|Hin].
  - rewrite filter_cons_True by done. f_equal. apply elem_of_nil_inv. intros y [Hy Hyin]%list_elem_of_filter.
    apply Hx. rewrite <- Hy. by apply list_elem_of_fmap_2.
  - rewrite filter_cons_False; [by apply IH|]. intros He. apply Hx. rewrite He. by apply list_elem_of_fmap_2.
Qed.

Lemma index_bars_NoDup bars : NoDup (key_of <$> bars) → length (index_by key_of ohlcv_of bars) = length bars.
Proof.
  intros Hnd. induction bars as [|x bars IH] using rev_ind; [done|]. rewrite index_by_snoc, length_app. simpl.
  rewrite fmap_app in Hnd. apply NoDup_app in Hnd as (Hb&Hx&_). rewrite length_dset_new, IH by
    (done || (rewrite index_by_keys; intros Hin; apply (Hx _ Hin); by left)). lia.
Qed.

(** Two lists with the same elements in one strict order are equal. *)
Lemma ordered_same_elements {A} (R : A → A → Prop) (xs ys : list A) :
  (∀ x y, R x y → ¬ R y x) → StronglySorted R xs → StronglySorted R ys → (∀ x, x ∈ xs ↔ x ∈ ys) → xs = ys.
Proof.
  intros Hasym. revert ys. induction xs as [|x xs IH]; intros ys Hxs Hys Hel.
  - symmetry. apply elem_of_nil_inv. intros y Hy. apply Hel in Hy. by apply elem_of_nil in Hy.
  - apply StronglySorted_inv in Hxs as [Hxs Hx]. rewrite Forall_forall in Hx.
    destruct ys as [|y ys]; [exfalso; apply (elem_of_nil x), Hel; by left|].
    apply StronglySorted_inv in Hys as [Hys Hy]. rewrite Forall_forall in Hy.
    assert (x = y) as <-.
    { assert (x ∈ y :: ys) as [?|Hxin]%elem_of_cons by (apply Hel; by left); [done|].
      assert (y ∈ x :: xs) as [?|Hyin]%elem_of_cons by (apply Hel; by left); [done|].
      exfalso. by apply (Hasym x y); [apply Hx|apply Hy]. }
    f_equal. apply IH; [done..|]. intros z. split; intros Hz.
    + assert (z ∈ x :: ys) as [->|?]%elem_of_cons by (apply Hel; by right); [|done].
      exfalso. apply (Hasym x x); by apply Hx.
    + assert (z ∈ x :: xs) as [->|?]%elem_of_cons by (apply Hel; by right); [|done].
      exfalso. apply (Hasym x x); by apply Hy.
Qed.

Lemma ordered_NoDup {A} (R : A → A → Prop) (xs : list A) : (∀ x y, R x y → ¬ R y x) → StronglySorted R xs → NoDup xs.
Proof.
  intros Hasym. induction xs as [|x xs IH]; [constructor|]. intros [Hs Hx]%StronglySorted_inv. rewrite Forall_forall in Hx.
  constructor; [|by apply IH]. intros Hin%Hx. by apply (Hasym x x).
Qed.

(** Where an entry of the index comes from *)
Lemma dget_index_bar bars k v : dget (index_by key_of ohlcv_of bars) k = Some v → ∃ b, b ∈ bars ∧ key_of b = k ∧ v = ohlcv_of b.
Proof.
  rewrite dget_index_by. unfold latest. intros (b&Hb&->)%fmap_Some.
  apply last_Some_elem_of, list_elem_of_filter in Hb as [??]. eauto.
Qed.

Lemma only_bars (a b : list bar) k :
  k ∈ only (index_by key_of ohlcv_of a) (index_by key_of ohlcv_of b) ↔ ∃ x, x ∈ a ∧ key_of x = k ∧ ∀ y, y ∈ b → key_of y ≠ k.
Proof.
  rewrite only_elem, index_by_keys, dget_None, index_by_keys, list_elem_of_fmap. split.
  - intros [(x&->&Hx) Hn]. exists x. split; [done|]. split; [done|]. intros y Hy He. apply Hn. rewrite <- He. by apply list_elem_of_fmap_2.
  - intros (x&Hx&<-&Hn). split; [eauto|]. intros (y&He&Hy)%list_elem_of_fmap. by apply (Hn y).
Qed.

Lemma agree_same_bars (R : BarKey → BarKey → Prop) hot cold :
  (∀ k k', R k k' → ¬ R k' k) → StronglySorted R (key_of <$> hot) → StronglySorted R (key_of <$> cold) →
  (∀ k, agree ohlcv_eqb (dget (index_by key_of ohlcv_of hot) k) (dget (index_by key_of ohlcv_of cold) k)) ↔ Forall2 same_bar hot cold.
Proof.
  intros Hasym Hsh Hsc.
  pose proof (ordered_NoDup _ _ Hasym Hsh) as Hnh. pose proof (ordered_NoDup _ _ Hasym Hsc) as Hnc. split.
  - intros Hag. assert (key_of <$> hot = key_of <$> cold) as Hk.
    { apply (ordered_same_elements R); [done..|]. intros k. rewrite <- !(index_by_keys key_of ohlcv_of), <- !dget_is_Some.
      specialize (Hag k). destruct (dget _ k), (dget _ k); simpl in Hag; try done; split; by intros [? [=]]. }
    apply Forall2_same_length_lookup. split.
    { by rewrite <- (length_fmap key_of hot), Hk, length_fmap. }
    intros i b b' Hb Hb'. assert (key_of b = key_of b') as He.
    { apply (f_equal (.!! i)) in Hk. rewrite !list_lookup_fmap, Hb, Hb' in Hk. by apply (inj Some). }
    split; [done|]. specialize (Hag (key_of b)).
    rewrite (dget_index_bars hot b Hnh) in Hag by (by eapply list_elem_of_lookup_2).
    rewrite He, (dget_index_bars cold b' Hnc) in Hag by (by eapply list_elem_of_lookup_2). done.
  - intros Hf k. destruct (dget (index_by key_of ohlcv_of hot) k) as [v|] eqn:Hv; [|destruct (dget (index_by key_of ohlcv_of cold) k) as [v'|] eqn:Hv'; [|done]].
    + apply dget_index_bar in Hv as (b&Hb&<-&->). apply list_elem_of_lookup in Hb as [i Hi].
      destruct (Forall2_lookup_l _ _ _ _ _ Hf Hi) as (b'&Hi'&Hk&He). rewrite Hk, (dget_index_bars cold b' Hnc) by (by eapply list_elem_of_lookup_2). done.
    + apply dget_index_bar in Hv' as (b'&Hb'&<-&->). apply list_elem_of_lookup in Hb' as [i Hi].
      destruct (Forall2_lookup_r _ _ _ _ _ Hf Hi) as (b&Hi'&Hk&He). rewrite <- Hk, (dget_index_bars hot b Hnh) in Hv by (by eapply list_elem_of_lookup_2). done.
Qed.

(** C38.  Streams that emit one bar a key in one order, as the two paths are
    meant to, are compared exactly: the report shows no mismatch if and only if
    the two sequences are the same, bar for bar, with equal numbers (decimals
    compare as numbers, so trailing zeros are not seen).  Otherwise every
    difference is listed: the one-sided keys are those of the bars the other
    stream lacks, each listed pair is a bar of either stream under one key with
    different numbers, and the matched, different and one-sided bars add up to
    the length of each stream. *)
Theorem hot_cold_comparison_spec (emitted_before : BarKey → BarKey → Prop) (thr : decimal) (hot cold : list bar) :
  (∀ k k', emitted_before k k' → ¬ emitted_before k' k) →
  StronglySorted emitted_before (key_of <$> hot) → StronglySorted emitted_before (key_of <$> cold) →
  let r := compare thr hot cold in
  let mismatches := Z.of_nat (length (ohlcv_mismatches r)) in
  (mismatch_count r = 0 ↔ Forall2 same_bar hot cold) ∧
  (∀ k, k ∈ hot_only_keys r ↔ ∃ b, b ∈ hot ∧ key_of b = k ∧ ∀ b', b' ∈ cold → key_of b' ≠ k) ∧
  (∀ k, k ∈ cold_only_keys r ↔ ∃ b, b ∈ cold ∧ key_of b = k ∧ ∀ b', b' ∈ hot → key_of b' ≠ k) ∧
  (∀ k v v', (k, v, v') ∈ ohlcv_mismatches r ↔
     ∃ b b', b ∈ hot ∧ b' ∈ cold ∧ key_of b = k ∧ key_of b' = k ∧
       v = ohlcv_of b ∧ v' = ohlcv_of b' ∧ ohlcv_eqb v v' = false) ∧
  matched_count r + mismatches + Z.of_nat (length (hot_only_keys r)) = Z.of_nat (length hot) ∧
  matched_count r + mismatches + Z.of_nat (length (cold_only_keys r)) = Z.of_nat (length cold).
Proof.
  intros Hasym Hsh Hsc.
  pose proof (ordered_NoDup _ _ Hasym Hsh) as Hnh. pose proof (ordered_NoDup _ _ Hasym Hsc) as Hnc.
  pose proof (index_by_wf key_of ohlcv_of hot) as Hh. pose proof (index_by_wf key_of ohlcv_of cold) as Hc.
  rewrite compare_unfold. unfold mismatch_count. cbn -[index_by common only].
  pose proof (index_bars_NoDup hot Hnh). pose proof (index_bars_NoDup cold Hnc).
  pose proof (common_partition ohlcv_eqb (index_by key_of ohlcv_of hot) (index_by key_of ohlcv_of cold)).
  pose proof (common_partition_sym ohlcv_eqb _ _ Hh Hc).
  split_and!; [|apply only_bars|apply only_bars| |lia|lia].
  - pose proof (clean_iff ohlcv_eqb _ _ Hh Hc) as Hclean.
    transitivity (∀ k, agree ohlcv_eqb (dget (index_by key_of ohlcv_of hot) k) (dget (index_by key_of ohlcv_of cold) k)); [rewrite <- Hclean; lia|].
    by apply (agree_same_bars emitted_before).
  - intros k v v'. rewrite common_mismatch_elem. split.
    + intros (Hv&Hv'&He). apply elem_dget in Hv; [|done]. apply dget_index_bar in Hv as (b&?&?&->). apply dget_index_bar in Hv' as (b'&?&?&->).
      exists b, b'. auto 10.
    + intros (b&b'&Hb&Hb'&<-&Hk&->&->&He). split; [apply dget_Some_elem; by apply dget_index_bars|].
      split; [rewrite <- Hk; by apply dget_index_bars|done].
Qed.

(** The gate is exact: although the drift is a quotient rounded to 28
    digits, [assert_within_slo] at the default threshold passes exactly when
    ten thousand times the mismatches stay below the longer stream, or
    nothing was compared; [is_within_slo] agrees with it. *)
Theorem slo_gate_exact (hot cold : list bar) :
  Z.of_nat (length hot) + Z.of_nat (length cold) < 10 ^ 20 →
  let r := compare DRIFT_SLO_THRESHOLD hot cold in
  let bars := Z.max (Z.of_nat (length hot)) (Z.of_nat (length cold)) in
  let within := (bars =? 0) || (mismatch_count r * 10 ^ 4 <? bars) in
  is_within_slo r = within ∧
  assert_within_slo r = if within then Ok tt else Raise RuntimeError.
Proof.
  intros Hlen. cbv zeta. pose proof (mismatch_count_le DRIFT_SLO_THRESHOLD hot cold) as Hm.
  set (r := compare DRIFT_SLO_THRESHOLD hot cold) in *.
  assert (hot_count r = Z.of_nat (length hot) ∧ cold_count r = Z.of_nat (length cold) ∧
    threshold r = DRIFT_SLO_THRESHOLD) as (Eh&Ec&Et) by (unfold r; rewrite compare_unfold; done).
  clearbody r.
  assert (is_within_slo r = ((Z.max (Z.of_nat (length hot)) (Z.of_nat (length cold)) =? 0) ||
    (mismatch_count r * 10 ^ 4 <? Z.max (Z.of_nat (length hot)) (Z.of_nat (length cold))))) as Hw.
  { unfold is_within_slo, drift. rewrite Eh, Ec, Et. clear -Hm Hlen.
    destruct (Z.eqb_spec (Z.max (Z.of_nat (length hot)) (Z.of_nat (length cold))) 0); [done|].
    apply (ddiv_lt_pow10 _ _ 4); lia. }
  split; [done|]. rewrite <- Hw. unfold assert_within_slo, is_within_slo. rewrite dltb_negb.
  by destruct (dleb _ _).
Qed.

Definition sample_bar (label : string) (close : Z) : bar :=
  Bar label 0 60000000 "bithumb" "KRW-BTC" (dint 1) (dint 9) (dint 1) (dint close) (dint 2) None.

(** A stream in the order of its labels, and one in which the second bar has
    other numbers *)
Lemma hot_cold_comparison_spec_witness :
  let before k k' := String.compare (bk_bar_label k) (bk_bar_label k') = Lt in
  let hot := [sample_bar "vol_1" 5; sample_bar "vol_2" 5; sample_bar "vol_3" 5] in
  let cold := [sample_bar "vol_1" 5; sample_bar "vol_2" 6] in
  StronglySorted before (key_of <$> hot) ∧ StronglySorted before (key_of <$> cold) ∧
  ¬ Forall2 same_bar hot cold ∧ key_of (sample_bar "vol_3" 5) ∈ hot_only_keys (compare DRIFT_SLO_THRESHOLD hot cold) ∧
  Forall2 same_bar hot hot.
Proof.
  intros before hot cold.
  assert (∀ k k', before k k' → ¬ before k' k) as Hasym by (unfold before; intros k k'; rewrite String.compare_antisym; by destruct (String.compare _ _)).
  assert (StronglySorted before (key_of <$> hot)) as Hh by (repeat constructor).
  assert (StronglySorted before (key_of <$> cold)) as Hc by (repeat constructor).
  split; [exact Hh|]. split; [exact Hc|].
  destruct (hot_cold_comparison_spec before DRIFT_SLO_THRESHOLD hot cold Hasym Hh Hc) as (H1&H2&_).
  destruct (hot_cold_comparison_spec before DRIFT_SLO_THRESHOLD hot hot Hasym Hh Hh) as (H3&_).
  split; [rewrite <- H1; vm_compute; discriminate|]. split; [|apply H3; vm_compute; reflexivity].
  apply H2. exists (sample_bar "vol_3" 5). split; [by right; right; left|]. split; [done|].
  intros b' [->|[->|[]%elem_of_nil]%elem_of_cons]%elem_of_cons; vm_compute; discriminate.
Defined.

Lemma slo_gate_exact_witness :
  let hot := [sample_bar "vol_1" 5; sample_bar "vol_2" 5] in
  let cold := [sample_bar "vol_1" 5; sample_bar "vol_2" 6] in
  let r := compare DRIFT_SLO_THRESHOLD hot cold in
  mismatch_count r = 1 ∧ is_within_slo r = false ∧ assert_within_slo r = Raise RuntimeError.
Proof.
  split; [vm_compute; reflexivity|].
  destruct (slo_gate_exact [sample_bar "vol_1" 5; sample_bar "vol_2" 5] [sample_bar "vol_1" 5; sample_bar "vol_2" 6])
    as [Hw Ha]; [vm_compute; reflexivity|].
  split; [rewrite Hw; vm_compute; reflexivity|rewrite Ha; vm_compute; reflexivity].
Defined.

(** Bars are counted with their repetitions but compared by key: a stream that
    emits one bar ten thousand times over passes the gate although one of its
    two keys is missing on the other side. *)
Example repeated_bars_hide_drift :
  let hot := sample_bar "vol_2" 5 :: replicate 10001 (sample_bar "vol_1" 5) in
  let cold := [sample_bar "vol_1" 5] in
  let r := compare DRIFT_SLO_THRESHOLD hot cold in
  mismatch_count r = 1 ∧ assert_within_slo r = Ok tt.
Proof. vm_compute. auto. Qed.

(** Only the last bar of a key is compared: a wrong bar emitted earlier under
    the same key is not seen. *)
Example earlier_bar_is_not_compared :
  let r := compare DRIFT_SLO_THRESHOLD [sample_bar "vol_1" 7; sample_bar "vol_1" 5] [sample_bar "vol_1" 5] in
  mismatch_count r = 0 ∧ assert_within_slo r = Ok tt.
Proof. vm_compute. auto. Qed.

(** ** The daily sample *)

Lemma diff_part_nil name a b : diff_part name a b = [] ↔ deqb a b = true.
Proof. unfold diff_part. destruct (deqb a b); split; done. Qed.

Lemma diff_parts_nil l d : diff_parts l d = [] ↔ candle_ohlcv_equal l d = true.
Proof.
  unfold diff_parts, candle_ohlcv_equal, value_part.
  rewrite !app_nil, !diff_part_nil.
  destruct (deqb (cm_open l) (cm_open d)), (deqb (cm_high l) (cm_high d)), (deqb (cm_low l) (cm_low d)),
    (deqb (cm_close l) (cm_close d)), (deqb (cm_volume l) (cm_volume d)); simpl; try (split; [by intros (?&?&?&?&?&?)|done]).
  destruct (cm_value l), (cm_value d); rewrite ?diff_part_nil; naive_solver.
Qed.

Lemma diff_parts_head l d p : p ∈ diff_parts l d →
  ∃ t c, p = String c t ∧ c ≠ "<"%char.
Proof.
  assert (∀ name a b, p ∈ diff_part name a b → p = name +:+ ": " +:+ dstr a +:+ " vs " +:+ dstr b) as Hpart.
  { intros name a b. unfold diff_part. destruct (deqb a b); [by intros ?%elem_of_nil|]. by intros ->%list_elem_of_singleton. }
  unfold diff_parts. rewrite !elem_of_app. intros [H|[H|[H|[H|[H|H]]]]].
  1-5: apply Hpart in H as ->; eexists _, _; split; [reflexivity|done].
  unfold value_part in H. destruct (cm_value l), (cm_value d); try by apply elem_of_nil in H.
  apply Hpart in H as ->; eexists _, _; split; [reflexivity|done].
Qed.

(** The summary of two candles is ["<identical>"] exactly when the harness
    counts them as equal. *)
Theorem summary_identical_iff (l d : candle_model) :
  ohlcv_diff_summary l d = "<identical>" ↔ candle_ohlcv_equal l d = true.
Proof.
  rewrite <- diff_parts_nil. unfold ohlcv_diff_summary.
  destruct (diff_parts l d) as [|p ps] eqn:E; [done|]. split; [|done].
  destruct (diff_parts_head l d p) as (t&c&->&Hc); [rewrite E; by left|].
  destruct ps; cbn [String.concat String.append]; intros [= ? _]; done.
Qed.

Lemma zsum_zero {A} (f : A → Z) l : (∀ x, 0 <= f x) → zsum f l = 0 ↔ Forall (λ x, f x = 0) l.
Proof.
  intros Hf. assert (∀ l, 0 <= zsum f l) as Hs.
  { intros l'. induction l'; simpl; [lia|]. pose proof (Hf a). lia. }
  induction l as [|x l IH]; simpl; [split; [constructor|done]|].
  rewrite Forall_cons, <- IH. pose proof (Hf x). pose proof (Hs l). lia.
Qed.

(** The candles of one sampled pair agree at every time. *)
Definition windows_agree (legacy derived : list candle_model) : Prop :=
  ∀ ts, agree candle_ohlcv_equal (latest candle_key ts legacy) (latest candle_key ts derived).

Lemma diff_window_clean entry day l d :
  wd_mismatch_count (diff_window entry day l d) = 0 ↔ windows_agree l d.
Proof.
  unfold diff_window, windows_agree.
  destruct (common _ _ _) as [m mm] eqn:E. unfold wd_mismatch_count. cbn -[only].
  rewrite length_fmap.
  pose proof (clean_iff candle_ohlcv_equal (index_by candle_key id l) (index_by candle_key id d)
    (index_by_wf _ _ _) (index_by_wf _ _ _)) as Hc. rewrite E in Hc. cbn [snd] in Hc.
  assert (∀ xs ts, dget (index_by candle_key id xs) ts = latest candle_key ts xs) as Hg.
  { intros xs ts. rewrite dget_index_by. by destruct (latest _ _ _). }
  setoid_rewrite Hg in Hc. rewrite <- Hc. lia.
Qed.

Lemma target_size_bounds h n :
  0 < h_min_sample h <= h_max_sample h → 0 < n →
  1 <= target_size h n <= Z.min n (h_max_sample h) ∧ Z.min n (h_min_sample h) <= target_size h n.
Proof. intros Hh Hn. unfold target_size. py_bool; repeat case_match; lia. Qed.

Lemma new_harness_bounds f lo hi seed h :
  new_dual_write_harness f lo hi seed = Ok h → 0 < h_min_sample h <= h_max_sample h.
Proof.
  unfold new_dual_write_harness. intros H. repeat case_match; simplify_eq. simpl. lia.
Qed.

Section run_spec.
Context (legacy : string → string → Z → Z → res (list candle_model))
        (derived : string → string → Z → Z → option string → res (list candle_model))
        (sample : Z → list SymbolContract → Z → list SymbolContract).

(** [random.Random(seed).sample(population, k)]: [k] elements at distinct
    positions of the population. *)
Definition sample_law : Prop := ∀ seed l k, 0 <= k <= Z.of_nat (length l) →
  Z.of_nat (length (sample seed l k)) = k ∧ sample seed l k ⊆+ l.

(** What the diff of one entry is made of *)
Definition entry_diff (day : Z) (entry : SymbolContract) (d : SymbolWindowDiff) : Prop :=
  let start := day * microseconds_per_day in
  ∃ ls ds, legacy (sc_symbol entry) (sc_timeframe entry) start (start + microseconds_per_day) = Ok ls ∧
    derived (sc_symbol entry) (sc_timeframe entry) start (start + microseconds_per_day) (sc_exchange entry) = Ok ds ∧
    d = diff_window entry day ls ds.

Lemma iter_diffs_spec entries day ds :
  iter_diffs legacy derived entries day (day * microseconds_per_day)
    (day * microseconds_per_day + microseconds_per_day) = Ok ds ↔
  Forall2 (entry_diff day) entries ds.
Proof.
  revert ds. induction entries as [|e entries IH]; intros ds; simpl.
  { split; [intros [= <-]; constructor|by intros ->%Forall2_nil_inv_l]. }
  unfold rbind. split.
  - destruct (legacy _ _ _ _) as [ls|] eqn:El; [|done]. destruct (derived _ _ _ _ _) as [dd|] eqn:Ed; [|done].
    destruct (iter_diffs _ _ _ _ _ _) as [ds'|] eqn:Ei; [|done]. intros [= <-].
    constructor; [exists ls, dd; done|]. by apply IH.
  - intros (d&ds'&(ls&dd&El&Ed&->)&Hf&->)%Forall2_cons_inv_l. rewrite El, Ed.
    apply IH in Hf. by rewrite Hf.
Qed.

End run_spec.

(** Where the providers answer, a run over a non-empty universe returns
    a report on a sample of it: the sample has at most [max_sample] entries
    and at least [min_sample] where the universe has them, there is one diff
    per entry made of what both providers answer for that day, and no
    mismatch is reported exactly when the last candles of both sides agree at
    every time in every sampled pair. *)
Theorem dual_write_run_spec legacy derived sample f lo hi seed h universe day edges :
  sample_law sample →
  new_dual_write_harness f lo hi seed = Ok h →
  universe ≠ [] →
  (∀ e, e ∈ universe → ∃ d, entry_diff legacy derived day e d) →
  ∃ r, run legacy derived sample h universe day edges = Ok r ∧
    let n := Z.of_nat (length universe) in
    let entries := sample (h_random_seed h) universe (target_size h n) in
    entries ⊆+ universe ∧
    dw_sample_size r = Z.of_nat (length entries) ∧ length (dw_diffs r) = length entries ∧
    Z.min n (h_min_sample h) <= dw_sample_size r <= Z.min n (h_max_sample h) ∧
    Forall2 (entry_diff legacy derived day) entries (dw_diffs r) ∧
    (total_mismatches r = 0 ↔
       Forall (λ e, ∀ ls ds,
         legacy (sc_symbol e) (sc_timeframe e) (day * microseconds_per_day)
           (day * microseconds_per_day + microseconds_per_day) = Ok ls →
         derived (sc_symbol e) (sc_timeframe e) (day * microseconds_per_day)
           (day * microseconds_per_day + microseconds_per_day) (sc_exchange e) = Ok ds →
         windows_agree ls ds) entries).
Proof.
  intros Hlaw Hh Hne Hprov. apply new_harness_bounds in Hh.
  set (n := Z.of_nat (length universe)). assert (0 < n) as Hn by (destruct universe; [done|unfold n; simpl; lia]).
  destruct (target_size_bounds h n Hh Hn) as [Hb Hb'].
  destruct (Hlaw (h_random_seed h) universe (target_size h n) ltac:(unfold n in *; lia)) as [Hlen Hsub].
  set (entries := sample _ _ _) in *.
  assert (∃ ds, Forall2 (entry_diff legacy derived day) entries ds) as [ds Hds].
  { assert (∀ e, e ∈ entries → e ∈ universe) as Hin by (intros e He; by eapply elem_of_submseteq).
    clearbody entries. clear -Hprov Hin. induction entries as [|e es IH]; [by exists []|].
    destruct (Hprov e) as [d Hd]; [apply Hin; by left|]. destruct IH as [ds Hds]; [intros; apply Hin; by right|].
    exists (d :: ds). by constructor. }
  pose proof (Forall2_length _ _ _ Hds) as Hl.
  exists (MkDualWriteReport day (Z.of_nat (length entries)) n (h_sample_fraction h) ds (h_random_seed h) edges).
  split. { unfold run. destruct universe; [done|]. fold n. fold entries.
    rewrite (proj2 (iter_diffs_spec legacy derived entries day ds) Hds). done. }
  cbn [dw_sample_size dw_diffs]. split; [done|]. split; [done|]. split; [done|]. split; [lia|]. split; [done|].
  unfold total_mismatches. rewrite zsum_zero by (intros; unfold wd_mismatch_count; lia).
  cbn [dw_diffs total_mismatches]. fold n. fold entries. clearbody entries. clear -Hds. induction Hds as [|e d es ds (ls&dd&El&Ed&->) Hds IH]; [split; constructor|].
  rewrite !Forall_cons, IH, diff_window_clean. split; intros [Ha ?]; split; try done.
  - intros ls' dd'. rewrite El, Ed. by intros [= <-] [= <-].
  - by apply Ha.
Qed.

Definition example_universe : list SymbolContract :=
  (λ s, MkSymbolContract s "1m" (Some "bithumb")) <$> ["KRW-BTC"; "KRW-ETH"; "KRW-XRP"].
Definition example_candle (close : Z) : candle_model :=
  CandleModel 60000000 (dint 1) (dint 9) (dint 1) (dint close) (dint 2) None.
Definition example_legacy (symbol timeframe : string) (start end_ : Z) : res (list candle_model) := Ok [example_candle 5].
Definition example_derived (symbol timeframe : string) (start end_ : Z) (exchange : option string)
  : res (list candle_model) := Ok [example_candle (if String.eqb symbol "KRW-BTC" then 5 else 6)].
Definition first_elements (seed : Z) (l : list SymbolContract) (k : Z) : list SymbolContract := take (Z.to_nat k) l.

Lemma first_elements_law : sample_law first_elements.
Proof.
  intros seed l k Hk. unfold first_elements. rewrite length_take. split; [lia|].
  apply sublist_submseteq, sublist_take.
Qed.

Definition example_harness : harness := Harness (Dec 5 (-1)) 2 500 7.

Lemma dual_write_run_spec_witness :
  ∃ r, run example_legacy example_derived first_elements example_harness example_universe 20000 [] = Ok r ∧
    dw_sample_size r = 2 ∧ total_mismatches r = 1.
Proof.
  destruct (dual_write_run_spec example_legacy example_derived first_elements (Dec 5 (-1)) 2 500 7 example_harness
    example_universe 20000 []) as (r&Hr&_&Hs&_).
  - exact first_elements_law.
  - vm_compute. reflexivity.
  - discriminate.
  - intros e _. eexists. exists [example_candle 5]. eexists. split; [reflexivity|]. split; reflexivity.
  - exists r. split; [exact Hr|]. split; [rewrite Hs; vm_compute; reflexivity|].
    vm_compute in Hr. injection Hr as <-. vm_compute. reflexivity.
Defined.

(** The aggregate share divides all mismatches, not the difference of the
    counts, by the longer side: with disjoint times it is two. *)
Example aggregate_share_exceeds_one :
  let late := CandleModel 120000000 (dint 1) (dint 9) (dint 1) (dint 5) (dint 2) None in
  let d := diff_window (MkSymbolContract "KRW-BTC" "1m" None) 20000 [example_candle 5] [late] in
  count_mismatch_pct d = dint 0 ∧
  aggregate_count_mismatch_pct (MkDualWriteReport 20000 1 1 (Dec 2 (-2)) [d] 7 []) = dint 2.
Proof. vm_compute. auto. Qed.
