(* ===== verification/BatchWriters.v ===== *)
(** * Buffered Parquet writers ([metadata_storage.py], [tick_storage.py],
    [orderbook_storage.py], [orderbook_snapshot_storage.py])

    Four writer classes share one shape: a buffer, a flush that starts a new
    file when the date of the first buffered record changes, and a close.  The
    generic operations are those of [TickWriter]; each class then adds its
    partition, its date and its own ways to append.  A path is its list of
    parts; files are bytes, an open [ParquetWriter] is the rows written so
    far, and closing it writes the footer that makes the file readable.  The
    Arrow conversion refuses a record that does not fit the schema ([fits]).
    Locks, warnings, log lines and the file's key-value metadata are not
    modelled. *)
From S2P Require Import Prelude NasKey PyDecimal Wal PyTime Parquet PyDict.
From S2P Require Dedup PyFloat.
From stdpp Require Import pretty.
Open Scope py_scope.
Open Scope string_scope.
Open Scope list_scope.
Open Scope Z_scope.

Notation path := (list string).

(** The constructor's arguments the writers keep *)
Record writer_config := WriterConfig {
  wc_root : path; wc_exchange : string; wc_symbol : string; wc_snapshot_id : string; wc_batch_size : Z;
  wc_node_id : option string; wc_collector_run_id : option string }.

(** What the classes differ in: the day of a record, the partition directory
    of a day, the name of the Arrow schema, and whether a record fits it. *)
Record writer_class (R : Type) := WriterClass {
  day_of : R → Z; partition_of : writer_config → Z → path; schema : string; fits : R → bool }.
Arguments WriterClass {R}. Arguments day_of {R}. Arguments partition_of {R}.
Arguments schema {R}. Arguments fits {R}.

Record writer (R : Type) := Writer {
  batch_seq : Z; buffer : list R; current_date : option string;
  (** [_current_writer]: the rows it has been given *)
  current_writer : option (list R); current_path : option path; closed : bool }.
Arguments Writer {R}. Arguments batch_seq {R}. Arguments buffer {R}. Arguments current_date {R}.
Arguments current_writer {R}. Arguments current_path {R}. Arguments closed {R}.

Definition new_writer {R} : writer R := Writer 0 [] None None None false.

Notation disk := (gmap path bytes).

Definition ArrowInvalid : exn := OtherException "ArrowInvalid".

Section writer.
Context {R : Type} `{Parquet R} (open_bytes : list R → bytes) (cls : writer_class R) (cfg : writer_config).

(** [self._current_writer.close()]: the footer *)
Definition close_writer (w : writer R) (d : disk) : disk :=
  match current_writer w, current_path w with
  | Some rows, Some p => <[p := pq_write (schema cls) rows]> d
  | _, _ => d
  end.

(** The file name of the next file, and the next batch number *)
Definition next_file (w : writer R) : string * Z :=
  match wc_node_id cfg, wc_collector_run_id cfg with
  | Some _, Some run => (run +:+ "-" +:+ pretty (batch_seq w) +:+ ".parquet", batch_seq w + 1)
  | _, _ => ("part-" +:+ wc_snapshot_id cfg +:+ ".parquet", batch_seq w)
  end.

(** The new file of a changed date *)
Definition rotate (first : R) (w : writer R) (d : disk) : writer R * disk :=
  let d := close_writer w d in
  let '(file_name, seq) := next_file w in
  let target := partition_of cls cfg (day_of cls first) ++ [file_name] in
  (Writer seq (buffer w) (Some (isoformat (day_of cls first))) (Some []) (Some target) (closed w),
   <[target := open_bytes []]> d).

(** [_records_to_arrow] and [write_table] *)
Definition write_buffer (w : writer R) (d : disk) : (writer R * disk) * res unit :=
  if forallb (fits cls) (buffer w)
  then match current_writer w, current_path w with
       | Some rows, Some p =>
           let rows := rows ++ buffer w in
           ((Writer (batch_seq w) [] (current_date w) (Some rows) (current_path w) (closed w),
             <[p := open_bytes rows]> d), Ok tt)
       | _, _ => ((w, d), Raise AssertionError)
       end
  else ((w, d), Raise ArrowInvalid).

(** [_flush_locked] *)
Definition flush_locked : proc (writer R * disk) unit := λ s,
  let '(w, d) := s in
  match buffer w with
  | [] => (s, Ok tt)
  | first :: _ =>
      let date_str := isoformat (day_of cls first) in
      let '(w, d) := if decide (current_date w = Some date_str) then (w, d) else rotate first w d in
      write_buffer w d
  end.

Definition set_buffer (b : list R) (w : writer R) : writer R :=
  Writer (batch_seq w) b (current_date w) (current_writer w) (current_path w) (closed w).

(** [if len(self._buffer) >= self._batch_size: self._flush_locked()] *)
Definition flush_if_full (batch_size : Z) : proc (writer R * disk) unit := λ s,
  if batch_size <=? Z.of_nat (length (buffer s.1)) then flush_locked s else (s, Ok tt).

(** Buffer some records, then flush a full buffer *)
Definition push (batch_size : Z) (records : list R) : proc (writer R * disk) unit := λ s,
  if closed s.1 then (s, Raise RuntimeError)
  else flush_if_full batch_size (set_buffer (buffer s.1 ++ records) s.1, s.2).

(** [append], [append_many], [flush], [close] *)
Definition append (record : R) : proc (writer R * disk) unit := push (wc_batch_size cfg) [record].
Definition append_many (records : list R) : proc (writer R * disk) unit := push (wc_batch_size cfg) records.
Definition flush : proc (writer R * disk) unit := flush_locked.
Definition finish : proc (writer R * disk) unit := λ s,
  let '(w, d) := s in
  ((Writer (batch_seq w) (buffer w) (current_date w) None (current_path w) true, close_writer w d), Ok tt).
Definition close : proc (writer R * disk) unit := λ s,
  if closed s.1 then (s, Ok tt) else (flush_locked ;! finish) s.

End writer.

(** ** The four classes *)

Definition microseconds_per_day : Z := 86400 * 1000000.
Definition utc_day (ts : Z) : Z := ts / microseconds_per_day.

Definition node_level (cfg : writer_config) : path :=
  match wc_node_id cfg with Some n => ["node=" +:+ n] | None => [] end.

(** [TickRecord] and [OrderbookEventRecord] of the third-party package *)
Record TickRecord := MkTickRecord {
  tr_ts_utc : Z; tr_received_at : Z; tr_exchange : string; tr_symbol : string; tr_price : decimal;
  tr_quantity : decimal; tr_side : string; tr_raw_json : option string }.
Record OrderbookEventRecord := MkOrderbookEventRecord {
  oe_ts_utc : Z; oe_received_at : Z; oe_exchange : string; oe_symbol : string; oe_event_type : string;
  oe_side : string; oe_level : Z; oe_price : decimal; oe_quantity : decimal; oe_raw_json : option string }.

Record OrderbookSnapshotRecord := MkOrderbookSnapshotRecord {
  os_ts_utc : Z; os_received_at : Z; os_exchange : string; os_symbol : string; os_baseline_seq : Z;
  os_side : string; os_level : Z; os_price : decimal; os_quantity : decimal; os_payload_hash : string;
  os_raw_json : option string }.

Record ExchangeMetadataRecord := MkExchangeMetadataRecord {
  em_exchange : string; em_symbol : string; em_fetched_date : Z; em_fetched_at : Z;
  em_source_snapshot_id : string; em_data_hash : string; em_asset_status : string;
  em_acc_trade_value_24h : decimal; em_tick_size : option decimal; em_min_order_qty : option decimal;
  em_fee_maker : option decimal; em_fee_taker : option decimal; em_min_order_notional_krw : option decimal }.

Definition TICK_SCHEMA_VERSION : string := "tick.v1".
Definition ORDERBOOK_SCHEMA_VERSION : string := "orderbook.v1".
Definition ORDERBOOK_SNAPSHOT_SCHEMA_VERSION : string := "orderbook_snapshot.v1".
Definition EXCHANGE_METADATA_SCHEMA_VERSION : string := "exchange_metadata.v1".

(** [_derive_partition] *)
Definition tick_partition (cfg : writer_config) (day : Z) : path :=
  wc_root cfg ++ ["market"; "ticks"; "schema_version=" +:+ TICK_SCHEMA_VERSION; "exchange=" +:+ wc_exchange cfg;
                  "symbol=" +:+ wc_symbol cfg; "date=" +:+ isoformat day] ++ node_level cfg.
Definition orderbook_partition (cfg : writer_config) (day : Z) : path :=
  wc_root cfg ++ ["market"; "orderbook"; "schema_version=" +:+ ORDERBOOK_SCHEMA_VERSION; "exchange=" +:+ wc_exchange cfg;
                  "symbol=" +:+ wc_symbol cfg; "date=" +:+ isoformat day] ++ node_level cfg.
Definition snapshot_partition (cfg : writer_config) (day : Z) : path :=
  wc_root cfg ++ ["market"; "orderbook_snapshot"; "schema_version=" +:+ ORDERBOOK_SNAPSHOT_SCHEMA_VERSION;
                  "exchange=" +:+ wc_exchange cfg; "symbol=" +:+ wc_symbol cfg; "date=" +:+ isoformat day] ++ node_level cfg.
Definition metadata_root (root : path) (exchange : string) : path :=
  root ++ ["market"; "exchange_metadata"; "schema_version=" +:+ EXCHANGE_METADATA_SCHEMA_VERSION; "exchange=" +:+ exchange].
Definition metadata_partition (cfg : writer_config) (day : Z) : path :=
  metadata_root (wc_root cfg) (wc_exchange cfg) ++ ["fetched_date=" +:+ isoformat day] ++ node_level cfg.

Definition tick_class (fits : TickRecord → bool) : writer_class TickRecord :=
  WriterClass (λ r, utc_day (tr_ts_utc r)) tick_partition "tick" fits.
Definition orderbook_class (fits : OrderbookEventRecord → bool) : writer_class OrderbookEventRecord :=
  WriterClass (λ r, utc_day (oe_ts_utc r)) orderbook_partition "orderbook" fits.
Definition snapshot_class (fits : OrderbookSnapshotRecord → bool) : writer_class OrderbookSnapshotRecord :=
  WriterClass (λ r, utc_day (os_ts_utc r)) snapshot_partition "orderbook_snapshot" fits.
Definition metadata_class (fits : ExchangeMetadataRecord → bool) : writer_class ExchangeMetadataRecord :=
  WriterClass em_fetched_date metadata_partition "exchange_metadata" fits.

(** The methods of the three other classes are those of [TickWriter]. *)
Section methods.
Context (cfg : writer_config).

Definition orderbook_flush_locked `{Parquet OrderbookEventRecord} open_bytes fits :=
  flush_locked open_bytes (orderbook_class fits) cfg.
Definition orderbook_append `{Parquet OrderbookEventRecord} open_bytes fits := append open_bytes (orderbook_class fits) cfg.
Definition orderbook_append_many `{Parquet OrderbookEventRecord} open_bytes fits :=
  append_many open_bytes (orderbook_class fits) cfg.
Definition orderbook_close `{Parquet OrderbookEventRecord} open_bytes fits := close open_bytes (orderbook_class fits) cfg.

Definition snapshot_flush_locked `{Parquet OrderbookSnapshotRecord} open_bytes fits :=
  flush_locked open_bytes (snapshot_class fits) cfg.
Definition snapshot_append_many `{Parquet OrderbookSnapshotRecord} open_bytes fits :=
  append_many open_bytes (snapshot_class fits) cfg.
Definition snapshot_close `{Parquet OrderbookSnapshotRecord} open_bytes fits := close open_bytes (snapshot_class fits) cfg.

Definition metadata_flush_locked `{Parquet ExchangeMetadataRecord} open_bytes fits :=
  flush_locked open_bytes (metadata_class fits) cfg.
End methods.

(** *** Order-book snapshots: one event a second *)

(** A best level: price and quantity *)
Notation level := (decimal * decimal)%type.
(** [OrderbookSnapshotEvent] of the third-party package; [raw] as JSON text *)
Record snapshot_event := SnapshotEvent {
  se_event_time : Z; se_received_at : Z; se_exchange : string; se_symbol : string;
  se_bids : list level; se_asks : list level; se_raw : option string }.

(** [orderbook_storage.snapshot_event_to_records]: one record a level *)
Definition event_side (e : snapshot_event) (side : string) (levels : list level) : list OrderbookEventRecord :=
  imap (λ i l, MkOrderbookEventRecord (se_event_time e) (se_received_at e) (se_exchange e) (se_symbol e) "snapshot"
                 side (Z.of_nat i) l.1 l.2 (se_raw e)) levels.
Definition snapshot_event_to_records (e : snapshot_event) : list OrderbookEventRecord :=
  event_side e "bid" (se_bids e) ++ event_side e "ask" (se_asks e).

(** [OrderbookDeltaEvent]: the changes are side, price and quantity. *)
Record delta_event := DeltaEvent {
  de_event_time : Z; de_received_at : Z; de_exchange : string; de_symbol : string;
  de_changes : list (string * decimal * decimal); de_raw : option string }.
Definition delta_event_to_records (e : delta_event) : list OrderbookEventRecord :=
  (λ c, MkOrderbookEventRecord (de_event_time e) (de_received_at e) (de_exchange e) (de_symbol e) "delta"
          c.1.1 (-1) c.1.2 c.2 (de_raw e)) <$> de_changes e.

(** [TransactionEvent] and [tick_storage.transaction_event_to_record] *)
Record transaction_event := TransactionEvent {
  te_event_time : Z; te_received_at : Z; te_exchange : string; te_symbol : string; te_price : decimal;
  te_quantity : decimal; te_side : string; te_raw : option string }.
Definition transaction_event_to_record (e : transaction_event) : TickRecord :=
  MkTickRecord (te_event_time e) (te_received_at e) (te_exchange e) (te_symbol e) (te_price e) (te_quantity e)
    (te_side e) (te_raw e).

Section snapshot_records.
(** [hashlib.sha256] of the canonical JSON, cut to 16 characters *)
Context (payload_hash : string → string → Z → list level → list level → string).

(** The sequence number of an event, [int(event_time.timestamp() * 1_000_000)],
    goes through a double. *)
Definition side_records (e : snapshot_event) (hash side : string) (levels : list level) : list OrderbookSnapshotRecord :=
  imap (λ i l, MkOrderbookSnapshotRecord (se_event_time e) (se_received_at e) (se_exchange e) (se_symbol e)
                 (PyFloat.baseline_seq (se_event_time e)) side (Z.of_nat i) l.1 l.2 hash (se_raw e)) levels.
Definition snapshot_event_to_snapshot_records (e : snapshot_event) : list OrderbookSnapshotRecord :=
  let hash := payload_hash (se_exchange e) (se_symbol e) (PyFloat.baseline_seq (se_event_time e)) (se_bids e) (se_asks e) in
  side_records e hash "bid" (se_bids e) ++ side_records e hash "ask" (se_asks e).

Context `{Parquet OrderbookSnapshotRecord} (open_bytes : list OrderbookSnapshotRecord → bytes)
        (fits : OrderbookSnapshotRecord → bool) (cfg : writer_config).

(** The writer with [_last_write_ts]; the clock counts nanoseconds. *)
Record snapshot_writer := SnapshotWriter { sw_writer : writer OrderbookSnapshotRecord; sw_last_write_ts : option Z }.
Definition THROTTLE : Z := 1000000000.

Definition append_event (e : snapshot_event) (now : Z) : proc (snapshot_writer * disk) bool := λ s,
  let '(w, d) := s in
  if closed (sw_writer w) then (s, Raise RuntimeError)
  else if match sw_last_write_ts w with Some t => now - t <? THROTTLE | None => false end then (s, Ok false)
  else
    let records := snapshot_event_to_snapshot_records e in
    let '((w', d'), r) := push open_bytes (snapshot_class fits) cfg (wc_batch_size cfg) records (sw_writer w, d) in
    ((SnapshotWriter w' (Some now), d'), rbind r (λ _, Ok true)).

End snapshot_records.

(** *** Exchange metadata: deduplication before the buffer *)

Definition metadata_key : Type := string * string * string.
Inductive append_outcome := Written | Skipped | Quarantined.

(** An entry of [_quarantine]; its fixed ["type"] is left out. *)
Record quarantine_event := QuarantineEvent {
  qe_exchange : string; qe_symbol : string; qe_fetched_date : string; qe_source_snapshot_id : string;
  qe_existing_hash : string; qe_new_hash : string }.

Record metadata_writer := MetadataWriter {
  mw_writer : writer ExchangeMetadataRecord; mw_seen : gmap metadata_key string; mw_quarantine : list quarantine_event }.

Definition new_metadata_writer : metadata_writer := MetadataWriter new_writer ∅ [].

Definition key_of (r : ExchangeMetadataRecord) : metadata_key :=
  (em_symbol r, isoformat (em_fetched_date r), em_source_snapshot_id r).

Definition quarantine_of (existing : string) (r : ExchangeMetadataRecord) : quarantine_event :=
  QuarantineEvent (em_exchange r) (em_symbol r) (isoformat (em_fetched_date r)) (em_source_snapshot_id r)
    existing (em_data_hash r).

Section metadata.
Context `{Parquet ExchangeMetadataRecord} (open_bytes : list ExchangeMetadataRecord → bytes)
        (fits : ExchangeMetadataRecord → bool) (cfg : writer_config).

Definition FLUSH_AT : Z := 500.

(** [ExchangeMetadataWriter.append] *)
Definition metadata_append (r : ExchangeMetadataRecord) : proc (metadata_writer * disk) append_outcome := λ s,
  let '(m, d) := s in
  if closed (mw_writer m) then (s, Raise RuntimeError)
  else
    match mw_seen m !! key_of r with
    | Some existing =>
        if String.eqb existing (em_data_hash r) then (s, Ok Skipped)
        else ((MetadataWriter (mw_writer m) (mw_seen m) (mw_quarantine m ++ [quarantine_of existing r]), d), Ok Quarantined)
    | None =>
        let seen := <[key_of r := em_data_hash r]> (mw_seen m) in
        let '((w', d'), res) := push open_bytes (metadata_class fits) cfg FLUSH_AT [r] (mw_writer m, d) in
        ((MetadataWriter w' seen (mw_quarantine m), d'), rbind res (λ _, Ok Written))
    end.

Definition on_writer {A} (op : proc (writer ExchangeMetadataRecord * disk) A) : proc (metadata_writer * disk) A := λ s,
  let '((w, d), r) := op (mw_writer s.1, s.2) in ((MetadataWriter w (mw_seen s.1) (mw_quarantine s.1), d), r).
Definition metadata_flush : proc (metadata_writer * disk) unit := on_writer (flush open_bytes (metadata_class fits) cfg).
Definition metadata_close : proc (metadata_writer * disk) unit := on_writer (close open_bytes (metadata_class fits) cfg).

End metadata.

(** ** Reading metadata back ([storage.scan_exchange_metadata]) *)

Section scan.
Context `{Parquet ExchangeMetadataRecord}.

(** [meta_root.iterdir()], sorted: the names below a directory *)
Definition below (dir : path) (p : path) : option path :=
  if decide (take (length dir) p = dir) then Some (drop (length dir) p) else None.
Definition child_names (dir : path) (d : disk) : list string :=
  remove_dups (omap (λ p, match below dir p with Some (name :: _) => Some name | _ => None end) (map_to_list d).*1).
Definition sorted_names : list string → list string := sort_le String.leb.

(** The order of [Path]s: part by part *)
Fixpoint path_leb (p q : path) : bool :=
  match p, q with
  | [], _ => true
  | _ :: _, [] => false
  | a :: p, b :: q => if String.eqb a b then path_leb p q else String.leb a b
  end.

(** [sorted(date_dir.rglob("*.parquet"))] *)
Definition is_parquet (name : string) : bool :=
  let n := (String.length name - 8)%nat in
  (8 <=? String.length name)%nat && String.eqb (String.substring n 8 name) ".parquet".
Definition parquet_below (dir p : path) : bool :=
  match below dir p with
  | Some rest => match last rest with Some name => is_parquet name | None => false end
  | None => false
  end.
Definition parquet_files (dir : path) (d : disk) : list path :=
  sort_le path_leb (filter (λ p, parquet_below dir p) (map_to_list d).*1).

(** [dir_name.startswith("fetched_date=")] *)
Definition date_text (name : string) : option string :=
  if String.prefix "fetched_date=" name then Some (String.substring 13 (String.length name - 13) name) else None.

(** The rows of one directory; a file that cannot be read is skipped. *)
Definition dir_rows (dir : path) (d : disk) : list ExchangeMetadataRecord :=
  concat ((λ p, match d !! p with
                | Some b => match pq_rows b with Ok rows => rows | Raise _ => [] end
                | None => [] end) <$> parquet_files dir d).

(** One row of the scan *)
Definition consider (symbol : string) (ts_utc : Z) (best : option ExchangeMetadataRecord) (r : ExchangeMetadataRecord)
  : option ExchangeMetadataRecord :=
  if negb (String.eqb (em_symbol r) symbol) then best
  else if ts_utc <? em_fetched_at r then best
  else match best with
       | None => Some r
       | Some b => if em_fetched_at b <? em_fetched_at r then Some r else best
       end.

(** The loop over the date directories, with its [continue] and [break] *)
Fixpoint scan_dirs (meta_root : path) (d : disk) (symbol : string) (ts_utc : Z) (names : list string)
    (best : option ExchangeMetadataRecord) : option ExchangeMetadataRecord :=
  match names with
  | [] => best
  | name :: names =>
      match date_text name with
      | None => scan_dirs meta_root d symbol ts_utc names best
      | Some text =>
          match date_fromisoformat text with
          | Raise _ => scan_dirs meta_root d symbol ts_utc names best
          | Ok day =>
              if utc_day ts_utc <? day then best
              else scan_dirs meta_root d symbol ts_utc names
                     (foldl (consider symbol ts_utc) best (dir_rows (meta_root ++ [name]) d))
          end
      end
  end.

Definition scan_exchange_metadata (root : path) (exchange symbol : string) (ts_utc : Z) (d : disk)
  : option ExchangeMetadataRecord :=
  let meta_root := metadata_root root exchange in
  scan_dirs meta_root d symbol ts_utc (sorted_names (child_names meta_root d)) None.

End scan.

(** ** What a writer keeps of what it is given *)

Section conservation.
Context {R : Type} `{Parquet R} (open_bytes : list R → bytes) (cls : writer_class R) (cfg : writer_config).

(** A file of this writer: its day, its number and its rows *)
Record entry := Entry { e_day : Z; e_seq : Z; e_rows : list R }.

Definition numbered : Prop := ∃ n run, wc_node_id cfg = Some n ∧ wc_collector_run_id cfg = Some run.
Definition file_name_of (seq : Z) : string :=
  match wc_node_id cfg, wc_collector_run_id cfg with
  | Some _, Some run => run +:+ "-" +:+ pretty seq +:+ ".parquet"
  | _, _ => "part-" +:+ wc_snapshot_id cfg +:+ ".parquet"
  end.
Definition entry_path (e : entry) : path := partition_of cls cfg (e_day e) ++ [file_name_of (e_seq e)].

(** The partition directory tells the day. *)
Definition dated : Prop := ∀ day day', date_in_range day → date_in_range day' →
  partition_of cls cfg day = partition_of cls cfg day' → day = day'.

(** No file is started twice: either files are numbered, or the days of the
    records never decrease. *)
Definition no_reopening (hist : list R) : Prop :=
  numbered ∨ StronglySorted (λ r r', day_of cls r <= day_of cls r') hist.

Definition legal (hist : list R) : Prop :=
  Forall (λ r, fits cls r = true ∧ date_in_range (day_of cls r)) hist ∧ no_reopening hist.

Definition all_entries (files : list entry) (cur : option entry) : list entry := files ++ option_list cur.

Record kept (base : disk) (hist : list R) (files : list entry) (cur : option entry) (w : writer R) (d : disk) : Prop := {
  k_rows : concat (e_rows <$> all_entries files cur) ++ buffer w = hist;
  k_nodup : NoDup (entry_path <$> all_entries files cur);
  k_files e : e ∈ files → d !! entry_path e = Some (pq_write (schema cls) (e_rows e));
  k_cur : match cur with
          | Some e => current_writer w = Some (e_rows e) ∧ current_path w = Some (entry_path e) ∧
              current_date w = Some (isoformat (e_day e)) ∧ d !! entry_path e = Some (open_bytes (e_rows e)) ∧
              closed w = false
          | None => current_writer w = None ∧ (closed w = false → current_date w = None ∧ files = [])
          end;
  k_closed : closed w = true → buffer w = [];
  k_frame p : p ∉ entry_path <$> all_entries files cur → d !! p = base !! p;
  k_head e : e ∈ files → day_of cls <$> head (e_rows e) = Some (e_day e);
  k_head_cur e : cur = Some e → day_of cls <$> head (e_rows e ++ buffer w) = Some (e_day e);
  k_seq e : e ∈ all_entries files cur → numbered → e_seq e < batch_seq w;
  k_single day : Forall (λ r, day_of cls r = day) hist → (length (all_entries files cur) <= 1)%nat }.

Lemma next_file_name (w : writer R) :
  (next_file cfg w).1 = file_name_of (batch_seq w) ∧ batch_seq w <= (next_file cfg w).2 ∧
  (numbered → (next_file cfg w).2 = batch_seq w + 1).
Proof.
  unfold next_file, file_name_of, numbered.
  destruct (wc_node_id cfg), (wc_collector_run_id cfg); simpl; split; try done; split; try lia; naive_solver.
Qed.

Lemma file_name_inj seq seq' : numbered → file_name_of seq = file_name_of seq' → seq = seq'.
Proof.
  intros (n&run&Hn&Hr). unfold file_name_of. rewrite Hn, Hr. intros Heq.
  apply string_app_inj_l, string_app_inj_l, string_app_inj_r in Heq. by apply (inj pretty) in Heq.
Qed.

(** The first row of a file tells its day. *)
Lemma first_row base hist files cur w d first rest e :
  kept base hist files cur w d → buffer w = first :: rest →
  current_date w ≠ Some (isoformat (day_of cls first)) →
  e ∈ all_entries files cur → ∃ r, r ∈ e_rows e ∧ day_of cls r = e_day e.
Proof.
  intros Hk Hb Hdate He.
  assert (day_of cls <$> head (e_rows e) = Some (e_day e)) as Hh.
  { unfold all_entries in He. apply elem_of_app in He as [He|He]; [by apply (k_head _ _ _ _ _ _ Hk)|].
    destruct cur as [c|]; [|by apply elem_of_nil in He]. apply list_elem_of_singleton in He as ->.
    pose proof (k_head_cur _ _ _ _ _ _ Hk c eq_refl) as Hh. rewrite Hb in Hh.
    pose proof (k_cur _ _ _ _ _ _ Hk) as (_&_&Hcd&_). destruct (e_rows c) as [|r rows]; [|done].
    simpl in Hh. injection Hh as Hh. by rewrite Hh in Hdate. }
  destruct (e_rows e) as [|r rows]; [done|].
  simpl in Hh. injection Hh as <-. exists r. split; [by left|done].
Qed.

(** The path of a new file is none of the paths used so far. *)
Lemma new_path_fresh base hist files cur w d first rest :
  dated → legal hist → kept base hist files cur w d → buffer w = first :: rest →
  current_date w ≠ Some (isoformat (day_of cls first)) →
  partition_of cls cfg (day_of cls first) ++ [(next_file cfg w).1] ∉ entry_path <$> all_entries files cur.
Proof.
  intros Hdated [Hfits Hmode] Hk Hb Hdate. destruct (next_file_name w) as (->&_&_).
  intros (e&Hp&He)%list_elem_of_fmap. unfold entry_path in Hp. apply app_inj_2 in Hp as [Hpart Hname]; [|done].
  injection Hname as Hname. destruct Hmode as [Hnum|Hsorted].
  { pose proof (k_seq _ _ _ _ _ _ Hk e He Hnum). apply file_name_inj in Hname; [lia|done]. }
  assert (∀ r, r ∈ hist → date_in_range (day_of cls r)) as Hrange.
  { intros r Hr. rewrite Forall_forall in Hfits. by apply Hfits. }
  pose proof (k_rows _ _ _ _ _ _ Hk) as Hrows. rewrite Hb in Hrows.
  assert (∀ e, e ∈ all_entries files cur → ∃ r, r ∈ e_rows e ∧ day_of cls r = e_day e) as Hhead.
  { intros e' He'. destruct (first_row _ _ _ _ _ _ _ _ _ Hk Hb Hdate He') as (r&?&?). eauto. }
  assert (∀ e r, e ∈ all_entries files cur → r ∈ e_rows e → r ∈ hist) as Hin.
  { intros e' r He' Hr. rewrite <- Hrows. apply elem_of_app. left. apply list_elem_of_In, List.in_concat.
    exists (e_rows e'). split; apply list_elem_of_In; [by apply list_elem_of_fmap_2|done]. }
  assert (first ∈ hist) as Hfirst by (rewrite <- Hrows; apply elem_of_app; right; by left).
  destruct (Hhead e He) as (r&Hr&Hday).
  assert (day_of cls first = e_day e) as Hde.
  { apply Hdated; [by apply Hrange| |done]. rewrite <- Hday. apply Hrange. by eapply Hin. }
  pose proof (k_cur _ _ _ _ _ _ Hk) as Hcur. destruct cur as [c|].
  - destruct Hcur as (_&_&Hcd&_&_). unfold all_entries in *. simpl in *.
    destruct (Hhead c) as (rc&Hrc&Hdc); [apply elem_of_app; right; by left|].
    apply elem_of_app in He as [He|He%list_elem_of_singleton]; [|subst e; rewrite Hde in Hdate; done].
    rewrite fmap_app, concat_app, <- app_assoc in Hrows. rewrite <- Hrows in Hsorted. simpl in Hsorted.
    rewrite app_nil_r in Hsorted.
    assert (day_of cls r <= day_of cls rc).
    { eapply (StronglySorted_app_1_elem_of (λ a b, day_of cls a <= day_of cls b)); [exact Hsorted| |apply elem_of_app; by left].
      apply list_elem_of_In, List.in_concat. exists (e_rows e).
      split; apply list_elem_of_In; [by apply list_elem_of_fmap_2|done]. }
    assert (day_of cls rc <= day_of cls first).
    { apply StronglySorted_app_1_r in Hsorted. eapply (StronglySorted_app_1_elem_of (λ a b, day_of cls a <= day_of cls b)); [exact Hsorted|done|by left]. }
    apply Hdate. rewrite Hcd. do 2 f_equal. lia.
  - destruct Hcur as [Hw Hc]. destruct (closed w) eqn:Ec.
    + pose proof (k_closed _ _ _ _ _ _ Hk Ec). congruence.
    + destruct Hc as [_ ->]; [done|]. by apply elem_of_nil in He.
Qed.

(** Records of one day start one file. *)
Lemma rotate_first_only base hist files cur w d first rest :
  kept base hist files cur w d → buffer w = first :: rest → current_date w ≠ Some (isoformat (day_of cls first)) →
  ∀ day, Forall (λ r, day_of cls r = day) hist → all_entries files cur = [].
Proof.
  intros Hk Hb Hdate day Hday. rewrite Forall_forall in Hday. pose proof (k_rows _ _ _ _ _ _ Hk) as Hrows. rewrite Hb in Hrows.
  pose proof (k_cur _ _ _ _ _ _ Hk) as Hcur. destruct cur as [c|].
  - exfalso. destruct Hcur as (_&_&Hcd&_). apply Hdate. rewrite Hcd. do 2 f_equal.
    destruct (first_row _ _ _ _ _ _ _ _ c Hk Hb Hdate) as (r&Hr&<-); [apply elem_of_app; right; by left|].
    rewrite (Hday first), (Hday r); [done| |]; rewrite <- Hrows; apply elem_of_app; [left|right; by left].
    apply list_elem_of_In, List.in_concat. exists (e_rows c). split; apply list_elem_of_In; [|done].
    apply list_elem_of_fmap_2, elem_of_app. right. by left.
  - destruct Hcur as [_ Hc]. destruct (closed w) eqn:Ec.
    + pose proof (k_closed _ _ _ _ _ _ Hk Ec). congruence.
    + by destruct Hc as [_ ->].
Qed.

Lemma all_entries_snoc files c : all_entries files (Some c) = files ++ [c].
Proof. done. Qed.
Lemma all_entries_none files : all_entries files None = files.
Proof. apply app_nil_r. Qed.

(** A file of no rows has been started for the first record. *)
Lemma rotate_kept base hist files cur w d first rest :
  dated → legal hist → kept base hist files cur w d → buffer w = first :: rest →
  current_date w ≠ Some (isoformat (day_of cls first)) →
  ∃ c w' d', rotate open_bytes cls cfg first w d = (w', d') ∧ kept base hist (all_entries files cur) (Some c) w' d' ∧
    buffer w' = buffer w ∧ closed w' = closed w.
Proof.
  intros Hdated Hlegal Hk Hb Hdate.
  pose proof (new_path_fresh _ _ _ _ _ _ _ _ Hdated Hlegal Hk Hb Hdate) as Hfresh.
  destruct (next_file_name w) as (Hname&Hseq&Hnum).
  unfold rotate. destruct (next_file cfg w) as [file seq] eqn:En. cbn [fst snd] in *. subst file.
  set (c := Entry (day_of cls first) (batch_seq w) []).
  exists c, (Writer seq (buffer w) (Some (isoformat (day_of cls first))) (Some []) (Some (entry_path c)) (closed w)).
  eexists. split; [reflexivity|]. split; [|done].
  change (partition_of cls cfg (day_of cls first) ++ [file_name_of (batch_seq w)]) with (entry_path c) in *.
  pose proof (rotate_first_only _ _ _ _ _ _ _ _ Hk Hb Hdate) as Hnone.
  destruct Hk as [Hrows Hnd Hfiles Hcur Hclosed Hframe Hhead Hheadc Hsq Hone].
  assert (closed w = false) as Hopen.
  { destruct (closed w); [|done]. rewrite Hclosed in Hb by done. done. }
  split; rewrite ?all_entries_snoc; cbn [buffer current_writer current_path current_date closed batch_seq].
  - rewrite fmap_app, concat_app. simpl. by rewrite app_nil_r.
  - rewrite fmap_app. apply NoDup_app. split; [done|]. split; [|apply NoDup_singleton].
    intros x Hx ->%list_elem_of_singleton. done.
  - intros e He. rewrite lookup_insert_ne; [|intros Heq; apply Hfresh; rewrite Heq; by apply list_elem_of_fmap_2].
    unfold close_writer. unfold all_entries in He. destruct cur as [c0|].
    + destruct Hcur as (->&->&_&_&_). simpl in He. apply elem_of_app in He as [He| ->%list_elem_of_singleton].
      * rewrite lookup_insert_ne; [by apply Hfiles|]. intros Heq.
        rewrite all_entries_snoc, fmap_app in Hnd. apply NoDup_app in Hnd as (_&Hd&_).
        apply (Hd (entry_path e)); [by apply list_elem_of_fmap_2|]. rewrite <- Heq. by left.
      * by rewrite lookup_insert_eq.
    + destruct Hcur as [-> Hc]. destruct (Hc Hopen) as [_ ->]. by apply elem_of_nil in He.
  - split; [done|]. split; [done|]. split; [done|]. split; [apply lookup_insert_eq|done].
  - congruence.
  - intros p Hp. rewrite fmap_app in Hp. rewrite not_elem_of_app in Hp. destruct Hp as [Hp Hp'].
    rewrite lookup_insert_ne by (intros <-; apply Hp'; by left).
    rewrite <- Hframe by done. unfold close_writer. destruct cur as [c0|].
    + destruct Hcur as (->&->&_). rewrite lookup_insert_ne; [done|]. intros <-. apply Hp.
      rewrite all_entries_snoc, fmap_app. apply elem_of_app. right. by left.
    + by destruct Hcur as [-> _].
  - intros e He. unfold all_entries in He. apply elem_of_app in He as [He|He]; [by apply Hhead|].
    destruct cur as [c0|]; [|by apply elem_of_nil in He]. apply list_elem_of_singleton in He as ->.
    specialize (Hheadc c0 eq_refl). destruct Hcur as (_&_&Hcd&_). destruct (e_rows c0) as [|r rows]; [|done].
    rewrite Hb in Hheadc. simpl in Hheadc. injection Hheadc as Heq. rewrite Hcd, Heq in Hdate. done.
  - intros e [= <-]. simpl. by rewrite Hb.
  - intros e He Hn. apply elem_of_app in He as [He| ->%list_elem_of_singleton]; [specialize (Hsq e He Hn)|simpl]; rewrite Hnum by done; lia.
  - intros day Hday. by rewrite (Hnone day Hday).
Qed.

(** The buffer has been written to the open file. *)
Lemma write_kept base hist files c w d :
  legal hist → kept base hist files (Some c) w d → buffer w ≠ [] →
  ∃ w' d', write_buffer open_bytes cls w d = ((w', d'), Ok tt) ∧
    kept base hist files (Some (Entry (e_day c) (e_seq c) (e_rows c ++ buffer w))) w' d' ∧
    buffer w' = [] ∧ closed w' = closed w.
Proof.
  intros [Hfits _] Hk Hb. destruct Hk as [Hrows Hnd Hfiles Hcur Hclosed Hframe Hhead Hheadc Hsq Hone].
  destruct Hcur as (Hw&Hp&Hcd&Hd&Hopen). unfold write_buffer.
  assert (forallb (fits cls) (buffer w) = true) as ->.
  { apply forallb_forall. intros r Hr. rewrite Forall_forall in Hfits. apply (Hfits r). rewrite <- Hrows.
    apply elem_of_app. right. by apply list_elem_of_In. }
  rewrite Hw, Hp. eexists _, _. split; [reflexivity|]. split; [|done].
  change (entry_path c) with (entry_path (Entry (e_day c) (e_seq c) (e_rows c ++ buffer w))) in *.
  set (c' := Entry (e_day c) (e_seq c) (e_rows c ++ buffer w)) in *.
  assert (entry_path <$> all_entries files (Some c) = entry_path <$> all_entries files (Some c')) as Hpaths.
  { rewrite !all_entries_snoc, !fmap_app. done. }
  rewrite Hpaths in *.
  split; cbn [buffer current_writer current_path current_date closed batch_seq]; try done.
  - rewrite all_entries_snoc in *. rewrite fmap_app, concat_app in *. simpl in *. rewrite !app_nil_r in *.
    by rewrite <- app_assoc in *.
  - intros e He. rewrite lookup_insert_ne; [by apply Hfiles|]. intros Heq.
    rewrite all_entries_snoc, fmap_app in Hnd. apply NoDup_app in Hnd as (_&Hdis&_).
    apply (Hdis (entry_path e)); [by apply list_elem_of_fmap_2|]. rewrite <- Heq. by left.
  - split; [done|]. split; [done|]. split; [done|]. split; [apply lookup_insert_eq|done].
  - intros p Hp'. rewrite lookup_insert_ne; [by apply Hframe|]. intros <-. apply Hp'.
    rewrite all_entries_snoc, fmap_app. apply elem_of_app. right. by left.
  - intros e [= <-]. rewrite app_nil_r. exact (Hheadc c eq_refl).
  - intros e He. rewrite all_entries_snoc in *. apply elem_of_app in He as [He| ->%list_elem_of_singleton].
    + apply Hsq, elem_of_app. by left.
    + apply (Hsq c), elem_of_app. right. by left.
  - intros day Hday. specialize (Hone day Hday). rewrite !all_entries_snoc, !length_app in *. done.
Qed.

Lemma flush_kept base hist files cur w d :
  dated → legal hist → kept base hist files cur w d →
  ∃ files' cur' w' d', flush_locked open_bytes cls cfg (w, d) = ((w', d'), Ok tt) ∧
    kept base hist files' cur' w' d' ∧ buffer w' = [] ∧ closed w' = closed w.
Proof.
  intros Hdated Hlegal Hk. unfold flush_locked. destruct (buffer w) as [|first rest] eqn:Hb.
  { exists files, cur, w, d. done. }
  destruct (decide (current_date w = Some (isoformat (day_of cls first)))) as [He|Hne].
  - destruct cur as [c|].
    + destruct (write_kept _ _ _ _ _ _ Hlegal Hk) as (w'&d'&->&Hk'&?&?); [by rewrite Hb|]. eauto 10.
    + pose proof (k_cur _ _ _ _ _ _ Hk) as [_ Hc]. destruct (closed w) eqn:Ec.
      * pose proof (k_closed _ _ _ _ _ _ Hk Ec). congruence.
      * destruct Hc; [done|congruence].
  - destruct (rotate_kept _ _ _ _ _ _ _ _ Hdated Hlegal Hk Hb Hne) as (c&w1&d1&->&Hk1&Hb1&Hc1).
    destruct (write_kept _ _ _ _ _ _ Hlegal Hk1) as (w'&d'&->&Hk'&?&?); [by rewrite Hb1, Hb|].
    eexists _, _, _, _. split; [done|]. split; [exact Hk'|]. split; [done|congruence].
Qed.

Lemma set_buffer_kept base hist files cur w d rs :
  closed w = false → kept base hist files cur w d →
  kept base (hist ++ rs) files cur (set_buffer (buffer w ++ rs) w) d.
Proof.
  intros Hopen [Hrows Hnd Hfiles Hcur Hclosed Hframe Hhead Hheadc Hsq Hone].
  split; cbn [set_buffer buffer current_writer current_path current_date closed batch_seq]; try done.
  - by rewrite app_assoc, Hrows.
  - congruence.
  - intros e He. specialize (Hheadc e He). rewrite app_assoc. by destruct (e_rows e ++ buffer w).
  - intros day [Hday _]%Forall_app. by apply (Hone day).
Qed.

Lemma push_kept base hist files cur w d batch rs :
  dated → legal (hist ++ rs) → closed w = false → kept base hist files cur w d →
  ∃ files' cur' w' d', push open_bytes cls cfg batch rs (w, d) = ((w', d'), Ok tt) ∧
    kept base (hist ++ rs) files' cur' w' d' ∧ closed w' = false.
Proof.
  intros Hdated Hlegal Hopen Hk. unfold push. cbn [fst snd]. rewrite Hopen.
  pose proof (set_buffer_kept _ _ _ _ _ _ rs Hopen Hk) as Hk'. unfold flush_if_full. cbn [fst].
  destruct (batch <=? _); [|eexists _, _, _, _; done].
  destruct (flush_kept _ _ _ _ _ _ Hdated Hlegal Hk') as (files'&cur'&w'&d'&->&Hk''&_&Hc).
  exists files', cur', w', d'. split; [done|]. split; [done|]. by rewrite Hc.
Qed.

(** The calls of a writer before its close *)
Inductive op := OpPush (batch : Z) (records : list R) | OpFlush.
Definition perform (o : op) : proc (writer R * disk) unit :=
  match o with OpPush batch rs => push open_bytes cls cfg batch rs | OpFlush => flush_locked open_bytes cls cfg end.
Fixpoint perform_all (ops : list op) : proc (writer R * disk) unit :=
  match ops with [] => pret tt | o :: ops => perform o ;! perform_all ops end.
Definition pushed (ops : list op) : list R :=
  concat ((λ o, match o with OpPush _ rs => rs | OpFlush => [] end) <$> ops).

Lemma no_reopening_prefix hist rs : no_reopening (hist ++ rs) → no_reopening hist.
Proof. intros [?|Hs]; [by left|]. right. by apply StronglySorted_app_1_l in Hs. Qed.

Lemma legal_prefix hist rs : legal (hist ++ rs) → legal hist.
Proof. intros [Hf Hn]. apply Forall_app in Hf as [? _]. split; [done|by eapply no_reopening_prefix]. Qed.

Lemma perform_all_kept base ops hist files cur w d :
  dated → legal (hist ++ pushed ops) → closed w = false → kept base hist files cur w d →
  ∃ files' cur' w' d', perform_all ops (w, d) = ((w', d'), Ok tt) ∧
    kept base (hist ++ pushed ops) files' cur' w' d' ∧ closed w' = false.
Proof.
  intros Hdated. revert hist files cur w d. induction ops as [|o ops IH]; intros hist files cur w d Hlegal Hopen Hk.
  { exists files, cur, w, d. unfold pushed. simpl. by rewrite app_nil_r. }
  assert (pushed (o :: ops) = match o with OpPush _ rs => rs | OpFlush => [] end ++ pushed ops) as Hp by done.
  rewrite Hp, app_assoc in *. simpl. unfold pbind.
  assert (∃ files' cur' w' d', perform o (w, d) = ((w', d'), Ok tt) ∧
    kept base (hist ++ match o with OpPush _ rs => rs | OpFlush => [] end) files' cur' w' d' ∧ closed w' = false)
    as (files'&cur'&w'&d'&->&Hk'&Hopen').
  { apply legal_prefix in Hlegal. destruct o as [batch rs|]; simpl.
    - by eapply push_kept.
    - rewrite app_nil_r in *. destruct (flush_kept _ _ _ _ _ _ Hdated Hlegal Hk) as (?&?&?&?&?&?&_&Hc).
      eexists _, _, _, _. split; [done|]. split; [done|congruence]. }
  by eapply IH.
Qed.

Lemma new_writer_kept base : kept base [] [] None new_writer base.
Proof. split; try done; first [apply NoDup_nil_2|intros e He; by apply elem_of_nil in He|simpl; lia]. Qed.

Lemma finish_kept base hist files cur w d :
  kept base hist files cur w d → buffer w = [] → closed w = false →
  let s := (finish cls (w, d)).1 in
  kept base hist (all_entries files cur) None s.1 s.2 ∧ closed s.1 = true ∧ buffer s.1 = [].
Proof.
  intros Hk Hb Hopen. unfold finish. cbn [fst snd]. split; [|done].
  destruct Hk as [Hrows Hnd Hfiles Hcur Hclosed Hframe Hhead Hheadc Hsq Hone].
  split; cbn [buffer current_writer current_path current_date closed batch_seq];
    rewrite ?all_entries_none, ?app_nil_r; try done.
  - intros e He. unfold close_writer, all_entries in *. destruct cur as [c|].
    + destruct Hcur as (->&->&_). apply elem_of_app in He as [He| ->%list_elem_of_singleton].
      * rewrite lookup_insert_ne; [by apply Hfiles|]. intros Heq.
        simpl in Hnd. rewrite fmap_app in Hnd. apply NoDup_app in Hnd as (_&Hd&_).
        apply (Hd (entry_path e)); [by apply list_elem_of_fmap_2|]. rewrite <- Heq. by left.
      * by rewrite lookup_insert_eq.
    + destruct Hcur as [-> Hc]. destruct (Hc Hopen) as [_ ->]. by apply elem_of_nil in He.
  - intros p Hp. rewrite <- Hframe by done. unfold close_writer. destruct cur as [c|].
    + destruct Hcur as (->&->&_). rewrite lookup_insert_ne; [done|]. intros <-. apply Hp.
      rewrite all_entries_snoc, fmap_app. apply elem_of_app. right. by left.
    + by destruct Hcur as [-> _].
  - intros e He. unfold all_entries in He. apply elem_of_app in He as [He|He]; [by apply Hhead|].
    destruct cur as [c|]; [|by apply elem_of_nil in He]. apply list_elem_of_singleton in He as ->.
    specialize (Hheadc c eq_refl). by rewrite Hb, app_nil_r in Hheadc.
Qed.

(** What is on the disk when a writer has been closed *)
Definition stored (base : disk) (hist : list R) (files : list entry) (d : disk) : Prop :=
  concat (e_rows <$> files) = hist ∧ NoDup (entry_path <$> files) ∧
  (∀ e, e ∈ files → d !! entry_path e = Some (pq_write (schema cls) (e_rows e)) ∧
     day_of cls <$> head (e_rows e) = Some (e_day e)) ∧
  (∀ p, p ∉ entry_path <$> files → d !! p = base !! p) ∧
  (∀ day, Forall (λ r, day_of cls r = day) hist → (length files <= 1)%nat).

Lemma close_kept base hist files cur w d :
  dated → legal hist → closed w = false → kept base hist files cur w d →
  ∃ files' w' d', close open_bytes cls cfg (w, d) = ((w', d'), Ok tt) ∧ closed w' = true ∧ stored base hist files' d'.
Proof.
  intros Hdated Hlegal Hopen Hk.
  destruct (flush_kept _ _ _ _ _ _ Hdated Hlegal Hk) as (files'&cur'&w'&d'&Hf&Hk'&Hb&Hc).
  rewrite Hopen in Hc. destruct (finish_kept _ _ _ _ _ _ Hk' Hb Hc) as (Hk3&Hc3&Hb3).
  unfold finish in *. cbn [fst snd] in *. exists (all_entries files' cur'). eexists _, _. split.
  { unfold close. cbn [fst]. rewrite Hopen. unfold pbind. rewrite Hf. reflexivity. }
  split; [done|]. destruct Hk3 as [Hrows Hnd Hfiles _ _ Hframe Hhead _ _ Hone].
  rewrite all_entries_none in *. rewrite Hb3, app_nil_r in Hrows.
  split; [exact Hrows|]. split; [exact Hnd|]. split; [|split; [exact Hframe|exact Hone]].
  intros e He. split; [by apply Hfiles|by apply Hhead].
Qed.

Lemma closed_writer_stored base ops :
  dated → legal (pushed ops) →
  ∃ files w d, (perform_all ops ;! close open_bytes cls cfg) (new_writer, base) = ((w, d), Ok tt) ∧
    closed w = true ∧ stored base (pushed ops) files d.
Proof.
  intros Hdated Hlegal.
  destruct (perform_all_kept base ops [] [] None new_writer base Hdated Hlegal eq_refl (new_writer_kept base))
    as (files&cur&w&d&Hrun&Hk&Hopen).
  destruct (close_kept _ _ _ _ _ _ Hdated Hlegal Hopen Hk) as (files'&w'&d'&Hclose&Hc&Hst).
  exists files', w', d'. split; [|done]. unfold pbind. by rewrite Hrun, Hclose.
Qed.

End conservation.

Lemma isoformat_inj day day' : date_in_range day → date_in_range day' → isoformat day = isoformat day' → day = day'.
Proof.
  intros Hd Hd' He. apply date_round_trip in Hd, Hd'. rewrite He in Hd. congruence.
Qed.

(** A partition whose directory names end with the day in one of them. *)
Lemma dated_partition pre name post day day' :
  date_in_range day → date_in_range day' →
  pre ++ (name +:+ isoformat day) :: post = pre ++ (name +:+ isoformat day') :: post → day = day'.
Proof.
  intros Hd Hd' He%app_inv_head. apply (f_equal head) in He. simpl in He. injection He as He.
  apply string_app_inj_l in He. by apply isoformat_inj.
Qed.

Lemma tick_dated fits cfg : dated (tick_class fits) cfg.
Proof.
  intros day day' Hd Hd' He.
  apply (dated_partition (wc_root cfg ++ ["market"; "ticks"; "schema_version=" +:+ TICK_SCHEMA_VERSION;
    "exchange=" +:+ wc_exchange cfg; "symbol=" +:+ wc_symbol cfg]) "date=" (node_level cfg)); [done..|].
  rewrite <- !app_assoc. exact He.
Qed.
Lemma orderbook_dated fits cfg : dated (orderbook_class fits) cfg.
Proof.
  intros day day' Hd Hd' He.
  apply (dated_partition (wc_root cfg ++ ["market"; "orderbook"; "schema_version=" +:+ ORDERBOOK_SCHEMA_VERSION;
    "exchange=" +:+ wc_exchange cfg; "symbol=" +:+ wc_symbol cfg]) "date=" (node_level cfg)); [done..|].
  rewrite <- !app_assoc. exact He.
Qed.
Lemma snapshot_dated fits cfg : dated (snapshot_class fits) cfg.
Proof.
  intros day day' Hd Hd' He.
  apply (dated_partition (wc_root cfg ++ ["market"; "orderbook_snapshot";
    "schema_version=" +:+ ORDERBOOK_SNAPSHOT_SCHEMA_VERSION;
    "exchange=" +:+ wc_exchange cfg; "symbol=" +:+ wc_symbol cfg]) "date=" (node_level cfg)); [done..|].
  rewrite <- !app_assoc. exact He.
Qed.
Lemma metadata_dated fits cfg : dated (metadata_class fits) cfg.
Proof.
  intros day day' Hd Hd' He.
  apply (dated_partition (metadata_root (wc_root cfg) (wc_exchange cfg)) "fetched_date=" (node_level cfg)); done.
Qed.

(** ** Nothing is lost *)

(** C39.  A writer keeps everything: after any appends and flushes and a close,
    none of which fails, the files of the writer are distinct, each stands in
    the partition of the day of its first record and reads back, together
    they hold every record once and in order, and nothing else on the disk
    has changed.  The records must fit the schema, and either the files are
    numbered (node and run are named) or the days never go back. *)
Theorem writer_keeps_everything {R : Type} `{ParquetLaws R} (open_bytes : list R → bytes) (cls : writer_class R)
    (cfg : writer_config) (base : disk) (ops : list (@op R)) :
  dated cls cfg → legal cls cfg (pushed ops) →
  ∃ files w d,
    (perform_all open_bytes cls cfg ops ;! close open_bytes cls cfg) (new_writer, base) = ((w, d), Ok tt) ∧
    closed w = true ∧
    concat (e_rows <$> files) = pushed ops ∧ NoDup (entry_path cls cfg <$> files) ∧
    (∀ e, e ∈ files → ∃ b, d !! entry_path cls cfg e = Some b ∧ pq_rows b = Ok (e_rows e) ∧
       day_of cls <$> head (e_rows e) = Some (e_day e)) ∧
    (∀ p, p ∉ entry_path cls cfg <$> files → d !! p = base !! p).
Proof.
  intros Hdated Hlegal.
  destruct (closed_writer_stored open_bytes cls cfg base ops Hdated Hlegal) as (files&w&d&Hrun&Hc&Hrows&Hnd&Hf&Hframe&_).
  exists files, w, d. split; [done|]. split; [done|]. split; [done|]. split; [done|]. split; [|done].
  intros e He. destruct (Hf e He) as [Hd Hh]. eexists. split; [done|]. split; [apply pq_rows_write|done].
Qed.

(** Concrete rows for the examples *)
#[export] Instance decimal_countable : Countable decimal.
Proof. apply (inj_countable' (λ d, (coef d, expo d)) (λ p, Dec p.1 p.2)). by intros []. Defined.
#[export] Instance TickRecord_eq_dec : EqDecision TickRecord.
Proof. solve_decision. Defined.
#[export] Instance TickRecord_countable : Countable TickRecord.
Proof.
  apply (inj_countable'
    (λ r, (tr_ts_utc r, tr_received_at r, tr_exchange r, tr_symbol r, tr_price r, tr_quantity r, tr_side r, tr_raw_json r))
    (λ '(a, b, c, d, e, f, g, h), MkTickRecord a b c d e f g h)). by intros [].
Defined.
#[export] Instance ExchangeMetadataRecord_eq_dec : EqDecision ExchangeMetadataRecord.
Proof. solve_decision. Defined.
#[export] Instance ExchangeMetadataRecord_countable : Countable ExchangeMetadataRecord.
Proof.
  apply (inj_countable'
    (λ r, (em_exchange r, em_symbol r, em_fetched_date r, em_fetched_at r, em_source_snapshot_id r, em_data_hash r,
           em_asset_status r, em_acc_trade_value_24h r,
           (em_tick_size r, em_min_order_qty r, em_fee_maker r, em_fee_taker r, em_min_order_notional_krw r)))
    (λ '(a, b, c, d, e, f, g, h, (i, j, k, l, m)), MkExchangeMetadataRecord a b c d e f g h i j k l m)). by intros [].
Defined.

#[local] Instance tick_parquet : Parquet TickRecord := countable_parquet tr_ts_utc.
#[local] Instance tick_parquet_laws : ParquetLaws TickRecord := countable_parquet_laws tr_ts_utc.

Definition no_footer {R} (rows : list R) : bytes := "".
Definition any_fits {R} (r : R) : bool := true.

(** A tick of a day, and the writers of the examples: files of the first kind
    carry the run and a number, of the second the snapshot only. *)
Definition example_tick (day price : Z) : TickRecord :=
  MkTickRecord (day * microseconds_per_day) (day * microseconds_per_day) "bithumb" "KRW-BTC" (dint price) (dint 1) "buy" None.
Definition numbered_config : writer_config :=
  WriterConfig ["data"] "bithumb" "KRW-BTC" "s1" 500 (Some "A") (Some "run").
Definition snapshot_config (batch : Z) : writer_config :=
  WriterConfig ["data"] "bithumb" "KRW-BTC" "s1" batch None None.

Lemma writer_keeps_everything_witness :
  let ops := [OpPush 500 [example_tick 20000 1]; OpFlush; OpPush 500 [example_tick 20001 2]; OpFlush;
              OpPush 500 [example_tick 20000 3]] in
  ∃ files w d,
    (perform_all no_footer (tick_class any_fits) numbered_config ops ;!
     close no_footer (tick_class any_fits) numbered_config) (new_writer, ∅) = ((w, d), Ok tt) ∧
    concat (e_rows <$> files) = [example_tick 20000 1; example_tick 20001 2; example_tick 20000 3].
Proof.
  destruct (writer_keeps_everything no_footer (tick_class any_fits) numbered_config ∅
    [OpPush 500 [example_tick 20000 1]; OpFlush; OpPush 500 [example_tick 20001 2]; OpFlush;
     OpPush 500 [example_tick 20000 3]]) as (files&w&d&Hrun&_&Hrows&_).
  - apply tick_dated.
  - split; [|left; exists "A", "run"; split; reflexivity].
    repeat constructor; vm_compute; discriminate.
  - exists files, w, d. split; [exact Hrun|exact Hrows].
Defined.

(** Without node and run all files of a partition share a name: when the day
    goes back, the file of that day is started again and its rows are gone. *)
Example reopened_day_is_lost :
  let ops := [OpPush 500 [example_tick 20000 1]; OpFlush; OpPush 500 [example_tick 20001 2]; OpFlush;
              OpPush 500 [example_tick 20000 3]] in
  let cls := tick_class any_fits in
  let cfg := snapshot_config 500 in
  let s := (perform_all no_footer cls cfg ops ;! close no_footer cls cfg) (new_writer, ∅) in
  s.2 = Ok tt ∧
  option_map pq_rows (s.1.2 !! (tick_partition cfg 20000 ++ ["part-s1.parquet"])) = Some (Ok [example_tick 20000 3]) ∧
  length (map_to_list s.1.2) = 2%nat.
Proof. vm_compute. auto. Qed.

(** A flush files the whole buffer under the day of its first record: a record
    of the next day, appended before the flush, stands under the day before. *)
Example midnight_record_is_misfiled :
  let cls := tick_class any_fits in
  let cfg := snapshot_config 500 in
  let s := (perform_all no_footer cls cfg [OpPush 500 [example_tick 20000 1]; OpPush 500 [example_tick 20001 2]] ;!
            close no_footer cls cfg) (new_writer, ∅) in
  option_map pq_rows (s.1.2 !! (tick_partition cfg 20000 ++ ["part-s1.parquet"])) =
    Some (Ok [example_tick 20000 1; example_tick 20001 2]) ∧
  s.1.2 !! (tick_partition cfg 20001 ++ ["part-s1.parquet"]) = None.
Proof. vm_compute. auto. Qed.

(** A record that does not fit the schema blocks the writer: no flush after it
    succeeds, the close included, and nothing that is appended reaches a file. *)
Theorem unfit_record_blocks_writer {R : Type} `{Parquet R} (open_bytes : list R → bytes) (cls : writer_class R)
    (cfg : writer_config) (w : writer R) (d : disk) (bad : R) :
  closed w = false → bad ∈ buffer w → fits cls bad = false →
  (flush open_bytes cls cfg (w, d)).2 = Raise ArrowInvalid ∧
  (close open_bytes cls cfg (w, d)).2 = Raise ArrowInvalid ∧
  bad ∈ buffer (flush open_bytes cls cfg (w, d)).1.1 ∧
  closed (close open_bytes cls cfg (w, d)).1.1 = false.
Proof.
  intros Hopen Hbad Hfit.
  assert (∃ w' d', flush_locked open_bytes cls cfg (w, d) = ((w', d'), Raise ArrowInvalid) ∧
    buffer w' = buffer w ∧ closed w' = closed w) as (w'&d'&Hf&Hb&Hc).
  { unfold flush_locked, write_buffer. destruct (buffer w) as [|first rest] eqn:Eb; [by apply elem_of_nil in Hbad|].
    assert (forallb (fits cls) (first :: rest) = false) as Hall.
    { apply not_true_is_false. intros Ht. rewrite forallb_forall in Ht. rewrite Ht in Hfit; [done|]. by apply list_elem_of_In. }
    destruct (decide _).
    - rewrite Eb, Hall. eauto.
    - unfold rotate. destruct (next_file cfg w) as [name seq]. cbn [buffer]. rewrite Eb, Hall. eexists _, _. split; [done|]. done. }
  unfold flush, close. cbn [fst]. rewrite Hopen. unfold pbind. rewrite Hf. cbn [fst snd]. rewrite Hb, Hc. done.
Qed.

Lemma unfit_record_blocks_writer_witness :
  let w := set_buffer [example_tick 20000 1] new_writer in
  (close no_footer (tick_class (λ _, false)) numbered_config (w, ∅)).2 = Raise ArrowInvalid.
Proof.
  destruct (unfit_record_blocks_writer no_footer (tick_class (λ _, false)) numbered_config
    (set_buffer [example_tick 20000 1] new_writer) ∅ (example_tick 20000 1)) as (_&Hc&_); [reflexivity|by left|reflexivity|].
  exact Hc.
Defined.

(** ** The scan *)

Section scan_spec.
Context `{Parquet ExchangeMetadataRecord}.

Lemma prefix_rest p s : String.prefix p s = true →
  s = p +:+ String.substring (String.length p) (String.length s - String.length p) s.
Proof.
  revert s. induction p as [|c p IH]; intros s Hp.
  { change (s = String.substring 0 (String.length s - 0) s). rewrite Nat.sub_0_r. clear Hp. induction s as [|c s IH]; [done|].
    cbn [String.length String.substring]. by rewrite <- IH. }
  destruct s as [|c' s]; [done|]. cbn [String.prefix] in Hp. destruct (Ascii.ascii_dec c c') as [<-|]; [|done].
  change (String c s = String c (p +:+ String.substring (String.length p) (String.length s - String.length p) s)).
  f_equal. by apply IH.
Qed.

Lemma date_text_Some name t : date_text name = Some t → name = "fetched_date=" +:+ t.
Proof.
  unfold date_text. destruct (String.prefix _ name) eqn:Hp; [|done]. intros [= <-].
  by apply (prefix_rest "fetched_date=").
Qed.

Lemma date_text_dir t : date_text ("fetched_date=" +:+ t) = Some t.
Proof.
  unfold date_text. assert (String.prefix "fetched_date=" ("fetched_date=" +:+ t) = true) as Hp.
  { cbn. by destruct t. }
  rewrite Hp. f_equal. apply prefix_rest in Hp. apply string_app_inj_l in Hp. symmetry. exact Hp.
Qed.

Lemma below_Some (dir p rest : path) : below dir p = Some rest ↔ p = dir ++ rest.
Proof.
  unfold below. destruct (decide _) as [He|Hne].
  - split; [intros [= <-]; by rewrite <- He at 1; rewrite take_drop|]. intros ->. by rewrite drop_app_length.
  - split; [done|]. intros ->. by rewrite take_app_length in Hne.
Qed.

Lemma elem_of_child_names (dir : path) (d : disk) (name : string) :
  name ∈ child_names dir d ↔ ∃ rest b, d !! (dir ++ name :: rest) = Some b.
Proof.
  unfold child_names. rewrite elem_of_remove_dups, list_elem_of_omap. split.
  - intros (p&Hp&Hm). destruct (below dir p) as [[|n rest]|] eqn:Hb; [done| |done]. injection Hm as ->.
    apply below_Some in Hb as ->. apply list_elem_of_fmap in Hp as ([q b]&Hqp&Hq).
    simpl in Hqp. subst q. apply elem_of_map_to_list in Hq. eauto.
  - intros (rest&b&Hd). exists (dir ++ name :: rest). split.
    + apply list_elem_of_fmap. exists (dir ++ name :: rest, b). split; [done|]. by apply elem_of_map_to_list.
    + by rewrite (proj2 (below_Some _ _ _) eq_refl).
Qed.

Lemma elem_of_dir_rows (dir : path) (d : disk) r :
  r ∈ dir_rows dir d ↔ ∃ p b rows, d !! p = Some b ∧ parquet_below dir p = true ∧ pq_rows b = Ok rows ∧ r ∈ rows.
Proof.
  unfold dir_rows. rewrite list_elem_of_In, List.in_concat. setoid_rewrite <- list_elem_of_In.
  setoid_rewrite list_elem_of_fmap. split.
  - intros (rows&(p&->&Hp)&Hr). unfold parquet_files in Hp. rewrite sort_le_perm in Hp.
    apply list_elem_of_filter in Hp as [Hb Hp]. apply Is_true_true in Hb.
    destruct (d !! p) as [b|] eqn:Hd; [|by apply elem_of_nil in Hr].
    destruct (pq_rows b) as [rows|] eqn:Hq; [|by apply elem_of_nil in Hr]. eauto 10.
  - intros (p&b&rows&Hd&Hb&Hq&Hr). exists rows. split; [|done]. exists p. rewrite Hd, Hq. split; [done|].
    unfold parquet_files. rewrite sort_le_perm. apply list_elem_of_filter. rewrite Hb. split; [done|].
    apply list_elem_of_fmap. exists (p, b). split; [done|]. by apply elem_of_map_to_list.
Qed.

Definition eligible (symbol : string) (ts_utc : Z) (r : ExchangeMetadataRecord) : Prop :=
  em_symbol r = symbol ∧ em_fetched_at r <= ts_utc.

(** [o] is a latest eligible record of those satisfying [P]. *)
Definition is_latest (symbol : string) (ts_utc : Z) (P : ExchangeMetadataRecord → Prop)
    (o : option ExchangeMetadataRecord) : Prop :=
  match o with
  | None => ∀ r, P r → ¬ eligible symbol ts_utc r
  | Some b => P b ∧ eligible symbol ts_utc b ∧
      ∀ r, P r → eligible symbol ts_utc r → em_fetched_at r <= em_fetched_at b
  end.

Lemma is_latest_iff symbol ts (P Q : ExchangeMetadataRecord → Prop) o :
  (∀ r, P r ↔ Q r) → is_latest symbol ts P o → is_latest symbol ts Q o.
Proof. intros HPQ. destruct o; simpl; setoid_rewrite HPQ; done. Qed.

Lemma consider_latest symbol ts P best r :
  is_latest symbol ts P best → is_latest symbol ts (λ x, P x ∨ x = r) (consider symbol ts best r).
Proof.
  intros Hb. unfold consider. destruct (String.eqb_spec (em_symbol r) symbol) as [Hs|Hs]; cbn [negb].
  2: { unfold eligible in *. destruct best as [b|]; simpl in *; unfold eligible in *.
       - destruct Hb as (?&?&Hl). split; [by left|]. split; [done|]. intros x [?| ->] [? ?]; [by apply Hl|done].
       - intros x [?| ->] [? ?]; [by eapply Hb|done]. }
  destruct (Z.ltb_spec ts (em_fetched_at r)).
  { destruct best as [b|]; simpl in *; unfold eligible in *.
    - destruct Hb as (?&?&Hl). split; [by left|]. split; [done|]. intros x [?| ->] [? ?]; [by apply Hl|lia].
    - intros x [?| ->] [? ?]; [by eapply Hb|lia]. }
  destruct best as [b|]; simpl in *; unfold eligible in *.
  - destruct Hb as (Hb&Heb&Hl). destruct (Z.ltb_spec (em_fetched_at b) (em_fetched_at r)); simpl.
    + split; [by right|]. split; [done|]. intros x [Hx| ->] Hex; [|done]. specialize (Hl x Hx Hex). lia.
    + split; [by left|]. split; [done|]. intros x [Hx| ->] Hex; [by apply Hl|lia].
  - split; [by right|]. split; [done|]. intros x [Hx| ->] Hex; [|done]. by destruct (Hb x Hx).
Qed.

Lemma foldl_latest symbol ts rows : ∀ P best,
  is_latest symbol ts P best → is_latest symbol ts (λ x, P x ∨ x ∈ rows) (foldl (consider symbol ts) best rows).
Proof.
  induction rows as [|r rows IH]; intros P best Hb; simpl.
  - eapply is_latest_iff; [|done]. intros x. rewrite elem_of_nil. tauto.
  - eapply is_latest_iff; [|apply IH, consider_latest, Hb]. intros x. rewrite elem_of_cons. tauto.
Qed.

(** Every dated directory is named by an ISO date. *)
Definition iso_named (names : list string) : Prop :=
  ∀ name t, name ∈ names → date_text name = Some t → ∃ day, date_in_range day ∧ t = isoformat day.

(** A row of a directory that is not after the day of [ts_utc] *)
Definition in_dirs (meta_root : path) (d : disk) (ts_utc : Z) (names : list string) (r : ExchangeMetadataRecord) : Prop :=
  ∃ day, date_in_range day ∧ "fetched_date=" +:+ isoformat day ∈ names ∧ day <= utc_day ts_utc ∧
    r ∈ dir_rows (meta_root ++ ["fetched_date=" +:+ isoformat day]) d.

Lemma in_dirs_cons meta_root d ts name names r :
  in_dirs meta_root d ts (name :: names) r ↔
  (∃ day, date_in_range day ∧ name = "fetched_date=" +:+ isoformat day ∧ day <= utc_day ts ∧
     r ∈ dir_rows (meta_root ++ [name]) d) ∨ in_dirs meta_root d ts names r.
Proof.
  unfold in_dirs. setoid_rewrite elem_of_cons. split.
  - intros (day&Hr&[He|Hin]&Hd&Hrow); [|eauto 10]. left. exists day. by rewrite <- He.
  - intros [(day&Hr&->&Hd&Hrow)|(day&?&?&?&?)]; eauto 10.
Qed.

Lemma scan_dirs_latest meta_root d symbol ts names : ∀ P best,
  iso_named names → StronglySorted (λ a b, String.leb a b = true) names → is_latest symbol ts P best →
  is_latest symbol ts (λ r, P r ∨ in_dirs meta_root d ts names r) (scan_dirs meta_root d symbol ts names best).
Proof.
  induction names as [|name names IH]; intros P best Hiso Hs Hb; simpl.
  { eapply is_latest_iff; [|done]. intros r. split; [by left|]. intros [?|(?&_&?%elem_of_nil&_)]; done. }
  inversion Hs as [|? ? Hs' Hall]; subst.
  assert (iso_named names) as Hiso' by (intros ? ? ?; apply Hiso; by right).
  destruct (date_text name) as [t|] eqn:Ht.
  - destruct (Hiso name t ltac:(by left) Ht) as (day&Hday&->). rewrite date_round_trip by done.
    apply date_text_Some in Ht as ->. destruct (Z.ltb_spec (utc_day ts) day) as [Hlt|Hle].
    + eapply is_latest_iff; [|done]. intros r. split; [by left|]. intros [?|Hin]; [done|]. exfalso.
      rewrite in_dirs_cons in Hin. destruct Hin as [(day'&Hd'&He&Hle'&_)|(day'&Hd'&Hin&Hle'&_)].
      * apply string_app_inj_l, isoformat_inj in He as ->; [lia|done..].
      * rewrite Forall_forall in Hall. specialize (Hall _ Hin). unfold String.leb in Hall.
        rewrite string_compare_app in Hall. change (String.leb (isoformat day) (isoformat day') = true) in Hall.
        rewrite isoformat_leb in Hall by done. lia.
    + eapply is_latest_iff; [|apply IH; [done|done|]; apply foldl_latest, Hb].
      intros r. simpl. rewrite in_dirs_cons. split; [intros [[?|?]|?]; eauto 10|].
      intros [?|[(?&_&_&_&?)|?]]; eauto.
  - eapply is_latest_iff; [|by apply IH]. intros r. simpl. rewrite in_dirs_cons. split; [tauto|].
    intros [?|[(day&_&->&_)|?]]; [by left| |by right]. by rewrite date_text_dir in Ht.
Qed.

(** The rows a scan may see: those of readable Parquet files below the
    directory of a day not after the day of [ts_utc]. *)
Definition visible (meta_root : path) (d : disk) (ts_utc : Z) (r : ExchangeMetadataRecord) : Prop :=
  ∃ day p b rows, date_in_range day ∧ day <= utc_day ts_utc ∧
    d !! p = Some b ∧ parquet_below (meta_root ++ ["fetched_date=" +:+ isoformat day]) p = true ∧
    pq_rows b = Ok rows ∧ r ∈ rows.

Lemma visible_in_dirs meta_root d ts r :
  visible meta_root d ts r ↔ in_dirs meta_root d ts (sorted_names (child_names meta_root d)) r.
Proof.
  unfold visible, in_dirs, sorted_names. setoid_rewrite elem_of_dir_rows. setoid_rewrite sort_le_perm.
  split.
  - intros (day&p&b&rows&Hr&Hd&Hp&Hb&Hq&Hrow). exists day. split; [done|]. split; [|eauto 10].
    apply elem_of_child_names. unfold parquet_below in Hb. destruct (below _ p) as [rest|] eqn:Hbel; [|done].
    apply below_Some in Hbel as ->. exists rest, b. by rewrite <- app_assoc in Hp.
  - intros (day&Hr&_&Hd&p&b&rows&?&?&?&?). eauto 15.
Qed.

Lemma scan_latest root exchange symbol ts d :
  iso_named (child_names (metadata_root root exchange) d) →
  is_latest symbol ts (visible (metadata_root root exchange) d ts) (scan_exchange_metadata root exchange symbol ts d).
Proof.
  intros Hiso. unfold scan_exchange_metadata. set (mr := metadata_root root exchange) in *.
  eapply is_latest_iff; [intros r; symmetry; apply visible_in_dirs|].
  eapply is_latest_iff; [|apply (scan_dirs_latest mr d symbol ts _ (λ _, False))].
  - intros r. simpl. tauto.
  - intros name t. unfold sorted_names. rewrite sort_le_perm. apply Hiso.
  - apply sort_le_sorted; [apply String.leb_total|apply Dedup.string_leb_trans].
  - simpl. tauto.
Qed.

(** The point-in-time read of exchange metadata: over directories named
    by ISO dates the answer is a record of the symbol that was fetched at or
    before the asked time and the latest such record of all readable files of
    the days up to it; there is no answer exactly when there is no such
    record.  No record of the future is ever returned. *)
Theorem metadata_point_in_time (root : path) (exchange symbol : string) (ts_utc : Z) (d : disk) :
  iso_named (child_names (metadata_root root exchange) d) →
  let seen r := visible (metadata_root root exchange) d ts_utc r ∧ eligible symbol ts_utc r in
  match scan_exchange_metadata root exchange symbol ts_utc d with
  | Some b => seen b ∧ ∀ r, seen r → em_fetched_at r <= em_fetched_at b
  | None => ∀ r, ¬ seen r
  end.
Proof.
  intros Hiso. pose proof (scan_latest root exchange symbol ts_utc d Hiso) as Hl.
  destruct (scan_exchange_metadata _ _ _ _ _); simpl in Hl; naive_solver.
Qed.

End scan_spec.

(** ** The metadata writer *)

(** The specification of [append]: a record is judged by the first record of
    its key. *)
Definition first_of_key (k : metadata_key) (l : list ExchangeMetadataRecord) : option ExchangeMetadataRecord :=
  head (filter (λ r, key_of r = k) l).
Definition outcome (earlier : list ExchangeMetadataRecord) (r : ExchangeMetadataRecord) : append_outcome :=
  match first_of_key (key_of r) earlier with
  | None => Written
  | Some f => if String.eqb (em_data_hash f) (em_data_hash r) then Skipped else Quarantined
  end.
Fixpoint outcomes (earlier recs : list ExchangeMetadataRecord) : list append_outcome :=
  match recs with [] => [] | r :: recs => outcome earlier r :: outcomes (earlier ++ [r]) recs end.
Definition is_written (o : append_outcome) : bool := match o with Written => true | _ => false end.
Fixpoint written (earlier recs : list ExchangeMetadataRecord) : list ExchangeMetadataRecord :=
  match recs with
  | [] => []
  | r :: recs => (if is_written (outcome earlier r) then [r] else []) ++ written (earlier ++ [r]) recs
  end.
Fixpoint conflicts (earlier recs : list ExchangeMetadataRecord) : list quarantine_event :=
  match recs with
  | [] => []
  | r :: recs =>
      (match outcome earlier r, first_of_key (key_of r) earlier with
       | Quarantined, Some f => [quarantine_of (em_data_hash f) r]
       | _, _ => []
       end) ++ conflicts (earlier ++ [r]) recs
  end.

Lemma first_of_key_snoc k l r :
  first_of_key k (l ++ [r]) = match first_of_key k l with
                              | Some f => Some f
                              | None => if decide (key_of r = k) then Some r else None end.
Proof.
  unfold first_of_key. rewrite filter_app. destruct (filter _ l) as [|f fs]; simpl; [|done].
  rewrite filter_cons. by destruct (decide _).
Qed.

Lemma outcome_written_iff earlier r : outcome earlier r = Written ↔ ∀ f, f ∈ earlier → key_of f ≠ key_of r.
Proof.
  unfold outcome, first_of_key. destruct (filter _ earlier) as [|f fs] eqn:Hf; simpl.
  - split; [|done]. intros _ f Hin Hk. assert (f ∈ filter (λ x, key_of x = key_of r) earlier) as Hx by by apply list_elem_of_filter.
    rewrite Hf in Hx. by apply elem_of_nil in Hx.
  - split; [by destruct (String.eqb _ _)|]. intros Hall.
    assert (f ∈ filter (λ x, key_of x = key_of r) earlier) as Hx by (rewrite Hf; by left).
    apply list_elem_of_filter in Hx as [Hk Hin]. by apply Hall in Hin.
Qed.

Lemma written_sublist earlier recs : written earlier recs `sublist_of` recs.
Proof.
  revert earlier. induction recs as [|r recs IH]; intros earlier; simpl; [constructor|].
  destruct (is_written _); simpl; by constructor.
Qed.

Lemma written_fresh recs : ∀ earlier r, r ∈ written earlier recs → ∀ f, f ∈ earlier → key_of f ≠ key_of r.
Proof.
  induction recs as [|x recs IH]; intros earlier r Hr f Hf; simpl in Hr; [by apply elem_of_nil in Hr|].
  apply elem_of_app in Hr as [Hr|Hr].
  - destruct (outcome earlier x) eqn:Ho; simpl in Hr; try by apply elem_of_nil in Hr.
    apply list_elem_of_singleton in Hr as ->. by eapply outcome_written_iff.
  - eapply IH; [done|]. apply elem_of_app. by left.
Qed.

Lemma written_nodup_from earlier recs : NoDup (key_of <$> written earlier recs).
Proof.
  revert earlier. induction recs as [|x recs IH]; intros earlier; simpl; [constructor|].
  destruct (is_written _); simpl; [|apply IH]. constructor; [|apply IH].
  intros (r&Hk&Hr)%list_elem_of_fmap. eapply (written_fresh _ _ r Hr x); [|done]. apply elem_of_app. right. by left.
Qed.
Lemma written_nodup recs : NoDup (key_of <$> written [] recs).
Proof. apply written_nodup_from. Qed.

Lemma written_spec recs : ∀ earlier kept_ev,
  (∀ e, e ∈ earlier → ∃ f, first_of_key (key_of e) earlier = Some f ∧ f ∈ kept_ev) →
  ∀ r, r ∈ recs → ∃ f, f ∈ kept_ev ++ written earlier recs ∧ key_of f = key_of r ∧
    (em_data_hash f = em_data_hash r ∨ quarantine_of (em_data_hash f) r ∈ conflicts earlier recs).
Proof.
  induction recs as [|x recs IH]; intros earlier kept_ev Hk r Hr; [by apply elem_of_nil in Hr|]. simpl.
  assert (∀ f, first_of_key (key_of x) earlier = Some f → f ∈ earlier ∧ key_of f = key_of x) as Hfirst.
  { unfold first_of_key. intros f. destruct (filter _ earlier) as [|f' fs] eqn:Hf; [done|]. intros [= <-].
    assert (f' ∈ filter (λ y, key_of y = key_of x) earlier) as Hx by (rewrite Hf; by left).
    apply list_elem_of_filter in Hx. tauto. }
  assert (outcome earlier x = Written ∧ first_of_key (key_of x) earlier = None ∨
    ∃ f, first_of_key (key_of x) earlier = Some f ∧ f ∈ kept_ev ∧ key_of f = key_of x ∧ is_written (outcome earlier x) = false ∧
      (em_data_hash f = em_data_hash x ∨ outcome earlier x = Quarantined)) as Hx.
  { unfold outcome. destruct (first_of_key (key_of x) earlier) as [f|] eqn:Hf; [right|by left].
    destruct (Hfirst f eq_refl) as [Hin Hkf]. destruct (Hk f Hin) as (f'&Hf'&Hin').
    rewrite Hkf, Hf in Hf'. injection Hf' as <-. exists f.
    destruct (String.eqb_spec (em_data_hash f) (em_data_hash x)); auto 10. }
  assert (∀ e, e ∈ earlier ++ [x] → ∃ f, first_of_key (key_of e) (earlier ++ [x]) = Some f ∧
    f ∈ kept_ev ++ (if is_written (outcome earlier x) then [x] else [])) as Hk'.
  { intros e He. rewrite first_of_key_snoc. setoid_rewrite elem_of_app. apply elem_of_app in He as [He| ->%list_elem_of_singleton].
    - destruct (Hk e He) as (f&->&Hin). eauto.
    - destruct Hx as [[Ho ->]|(f&->&Hin&_)]; [|eauto]. rewrite decide_True by done. exists x. split; [done|].
      right. rewrite Ho. by left. }
  apply elem_of_cons in Hr as [->|Hr].
  - destruct Hx as [[Ho _]|(f&Hf&Hin&Hkf&Ho&Hh)].
    + exists x. rewrite Ho. simpl. split; [apply elem_of_app; right; by left|]. auto.
    + exists f. split; [apply elem_of_app; by left|]. split; [done|]. destruct Hh as [?|Hq]; [by left|]. right.
      apply elem_of_app. left. rewrite Hq, Hf. by left.
  - destruct (IH (earlier ++ [x]) _ Hk' r Hr) as (f&Hf&Hkf&Hh). exists f. rewrite <- app_assoc in Hf.
    split; [done|]. split; [done|]. destruct Hh; [by left|]. right. apply elem_of_app. by right.
Qed.

Section metadata_spec.
Context `{ParquetLaws ExchangeMetadataRecord} (open_bytes : list ExchangeMetadataRecord → bytes)
        (fits : ExchangeMetadataRecord → bool) (cfg : writer_config).

Notation cls := (metadata_class fits).

Lemma metadata_run base recs : ∀ earlier hist files cur m d,
  legal cls cfg (hist ++ written earlier recs) → closed (mw_writer m) = false →
  (∀ k, mw_seen m !! k = em_data_hash <$> first_of_key k earlier) →
  kept open_bytes cls cfg base hist files cur (mw_writer m) d →
  ∃ files' cur' m' d',
    pmap (metadata_append open_bytes fits cfg) recs (m, d) = ((m', d'), Ok (outcomes earlier recs)) ∧
    kept open_bytes cls cfg base (hist ++ written earlier recs) files' cur' (mw_writer m') d' ∧
    closed (mw_writer m') = false ∧ mw_quarantine m' = mw_quarantine m ++ conflicts earlier recs ∧
    (∀ k, mw_seen m' !! k = em_data_hash <$> first_of_key k (earlier ++ recs)).
Proof.
  induction recs as [|r recs IH]; intros earlier hist files cur m d Hlegal Hopen Hseen Hk; simpl.
  { exists files, cur, m, d. by rewrite !app_nil_r. }
  assert (∃ files' cur' m' d',
    metadata_append open_bytes fits cfg r (m, d) = ((m', d'), Ok (outcome earlier r)) ∧
    kept open_bytes cls cfg base (hist ++ (if is_written (outcome earlier r) then [r] else [])) files' cur' (mw_writer m') d' ∧
    closed (mw_writer m') = false ∧ (∀ k, mw_seen m' !! k = em_data_hash <$> first_of_key k (earlier ++ [r])) ∧
    mw_quarantine m' = mw_quarantine m ++ match outcome earlier r, first_of_key (key_of r) earlier with
                                          | Quarantined, Some f => [quarantine_of (em_data_hash f) r]
                                          | _, _ => [] end) as Hstep.
  { unfold metadata_append. rewrite Hopen, Hseen. unfold outcome.
    assert (∀ f, first_of_key (key_of r) earlier = Some f →
      ∀ k, mw_seen m !! k = em_data_hash <$> first_of_key k (earlier ++ [r])) as Hkeep.
    { intros f Hf k. rewrite Hseen, first_of_key_snoc. destruct (first_of_key k earlier) eqn:Ek; [done|].
      destruct (decide (key_of r = k)) as [<-|]; [congruence|done]. }
    destruct (first_of_key (key_of r) earlier) as [f|] eqn:Hf; simpl.
    - destruct (String.eqb (em_data_hash f) (em_data_hash r)); simpl; eexists files, cur, _, d;
        (split; [reflexivity|]); rewrite !app_nil_r; cbn [mw_writer mw_seen mw_quarantine]; eauto.
    - simpl in Hlegal. unfold outcome in Hlegal. rewrite Hf in Hlegal. simpl in Hlegal.
      assert (legal cls cfg (hist ++ [r])) as Hl.
      { apply (legal_prefix _ _ _ (written (earlier ++ [r]) recs)). by rewrite <- app_assoc. }
      destruct (push_kept open_bytes cls cfg _ _ _ _ _ _ FLUSH_AT [r] (metadata_dated fits cfg) Hl Hopen Hk)
        as (files'&cur'&w'&d'&->&Hk'&Hc'). simpl.
      eexists files', cur', _, d'. split; [reflexivity|]. cbn [mw_writer mw_seen mw_quarantine].
      split; [done|]. split; [done|]. split; [|by rewrite app_nil_r].
      intros k. rewrite first_of_key_snoc. destruct (decide (key_of r = k)) as [<-|Hne].
      + by rewrite lookup_insert_eq, Hf.
      + rewrite lookup_insert_ne, Hseen by done. by destruct (first_of_key k earlier). }
  destruct Hstep as (files1&cur1&m1&d1&Hrun&Hk1&Hc1&Hs1&Hq1). unfold pbind. rewrite Hrun.
  simpl in Hlegal. rewrite app_assoc in Hlegal.
  destruct (IH _ _ _ _ _ _ Hlegal Hc1 Hs1 Hk1) as (files2&cur2&m2&d2&Hrun2&Hk2&Hc2&Hq2&Hs2). rewrite Hrun2.
  exists files2, cur2, m2, d2. split; [done|]. rewrite app_assoc. split; [done|]. split; [done|].
  split; [by rewrite Hq2, Hq1, <- app_assoc|]. intros k. by rewrite Hs2, <- app_assoc.
Qed.

(** Appending records and closing *)
Definition record_all (recs : list ExchangeMetadataRecord) : proc (metadata_writer * disk) (list append_outcome) :=
  let! outs := pmap (metadata_append open_bytes fits cfg) recs in
  metadata_close open_bytes fits cfg ;! pret outs.

Lemma record_all_stored base recs :
  legal cls cfg (written [] recs) →
  ∃ files m d, record_all recs (new_metadata_writer, base) = ((m, d), Ok (outcomes [] recs)) ∧
    stored cls cfg base (written [] recs) files d ∧ mw_quarantine m = conflicts [] recs.
Proof.
  intros Hlegal.
  destruct (metadata_run base recs [] [] [] None new_metadata_writer base Hlegal eq_refl) as (files&cur&m&d&Hrun&Hk&Hopen&Hq&_);
    [done|apply new_writer_kept|].
  destruct (close_kept _ _ _ _ _ _ _ _ _ (metadata_dated fits cfg) Hlegal Hopen Hk) as (files'&w'&d'&Hclose&_&Hst).
  exists files'. eexists (MetadataWriter w' _ _), d'. split; [|split; [exact Hst|exact Hq]].
  unfold record_all, pbind. rewrite Hrun. unfold metadata_close, on_writer. cbn [fst snd]. by rewrite Hclose.
Qed.

Lemma is_parquet_suffix s : is_parquet (s +:+ ".parquet") = true.
Proof.
  unfold is_parquet. rewrite string_app_length. cbn [String.length]. rewrite Nat.add_sub.
  apply andb_true_iff. split; [apply Nat.leb_le; lia|]. apply String.eqb_eq.
  induction s as [|c s IH]; [done|]. exact IH.
Qed.

Lemma file_name_parquet seq : is_parquet (file_name_of cfg seq) = true.
Proof.
  unfold file_name_of. destruct (wc_node_id cfg), (wc_collector_run_id cfg).
  all: rewrite <- ?string_app_assoc; apply is_parquet_suffix.
Qed.

Lemma cons_head {A} (x y : A) l l' : x :: l = y :: l' → x = y.
Proof. congruence. Qed.

Notation meta_root := (metadata_root (wc_root cfg) (wc_exchange cfg)).

Lemma metadata_entry_path e :
  entry_path cls cfg e = meta_root ++ ("fetched_date=" +:+ isoformat (e_day e)) :: node_level cfg ++ [file_name_of cfg (e_seq e)].
Proof. unfold entry_path. simpl. unfold metadata_partition. by rewrite <- !app_assoc. Qed.

Lemma below_day_entry day e :
  date_in_range day → date_in_range (e_day e) →
  parquet_below (meta_root ++ ["fetched_date=" +:+ isoformat day]) (entry_path cls cfg e) = true ↔ day = e_day e.
Proof.
  intros Hd He. unfold parquet_below. rewrite metadata_entry_path. split.
  - destruct (below _ _) as [rest|] eqn:Hb; [|done]. intros _. apply below_Some in Hb.
    rewrite <- app_assoc in Hb. apply app_inv_head in Hb. apply cons_head in Hb. apply (string_app_inj_l "fetched_date=") in Hb. by apply isoformat_inj.
  - intros ->. rewrite (proj2 (below_Some _ _ (node_level cfg ++ [file_name_of cfg (e_seq e)]))) by by rewrite <- app_assoc.
    rewrite last_snoc. apply file_name_parquet.
Qed.

(** The days of a stored file are those of its rows. *)
Lemma stored_scan base recs files d symbol ts :
  Forall (λ r, date_in_range (em_fetched_date r) ∧ em_fetched_date r = utc_day (em_fetched_at r)) recs →
  StronglySorted (λ r r', em_fetched_at r <= em_fetched_at r') recs →
  (∀ rest, base !! (meta_root ++ rest) = None) →
  stored cls cfg base recs files d →
  is_latest symbol ts (λ r, r ∈ recs) (scan_exchange_metadata (wc_root cfg) (wc_exchange cfg) symbol ts d).
Proof.
  intros Hday Hsorted Hbase (Hrows&_&Hfiles&Hframe&_). rewrite Forall_forall in Hday.
  assert (∀ e, e ∈ files → ∃ f, f ∈ recs ∧ f ∈ e_rows e ∧ em_fetched_date f = e_day e ∧
    ∀ r, r ∈ e_rows e → r ∈ recs ∧ em_fetched_at f <= em_fetched_at r) as Hentry.
  { intros e He. destruct (Hfiles e He) as [_ Hh]. destruct (e_rows e) as [|f rows] eqn:Er; [done|].
    simpl in Hh. injection Hh as Hh. apply list_elem_of_split in He as (f1&f2&->).
    rewrite fmap_app, fmap_cons, concat_app in Hrows. simpl in Hrows. rewrite Er in Hrows.
    assert (∀ r, r ∈ f :: rows → r ∈ recs) as Hin.
    { intros r Hr. rewrite <- Hrows. apply elem_of_app. right. apply elem_of_app. by left. }
    exists f. split; [apply Hin; by left|]. split; [by left|]. split; [done|]. intros r Hr. split; [by apply Hin|].
    rewrite <- Hrows in Hsorted. apply StronglySorted_app_1_r in Hsorted. simpl in Hsorted.
    inversion Hsorted as [|? ? Hs Hall]; subst. apply elem_of_cons in Hr as [->|Hr]; [lia|].
    rewrite Forall_forall in Hall. apply Hall. apply elem_of_app. by left. }
  assert (∀ p b, d !! (meta_root ++ p) = Some b → ∃ e, e ∈ files ∧ meta_root ++ p = entry_path cls cfg e) as Hpath.
  { intros p b Hp. destruct (decide (meta_root ++ p ∈ entry_path cls cfg <$> files)) as [Hin|Hout].
    - apply list_elem_of_fmap in Hin as (e&->&He). eauto.
    - rewrite Hframe in Hp by done. by rewrite Hbase in Hp. }
  assert (∀ r, visible meta_root d ts r → r ∈ recs) as Hvis.
  { intros r (day&p&b&rows&Hr&Hle&Hp&Hb&Hq&Hrow). unfold parquet_below in Hb.
    destruct (below _ p) as [rest|] eqn:Hbel; [|done]. apply below_Some in Hbel as ->.
    rewrite <- app_assoc in Hp. destruct (Hpath _ _ Hp) as (e&He&Hpe). destruct (Hfiles e He) as [Hd _].
    rewrite Hpe, Hd in Hp. injection Hp as <-. rewrite pq_rows_write in Hq. injection Hq as <-.
    destruct (Hentry e He) as (?&_&_&_&Hin). by apply Hin. }
  assert (∀ r, r ∈ recs → eligible symbol ts r → visible meta_root d ts r) as Hvis'.
  { intros r Hr [_ Hts]. rewrite <- Hrows in Hr. apply list_elem_of_In, List.in_concat in Hr as (rows&Hin&Hr).
    apply list_elem_of_In, list_elem_of_fmap in Hin as (e&->&He). apply list_elem_of_In in Hr.
    destruct (Hentry e He) as (f&Hf&_&Hfd&Hall). destruct (Hall r Hr) as [_ Hle]. destruct (Hday f Hf) as [Hrange Hfu].
    destruct (Hfiles e He) as [Hd _].
    exists (e_day e), (entry_path cls cfg e), (pq_write (schema cls) (e_rows e)), (e_rows e).
    rewrite <- Hfd. split; [done|]. split; [rewrite Hfu; apply Z.div_le_mono; [done|lia]|]. split; [done|].
    split; [|split; [apply pq_rows_write|done]]. apply below_day_entry; [done|by rewrite <- Hfd|done]. }
  assert (iso_named (child_names meta_root d)) as Hiso.
  { intros name t (rest&b&Hp)%elem_of_child_names Ht. destruct (Hpath _ _ Hp) as (e&He&Hpe).
    rewrite metadata_entry_path in Hpe. apply app_inv_head, cons_head in Hpe. subst name.
    destruct (Hentry e He) as (f&Hf&_&Hfd&_). destruct (Hday f Hf) as [Hrange _]. exists (e_day e).
    rewrite date_text_dir in Ht. injection Ht as <-. by rewrite <- Hfd. }
  pose proof (scan_latest (wc_root cfg) (wc_exchange cfg) symbol ts d Hiso) as Hl.
  destruct (scan_exchange_metadata _ _ _ _ _) as [b|]; simpl in *.
  - destruct Hl as (Hb&Heb&Hmax). split; [by apply Hvis|]. split; [done|]. intros r Hr Her. apply Hmax; [by apply Hvis'|done].
  - intros r Hr Her. by apply (Hl r); [apply Hvis'|].
Qed.

End metadata_spec.

(** Recording metadata loses no record silently: over any records that
    fit, appending and closing succeed, each append answers as the first
    record of its key demands, the files written hold each key once, and
    every record has a stored one of its key that either has the same hash or
    is named with it in a quarantine event. *)
Theorem metadata_append_spec `{ParquetLaws ExchangeMetadataRecord}
    (open_bytes : list ExchangeMetadataRecord → bytes) (fits : ExchangeMetadataRecord → bool) (cfg : writer_config)
    (base : disk) (recs : list ExchangeMetadataRecord) :
  legal (metadata_class fits) cfg (written [] recs) →
  ∃ files m d,
    record_all open_bytes fits cfg recs (new_metadata_writer, base) = ((m, d), Ok (outcomes [] recs)) ∧
    (∀ e, e ∈ files → ∃ b, d !! entry_path (metadata_class fits) cfg e = Some b ∧ pq_rows b = Ok (e_rows e)) ∧
    let kept := concat (e_rows <$> files) in
    kept `sublist_of` recs ∧ NoDup (key_of <$> kept) ∧
    ∀ r, r ∈ recs → ∃ f, f ∈ kept ∧ key_of f = key_of r ∧
      (em_data_hash f = em_data_hash r ∨ quarantine_of (em_data_hash f) r ∈ mw_quarantine m).
Proof.
  intros Hlegal. destruct (record_all_stored open_bytes fits cfg base recs Hlegal) as (files&m&d&Hrun&Hst&Hq).
  exists files, m, d. split; [done|]. destruct Hst as (Hrows&_&Hfiles&_). split.
  { intros e He. destruct (Hfiles e He) as [Hd _]. eexists. split; [done|apply pq_rows_write]. }
  cbv zeta. rewrite Hrows, Hq. split; [apply written_sublist|]. split; [apply written_nodup|].
  intros r Hr. destruct (written_spec recs [] []) with r as (f&Hf&?&?); [by intros ? ?%elem_of_nil|done|]. eauto.
Qed.

#[local] Instance metadata_parquet : Parquet ExchangeMetadataRecord := countable_parquet em_fetched_at.
#[local] Instance metadata_parquet_laws : ParquetLaws ExchangeMetadataRecord := countable_parquet_laws em_fetched_at.

Definition example_metadata (day second : Z) (snapshot hash : string) : ExchangeMetadataRecord :=
  MkExchangeMetadataRecord "bithumb" "KRW-BTC" day (day * microseconds_per_day + second * 1000000) snapshot hash "1"
    (dint 5) None None None None None.

Definition example_records : list ExchangeMetadataRecord :=
  [example_metadata 20000 1 "a" "h1"; example_metadata 20000 2 "a" "h1"; example_metadata 20000 3 "a" "h2";
   example_metadata 20001 1 "b" "h3"].

Lemma example_records_legal : legal (metadata_class any_fits) numbered_config (written [] example_records).
Proof.
  split; [|left; exists "A", "run"; split; reflexivity]. repeat constructor; vm_compute; discriminate.
Qed.

Lemma metadata_append_spec_witness :
  ∃ m d, record_all no_footer any_fits numbered_config example_records (new_metadata_writer, ∅) =
    ((m, d), Ok [Written; Skipped; Quarantined; Written]).
Proof.
  destruct (metadata_append_spec no_footer any_fits numbered_config ∅ example_records example_records_legal)
    as (files&m&d&Hrun&_).
  exists m, d. exact Hrun.
Defined.

Lemma sublist_sorted {A} (R : A → A → Prop) (l1 l2 : list A) :
  l1 `sublist_of` l2 → StronglySorted R l2 → StronglySorted R l1.
Proof.
  induction 1 as [|x l1 l2 Hsub IH|x l1 l2 Hsub IH]; intros Hs; [done| |].
  - inversion Hs; subst. constructor; [by apply IH|].
    rewrite Forall_forall in *. intros y Hy. by eauto using elem_of_sublist.
  - inversion Hs; subst. by apply IH.
Qed.

(** What the metadata writer stores the scan finds: over a disk that
    holds no metadata of the exchange yet, after recording records in the
    order they were fetched and closing, the scan of any symbol at any time
    answers with a latest stored record of the symbol that had been fetched
    by then, or with nothing when there is none. *)
Theorem metadata_round_trip `{ParquetLaws ExchangeMetadataRecord}
    (open_bytes : list ExchangeMetadataRecord → bytes) (fits : ExchangeMetadataRecord → bool) (cfg : writer_config)
    (base : disk) (recs : list ExchangeMetadataRecord) (symbol : string) (ts_utc : Z) :
  Forall (λ r, fits r = true ∧ date_in_range (em_fetched_date r) ∧ em_fetched_date r = utc_day (em_fetched_at r)) recs →
  StronglySorted (λ r r', em_fetched_at r <= em_fetched_at r') recs →
  (∀ rest, base !! (metadata_root (wc_root cfg) (wc_exchange cfg) ++ rest) = None) →
  ∃ m d, record_all open_bytes fits cfg recs (new_metadata_writer, base) = ((m, d), Ok (outcomes [] recs)) ∧
    is_latest symbol ts_utc (λ r, r ∈ written [] recs)
      (scan_exchange_metadata (wc_root cfg) (wc_exchange cfg) symbol ts_utc d).
Proof.
  intros Hf Hs Hbase. pose proof (written_sublist [] recs) as Hsub.
  assert (Forall (λ r, fits r = true ∧ date_in_range (em_fetched_date r) ∧ em_fetched_date r = utc_day (em_fetched_at r))
    (written [] recs)) as Hf'.
  { rewrite Forall_forall in *. intros r Hr. apply Hf. by eapply elem_of_sublist. }
  assert (StronglySorted (λ r r', em_fetched_at r <= em_fetched_at r') (written [] recs)) as Hs'
    by by eapply sublist_sorted.
  destruct (record_all_stored open_bytes fits cfg base recs) as (files&m&d&Hrun&Hst&_).
  { split; [eapply Forall_impl; [exact Hf'|]; simpl; tauto|]. right.
    clear -Hf' Hs'. induction (written [] recs) as [|r l IH]; constructor; inversion Hf'; inversion Hs'; subst; [by apply IH|].
    rewrite Forall_forall in *. intros r' Hr'. simpl.
    destruct H1 as (_&_&->). destruct (H2 r' Hr') as (_&_&->). apply Z.div_le_mono; [done|]. by apply H6. }
  exists m, d. split; [done|]. eapply stored_scan; [|done..|done].
  eapply Forall_impl; [exact Hf'|]. simpl. tauto.
Qed.

Lemma metadata_round_trip_witness :
  ∃ m d, record_all no_footer any_fits numbered_config example_records (new_metadata_writer, ∅) =
      ((m, d), Ok [Written; Skipped; Quarantined; Written]) ∧
    is_latest "KRW-BTC" (20000 * microseconds_per_day + 5000000)
      (λ r, r ∈ [example_metadata 20000 1 "a" "h1"; example_metadata 20001 1 "b" "h3"])
      (scan_exchange_metadata ["data"] "bithumb" "KRW-BTC" (20000 * microseconds_per_day + 5000000) d).
Proof.
  destruct (metadata_round_trip no_footer any_fits numbered_config ∅ example_records "KRW-BTC"
    (20000 * microseconds_per_day + 5000000)) as (m&d&Hrun&Hl).
  - repeat constructor; vm_compute; discriminate.
  - repeat constructor; vm_compute; discriminate.
  - intros rest. apply lookup_empty.
  - exists m, d. split; [exact Hrun|exact Hl].
Defined.

(** ** The throttle of order-book snapshots *)

Section throttle.
Context (payload_hash : string → string → Z → list level → list level → string).
Context `{ParquetLaws OrderbookSnapshotRecord} (open_bytes : list OrderbookSnapshotRecord → bytes)
        (fits : OrderbookSnapshotRecord → bool) (cfg : writer_config).

Notation cls := (snapshot_class fits).
Notation records := (snapshot_event_to_snapshot_records payload_hash).

Definition append_events (evs : list (snapshot_event * Z)) : proc (snapshot_writer * disk) (list bool) :=
  pmap (λ p, append_event payload_hash open_bytes fits cfg p.1 p.2) evs.

(** The events that were taken *)
Definition taken (outs : list bool) (evs : list (snapshot_event * Z)) : list (snapshot_event * Z) :=
  (filter (λ p, Is_true p.1) (zip outs evs)).*2.

Lemma taken_sublist {B} (g : snapshot_event * Z → list B) (outs : list bool) (evs : list (snapshot_event * Z)) :
  concat (g <$> taken outs evs) `sublist_of` concat (g <$> evs).
Proof.
  unfold taken. revert outs. induction evs as [|p evs IH]; intros [|o outs]; simpl;
    [done|apply sublist_nil_l..|]. rewrite filter_cons. destruct o; simpl.
  - apply sublist_app; [done|apply IH].
  - apply sublist_inserts_l, IH.
Qed.

Definition spaced (last : option Z) (times : list Z) : Prop :=
  StronglySorted (λ t t', t + THROTTLE <= t') (option_list last ++ times).

Lemma spaced_cons last now times :
  match last with Some t => now - t <? THROTTLE | None => false end = false →
  spaced (Some now) times → spaced last (now :: times).
Proof.
  unfold spaced. destruct last as [t|]; simpl; [|done]. intros Hlt Hs. constructor; [done|].
  inversion Hs as [|? ? _ Hall]; subst. constructor; [lia|]. eapply Forall_impl; [exact Hall|]. simpl. intros x. unfold THROTTLE in *. lia.
Qed.

Lemma throttle_run base evs : ∀ hist files cur w d,
  (∀ rs, rs `sublist_of` concat ((λ p, records p.1) <$> evs) → legal cls cfg (hist ++ rs)) →
  closed (sw_writer w) = false → kept open_bytes cls cfg base hist files cur (sw_writer w) d →
  ∃ outs files' cur' w' d', append_events evs (w, d) = ((w', d'), Ok outs) ∧ length outs = length evs ∧
    kept open_bytes cls cfg base (hist ++ concat ((λ p, records p.1) <$> taken outs evs)) files' cur' (sw_writer w') d' ∧
    closed (sw_writer w') = false ∧ spaced (sw_last_write_ts w) (taken outs evs).*2 ∧
    ∀ i p, outs !! i = Some false → evs !! i = Some p →
      (∃ t, sw_last_write_ts w = Some t ∧ p.2 - t < THROTTLE) ∨
      ∃ j q, (j < i)%nat ∧ outs !! j = Some true ∧ evs !! j = Some q ∧ p.2 - q.2 < THROTTLE.
Proof.
  induction evs as [|[e now] evs IH]; intros hist files cur w d Hlegal Hopen Hk; simpl.
  { exists [], files, cur, w, d. unfold taken, spaced. simpl. rewrite app_nil_r. split; [done|]. split; [done|].
    split; [done|]. split; [done|]. split; [|done]. destruct (sw_last_write_ts w); repeat constructor. }
  unfold append_events. simpl. unfold pbind at 1. unfold append_event at 1. rewrite Hopen.
  destruct (match sw_last_write_ts w with Some t => now - t <? THROTTLE | None => false end) eqn:Ht.
  - destruct (IH hist files cur w d) as (outs&files'&cur'&w'&d'&Hrun&Hlen&Hk'&Hc&Hs&Hrej); [|done..|].
    { intros rs Hrs. apply Hlegal. simpl. by apply sublist_inserts_l. }
    unfold append_events in Hrun. unfold pbind. rewrite Hrun.
    exists (false :: outs), files', cur', w', d'. split; [done|]. split; [simpl; lia|]. split; [exact Hk'|]. split; [done|].
    split; [exact Hs|]. intros [|i] p Ho Hp; simpl in *.
    + injection Hp as <-. left. destruct (sw_last_write_ts w) as [t|]; [|done]. exists t. split; [done|]. simpl. lia.
    + destruct (Hrej i p Ho Hp) as [?|(j&q&?&?&?&?)]; [by left|]. right. exists (S j), q. split; [lia|done].
  - assert (legal cls cfg (hist ++ records e)) as Hl.
    { apply Hlegal. simpl. by apply sublist_inserts_r. }
    destruct (push_kept open_bytes cls cfg _ _ _ _ _ _ (wc_batch_size cfg) (records e) (snapshot_dated fits cfg) Hl Hopen Hk)
      as (files1&cur1&w1&d1&Hpush&Hk1&Hc1). rewrite Hpush. simpl.
    destruct (IH (hist ++ records e) files1 cur1 (SnapshotWriter w1 (Some now)) d1)
      as (outs&files'&cur'&w'&d'&Hrun&Hlen&Hk'&Hc&Hs&Hrej); [|done..|].
    { intros rs Hrs. rewrite <- app_assoc. apply Hlegal. simpl. by apply sublist_app. }
    unfold append_events in Hrun. unfold pbind. rewrite Hrun.
    exists (true :: outs), files', cur', w', d'. split; [done|]. split; [simpl; lia|].
    split. { rewrite <- app_assoc in Hk'. exact Hk'. } split; [done|].
    split; [apply (spaced_cons _ _ _ Ht Hs)|].
    intros [|i] p Ho Hp; simpl in *; [done|]. right.
    destruct (Hrej i p Ho Hp) as [(t&[= <-]&?)|(j&q&?&?&?&?)]; [exists 0%nat, (e, now)|exists (S j), q]; (split; [lia|done]).
Qed.

End throttle.

(** The throttle of snapshots: appending events whose records fit never
    fails, two taken events are at least a second apart, an event that is not
    taken comes less than a second after one that was, and after the close
    the files hold exactly the levels of the taken events, in order. *)
Theorem throttle_spec (payload_hash : string → string → Z → list level → list level → string) `{ParquetLaws OrderbookSnapshotRecord}
    (open_bytes : list OrderbookSnapshotRecord → bytes) (fits : OrderbookSnapshotRecord → bool) (cfg : writer_config)
    (base : disk) (evs : list (snapshot_event * Z)) :
  let cls := snapshot_class fits in
  let records (p : snapshot_event * Z) := snapshot_event_to_snapshot_records payload_hash p.1 in
  (∀ rs, rs `sublist_of` concat (records <$> evs) → legal cls cfg rs) →
  ∃ outs w d, append_events payload_hash open_bytes fits cfg evs (SnapshotWriter new_writer None, base) = ((w, d), Ok outs) ∧
    length outs = length evs ∧
    StronglySorted (λ t t', t + THROTTLE <= t') (taken outs evs).*2 ∧
    (∀ i p, outs !! i = Some false → evs !! i = Some p →
       ∃ j q, (j < i)%nat ∧ outs !! j = Some true ∧ evs !! j = Some q ∧ p.2 - q.2 < THROTTLE) ∧
    ∃ files w' d', close open_bytes cls cfg (sw_writer w, d) = ((w', d'), Ok tt) ∧
      concat (e_rows <$> files) = concat (records <$> taken outs evs) ∧
      (∀ e, e ∈ files → ∃ b, d' !! entry_path cls cfg e = Some b ∧ pq_rows b = Ok (e_rows e)).
Proof.
  intros cls records Hlegal.
  destruct (throttle_run payload_hash open_bytes fits cfg base evs [] [] None (SnapshotWriter new_writer None) base)
    as (outs&files&cur&w&d&Hrun&Hlen&Hk&Hc&Hs&Hrej); [exact Hlegal|done|apply new_writer_kept|].
  exists outs, w, d. split; [done|]. split; [done|]. split; [exact Hs|]. split.
  { intros i p Ho Hp. destruct (Hrej i p Ho Hp) as [(?&?&_)|?]; [done|done]. }
  assert (legal cls cfg (concat (records <$> taken outs evs))) as Hl.
  { apply Hlegal, taken_sublist. }
  destruct (close_kept _ _ _ _ _ _ _ _ _ (snapshot_dated fits cfg) Hl Hc Hk) as (files'&w'&d'&Hclose&_&Hrows&_&Hfiles&_).
  exists files', w', d'. split; [exact Hclose|]. split; [exact Hrows|].
  intros e He. eexists. split; [by apply Hfiles|apply pq_rows_write].
Qed.

#[export] Instance OrderbookSnapshotRecord_eq_dec : EqDecision OrderbookSnapshotRecord.
Proof. solve_decision. Defined.
#[export] Instance OrderbookSnapshotRecord_countable : Countable OrderbookSnapshotRecord.
Proof.
  apply (inj_countable'
    (λ r, (os_ts_utc r, os_received_at r, os_exchange r, os_symbol r, os_baseline_seq r, os_side r, os_level r,
           os_price r, os_quantity r, os_payload_hash r, os_raw_json r))
    (λ '(a, b, c, d, e, f, g, h, i, j, k), MkOrderbookSnapshotRecord a b c d e f g h i j k)). by intros [].
Defined.
#[local] Instance snapshot_parquet : Parquet OrderbookSnapshotRecord := countable_parquet os_ts_utc.
#[local] Instance snapshot_parquet_laws : ParquetLaws OrderbookSnapshotRecord := countable_parquet_laws os_ts_utc.

Definition example_hash (exchange symbol : string) (seq : Z) (bids asks : list level) : string := "hash".
Definition example_event (ms bid : Z) : snapshot_event :=
  SnapshotEvent (20000 * microseconds_per_day + ms * 1000) (20000 * microseconds_per_day + ms * 1000) "bithumb" "KRW-BTC"
    [(dint bid, dint 1)] [(dint (bid + 1), dint 1)] None.
Definition example_events : list (snapshot_event * Z) :=
  [(example_event 0 100, 0); (example_event 200 101, 200000000); (example_event 1100 102, 1100000000)].

Lemma throttle_spec_witness :
  ∃ outs w d, append_events example_hash no_footer any_fits numbered_config example_events
      (SnapshotWriter new_writer None, ∅) = ((w, d), Ok outs) ∧
    length outs = 3%nat ∧ StronglySorted (λ t t', t + THROTTLE <= t') (taken outs example_events).*2.
Proof.
  destruct (throttle_spec example_hash no_footer any_fits numbered_config ∅ example_events) as (outs&w&d&Hrun&Hlen&Hs&_).
  - intros rs Hrs. split; [|left; exists "A", "run"; split; reflexivity].
    apply Forall_forall. intros r Hr. eapply elem_of_sublist in Hr; [|exact Hrs].
    revert r Hr. apply Forall_forall. repeat constructor; vm_compute; discriminate.
  - exists outs, w, d. split; [exact Hrun|]. split; [exact Hlen|exact Hs].
Defined.

(** Of two snapshots within a second the first is stored, not the last. *)
Example throttle_keeps_the_first :
  let s := append_events example_hash no_footer any_fits numbered_config example_events (SnapshotWriter new_writer None, ∅) in
  s.2 = Ok [true; false; true] ∧
  os_price <$> buffer (sw_writer s.1.1) = [dint 100; dint 101; dint 102; dint 103].
Proof. vm_compute. auto. Qed.

Definition example_disk : disk :=
  {[ metadata_partition numbered_config 20000 ++ ["run-0.parquet"] :=
     pq_write "exchange_metadata" [example_metadata 20000 1 "a" "h1"; example_metadata 20000 9 "b" "h2"] ]}.

Lemma metadata_point_in_time_witness :
  let ts := 20000 * microseconds_per_day + 5000000 in
  let seen r := visible (metadata_root ["data"] "bithumb") example_disk ts r ∧ eligible "KRW-BTC" ts r in
  scan_exchange_metadata ["data"] "bithumb" "KRW-BTC" ts example_disk = Some (example_metadata 20000 1 "a" "h1") ∧
  match scan_exchange_metadata ["data"] "bithumb" "KRW-BTC" ts example_disk with
  | Some b => seen b ∧ ∀ r, seen r → em_fetched_at r <= em_fetched_at b
  | None => ∀ r, ¬ seen r
  end.
Proof.
  split; [vm_compute; reflexivity|].
  apply (metadata_point_in_time ["data"] "bithumb" "KRW-BTC" (20000 * microseconds_per_day + 5000000) example_disk).
  intros name t Hn Ht. exists 20000. split; [split; discriminate|].
  assert (child_names (metadata_root ["data"] "bithumb") example_disk = ["fetched_date=" +:+ isoformat 20000]) as Hc
    by (vm_compute; reflexivity).
  rewrite Hc in Hn. apply list_elem_of_singleton in Hn. rewrite Hn, date_text_dir in Ht. congruence.
Defined.
