(* ===== verification/MetadataHash.v ===== *)
(** * The content hash of exchange metadata ([metadata_storage.compute_data_hash])

    The text that is hashed, with its JSON escapes, and that it determines the
    record: two records of one text agree in every field.  SHA-256 is an
    argument. *)
From S2P Require Import Prelude PyDict PyDecimal NasKey Wal PyTime Ndjson DecimalText.
From S2P Require BatchWriters.
From Stdlib Require Import Ascii.
Import BatchWriters(ExchangeMetadataRecord, MkExchangeMetadataRecord, em_exchange, em_symbol, em_fetched_date, em_fetched_at,
  em_source_snapshot_id, em_data_hash, em_asset_status, em_acc_trade_value_24h, em_tick_size, em_min_order_qty,
  em_fee_maker, em_fee_taker, em_min_order_notional_krw).
Open Scope string_scope.
Open Scope list_scope.
Open Scope Z_scope.

(** ** The text *)

Definition optional (key : string) (v : option decimal) : list (string * string) :=
  match v with Some d => [(key, decimal_text d)] | None => [] end.

(** [non_null], in the order of [sort_keys=True] *)
Definition non_null (r : ExchangeMetadataRecord) : list (string * string) :=
  [("acc_trade_value_24h", decimal_text (em_acc_trade_value_24h r)); ("asset_status", em_asset_status r);
   ("exchange", em_exchange r)] ++
  optional "fee_maker" (em_fee_maker r) ++ optional "fee_taker" (em_fee_taker r) ++
  [("fetched_at", iso_time (em_fetched_at r)); ("fetched_date", isoformat (em_fetched_date r))] ++
  optional "min_order_notional_krw" (em_min_order_notional_krw r) ++ optional "min_order_qty" (em_min_order_qty r) ++
  [("source_snapshot_id", em_source_snapshot_id r); ("symbol", em_symbol r)] ++
  optional "tick_size" (em_tick_size r).

(** [json.dumps(non_null, sort_keys=True, separators=(",", ":"))], which
    escapes values as it escapes keys *)
Definition canonical (r : ExchangeMetadataRecord) : string :=
  "{" +:+ comma ((λ e, quoted (escape_key e.1) +:+ ":" +:+ quoted (escape_key e.2)) <$> non_null r) +:+ "}".

Section hash.
Context (sha256_hex : string → string).

(** [hexdigest()[:32]], [hexdigest()[:16]] *)
Definition compute_data_hash (r : ExchangeMetadataRecord) : string := String.substring 0 32 (sha256_hex (canonical r)).
Definition build_source_snapshot_id (endpoint response_hash : string) : string :=
  String.substring 0 16 (sha256_hex (endpoint +:+ "|" +:+ response_hash)).
End hash.

(** ** It determines the record *)

(** ASCII text everywhere, times in range *)
Definition plain (r : ExchangeMetadataRecord) : Prop :=
  key_ok (em_exchange r) = true ∧ key_ok (em_symbol r) = true ∧ key_ok (em_source_snapshot_id r) = true ∧
  key_ok (em_asset_status r) = true ∧ date_in_range (em_fetched_date r) ∧
  date_in_range (em_fetched_at r / 1000000 / 86400).

Definition as_dict (d : list (string * string)) : pyval := PDict ((λ e, (e.1, PStr e.2)) <$> d).

Lemma members_encode d :
  Forall (λ e, key_ok e.2 = true) d →
  encode (as_dict d) = Ok ("{" +:+ comma ((λ e, quoted (escape_key e.1) +:+ ":" +:+ quoted (escape_key e.2)) <$> d) +:+ "}").
Proof.
  intros Hok. unfold as_dict. cbn [encode].
  rewrite (proj2 (res_map_ok _ _ ((λ e, quoted (escape_key e.1) +:+ ":" +:+ quoted (escape_key e.2)) <$> d))); [done|].
  induction Hok as [|e d He Hd IH]; cbn [fmap list_fmap]; constructor; [|done].
  cbn [fst snd encode rbind]. by rewrite (escape_key_ok e.2).
Qed.

(** Equal texts come from equal pairs. *)
Lemma pairs_injective d d' t :
  json_ok (as_dict d) = true → json_ok (as_dict d') = true →
  encode (as_dict d) = Ok t → encode (as_dict d') = Ok t → d = d'.
Proof.
  intros Hok Hok' He He'.
  pose proof (all_read_back (as_dict d) t (2 * String.length t + 1)%nat "" Hok He ltac:(lia) I) as H.
  pose proof (all_read_back (as_dict d') t (2 * String.length t + 1)%nat "" Hok' He' ltac:(lia) I) as H'.
  rewrite H in H'. injection H' as H'. clear -H'. revert d' H'. induction d as [|[k v] d IH]; intros [|[k' v'] d']; try done.
  intros [= -> -> H]. f_equal. by apply IH.
Qed.

Lemma key_ok_app s t : key_ok (s +:+ t) = key_ok s && key_ok t.
Proof.
  induction s as [|c s IH]; [done|]. change (key_ok (String c (s +:+ t)) = (ord c <? 127) && key_ok s && key_ok t).
  cbn [key_ok]. by rewrite IH, andb_assoc.
Qed.

Lemma key_ok_pad k n : key_ok (pad k n) = true.
Proof.
  revert n. induction k as [|k IH]; intros n; [done|]. rewrite pad_cons. cbn [key_ok]. rewrite IH, andb_true_r.
  pose proof (Z.mod_pos_bound (n / 10 ^ Z.of_nat k) 10 ltac:(lia)). rewrite ord_digit by done. lia.
Qed.
Lemma key_ok_zeros n : key_ok (zeros n) = true.
Proof. by induction n. Qed.
Lemma key_ok_nat_text n : key_ok (nat_text n) = true.
Proof. apply key_ok_pad. Qed.
Lemma key_ok_int_text n : key_ok (int_text n) = true.
Proof. unfold int_text. destruct (n <? 0); rewrite ?key_ok_app, ?key_ok_nat_text; done. Qed.
#[local] Hint Rewrite key_ok_app key_ok_pad key_ok_zeros key_ok_nat_text key_ok_int_text : key_ok.
Ltac key_ok := repeat (first [done | progress autorewrite with key_ok | progress case_match]).

Lemma key_ok_decimal_text d : key_ok (decimal_text d) = true.
Proof. unfold decimal_text, format_f. key_ok. Qed.
Lemma key_ok_isoformat d : key_ok (isoformat d) = true.
Proof. unfold isoformat. destruct (civil d) as [[? ?] ?]. key_ok. Qed.
Lemma key_ok_iso_time us : key_ok (iso_time us) = true.
Proof. unfold iso_time. rewrite !key_ok_app, key_ok_isoformat. key_ok. Qed.

Lemma option_text_inj (a b : option decimal) : decimal_text <$> a = decimal_text <$> b → a = b.
Proof.
  assert (∀ x y, decimal_text x = decimal_text y → x = y) as Hinj.
  { intros x y He. pose proof (decimal_text_round_trip x) as Hx. rewrite He, decimal_text_round_trip in Hx. congruence. }
  destruct a, b; simpl; try done. intros [= ->%Hinj]. done.
Qed.

(** The fields of the pairs *)
Definition field (k : string) (d : list (string * string)) : option string := dget d k.

Lemma non_null_fields r :
  field "exchange" (non_null r) = Some (em_exchange r) ∧ field "symbol" (non_null r) = Some (em_symbol r) ∧
  field "fetched_date" (non_null r) = Some (isoformat (em_fetched_date r)) ∧
  field "fetched_at" (non_null r) = Some (iso_time (em_fetched_at r)) ∧
  field "source_snapshot_id" (non_null r) = Some (em_source_snapshot_id r) ∧
  field "asset_status" (non_null r) = Some (em_asset_status r) ∧
  field "acc_trade_value_24h" (non_null r) = Some (decimal_text (em_acc_trade_value_24h r)) ∧
  field "tick_size" (non_null r) = decimal_text <$> em_tick_size r ∧
  field "min_order_qty" (non_null r) = decimal_text <$> em_min_order_qty r ∧
  field "fee_maker" (non_null r) = decimal_text <$> em_fee_maker r ∧
  field "fee_taker" (non_null r) = decimal_text <$> em_fee_taker r ∧
  field "min_order_notional_krw" (non_null r) = decimal_text <$> em_min_order_notional_krw r.
Proof.
  unfold non_null, optional, field.
  split_and!; destruct r as [ex sy fd fa ss dh st ac [] [] [] [] []]; reflexivity.
Qed.

Lemma non_null_ok r : plain r → Forall (λ e, key_ok e.2 = true) (non_null r) ∧ json_ok (as_dict (non_null r)) = true.
Proof.
  intros (Hex&Hsy&Hss&Hst&_). unfold non_null, optional, as_dict. split.
  - repeat (apply Forall_app; split); repeat case_match; repeat constructor; cbn [snd];
      rewrite ?key_ok_decimal_text, ?key_ok_iso_time, ?key_ok_isoformat; done.
  - destruct (em_tick_size r), (em_min_order_qty r), (em_fee_maker r), (em_fee_taker r), (em_min_order_notional_krw r);
      vm_compute; reflexivity.
Qed.

Definition with_hash (hash : string) (r : ExchangeMetadataRecord) : ExchangeMetadataRecord :=
  MkExchangeMetadataRecord (em_exchange r) (em_symbol r) (em_fetched_date r) (em_fetched_at r) (em_source_snapshot_id r)
    hash (em_asset_status r) (em_acc_trade_value_24h r) (em_tick_size r) (em_min_order_qty r) (em_fee_maker r)
    (em_fee_taker r) (em_min_order_notional_krw r).

(** The hashed text determines the record: records with ASCII text and
    times in range that have one canonical text agree in every field but the
    hash itself, absent fields and the scale of decimals included. *)
Theorem canonical_determines (r r' : ExchangeMetadataRecord) :
  plain r → plain r' → canonical r = canonical r' → with_hash (em_data_hash r') r = r'.
Proof.
  intros Hp Hp' Heq. destruct (non_null_ok r Hp) as [Hk Hj], (non_null_ok r' Hp') as [Hk' Hj'].
  pose proof (members_encode _ Hk) as He. pose proof (members_encode _ Hk') as He'.
  assert (non_null r = non_null r') as Hn.
  { apply (pairs_injective _ _ (canonical r) Hj Hj'); [exact He|]. rewrite Heq. exact He'. }
  destruct (non_null_fields r) as (E1&E2&E3&E4&E5&E6&E7&E8&E9&E10&E11&E12).
  destruct (non_null_fields r') as (F1&F2&F3&F4&F5&F6&F7&F8&F9&F10&F11&F12).
  rewrite Hn in E1, E2, E3, E4, E5, E6, E7, E8, E9, E10, E11, E12.
  rewrite E1 in F1; rewrite E2 in F2; rewrite E3 in F3; rewrite E4 in F4; rewrite E5 in F5; rewrite E6 in F6;
    rewrite E7 in F7; rewrite E8 in F8; rewrite E9 in F9; rewrite E10 in F10; rewrite E11 in F11; rewrite E12 in F12.
  apply option_text_inj in F8, F9, F10, F11, F12.
  change (decimal_text <$> Some (em_acc_trade_value_24h r) = decimal_text <$> Some (em_acc_trade_value_24h r')) in F7.
  apply option_text_inj in F7.
  destruct Hp as (_&_&_&_&Hd&Ht), Hp' as (_&_&_&_&Hd'&Ht').
  apply (inj Some) in F1, F2, F3, F4, F5, F6.
  apply BatchWriters.isoformat_inj in F3; [|done..].
  pose proof (time_round_trip _ Ht) as T. rewrite F4, time_round_trip in T by done.
  destruct r, r'; simpl in *. unfold with_hash. simpl. congruence.
Qed.

Lemma canonical_determines_witness :
  let r := BatchWriters.example_metadata 20000 1 "a" "h1" in
  plain r ∧ with_hash "h2" r = with_hash "h2" (with_hash "h3" r).
Proof.
  assert (∀ h, plain (with_hash h (BatchWriters.example_metadata 20000 1 "a" "h1"))) as Hp.
  { intros h. repeat split; vm_compute; congruence. }
  split; [exact (Hp "h1")|].
  apply (canonical_determines (BatchWriters.example_metadata 20000 1 "a" "h1")
    (with_hash "h2" (with_hash "h3" (BatchWriters.example_metadata 20000 1 "a" "h1"))) (Hp "h1") (Hp "h2")).
  vm_compute. reflexivity.
Defined.

(** The text holds the time of the fetch, so a second fetch of unchanged data
    on the same day has the same key and another hash: the writer quarantines
    it as a conflict instead of skipping it.  (The hash here is the slice of
    the text that holds the time.) *)
Example refetch_is_quarantined :
  let sha256_hex := String.substring 62 32 in
  let hashed r := with_hash (compute_data_hash sha256_hex r) r in
  let first := hashed (BatchWriters.example_metadata 20000 1 "a" "") in
  let again := hashed (BatchWriters.example_metadata 20000 3601 "a" "") in
  BatchWriters.outcomes [] [first; again] = [BatchWriters.Written; BatchWriters.Quarantined].
Proof. vm_compute. reflexivity. Qed.
