(* ===== verification/Policy.v ===== *)
(** * Candle policies, cutoff and allowlists ([policy.py], [cutoff.py],
    [provenance.py], [allowlist.py], [schema.py])

    The checks of a fetched candle and the table of decisions, the month
    boundary that separates legacy from transaction-derived candles, and the
    channels each exchange may have.  Aware times are microseconds since the
    epoch; Prometheus counters are a state; SHA-256 is an argument. *)
From S2P Require Import Prelude PyDict PyDecimal NasKey Wal PyTime Ndjson DecimalText.
From Stdlib Require Import Ascii.
Open Scope py_scope.
Open Scope string_scope.
Open Scope list_scope.
Open Scope Z_scope.

(** ** Decisions ([policy.py]) *)

Inductive PartialFailurePolicy := PolicyHalt | PolicyQuarantine | PolicySkip.
Inductive QuarantineReason :=
| GAP | DUPLICATE_DIFFERENT_HASH | VALUE_OUT_OF_RANGE | SCHEMA_MISMATCH | VALUE_ABSENCE | ACTIVE_ACTIVE_MISMATCH.
Inductive PolicyDecision := HALT | SKIP | QUARANTINE.

#[export] Instance QuarantineReason_eq_dec : EqDecision QuarantineReason.
Proof. solve_decision. Defined.

(** [str(reason)] *)
Definition reason_text (r : QuarantineReason) : string :=
  match r with
  | GAP => "GAP" | DUPLICATE_DIFFERENT_HASH => "DUPLICATE_DIFFERENT_HASH" | VALUE_OUT_OF_RANGE => "VALUE_OUT_OF_RANGE"
  | SCHEMA_MISMATCH => "SCHEMA_MISMATCH" | VALUE_ABSENCE => "VALUE_ABSENCE"
  | ACTIVE_ACTIVE_MISMATCH => "ACTIVE_ACTIVE_MISMATCH"
  end.

(** [_DEFAULT_TRIGGER_TABLE] *)
Definition DEFAULT_TRIGGER_TABLE (r : QuarantineReason) : PolicyDecision :=
  match r with
  | GAP => HALT
  | DUPLICATE_DIFFERENT_HASH => QUARANTINE
  | VALUE_OUT_OF_RANGE => QUARANTINE
  | SCHEMA_MISMATCH => HALT
  | VALUE_ABSENCE => QUARANTINE
  | ACTIVE_ACTIVE_MISMATCH => QUARANTINE
  end.

Definition resolve_decision (reason : QuarantineReason) (cli_policy : PartialFailurePolicy) : PolicyDecision :=
  match cli_policy with
  | PolicyHalt => HALT
  | PolicyQuarantine => DEFAULT_TRIGGER_TABLE reason
  | PolicySkip => SKIP
  end.

(** ** Candles *)

(** [Timeframe] of the third-party package: value, text and period *)
Record Timeframe := MkTimeframe { tf_value : string; tf_str : string; tf_delta : Z }.

Record candle := Candle {
  cd_ts_utc : Z; cd_exchange : string; cd_symbol : string; cd_timeframe : Timeframe;
  cd_open : decimal; cd_high : decimal; cd_low : decimal; cd_close : decimal; cd_volume : decimal;
  cd_value : option decimal }.

(** A [CandleLike] as it comes: an attribute may be missing or [None]. *)
Record candle_like := CandleLike {
  cl_ts_utc : option Z; cl_exchange : option string; cl_symbol : option string; cl_timeframe : option Timeframe;
  cl_open : option decimal; cl_high : option decimal; cl_low : option decimal; cl_close : option decimal;
  cl_volume : option decimal; cl_value : option decimal }.

Definition complete (c : candle_like) : option candle :=
  match cl_ts_utc c, cl_exchange c, cl_symbol c, cl_timeframe c, cl_open c with
  | Some ts, Some ex, Some sy, Some tf, Some o =>
      match cl_high c, cl_low c, cl_close c, cl_volume c with
      | Some h, Some l, Some cl, Some v => Some (Candle ts ex sy tf o h l cl v (cl_value c))
      | _, _, _, _ => None
      end
  | _, _, _, _, _ => None
  end.

Definition of_candle (c : candle) : candle_like :=
  CandleLike (Some (cd_ts_utc c)) (Some (cd_exchange c)) (Some (cd_symbol c)) (Some (cd_timeframe c))
    (Some (cd_open c)) (Some (cd_high c)) (Some (cd_low c)) (Some (cd_close c)) (Some (cd_volume c)) (cd_value c).

(** [any of the required fields is None] *)
Definition is_none {A} (o : option A) : bool := match o with None => true | Some _ => false end.
Definition check_schema (c : candle_like) : option QuarantineReason :=
  if is_none (cl_ts_utc c) || is_none (cl_exchange c) || is_none (cl_symbol c) || is_none (cl_timeframe c) ||
     is_none (cl_open c) || is_none (cl_high c) || is_none (cl_low c) || is_none (cl_close c) || is_none (cl_volume c)
  then Some SCHEMA_MISMATCH else None.

Definition check_gap (prev_ts : option Z) (curr_ts : Z) (timeframe : Timeframe) : option QuarantineReason :=
  match prev_ts with
  | None => None
  | Some prev => if tf_delta timeframe <? curr_ts - prev then Some GAP else None
  end.

Inductive duplicate := DUPLICATE_SAME_HASH | DifferentHash.
Definition check_duplicate (existing_hash : option string) (incoming_hash : string) : option duplicate :=
  match existing_hash with
  | None => None
  | Some h => if String.eqb h incoming_hash then Some DUPLICATE_SAME_HASH else Some DifferentHash
  end.

Definition check_value_range (c : candle) : option QuarantineReason :=
  let zero := dint 0 in
  if existsb (λ p, dleb p zero) [cd_open c; cd_high c; cd_low c; cd_close c] then Some VALUE_OUT_OF_RANGE
  else if dltb (cd_volume c) zero then Some VALUE_OUT_OF_RANGE
  else if dltb (cd_high c) (cd_low c) then Some VALUE_OUT_OF_RANGE
  else if dltb (cd_high c) (cd_open c) || dltb (cd_high c) (cd_close c) then Some VALUE_OUT_OF_RANGE
  else if dltb (cd_open c) (cd_low c) || dltb (cd_close c) (cd_low c) then Some VALUE_OUT_OF_RANGE
  else None.

(** [candle_hash]: the digest of the payload *)
Definition candle_payload (c : candle) : string :=
  iso_time (cd_ts_utc c) +:+ "|" +:+ cd_exchange c +:+ "|" +:+ cd_symbol c +:+ "|" +:+ tf_str (cd_timeframe c) +:+ "|" +:+
  decimal_text (cd_open c) +:+ "|" +:+ decimal_text (cd_high c) +:+ "|" +:+ decimal_text (cd_low c) +:+ "|" +:+
  decimal_text (cd_close c) +:+ "|" +:+ decimal_text (cd_volume c) +:+ "|" +:+
  match cd_value c with Some v => decimal_text v | None => "None" end.
Definition candle_hash (sha256_hex : string → string) (c : candle) : string := sha256_hex (candle_payload c).

(** [OhlcvRow._check_ohlcv_invariants] ([schema.py]) *)
Definition check_ohlcv_invariants (c : candle) : res unit :=
  if dltb (cd_high c) (cd_low c) then Raise ValueError
  else if dltb (cd_open c) (cd_low c) || dltb (cd_high c) (cd_open c) then Raise ValueError
  else if dltb (cd_close c) (cd_low c) || dltb (cd_high c) (cd_close c) then Raise ValueError
  else if dltb (cd_volume c) (dint 0) then Raise ValueError
  else Ok tt.

(** ** The cutoff ([cutoff.py], [provenance.py]) *)

Inductive datetime := Aware (us : Z) | Naive (us : Z).

(** Does the text of a time carry an offset? *)
Definition naive_text (s : string) : bool :=
  match scan_date s with
  | Some (_, String _ s1) =>
      match scan_clock s1 with
      | Some (_, s2) => match scan_fraction s2 with Some (_, EmptyString) => true | _ => false end
      | None => false
      end
  | Some (_, EmptyString) => true
  | None => false
  end.
Definition parse_datetime (s : string) : res datetime :=
  let? us := fromisoformat s in Ok (if naive_text s then Naive us else Aware us).

(** [raw.replace("Z", "+00:00")] *)
Fixpoint replace_Z (s : string) : string :=
  match s with
  | EmptyString => ""
  | String c s' => if Ascii.eqb c "Z" then "+00:00" +:+ replace_Z s' else String c (replace_Z s')
  end.

Definition microseconds_per_day : Z := 86400 * 1000000.
Definition DEFAULT_CUTOFF_TIMESTAMP : Z := days_from_civil 2026 6 1 * microseconds_per_day.

(** [_validate_month_boundary] of an aware UTC time *)
Definition validate_month_boundary (ts : Z) : res unit :=
  let '(_, _, day) := civil (ts / microseconds_per_day) in
  if (day =? 1) && (ts mod microseconds_per_day =? 0) then Ok tt else Raise ValueError.

(** [resolve_cutoff]; the argument is [MCTRADER_CUTOFF_TIMESTAMP]. *)
Definition resolve_cutoff (env : option string) : res Z :=
  match env with
  | None => Ok DEFAULT_CUTOFF_TIMESTAMP
  | Some raw =>
      if String.eqb (strip_ws raw) "" then Ok DEFAULT_CUTOFF_TIMESTAMP
      else
        let? parsed := parse_datetime (replace_Z raw) in
        match parsed with
        | Naive _ => Raise ValueError
        | Aware us => let? _ := validate_month_boundary us in Ok us
        end
  end.

(** [cutoff] is the argument or the module's effective cutoff. *)
Definition is_pre_cutoff (ts : datetime) (cutoff : Z) : res bool :=
  match ts with Naive _ => Raise ValueError | Aware us => Ok (us <? cutoff) end.
Definition is_post_cutoff (ts : datetime) (cutoff : Z) : res bool :=
  match ts with Naive _ => Raise ValueError | Aware us => Ok (cutoff <=? us) end.

Definition PROVENANCE_LEGACY_CANDLE : string := "legacy_candle".
Definition PROVENANCE_TRANSACTION_DERIVED : string := "transaction_derived".
Definition assign_provenance (ts : datetime) (cutoff : Z) : res string :=
  let? pre := is_pre_cutoff ts cutoff in
  Ok (if pre then PROVENANCE_LEGACY_CANDLE else PROVENANCE_TRANSACTION_DERIVED).

(** ** Allowlists ([allowlist.py]) *)

Definition KNOWN_EXCHANGES : list string := ["bithumb"; "upbit"].
Definition KNOWN_CHANNELS : list string := ["transaction"; "orderbookdepth"; "orderbooksnapshot"].

(** (exchange, channel) *)
Definition COLLECTOR_ALLOWLIST : list (string * string) :=
  [("bithumb", "transaction"); ("bithumb", "orderbookdepth"); ("bithumb", "orderbooksnapshot");
   ("upbit", "transaction"); ("upbit", "orderbooksnapshot")].
(** (tier, exchange, channel) *)
Definition COMPACTOR_ALLOWLIST : list (string * string * string) :=
  [("L1", "bithumb", "transaction"); ("L1", "bithumb", "orderbookdepth"); ("L1", "bithumb", "orderbooksnapshot");
   ("L1", "upbit", "transaction"); ("L1", "upbit", "orderbooksnapshot");
   ("L2", "bithumb", "transaction"); ("L2", "bithumb", "orderbookdepth"); ("L2", "bithumb", "orderbooksnapshot");
   ("L2", "upbit", "transaction"); ("L2", "upbit", "orderbooksnapshot");
   ("L3", "bithumb", "transaction"); ("L3", "bithumb", "orderbookdepth"); ("L3", "bithumb", "orderbooksnapshot");
   ("L3", "upbit", "transaction"); ("L3", "upbit", "orderbooksnapshot")].

(** The two counters *)
Record counters := Counters {
  collector_unsupported : gmap (string * string) Z; compactor_unsupported : gmap (string * string * string) Z }.

Definition bump {K} `{Countable K} (k : K) (m : gmap K Z) : gmap K Z := <[k := default 0 (m !! k) + 1]> m.

Definition validate_channel_exchange (channel exchange : string) : proc counters unit := λ s,
  if decide (exchange ∈ KNOWN_EXCHANGES) then
    if decide (channel ∈ KNOWN_CHANNELS) then
      if decide ((exchange, channel) ∈ COLLECTOR_ALLOWLIST) then (s, Ok tt)
      else (Counters (bump (exchange, channel) (collector_unsupported s)) (compactor_unsupported s), Raise ValueError)
    else (s, Raise ValueError)
  else (s, Raise ValueError).

Definition validate_compactor_source (tier channel exchange : string) : proc counters unit := λ s,
  if decide ((tier, exchange, channel) ∈ COMPACTOR_ALLOWLIST) then (s, Ok tt)
  else (Counters (collector_unsupported s) (bump (tier, exchange, channel) (compactor_unsupported s)), Raise ValueError).

(** ** Properties *)

Lemma check_schema_complete c : check_schema c = None ↔ ∃ d, complete c = Some d.
Proof.
  unfold check_schema, complete.
  destruct (cl_ts_utc c), (cl_exchange c), (cl_symbol c), (cl_timeframe c), (cl_open c), (cl_high c), (cl_low c),
    (cl_close c), (cl_volume c); simpl; naive_solver.
Qed.

Lemma complete_of_candle c : complete (of_candle c) = Some c.
Proof. by destruct c. Qed.

(** What the range check accepts *)
Definition in_range (c : candle) : Prop :=
  dltb (dint 0) (cd_low c) = true ∧ dleb (cd_low c) (cd_open c) = true ∧ dleb (cd_open c) (cd_high c) = true ∧
  dleb (cd_low c) (cd_close c) = true ∧ dleb (cd_close c) (cd_high c) = true ∧ dleb (dint 0) (cd_volume c) = true.

Lemma dlt_le_trans a b c : dltb a b = true → dleb b c = true → dltb a c = true.
Proof.
  rewrite !dltb_negb. intros Hab Hbc. destruct (dleb c a) eqn:Hca; [|done].
  rewrite (dleb_trans b c a Hbc Hca) in Hab. done.
Qed.

Lemma dltb_false a b : dltb a b = false ↔ dleb b a = true.
Proof. rewrite dltb_negb. destruct (dleb b a); done. Qed.

Lemma check_value_range_spec c : check_value_range c = None ↔ in_range c.
Proof.
  unfold check_value_range, in_range. cbn [existsb]. rewrite orb_false_r.
  assert (∀ p, dleb p (dint 0) = negb (dltb (dint 0) p)) as Hpos by (intros p; rewrite dltb_negb; by destruct (dleb p _)).
  rewrite !Hpos. split.
  - destruct (_ || _) eqn:H1; [done|]. destruct (dltb (cd_volume c) _) eqn:H2; [done|].
    destruct (dltb (cd_high c) (cd_low c)) eqn:H3; [done|].
    destruct (dltb (cd_high c) (cd_open c) || _) eqn:H4; [done|]. destruct (dltb (cd_open c) (cd_low c) || _) eqn:H5; [done|].
    intros _. apply orb_false_iff in H4 as [? ?], H5 as [? ?]. rewrite dltb_false in *.
    repeat (apply orb_false_iff in H1 as [? H1]). rewrite !negb_false_iff in *. auto 10.
  - intros (Hl&Hlo&Hoh&Hlc&Hch&Hv). pose proof (dlt_le_trans _ _ _ Hl Hlo) as Ho. pose proof (dlt_le_trans _ _ _ Ho Hoh) as Hh.
    pose proof (dlt_le_trans _ _ _ Hl Hlc) as Hc. rewrite Ho, Hh, Hl, Hc. simpl.
    pose proof (dleb_trans _ _ _ Hlo Hoh) as Hlh. rewrite <- dltb_false in *. rewrite Hv, Hlh, Hoh, Hch, Hlo, Hlc. done.
Qed.

(** The range check and the row model agree: the check passes exactly
    the candles that the canonical row accepts and whose low is positive; it
    accepts a volume of zero. *)
Theorem range_check_equals_row_model (c : candle) :
  check_value_range c = None ↔ check_ohlcv_invariants c = Ok tt ∧ dltb (dint 0) (cd_low c) = true.
Proof.
  rewrite check_value_range_spec. unfold in_range, check_ohlcv_invariants. split.
  - intros (Hl&Hlo&Hoh&Hlc&Hch&Hv). pose proof (dleb_trans _ _ _ Hlo Hoh) as Hlh. rewrite <- dltb_false in *.
    rewrite Hlh, Hlo, Hoh, Hlc, Hch, Hv. done.
  - intros [H Hl]. destruct (dltb (cd_high c) (cd_low c)) eqn:H3; [done|].
    destruct (dltb (cd_open c) (cd_low c) || _) eqn:H4; [done|]. destruct (dltb (cd_close c) (cd_low c) || _) eqn:H5; [done|].
    destruct (dltb (cd_volume c) _) eqn:H6; [done|].
    apply orb_false_iff in H4 as [? ?], H5 as [? ?]. rewrite dltb_false in *. auto 10.
Qed.

(** The zero-volume candle passes although the documentation asks for a
    positive volume. *)
Example zero_volume_passes :
  check_value_range (Candle 0 "upbit" "KRW-BTC" (MkTimeframe "1h" "1h" 3600000000) (dint 1) (dint 1) (dint 1) (dint 1) (dint 0) None)
  = None.
Proof. reflexivity. Qed.

(** A step back or no step is no gap, although [None] is documented for a step
    of exactly one period. *)
Lemma backward_step_is_no_gap prev curr tf : 0 < tf_delta tf → curr <= prev → check_gap (Some prev) curr tf = None.
Proof. intros. unfold check_gap. by destruct (Z.ltb_spec (tf_delta tf) (curr - prev)); [lia|]. Qed.

(** A gap halts under [quarantine] too, which the documentation resolves to
    [QUARANTINE]. *)
Example gap_halts_under_quarantine : resolve_decision GAP PolicyQuarantine = HALT.
Proof. reflexivity. Qed.

(** *** The cutoff *)

Definition is_month_boundary (ts : Z) : Prop := ∃ y m, ts = days_from_civil y m 1 * microseconds_per_day ∧ 1 <= m <= 12.

Lemma validate_month_boundary_spec ts : validate_month_boundary ts = Ok tt → is_month_boundary ts.
Proof.
  unfold validate_month_boundary. pose proof (civil_spec (ts / microseconds_per_day)) as Hc.
  destruct (civil (ts / microseconds_per_day)) as [[y m] d]. destruct Hc as (Hd&Hm&_).
  destruct (Z.eqb_spec d 1) as [->|]; simpl; [|done]. destruct (Z.eqb_spec (ts mod microseconds_per_day) 0); [|done].
  intros _. exists y, m. split; [|done]. rewrite Hd.
  pose proof (Z.div_mod ts microseconds_per_day ltac:(done)). lia.
Qed.

(** The day number of a valid date is its own. *)
Lemma civil_of_days y m d : 1 <= m <= 12 → 1 <= d <= days_in_month y m → civil (days_from_civil y m d) = (y, m, d).
Proof.
  intros Hm Hd. set (z := days_from_civil y m d). pose proof (civil_spec z) as Hs.
  destruct (civil z) as [[y' m'] d'] eqn:Ec. destruct Hs as (Hz&Hm'&Hd').
  unfold z in Hz. rewrite !days_from_civil_month in Hz by done.
  pose proof (month_fits y m Hm). pose proof (month_fits y' m' Hm').
  destruct (Z.lt_trichotomy (month_index y m) (month_index y' m')) as [Hl|[He|Hg]].
  - pose proof (month_start_mono (month_index y m + 1) (month_index y' m') ltac:(lia)). lia.
  - rewrite He in Hz. unfold month_index in He. assert (m' = m ∧ y' = y) as [-> ->] by lia. do 2 f_equal. lia.
  - pose proof (month_start_mono (month_index y' m' + 1) (month_index y m) ltac:(lia)). lia.
Qed.

Lemma one_le_days_in_month y m : 1 <= days_in_month y m.
Proof. unfold days_in_month. destruct (m =? 2); [destruct (leap y); lia|]. destruct (existsb _ _); lia. Qed.

Lemma month_boundary_valid ts : is_month_boundary ts → validate_month_boundary ts = Ok tt.
Proof.
  intros (y&m&->&Hm). unfold validate_month_boundary. rewrite Z.div_mul by done.
  rewrite civil_of_days by (pose proof (one_le_days_in_month y m); lia). rewrite Z.mod_mul by done. done.
Qed.

Fixpoint no_Z (s : string) : bool := match s with EmptyString => true | String c s' => negb (Ascii.eqb c "Z") && no_Z s' end.

Lemma replace_Z_id s : no_Z s = true → replace_Z s = s.
Proof. induction s as [|c s IH]; simpl; [done|]. intros [Hc Hs]%andb_true_iff. apply negb_true_iff in Hc. by rewrite Hc, IH. Qed.

Lemma no_Z_app s t : no_Z (s +:+ t) = no_Z s && no_Z t.
Proof.
  induction s as [|c s IH]; [done|]. change (no_Z (String c (s +:+ t)) = negb (Ascii.eqb c "Z") && no_Z s && no_Z t).
  cbn [no_Z]. by rewrite IH, andb_assoc.
Qed.

Lemma no_Z_pad k n : no_Z (pad k n) = true.
Proof.
  revert n. induction k as [|k IH]; intros n; [done|]. rewrite pad_cons. cbn [no_Z]. rewrite IH, andb_true_r.
  pose proof (Z.mod_pos_bound (n / 10 ^ Z.of_nat k) 10 ltac:(lia)) as Hb.
  destruct (Ascii.eqb_spec (ascii_of_nat (48 + Z.to_nat (n / 10 ^ Z.of_nat k mod 10))) "Z") as [He|]; [|done].
  apply (f_equal ord) in He. rewrite ord_digit in He by done. change (ord "Z") with 90 in He. lia.
Qed.

Lemma replace_Z_app s t : no_Z s = true → replace_Z (s +:+ t) = s +:+ replace_Z t.
Proof.
  induction s as [|c s IH]; [done|]. cbn [no_Z]. intros [Hc Hs]%andb_true_iff. apply negb_true_iff in Hc.
  change (replace_Z (String c (s +:+ t)) = String c (s +:+ replace_Z t)). cbn [replace_Z]. by rewrite Hc, IH.
Qed.

Lemma no_Z_isoformat d : no_Z (isoformat d) = true.
Proof. unfold isoformat. destruct (civil d) as [[? ?] ?]. by rewrite !no_Z_app, !no_Z_pad. Qed.

(** The text of a midnight, with the suffix the runbook uses *)
Definition midnight_text (day : Z) : string := isoformat day +:+ "T00:00:00Z".

Lemma isoformat_head d : ∃ c s, isoformat d = String c s ∧ is_digit c = true.
Proof.
  unfold isoformat. destruct (civil d) as [[y m] dd]. rewrite (pad_cons 3). eexists _, _. split; [reflexivity|].
  apply digit_char, Z.mod_pos_bound. lia.
Qed.

Lemma midnight_not_blank day : String.eqb (strip_ws (midnight_text day)) "" = false.
Proof.
  unfold midnight_text. apply String.eqb_neq. intros He.
  assert (all_chars (λ c, negb (is_space c)) (isoformat day +:+ "T00:00:00Z") = true) as Hc.
  { rewrite all_chars_app. apply andb_true_iff. split; [|done]. unfold isoformat. destruct (civil day) as [[? ?] ?].
    rewrite !all_chars_app, !all_chars_pad; [done|..]; intros c; destruct c as [[] [] [] [] [] [] [] []]; done. }
  rewrite strip_ws_id in He by done. destruct (isoformat_head day) as (c&s&Hs&_). rewrite Hs in He. done.
Qed.

Lemma midnight_parses day : date_in_range day →
  parse_datetime (isoformat day +:+ "T00:00:00+00:00") = Ok (Aware (day * microseconds_per_day)).
Proof.
  intros Hd. unfold parse_datetime, fromisoformat, naive_text. rewrite scan_date_isoformat by done.
  change (scan_clock "00:00:00+00:00") with (Some (0, "+00:00")). cbn [rbind].
  change (scan_fraction "+00:00") with (Some (0, "+00:00")). cbv iota beta.
  change (scan_offset "+00:00") with (Some 0). cbn [rbind]. do 2 f_equal. unfold microseconds_per_day. lia.
Qed.

(** The cutoff is always a month boundary: whatever the environment
    holds, [resolve_cutoff] returns the first of a month at midnight UTC or
    raises, and it accepts the text of every such midnight and returns just
    that time. *)
Theorem cutoff_is_month_boundary :
  (∀ env ts, resolve_cutoff env = Ok ts → is_month_boundary ts) ∧
  (∀ y m, 1 <= m <= 12 → date_in_range (days_from_civil y m 1) →
     resolve_cutoff (Some (midnight_text (days_from_civil y m 1))) = Ok (days_from_civil y m 1 * microseconds_per_day)).
Proof.
  split.
  - assert (is_month_boundary DEFAULT_CUTOFF_TIMESTAMP) as Hdef by (exists 2026, 6; split; [done|lia]).
    intros [raw|] ts; simpl; [|by intros [= <-]]. destruct (String.eqb _ ""); [by intros [= <-]|].
    unfold rbind. destruct (parse_datetime _) as [[us|us]|]; try done.
    destruct (validate_month_boundary us) as [[]|] eqn:Hv; [|done]. intros [= <-]. by apply validate_month_boundary_spec.
  - intros y m Hm Hd. unfold resolve_cutoff. rewrite midnight_not_blank. unfold midnight_text.
    rewrite replace_Z_app by apply no_Z_isoformat. change (replace_Z "T00:00:00Z") with "T00:00:00+00:00".
    rewrite midnight_parses by done. simpl. rewrite month_boundary_valid; [done|]. by exists y, m.
Qed.

Lemma cutoff_is_month_boundary_witness :
  resolve_cutoff (Some "2026-06-01T00:00:00Z") = Ok DEFAULT_CUTOFF_TIMESTAMP.
Proof.
  destruct cutoff_is_month_boundary as [_ H].
  exact (H 2026 6 ltac:(split; discriminate) ltac:(split; discriminate)).
Defined.

(** Provenance splits the aware times at the cutoff. *)
Lemma provenance_split us cutoff :
  assign_provenance (Aware us) cutoff =
    Ok (if us <? cutoff then PROVENANCE_LEGACY_CANDLE else PROVENANCE_TRANSACTION_DERIVED) ∧
  is_post_cutoff (Aware us) cutoff = Ok (negb (us <? cutoff)).
Proof. split; [done|]. simpl. f_equal. by rewrite Z.leb_antisym. Qed.

(** *** Allowlists *)

(** The allowlists fail closed and agree: the collector accepts exactly
    the listed pairs and the compactor exactly the same pairs at each of the
    three tiers; a refusal always raises, a refused pair of known names and
    every refused source is counted once, and nothing else is counted. *)
Theorem allowlists_fail_closed (channel exchange tier : string) (s : counters) :
  let collector := validate_channel_exchange channel exchange s in
  let compactor := validate_compactor_source tier channel exchange s in
  (collector.2 = Ok tt ↔ (exchange, channel) ∈ COLLECTOR_ALLOWLIST) ∧
  (compactor.2 = Ok tt ↔ tier ∈ ["L1"; "L2"; "L3"] ∧ (exchange, channel) ∈ COLLECTOR_ALLOWLIST) ∧
  (collector.2 = Ok tt ∨ collector.2 = Raise ValueError) ∧ (compactor.2 = Ok tt ∨ compactor.2 = Raise ValueError) ∧
  collector_unsupported collector.1 =
    (if decide (exchange ∈ KNOWN_EXCHANGES ∧ channel ∈ KNOWN_CHANNELS ∧ (exchange, channel) ∉ COLLECTOR_ALLOWLIST)
     then bump (exchange, channel) (collector_unsupported s) else collector_unsupported s) ∧
  compactor_unsupported compactor.1 =
    (if decide ((tier, exchange, channel) ∈ COMPACTOR_ALLOWLIST) then compactor_unsupported s
     else bump (tier, exchange, channel) (compactor_unsupported s)).
Proof.
  assert ((exchange, channel) ∈ COLLECTOR_ALLOWLIST → exchange ∈ KNOWN_EXCHANGES ∧ channel ∈ KNOWN_CHANNELS) as Hknown.
  { unfold COLLECTOR_ALLOWLIST, KNOWN_EXCHANGES, KNOWN_CHANNELS. set_solver. }
  assert ((tier, exchange, channel) ∈ COMPACTOR_ALLOWLIST ↔
    tier ∈ ["L1"; "L2"; "L3"] ∧ (exchange, channel) ∈ COLLECTOR_ALLOWLIST) as Htiers.
  { unfold COMPACTOR_ALLOWLIST, COLLECTOR_ALLOWLIST. set_solver. }
  unfold validate_channel_exchange, validate_compactor_source. cbv zeta. rewrite <- Htiers.
  clear Htiers. split; [|split; [|split; [|split; [|split]]]].
  - destruct (decide (exchange ∈ _)); [|simpl; naive_solver]. destruct (decide (channel ∈ _)); [|simpl; naive_solver].
    destruct (decide _); simpl; naive_solver.
  - destruct (decide _); simpl; naive_solver.
  - repeat case_decide; simpl; auto.
  - repeat case_decide; simpl; auto.
  - destruct (decide (exchange ∈ _)); [|rewrite decide_False by tauto; done].
    destruct (decide (channel ∈ _)); [|rewrite decide_False by tauto; done].
    destruct (decide ((exchange, channel) ∈ _)); simpl; [rewrite decide_False by tauto|rewrite decide_True by tauto]; done.
  - destruct (decide _); done.
Qed.
