(* ===== verification/CandleStore.v ===== *)
(** * The candle store ([storage.py], [path.py], [paper_storage.py])

    The partition of a batch, the writer with its check for a batch that is
    already there and its rename, and the scan with its globs, node detection
    and deduplication.  pyarrow and DuckDB are arguments: the conversion of a
    decimal to [decimal128(38,18)], Parquet files ([Parquet]), and the query
    over a list of globs ([duckdb_scan], with [ScanLaws] for what it answers);
    so is SHA-256.  Symbols and time frames are their texts.  Directories, the
    temporary file and the sidecars are not modelled: a write either replaces
    the file or leaves the disk as it was. *)
From S2P Require Import Prelude PyDict PyDecimal NasKey Wal PyTime DecimalText Parquet Dedup BatchWriters Policy.
Open Scope py_scope.
Open Scope string_scope.
Open Scope list_scope.
Open Scope Z_scope.

(** ** Partitions ([path.py]) *)

Definition SCHEMA_VERSION : string := "ohlcv.v1".
Inductive Mode := Historical | Paper.
Definition mode_text (m : Mode) : string := match m with Historical => "historical" | Paper => "paper" end.

Definition schema_root (root : path) : path := root ++ ["market"; "ohlcv"; "schema_version=" +:+ SCHEMA_VERSION].

Definition derive_partition_path (root : path) (exchange symbol timeframe : string) (ts_utc : Z)
    (mode : option Mode) (node_id : option string) : path :=
  let '(y, m, d) := civil (utc_day ts_utc) in
  schema_root root ++
  match mode with Some m => ["mode=" +:+ mode_text m] | None => [] end ++
  ["exchange=" +:+ exchange; "symbol=" +:+ symbol; "timeframe=" +:+ timeframe;
   "year=" +:+ pad 4 y; "month=" +:+ pad 2 m; "date=" +:+ pad 2 d] ++
  match node_id with Some n => ["node=" +:+ n] | None => [] end.

(** ** Rows *)

(** The sixteen columns *)
Record ohlcv_row := OhlcvRow {
  r_ts_utc : Z; r_exchange : string; r_symbol : string; r_timeframe : string;
  r_open : decimal; r_high : decimal; r_low : decimal; r_close : decimal; r_volume : decimal; r_value : option decimal;
  r_trade_count : option Z; r_is_complete : bool; r_schema_version : string; r_source_ingested_at : Z;
  r_data_snapshot_id : option string; r_data_hash : string }.

Section store.
Context (sha256_hex : string → string).
(** What a [decimal128(38,18)] column keeps of a decimal, [None] where it
    refuses it *)
Context (arrow_decimal : decimal → option decimal).

Definition cell (x : decimal) : res decimal := match arrow_decimal x with Some y => Ok y | None => Raise ArrowInvalid end.

Definition data_hash_payload (c : candle) : string :=
  iso_time (cd_ts_utc c) +:+ "|" +:+ decimal_text (cd_open c) +:+ "|" +:+ decimal_text (cd_high c) +:+ "|" +:+
  decimal_text (cd_low c) +:+ "|" +:+ decimal_text (cd_close c) +:+ "|" +:+ decimal_text (cd_volume c).
Definition compute_data_hash (c : candle) : string := sha256_hex (data_hash_payload c).

(** One row of [_candles_to_arrow] *)
Definition candle_row (snapshot_id : option string) (ingested_at : Z) (c : candle) : res ohlcv_row :=
  let? o := cell (cd_open c) in
  let? h := cell (cd_high c) in
  let? l := cell (cd_low c) in
  let? cl := cell (cd_close c) in
  let? v := cell (cd_volume c) in
  let? value := match cd_value c with Some x => let? y := cell x in Ok (Some y) | None => Ok None end in
  Ok (OhlcvRow (cd_ts_utc c) (cd_exchange c) (cd_symbol c) (tf_value (cd_timeframe c)) o h l cl v value
        None true SCHEMA_VERSION ingested_at snapshot_id (compute_data_hash c)).

Fixpoint candles_to_arrow (snapshot_id : option string) (ingested_at : Z) (candles : list candle) : res (list ohlcv_row) :=
  match candles with
  | [] => Ok []
  | c :: cs => let? r := candle_row snapshot_id ingested_at c in
               let? rs := candles_to_arrow snapshot_id ingested_at cs in Ok (r :: rs)
  end.

Context `{Parquet ohlcv_row}.

(** ** Writing *)

Record write_args := WriteArgs {
  wa_root : path; wa_snapshot_id : string; wa_mode : option Mode; wa_node_id : option string;
  wa_collector_run_id : option string; wa_batch_seq : option Z }.

Definition partition_of_batch (a : write_args) (head : candle) : path :=
  derive_partition_path (wa_root a) (cd_exchange head) (cd_symbol head) (tf_value (cd_timeframe head)) (cd_ts_utc head)
    (wa_mode a) (wa_node_id a).
Definition batch_file_name (a : write_args) : string :=
  match wa_collector_run_id a, wa_batch_seq a with
  | Some run, Some seq => run +:+ "-" +:+ pretty.pretty seq +:+ ".parquet"
  | _, _ => "part-" +:+ wa_snapshot_id a +:+ ".parquet"
  end.
Definition target_of_batch (a : write_args) (head : candle) : path := partition_of_batch a head ++ [batch_file_name a].

(** [existing_hashes == new_hashes], as sets; an unreadable file has none. *)
Definition same_hashes (d : disk) (target : path) (rows : list ohlcv_row) : bool :=
  match d !! target with
  | None => false
  | Some b =>
      match pq_rows b with
      | Ok old => bool_decide (list_to_set (r_data_hash <$> old) =@{gset string} list_to_set (r_data_hash <$> rows))
      | Raise _ => false
      end
  end.

(** [write_candles]; [now] is the clock, [written] whether the temporary file
    could be written and renamed. *)
Definition write_candles (candles : list candle) (a : write_args) (now : Z) (written : res unit) : proc disk path := λ d,
  match candles with
  | [] => (d, Raise ValueError)
  | head :: _ =>
      match candles_to_arrow (Some (wa_snapshot_id a)) now candles with
      | Raise e => (d, Raise e)
      | Ok rows =>
          let target := target_of_batch a head in
          if same_hashes d target rows then (d, Ok (partition_of_batch a head))
          else match written with
               | Raise e => (d, Raise e)
               | Ok _ => (<[target := pq_write "ohlcv" rows]> d, Ok (partition_of_batch a head))
               end
      end
  end.

(** [paper_storage.write_paper_candles] after its checks of the lineage;
    neither a snapshot id nor a temporary file is used for the rows. *)
Definition write_paper_candles (candles : list candle) (root : path) (run_id snapshot_id : string)
    (lineage_run_id lineage_snapshot_id : string) (now : Z) : proc disk path := λ d,
  match candles with
  | [] => (d, Raise ValueError)
  | head :: _ =>
      if negb (String.eqb lineage_run_id run_id) then (d, Raise ValueError)
      else if negb (String.eqb lineage_snapshot_id snapshot_id) then (d, Raise ValueError)
      else
        let partition := derive_partition_path root (cd_exchange head) (cd_symbol head) (tf_value (cd_timeframe head))
                           (cd_ts_utc head) (Some Paper) None in
        match candles_to_arrow None now candles with
        | Raise e => (d, Raise e)
        | Ok rows => (<[partition ++ ["part-" +:+ snapshot_id +:+ ".parquet"] := pq_write "ohlcv" rows]> d, Ok partition)
        end
  end.

(** ** Scanning *)

(** [base.exists()]: something lies below *)
Definition dir_exists (dir : path) (d : disk) : bool :=
  existsb (λ p, match below dir p with Some _ => true | None => false end) (map_to_list d).*1.

(** The directories whose [**/*.parquet] a query reads; the globs are a set,
    sorted. *)
Definition scan_bases (root : path) (modes : list Mode) : list path :=
  concat ((λ m, match m with
                | Historical => [schema_root root; schema_root root ++ ["mode=historical"]]
                | Paper => [schema_root root ++ ["mode=paper"]]
                end) <$> modes).
Definition glob_dir (exchange symbol timeframe : string) (base : path) : path :=
  base ++ ["exchange=" +:+ exchange; "symbol=" +:+ symbol; "timeframe=" +:+ timeframe].
Definition resolve_scan_paths (root : path) (exchange symbol timeframe : string) (modes : list Mode) (d : disk) : list path :=
  sort_le path_leb (remove_dups (glob_dir exchange symbol timeframe <$>
    filter (λ base, dir_exists base d) (scan_bases root modes))).

(** The query: rows with their files, in [[start, end)], by time *)
Context (duckdb_scan : disk → list path → Z → Z → res (list (ohlcv_row * path))).

(** [node_re.search(filename)]: a directory named [node=...] *)
Definition node_name (part : string) : option string :=
  if String.prefix "node=" part && (5 <? String.length part)%nat
  then Some (String.substring 5 (String.length part - 5) part) else None.
Definition extract_node_id (file : path) : string :=
  match head (omap node_name (removelast file)) with Some n => n | None => NODE_PRIORITY_DEFAULT_SENTINEL end.

(** The wrapped row; it is received when it happened. *)
Definition wrap (rf : ohlcv_row * path) : Dedup.candle :=
  let r := rf.1 in
  Dedup.Candle (r_exchange r) (r_symbol r) (r_timeframe r) (r_ts_utc r) (r_open r) (r_high r) (r_low r) (r_close r)
    (r_volume r) (r_value r) (Some (r_ts_utc r)) (Some (extract_node_id rf.2)).

Definition scan_candles (root : path) (exchange symbol timeframe : string) (start end_ : Z) (modes : list Mode) (d : disk)
  : res (list Dedup.candle) :=
  match resolve_scan_paths root exchange symbol timeframe modes d with
  | [] => Ok []
  | globs =>
      let? rows := duckdb_scan d globs start end_ in
      let wrapped := wrap <$> rows in
      if (2 <=? length (remove_dups (c_node_id <$> wrapped)))%nat
      then Ok (emitted (deduplicate_candles wrapped true false))
      else Ok (sorted_by c_ts_utc wrapped)
  end.

End store.

(** ** What DuckDB answers *)

Definition in_window (start end_ : Z) (rf : ohlcv_row * path) : bool :=
  (start <=? r_ts_utc rf.1) && (r_ts_utc rf.1 <? end_).
Definition file_rows `{Parquet ohlcv_row} (d : disk) (file : path) : res (list ohlcv_row) :=
  match d !! file with Some b => pq_rows b | None => Raise FileNotFoundError end.
(** The rows of the files a list of globs stands for, with their files *)
Definition stored_rows `{Parquet ohlcv_row} (d : disk) (globs : list path) : list (ohlcv_row * path) :=
  concat ((λ file, match file_rows d file with Ok rows => (λ r, (r, file)) <$> rows | Raise _ => [] end) <$>
          concat ((λ g, parquet_files g d) <$> globs)).

(** The documented behaviour of [read_parquet] over globs: an error where one
    of them has no file, else the rows in the window, in order of time. *)
Class ScanLaws `{Parquet ohlcv_row} (duckdb_scan : disk → list path → Z → Z → res (list (ohlcv_row * path))) := {
  scan_no_file d globs start end_ g : g ∈ globs → parquet_files g d = [] → ∃ e, duckdb_scan d globs start end_ = Raise e;
  scan_readable d globs start end_ : globs ≠ [] →
    (∀ g, g ∈ globs → parquet_files g d ≠ [] ∧ ∀ f, f ∈ parquet_files g d → ∃ rows, file_rows d f = Ok rows) →
    ∃ rows, duckdb_scan d globs start end_ = Ok rows;
  scan_rows d globs start end_ rows : duckdb_scan d globs start end_ = Ok rows →
    rows ≡ₚ List.filter (in_window start end_) (stored_rows d globs) ∧
    StronglySorted (λ a b, r_ts_utc a.1 <= r_ts_utc b.1) rows }.

(** A scan that does as it is documented *)
Definition is_ok {A} (r : res A) : bool := match r with Ok _ => true | Raise _ => false end.
Definition plain_scan `{Parquet ohlcv_row} (d : disk) (globs : list path) (start end_ : Z) : res (list (ohlcv_row * path)) :=
  if existsb (λ g, match parquet_files g d with [] => true | _ => false end) globs then Raise (OtherException "IOException")
  else if forallb (λ f, is_ok (file_rows d f)) (concat ((λ g, parquet_files g d) <$> globs))
  then Ok (sorted_by (λ rf, r_ts_utc rf.1) (List.filter (in_window start end_) (stored_rows d globs)))
  else Raise (OtherException "InvalidInputException").

#[export] Instance plain_scan_laws `{Parquet ohlcv_row} : ScanLaws plain_scan.
Proof.
  split.
  - intros d globs start end_ g Hg Hnone. unfold plain_scan.
    rewrite (proj2 (existsb_exists _ _)); [eauto|]. exists g. rewrite Hnone. split; [by apply list_elem_of_In|done].
  - intros d globs start end_ _ Hg. unfold plain_scan.
    destruct (existsb _ _) eqn:He.
    { apply existsb_exists in He as (g&Hgg%list_elem_of_In&Hnil). destruct (Hg g Hgg) as [Hne _].
      by destruct (parquet_files g d). }
    rewrite (proj2 (forallb_forall _ _)); [eauto|]. intros f (fs&Hfs&Hf)%List.in_concat.
    apply list_elem_of_In, list_elem_of_fmap in Hfs as (g&->&Hgg).
    destruct (Hg g Hgg) as [_ Hr]. destruct (Hr f) as [rows ->]; [by apply list_elem_of_In|done].
  - intros d globs start end_ rows. unfold plain_scan. destruct (existsb _ _); [done|]. destruct (forallb _ _); [|done].
    intros [= <-]. split; [apply sorted_by_perm|apply sorted_by_sorted].
Qed.

(** ** Lemmas *)

Lemma few_dups `{EqDecision A} (l : list A) : (length (remove_dups l) < 2)%nat ↔ ∀ x y, x ∈ l → y ∈ l → x = y.
Proof.
  split.
  - intros Hl x y Hx%elem_of_remove_dups Hy%elem_of_remove_dups.
    destruct (remove_dups l) as [|u [|? ?]]; simpl in Hl; [by apply not_elem_of_nil in Hx| |lia].
    apply list_elem_of_singleton in Hx, Hy. congruence.
  - intros Hall. pose proof (NoDup_remove_dups l) as Hnd.
    destruct (remove_dups l) as [|u [|v r]] eqn:Hr; simpl; [lia..|].
    apply NoDup_cons in Hnd as [Hu _]. destruct Hu.
    rewrite (Hall u v); [left|..]; apply elem_of_remove_dups; rewrite Hr; set_solver.
Qed.

(** A list sorted by distinct keys is determined by its elements. *)
Lemma sorted_key_unique {A} (f : A → Z) (l1 l2 : list A) :
  l1 ≡ₚ l2 → NoDup (f <$> l1) → StronglySorted (λ a b, f a <= f b) l1 → StronglySorted (λ a b, f a <= f b) l2 → l1 = l2.
Proof.
  intros Hp Hnd H1 H2. apply (StronglySorted_unique_strong (λ a b, f a <= f b)); [|done..].
  intros x y Hx Hy Hle Hge. rewrite <- Hp in Hy. assert (f x = f y) as Heq by lia. clear H1 H2 Hp.
  induction l1 as [|z l1 IH]; [by apply not_elem_of_nil in Hx|]. simpl in Hnd. apply NoDup_cons in Hnd as [Hz Hnd].
  apply elem_of_cons in Hx as [->|Hx], Hy as [->|Hy]; [done|..|auto].
  - destruct Hz. rewrite Heq. by apply list_elem_of_fmap_2.
  - destruct Hz. rewrite <- Heq. by apply list_elem_of_fmap_2.
Qed.

Lemma deduplicate_sorted rows sink :
  StronglySorted (λ a b, c_ts_utc a <= c_ts_utc b) (emitted (deduplicate_candles rows true sink)).
Proof. unfold deduplicate_candles. destruct (foldl _ _ _). apply sorted_by_sorted. Qed.

Lemma deduplicate_elem rows sink s : s ∈ emitted (deduplicate_candles rows true sink) → s ∈ rows.
Proof.
  intros Hs%candle_emitted_elem. pose proof (candle_loop_inv rows [] _ candle_init_inv) as [_ Hrows _ _].
  destruct (dvalues_elem _ _ Hs) as [k Hk]. by destruct (Hrows _ _ Hk) as (_&Hin&_).
Qed.

(** Sorting and filtering keep a pairing that respects the keys. *)
Lemma Forall2_sorted_by {A B} (R : A → B → Prop) (f : A → Z) (g : B → Z) l k :
  (∀ a b, R a b → f a = g b) → Forall2 R l k → Forall2 R (sorted_by f l) (sorted_by g k).
Proof.
  intros HR. unfold sorted_by, sort_le. induction 1 as [|a b l k Hab _ IH]; simpl; [constructor|].
  revert IH. generalize (foldr (insert_sorted (λ a b, f a <=? f b)) [] l) as l', (foldr (insert_sorted (λ a b, g a <=? g b)) [] k) as k'.
  induction 1 as [|c e l' k' Hce Hl IH']; simpl; [by repeat constructor|].
  rewrite <- (HR _ _ Hab), <- (HR _ _ Hce). destruct (_ <=? _); by repeat constructor.
Qed.

Lemma Forall2_list_filter {A B} (R : A → B → Prop) (p : A → bool) (q : B → bool) l k :
  (∀ a b, R a b → p a = q b) → Forall2 R l k → Forall2 R (List.filter p l) (List.filter q k).
Proof.
  intros HR. induction 1 as [|a b l k Hab _ IH]; simpl; [constructor|]. rewrite (HR _ _ Hab). destruct (q b); [by constructor|done].
Qed.

Lemma Forall2_keys {A B C} (R : A → B → Prop) (f : A → C) (g : B → C) l k :
  (∀ a b, R a b → g b = f a) → Forall2 R l k → f <$> l = g <$> k.
Proof. intros HR. induction 1 as [|a b l k Hab _ IH]; [done|]. rewrite !fmap_cons, IH. by rewrite (HR _ _ Hab). Qed.

Lemma NoDup_fmap_filter {A B} (f : A → B) (p : A → bool) (l : list A) : NoDup (f <$> l) → NoDup (f <$> List.filter p l).
Proof.
  induction l as [|x l IH]; simpl; [done|]. intros [Hx Hnd]%NoDup_cons. destruct (p x); [|auto].
  apply NoDup_cons. split; [|auto]. intros (y&Hy&Hin)%list_elem_of_fmap. apply Hx. rewrite Hy. apply list_elem_of_fmap_2.
  apply list_elem_of_In, List.filter_In in Hin as [? _]. by apply list_elem_of_In.
Qed.

Lemma filter_perm {A} (p : A → bool) (l k : list A) : l ≡ₚ k → List.filter p l ≡ₚ List.filter p k.
Proof.
  induction 1 as [|x l k _ IH|x y l|l k m _ IH1 _ IH2]; simpl; [done|..].
  - destruct (p x); by rewrite IH.
  - destruct (p x), (p y); done || by constructor.
  - by rewrite IH1.
Qed.

Lemma below_None dir p : below dir p = None ↔ ∀ rest, p ≠ dir ++ rest.
Proof.
  split.
  - intros Hn rest Hp%below_Some. congruence.
  - intros Hne. destruct (below dir p) as [rest|] eqn:Hb; [|done]. by apply below_Some, Hne in Hb.
Qed.

Lemma dir_exists_true dir d : dir_exists dir d = true ↔ ∃ rest, is_Some (d !! (dir ++ rest)).
Proof.
  unfold dir_exists. rewrite existsb_exists. split.
  - intros (p&Hp&Hb). apply list_elem_of_In, list_elem_of_fmap in Hp as ([q b]&->&Hq). simpl in Hb.
    apply elem_of_map_to_list in Hq. destruct (below dir q) as [rest|] eqn:He; [|done]. apply below_Some in He as ->. eauto.
  - intros (rest&b&Hb). exists (dir ++ rest). rewrite (proj2 (below_Some _ _ _) eq_refl). split; [|done].
    apply list_elem_of_In, list_elem_of_fmap. exists (dir ++ rest, b). split; [done|]. by apply elem_of_map_to_list.
Qed.

Lemma elem_of_parquet_files (dir : path) (d : disk) (p : path) : p ∈ parquet_files dir d ↔ is_Some (d !! p) ∧ parquet_below dir p = true.
Proof.
  unfold parquet_files. rewrite sort_le_perm, list_elem_of_filter, list_elem_of_fmap. split.
  - intros [Hb ([q b]&->&Hq)]. apply elem_of_map_to_list in Hq. split; [by eexists|]. by destruct (parquet_below dir _).
  - intros [[b Hb] Hp]. rewrite Hp. split; [done|]. exists (p, b). split; [done|]. by apply elem_of_map_to_list.
Qed.

Lemma parquet_files_singleton (dir : path) (d : disk) (p : path) : (∀ q, q ∈ parquet_files dir d ↔ q = p) → parquet_files dir d = [p].
Proof.
  intros Hq. assert (NoDup (parquet_files dir d)) as Hnd.
  { unfold parquet_files. rewrite sort_le_perm. apply NoDup_filter, NoDup_fst_map_to_list. }
  apply Permutation_singleton_r. apply NoDup_Permutation; [done|apply NoDup_singleton|].
  intros q. by rewrite Hq, list_elem_of_singleton.
Qed.

(** ** What a batch becomes *)

Section properties.
Context (sha256_hex : string → string) (arrow_decimal : decimal → option decimal).
(** A value that is taken is taken exactly. *)
Context (arrow_decimal_exact : ∀ x y, arrow_decimal x = Some y → deqb x y = true).
Context `{ParquetLaws ohlcv_row}.

Notation candle_row := (candle_row sha256_hex arrow_decimal).
Notation candles_to_arrow := (candles_to_arrow sha256_hex arrow_decimal).
Notation write_candles := (write_candles sha256_hex arrow_decimal).
Notation compute_data_hash := (compute_data_hash sha256_hex).

(** The value of a candle, as a row keeps it *)
Definition value_agrees (a b : option decimal) : Prop :=
  match a, b with Some x, Some y => deqb x y = true | None, None => True | _, _ => False end.
Definition row_of (c : candle) (r : ohlcv_row) : Prop :=
  r_ts_utc r = cd_ts_utc c ∧ r_exchange r = cd_exchange c ∧ r_symbol r = cd_symbol c ∧
  r_timeframe r = tf_value (cd_timeframe c) ∧ deqb (cd_open c) (r_open r) = true ∧ deqb (cd_high c) (r_high r) = true ∧
  deqb (cd_low c) (r_low r) = true ∧ deqb (cd_close c) (r_close r) = true ∧ deqb (cd_volume c) (r_volume r) = true ∧
  value_agrees (cd_value c) (r_value r) ∧ r_data_hash r = compute_data_hash c.

Lemma cell_Ok x y : cell arrow_decimal x = Ok y → deqb x y = true.
Proof using arrow_decimal_exact. unfold cell. destruct (arrow_decimal x) as [z|] eqn:Hz; [|done]. intros [= <-]. by apply arrow_decimal_exact. Qed.

Lemma candle_row_of snapshot_id ts c r : candle_row snapshot_id ts c = Ok r → row_of c r.
Proof using arrow_decimal_exact.
  unfold CandleStore.candle_row. intros Hr.
  apply rbind_Ok in Hr as (o&Ho%cell_Ok&Hr). apply rbind_Ok in Hr as (h&Hh%cell_Ok&Hr).
  apply rbind_Ok in Hr as (l&Hl%cell_Ok&Hr). apply rbind_Ok in Hr as (cl&Hcl%cell_Ok&Hr).
  apply rbind_Ok in Hr as (v&Hv%cell_Ok&Hr). apply rbind_Ok in Hr as (val&Hval&[= <-]).
  unfold row_of; simpl. split_and!; try done.
  destruct (cd_value c) as [x|]; [|by simplify_eq]. apply rbind_Ok in Hval as (y&Hy%cell_Ok&[= <-]). done.
Qed.

Lemma candles_to_arrow_rows snapshot_id ts cs rows : candles_to_arrow snapshot_id ts cs = Ok rows → Forall2 row_of cs rows.
Proof using arrow_decimal_exact.
  revert rows. induction cs as [|c cs IH]; simpl; intros rows Hr; [simplify_eq; constructor|].
  apply rbind_Ok in Hr as (r&Hrow%candle_row_of&Hr). apply rbind_Ok in Hr as (rs&Hrs&[= <-]). constructor; auto.
Qed.

(** Whether a batch is taken does not depend on the clock. *)
Lemma candles_to_arrow_hashes snapshot_id ts ts' cs rows : candles_to_arrow snapshot_id ts cs = Ok rows →
  ∃ rows', candles_to_arrow snapshot_id ts' cs = Ok rows' ∧ r_data_hash <$> rows = r_data_hash <$> rows' ∧
           r_data_hash <$> rows = compute_data_hash <$> cs.
Proof using Type.
  revert rows. induction cs as [|c cs IH]; simpl; intros rows Hr; [simplify_eq; eauto|].
  apply rbind_Ok in Hr as (r&Hrow&Hr). apply rbind_Ok in Hr as (rs&Hrs&[= <-]).
  destruct (IH rs Hrs) as (rs'&->&He&Hh). unfold CandleStore.candle_row in *.
  apply rbind_Ok in Hrow as (o&->&Hrow). apply rbind_Ok in Hrow as (h&->&Hrow). apply rbind_Ok in Hrow as (l&->&Hrow).
  apply rbind_Ok in Hrow as (cl&->&Hrow). apply rbind_Ok in Hrow as (v&->&Hrow). apply rbind_Ok in Hrow as (val&->&[= <-]).
  simpl. eexists. split; [done|]. split; [exact (f_equal (cons _) He)|exact (f_equal (cons _) Hh)].
Qed.

Lemma same_hashes_written d target rows rows' : r_data_hash <$> rows = r_data_hash <$> rows' →
  same_hashes (<[target := pq_write "ohlcv" rows]> d) target rows' = true.
Proof. intros He. unfold same_hashes. rewrite lookup_insert_eq, pq_rows_write, He. by apply bool_decide_eq_true. Qed.

(** [write_candles] fails closed and is idempotent: an error leaves the
    disk as it was, and comes of an empty batch, of a value the columns refuse
    or of the file system; success returns the partition of the first candle,
    changes the target file only, leaves a readable file there whose hashes are
    those of the batch, and a second write of the batch at any later time
    returns the same and changes nothing. *)
Theorem write_candles_contract (candles : list candle) (a : write_args) (now : Z) (written : res unit) (d : disk) :
  match write_candles candles a now written d with
  | (d', Raise e) => d' = d ∧
      (candles = [] ∨ candles_to_arrow (Some (wa_snapshot_id a)) now candles = Raise e ∨ written = Raise e)
  | (d', Ok partition) => ∃ c rest rows, candles = c :: rest ∧ partition = partition_of_batch a c ∧
      (∀ p, p ≠ target_of_batch a c → d' !! p = d !! p) ∧
      file_rows d' (target_of_batch a c) = Ok rows ∧
      (list_to_set (r_data_hash <$> rows) : gset string) = list_to_set (compute_data_hash <$> candles) ∧
      ∀ now' written', write_candles candles a now' written' d' = (d', Ok partition)
  end.
Proof using H0.
  unfold CandleStore.write_candles. destruct candles as [|c rest]; [auto|]. set (candles := c :: rest).
  destruct (candles_to_arrow _ now candles) as [rows|e] eqn:Hrows; [|auto]. set (target := target_of_batch a c).
  destruct (same_hashes d target rows) eqn:Hs.
  - exists c, rest. pose proof Hs as Hs'. unfold same_hashes in Hs'. destruct (d !! target) as [b|] eqn:Hb; [|done].
    destruct (pq_rows b) as [old|] eqn:Hold; [|done]. py_bool. exists old. split_and!; try done.
    + unfold file_rows. fold target. by rewrite Hb.
    + rewrite Hs'. by destruct (candles_to_arrow_hashes _ _ now _ _ Hrows) as (?&_&_&->).
    + intros now' written'. destruct (candles_to_arrow_hashes _ _ now' _ _ Hrows) as (rows'&->&He&_).
      fold target. unfold same_hashes in *. rewrite Hb, Hold in *. by rewrite <- He, Hs.
  - destruct written as [[]|e]; [|auto]. exists c, rest, rows. split_and!; try done.
    + intros p Hp. by rewrite lookup_insert_ne by done.
    + unfold file_rows. fold target. by rewrite lookup_insert_eq, pq_rows_write.
    + by destruct (candles_to_arrow_hashes _ _ now _ _ Hrows) as (?&_&_&->).
    + intros now' written'. destruct (candles_to_arrow_hashes _ _ now' _ _ Hrows) as (rows'&->&He&_).
      fold target. by rewrite (same_hashes_written d target rows rows' He).
Qed.

(** *** Scanning *)

Context (duckdb_scan : disk → list path → Z → Z → res (list (ohlcv_row * path))) `{!ScanLaws duckdb_scan}.
Notation scan_candles := (scan_candles duckdb_scan).

(** A scan shows the store: its rows are in order of time and are rows of
    the files of the globs in the window; all of them where the rows are of
    one node, and otherwise exactly one for each exchange, symbol, time frame
    and time, of the node that comes first. *)
Theorem candle_scan_spec (root : path) (exchange symbol timeframe : string) (start end_ : Z) (modes : list Mode) (d : disk)
    (out : list Dedup.candle) :
  scan_candles root exchange symbol timeframe start end_ modes d = Ok out →
  let stored := wrap <$> List.filter (in_window start end_)
    (stored_rows d (resolve_scan_paths root exchange symbol timeframe modes d)) in
  StronglySorted (λ a b, c_ts_utc a <= c_ts_utc b) out ∧ out ⊆ stored ∧
  ((∀ x y, x ∈ stored → y ∈ stored → c_node_id x = c_node_id y) → out ≡ₚ stored) ∧
  (¬ (∀ x y, x ∈ stored → y ∈ stored → c_node_id x = c_node_id y) →
    NoDup (candle_logical_key <$> out) ∧
    ∀ x, x ∈ stored → ∃ s, s ∈ out ∧ candle_logical_key s = candle_logical_key x ∧
      String.le (node_priority (c_node_id s)) (node_priority (c_node_id x))).
Proof using ScanLaws0.
  clear arrow_decimal_exact arrow_decimal H0.
  unfold CandleStore.scan_candles. destruct (resolve_scan_paths _ _ _ _ _ _) as [|g gs] eqn:Hg; cbv beta iota zeta.
  { intros [= <-]. split_and!; [constructor|set_solver|done|]. intros Hn. destruct Hn. set_solver. }
  intros (rows&Hrows&Hout)%rbind_Ok. apply scan_rows in Hrows as [Hp _].
  set (stored := wrap <$> _). assert (wrap <$> rows ≡ₚ stored) as Hw by (unfold stored; by rewrite Hp).
  assert (∀ x, x ∈ stored → c_received_at x = Some (c_ts_utc x)) as Hra by (intros x ([]&->&_)%list_elem_of_fmap; done).
  destruct (2 <=? _)%nat eqn:Hmulti; py_bool; apply Ok_inj in Hout as <-.
  - assert (¬ ∀ x y, x ∈ stored → y ∈ stored → c_node_id x = c_node_id y) as Hne.
    { intros Hall. assert (length (remove_dups (c_node_id <$> (wrap <$> rows))) < 2)%nat; [|lia].
      apply few_dups. intros u v (x&->&Hx)%list_elem_of_fmap (y&->&Hy)%list_elem_of_fmap. rewrite Hw in Hx, Hy. auto. }
    destruct (candles_survivor_is_latest (wrap <$> rows) false) as (Hnd&_&Hsurv).
    split_and!; [apply deduplicate_sorted| |done|intros _; split; [done|]].
    + intros s Hs%deduplicate_elem. by rewrite <- Hw.
    + intros x Hx. rewrite <- Hw in Hx. destruct (Hsurv x Hx) as (s&Hs&Hin&Hkey&Hrank). exists s. split_and!; [done..|].
      rewrite Hw in Hx, Hin. destruct Hrank as [Hlt|[_ ?]]; [|done]. unfold effective_received_at in Hlt.
      rewrite (Hra x Hx), (Hra s Hin) in Hlt. injection Hkey as _ _ _ Hts. simpl in Hlt. lia.
  - split_and!; [apply sorted_by_sorted|intros x; by rewrite sorted_by_perm, Hw|intros _; by rewrite sorted_by_perm|].
    intros Hn. destruct Hn. intros x y Hx Hy. rewrite <- Hw in Hx, Hy.
    apply (proj1 (few_dups (c_node_id <$> (wrap <$> rows)))); [lia|by apply list_elem_of_fmap_2..].
Qed.

(** *** Writing and scanning *)

(** Nothing lies under the root of the schema yet. *)
Definition fresh (root : path) (d : disk) : Prop := ∀ rest, d !! (schema_root root ++ rest) = None.

(** The mode a scan finds a batch under *)
Definition scan_mode (a : write_args) : list Mode := match wa_mode a with Some Paper => [Paper] | _ => [Historical] end.

(** A scanned row is the candle. *)
Definition reads_back (c : candle) (r : Dedup.candle) : Prop :=
  c_exchange r = cd_exchange c ∧ c_symbol r = cd_symbol c ∧ c_timeframe r = tf_value (cd_timeframe c) ∧
  c_ts_utc r = cd_ts_utc c ∧ deqb (cd_open c) (c_open r) = true ∧ deqb (cd_high c) (c_high r) = true ∧
  deqb (cd_low c) (c_low r) = true ∧ deqb (cd_close c) (c_close r) = true ∧ deqb (cd_volume c) (c_volume r) = true ∧
  value_agrees (cd_value c) (c_value r).

Definition mode_level (m : option Mode) : path := match m with Some m => ["mode=" +:+ mode_text m] | None => [] end.
Definition glob_base (a : write_args) : path := schema_root (wa_root a) ++ mode_level (wa_mode a).

(** Below the glob of its mode, a partition has its date and its node. *)
Lemma partition_below_glob a c : ∃ rest, partition_of_batch a c =
  glob_dir (cd_exchange c) (cd_symbol c) (tf_value (cd_timeframe c)) (glob_base a) ++ rest.
Proof using Type.
  unfold partition_of_batch, derive_partition_path, glob_dir, glob_base, mode_level.
  destruct (civil _) as [[y m] d].
  exists (["year=" +:+ pad 4 y; "month=" +:+ pad 2 m; "date=" +:+ pad 2 d] ++
          match wa_node_id a with Some n => ["node=" +:+ n] | None => [] end).
  by rewrite <- !app_assoc.
Qed.

Lemma batch_file_parquet a : is_parquet (batch_file_name a) = true.
Proof using Type.
  unfold batch_file_name. destruct (wa_collector_run_id a), (wa_batch_seq a);
  rewrite <- ?string_app_assoc; apply is_parquet_suffix.
Qed.

(** The disk has one batch: its file, and next to it what is no Parquet file. *)
Definition holds_batch (a : write_args) (c : candle) (d : disk) : Prop :=
  is_Some (d !! target_of_batch a c) ∧
  ∀ rest, is_Some (d !! (schema_root (wa_root a) ++ rest)) → ∃ name,
    schema_root (wa_root a) ++ rest = partition_of_batch a c ++ [name] ∧ (name = batch_file_name a ∨ is_parquet name = false).

Lemma batch_files a c d : holds_batch a c d →
  parquet_files (glob_dir (cd_exchange c) (cd_symbol c) (tf_value (cd_timeframe c)) (glob_base a)) d = [target_of_batch a c].
Proof using Type.
  intros [Hin Honly]. destruct (partition_below_glob a c) as [rest Ht]. apply parquet_files_singleton. intros q.
  rewrite elem_of_parquet_files. unfold parquet_below. split.
  - intros [Hq Hb]. destruct (below _ q) as [r|] eqn:Hr; [|done]. apply below_Some in Hr as ->.
    unfold glob_dir, glob_base in Hq. rewrite <- !app_assoc in Hq. apply Honly in Hq as (name&Heq&Hname).
    unfold glob_dir, glob_base in *. rewrite <- !app_assoc in *. rewrite Heq. unfold target_of_batch. do 2 f_equal.
    rewrite Ht, <- !app_assoc in Heq. repeat apply app_inv_head in Heq. rewrite Heq, last_snoc in Hb.
    destruct Hname as [->|Hno]; [done|congruence].
  - intros ->. split; [done|]. unfold target_of_batch. rewrite Ht, <- app_assoc, (proj2 (below_Some _ _ _) eq_refl), last_snoc.
    apply batch_file_parquet.
Qed.

Lemma batch_dirs a c d base : holds_batch a c d → dir_exists (schema_root (wa_root a) ++ base) d = true →
  ∃ name rest, partition_of_batch a c ++ [name] = schema_root (wa_root a) ++ base ++ rest.
Proof using Type.
  intros [_ Honly] (rest&Hr)%dir_exists_true. rewrite <- app_assoc in Hr. apply Honly in Hr as (name&Heq&_). eauto.
Qed.

Lemma batch_dir a c d base rest : holds_batch a c d → partition_of_batch a c = base ++ rest → dir_exists base d = true.
Proof using Type.
  intros [Hin _] He. apply dir_exists_true. exists (rest ++ [batch_file_name a]). rewrite app_assoc, <- He. exact Hin.
Qed.

Lemma batch_paths a c d : holds_batch a c d → wa_mode a ≠ Some Historical →
  resolve_scan_paths (wa_root a) (cd_exchange c) (cd_symbol c) (tf_value (cd_timeframe c)) (scan_mode a) d =
  [glob_dir (cd_exchange c) (cd_symbol c) (tf_value (cd_timeframe c)) (glob_base a)].
Proof using Type.
  intros Hd Hm. destruct (partition_below_glob a c) as [rest Ht]. unfold glob_dir, glob_base in *.
  pose proof (batch_dir a c d (schema_root (wa_root a) ++ mode_level (wa_mode a)) _ Hd ltac:(rewrite <- app_assoc in Ht; exact Ht)) as Hbase.
  unfold resolve_scan_paths, scan_bases, scan_mode. destruct (wa_mode a) as [[]|] eqn:Hmode; [done|..]; cbn [fmap list_fmap concat app].
  - rewrite filter_cons_True; [done|]. by apply Is_true_true.
  - unfold mode_level in Hbase. rewrite app_nil_r in Hbase. rewrite filter_cons_True by by apply Is_true_true.
    rewrite filter_cons_False; [cbn; unfold mode_level; by rewrite ?app_nil_r|].
    intros Hx%Is_true_true. apply (batch_dirs a c) in Hx as (name&r&Hr); [|done].
    rewrite Ht, <- !app_assoc in Hr. apply app_inv_head in Hr. discriminate Hr.
Qed.

(** A batch written to a fresh root is the only one. *)
Lemma fresh_write candles a now written d d' partition c : fresh (wa_root a) d → head candles = Some c →
  write_candles candles a now written d = (d', Ok partition) →
  ∃ rows, candles_to_arrow (Some (wa_snapshot_id a)) now candles = Ok rows ∧ d' = <[target_of_batch a c := pq_write "ohlcv" rows]> d ∧
    partition = partition_of_batch a c ∧ holds_batch a c d'.
Proof using Type.
  intros Hf Hhead Hw. destruct candles as [|c' rest]; [done|]. injection Hhead as ->.
  destruct (partition_below_glob a c) as [r Ht].
  assert (∀ x, d !! (partition_of_batch a c ++ x) = None) as Hnone.
  { intros x. rewrite Ht. unfold glob_dir, glob_base. by rewrite <- !app_assoc, Hf. }
  unfold CandleStore.write_candles in Hw. cbv beta iota zeta in Hw. destruct (candles_to_arrow _ now _) as [rows|]; [|done].
  assert (same_hashes d (target_of_batch a c) rows = false) as Hs by (unfold same_hashes, target_of_batch; by rewrite Hnone).
  rewrite Hs in Hw. destruct written; [|done]. injection Hw as <- <-. exists rows. split_and!; [done..|]. split.
  - rewrite lookup_insert_eq. eauto.
  - intros rest' [b Hb]. destruct (decide (target_of_batch a c = schema_root (wa_root a) ++ rest')) as [<-|Hne].
    + exists (batch_file_name a). auto.
    + by rewrite lookup_insert_ne, Hf in Hb by done.
Qed.

(** The rows of a batch in a window read back as its candles in the window. *)
Lemma rows_read_back candles rows snapshot_id now file start end_ : candles_to_arrow snapshot_id now candles = Ok rows →
  Forall2 reads_back (List.filter (λ x, (start <=? cd_ts_utc x) && (cd_ts_utc x <? end_)) candles)
    (wrap <$> List.filter (in_window start end_) ((λ r, (r, file)) <$> rows)).
Proof using arrow_decimal_exact.
  intros Hrows. apply Forall2_fmap_r. apply Forall2_impl with (P := λ x rf, row_of x rf.1).
  - apply Forall2_list_filter; [|apply Forall2_fmap_r; by eapply candles_to_arrow_rows].
    intros x rf Hrow. unfold in_window. by destruct Hrow as (->&_).
  - intros x [r f] Hrow. unfold row_of, reads_back, wrap in *; simpl in *. tauto.
Qed.

(** A scan of a disk with one batch *)
Lemma scan_batch candles a now c d rows start end_ : holds_batch a c d → wa_mode a ≠ Some Historical → NoDup (cd_ts_utc <$> candles) →
  candles_to_arrow (Some (wa_snapshot_id a)) now candles = Ok rows → file_rows d (target_of_batch a c) = Ok rows →
  ∃ out, scan_candles (wa_root a) (cd_exchange c) (cd_symbol c) (tf_value (cd_timeframe c)) start end_ (scan_mode a) d = Ok out ∧
    Forall2 reads_back (sorted_by cd_ts_utc (List.filter (λ x, (start <=? cd_ts_utc x) && (cd_ts_utc x <? end_)) candles)) out.
Proof using arrow_decimal_exact ScanLaws0.
  intros Hd Hm Hnd Hrows Hread. unfold CandleStore.scan_candles. rewrite batch_paths by done.
  pose proof (batch_files a c d Hd) as Hfiles. set (glob := glob_dir _ _ _ _) in *.
  destruct (scan_readable d [glob] start end_) as [out Hout]; [done| |].
  { intros g ->%list_elem_of_singleton. rewrite Hfiles. split; [done|]. intros f ->%list_elem_of_singleton. eauto. }
  rewrite Hout. cbn [rbind]. apply scan_rows in Hout as [Hp Hsort].
  unfold stored_rows in Hp. cbn [fmap list_fmap concat] in Hp. rewrite Hfiles in Hp. cbn [fmap list_fmap concat app] in Hp.
  rewrite Hread, app_nil_r in Hp. set (tagged := (λ r, (r, target_of_batch a c)) <$> rows) in Hp.
  pose proof (rows_read_back candles rows _ now (target_of_batch a c) start end_ Hrows) as Hpair. fold tagged in Hpair.
  rewrite (proj2 (Nat.leb_gt 2 (length (remove_dups (c_node_id <$> (wrap <$> out)))))).
  2:{ apply few_dups. intros u v (x&->&Hx)%list_elem_of_fmap (y&->&Hy)%list_elem_of_fmap.
      assert (∀ z, z ∈ wrap <$> out → c_node_id z = Some (extract_node_id (target_of_batch a c))) as Hnode.
      { intros z (rf&->&Hz)%list_elem_of_fmap. rewrite Hp in Hz. apply list_elem_of_In, List.filter_In in Hz as [Hz _].
        apply list_elem_of_In, list_elem_of_fmap in Hz as (r&->&_). done. }
      by rewrite !Hnode. }
  eexists. split; [done|]. assert (sorted_by c_ts_utc (wrap <$> out) = sorted_by c_ts_utc (wrap <$> List.filter (in_window start end_) tagged)) as ->.
  { apply (sorted_key_unique c_ts_utc); [by rewrite !sorted_by_perm, Hp| |apply sorted_by_sorted..].
    rewrite sorted_by_perm, Hp, <- (Forall2_keys _ cd_ts_utc c_ts_utc _ _ (λ x r H, proj1 (proj2 (proj2 (proj2 H)))) Hpair).
    by apply NoDup_fmap_filter. }
  apply Forall2_sorted_by; [|done]. intros x r (_&_&_&->&_). done.
Qed.

(** C18.  Write and read back: a batch with distinct times that is written where
    no candle is yet, in the legacy layout or as paper, is what a scan of any
    window yields: its candles of the window, each once, in order of time, with
    equal prices, volume and value. *)
Theorem write_scan_round_trip (candles : list candle) (a : write_args) (now : Z) (d d' : disk) (partition : path)
    (c : candle) (start end_ : Z) :
  fresh (wa_root a) d → wa_mode a ≠ Some Historical → NoDup (cd_ts_utc <$> candles) → head candles = Some c →
  write_candles candles a now (Ok tt) d = (d', Ok partition) →
  ∃ out, scan_candles (wa_root a) (cd_exchange c) (cd_symbol c) (tf_value (cd_timeframe c)) start end_ (scan_mode a) d' = Ok out ∧
    Forall2 reads_back (sorted_by cd_ts_utc (List.filter (λ x, (start <=? cd_ts_utc x) && (cd_ts_utc x <? end_)) candles)) out.
Proof.
  intros Hf Hm Hnd Hhead Hw. destruct (fresh_write _ _ _ _ _ _ _ _ Hf Hhead Hw) as (rows&Hrows&Hd'&_&Hd).
  eapply scan_batch; [done..|]. unfold file_rows. by rewrite Hd', lookup_insert_eq, pq_rows_write.
Qed.

(** What is written under [mode=historical] alone cannot be scanned: the glob of
    the legacy layout, whose directory is a parent, has no file. *)
Lemma historical_mode_is_unreadable (candles : list candle) (a : write_args) (now : Z) (d d' : disk) (partition : path)
    (c : candle) (start end_ : Z) :
  fresh (wa_root a) d → wa_mode a = Some Historical → head candles = Some c →
  write_candles candles a now (Ok tt) d = (d', Ok partition) →
  ∃ e, scan_candles (wa_root a) (cd_exchange c) (cd_symbol c) (tf_value (cd_timeframe c)) start end_ [Historical] d' = Raise e.
Proof.
  intros Hf Hm Hhead Hw. destruct (fresh_write _ _ _ _ _ _ _ _ Hf Hhead Hw) as (rows&_&_&_&Hd). clear Hw.
  destruct (partition_below_glob a c) as [r Ht]. unfold glob_dir, glob_base, mode_level in Ht. rewrite Hm, <- !app_assoc in Ht.
  set (legacy := glob_dir (cd_exchange c) (cd_symbol c) (tf_value (cd_timeframe c)) (schema_root (wa_root a))).
  assert (legacy ∈ resolve_scan_paths (wa_root a) (cd_exchange c) (cd_symbol c) (tf_value (cd_timeframe c)) [Historical] d') as Hin.
  { unfold resolve_scan_paths. rewrite sort_le_perm. apply elem_of_remove_dups, list_elem_of_fmap_2, list_elem_of_filter.
    split; [|set_solver]. apply Is_true_true. eapply batch_dir; [exact Hd|exact Ht]. }
  assert (parquet_files legacy d' = []) as Hnone.
  { apply elem_of_nil_inv. intros p [Hb Hp]%elem_of_parquet_files. unfold parquet_below in Hp.
    destruct (below legacy p) as [rest'|] eqn:Hbel; [|done]. apply below_Some in Hbel as ->.
    unfold legacy, glob_dir in Hb. rewrite <- !app_assoc in Hb. apply Hd in Hb as (name&Heq&_). rewrite Ht, <- !app_assoc in Heq.
    apply app_inv_head in Heq. discriminate Heq. }
  unfold CandleStore.scan_candles. destruct (resolve_scan_paths _ _ _ _ _ _) as [|g gs]; [by apply not_elem_of_nil in Hin|].
  destruct (scan_no_file d' (g :: gs) start end_ legacy Hin Hnone) as [e ->]. by exists e.
Qed.

End properties.

(** ** Concrete stores *)

(** A column that takes up to eighteen places and thirty-eight digits *)
Definition decimal128 (x : decimal) : option decimal :=
  if (-18 <=? expo x) && (Z.abs (dscale x (-18)) <? 10 ^ 38) then Some (Dec (dscale x (-18)) (-18)) else None.

Lemma decimal128_exact x y : decimal128 x = Some y → deqb x y = true.
Proof.
  unfold decimal128. destruct (Z.leb_spec (-18) (expo x)); simpl; [|done]. destruct (_ <? _); [|done]. intros [= <-].
  unfold deqb, dcmp. cbn [expo]. rewrite Z.min_r by done. unfold dscale at 2. cbn [expo coef]. rewrite Z.sub_diag, Z.pow_0_r, Z.mul_1_r.
  by rewrite Z.compare_refl.
Qed.

#[export] Instance ohlcv_row_eq_dec : EqDecision ohlcv_row.
Proof. solve_decision. Defined.
#[export] Instance ohlcv_row_countable : Countable ohlcv_row.
Proof.
  apply (inj_countable'
    (λ r, ((r_ts_utc r, r_exchange r, r_symbol r, r_timeframe r), (r_open r, r_high r, r_low r, r_close r),
           (r_volume r, r_value r, r_trade_count r, r_is_complete r),
           (r_schema_version r, r_source_ingested_at r, r_data_snapshot_id r, r_data_hash r)))
    (λ '((a, b, c, d), (e, f, g, h), (i, j, k, l), (m, n, o, p)), OhlcvRow a b c d e f g h i j k l m n o p)).
  by intros [].
Defined.
#[local] Instance ohlcv_parquet : Parquet ohlcv_row := countable_parquet r_ts_utc.
#[local] Instance ohlcv_parquet_laws : ParquetLaws ohlcv_row := countable_parquet_laws r_ts_utc.

Definition hour : Z := 3600000000.
Definition H1 : Timeframe := MkTimeframe "1h" "1h" hour.
(** The candle of an hour with a close and a value *)
Definition example_candle (n close : Z) (value : option decimal) : candle :=
  Candle (n * hour) "upbit" "KRW-BTC" H1 (dint 1) (dint 9) (dint 1) (dint close) (dint 5) value.
Definition example_args (snapshot_id : string) (mode : option Mode) (node : option string) : write_args :=
  WriteArgs ["data"] snapshot_id mode node None None.
Definition text_hash (s : string) : string := s.

Definition example_write (candles : list candle) (a : write_args) (now : Z) : proc disk path :=
  write_candles text_hash decimal128 candles a now (Ok tt).

Lemma write_candles_contract_witness :
  let d' := (example_write [example_candle 2 3 None] (example_args "s" None None) 7 ∅).1 in
  ∀ now' written', write_candles text_hash decimal128 [example_candle 2 3 None] (example_args "s" None None) now' written' d' =
    (d', Ok (partition_of_batch (example_args "s" None None) (example_candle 2 3 None))).
Proof.
  unfold example_write. cbv zeta.
  pose proof (write_candles_contract text_hash decimal128 [example_candle 2 3 None] (example_args "s" None None) 7 (Ok tt) ∅) as Hc.
  destruct (write_candles text_hash decimal128 [example_candle 2 3 None] (example_args "s" None None) 7 (Ok tt) ∅) as [d' [p|e]] eqn:Hw.
  - destruct Hc as (c&rest&rows&[= <- <-]& -> &_&_&_&Hagain). exact Hagain.
  - exfalso. assert (∃ q, (write_candles text_hash decimal128 [example_candle 2 3 None] (example_args "s" None None) 7 (Ok tt) ∅).2 = Ok q) as [q Hq];
      [vm_compute; eauto|by rewrite Hw in Hq].
Defined.

Lemma fresh_empty root : fresh root ∅.
Proof. intros rest. apply lookup_empty. Qed.

Lemma write_scan_round_trip_witness :
  ∃ d' out, scan_candles plain_scan ["data"] "upbit" "KRW-BTC" "1h" (2 * hour) (4 * hour) [Paper] d' = Ok out ∧
    Forall2 reads_back [example_candle 2 3 None; example_candle 3 4 (Some (dint 8))] out.
Proof.
  destruct (example_write [example_candle 3 4 (Some (dint 8)); example_candle 2 3 None; example_candle 5 2 None]
    (example_args "s" (Some Paper) None) 7 ∅) as [d' r] eqn:Hw.
  destruct r as [p|e].
  - exists d'. destruct (write_scan_round_trip text_hash decimal128 decimal128_exact plain_scan
      [example_candle 3 4 (Some (dint 8)); example_candle 2 3 None; example_candle 5 2 None] (example_args "s" (Some Paper) None) 7 ∅ d' p
      (example_candle 3 4 (Some (dint 8))) (2 * hour) (4 * hour)) as (out&Hout&Hpairs).
    + apply fresh_empty.
    + discriminate.
    + apply (bool_decide_unpack _). vm_compute. exact I.
    + reflexivity.
    + exact Hw.
    + exists out. split; [exact Hout|exact Hpairs].
  - exfalso. assert (∃ q, (example_write [example_candle 3 4 (Some (dint 8)); example_candle 2 3 None; example_candle 5 2 None]
      (example_args "s" (Some Paper) None) 7 ∅).2 = Ok q) as [q Hq]; [vm_compute; eauto|by rewrite Hw in Hq].
Defined.

(** The disk after two writes *)
Definition two_writes (c1 c2 : candle) (a1 a2 : write_args) : disk :=
  (example_write [c2] a2 8 (example_write [c1] a1 7 ∅).1).1.
Definition example_scan (modes : list Mode) (d : disk) : res (list Dedup.candle) :=
  scan_candles plain_scan ["data"] "upbit" "KRW-BTC" "1h" 0 (9 * hour) modes d.

Lemma candle_scan_spec_witness :
  let d := two_writes (example_candle 2 3 None) (example_candle 2 4 None) (example_args "s" None (Some "B")) (example_args "s" None (Some "A")) in
  ∃ out, example_scan [Historical] d = Ok out ∧ StronglySorted (λ a b, c_ts_utc a <= c_ts_utc b) out ∧
    (λ r, (c_node_id r, coef (c_close r))) <$> out = [(Some "A", 4 * 10 ^ 18)].
Proof.
  intros d.
  assert ((let? o := example_scan [Historical] d in Ok ((λ r, (c_node_id r, coef (c_close r))) <$> o)) =
    Ok [(Some "A", 4 * 10 ^ 18)]) as Ho by (vm_compute; reflexivity).
  clearbody d. unfold example_scan in *. destruct (scan_candles plain_scan _ _ _ _ _ _ _ d) as [out|e] eqn:Hs; [|discriminate Ho].
  destruct (candle_scan_spec plain_scan ["data"] "upbit" "KRW-BTC" "1h" 0 (9 * hour) [Historical] d out Hs) as [Hsort _].
  exists out. split; [reflexivity|]. split; [exact Hsort|exact (Ok_inj _ _ Ho)].
Defined.

(** The hash leaves out the value: a batch that corrects the value only is taken
    for the one that is there, and reported as written. *)
Example corrected_value_is_dropped :
  let d := (example_write [example_candle 2 3 None] (example_args "s" None None) 7 ∅).1 in
  let corrected := example_candle 2 3 (Some (dint 8)) in
  (example_write [corrected] (example_args "s" None None) 8 d).2 = Ok (partition_of_batch (example_args "s" None None) corrected) ∧
  (let? out := example_scan [Historical] (example_write [corrected] (example_args "s" None None) 8 d).1 in
   Ok (c_value <$> out)) = Ok [None].
Proof. split; vm_compute; reflexivity. Qed.

(** Two snapshots of the same hour: without nodes a scan yields the candle
    twice; from two nodes it yields it once. *)
Example overlapping_snapshots_repeat :
  let count d := let? out := example_scan [Historical] d in Ok (length out) in
  count (two_writes (example_candle 2 3 None) (example_candle 2 3 None) (example_args "s1" None None) (example_args "s2" None None)) = Ok 2%nat ∧
  count (two_writes (example_candle 2 3 None) (example_candle 2 3 None) (example_args "s1" None None) (example_args "s2" None (Some "A"))) = Ok 1%nat.
Proof. split; vm_compute; reflexivity. Qed.

(** A batch under [mode=historical] is there, but no scan of historical candles
    returns. *)
Example historical_alone_raises :
  example_scan [Historical] (example_write [example_candle 2 3 None] (example_args "s" (Some Historical) None) 7 ∅).1
    = Raise (OtherException "IOException").
Proof. vm_compute. reflexivity. Qed.
