(* ===== verification/BackfillCommand.v ===== *)
(** * The backfill command ([cli.py backfill], [lineage.write_lineage],
    [adapters.get_candle_provider])

    From the arguments to the files: the window and its guard, the fetch with
    its retries, the loop that applies the policy to each candle, the
    quarantined candles, the candle file and its lineage.  The third-party
    symbol parser and candle provider are arguments, as are pyarrow
    ([arrow_decimal], [Parquet]), SHA-256, the clock ([clock i] is its [i]-th
    reading) and the errors of the file system ([fails], [written]).  Echoed
    text is not modelled. *)
From S2P Require Import Prelude PyDict PyDecimal NasKey Wal PyTime Ndjson DecimalText Parquet Dedup BatchWriters Policy CandleStore.
From Stdlib Require Import Ascii.
Open Scope py_scope.
Open Scope string_scope.
Open Scope list_scope.
Open Scope Z_scope.

Definition BadParameter : exn := OtherException "BadParameter".
Definition UsageError : exn := OtherException "UsageError".
Definition ClickException : exn := OtherException "ClickException".
Definition AttributeError : exn := OtherException "AttributeError".
Definition OverflowError : exn := OtherException "OverflowError".

(** ** Times *)

(** The offset a text of a time carries, if any *)
Definition text_offset (s : string) : option Z :=
  match scan_date s with
  | Some (_, String _ s1) =>
      match scan_clock s1 with
      | Some (_, s2) => match scan_fraction s2 with Some (_, s3) => scan_offset s3 | None => None end
      | None => None
      end
  | _ => None
  end.

(** [value[:-1]] where it ends with [Z] *)
Definition without_Z (value : string) : option string :=
  let n := (String.length value - 1)%nat in
  if (0 <? String.length value)%nat && String.eqb (String.substring n 1 value) "Z" then Some (String.substring 0 n value) else None.

Definition parse_iso_utc (value : string) : res Z :=
  let value := match without_Z value with Some v => v +:+ "+00:00" | None => value end in
  let? us := fromisoformat value in
  if naive_text value then Raise BadParameter
  else match text_offset value with
       | Some o => if o =? 0 then Ok us else Raise BadParameter
       | None => Raise BadParameter
       end.

Definition nine_hours : Z := 9 * 3600 * 1000000.
(** [is_D1]: is the time frame [Timeframe.D1]? *)
Definition last_closed_boundary (is_D1 : Timeframe → bool) (now : Z) (tf : Timeframe) : Z :=
  if is_D1 tf then (now + nine_hours) / microseconds_per_day * microseconds_per_day - nine_hours
  else
    let seconds := tf_delta tf / 1000000 in
    let epoch := now / 1000000 in
    (epoch - epoch mod seconds) * 1000000.

(** [isoformat().replace("+00:00", "Z")] *)
Definition zulu (us : Z) : string :=
  let s := iso_time us in String.substring 0 (String.length s - 6) s +:+ "Z".

(** ** Arguments *)

Record backfill_args := BackfillArgs {
  ba_exchange : string; ba_symbol : string; ba_timeframe : Timeframe; ba_days : option Z;
  ba_start_iso : option string; ba_end_iso : option string; ba_policy : PartialFailurePolicy; ba_dry_run : bool;
  ba_root : path; ba_snapshot_id : option string; ba_allow_post_cutoff : bool }.

Definition truthy (s : option string) : option string :=
  match s with Some s => if String.eqb s "" then None else Some s | None => None end.

Definition window_end (is_D1 : Timeframe → bool) (a : backfill_args) (now : Z) : res Z :=
  match truthy (ba_end_iso a) with Some s => parse_iso_utc s | None => Ok (last_closed_boundary is_D1 now (ba_timeframe a)) end.

(** [end - timedelta(days=...)]; years before the first are an error. *)
Definition days_before (end_utc days : Z) : res Z :=
  let start := end_utc - days * microseconds_per_day in
  if start <? days_from_civil 1 1 1 * microseconds_per_day then Raise OverflowError else Ok start.

Definition window_start (a : backfill_args) (end_utc : Z) : res Z :=
  match ba_days a with
  | Some days => if days <=? 0 then Raise BadParameter else days_before end_utc days
  | None => match ba_start_iso a with Some s => parse_iso_utc s | None => Raise UsageError end
  end.

(** Symbol, start and end, checked against the cutoff *)
Definition backfill_window (symbol_from_string : string → res string) (is_D1 : Timeframe → bool) (cutoff : res Z)
    (a : backfill_args) (now : Z) : res (string * Z * Z) :=
  match ba_days a, ba_start_iso a with
  | Some _, Some _ => Raise UsageError
  | _, _ =>
      let? sym := symbol_from_string (ba_symbol a) in
      let? end_utc := window_end is_D1 a now in
      let? start_utc := window_start a end_utc in
      if end_utc <=? start_utc then Raise BadParameter
      else
        let? cutoff := cutoff in
        let? post := is_post_cutoff (Aware end_utc) cutoff in
        if post && negb (ba_allow_post_cutoff a) then Raise ClickException
        else Ok (sym, start_utc, end_utc)
  end.

(** ** Fetching *)

Definition get_candle_provider (exchange : string) : res unit :=
  if String.eqb exchange "bithumb" then Ok tt else if String.eqb exchange "upbit" then Ok tt else Raise ValueError.

Definition API_MAX_RETRIES : nat := 3.
(** [fetch i] is what the [i]-th call of the provider gives. *)
Fixpoint fetch_candles (fetch : nat → res (list candle_like)) (attempt remaining : nat) : res (list candle_like) :=
  match remaining with
  | O => Raise ClickException
  | S remaining => match fetch attempt with Ok candles => Ok candles | Raise _ => fetch_candles fetch (S attempt) remaining end
  end.

(** ** The policy loop *)

Section command.
Context (sha256_hex : string → string).

Inductive outcome := Good (c : candle) (h : string) | Quarantined (reason : QuarantineReason) | Skipped | Halted (e : exn).

(** The decision on a violation; both messages show the time. *)
Definition decide_on (policy : PartialFailurePolicy) (reason : QuarantineReason) (c : candle_like) : outcome :=
  match resolve_decision reason policy with
  | QUARANTINE => Quarantined reason
  | HALT => match cl_ts_utc c with Some _ => Halted ClickException | None => Halted AttributeError end
  | SKIP => match cl_ts_utc c with Some _ => Skipped | None => Halted AttributeError end
  end.

(** One round of the loop, up to what it records *)
Definition examine (policy : PartialFailurePolicy) (tf : Timeframe) (prev_ts : option Z) (seen_hashes : dict Z string)
    (c : candle_like) : outcome :=
  match check_schema c, complete c with
  | Some reason, _ => decide_on policy reason c
  | None, None => Halted AttributeError
  | None, Some k =>
      match check_gap prev_ts (cd_ts_utc k) tf with
      | Some reason => decide_on policy reason c
      | None =>
          match check_value_range k with
          | Some reason => decide_on policy reason c
          | None =>
              let incoming_hash := candle_hash sha256_hex k in
              match check_duplicate (dget seen_hashes (cd_ts_utc k)) incoming_hash with
              | Some DUPLICATE_SAME_HASH => Skipped
              | Some DifferentHash => decide_on policy DUPLICATE_DIFFERENT_HASH c
              | None => Good k incoming_hash
              end
          end
      end
  end.

Record tally := Tally {
  ta_prev_ts : option Z; ta_seen_hashes : dict Z string; ta_good : list candle;
  ta_quarantine : list (candle_like * QuarantineReason); ta_skip_count : nat }.
Definition no_tally : tally := Tally None [] [] [] 0.

Definition record_outcome (t : tally) (c : candle_like) (o : outcome) : res tally :=
  match o with
  | Good k h => Ok (Tally (Some (cd_ts_utc k)) (dset (ta_seen_hashes t) (cd_ts_utc k) h) (ta_good t ++ [k]) (ta_quarantine t) (ta_skip_count t))
  | Quarantined reason => Ok (Tally (ta_prev_ts t) (ta_seen_hashes t) (ta_good t) (ta_quarantine t ++ [(c, reason)]) (ta_skip_count t))
  | Skipped => Ok (Tally (ta_prev_ts t) (ta_seen_hashes t) (ta_good t) (ta_quarantine t) (S (ta_skip_count t)))
  | Halted e => Raise e
  end.

Fixpoint enforce (policy : PartialFailurePolicy) (tf : Timeframe) (t : tally) (candles : list candle_like) : res tally :=
  match candles with
  | [] => Ok t
  | c :: candles =>
      let? t' := record_outcome t c (examine policy tf (ta_prev_ts t) (ta_seen_hashes t) c) in
      enforce policy tf t' candles
  end.

(** ** Files *)

(** [strftime("%Y%m%dT%H%M%SZ")] *)
Definition compact_time (us : Z) : string :=
  let secs := us / 1000000 in
  let s := secs mod 86400 in
  let '(y, m, d) := civil (secs / 86400) in
  pad 4 y +:+ pad 2 m +:+ pad 2 d +:+ "T" +:+ pad 2 (s / 3600) +:+ pad 2 (s mod 3600 / 60) +:+ pad 2 (s mod 60) +:+ "Z".

Definition newline : string := String (ascii_of_nat 10) "".
Definition json_member (e : string * option string) : string :=
  "  " +:+ quoted (escape_key e.1) +:+ ": " +:+ match e.2 with Some v => quoted (escape_key v) | None => "null" end.
Fixpoint json_members (d : list (string * option string)) : string :=
  match d with
  | [] => ""
  | [e] => json_member e
  | e :: d' => json_member e +:+ "," +:+ newline +:+ json_members d'
  end.
(** [json.dumps(d, indent=2)] *)
Definition json_text (d : list (string * option string)) : string := "{" +:+ newline +:+ json_members d +:+ newline +:+ "}".

(** The text of an attribute, [None] included *)
Definition attribute_text (x : option decimal) : string := match x with Some x => decimal_text x | None => "None" end.

Record batch_id := BatchId { bi_exchange : string; bi_symbol : string; bi_timeframe : Timeframe; bi_snapshot : string }.

Definition quarantine_path (root : path) (b : batch_id) (ts : Z) (reason : QuarantineReason) : path :=
  root ++ ["quarantine"; bi_exchange b +:+ "_" +:+ bi_symbol b +:+ "_" +:+ tf_value (bi_timeframe b) +:+ "_" +:+ compact_time ts +:+ "_" +:+
           bi_snapshot b +:+ "_" +:+ reason_text reason +:+ ".json"].
Definition quarantine_text (b : batch_id) (ts : Z) (c : candle_like) (reason : QuarantineReason) : string :=
  json_text [("reason", Some (reason_text reason)); ("snapshot_id", Some (bi_snapshot b)); ("exchange", Some (bi_exchange b));
    ("symbol", Some (bi_symbol b)); ("timeframe", Some (tf_value (bi_timeframe b))); ("ts_utc", Some (iso_time ts));
    ("open", Some (attribute_text (cl_open c))); ("high", Some (attribute_text (cl_high c)));
    ("low", Some (attribute_text (cl_low c))); ("close", Some (attribute_text (cl_close c)));
    ("volume", Some (attribute_text (cl_volume c))); ("value", decimal_text <$> cl_value c)].

(** [path.write_text(text)] *)
Definition write_text (fails : path → option exn) (p : path) (text : string) : proc disk unit := λ d,
  match fails p with Some e => (d, Raise e) | None => (<[p := text]> d, Ok tt) end.

Fixpoint write_quarantine (fails : path → option exn) (root : path) (b : batch_id)
    (quarantine : list (candle_like * QuarantineReason)) : proc disk unit :=
  match quarantine with
  | [] => pret tt
  | (c, reason) :: quarantine =>
      match cl_ts_utc c with
      | None => praise AttributeError
      | Some ts => write_text fails (quarantine_path root b ts reason) (quarantine_text b ts c reason) ;!
                   write_quarantine fails root b quarantine
      end
  end.

(** [lineage.write_lineage] without a node; the rename makes it atomic. *)
Definition write_lineage (fails : path → option exn) (partition_dir : path) (snapshot_id exchange endpoint request_params_hash : string)
    (fetched_at_utc : Z) (response_hash adapter_name adapter_version : string) : proc disk unit :=
  write_text fails (partition_dir ++ ["_lineage_" +:+ snapshot_id +:+ ".json"])
    (json_text [("snapshot_id", Some snapshot_id); ("exchange", Some exchange); ("endpoint", Some endpoint);
      ("request_params_hash", Some request_params_hash); ("fetched_at_utc", Some (zulu fetched_at_utc));
      ("response_hash", Some response_hash); ("adapter_name", Some adapter_name); ("adapter_version", Some adapter_version)]).

(** ** The command *)

Definition request_text (sym : string) (tf : Timeframe) (start_utc end_utc : Z) : string :=
  sym +:+ "|" +:+ tf_value tf +:+ "|" +:+ iso_time start_utc +:+ "|" +:+ iso_time end_utc.
Definition resolved_snapshot (a : backfill_args) (sym : string) (start_utc end_utc : Z) : string :=
  match truthy (ba_snapshot_id a) with
  | Some s => s
  | None => String.substring 0 16 (sha256_hex (ba_exchange a +:+ "|" +:+ request_text sym (ba_timeframe a) start_utc end_utc))
  end.
Fixpoint join_bar (l : list string) : string :=
  match l with [] => "" | [s] => s | s :: l => s +:+ "|" +:+ join_bar l end.
Definition response_line (c : candle_like) : res string :=
  match cl_ts_utc c with
  | None => Raise AttributeError
  | Some ts => Ok (iso_time ts +:+ "," +:+ attribute_text (cl_open c) +:+ "," +:+ attribute_text (cl_high c) +:+ "," +:+
                   attribute_text (cl_low c) +:+ "," +:+ attribute_text (cl_close c) +:+ "," +:+ attribute_text (cl_volume c))
  end.
Fixpoint response_lines (candles : list candle_like) : res (list string) :=
  match candles with
  | [] => Ok []
  | c :: candles => let? l := response_line c in let? ls := response_lines candles in Ok (l :: ls)
  end.

Record backfill_report := BackfillReport { br_tally : tally; br_partition : path; br_snapshot : string }.

Context (arrow_decimal : decimal → option decimal) `{Parquet ohlcv_row}.
Context (symbol_from_string : string → res string) (is_D1 : Timeframe → bool) (cutoff : res Z).
Context (fetch : nat → res (list candle_like)) (clock : nat → Z) (fails : path → option exn) (written : res unit).

(** What follows the policy loop *)
Definition store_good (a : backfill_args) (sym : string) (start_utc end_utc : Z) (candles : list candle_like) (t : tally)
  : proc disk backfill_report :=
  let snapshot := resolved_snapshot a sym start_utc end_utc in
  let b := BatchId (ba_exchange a) sym (ba_timeframe a) snapshot in
  write_quarantine fails (ba_root a) b (ta_quarantine t) ;!
  match ta_good t with
  | [] => praise ClickException
  | good =>
      let! partition := write_candles sha256_hex arrow_decimal good (WriteArgs (ba_root a) snapshot None None None None) (clock 1) written in
      let! lines := plift (response_lines candles) in
      write_lineage fails partition snapshot (ba_exchange a)
        (if String.eqb (ba_exchange a) "bithumb" then "https://api.bithumb.com" else "https://api.upbit.com")
        (sha256_hex (request_text sym (ba_timeframe a) start_utc end_utc)) (clock 2) (sha256_hex (join_bar lines))
        ("mctrader-market-" +:+ ba_exchange a) (if String.eqb (ba_exchange a) "bithumb" then "0.3.0" else "0.1.0") ;!
      pret (BackfillReport t partition snapshot)
  end.

(** [None] is the answer of a dry run. *)
Definition backfill (a : backfill_args) : proc disk (option backfill_report) :=
  let! window := plift (backfill_window symbol_from_string is_D1 cutoff a (clock 0)) in
  let '(sym, start_utc, end_utc) := window in
  if ba_dry_run a then pret None
  else
    let! _ := plift (get_candle_provider (ba_exchange a)) in
    let! candles := plift (fetch_candles fetch 1 API_MAX_RETRIES) in
    match candles with
    | [] => praise ClickException
    | _ =>
        let! t := plift (enforce (ba_policy a) (ba_timeframe a) no_tally candles) in
        let! report := store_good a sym start_utc end_utc candles t in
        pret (Some report)
    end.

End command.

(** ** What the policy loop keeps *)

Section policy_loop.
Context (sha256_hex : string → string) (policy : PartialFailurePolicy) (tf : Timeframe).

(** No step between neighbours is longer than a period. *)
Definition gap_free (l : list candle) : Prop :=
  ∀ i x y, l !! i = Some x → l !! S i = Some y → cd_ts_utc y - cd_ts_utc x <= tf_delta tf.

(** Why a candle that is neither kept nor quarantined was left out *)
Definition left_out (good : list candle) (c : candle_like) : Prop :=
  policy = PolicySkip ∨
  ∃ k g, complete c = Some k ∧ g ∈ good ∧ cd_ts_utc g = cd_ts_utc k ∧ candle_hash sha256_hex g = candle_hash sha256_hex k.

Record tally_inv (seen : list candle_like) (t : tally) : Prop := {
  ti_count : length seen = (length (ta_good t) + length (ta_quarantine t) + ta_skip_count t)%nat;
  ti_good : sublist (of_candle <$> ta_good t) seen;
  ti_quarantine : sublist (ta_quarantine t).*1 seen ∧ Forall (λ q, resolve_decision q.2 policy = QUARANTINE) (ta_quarantine t);
  ti_prev : ta_prev_ts t = cd_ts_utc <$> last (ta_good t);
  ti_keys : dkeys (ta_seen_hashes t) = cd_ts_utc <$> ta_good t;
  ti_hashes : ∀ k, k ∈ ta_good t → dget (ta_seen_hashes t) (cd_ts_utc k) = Some (candle_hash sha256_hex k);
  ti_nodup : NoDup (cd_ts_utc <$> ta_good t);
  ti_range : Forall in_range (ta_good t);
  ti_gap : gap_free (ta_good t);
  ti_left : ∀ c, c ∈ seen → (∃ k, k ∈ ta_good t ∧ c = of_candle k) ∨ c ∈ (ta_quarantine t).*1 ∨ left_out (ta_good t) c }.

Lemma complete_Some c k : complete c = Some k → c = of_candle k.
Proof using Type.
  unfold complete. destruct c as [[] [] [] [] [] [] [] [] [] v]; simpl; try done. by intros [= <-].
Qed.

Lemma decide_on_outcome reason c o : decide_on policy reason c = o →
  match o with
  | Good _ _ => False
  | Quarantined r => r = reason ∧ resolve_decision reason policy = QUARANTINE
  | Skipped => policy = PolicySkip
  | Halted _ => True
  end.
Proof using Type.
  unfold decide_on, resolve_decision. intros <-.
  destruct policy; [by destruct (cl_ts_utc c)| |by destruct (cl_ts_utc c)].
  destruct reason; simpl; try done; by destruct (cl_ts_utc c).
Qed.

(** The outcome of a round and what the checks said *)
Lemma examine_outcome prev seen c o : examine sha256_hex policy tf prev seen c = o →
  match o with
  | Good k h => c = of_candle k ∧ check_gap prev (cd_ts_utc k) tf = None ∧ in_range k ∧ h = candle_hash sha256_hex k ∧
      dget seen (cd_ts_utc k) = None
  | Quarantined r => resolve_decision r policy = QUARANTINE
  | Skipped => policy = PolicySkip ∨
      ∃ k, complete c = Some k ∧ dget seen (cd_ts_utc k) = Some (candle_hash sha256_hex k)
  | Halted _ => True
  end.
Proof using Type.
  unfold examine. intros <-.
  assert (∀ r, match decide_on policy r c with
    | Good k h => c = of_candle k ∧ check_gap prev (cd_ts_utc k) tf = None ∧ in_range k ∧ h = candle_hash sha256_hex k ∧
        dget seen (cd_ts_utc k) = None
    | Quarantined r => resolve_decision r policy = QUARANTINE
    | Skipped => policy = PolicySkip ∨ ∃ k, complete c = Some k ∧ dget seen (cd_ts_utc k) = Some (candle_hash sha256_hex k)
    | Halted _ => True end) as Hdec.
  { intros r. pose proof (decide_on_outcome r c _ eq_refl) as Hd. destruct (decide_on policy r c); [done| |auto|done].
    by destruct Hd as [-> ?]. }
  destruct (check_schema c) as [r|]; [apply Hdec|]. destruct (complete c) as [k|] eqn:Hk; [|done].
  destruct (check_gap prev _ tf) as [r|] eqn:Hgap; [apply Hdec|]. destruct (check_value_range k) as [r|] eqn:Hrange; [apply Hdec|].
  unfold check_duplicate. destruct (dget seen (cd_ts_utc k)) as [h|] eqn:Hdup.
  - destruct (String.eqb_spec h (candle_hash sha256_hex k)) as [->|]; [eauto|apply Hdec].
  - split_and!; [by apply complete_Some|done|by apply check_value_range_spec|done|done].
Qed.

Lemma gap_free_snoc l k : gap_free l → (∀ x, last l = Some x → cd_ts_utc k - cd_ts_utc x <= tf_delta tf) → gap_free (l ++ [k]).
Proof using Type.
  intros Hl Hk i x y Hx Hy. assert (S i < length (l ++ [k]))%nat as Hi by (by eapply lookup_lt_Some). rewrite length_app in Hi; simpl in Hi.
  rewrite lookup_app_l in Hx by lia. destruct (decide (S i < length l)%nat) as [Hlt|Hge].
  - rewrite lookup_app_l in Hy by done. eauto.
  - rewrite lookup_app_r in Hy by lia. replace (S i - length l)%nat with 0%nat in Hy by lia. injection Hy as <-.
    apply Hk. rewrite last_lookup. by replace (Nat.pred (length l)) with i by lia.
Qed.

Lemma left_out_more good k c : left_out good c → left_out (good ++ [k]) c.
Proof using Type. intros [?|(j&g&?&?&?&?)]; [by left|right]. exists j, g. split_and!; [done|set_solver|done..]. Qed.

Lemma record_outcome_inv seen t c t' : tally_inv seen t →
  record_outcome t c (examine sha256_hex policy tf (ta_prev_ts t) (ta_seen_hashes t) c) = Ok t' → tally_inv (seen ++ [c]) t'.
Proof using Type.
  intros Hinv. pose proof (examine_outcome (ta_prev_ts t) (ta_seen_hashes t) c _ eq_refl) as Ho.
  destruct Hinv as [Hc Hg [Hq Hqd] Hp Hkeys Hh Hnd Hr Hgap Hl].
  destruct (examine _ _ _ _ _ _) as [k h|r| |e]; simpl; [..|done]; intros [= <-].
  - destruct Ho as (->&Hcg&Hrange&->&Hnew). pose proof (proj1 (dget_None _ _) Hnew) as Hnk. rewrite Hkeys in Hnk.
    split; simpl; rewrite ?length_app, ?fmap_app; simpl.
    + lia.
    + by apply sublist_app.
    + split; [by apply sublist_inserts_r|done].
    + by rewrite last_snoc.
    + rewrite dkeys_dset_new by (by rewrite Hkeys). by rewrite Hkeys.
    + intros x [Hx| ->%list_elem_of_singleton]%elem_of_app; [|by rewrite dget_dset_eq].
      rewrite dget_dset_ne; [auto|]. intros Heq. apply Hnk. rewrite Heq. by apply list_elem_of_fmap_2.
    + apply NoDup_app. split_and!; [done| |apply NoDup_singleton]. intros x Hx ->%list_elem_of_singleton. done.
    + apply Forall_app. split; [done|]. by constructor.
    + apply gap_free_snoc; [done|]. intros x Hx. rewrite Hp, Hx in Hcg. unfold check_gap in Hcg. simpl in Hcg.
      destruct (Z.ltb_spec (tf_delta tf) (cd_ts_utc k - cd_ts_utc x)); [done|lia].
    + intros c [Hin| ->%list_elem_of_singleton]%elem_of_app.
      * destruct (Hl c Hin) as [(j&?&?)|[?|?]]; [left; exists j; set_solver|right; by left|right; right; by apply left_out_more].
      * left. exists k. set_solver.
  - split; simpl; rewrite ?length_app, ?fmap_app; simpl; try done.
    + lia.
    + by apply sublist_inserts_r.
    + split; [by apply sublist_app|]. apply Forall_app. split; [done|]. by constructor.
    + intros c' [Hin| ->%list_elem_of_singleton]%elem_of_app; [|set_solver]. destruct (Hl c' Hin) as [?|[?|?]]; [by left|set_solver|auto].
  - split; simpl; rewrite ?length_app; simpl; try done.
    + lia.
    + by apply sublist_inserts_r.
    + split; [by apply sublist_inserts_r|done].
    + intros c' [Hin| ->%list_elem_of_singleton]%elem_of_app; [by apply Hl|]. right. right. destruct Ho as [?|(k&Hk&Hd)]; [by left|right].
      assert (cd_ts_utc k ∈ cd_ts_utc <$> ta_good t) as (g&Hts&Hgin)%list_elem_of_fmap.
      { rewrite <- Hkeys. apply dget_is_Some. eauto. }
      exists k, g. split_and!; [done..|]. specialize (Hh g Hgin). rewrite <- Hts, Hd in Hh. congruence.
Qed.

Lemma enforce_inv candles seen t t' : tally_inv seen t → enforce sha256_hex policy tf t candles = Ok t' → tally_inv (seen ++ candles) t'.
Proof using Type.
  revert seen t. induction candles as [|c candles IH]; simpl; intros seen t Hinv He; [rewrite app_nil_r; congruence|].
  apply rbind_Ok in He as (t1&H1&He). rewrite cons_middle, app_assoc. eapply IH; [|exact He]. by eapply record_outcome_inv.
Qed.

Lemma no_tally_inv : tally_inv [] no_tally.
Proof using Type.
  assert (∀ (A : Type) (x : A), x ∈ [] → False) as Hnil by (intros A x Hx; by apply not_elem_of_nil in Hx).
  split; simpl; first [done|intros; exfalso; by eapply Hnil|apply NoDup_nil_2|by split|by apply Forall_nil_2].
Qed.

End policy_loop.

(** What the policy loop promises: it accounts for every candle; the kept
    ones come in the order they were fetched, with distinct times, values in
    range and no step longer than a period; what is quarantined is what the
    policy quarantines; and what is left out is the same candle again or was
    dropped by [skip]. *)
Theorem policy_loop_spec (sha256_hex : string → string) (policy : PartialFailurePolicy) (tf : Timeframe)
    (candles : list candle_like) (t : tally) :
  enforce sha256_hex policy tf no_tally candles = Ok t →
  length candles = (length (ta_good t) + length (ta_quarantine t) + ta_skip_count t)%nat ∧
  sublist (of_candle <$> ta_good t) candles ∧ sublist (ta_quarantine t).*1 candles ∧
  NoDup (cd_ts_utc <$> ta_good t) ∧ Forall in_range (ta_good t) ∧ gap_free tf (ta_good t) ∧
  Forall (λ q, resolve_decision q.2 policy = QUARANTINE) (ta_quarantine t) ∧
  (∀ c, c ∈ candles → (∃ k, k ∈ ta_good t ∧ c = of_candle k) ∨ c ∈ (ta_quarantine t).*1 ∨
     left_out sha256_hex policy (ta_good t) c) ∧
  (policy ≠ PolicyQuarantine → ta_quarantine t = []).
Proof.
  intros He. destruct (enforce_inv _ _ _ _ _ _ _ (no_tally_inv _ _ _) He) as [Hc Hg [Hq Hqd] _ _ _ Hnd Hr Hgap Hl].
  split_and!; try done. intros Hp. destruct (ta_quarantine t) as [|q qs]; [done|]. apply Forall_cons in Hqd as [Hq1 _].
  by destruct policy.
Qed.

(** ** What the command changes *)

Section effects.
Context (sha256_hex : string → string) (arrow_decimal : decimal → option decimal) `{Parquet ohlcv_row}.
Context (symbol_from_string : string → res string) (is_D1 : Timeframe → bool) (cutoff : res Z).
Context (fetch : nat → res (list candle_like)) (clock : nat → Z) (fails : path → option exn) (written : res unit).
Notation backfill := (backfill sha256_hex arrow_decimal symbol_from_string is_D1 cutoff fetch clock fails written).
Notation store_good := (store_good sha256_hex arrow_decimal clock fails written).

(** The arguments of the writer *)
Definition command_write (a : backfill_args) (sym : string) (start_utc end_utc : Z) : write_args :=
  WriteArgs (ba_root a) (resolved_snapshot sha256_hex a sym start_utc end_utc) None None None None.

(** The files of a run *)
Definition run_file (a : backfill_args) (sym : string) (start_utc end_utc : Z) (t : tally) (p : path) : Prop :=
  let w := command_write a sym start_utc end_utc in
  (∃ c ts r, (c, r) ∈ ta_quarantine t ∧ cl_ts_utc c = Some ts ∧
     p = quarantine_path (ba_root a) (BatchId (ba_exchange a) sym (ba_timeframe a) (wa_snapshot_id w)) ts r) ∨
  ∃ k, head (ta_good t) = Some k ∧
    (p = target_of_batch w k ∨ p = partition_of_batch w k ++ ["_lineage_" +:+ wa_snapshot_id w +:+ ".json"]).

Lemma write_quarantine_frame root b q d d' r p : write_quarantine fails root b q d = (d', r) →
  d' !! p = d !! p ∨ ∃ c ts reason, (c, reason) ∈ q ∧ cl_ts_utc c = Some ts ∧ p = quarantine_path root b ts reason.
Proof using Type.
  revert d. induction q as [|[c reason] q IH]; simpl; unfold pret, praise, pbind, write_text; intros d Hw; [left; by simplify_eq|].
  destruct (cl_ts_utc c) as [ts|] eqn:Hts; [|left; by simplify_eq].
  destruct (fails _); [left; by simplify_eq|]. destruct (decide (p = quarantine_path root b ts reason)) as [->|Hne].
  - right. exists c, ts, reason. split; [by left|done].
  - destruct (IH _ Hw) as [->|(c'&ts'&r'&?&?&?)]; [left; by rewrite lookup_insert_ne|right; exists c', ts', r'; split; [by right|done]].
Qed.

Lemma write_candles_frame candles a now d d' r c p : head candles = Some c →
  write_candles sha256_hex arrow_decimal candles a now written d = (d', r) →
  (d' !! p = d !! p ∨ p = target_of_batch a c) ∧ (∀ partition, r = Ok partition → partition = partition_of_batch a c).
Proof using Type.
  intros Hc Hw. destruct candles as [|c' rest]; [done|]. injection Hc as ->. unfold write_candles in Hw. cbv zeta in Hw.
  destruct (candles_to_arrow _ _ _ _ _); [|simplify_eq; split; [by left|done]].
  destruct (same_hashes _ _ _); [simplify_eq; split; [by left|congruence]|].
  destruct written; simplify_eq; [|split; [by left|done]]. split; [|congruence].
  destruct (decide (p = target_of_batch a c)); [by right|left; by rewrite lookup_insert_ne].
Qed.

Lemma store_good_frame a sym s e candles t d d' r p : store_good a sym s e candles t d = (d', r) →
  d' !! p = d !! p ∨ run_file a sym s e t p.
Proof using Type.
  unfold BackfillCommand.store_good, pbind, pret, praise, plift. intros Hw.
  destruct (write_quarantine _ _ _ _ _) as [d1 r1] eqn:Hq. apply (write_quarantine_frame _ _ _ _ _ _ p) in Hq as [<-|Hq]; [|right; by left].
  destruct r1 as [[]|ex]; [|left; by simplify_eq].
  destruct (ta_good t) as [|k good] eqn:Hgood; [left; by simplify_eq|].
  destruct (write_candles _ _ _ _ _ _ _) as [d2 r2] eqn:Hwc.
  destruct (write_candles_frame (k :: good) (command_write a sym s e) _ _ _ _ k p eq_refl Hwc) as [[<-|Ht] Hpart];
    [|right; right; exists k; rewrite Hgood; auto].
  destruct r2 as [partition|ex]; [|left; by simplify_eq]. rewrite (Hpart partition eq_refl) in *.
  destruct (response_lines candles); [|left; by simplify_eq]. cbv beta iota in Hw. unfold write_lineage, write_text in Hw.
  destruct (fails _); [left; by simplify_eq|]. injection Hw as <- _.
  destruct (decide (p = partition_of_batch (command_write a sym s e) k ++
    ["_lineage_" +:+ wa_snapshot_id (command_write a sym s e) +:+ ".json"])) as [->|Hne].
  - right. right. exists k. rewrite Hgood. auto.
  - left. by rewrite lookup_insert_ne.
Qed.

Lemma backfill_window_spec a sym s e : backfill_window symbol_from_string is_D1 cutoff a (clock 0) = Ok (sym, s, e) →
  s < e ∧ (ba_allow_post_cutoff a = false → ∃ limit, cutoff = Ok limit ∧ e < limit).
Proof using Type.
  unfold backfill_window. intros Hw.
  assert (∃ end_utc, (let? sym0 := symbol_from_string (ba_symbol a) in
    let? start_utc := window_start a end_utc in
    if end_utc <=? start_utc then Raise BadParameter
    else let? cutoff := cutoff in
         let? post := is_post_cutoff (Aware end_utc) cutoff in
         if post && negb (ba_allow_post_cutoff a) then Raise ClickException else Ok (sym0, start_utc, end_utc)) = Ok (sym, s, e))
    as (end_utc&(sym0&_&Hx)%rbind_Ok).
  { destruct (ba_days a), (ba_start_iso a); [done|..];
    apply rbind_Ok in Hw as (sym0&->&(end_utc&_&Hx)%rbind_Ok); exists end_utc; exact Hx. }
  apply rbind_Ok in Hx as (start&_&Hx). destruct (Z.leb_spec end_utc start); [done|].
  apply rbind_Ok in Hx as (limit&Hl&Hx). cbn [is_post_cutoff rbind] in Hx.
  destruct (Z.leb_spec limit end_utc); destruct (ba_allow_post_cutoff a) eqn:Ha; simpl in Hx; simplify_eq; (split; [lia|eauto with lia]).
Qed.

Lemma fetch_candles_spec candles : fetch_candles fetch 1 API_MAX_RETRIES = Ok candles → ∃ i, (1 <= i <= 3)%nat ∧ fetch i = Ok candles.
Proof using Type.
  simpl. intros Hf. destruct (fetch 1%nat) eqn:H1; [exists 1%nat; simplify_eq; split; [lia|done]|].
  destruct (fetch 2%nat) eqn:H2; [exists 2%nat; simplify_eq; split; [lia|done]|].
  destruct (fetch 3%nat) eqn:H3; [exists 3%nat; simplify_eq; split; [lia|done]|done].
Qed.

(** The command is guarded: where it changes a file, the window is valid
    and, unless the operator overrides it, ends before the cutoff; it is no dry
    run; candles were fetched and the policy has passed the whole batch; and
    the file is a quarantined candle's, the batch's or its lineage. *)
Theorem backfill_guarded (a : backfill_args) (d d' : disk) (r : res (option backfill_report)) (p : path) :
  backfill a d = (d', r) → d' !! p ≠ d !! p →
  ∃ sym start_utc end_utc candles t,
    backfill_window symbol_from_string is_D1 cutoff a (clock 0) = Ok (sym, start_utc, end_utc) ∧
    start_utc < end_utc ∧ (ba_allow_post_cutoff a = false → ∃ limit, cutoff = Ok limit ∧ end_utc < limit) ∧
    ba_dry_run a = false ∧ (∃ i, (1 <= i <= 3)%nat ∧ fetch i = Ok candles) ∧
    enforce sha256_hex (ba_policy a) (ba_timeframe a) no_tally candles = Ok t ∧ run_file a sym start_utc end_utc t p.
Proof.
  unfold BackfillCommand.backfill, pbind, plift, pret, praise. intros Hb Hp. cbv beta in Hb.
  destruct (backfill_window _ _ _ _ _) as [[[sym s] e]|ex] eqn:Hw; [|by simplify_eq].
  destruct (ba_dry_run a) eqn:Hdry; [by simplify_eq|]. destruct (get_candle_provider _); [|by simplify_eq].
  destruct (fetch_candles fetch 1 API_MAX_RETRIES) as [candles|ex] eqn:Hfetch; [|by simplify_eq].
  assert (∃ t, enforce sha256_hex (ba_policy a) (ba_timeframe a) no_tally candles = Ok t ∧ run_file a sym s e t p) as (t&He&Hrun).
  { destruct candles as [|c cs]; [by simplify_eq|]. destruct (enforce _ _ _ _ _) as [t|ex]; [|by simplify_eq]. exists t. split; [done|].
    destruct (store_good a sym s e (c :: cs) t d) as [d1 [rep|ex]] eqn:Hs; simplify_eq.
    all: destruct (store_good_frame _ _ _ _ _ _ _ _ _ p Hs); [by destruct Hp|done]. }
  destruct (backfill_window_spec _ _ _ _ Hw) as [Hlt Hcut].
  exists sym, s, e, candles, t. split_and!; try done. by apply fetch_candles_spec.
Qed.

(** *** From the command to a scan *)

#[local] Arguments String.append !_ _ / : simpl nomatch.

Context (arrow_decimal_exact : ∀ x y, arrow_decimal x = Some y → deqb x y = true) `{!ParquetLaws ohlcv_row}.
Context (duckdb_scan : disk → list path → Z → Z → res (list (ohlcv_row * path))) `{!ScanLaws duckdb_scan}.

Lemma app_last_char s s' c c' : s +:+ String c "" = s' +:+ String c' "" → c = c'.
Proof using Type.
  clear. revert s'. induction s as [|x s IH]; intros [|x' s'] Heq; cbn [String.append] in Heq.
  - congruence.
  - injection Heq as _ Heq. by destruct s'.
  - injection Heq as _ Heq. by destruct s.
  - injection Heq as _ Heq. by apply (IH s').
Qed.

Lemma substring_split (n m : nat) s : (n + m = String.length s)%nat → String.substring 0 n s +:+ String.substring n m s = s.
Proof using Type.
  clear. revert s. induction n as [|n IH]; intros s Hn.
  - replace (String.substring 0 0 s) with "" by (by destruct s). simpl in Hn. subst m. apply substring_full.
  - destruct s as [|c s]; [done|]. cbn [String.substring String.append]. f_equal. apply IH. simpl in Hn. lia.
Qed.

Lemma json_is_no_parquet s : is_parquet (s +:+ ".json") = false.
Proof using Type.
  clear. destruct (is_parquet (s +:+ ".json")) eqn:Hp; [|done]. unfold is_parquet in Hp. py_bool.
  match goal with H : String.eqb _ _ = true |- _ => apply String.eqb_eq in H; rename H into Hs end.
  set (t := s +:+ ".json") in *. set (n := (String.length t - 8)%nat) in *.
  assert (t = String.substring 0 n t +:+ ".parquet") as Ht.
  { rewrite <- Hs. symmetry. apply substring_split. lia. }
  unfold t in Ht at 1. change ".json" with (".jso" +:+ "n") in Ht. change ".parquet" with (".parque" +:+ "t") in Ht.
  rewrite <- !string_app_assoc in Ht. by apply app_last_char in Ht.
Qed.

Lemma store_good_Ok a sym s e candles t d d' rep : store_good a sym s e candles t d = (d', Ok rep) →
  br_tally rep = t ∧ ∃ d1 d2 partition text,
    write_quarantine fails (ba_root a) (BatchId (ba_exchange a) sym (ba_timeframe a) (resolved_snapshot sha256_hex a sym s e))
      (ta_quarantine t) d = (d1, Ok tt) ∧
    write_candles sha256_hex arrow_decimal (ta_good t) (command_write a sym s e) (clock 1) written d1 = (d2, Ok partition) ∧
    d' = <[partition ++ ["_lineage_" +:+ resolved_snapshot sha256_hex a sym s e +:+ ".json"] := text]> d2.
Proof using Type.
  unfold BackfillCommand.store_good, pbind, pret, praise, plift. intros Hw.
  destruct (write_quarantine _ _ _ _ _) as [d1 [[]|ex]]; [|done]. destruct (ta_good t) as [|k good] eqn:Hgood; [done|].
  destruct (write_candles _ _ _ _ _ _ _) as [d2 [partition|ex]] eqn:Hwc; [|done].
  destruct (response_lines candles); [|done]. cbv beta iota in Hw. unfold write_lineage, write_text in Hw.
  destruct (fails _); [done|]. injection Hw as <- <-. split; [done|]. exists d1, d2, partition. eexists. split_and!; [done|exact Hwc|done].
Qed.

(** Quarantined candles lie beside the candles. *)
Lemma write_quarantine_fresh root b q d d' r : fresh root d → write_quarantine fails root b q d = (d', r) → fresh root d'.
Proof using Type.
  intros Hf Hw rest. destruct (write_quarantine_frame _ _ _ _ _ _ (schema_root root ++ rest) Hw) as [->|(c&ts&reason&_&_&Heq)]; [apply Hf|].
  unfold schema_root, quarantine_path in Heq. rewrite <- app_assoc in Heq. apply app_inv_head in Heq. discriminate Heq.
Qed.

(** A lineage file beside it leaves the batch the only one. *)
Lemma lineage_beside_batch w k d s text : holds_batch w k d →
  let d' := <[partition_of_batch w k ++ ["_lineage_" +:+ s +:+ ".json"] := text]> d in
  holds_batch w k d' ∧ d' !! target_of_batch w k = d !! target_of_batch w k.
Proof using Type.
  intros [Hin Honly] d'. set (name := "_lineage_" +:+ s +:+ ".json") in *.
  assert (is_parquet name = false) as Hname by (unfold name; rewrite <- string_app_assoc; apply json_is_no_parquet).
  assert (d' !! target_of_batch w k = d !! target_of_batch w k) as Ht.
  { apply lookup_insert_ne. unfold target_of_batch. intros Heq%app_inv_head. injection Heq as Heq.
    pose proof (batch_file_parquet w). congruence. }
  split; [|done]. split; [by rewrite Ht|]. intros rest Hr.
  destruct (decide (partition_of_batch w k ++ [name] = schema_root (wa_root w) ++ rest)) as [<-|Hne]; [eauto|].
  unfold d' in Hr. rewrite lookup_insert_ne in Hr by done. auto.
Qed.

(** C19.  From the command to a reader: a run on a data root without candles
    that returns a report has kept distinct candles, and a scan of any window
    yields exactly those of the window, in order of time and with equal
    values. *)
Theorem backfill_round_trip (a : backfill_args) (d d' : disk) (rep : backfill_report) (k : candle) (start end_ : Z) :
  fresh (ba_root a) d → backfill a d = (d', Ok (Some rep)) → head (ta_good (br_tally rep)) = Some k →
  ∃ out, scan_candles duckdb_scan (ba_root a) (cd_exchange k) (cd_symbol k) (tf_value (cd_timeframe k)) start end_ [Historical] d' = Ok out ∧
    Forall2 reads_back
      (sorted_by cd_ts_utc (List.filter (λ x, (start <=? cd_ts_utc x) && (cd_ts_utc x <? end_)) (ta_good (br_tally rep)))) out.
Proof.
  intros Hf Hb Hk. unfold BackfillCommand.backfill, pbind, plift, pret, praise in Hb. cbv beta in Hb.
  destruct (backfill_window _ _ _ _ _) as [[[sym s] e]|ex]; [|done].
  destruct (ba_dry_run a); [done|]. destruct (get_candle_provider _); [|done].
  destruct (fetch_candles fetch 1 API_MAX_RETRIES) as [[|c cs]|ex]; [done| |done].
  destruct (enforce _ _ _ _ _) as [t|ex] eqn:He; [|done].
  destruct (store_good a sym s e (c :: cs) t d) as [d1 [rep'|ex]] eqn:Hs; [|done]. injection Hb as <- ->.
  apply store_good_Ok in Hs as (Ht&dq&dw&partition&text&Hq&Hw&->). rewrite Ht in *.
  apply write_quarantine_fresh in Hq; [|done].
  destruct (fresh_write _ _ (ta_good t) (command_write a sym s e) _ _ _ _ _ k Hq Hk Hw) as (rows&Hrows&Hdw&->&Hd).
  destruct (lineage_beside_batch _ _ _ (resolved_snapshot sha256_hex a sym s e) text Hd) as [Hd' Hsame].
  destruct (enforce_inv _ _ _ _ _ _ _ (no_tally_inv _ _ _) He) as [_ _ _ _ _ _ Hnd _ _ _].
  eapply (scan_batch sha256_hex arrow_decimal arrow_decimal_exact duckdb_scan (ta_good t) (command_write a sym s e)); [exact Hd'|done|done|exact Hrows|].
  unfold file_rows. rewrite Hsame, Hdw, lookup_insert_eq. apply pq_rows_write.
Qed.

End effects.

(** ** The last closed boundary *)

(** The boundary is at most one period back, a multiple of the period since the
    epoch, or midnight in Korea for days. *)
Lemma last_closed_boundary_spec is_D1 now tf : tf_delta tf mod 1000000 = 0 → 0 < tf_delta tf →
  let b := last_closed_boundary is_D1 now tf in
  b <= now ∧
  (is_D1 tf = false → now < b + tf_delta tf ∧ b mod tf_delta tf = 0) ∧
  (is_D1 tf = true → now < b + microseconds_per_day ∧ (b + nine_hours) mod microseconds_per_day = 0).
Proof.
  intros Hs Hd. unfold last_closed_boundary. destruct (is_D1 tf).
  - pose proof (Z.div_mod (now + nine_hours) microseconds_per_day ltac:(done)) as Hdm.
    pose proof (Z.mod_pos_bound (now + nine_hours) microseconds_per_day ltac:(done)).
    split; [lia|]. split; [done|]. intros _. split; [lia|]. rewrite Z.sub_add. by apply Z.mod_mul.
  - apply Z.div_exact in Hs; [|done]. set (s := tf_delta tf / 1000000) in *. assert (0 < s) by lia. rewrite Hs.
    pose proof (Z.div_mod now 1000000 ltac:(done)). pose proof (Z.mod_pos_bound now 1000000 ltac:(done)).
    set (e := now / 1000000) in *. pose proof (Z.mod_pos_bound e s ltac:(lia)). pose proof (Z.div_mod e s ltac:(lia)).
    split; [lia|]. split; [|done]. intros _. split; [lia|].
    replace ((e - e mod s) * 1000000) with (e / s * (1000000 * s)) by lia. apply Z.mod_mul. lia.
Qed.

(** ** Concrete runs *)

#[local] Instance command_parquet : Parquet ohlcv_row := countable_parquet r_ts_utc.
#[local] Instance command_parquet_laws : ParquetLaws ohlcv_row := countable_parquet_laws r_ts_utc.

Definition fetched (n close volume : Z) : candle_like :=
  CandleLike (Some (n * hour)) (Some "upbit") (Some "KRW-BTC") (Some H1) (Some (dint 1)) (Some (dint 9)) (Some (dint 1))
    (Some (dint close)) (Some (dint volume)) None.
Definition example_backfill_args (policy : PartialFailurePolicy) (end_iso : string) : backfill_args :=
  BackfillArgs "upbit" "KRW-BTC" H1 None (Some "2026-05-01T00:00:00Z") (Some end_iso) policy false ["data"] (Some "s") false.
(** The provider fails once, then gives the candles. *)
Definition second_time (candles : list candle_like) (i : nat) : res (list candle_like) :=
  if (i =? 1)%nat then Raise (OtherException "Timeout") else Ok candles.
Definition example_backfill (policy : PartialFailurePolicy) (end_iso : string) (candles : list candle_like)
  : proc disk (option backfill_report) :=
  backfill text_hash decimal128 (λ s, Ok s) (λ _, false) (Ok DEFAULT_CUTOFF_TIMESTAMP) (second_time candles) (λ i, Z.of_nat i * hour)
    (λ _, None) (Ok tt) (example_backfill_args policy end_iso).
Definition loop (policy : PartialFailurePolicy) (candles : list candle_like) : res tally :=
  enforce text_hash policy H1 no_tally candles.
Definition counts (r : res tally) : res (nat * nat * nat) :=
  let? t := r in Ok (length (ta_good t), length (ta_quarantine t), ta_skip_count t).

Lemma policy_loop_spec_witness :
  ∃ t, loop PolicyQuarantine [fetched 2 3 5; fetched 3 3 (-5); fetched 3 4 5; fetched 3 4 5; fetched 2 4 5] = Ok t ∧
    NoDup (cd_ts_utc <$> ta_good t) ∧ length (ta_quarantine t) = 2%nat.
Proof.
  destruct (loop PolicyQuarantine [fetched 2 3 5; fetched 3 3 (-5); fetched 3 4 5; fetched 3 4 5; fetched 2 4 5]) as [t|e] eqn:Ht;
    [|exfalso; assert (is_ok (loop PolicyQuarantine [fetched 2 3 5; fetched 3 3 (-5); fetched 3 4 5; fetched 3 4 5; fetched 2 4 5]) = true)
       as Hok by (vm_compute; reflexivity); by rewrite Ht in Hok].
  exists t. split; [reflexivity|].
  destruct (policy_loop_spec text_hash PolicyQuarantine H1 _ t Ht) as (_&_&_&Hnd&_). split; [exact Hnd|].
  assert (counts (loop PolicyQuarantine [fetched 2 3 5; fetched 3 3 (-5); fetched 3 4 5; fetched 3 4 5; fetched 2 4 5]) = Ok (2, 2, 1)%nat)
    as Hc by (vm_compute; reflexivity).
  rewrite Ht in Hc. simpl in Hc. congruence.
Defined.

Definition two_candles : list candle_like := [fetched 2 3 5; fetched 3 4 5].
Definition first_candle : candle := Candle (2 * hour) "upbit" "KRW-BTC" H1 (dint 1) (dint 9) (dint 1) (dint 3) (dint 5) None.
Definition first_target : path := target_of_batch (WriteArgs ["data"] "s" None None None None) first_candle.

Lemma backfill_guarded_witness :
  ∃ d' r, example_backfill PolicyHalt "2026-05-31T00:00:00Z" two_candles ∅ = (d', r) ∧ is_Some (d' !! first_target) ∧
    ∃ end_utc limit, @Ok Z DEFAULT_CUTOFF_TIMESTAMP = Ok limit ∧ end_utc < limit.
Proof.
  assert (bool_decide (is_Some ((example_backfill PolicyHalt "2026-05-31T00:00:00Z" two_candles ∅).1 !! first_target)) = true) as Hp
    by (vm_compute; reflexivity).
  apply bool_decide_eq_true in Hp. generalize dependent first_target. intros p Hp.
  destruct (example_backfill PolicyHalt "2026-05-31T00:00:00Z" two_candles ∅) as [d' r] eqn:Hr. cbn [fst] in Hp.
  exists d', r. split; [reflexivity|]. split; [exact Hp|]. unfold example_backfill in Hr.
  destruct (backfill_guarded text_hash decimal128 (λ s, Ok s) (λ _, false) (Ok DEFAULT_CUTOFF_TIMESTAMP) (second_time two_candles)
    (λ i, Z.of_nat i * hour) (λ _, None) (Ok tt) (example_backfill_args PolicyHalt "2026-05-31T00:00:00Z") ∅ d' r p Hr)
    as (sym&s&e&candles&t&_&_&Hcut&_).
  - rewrite lookup_empty. destruct Hp as [b Hb]. rewrite Hb. discriminate.
  - destruct (Hcut eq_refl) as (limit&Hl&He). exists e, limit. split; [exact Hl|exact He].
Defined.

Lemma backfill_round_trip_witness :
  ∃ d' out, scan_candles plain_scan ["data"] "upbit" "KRW-BTC" "1h" 0 (9 * hour) [Historical] d' = Ok out ∧
    length out = 2%nat.
Proof.
  destruct (example_backfill PolicyHalt "2026-05-31T00:00:00Z" two_candles ∅) as [d' r] eqn:Hr.
  assert ((match (example_backfill PolicyHalt "2026-05-31T00:00:00Z" two_candles ∅).2 with
           | Ok (Some rep) => Ok (ta_good (br_tally rep)) | _ => Raise ValueError end) =
    Ok [first_candle;
        Candle (3 * hour) "upbit" "KRW-BTC" H1 (dint 1) (dint 9) (dint 1) (dint 4) (dint 5) None]) as Hgood
    by (vm_compute; reflexivity).
  rewrite Hr in Hgood. cbn [snd] in Hgood. unfold example_backfill in Hr. destruct r as [[rep|]|e]; [|discriminate..]. apply Ok_inj in Hgood.
  destruct (backfill_round_trip text_hash decimal128 (λ s, Ok s) (λ _, false) (Ok DEFAULT_CUTOFF_TIMESTAMP) (second_time two_candles)
    (λ i, Z.of_nat i * hour) (λ _, None) (Ok tt) decimal128_exact plain_scan (example_backfill_args PolicyHalt "2026-05-31T00:00:00Z") ∅ d' rep
    first_candle 0 (9 * hour)) as (out&Hout&Hpairs).
  - apply fresh_empty.
  - exact Hr.
  - rewrite Hgood. reflexivity.
  - exists d', out. split; [exact Hout|]. rewrite Hgood in Hpairs. apply Forall2_length in Hpairs. symmetry. exact Hpairs.
Defined.

(** ** Surprises *)

(** Under [skip] a candle after a gap is left out and does not become the
    previous one, so everything after the gap is left out too. *)
Lemma gap_skips_the_rest sha256_hex tf t p candles :
  ta_prev_ts t = Some p → Forall (λ c, ∃ k, complete c = Some k ∧ tf_delta tf < cd_ts_utc k - p) candles →
  ∃ t', enforce sha256_hex PolicySkip tf t candles = Ok t' ∧ ta_good t' = ta_good t ∧
    ta_skip_count t' = (length candles + ta_skip_count t)%nat.
Proof.
  intros Hp Hc. revert t Hp. induction Hc as [|c candles (k&Hk&Hgap) _ IH]; intros t Hp; simpl; [eauto|].
  assert (examine sha256_hex PolicySkip tf (ta_prev_ts t) (ta_seen_hashes t) c = Skipped) as ->.
  { unfold examine. rewrite (proj2 (check_schema_complete c)), Hk by eauto. rewrite Hp. unfold check_gap.
    apply Z.ltb_lt in Hgap. rewrite Hgap. unfold decide_on. simpl. rewrite (complete_Some c k Hk). done. }
  simpl. destruct (IH (Tally (ta_prev_ts t) (ta_seen_hashes t) (ta_good t) (ta_quarantine t) (S (ta_skip_count t))) Hp) as (t'&->&Hg&Hs).
  exists t'. split; [done|]. split; [done|]. rewrite Hs. simpl. lia.
Qed.

(** One missing hour under [skip]: the run succeeds with the first candle only. *)
Example one_gap_drops_the_rest :
  counts (loop PolicySkip [fetched 2 3 5; fetched 4 3 5; fetched 5 3 5; fetched 6 3 5]) = Ok (1, 0, 3)%nat.
Proof. vm_compute. reflexivity. Qed.

(** Two candles of one time with one reason share a quarantine file: the first
    is lost. *)
Example quarantine_file_is_overwritten :
  let candles := [fetched 2 3 5; fetched 2 4 5; fetched 2 6 5] in
  counts (loop PolicyQuarantine candles) = Ok (1, 2, 0)%nat ∧
  length (filter (λ p, below ["data"; "quarantine"] p ≠ None)
    (map_to_list (example_backfill PolicyQuarantine "2026-05-31T00:00:00Z" candles ∅).1).*1) = 1%nat.
Proof. split; vm_compute; reflexivity. Qed.

(** A window that ends at the cutoff is rejected: the guard is [>=], not the
    [>] of its comment. *)
Example window_to_the_cutoff_is_rejected :
  backfill_window (λ s, Ok s) (λ _, false) (Ok DEFAULT_CUTOFF_TIMESTAMP) (example_backfill_args PolicyHalt "2026-06-01T00:00:00Z") 0
    = Raise ClickException.
Proof. vm_compute. reflexivity. Qed.

(** The guard looks at the window, not at the candles: what the provider gives
    beyond the window, after the cutoff, is kept. *)
Example candle_after_the_cutoff_is_kept :
  let late := fetched (DEFAULT_CUTOFF_TIMESTAMP / hour + 1) 3 5 in
  match (example_backfill PolicyHalt "2026-05-31T00:00:00Z" [late] ∅).2 with
  | Ok (Some rep) => (λ k, DEFAULT_CUTOFF_TIMESTAMP <? cd_ts_utc k) <$> ta_good (br_tally rep)
  | _ => []
  end = [true].
Proof. vm_compute. reflexivity. Qed.
