(* ===== verification/TransactionTier.v ===== *)
(** * The transaction tier ([compactor/schema_upgrade.py],
    [compactor/transaction_tier.py])

    Tick tables of eight columns upgraded to eleven, and the two ways a table
    gets into the tier.  A table is its fields with their columns; Arrow's
    [Table.cast] is an argument with [CastLaws]; the file system has faults at
    each step; the open-writer gauge is a counter. *)
From S2P Require Import Prelude PyDecimal NasKey Wal.
From stdpp Require Import pretty.
Open Scope py_scope.
Open Scope string_scope.
Open Scope list_scope.
Open Scope Z_scope.

(** ** Tables *)

Inductive arrow_type := TimestampNs | ArrowString | Decimal128 | Uint64 | OtherType (name : string).
Record field := Field { f_name : string; f_type : arrow_type; f_nullable : bool }.
Inductive cell := Null | Text (s : string) | Num (n : Z) | Dec (d : decimal).

#[export] Instance arrow_type_eq_dec : EqDecision arrow_type.
Proof. solve_decision. Defined.
#[export] Instance field_eq_dec : EqDecision field.
Proof. solve_decision. Defined.

Record table := Table { num_rows : nat; columns : list (field * list cell) }.
Definition table_schema (t : table) : list field := (columns t).*1.
Definition column_names (t : table) : list string := f_name <$> table_schema t.

(** The cells of a type *)
Definition has_type (ty : arrow_type) (c : cell) : bool :=
  match c, ty with
  | Null, _ => true
  | Text _, ArrowString => true
  | Num n, TimestampNs => true
  | Num n, Uint64 => (0 <=? n) && (n <? 2 ^ 64)
  | Dec d, Decimal128 => (- 10 ^ 38 <? coef d) && (coef d <? 10 ^ 38)
  | _, OtherType _ => true
  | _, _ => false
  end.
Definition is_null (c : cell) : bool := match c with Null => true | _ => false end.
Definition column_ok (n : nat) (c : field * list cell) : bool :=
  (length c.2 =? n)%nat && forallb (has_type (f_type c.1)) c.2 && (f_nullable c.1 || negb (existsb is_null c.2)).
(** Columns of one length whose cells fit their fields *)
Definition well_typed (t : table) : bool := forallb (column_ok (num_rows t)) (columns t).

(** ** Schemas *)

Definition TICK_SCHEMA : list field :=
  [Field "ts_utc" TimestampNs false; Field "received_at" TimestampNs false; Field "exchange" ArrowString false;
   Field "symbol" ArrowString false; Field "price" Decimal128 false; Field "quantity" Decimal128 false;
   Field "side" ArrowString false; Field "raw_json" ArrowString true].
Definition TICK_V1_1_SCHEMA : list field :=
  TICK_SCHEMA ++ [Field "ingest_seq" Uint64 true; Field "payload_hash" ArrowString true; Field "validation_status" ArrowString false].
Definition TICK_V1_1_SCHEMA_VERSION : string := "tick.v1.1".

(** ** The upgrade *)

(** [pa.Table.from_arrays(columns, names=names)]: all fields are nullable. *)
Definition from_arrays (n : nat) (cols : list (field * list cell)) : table :=
  Table n ((λ c, (Field (f_name c.1) (f_type c.1) true, c.2)) <$> cols).
Definition add_column (t : table) (name : string) (ty : arrow_type) (c : cell) (cols : list (field * list cell)) : list (field * list cell) :=
  if bool_decide (name ∈ (λ c, f_name c.1) <$> cols) then cols else cols ++ [(Field name ty true, replicate (num_rows t) c)].

Section upgrade.
Context (table_cast : table → list field → res table).

Definition upgrade_v1_table_to_v1_1 (t : table) : res table :=
  if decide (table_schema t = TICK_V1_1_SCHEMA) then Ok t
  else
    let cols := add_column t "ingest_seq" Uint64 Null (columns t) in
    let cols := add_column t "payload_hash" ArrowString Null cols in
    let cols := add_column t "validation_status" ArrowString (Text "OK") cols in
    table_cast (from_arrays (num_rows t) cols) TICK_V1_1_SCHEMA.

(** [read_tick_parquet_as_v1_1]; [read] is [ParquetFile(path).read()]. *)
Definition read_tick_parquet_as_v1_1 (read : res table) : res table := rbind read upgrade_v1_table_to_v1_1.

End upgrade.

(** What is documented of [Table.cast]: the names of the target must be the
    table's in its order; a column of the target type keeps its values; nulls
    must be allowed by the target. *)
Class CastLaws (table_cast : table → list field → res table) := {
  cast_names t schema : column_names t ≠ f_name <$> schema → ∃ e, table_cast t schema = Raise e;
  cast_Ok t schema t' : well_typed t = true → table_cast t schema = Ok t' →
    table_schema t' = schema ∧ num_rows t' = num_rows t ∧ well_typed t' = true ∧
    ∀ i f f' col, columns t !! i = Some (f, col) → schema !! i = Some f' → f_type f = f_type f' → columns t' !! i = Some (f', col);
  cast_same t schema : well_typed t = true → column_names t = f_name <$> schema → f_type <$> table_schema t = f_type <$> schema →
    Forall2 (λ c f, f_nullable f = true ∨ existsb is_null c.2 = false) (columns t) schema → ∃ t', table_cast t schema = Ok t' }.

(** ** The tier *)

Notation path := (list string).

(** A Parquet file: its schema and what was written, batch by batch *)
Record parquet_file := ParquetFile { pf_schema : list field; pf_batches : list table }.
Record tier := Tier { files : gmap path parquet_file; writer_open_count : Z }.

Definition TRANSACTION_L1_ROLL_BYTES : Z := 256 * 1024 * 1024.
Definition should_roll (current_bytes : Z) : bool := TRANSACTION_L1_ROLL_BYTES <=? current_bytes.

Record part_id := PartId { pi_exchange : string; pi_symbol : string; pi_date_utc : string; pi_node_id : string; pi_run_id : string }.

Definition partition_dir (root : path) (p : part_id) : path :=
  root ++ ["market"; "transaction"; "schema_version=" +:+ TICK_V1_1_SCHEMA_VERSION; "tier=L1"; "exchange=" +:+ pi_exchange p;
           "symbol=" +:+ pi_symbol p; "date=" +:+ pi_date_utc p; "node=" +:+ pi_node_id p].
Definition derive_partition_path (root : path) (p : part_id) : path := partition_dir root p ++ ["part-" +:+ pi_run_id p +:+ ".parquet"].

(** [inc(); try: body finally: dec()] *)
Definition counted {A} (body : proc (gmap path parquet_file) A) : proc tier A := λ s,
  let open := writer_open_count s + 1 in
  let '(fs, r) := body (files s) in (Tier fs (open - 1), r).

(** The name [atomic_replace_parquet] writes to first; [suffix] is its
    counter's. *)
Definition tmp_beside (target : path) (suffix : string) : path :=
  removelast target ++ [default "" (last target) +:+ suffix].

(** [write_table], with the faults of the write and of the replacement *)
Definition write_table (root : path) (p : part_id) (suffix : string) (wf rf : option exn) (partial : option parquet_file) (t : table)
  : proc tier path :=
  let target := derive_partition_path root p in
  counted (atomic_replace_parquet wf rf partial (tmp_beside target suffix) target (ParquetFile (table_schema t) [t])) ;! pret target.

Record stream_faults := StreamFaults { sf_open : option exn; sf_close : option exn; sf_replace : option exn; sf_unlink : option exn }.

(** The loop over the batches; the iterator may raise, and a writer takes no
    batch of another schema. *)
Fixpoint write_batches (batches : list (res table)) (written : list table) : list table * res unit :=
  match batches with
  | [] => (written, Ok tt)
  | Raise e :: _ => (written, Raise e)
  | Ok b :: batches =>
      if decide (table_schema b = TICK_V1_1_SCHEMA) then write_batches batches (written ++ [b]) else (written, Raise ValueError)
  end.

(** The body of [write_table_streaming]; [tmp] is what [mkstemp] made. *)
Definition stream_body (faults : stream_faults) (tmp target : path) (batches : list (res table)) : proc (gmap path parquet_file) unit := λ fs,
  let fs := <[tmp := ParquetFile [] []]> fs in
  let fail (fs : gmap path parquet_file) (e : exn) : gmap path parquet_file * res unit :=
    (match sf_unlink faults with Some _ => fs | None => delete tmp fs end, Raise e) in
  match sf_open faults with
  | Some e => fail fs e
  | None =>
      let '(written, r) := write_batches batches [] in
      let fs := <[tmp := ParquetFile TICK_V1_1_SCHEMA written]> fs in
      match r, sf_close faults, sf_replace faults with
      | Raise e, None, _ => fail fs e
      | _, Some e, _ => fail fs e
      | Ok _, None, Some e => fail fs e
      | Ok _, None, None => (<[target := ParquetFile TICK_V1_1_SCHEMA written]> (delete tmp fs), Ok tt)
      end
  end.

Definition write_table_streaming (root : path) (p : part_id) (mkstemp : res string) (faults : stream_faults) (batches : list (res table))
  : proc tier path :=
  let target := derive_partition_path root p in
  let! name := plift mkstemp in
  counted (stream_body faults (removelast target ++ [name +:+ ".parquet.tmp"]) target batches) ;! pret target.

(** ** The upgraded table *)

Section upgrade_lemmas.
Context (table_cast : table → list field → res table) `{!CastLaws table_cast}.
Notation upgrade := (upgrade_v1_table_to_v1_1 table_cast).

Lemma well_typed_spec t : well_typed t = true ↔ Forall (λ c, column_ok (num_rows t) c = true) (columns t).
Proof using Type.
  unfold well_typed. rewrite forallb_forall, Forall_forall. split; intros H c Hc; apply H; by apply list_elem_of_In.
Qed.

Lemma add_column_typed t name ty c cols : has_type ty c = true →
  Forall (λ k, column_ok (num_rows t) k = true) cols → Forall (λ k, column_ok (num_rows t) k = true) (add_column t name ty c cols).
Proof using Type.
  intros Hc Hcols. unfold add_column. case_bool_decide; [done|]. apply Forall_app. split; [done|]. repeat constructor.
  unfold column_ok. simpl. rewrite length_replicate, Nat.eqb_refl, andb_true_r. simpl. apply forallb_forall. intros x Hx.
  apply list_elem_of_In, elem_of_replicate in Hx as [-> _]. done.
Qed.

Lemma from_arrays_typed n cols : Forall (λ k, column_ok n k = true) cols → well_typed (from_arrays n cols) = true.
Proof using Type.
  intros Hc. apply well_typed_spec. simpl. apply Forall_fmap. eapply Forall_impl; [exact Hc|]. intros [f col]. unfold column_ok; simpl.
  rewrite !andb_true_iff. tauto.
Qed.

(** The three new columns of a table of the eight columns *)
Definition new_columns (n : nat) (nullable : bool) : list (field * list cell) :=
  [(Field "ingest_seq" Uint64 true, replicate n Null); (Field "payload_hash" ArrowString true, replicate n Null);
   (Field "validation_status" ArrowString nullable, replicate n (Text "OK"))].

(** The cells of a well-typed table of the eight columns are null where the
    target allows it only. *)
Lemma v1_nulls t : table_schema t = TICK_SCHEMA → well_typed t = true →
  Forall2 (λ c f, f_nullable f = true ∨ existsb is_null c.2 = false)
    (columns (from_arrays (num_rows t) (columns t ++ new_columns (num_rows t) true))) TICK_V1_1_SCHEMA.
Proof using Type.
  intros Hs Hw%well_typed_spec. unfold from_arrays. cbn [columns]. rewrite fmap_app. apply Forall2_app.
  - rewrite <- Hs. unfold table_schema. apply Forall2_fmap. clear Hs. induction Hw as [|c cols Hc _ IH]; constructor; [|done].
    unfold column_ok in Hc. apply andb_true_iff in Hc as [_ Hc]. apply orb_true_iff in Hc as [?|?%negb_true_iff]; auto.
  - unfold new_columns. constructor; [by left|]. constructor; [by left|]. constructor; [right|constructor].
    simpl. clear Hw. induction (num_rows t) as [|n IH]; [reflexivity|exact IH].
Qed.

(** A cast to the types a table has keeps all values. *)
Lemma cast_values t schema t' : well_typed t = true → f_type <$> table_schema t = f_type <$> schema →
  table_cast t schema = Ok t' → columns t' = zip schema (columns t).*2.
Proof using CastLaws0.
  intros Hw Htypes Hc. destruct (cast_Ok t schema t' Hw Hc) as (Hs&_&_&Hcol). apply list_eq. intros i.
  assert (length (columns t) = length schema) as Hlen.
  { apply (f_equal length) in Htypes. unfold table_schema in Htypes. by rewrite !length_fmap in Htypes. }
  destruct (columns t !! i) as [[f col]|] eqn:Hi.
  - destruct (lookup_lt_is_Some_2 schema i) as [f' Hf']; [rewrite <- Hlen; by eapply lookup_lt_Some|].
    assert (f_type f = f_type f') as Hft.
    { apply (f_equal (λ l, l !! i)) in Htypes. unfold table_schema in Htypes. rewrite !list_lookup_fmap, Hi, Hf' in Htypes. simpl in Htypes. congruence. }
    rewrite (Hcol i f f' col Hi Hf' Hft). symmetry. apply lookup_zip_Some. split; [done|]. by rewrite list_lookup_fmap, Hi.
  - apply lookup_ge_None in Hi. rewrite !(proj2 (lookup_ge_None _ _)); [done| |].
    + rewrite length_zip, length_fmap. lia.
    + assert (length (table_schema t') = length schema) as Hl' by by rewrite Hs. unfold table_schema in Hl'. rewrite length_fmap in Hl'. lia.
Qed.

Lemma upgraded_columns_typed t : well_typed t = true →
  well_typed (from_arrays (num_rows t) (add_column t "validation_status" ArrowString (Text "OK")
    (add_column t "payload_hash" ArrowString Null (add_column t "ingest_seq" Uint64 Null (columns t))))) = true.
Proof using Type. intros Hw. apply from_arrays_typed. do 3 (apply add_column_typed; [done|]). by apply well_typed_spec. Qed.

Lemma v1_columns t : table_schema t = TICK_SCHEMA →
  add_column t "validation_status" ArrowString (Text "OK")
    (add_column t "payload_hash" ArrowString Null (add_column t "ingest_seq" Uint64 Null (columns t))) =
  columns t ++ new_columns (num_rows t) true.
Proof using Type.
  clear CastLaws0 table_cast. intros Hs. assert (∀ name, (name ∈ (λ c, f_name c.1) <$> columns t) ↔ name ∈ f_name <$> TICK_SCHEMA) as Hnames.
  { intros name. rewrite <- Hs. unfold table_schema. by rewrite <- list_fmap_compose. }
  unfold add_column. rewrite (bool_decide_eq_false_2 ("ingest_seq" ∈ _)) by (rewrite Hnames; set_solver).
  rewrite (bool_decide_eq_false_2 ("payload_hash" ∈ _)) by (rewrite fmap_app, elem_of_app, Hnames; set_solver).
  rewrite (bool_decide_eq_false_2 ("validation_status" ∈ _)) by (rewrite !fmap_app, !elem_of_app, Hnames; set_solver).
  by rewrite <- !app_assoc.
Qed.

Lemma v1_types t : table_schema t = TICK_SCHEMA →
  let u := from_arrays (num_rows t) (columns t ++ new_columns (num_rows t) true) in
  column_names u = f_name <$> TICK_V1_1_SCHEMA ∧ f_type <$> table_schema u = f_type <$> TICK_V1_1_SCHEMA ∧
  columns u = (λ c, (Field (f_name c.1) (f_type c.1) true, c.2)) <$> columns t ++ new_columns (num_rows t) true.
Proof using Type.
  intros Hs u. assert ((λ c, f_type c.1) <$> columns t = f_type <$> TICK_SCHEMA ∧ (λ c, f_name c.1) <$> columns t = f_name <$> TICK_SCHEMA)
    as [Hty Hna] by (rewrite <- Hs; unfold table_schema; by rewrite <- !list_fmap_compose).
  unfold u, column_names, table_schema, from_arrays. cbn [columns]. rewrite <- !list_fmap_compose. unfold compose. cbn [fst f_name f_type].
  rewrite !fmap_app, Hty, Hna. done.
Qed.

(** C40.  The upgrade is typed: of a well-typed table it gives, if anything, a
    well-typed table of the eleven columns with as many rows, which it leaves as
    it is; and of every table of the eight columns it gives that table with
    empty sequence numbers and hashes and the status OK. *)
Theorem upgrade_spec (t : table) :
  well_typed t = true →
  (∀ t', upgrade t = Ok t' →
     table_schema t' = TICK_V1_1_SCHEMA ∧ num_rows t' = num_rows t ∧ well_typed t' = true ∧ upgrade t' = Ok t') ∧
  (table_schema t = TICK_SCHEMA → ∃ t', upgrade t = Ok t' ∧
     columns t' = columns t ++ new_columns (num_rows t) false).
Proof.
  intros Hw. pose proof (upgraded_columns_typed t Hw) as Hw'. unfold upgrade_v1_table_to_v1_1. split.
  - intros t' Hu. assert (table_schema t' = TICK_V1_1_SCHEMA ∧ num_rows t' = num_rows t ∧ well_typed t' = true) as (Hs&Hn&Ht).
    { destruct (decide _) as [Heq|]; [by injection Hu as <-|]. apply cast_Ok in Hu as (?&?&?&_); done. }
    by rewrite decide_True.
  - intros Hs. rewrite decide_False by (rewrite Hs; discriminate). rewrite v1_columns in * by done.
    destruct (v1_types t Hs) as (Hnames&Htypes&_). set (u := from_arrays _ _) in *.
    destruct (cast_same u TICK_V1_1_SCHEMA Hw' Hnames Htypes) as [t' Ht'].
    { by apply v1_nulls. }
    exists t'. split; [done|]. rewrite (cast_values u _ t' Hw' Htypes Ht'). unfold u, from_arrays. cbn [columns].
    rewrite <- list_fmap_compose. unfold compose. cbn [snd]. rewrite fmap_app. unfold TICK_V1_1_SCHEMA.
    rewrite zip_with_app by (rewrite length_fmap, <- Hs; unfold table_schema; by rewrite length_fmap).
    f_equal. rewrite <- Hs. apply zip_fst_snd.
Qed.

End upgrade_lemmas.

(** ** Concrete casts *)

(** A cast that changes names and types of nothing *)
Definition strict_cast (t : table) (schema : list field) : res table :=
  if decide (column_names t = f_name <$> schema ∧ f_type <$> table_schema t = f_type <$> schema ∧
             Forall2 (λ c f, f_nullable f = true ∨ existsb is_null c.2 = false) (columns t) schema)
  then Ok (Table (num_rows t) (zip schema (columns t).*2)) else Raise ValueError.

Lemma zip_typed n (cols : list (field * list cell)) (schema : list field) :
  Forall (λ c, column_ok n c = true) cols → f_type <$> cols.*1 = f_type <$> schema →
  Forall2 (λ c f, f_nullable f = true ∨ existsb is_null c.2 = false) cols schema →
  Forall (λ c, column_ok n c = true) (zip schema cols.*2).
Proof.
  intros Hc Hty Hn. induction Hn as [|[f col] f' cols schema Hnull _ IH]; simpl in *; [constructor|].
  injection Hty as Hf Hty. apply Forall_cons in Hc as [Hc Hcs]. constructor; [|by apply IH].
  unfold column_ok in *. simpl in *. rewrite !andb_true_iff in *. destruct Hc as [[Hl Ht] _]. rewrite <- Hf. split_and!; [done..|].
  destruct Hnull as [-> | ->]; [done|by rewrite orb_true_r].
Qed.

#[export] Instance strict_cast_laws : CastLaws strict_cast.
Proof.
  split; unfold strict_cast.
  - intros t schema Hne. rewrite decide_False by tauto. eauto.
  - intros t schema t' Hw Hc. destruct (decide _) as [(Hn&Hty&Hnull)|]; [|done]. injection Hc as <-.
    assert (length (columns t) = length schema) as Hlen by (by apply Forall2_length in Hnull).
    split_and!; [|done| |].
    + unfold table_schema. cbn [columns]. apply fst_zip. rewrite length_fmap. lia.
    + apply well_typed_spec. cbn [columns num_rows]. apply zip_typed; [by apply well_typed_spec|exact Hty|exact Hnull].
    + intros i f f' col Hi Hs Hft. cbn [columns]. apply lookup_zip_Some. split; [done|]. by rewrite list_lookup_fmap, Hi.
  - intros t schema Hw Hn Hty Hnull. rewrite decide_True by done. eauto.
Qed.

Definition tick_cells (price : Z) : list cell :=
  [Num 1; Num 2; Text "upbit"; Text "KRW-BTC"; Dec (dint price); Dec (dint 1); Text "buy"; Null].
Definition example_table : table := Table 1 (zip TICK_SCHEMA ((λ c, [c]) <$> tick_cells 5)).

Lemma upgrade_spec_witness :
  ∃ t', upgrade_v1_table_to_v1_1 strict_cast example_table = Ok t' ∧
    columns t' = columns example_table ++ new_columns 1 false.
Proof. apply (upgrade_spec strict_cast example_table); reflexivity. Defined.

(** The cast does not reorder columns, which the comment says it does: an
    eight-column table in another order is refused. *)
Lemma reordered_table_is_refused table_cast `{!CastLaws table_cast} t :
  table_schema t ≠ TICK_V1_1_SCHEMA →
  column_names (from_arrays (num_rows t) (add_column t "validation_status" ArrowString (Text "OK")
    (add_column t "payload_hash" ArrowString Null (add_column t "ingest_seq" Uint64 Null (columns t))))) ≠ f_name <$> TICK_V1_1_SCHEMA →
  ∃ e, upgrade_v1_table_to_v1_1 table_cast t = Raise e.
Proof. intros Hs Hn. unfold upgrade_v1_table_to_v1_1. rewrite decide_False by done. by apply cast_names. Qed.

Example swapped_columns_are_refused :
  ∃ e, upgrade_v1_table_to_v1_1 strict_cast
    (Table 1 (zip [Field "received_at" TimestampNs false; Field "ts_utc" TimestampNs false] [[Num 2]; [Num 1]] ++
              drop 2 (columns example_table))) = Raise e.
Proof. apply (reordered_table_is_refused strict_cast); vm_compute; discriminate. Qed.

(** ** Writing into the tier *)

(** The gauge is back where it was, whatever happens. *)
Lemma counted_balanced {A} (body : proc (gmap path parquet_file) A) s s' r :
  counted body s = (s', r) → writer_open_count s' = writer_open_count s ∧ body (files s) = (files s', r).
Proof. unfold counted. destruct (body (files s)) as [fs r']. intros [= <- <-]. split; [simpl; lia|done]. Qed.

Lemma write_batches_spec batches written out r : write_batches batches written = (out, r) →
  match r with
  | Ok _ => ∃ bs, batches = Ok <$> bs ∧ Forall (λ b, table_schema b = TICK_V1_1_SCHEMA) bs ∧ out = written ++ bs
  | Raise e => ∃ b, b ∈ batches ∧ (b = Raise e ∨ ∃ t, b = Ok t ∧ table_schema t ≠ TICK_V1_1_SCHEMA)
  end.
Proof.
  revert written. induction batches as [|[b|e] batches IH]; simpl; intros written Hb.
  - injection Hb as <- <-. exists []. rewrite app_nil_r. split_and!; [done|constructor|done].
  - destruct (decide _) as [Hs|Hs].
    + specialize (IH _ Hb). destruct r as [[]|e].
      * destruct IH as (bs&->&Hall&->). exists (b :: bs). split_and!; [done|by constructor|by rewrite <- app_assoc].
      * destruct IH as (x&?&?). exists x. split; [by right|done].
    + injection Hb as <- <-. exists (Ok b). split; [left|eauto].
  - injection Hb as <- <-. exists (Raise e). split; [left|by left].
Qed.

(** What a streamed write leaves *)
Definition stream_outcome (faults : stream_faults) (tmp target : path) (batches : list (res table)) (fs fs' : gmap path parquet_file)
    (r : res unit) : Prop :=
  (∀ q, q ≠ tmp → q ≠ target → fs' !! q = fs !! q) ∧ (sf_unlink faults = None → fs' !! tmp = None) ∧
  match r with
  | Ok _ => ∃ bs, batches = Ok <$> bs ∧ Forall (λ b, table_schema b = TICK_V1_1_SCHEMA) bs ∧
      fs' !! target = Some (ParquetFile TICK_V1_1_SCHEMA bs)
  | Raise _ => fs' !! target = fs !! target
  end.

Lemma stream_fails faults tmp target batches fs fs' r e pf : tmp ≠ target →
  (match sf_unlink faults with Some _ => <[tmp := pf]> fs | None => delete tmp (<[tmp := pf]> fs) end, Raise e) = (fs', r) →
  stream_outcome faults tmp target batches fs fs' r.
Proof.
  intros Hne [= <- <-]. unfold stream_outcome. destruct (sf_unlink faults).
  - split_and!; [intros q ? ?; by rewrite lookup_insert_ne|done|by rewrite lookup_insert_ne].
  - split_and!; [intros q ? ?; by rewrite lookup_delete_ne, lookup_insert_ne|intros _; apply lookup_delete_eq|].
    by rewrite lookup_delete_ne, lookup_insert_ne.
Qed.

Lemma stream_body_outcome faults tmp target batches fs fs' r : tmp ≠ target → stream_body faults tmp target batches fs = (fs', r) →
  stream_outcome faults tmp target batches fs fs' r.
Proof.
  intros Hne Hbody. unfold stream_body in Hbody. destruct (sf_open faults) as [e|]; [by eapply stream_fails|].
  destruct (write_batches batches []) as [written rb] eqn:Hb. rewrite insert_insert_eq in Hbody. apply write_batches_spec in Hb.
  destruct rb as [[]|e], (sf_close faults) as [e1|]; [by eapply stream_fails| |by eapply stream_fails..].
  destruct (sf_replace faults) as [e2|]; [by eapply stream_fails|]. injection Hbody as <- <-.
  destruct Hb as (bs&Hbs&Hall&->). unfold stream_outcome. split_and!.
  - intros q ? ?. by rewrite lookup_insert_ne, lookup_delete_ne, lookup_insert_ne.
  - intros _. by rewrite lookup_insert_ne, lookup_delete_eq.
  - exists bs. split_and!; [done..|apply lookup_insert_eq].
Qed.

Lemma fmap_Ok_inj {A} (l k : list A) : Ok <$> l = Ok <$> k → l = k.
Proof.
  revert k. induction l as [|x l IH]; intros [|y k] Heq; try done.
  rewrite !fmap_cons in Heq. injection Heq as -> Heq. by rewrite (IH k Heq).
Qed.

(** A streamed write is atomic: on success the part file holds exactly the
    given batches, in order and all of the eleven columns; on an error it is
    what it was, or not there.  No other file changes, the temporary file is
    gone unless it could not be removed, and the gauge of open writers is
    balanced. *)
Theorem stream_write_atomic (root : path) (p : part_id) (name : string) (faults : stream_faults) (batches : list (res table)) (s s' : tier)
    (r : res path) :
  let target := derive_partition_path root p in
  let tmp := removelast target ++ [name +:+ ".parquet.tmp"] in
  tmp ≠ target →
  write_table_streaming root p (Ok name) faults batches s = (s', r) →
  writer_open_count s' = writer_open_count s ∧
  (∀ q, q ≠ tmp → q ≠ target → files s' !! q = files s !! q) ∧
  (sf_unlink faults = None → files s' !! tmp = None) ∧
  match r with
  | Ok q => q = target ∧ ∃ bs, batches = Ok <$> bs ∧ Forall (λ b, table_schema b = TICK_V1_1_SCHEMA) bs ∧
      files s' !! target = Some (ParquetFile TICK_V1_1_SCHEMA bs)
  | Raise _ => files s' !! target = files s !! target
  end.
Proof.
  intros target tmp Hne. unfold write_table_streaming, pbind, plift. cbv zeta. fold target. fold tmp.
  destruct (counted (stream_body faults tmp target batches) s) as [s1 r1] eqn:Hc. apply counted_balanced in Hc as [Hcount Hbody].
  intros Hr. assert (s' = s1 ∧ r = match r1 with Ok _ => Ok target | Raise e => Raise e end) as [-> ->] by (destruct r1; by injection Hr as <- <-).
  destruct (stream_body_outcome _ _ _ _ _ _ _ Hne Hbody) as (Hframe&Htmp&Hout). split_and!; [done..|]. by destruct r1.
Qed.

Definition no_stream_faults : stream_faults := StreamFaults None None None None.
Definition example_part : part_id := PartId "upbit" "KRW-BTC" "2026-06-02" "A" "r1".
Definition upgraded_table : table := Table 1 (columns example_table ++ new_columns 1 false).

Lemma stream_write_atomic_witness :
  ∃ s', write_table_streaming ["d"] example_part (Ok "t1") no_stream_faults [Ok upgraded_table; Ok upgraded_table] (Tier ∅ 0)
      = (s', Ok (derive_partition_path ["d"] example_part)) ∧ writer_open_count s' = 0 ∧
    files s' !! derive_partition_path ["d"] example_part = Some (ParquetFile TICK_V1_1_SCHEMA [upgraded_table; upgraded_table]).
Proof.
  assert ((write_table_streaming ["d"] example_part (Ok "t1") no_stream_faults [Ok upgraded_table; Ok upgraded_table] (Tier ∅ 0)).2
    = Ok (derive_partition_path ["d"] example_part)) as Hr by (vm_compute; reflexivity).
  destruct (write_table_streaming ["d"] example_part (Ok "t1") no_stream_faults [Ok upgraded_table; Ok upgraded_table] (Tier ∅ 0))
    as [s' r] eqn:Hw. cbn [snd] in Hr. rewrite Hr in Hw. exists s'. split; [rewrite Hr; reflexivity|].
  destruct (stream_write_atomic ["d"] example_part "t1" no_stream_faults [Ok upgraded_table; Ok upgraded_table] (Tier ∅ 0) s'
    (Ok (derive_partition_path ["d"] example_part))) as (Hcount&_&_&_&bs&Hbs&_&Hfile).
  - intros Heq. vm_compute in Heq. discriminate Heq.
  - exact Hw.
  - split; [exact Hcount|]. rewrite Hfile. rewrite <- (fmap_Ok_inj [upgraded_table; upgraded_table] bs Hbs). reflexivity.
Defined.

(** A one-shot write takes a table of any schema into the directory of the
    eleven columns. *)
Example eight_columns_enter_the_tier :
  let '(s, r) := write_table ["d"] example_part ".1.tmp" None None None example_table (Tier ∅ 0) in
  r = Ok (derive_partition_path ["d"] example_part) ∧
  (pf_schema <$> files s !! derive_partition_path ["d"] example_part) = Some TICK_SCHEMA.
Proof. vm_compute. done. Qed.
