(* ===== verification/LruCache.v ===== *)
(** * The compactor's reader cache ([compactor/reader_cache.py])

    Least-recently-used objects under a byte budget, oldest access first; the
    lock makes every method one step. *)
From S2P Require Import Prelude PyDict.
Open Scope string_scope.
Open Scope list_scope.
Open Scope Z_scope.

Record lru := Lru { lr_cache : dict string bytes; lr_current_bytes : Z }.
Definition empty_lru : lru := Lru [] 0.

(** [move_to_end] of a key that is there *)
Definition move_to_end (d : dict string bytes) (k : string) (v : bytes) : dict string bytes := dremove d k ++ [(k, v)].

Definition get (nas_key : string) (c : lru) : lru * option bytes :=
  match dget (lr_cache c) nas_key with
  | None => (c, None)
  | Some data => (Lru (move_to_end (lr_cache c) nas_key data) (lr_current_bytes c), Some data)
  end.

(** [invalidate], which [put] begins with *)
Definition invalidate (nas_key : string) (c : lru) : lru :=
  match dget (lr_cache c) nas_key with
  | None => c
  | Some data => Lru (dremove (lr_cache c) nas_key) (lr_current_bytes c - blen data)
  end.

(** The eviction loop, from the oldest *)
Fixpoint evict (max_bytes len : Z) (d : dict string bytes) (current : Z) : lru :=
  match d with
  | [] => Lru [] current
  | (k, v) :: d' => if max_bytes <? current + len then evict max_bytes len d' (current - blen v) else Lru d current
  end.

Definition put (max_bytes : Z) (nas_key : string) (data : bytes) (c : lru) : lru :=
  let c := invalidate nas_key c in
  let c := evict max_bytes (blen data) (lr_cache c) (lr_current_bytes c) in
  Lru (dset (lr_cache c) nas_key data) (lr_current_bytes c + blen data).

Inductive lru_op := OpGet (k : string) | OpPut (k : string) (v : bytes) | OpInvalidate (k : string).
Definition run_op (max_bytes : Z) (c : lru) (o : lru_op) : lru :=
  match o with
  | OpGet k => (get k c).1
  | OpPut k v => put max_bytes k v c
  | OpInvalidate k => invalidate k c
  end.
Definition run (max_bytes : Z) (ops : list lru_op) : lru := foldl (run_op max_bytes) empty_lru ops.

(** ** The reference: the latest object put and not invalidated *)

Definition ref_op (m : gmap string bytes) (o : lru_op) : gmap string bytes :=
  match o with OpGet _ => m | OpPut k v => <[k := v]> m | OpInvalidate k => delete k m end.
Definition reference (ops : list lru_op) : gmap string bytes := foldl ref_op ∅ ops.

(** The bytes of a dictionary; all bytes put *)
Fixpoint total (d : dict string bytes) : Z := match d with [] => 0 | (_, v) :: d' => blen v + total d' end.
Definition put_bytes (o : lru_op) : Z := match o with OpPut _ v => blen v | _ => 0 end.
Fixpoint all_put (ops : list lru_op) : Z := match ops with [] => 0 | o :: ops' => put_bytes o + all_put ops' end.

Lemma blen_nonneg v : 0 <= blen v.
Proof. unfold blen. lia. Qed.
Lemma total_nonneg d : 0 <= total d.
Proof. induction d as [|[k v] d IH]; simpl; [lia|]. pose proof (blen_nonneg v). lia. Qed.
Lemma total_app d d' : total (d ++ d') = total d + total d'.
Proof. induction d as [|[k v] d IH]; simpl; lia. Qed.
Lemma total_dremove (d : dict string bytes) k v : dget d k = Some v → total (dremove d k) = total d - blen v.
Proof.
  induction d as [|[k' v'] d IH]; simpl; [done|]. destruct (decide (k = k')) as [->|]; [intros [= ->]; lia|].
  intros H%IH. simpl. lia.
Qed.

(** A cache that is sound for a reference map: exact bytes, unique keys, no
    stale object, and a budget that only a single object exceeds *)
Record sound (max_bytes : Z) (m : gmap string bytes) (c : lru) : Prop := {
  so_bytes : lr_current_bytes c = total (lr_cache c);
  so_wf : dict_wf (lr_cache c);
  so_ref : ∀ k v, dget (lr_cache c) k = Some v → m !! k = Some v;
  so_budget : lr_current_bytes c <= max_bytes ∨ (length (lr_cache c) <= 1)%nat }.

Lemma dget_app (d d' : dict string bytes) k : dget (d ++ d') k = match dget d k with Some v => Some v | None => dget d' k end.
Proof. induction d as [|[k0 v0] d IH]; simpl; [done|]. by destruct (decide _). Qed.

Lemma invalidate_spec max_bytes m k c : sound max_bytes m c →
  sound max_bytes (delete k m) (invalidate k c) ∧ dget (lr_cache (invalidate k c)) k = None ∧
  (∀ k', k' ≠ k → dget (lr_cache (invalidate k c)) k' = dget (lr_cache c) k') ∧ total (lr_cache (invalidate k c)) <= total (lr_cache c).
Proof.
  intros [Hb Hwf Href Hbud]. unfold invalidate. destruct (dget (lr_cache c) k) as [v|] eqn:Hk; cbn [lr_cache lr_current_bytes].
  - pose proof (total_dremove _ _ _ Hk) as Ht. pose proof (blen_nonneg v). split_and!.
    + split; cbn [lr_cache lr_current_bytes]; [lia|by apply dict_wf_dremove| |].
      * intros k' v' Hk'. destruct (decide (k' = k)) as [->|Hne]; [by rewrite dget_dremove_eq in Hk'|].
        rewrite lookup_delete_ne by done. rewrite dget_dremove_ne in Hk' by done. auto.
      * destruct Hbud as [|Hl]; [left; lia|right]. pose proof (sublist_length _ _ (dremove_sublist (lr_cache c) k)). lia.
    + by apply dget_dremove_eq.
    + intros. by apply dget_dremove_ne.
    + lia.
  - split_and!; [|done|done|lia]. split; [done..| |done]. intros k' v' Hk'. rewrite lookup_delete_ne; [auto|congruence].
Qed.

(** The loop evicts a prefix, and no more than it must. *)
Lemma lru_evict_spec max_bytes len d current : current = total d →
  ∃ n, lr_cache (evict max_bytes len d current) = drop n d ∧
    lr_current_bytes (evict max_bytes len d current) = total (drop n d) ∧
    (total (drop n d) + len <= max_bytes ∨ drop n d = []) ∧
    (∀ i, (i < n)%nat → max_bytes < total (drop i d) + len).
Proof.
  revert current. induction d as [|[k v] d IH]; simpl; intros current Hc.
  - exists 0%nat. split_and!; [done|done|by right|lia].
  - destruct (Z.ltb_spec max_bytes (current + len)) as [Hlt|Hge].
    + destruct (IH (current - blen v) ltac:(lia)) as (n&H1&H2&H3&H4). exists (S n). split_and!; [done..|].
      intros [|i] Hi; simpl; [lia|]. apply H4. lia.
    + exists 0%nat. simpl. split_and!; [done|done|left; lia|lia].
Qed.

Lemma drop_wf n (d : dict string bytes) : dict_wf d → dict_wf (drop n d).
Proof. intros Hwf. unfold dict_wf, dkeys. rewrite fmap_drop. eapply sublist_NoDup; [done|apply sublist_drop]. Qed.

Lemma dget_drop n (d : dict string bytes) k v : dict_wf d → dget (drop n d) k = Some v → dget d k = Some v.
Proof.
  intros Hwf Hk%dget_Some_elem. apply elem_dget; [done|]. eapply elem_of_sublist; [exact Hk|apply sublist_drop].
Qed.

(** A put keeps the cache sound, evicts the least recently used only and only
    while it must, and leaves the object last. *)
Lemma put_spec max_bytes m k v c : sound max_bytes m c → let c' := put max_bytes k v c in
  sound max_bytes (<[k := v]> m) c' ∧
  ∃ n, lr_cache c' = drop n (lr_cache (invalidate k c)) ++ [(k, v)] ∧
    (∀ i, (i < n)%nat → max_bytes < total (drop i (lr_cache (invalidate k c))) + blen v).
Proof.
  intros Hs c'. destruct (invalidate_spec max_bytes m k c Hs) as ([Hb Hwf Href Hbud]&Hnone&_&_).
  unfold c', put. set (c1 := invalidate k c) in *.
  destruct (lru_evict_spec max_bytes (blen v) (lr_cache c1) (lr_current_bytes c1) Hb) as (n&Hc&Hcb&Hfit&Hmin).
  set (c2 := evict _ _ _ _) in *.
  assert (dget (lr_cache c2) k = None) as Hk2.
  { destruct (dget (lr_cache c2) k) eqn:Hk; [|done]. rewrite Hc in Hk. apply dget_drop in Hk; [congruence|done]. }
  pose proof (proj1 (dget_None _ _) Hk2) as Hnk. rewrite (dset_new _ _ v Hnk). split.
  - split; cbn [lr_cache lr_current_bytes].
    + rewrite total_app, Hcb, Hc. simpl. lia.
    + rewrite <- (dset_new _ _ v Hnk). apply dict_wf_dset. rewrite Hc. by apply drop_wf.
    + intros k' v'. rewrite <- (dset_new _ _ v Hnk). destruct (decide (k' = k)) as [->|Hne].
      * rewrite dget_dset_eq. intros [= ->]. apply lookup_insert_eq.
      * rewrite dget_dset_ne by done. rewrite lookup_insert_ne by done. rewrite Hc. intros Hk'%dget_drop; [|done].
        apply Href in Hk'. by rewrite lookup_delete_ne in Hk' by done.
    + rewrite Hcb, Hc, length_app. simpl. destruct Hfit as [| ->]; [by left|right; simpl; lia].
  - exists n. rewrite Hc. split; [done|exact Hmin].
Qed.

Lemma get_spec max_bytes m k c : sound max_bytes m c → let '(c', r) := get k c in
  sound max_bytes m c' ∧ (∀ k', dget (lr_cache c') k' = dget (lr_cache c) k') ∧ total (lr_cache c') = total (lr_cache c) ∧ r = dget (lr_cache c) k.
Proof.
  intros [Hb Hwf Href Hbud]. unfold get. destruct (dget (lr_cache c) k) as [v|] eqn:Hk; [|done].
  assert (total (move_to_end (lr_cache c) k v) = total (lr_cache c)) as Ht.
  { unfold move_to_end. rewrite total_app, (total_dremove _ _ _ Hk). simpl. lia. }
  assert (∀ k', dget (move_to_end (lr_cache c) k v) k' = dget (lr_cache c) k') as Hd.
  { intros k'. unfold move_to_end. rewrite dget_app. destruct (decide (k' = k)) as [->|Hne].
    - rewrite dget_dremove_eq by done. simpl. by rewrite decide_True.
    - rewrite dget_dremove_ne by done. simpl. rewrite decide_False by done. by destruct (dget (lr_cache c) k'). }
  split_and!; [|exact Hd|exact Ht|done]. split; cbn [lr_cache lr_current_bytes]; [lia| |intros k' v'; rewrite Hd; auto|].
  - unfold move_to_end, dict_wf, dkeys. rewrite fmap_app. apply NoDup_app. split_and!.
    + by apply dict_wf_dremove.
    + intros x Hx ->%list_elem_of_singleton. apply (dkeys_dremove _ k) in Hx; [tauto|done].
    + apply NoDup_singleton.
  - destruct Hbud as [|Hl]; [by left|right]. unfold move_to_end. rewrite length_app. simpl.
    assert (k ∈ dkeys (lr_cache c)) as Hin by (apply dget_is_Some; eauto). pose proof (length_dremove _ _ Hin). lia.
Qed.

(** As long as all that was put fits, nothing is evicted. *)
Lemma put_complete max_bytes m k v c : sound max_bytes m c → (∀ k', dget (lr_cache c) k' = m !! k') →
  total (lr_cache c) + blen v <= max_bytes → ∀ k', dget (lr_cache (put max_bytes k v c)) k' = (<[k := v]> m) !! k'.
Proof.
  intros Hs Hall Hfit k'. destruct (put_spec max_bytes m k v c Hs) as (_&n&Hc&Hmin). cbv zeta in Hc.
  destruct (invalidate_spec max_bytes m k c Hs) as (_&Hnone&Hother&Hle).
  assert (n = 0%nat) as ->. { destruct n as [|n]; [done|]. specialize (Hmin 0%nat ltac:(lia)). rewrite drop_0 in Hmin. lia. }
  rewrite Hc, drop_0, dget_app. destruct (decide (k' = k)) as [->|Hne].
  - rewrite Hnone, lookup_insert_eq. simpl. by rewrite decide_True.
  - rewrite Hother, Hall, lookup_insert_ne by done. destruct (m !! k'); [done|]. simpl. by rewrite decide_False.
Qed.

Lemma total_drop n d : total (drop n d) <= total d.
Proof. revert d. induction n as [|n IH]; intros [|[k v] d]; simpl; try lia. pose proof (IH d). pose proof (blen_nonneg v). lia. Qed.

Lemma put_total max_bytes m k v c : sound max_bytes m c → total (lr_cache (put max_bytes k v c)) <= total (lr_cache c) + blen v.
Proof.
  intros Hs. destruct (put_spec max_bytes m k v c Hs) as (_&n&Hc&_). cbv zeta in Hc. rewrite Hc, total_app. simpl.
  destruct (invalidate_spec max_bytes m k c Hs) as (_&_&_&Hle). pose proof (total_drop n (lr_cache (invalidate k c))). lia.
Qed.

Lemma all_put_nonneg ops : 0 <= all_put ops.
Proof. induction ops as [|[k|k v|k] ops IH]; simpl; [lia|lia| |lia]. pose proof (blen_nonneg v). lia. Qed.

(** The cache against the reference map of the latest objects: after any
    operations its byte count is exact, its keys are unique, whatever it answers
    is the latest object put and not invalidated, and it holds more bytes than
    the budget only for one object; as long as all that was ever put fits the
    budget it answers exactly as the reference. *)
Theorem lru_matches_reference (max_bytes : Z) (ops : list lru_op) :
  let c := run max_bytes ops in
  sound max_bytes (reference ops) c ∧
  (∀ k, (get k c).2 = dget (lr_cache c) k) ∧
  (all_put ops <= max_bytes → ∀ k, dget (lr_cache c) k = reference ops !! k).
Proof.
  assert (∀ ops c m, sound max_bytes m c → sound max_bytes (foldl ref_op m ops) (foldl (run_op max_bytes) c ops)) as Hsound.
  { clear ops. induction ops as [|[k|k v|k] ops IH]; intros c m Hs; simpl; [done|apply IH..].
    - pose proof (get_spec max_bytes m k c Hs) as Hg. by destruct (get k c), Hg as [? _].
    - by apply put_spec.
    - by apply invalidate_spec. }
  assert (∀ ops c m, sound max_bytes m c → (∀ k, dget (lr_cache c) k = m !! k) → total (lr_cache c) + all_put ops <= max_bytes →
    ∀ k, dget (lr_cache (foldl (run_op max_bytes) c ops)) k = foldl ref_op m ops !! k) as Hcomplete.
  { clear ops. induction ops as [|[k|k v|k] ops IH]; intros c m Hs Hall Hfit; simpl in *; [done|apply IH..].
    - pose proof (get_spec max_bytes m k c Hs) as Hg. by destruct (get k c), Hg as [? _].
    - pose proof (get_spec max_bytes m k c Hs) as Hg. destruct (get k c) as [c' r], Hg as (_&Hd&_). intros k'. simpl. by rewrite Hd.
    - pose proof (get_spec max_bytes m k c Hs) as Hg. destruct (get k c) as [c' r], Hg as (_&_&Ht&_). simpl. lia.
    - by apply put_spec.
    - pose proof (all_put_nonneg ops). apply put_complete; [done|done|lia].
    - pose proof (put_total max_bytes m k v c Hs). lia.
    - by apply invalidate_spec.
    - intros k'. destruct (invalidate_spec max_bytes m k c Hs) as (_&Hnone&Hother&_). destruct (decide (k' = k)) as [->|Hne].
      + by rewrite Hnone, lookup_delete_eq.
      + by rewrite Hother, Hall, lookup_delete_ne.
    - destruct (invalidate_spec max_bytes m k c Hs) as (_&_&_&Hle). lia. }
  assert (sound max_bytes ∅ empty_lru) as H0 by (split; simpl; [done|apply dict_wf_nil|done|right; lia]).
  intros c. split_and!; [by apply Hsound| |intros Hfit; by apply Hcomplete].
  intros k. unfold get. by destruct (dget _ _).
Qed.
