(* ===== verification/Health.v ===== *)
(** * The health check ([health/*.py], [cli.py health-check])

    Four read-only measurements of the stored order books and of the log, the
    verdicts, and the exit code of the command.  The file system is the set of
    its directories and the sizes and modification times of its files; times
    are microseconds, dates day numbers; [shares] and lags are IEEE doubles as
    in the code.  The texts of the report are not modelled. *)
From S2P Require Import Prelude PyDict PyFloat NasKey PyTime BatchWriters Barrier.
Open Scope py_scope.
Open Scope string_scope.
Open Scope list_scope.
Open Scope Z_scope.

Notation path := (list string).
Record file := File { size : Z; mtime : Z }.
Record tree := Tree { dirs : gset path; files : gmap path file }.

(** ** Partitions of order books *)

Definition SCHEMA_VERSION : string := "orderbook_depth.v1".
Definition schema_base (root : path) : path := root ++ ["market"; "orderbookdepth"; "schema_version=" +:+ SCHEMA_VERSION].

(** One partition the check looks at *)
Record partition := Partition { pt_day : Z; pt_tier : string; pt_exchange : string; pt_symbol : string }.
#[export] Instance partition_eq_dec : EqDecision partition.
Proof. solve_decision. Defined.

Definition sym_day (root : path) (p : partition) : path :=
  schema_base root ++ ["tier=" +:+ pt_tier p; "exchange=" +:+ pt_exchange p; "symbol=" +:+ pt_symbol p; "date=" +:+ isoformat (pt_day p)].

(** [sym_day.rglob("*.parquet")] *)
Definition rglob_parquet (t : tree) (dir : path) : list path :=
  filter (λ p, parquet_below dir p) (map_to_list (files t)).*1.

(** [while cur <= end_date] *)
Definition days (start_date end_date : Z) : list Z := seqZ start_date (end_date - start_date + 1).

Record check_args := CheckArgs { ca_exchanges : list string; ca_symbols : list string; ca_tiers : list string }.
(** The three inner loops of a day, and all four *)
Definition partitions_of_day (a : check_args) (day : Z) : list partition :=
  ca_tiers a ≫= λ tier, ca_exchanges a ≫= λ exchange, (λ symbol, Partition day tier exchange symbol) <$> ca_symbols a.
Definition partitions (a : check_args) (start_date end_date : Z) : list partition :=
  days start_date end_date ≫= partitions_of_day a.

(** ** Measurements *)

Record GapResult := MkGapResult { missing_count : Z; missing_partitions : list partition; total_expected : Z }.
Definition has_any_parquet (t : tree) (dir : path) : bool := match rglob_parquet t dir with [] => false | _ => true end.
Definition gap_step (root : path) (t : tree) (r : GapResult) (p : partition) : GapResult :=
  let dir := sym_day root p in
  if bool_decide (dir ∈ dirs t) && has_any_parquet t dir
  then MkGapResult (missing_count r) (missing_partitions r) (total_expected r + 1)
  else MkGapResult (missing_count r + 1) (missing_partitions r ++ [p]) (total_expected r + 1).
Definition measure_gap (root : path) (t : tree) (a : check_args) (start_date end_date : Z) : GapResult :=
  foldl (gap_step root t) (MkGapResult 0 [] 0) (partitions a start_date end_date).

Record FileCountResult := MkFileCountResult { total_files : Z; per_sym_day : dict (string * string * Z) Z }.
Definition file_count_step (root : path) (t : tree) (r : FileCountResult) (p : partition) : FileCountResult :=
  let dir := sym_day root p in
  let count := Z.of_nat (length (rglob_parquet t dir)) in
  if bool_decide (dir ∈ dirs t) && (0 <? count) then
    let key := (pt_exchange p, pt_symbol p, pt_day p) in
    MkFileCountResult (total_files r + count) (dset (per_sym_day r) key (default 0 (dget (per_sym_day r) key) + count))
  else r.
Definition measure_file_count (root : path) (t : tree) (a : check_args) (start_date end_date : Z) : FileCountResult :=
  foldl (file_count_step root t) (MkFileCountResult 0 []) (partitions a start_date end_date).

Record VolumeResult := MkVolumeResult {
  total_bytes : Z; per_sym : dict string Z; per_day : dict Z Z; missing_symbols : list (string * string) }.
Definition sum_sizes (t : tree) (ps : list path) : Z := foldr (λ p n, match files t !! p with Some f => size f | None => 0 end + n) 0 ps.
Definition sym_key (exchange symbol : string) : string := exchange +:+ "/" +:+ symbol.
(** The inner loops of a day, over [per_sym] and [day_total] *)
Definition volume_step (root : path) (t : tree) (acc : dict string Z * Z) (p : partition) : dict string Z * Z :=
  let dir := sym_day root p in
  if bool_decide (dir ∈ dirs t) then
    let sym_bytes := sum_sizes t (rglob_parquet t dir) in
    let key := sym_key (pt_exchange p) (pt_symbol p) in
    (dset acc.1 key (default 0 (dget acc.1 key) + sym_bytes), acc.2 + sym_bytes)
  else acc.
Definition volume_day (root : path) (t : tree) (a : check_args) (r : VolumeResult) (day : Z) : VolumeResult :=
  let '(per_sym, day_total) := foldl (volume_step root t) (per_sym r, 0) (partitions_of_day a day) in
  MkVolumeResult (total_bytes r + day_total) per_sym
    (if 0 <? day_total then dset (per_day r) day (default 0 (dget (per_day r) day) + day_total) else per_day r) (missing_symbols r).
Definition measure_volume (root : path) (t : tree) (a : check_args) (start_date end_date : Z) : VolumeResult :=
  let r := foldl (volume_day root t a) (MkVolumeResult 0 [] [] []) (days start_date end_date) in
  MkVolumeResult (total_bytes r) (per_sym r) (per_day r)
    (ca_exchanges a ≫= λ exchange, ca_symbols a ≫= λ symbol,
       if default 0 (dget (per_sym r) (sym_key exchange symbol)) =? 0 then [(exchange, symbol)] else []).

(** Segments below [wal/{exchange}/orderbookdepth] *)
Definition is_ndjson (name : string) : bool :=
  let n := (String.length name - 7)%nat in (7 <=? String.length name)%nat && String.eqb (String.substring n 7 name) ".ndjson".
Definition ndjson_below (dir p : path) : bool :=
  match below dir p with Some rest => match last rest with Some name => is_ndjson name | None => false end | None => false end.
Definition wal_base (root : path) (exchange : string) : path := root ++ ["wal"; exchange; "orderbookdepth"].
Definition segment_mtimes (root : path) (t : tree) (exchange : string) : list Z :=
  (λ e, mtime e.2) <$> filter (λ e, ndjson_below (wal_base root exchange) e.1) (map_to_list (files t)).
(** [max], [None] for nothing *)
Definition zmax (l : list Z) : option Z := match l with [] => None | x :: l => Some (foldl Z.max x l) end.
(** The lag of an exchange in microseconds; it is [None] where there is no
    segment. *)
Definition exchange_lag (root : path) (t : tree) (now : Z) (exchange : string) : option Z :=
  if bool_decide (wal_base root exchange ∈ dirs t)
  then match zmax (segment_mtimes root t exchange) with Some m => Some (Z.max 0 (now - m)) | None => None end
  else None.
(** [measure_lag]: the dictionary by exchange *)
Definition measure_lag (root : path) (t : tree) (exchanges : list string) (now : Z) : dict string (option Z) :=
  foldl (λ d exchange, dset d exchange (exchange_lag root t now exchange)) [] exchanges.
Definition max_lag (per_exchange : dict string (option Z)) : option Z := zmax (omap id (dvalues per_exchange)).

(** ** Thresholds and report *)

Inductive verdict := PASS | WARN | FAIL | NA.
#[export] Instance verdict_eq_dec : EqDecision verdict.
Proof. solve_decision. Defined.

(** [0.20], [60.0], [4.35] *)
Definition f0_20 : double := pos_double 7205759403792794 (-55).
Definition f60 : double := double_of_Z 60.
Definition f4_35 : double := pos_double 4897664594765414 (-50).
(** [x == 0.0] *)
Definition is_zero (x : double) : bool := match x with S754_zero _ => true | _ => false end.

Definition static_volume_threshold (actual expected tol : double) : verdict :=
  let deviation := if is_zero expected then S754_infinity false else fdiv (SFabs (fsub actual expected)) expected in
  if deviation <=f tol then PASS else FAIL.
(** The seconds of a lag *)
Definition seconds (us : Z) : double := int_div us 1000000.
Definition static_lag_threshold (actual_seconds slo_seconds : double) : verdict :=
  if actual_seconds <=f slo_seconds then PASS else FAIL.
Definition rolling_threshold : res verdict := Raise NotImplementedError.

Record LayerResult := MkLayer { l_name : string; l_unit : string; l_verdict : verdict }.
Record HealthReport := MkReport { window_start : Z; window_end : Z; layers : list LayerResult }.
Definition overall_verdict (r : HealthReport) : verdict :=
  if existsb (λ l, match l_verdict l with FAIL => true | _ => false end) (layers r) then FAIL else PASS.

Definition build_report (volume : VolumeResult) (gap : GapResult) (lag : dict string (option Z)) (start end_ : Z)
    (expected_volume_gib volume_tol lag_slo_seconds : double) : HealthReport :=
  let actual_gib := int_div (total_bytes volume) (1024 ^ 3) in
  MkReport start end_
    [MkLayer "volume" "GiB" (static_volume_threshold actual_gib expected_volume_gib volume_tol);
     MkLayer "gap" "missing_partitions" (if missing_count gap =? 0 then PASS else FAIL);
     MkLayer "file_count" "files" PASS;
     MkLayer "lag" "seconds" (match max_lag lag with
                              | None => NA
                              | Some us => static_lag_threshold (seconds us) lag_slo_seconds
                              end)].

(** ** The command *)

Record health_args := HealthArgs {
  ha_window : string; ha_symbols : list string; ha_exchanges : list string; ha_tiers : list string;
  ha_start_date : string; ha_rolling : bool; ha_root : path; ha_expected_gib : double }.

(** [--window], as it is parsed *)
Definition parse_window (window : string) : res Z :=
  let n := (String.length window - 1)%nat in
  if (0 <? String.length window)%nat && String.eqb (String.substring n 1 window) "d" then
    let? days := int_of_text (String.substring 0 n window) in
    if days <=? 0 then Raise ValueError else Ok days
  else Raise ValueError.

(** Symbols of the first tier, exchange by exchange, in order of their names *)
Definition symbol_of (name : string) : option string :=
  if String.prefix "symbol=" name then Some (String.substring 7 (String.length name - 7) name) else None.
Definition child_dirs (t : tree) (dir : path) : list string :=
  sorted_names (remove_dups (omap (λ p, match below dir p with Some [name] => Some name | _ => None end) (elements (dirs t)))).
Definition add_new (l : list string) (s : string) : list string := if bool_decide (s ∈ l) then l else l ++ [s].
Definition discover_symbols (root : path) (t : tree) (exchanges : list string) : list string :=
  foldl (λ found exchange,
    let dir := schema_base root ++ ["tier=L1"; "exchange=" +:+ exchange] in
    if bool_decide (dir ∈ dirs t) then foldl add_new found (omap symbol_of (child_dirs t dir)) else found) [] exchanges.

(** Exit code and report; [today] is the local date. *)
Definition health_check (a : health_args) (t : tree) (today now : Z) : Z * option HealthReport :=
  if ha_rolling a && negb (res_is_ok rolling_threshold) then (2, None)
  else match date_fromisoformat (ha_start_date a), parse_window (ha_window a) with
  | Raise _, _ => (2, None)
  | Ok _, Raise _ => (2, None)
  | Ok sd, Ok _ =>
      let end_date := if today - 1 <? sd then sd else today - 1 in
      let symbols := match ha_symbols a with [] => discover_symbols (ha_root a) t (ha_exchanges a) | symbols => symbols end in
      let ca := CheckArgs (ha_exchanges a) symbols (ha_tiers a) in
      let report := build_report (measure_volume (ha_root a) t ca sd end_date) (measure_gap (ha_root a) t ca sd end_date)
                      (measure_lag (ha_root a) t (ha_exchanges a) now) sd end_date (ha_expected_gib a) f0_20 f60 in
      (match overall_verdict report with FAIL => 1 | _ => 0 end, Some report)
  end.

(** ** What the measurements count *)

Section measurements.
Context (root : path) (t : tree).

(** The partition has data. *)
Definition present (p : partition) : bool := bool_decide (sym_day root p ∈ dirs t) && has_any_parquet t (sym_day root p).

Lemma elem_of_partitions a sd ed p : p ∈ partitions a sd ed ↔
  sd <= pt_day p <= ed ∧ pt_tier p ∈ ca_tiers a ∧ pt_exchange p ∈ ca_exchanges a ∧ pt_symbol p ∈ ca_symbols a.
Proof using Type.
  unfold partitions, partitions_of_day, days. rewrite list_elem_of_bind. setoid_rewrite list_elem_of_bind. setoid_rewrite list_elem_of_bind. split.
  - intros (day&(tier&(exchange&(symbol&->&Hs)%list_elem_of_fmap&He)&Ht)&Hd%elem_of_seqZ). simpl. split_and!; [lia|lia|done..].
  - intros (Hd&Ht&He&Hs). exists (pt_day p). split; [|apply elem_of_seqZ; lia]. exists (pt_tier p). split; [|done].
    exists (pt_exchange p). split; [|done]. apply list_elem_of_fmap. exists (pt_symbol p). split; [by destruct p|done].
Qed.

(** The gap measurement counts the missing partitions exactly. *)
Lemma measure_gap_exact a sd ed :
  let r := measure_gap root t a sd ed in
  missing_partitions r = List.filter (λ p, negb (present p)) (partitions a sd ed) ∧
  missing_count r = Z.of_nat (length (missing_partitions r)) ∧ total_expected r = Z.of_nat (length (partitions a sd ed)).
Proof using Type.
  cbv zeta. unfold measure_gap.
  assert (∀ ps r, missing_count r = Z.of_nat (length (missing_partitions r)) →
    let r' := foldl (gap_step root t) r ps in
    missing_partitions r' = missing_partitions r ++ List.filter (λ p, negb (present p)) ps ∧
    missing_count r' = Z.of_nat (length (missing_partitions r')) ∧
    total_expected r' = total_expected r + Z.of_nat (length ps)) as Hloop.
  { induction ps as [|p ps IH]; intros r Hr; cbn [foldl List.filter length].
    - rewrite app_nil_r. split_and!; [done|done|lia].
    - destruct (IH (gap_step root t r p)) as (H1&H2&H3).
      { unfold gap_step. fold (present p). destruct (present p); simpl; [done|]. rewrite length_app, Hr. simpl. lia. }
      rewrite H1, H2, H3, H1. unfold gap_step. fold (present p).
      destruct (present p); cbn [negb missing_partitions total_expected]; rewrite <- ?app_assoc; (split_and!; [done..|lia]). }
  destruct (Hloop (partitions a sd ed) (MkGapResult 0 [] 0) eq_refl) as (->&->&->). by split_and!.
Qed.

End measurements.

(** *** The volume adds up *)

Definition dsum {K} (d : dict K Z) : Z := foldr Z.add 0 (dvalues d).

Lemma dsum_add {K} `{EqDecision K} (d : dict K Z) k n : dsum (dset d k (default 0 (dget d k) + n)) = dsum d + n.
Proof.
  unfold dsum. induction d as [|[k' v] d IH]; simpl; [lia|]. destruct (decide (k = k')); simpl; lia.
Qed.

Definition partition_bytes (root : path) (t : tree) (p : partition) : Z :=
  if bool_decide (sym_day root p ∈ dirs t) then sum_sizes t (rglob_parquet t (sym_day root p)) else 0.
Definition zsum : list Z → Z := foldr Z.add 0.

Lemma zsum_app l k : zsum (l ++ k) = zsum l + zsum k.
Proof. induction l as [|x l IH]; simpl; [done|]. rewrite IH. lia. Qed.

Lemma volume_step_sum root t ps acc :
  let r := foldl (volume_step root t) acc ps in
  r.2 = acc.2 + zsum (partition_bytes root t <$> ps) ∧ dsum r.1 = dsum acc.1 + zsum (partition_bytes root t <$> ps).
Proof.
  revert acc. induction ps as [|p ps IH]; intros acc; cbn [foldl]; [simpl; lia|]. cbv zeta in IH |- *.
  destruct (IH (volume_step root t acc p)) as [-> ->]. rewrite fmap_cons. change (zsum (?x :: ?l)) with (x + zsum l).
  assert ((volume_step root t acc p).2 = acc.2 + partition_bytes root t p ∧ dsum (volume_step root t acc p).1 = dsum acc.1 + partition_bytes root t p)
    as [-> ->]; [|lia].
  unfold volume_step, partition_bytes. destruct (bool_decide _); cbn [fst snd]; [rewrite dsum_add; lia|lia].
Qed.

Lemma sum_sizes_nonneg t ps : (∀ p f, files t !! p = Some f → 0 <= size f) → 0 <= sum_sizes t ps.
Proof.
  intros Hs. induction ps as [|p ps IH]; simpl; [done|]. destruct (files t !! p) as [f|] eqn:Hf; [|lia]. pose proof (Hs p f Hf). lia.
Qed.

Lemma zsum_nonneg l : (∀ x, x ∈ l → 0 <= x) → 0 <= zsum l.
Proof.
  intros Hl. induction l as [|x l IH]; simpl; [done|]. pose proof (Hl x ltac:(left)). assert (0 <= zsum l) by (apply IH; intros; apply Hl; by right).
  unfold zsum in *. lia.
Qed.

Lemma volume_loop root t a ds r : let r' := foldl (volume_day root t a) r ds in
  let n := zsum (partition_bytes root t <$> (ds ≫= partitions_of_day a)) in
  total_bytes r' = total_bytes r + n ∧ dsum (per_sym r') = dsum (per_sym r) + n ∧
  ((∀ p f, files t !! p = Some f → 0 <= size f) → dsum (per_day r') = dsum (per_day r) + n).
Proof.
  revert r. induction ds as [|day ds IH]; intros r; cbn [foldl mbind list_bind]; [simpl; lia|]. cbv zeta in IH |- *.
  destruct (IH (volume_day root t a r day)) as (->&->&IHday). rewrite fmap_app, zsum_app. clear IH.
  unfold volume_day in *. pose proof (volume_step_sum root t (partitions_of_day a day) (per_sym r, 0)) as Hstep. cbv zeta in Hstep.
  destruct (foldl (volume_step root t) _ _) as [ps dt]. cbn [fst snd] in Hstep. destruct Hstep as [Hdt Hps].
  cbn [total_bytes per_sym per_day] in *. rewrite Hps. split_and!; [lia|lia|]. intros Hsize. rewrite (IHday Hsize).
  assert (0 <= dt) as Hnn.
  { rewrite Hdt. apply zsum_nonneg. intros x (p&->&_)%list_elem_of_fmap. unfold partition_bytes.
    destruct (bool_decide _); [by apply sum_sizes_nonneg|lia]. }
  destruct (Z.ltb_spec 0 dt); [rewrite dsum_add; lia|lia].
Qed.

Lemma measure_volume_total root t a sd ed :
  total_bytes (measure_volume root t a sd ed) = zsum (partition_bytes root t <$> partitions a sd ed).
Proof. unfold measure_volume. cbn [total_bytes]. by destruct (volume_loop root t a (days sd ed) (MkVolumeResult 0 [] [] [])) as (->&_). Qed.

(** The volume is accounted for: the total is what the checked partitions
    hold together, and it is the sum by symbol and the sum by day. *)
Theorem volume_accounts (root : path) (t : tree) (a : check_args) (sd ed : Z) :
  (∀ p f, files t !! p = Some f → 0 <= size f) →
  let r := measure_volume root t a sd ed in
  total_bytes r = zsum (partition_bytes root t <$> partitions a sd ed) ∧
  dsum (per_sym r) = total_bytes r ∧ dsum (per_day r) = total_bytes r.
Proof.
  intros Hsize. cbv zeta. split; [apply measure_volume_total|]. unfold measure_volume. cbn [total_bytes per_sym per_day].
  destruct (volume_loop root t a (days sd ed) (MkVolumeResult 0 [] [] [])) as (->&->&Hday). rewrite (Hday Hsize). done.
Qed.

(** *** The exit code *)

(** The partitions a run checks *)
Definition checked (a : health_args) (t : tree) (sd today : Z) : list partition :=
  let symbols := match ha_symbols a with [] => discover_symbols (ha_root a) t (ha_exchanges a) | symbols => symbols end in
  partitions (CheckArgs (ha_exchanges a) symbols (ha_tiers a)) sd (Z.max sd (today - 1)).

Lemma filter_nil_iff {A} (p : A → bool) l : List.filter p l = [] ↔ ∀ x, x ∈ l → p x = false.
Proof.
  split; [|apply filter_none]. intros Hf x Hx. destruct (p x) eqn:Hp; [|done].
  assert (In x (List.filter p l)) as Hin by (apply List.filter_In; split; [by apply list_elem_of_In|done]). rewrite Hf in Hin. destruct Hin.
Qed.

Lemma static_volume_cases x e tol : static_volume_threshold x e tol = PASS ∨ static_volume_threshold x e tol = FAIL.
Proof. unfold static_volume_threshold. destruct (_ <=f _)%py; auto. Qed.
Lemma static_lag_cases x slo : static_lag_threshold x slo = PASS ∨ static_lag_threshold x slo = FAIL.
Proof. unfold static_lag_threshold. destruct (_ <=f _)%py; auto. Qed.
Lemma verdict_code v : match v with FAIL => 1 | _ => 0 end = 0 ↔ v ≠ FAIL.
Proof. by destruct v. Qed.

(** Nothing is missing exactly if every partition has data. *)
Lemma gap_zero_iff root t a sd ed :
  missing_count (measure_gap root t a sd ed) = 0 ↔ ∀ p, p ∈ partitions a sd ed → present root t p = true.
Proof.
  destruct (measure_gap_exact root t a sd ed) as (Hmiss&Hcount&_). rewrite Hcount, Hmiss. split.
  - intros Hz p Hp. destruct (present root t p) eqn:He; [done|].
    assert (List.filter (λ p, negb (present root t p)) (partitions a sd ed) = []) as Hnil by (apply nil_length_inv; lia).
    pose proof (proj1 (filter_nil_iff _ _) Hnil p Hp) as Hn. cbv beta in Hn. by rewrite He in Hn.
  - intros Hall. rewrite (proj2 (filter_nil_iff _ _)); [done|]. intros p Hp. by rewrite (Hall p Hp).
Qed.

(** The exit code: 2 exactly without a report, for a rolling baseline, a
    bad date or a bad window; and with a report 0 exactly if every checked
    partition has data, the total volume is within a fifth of the expected one,
    and no measured lag is over a minute, else 1. *)
Theorem exit_code_spec (a : health_args) (t : tree) (today now code : Z) (report : option HealthReport) :
  health_check a t today now = (code, report) →
  match report with
  | None => code = 2 ∧ (ha_rolling a = true ∨ date_fromisoformat (ha_start_date a) = Raise ValueError ∨ ∃ e, parse_window (ha_window a) = Raise e)
  | Some r => ∃ sd, date_fromisoformat (ha_start_date a) = Ok sd ∧ window_start r = sd ∧ window_end r = Z.max sd (today - 1) ∧
      (code = 0 ∨ code = 1) ∧
      (code = 0 ↔
        (∀ p, p ∈ checked a t sd today → present (ha_root a) t p = true) ∧
        static_volume_threshold (int_div (zsum (partition_bytes (ha_root a) t <$> checked a t sd today)) (1024 ^ 3)) (ha_expected_gib a) f0_20 = PASS ∧
        match max_lag (measure_lag (ha_root a) t (ha_exchanges a) now) with
        | None => True
        | Some us => static_lag_threshold (seconds us) f60 = PASS
        end)
  end.
Proof.
  unfold health_check. intros Hc.
  assert (ha_rolling a && negb (res_is_ok rolling_threshold) = ha_rolling a) as Hroll by (simpl; by rewrite andb_true_r).
  rewrite Hroll in Hc. destruct (ha_rolling a); [injection Hc as <- <-; auto|].
  destruct (date_fromisoformat (ha_start_date a)) as [sd|e] eqn:Hd.
  2:{ injection Hc as <- <-. split; [done|]. right. left. unfold date_fromisoformat in Hd. by destruct (scan_date _) as [[? []]|]; simplify_eq. }
  destruct (parse_window (ha_window a)) as [n|e]; [|injection Hc as <- <-; eauto].
  assert ((if today - 1 <? sd then sd else today - 1) = Z.max sd (today - 1)) as Hend by (destruct (Z.ltb_spec (today - 1) sd); lia).
  rewrite Hend in Hc. injection Hc as <- <-. exists sd. split_and!; [done..| |].
  { destruct (overall_verdict _); auto. }
  unfold checked. set (ca := CheckArgs _ _ _). set (ed := Z.max sd (today - 1)).
  rewrite <- measure_volume_total, <- (gap_zero_iff _ _ _ _ _), verdict_code.
  unfold build_report, overall_verdict. cbn [layers existsb l_verdict].
  destruct (static_volume_cases (int_div (total_bytes (measure_volume (ha_root a) t ca sd ed)) (1024 ^ 3)) (ha_expected_gib a) f0_20) as [-> | ->];
  destruct (Z.eqb_spec (missing_count (measure_gap (ha_root a) t ca sd ed)) 0);
  (destruct (max_lag _) as [us|]; [destruct (static_lag_cases (seconds us) f60) as [-> | ->]|]); simpl; naive_solver.
Qed.

(** *** One healthy day *)

Definition one_day : Z := 20582.
Definition one_day_dir : path :=
  ["data"; "market"; "orderbookdepth"; "schema_version=orderbook_depth.v1"; "tier=L1"; "exchange=bithumb"; "symbol=KRW-BTC"; "date=2026-05-09"].
(** The day's order books, and the log's last segment if there is one *)
Definition one_day_tree (segment : option Z) : tree :=
  Tree (list_to_set ((λ n, firstn n one_day_dir) <$> seq 1 8) ∪ {[ ["data"; "wal"; "bithumb"; "orderbookdepth"] ]})
    (list_to_map ((one_day_dir ++ ["part.parquet"], File 4670777098 0) ::
      ((λ m, (["data"; "wal"; "bithumb"; "orderbookdepth"; "segment.ndjson"], File 1 m)) <$> match segment with Some m => [m] | None => [] end))).
Definition one_day_args (window : string) : health_args :=
  HealthArgs window [] ["bithumb"] ["L1"] "2026-05-09" false ["data"] f4_35.

Lemma exit_code_spec_witness :
  (health_check (one_day_args "5d") (one_day_tree (Some 30000000)) (one_day + 1) 60000000).1 = 0 ∧
  (∀ p, p ∈ checked (one_day_args "5d") (one_day_tree (Some 30000000)) one_day (one_day + 1) →
     present ["data"] (one_day_tree (Some 30000000)) p = true).
Proof.
  assert (date_fromisoformat "2026-05-09" = Ok one_day) as Hsd by (vm_compute; reflexivity).
  assert ((health_check (one_day_args "5d") (one_day_tree (Some 30000000)) (one_day + 1) 60000000).1 = 0) as H0 by (vm_compute; reflexivity).
  assert (match (health_check (one_day_args "5d") (one_day_tree (Some 30000000)) (one_day + 1) 60000000).2 with Some _ => true | None => false end = true) as H1
    by (vm_compute; reflexivity).
  destruct (health_check (one_day_args "5d") (one_day_tree (Some 30000000)) (one_day + 1) 60000000) as [code report] eqn:Hc.
  cbn [fst snd] in H0, H1. split; [done|].
  destruct report as [r|]; [|discriminate].
  destruct (exit_code_spec _ _ _ _ _ _ Hc) as (sd&Hd&_&_&_&Hiff).
  assert (Ok sd = Ok one_day) as Hsame by (rewrite <- Hsd; symmetry; exact Hd).
  apply Ok_inj in Hsame. subst sd. exact (proj1 (proj1 Hiff H0)).
Defined.

(** *** What the command leaves out *)

(** [--window] is parsed and then forgotten: two valid windows give the same
    report and the same exit code, whatever the days they name. *)
Lemma window_is_ignored (a : health_args) (w1 w2 : string) (n1 n2 : Z) (t : tree) (today now : Z) :
  let with_window w := HealthArgs w (ha_symbols a) (ha_exchanges a) (ha_tiers a) (ha_start_date a) (ha_rolling a) (ha_root a) (ha_expected_gib a) in
  parse_window w1 = Ok n1 → parse_window w2 = Ok n2 →
  health_check (with_window w1) t today now = health_check (with_window w2) t today now.
Proof. intros with_window H1 H2. unfold health_check, with_window. simpl. by rewrite H1, H2. Qed.

Example windows_of_a_day_and_of_a_month : parse_window "1d" = Ok 1 ∧ parse_window "30d" = Ok 30.
Proof. split; reflexivity. Qed.

(** A collector that stopped logging altogether passes: without a segment the
    lag is not available, and only a lag that is measured and too long fails. *)
Example silent_exchange_passes :
  (health_check (one_day_args "5d") (one_day_tree None) (one_day + 1) 60000000).1 = 0 ∧
  (health_check (one_day_args "5d") (one_day_tree (Some (-1000000))) (one_day + 1) 60000000).1 = 1.
Proof. vm_compute. split; reflexivity. Qed.
