(* ===== verification/RealtimeStream.v ===== *)
(** * The live tick stream ([api/realtime_stream.py])

    The publisher and the coroutines that publish with it.  A coroutine runs
    without interruption between two [await]s, so the model is a machine whose
    events are these pieces; they interleave in any order.  Redis is the list of
    the entries it took; an [XADD] takes effect before its answer arrives, and
    the answer may be an error.  Trimming by [MAXLEN] is Redis' own.  The
    [model_dump_json()] of a tick is an argument. *)
From S2P Require Import Prelude.
Open Scope string_scope.
Open Scope list_scope.
Open Scope nat_scope.

(** ** Data *)

(** An entry: stream key and payload *)
Notation item := (string * string)%type.

Definition _LOCAL_QUEUE_MAX : nat := 100.
Definition _RETRY_MAX : nat := 5.
Definition _RETRY_BASE_ms : nat := 500.
Definition backoff_ms (attempt : nat) : nat := _RETRY_BASE_ms * 2 ^ attempt.

Definition _stream_key (prefix : option string) (exchange symbol : string) : string :=
  default "market" prefix +:+ ":tick:" +:+ exchange +:+ ":" +:+ symbol.

(** [redis]: is there a client object? *)
Record publisher := Publisher { redis : bool; local_mode : bool; local_queue : list item; publish_failures : nat }.
Definition new_publisher : publisher := Publisher false false [] 0.
Definition local_queue_size (p : publisher) : nat := length (local_queue p).

(** A [publish_tick] that waits: for the answer to attempt [tk_attempt], which
    Redis has taken or not, or for the back-off before it. *)
Inductive wait := InFlight (applied : bool) | Sleeping (ms : nat).
Record task := Task { tk_item : item; tk_attempt : nat; tk_wait : wait }.

(** [w_drain]: the entry [shutdown] waits for.  The last five fields are
    history: what was published, what was acknowledged, what the full queue
    dropped, what was cancelled, and what a failed drain dropped. *)
Record world := World {
  w_pub : publisher; w_stream : list item; w_tasks : list task; w_drain : option (item * bool);
  w_published : list item; w_stored : list item; w_evicted : list item; w_cancelled : list item; w_dropped : list item }.
Definition fresh_world : world := World new_publisher [] [] None [] [] [] [] [].

(** ** Operations *)

(** [deque(maxlen=100).append]: the queue, and what falls out *)
Definition append_bounded (q : list item) (x : item) : list item * list item :=
  let q' := q ++ [x] in
  let n := length q' - _LOCAL_QUEUE_MAX in (drop n q', take n q').

Inductive startup_outcome := ImportFails | FromUrlFails | PingFails | Connected.
Definition startup (o : startup_outcome) (p : publisher) : publisher :=
  match o with
  | ImportFails => p
  | FromUrlFails => Publisher (redis p) true (local_queue p) (publish_failures p)
  | PingFails => Publisher true true (local_queue p) (publish_failures p)
  | Connected => Publisher true false (local_queue p) (publish_failures p)
  end.

(** The [except] branch of an attempt: back off, or give up and go local *)
Definition on_error (x : item) (attempt : nat) (p : publisher) : publisher * list item * list task :=
  if attempt <? _RETRY_MAX
  then (p, [], [Task x (S attempt) (Sleeping (backoff_ms attempt))])
  else
    let '(q, out) := append_bounded (local_queue p) x in
    (Publisher (redis p) true q (S (publish_failures p)), out, []).
(** An attempt up to its [await]; without a client the call itself raises. *)
Definition attempt_xadd (x : item) (attempt : nat) (p : publisher) : publisher * list item * list task :=
  if redis p then (p, [], [Task x attempt (InFlight false)]) else on_error x attempt p.
(** [publish_tick] up to its first [await] *)
Definition publish_tick (x : item) (p : publisher) : publisher * list item * list task :=
  if local_mode p
  then let '(q, out) := append_bounded (local_queue p) x in (Publisher (redis p) (local_mode p) q (publish_failures p), out, [])
  else attempt_xadd x 0 p.

(** The loop of [shutdown]: the next entry to send, or the end, which drops
    the client *)
Definition close_client (p : publisher) : publisher := Publisher false (local_mode p) (local_queue p) (publish_failures p).
Definition drain_next (p : publisher) : publisher * option (item * bool) :=
  match local_queue p with
  | x :: q => (Publisher (redis p) (local_mode p) q (publish_failures p), Some (x, false))
  | [] => (close_client p, None)
  end.
Definition shutdown (p : publisher) : publisher * option (item * bool) :=
  if redis p && negb (local_mode p) then drain_next p else (close_client p, None).

(** ** The machine *)

(** [i] numbers the waiting coroutines. *)
Inductive event :=
| Startup (o : startup_outcome)
| Publish (prefix : option string) (exchange symbol payload : string)
| Apply (i : nat)    (* Redis takes the entry *)
| Return (i : nat)   (* its answer arrives *)
| Error (i : nat)    (* the call raises *)
| Wake (i : nat)     (* the back-off is over *)
| Cancel (i : nat)   (* the coroutine is cancelled: no [Exception], nothing catches it *)
| Shutdown
| DrainApply | DrainReturn | DrainError.

Definition set_pub (p : publisher) (w : world) : world :=
  World p (w_stream w) (w_tasks w) (w_drain w) (w_published w) (w_stored w) (w_evicted w) (w_cancelled w) (w_dropped w).
(** Coroutine [i] is replaced by what becomes of it. *)
Definition resume (i : nat) (r : publisher * list item * list task) (w : world) : world :=
  let '(p, out, ts) := r in
  World p (w_stream w) (delete i (w_tasks w) ++ ts) (w_drain w) (w_published w) (w_stored w) (w_evicted w ++ out) (w_cancelled w) (w_dropped w).
Definition set_drain (r : publisher * option (item * bool)) (w : world) : world :=
  World r.1 (w_stream w) (w_tasks w) r.2 (w_published w) (w_stored w) (w_evicted w) (w_cancelled w) (w_dropped w).

Definition exec (ev : event) (w : world) : option world :=
  match ev with
  | Startup o => Some (set_pub (startup o (w_pub w)) w)
  | Publish prefix exchange symbol payload =>
      let x := (_stream_key prefix exchange symbol, payload) in
      let '(p, out, ts) := publish_tick x (w_pub w) in
      Some (World p (w_stream w) (w_tasks w ++ ts) (w_drain w) (w_published w ++ [x]) (w_stored w) (w_evicted w ++ out) (w_cancelled w) (w_dropped w))
  | Apply i =>
      match w_tasks w !! i with
      | Some (Task x n (InFlight false)) =>
          Some (World (w_pub w) (w_stream w ++ [x]) (delete i (w_tasks w) ++ [Task x n (InFlight true)]) (w_drain w)
                  (w_published w) (w_stored w) (w_evicted w) (w_cancelled w) (w_dropped w))
      | _ => None
      end
  | Return i =>
      match w_tasks w !! i with
      | Some (Task x n (InFlight true)) =>
          Some (World (w_pub w) (w_stream w) (delete i (w_tasks w)) (w_drain w)
                  (w_published w) (w_stored w ++ [x]) (w_evicted w) (w_cancelled w) (w_dropped w))
      | _ => None
      end
  | Error i =>
      match w_tasks w !! i with
      | Some (Task x n (InFlight _)) => Some (resume i (on_error x n (w_pub w)) w)
      | _ => None
      end
  | Wake i =>
      match w_tasks w !! i with
      | Some (Task x n (Sleeping _)) => Some (resume i (attempt_xadd x n (w_pub w)) w)
      | _ => None
      end
  | Cancel i =>
      match w_tasks w !! i with
      | Some t =>
          Some (World (w_pub w) (w_stream w) (delete i (w_tasks w)) (w_drain w)
                  (w_published w) (w_stored w) (w_evicted w) (w_cancelled w ++ [tk_item t]) (w_dropped w))
      | None => None
      end
  | Shutdown => match w_drain w with None => Some (set_drain (shutdown (w_pub w)) w) | Some _ => None end
  | DrainApply =>
      match w_drain w with
      | Some (x, false) =>
          Some (World (w_pub w) (w_stream w ++ [x]) (w_tasks w) (Some (x, true)) (w_published w) (w_stored w) (w_evicted w) (w_cancelled w) (w_dropped w))
      | _ => None
      end
  | DrainReturn =>
      match w_drain w with
      | Some (x, true) =>
          let '(p, d) := drain_next (w_pub w) in
          Some (World p (w_stream w) (w_tasks w) d (w_published w) (w_stored w ++ [x]) (w_evicted w) (w_cancelled w) (w_dropped w))
      | _ => None
      end
  | DrainError =>
      match w_drain w with
      | Some (x, _) =>
          Some (World (close_client (w_pub w)) (w_stream w) (w_tasks w) None (w_published w) (w_stored w) (w_evicted w) (w_cancelled w) (w_dropped w ++ [x]))
      | _ => None
      end
  end.
Fixpoint run (evs : list event) (w : world) : option world :=
  match evs with [] => Some w | ev :: evs => match exec ev w with Some w' => run evs w' | None => None end end.

(** [step]: some event leads from a state to the next; [reachable]: from a new
    publisher *)
Definition step (w w' : world) : Prop := ∃ ev, exec ev w = Some w'.
Inductive reachable : world → Prop :=
| reachable_fresh : reachable fresh_world
| reachable_step w ev w' : reachable w → exec ev w = Some w' → reachable w'.

(** ** Where a tick is *)

Definition copies (x : item) (l : list item) : nat := List.count_occ (decide_rel (=)) l x.
Definition drain_list (d : option (item * bool)) : list item := match d with Some (x, _) => [x] | None => [] end.
(** The entries Redis took and has not answered for yet *)
Definition taken_by (t : task) : list item := match tk_wait t with InFlight true => [tk_item t] | _ => [] end.
Definition taken (w : world) : list item :=
  (w_tasks w ≫= taken_by) ++ match w_drain w with Some (x, true) => [x] | _ => [] end.
(** Everything that was published, by what became of it *)
Definition waiting (ts : list task) : list item := ts ≫= λ t, [tk_item t].
Definition accounted_for (w : world) : list item :=
  w_stored w ++ waiting (w_tasks w) ++ local_queue (w_pub w) ++ w_evicted w ++ w_cancelled w ++ drain_list (w_drain w) ++ w_dropped w.

#[global] Arguments copies : simpl never.
Lemma copies_app x l k : copies x (l ++ k) = copies x l + copies x k.
Proof. apply List.count_occ_app. Qed.
Lemma copies_nil x : copies x [] = 0.
Proof. done. Qed.
Lemma copies_perm l k : l ≡ₚ k ↔ ∀ x, copies x l = copies x k.
Proof. apply Permutation_count_occ. Qed.
Lemma copies_elem x l : x ∈ l ↔ 0 < copies x l.
Proof. rewrite list_elem_of_In. unfold copies. rewrite List.count_occ_In. unfold gt. done. Qed.
Lemma copies_bind_delete {A} (f : A → list item) (l : list A) i t x : l !! i = Some t →
  copies x (l ≫= f) = copies x (delete i l ≫= f) + copies x (f t).
Proof.
  revert i. induction l as [|a l IH]; intros [|i] Hi; simplify_eq/=.
  - rewrite copies_app. lia.
  - rewrite !copies_app, (IH i) by done. lia.
Qed.
Lemma waiting_nil : waiting [] = [].
Proof. done. Qed.
Lemma waiting_one t : waiting [t] = [tk_item t].
Proof. done. Qed.
Lemma waiting_app ts us : waiting (ts ++ us) = waiting ts ++ waiting us.
Proof. apply bind_app. Qed.

(** Equations between numbers of copies *)
Ltac count :=
  cbn [tk_item drain_list local_queue close_client] in *; rewrite ?waiting_app, ?waiting_nil, ?waiting_one, ?copies_app, ?copies_nil in *; cbn [tk_item] in *; lia.

Lemma append_bounded_spec q x :
  let '(q', out) := append_bounded q x in
  (∀ y, copies y q' + copies y out = copies y q + copies y [x]) ∧ length q' ≤ _LOCAL_QUEUE_MAX ∧ (length q < _LOCAL_QUEUE_MAX → out = []).
Proof.
  unfold append_bounded, _LOCAL_QUEUE_MAX. split_and!.
  - intros y. pose proof (copies_app y (take (length (q ++ [x]) - 100) (q ++ [x])) (drop (length (q ++ [x]) - 100) (q ++ [x]))) as Hc.
    rewrite take_drop, copies_app in Hc. lia.
  - rewrite length_drop, !length_app. simpl. lia.
  - intros Hq. rewrite length_app. simpl. by replace (length q + 1 - 100) with 0 by lia.
Qed.

(** What a piece of a coroutine does with the entry it is about *)
Definition keeps_entry (x : item) (p : publisher) (r : publisher * list item * list task) : Prop :=
  let '(p', out, ts) := r in
  (∀ y, copies y (local_queue p') + copies y out + copies y (waiting ts) = copies y (local_queue p) + copies y [x]) ∧
  ts ≫= taken_by = [] ∧ Forall (λ t, tk_attempt t ≤ _RETRY_MAX) ts ∧
  (length (local_queue p) ≤ _LOCAL_QUEUE_MAX → length (local_queue p') ≤ _LOCAL_QUEUE_MAX).

Lemma on_error_keeps x n p : n ≤ _RETRY_MAX → keeps_entry x p (on_error x n p).
Proof.
  intros Hn. unfold on_error. destruct (Nat.ltb_spec n _RETRY_MAX).
  - unfold keeps_entry. split_and!; [intros y; count|done|apply Forall_singleton; simpl; lia|done].
  - pose proof (append_bounded_spec (local_queue p) x) as Ha. destruct (append_bounded _ _) as [q out]. destruct Ha as (Hc&Hlen&_).
    split_and!; [intros y; specialize (Hc y); cbn [local_queue]; count|done|constructor|done].
Qed.
Lemma attempt_keeps x n p : n ≤ _RETRY_MAX → keeps_entry x p (attempt_xadd x n p).
Proof.
  intros Hn. unfold attempt_xadd. destruct (redis p); [|by apply on_error_keeps].
  split_and!; [intros y; count|done|by apply Forall_singleton|done].
Qed.
Lemma publish_keeps x p : keeps_entry x p (publish_tick x p).
Proof.
  unfold publish_tick. destruct (local_mode p); [|apply attempt_keeps; unfold _RETRY_MAX; lia].
  pose proof (append_bounded_spec (local_queue p) x) as Ha. destruct (append_bounded _ _) as [q out]. destruct Ha as (Hc&Hlen&_).
  split_and!; [intros y; specialize (Hc y); cbn [local_queue]; count|done|constructor|done].
Qed.

Lemma drain_next_spec p : let '(p', d) := drain_next p in
  (∀ y, copies y (local_queue p') + copies y (drain_list d) = copies y (local_queue p)) ∧
  (match d with Some (_, b) => b = false | None => True end) ∧ length (local_queue p') ≤ length (local_queue p).
Proof.
  unfold drain_next. destruct (local_queue p) as [|x q] eqn:Hq; simpl; rewrite ?Hq; split_and!; try done; [|lia].
  intros y. rewrite <- (copies_app y q [x]), copies_app, Nat.add_comm, <- copies_app. done.
Qed.

(** The invariant of the machine *)
Record accounted (w : world) : Prop := {
  ac_all : ∀ x, copies x (w_published w) = copies x (accounted_for w);
  ac_stream : ∀ x, copies x (w_stored w) + copies x (taken w) ≤ copies x (w_stream w);
  ac_only : ∀ x, x ∈ w_stream w → x ∈ w_published w;
  ac_queue : length (local_queue (w_pub w)) ≤ _LOCAL_QUEUE_MAX;
  ac_attempts : Forall (λ t, tk_attempt t ≤ _RETRY_MAX) (w_tasks w) }.

Lemma waiting_delete ts i t y : ts !! i = Some t → copies y (waiting ts) = copies y (waiting (delete i ts)) + copies y [tk_item t].
Proof. apply (copies_bind_delete (λ t, [tk_item t])). Qed.
Lemma taken_delete ts i t y : ts !! i = Some t → copies y (ts ≫= taken_by) = copies y (delete i ts ≫= taken_by) + copies y (taken_by t).
Proof. apply copies_bind_delete. Qed.

(** The coroutine that continues keeps its entry in sight. *)
Lemma resume_accounted w i t r : accounted w → w_tasks w !! i = Some t → keeps_entry (tk_item t) (w_pub w) r → accounted (resume i r w).
Proof.
  intros [Hall Hstream Honly Hq Hn] Hi. destruct r as [[p out] ts]. intros (Hc&Hts&Hatt&Hlen). unfold resume. split; simpl.
  - intros y. specialize (Hall y). specialize (Hc y). pose proof (waiting_delete _ _ _ y Hi). unfold accounted_for in *. simpl. count.
  - intros y. specialize (Hstream y). pose proof (taken_delete _ _ _ y Hi). unfold taken in *. simpl. rewrite bind_app, Hts. count.
  - done.
  - auto.
  - apply Forall_app. split; [by apply Forall_delete|done].
Qed.

Lemma publish_accounted w x : accounted w →
  let '(p, out, ts) := publish_tick x (w_pub w) in
  accounted (World p (w_stream w) (w_tasks w ++ ts) (w_drain w) (w_published w ++ [x]) (w_stored w) (w_evicted w ++ out) (w_cancelled w) (w_dropped w)).
Proof.
  intros [Hall Hstream Honly Hq Hn]. pose proof (publish_keeps x (w_pub w)) as Hk. destruct (publish_tick x (w_pub w)) as [[p out] ts].
  destruct Hk as (Hc&Hts&Hatt&Hlen). split; simpl.
  - intros y. specialize (Hall y). specialize (Hc y). unfold accounted_for in *. simpl. count.
  - intros y. specialize (Hstream y). unfold taken in *. simpl. rewrite bind_app, Hts. count.
  - intros y Hy. apply elem_of_app. auto.
  - auto.
  - by apply Forall_app.
Qed.

Lemma startup_queue o p : local_queue (startup o p) = local_queue p.
Proof. by destruct o. Qed.
Lemma shutdown_spec p : let '(p', d) := shutdown p in
  (∀ y, copies y (local_queue p') + copies y (drain_list d) = copies y (local_queue p)) ∧
  (match d with Some (_, b) => b = false | None => True end) ∧ length (local_queue p') ≤ length (local_queue p).
Proof. unfold shutdown. destruct (redis p && negb (local_mode p)); [apply drain_next_spec|]. split_and!; [|done..]. intros y. count. Qed.

(** Redis takes or acknowledges the entry of coroutine [i], or the coroutine
    is cancelled: [ts] is what is left of it. *)
Lemma advance_accounted w i t new ts s c : accounted w → w_tasks w !! i = Some t →
  (∀ y, copies y (waiting ts) + copies y s + copies y c = copies y [tk_item t]) →
  (∀ y, copies y s + copies y (ts ≫= taken_by) ≤ copies y (taken_by t) + copies y new) →
  (∀ y, y ∈ new → y = tk_item t) → Forall (λ u, tk_attempt u ≤ _RETRY_MAX) ts →
  accounted (World (w_pub w) (w_stream w ++ new) (delete i (w_tasks w) ++ ts) (w_drain w)
    (w_published w) (w_stored w ++ s) (w_evicted w) (w_cancelled w ++ c) (w_dropped w)).
Proof.
  intros [Hall Hstream Honly Hq Hn] Hi Hsplit Htaken Hnew Hts. split; simpl.
  - intros y. specialize (Hall y). specialize (Hsplit y). pose proof (waiting_delete _ _ _ y Hi). unfold accounted_for in *. simpl. count.
  - intros y. specialize (Hstream y). specialize (Htaken y). pose proof (taken_delete _ _ _ y Hi). unfold taken in *. simpl in *.
    rewrite bind_app. count.
  - intros y [Hy| ->%Hnew]%elem_of_app; [auto|]. apply copies_elem. rewrite Hall.
    pose proof (waiting_delete _ _ _ (tk_item t) Hi). unfold accounted_for.
    assert (0 < copies (tk_item t) [tk_item t]) by (apply copies_elem; set_solver). count.
  - done.
  - apply Forall_app. split; [by apply Forall_delete|done].
Qed.

(** The drain of [shutdown] sends the entry it took from the queue. *)
Lemma drain_accounted w p d stream s dropped : accounted w →
  (∀ y, copies y (local_queue p) + copies y (drain_list d) + copies y s + copies y dropped =
        copies y (local_queue (w_pub w)) + copies y (drain_list (w_drain w))) →
  (∀ y, copies y s + copies y (match d with Some (x, true) => [x] | _ => [] end) ≤
        copies y (match w_drain w with Some (x, true) => [x] | _ => [] end) + copies y stream) →
  (∀ y, y ∈ stream → y ∈ drain_list (w_drain w)) → length (local_queue p) ≤ length (local_queue (w_pub w)) →
  accounted (World p (w_stream w ++ stream) (w_tasks w) d (w_published w) (w_stored w ++ s) (w_evicted w) (w_cancelled w) (w_dropped w ++ dropped)).
Proof.
  intros [Hall Hstream Honly Hq Hn] Hsplit Htaken Hnew Hlen. split; simpl.
  - intros y. specialize (Hall y). specialize (Hsplit y). unfold accounted_for in *. simpl. count.
  - intros y. specialize (Hstream y). specialize (Htaken y). unfold taken in *. simpl. count.
  - intros y [Hy|Hy%Hnew]%elem_of_app; [auto|]. apply copies_elem. rewrite Hall. apply copies_elem in Hy. unfold accounted_for. count.
  - lia.
  - done.
Qed.

Lemma task_event_accounted ev w w' i : ev = Apply i ∨ ev = Return i ∨ ev = Error i ∨ ev = Wake i ∨ ev = Cancel i →
  accounted w → exec ev w = Some w' → accounted w'.
Proof.
  intros Hev Hw He. destruct (w_tasks w !! i) as [[x n wt]|] eqn:Hi; [|destruct Hev as [->|[->|[->|[->| ->]]]]; simpl in He; by rewrite Hi in He].
  pose proof (Forall_lookup_1 _ _ _ _ (ac_attempts _ Hw) Hi) as Hn. simpl in Hn.
  destruct Hev as [->|[->|[->|[->| ->]]]]; simpl in He; rewrite Hi in He.
  - destruct wt as [[]|]; simplify_eq.
    pose proof (advance_accounted w i _ [x] [Task x n (InFlight true)] [] [] Hw Hi) as Ha. rewrite !app_nil_r in Ha.
    apply Ha; [intros y; count|intros y; unfold taken_by; simpl; rewrite ?app_nil_r; count|set_solver|by apply Forall_singleton].
  - destruct wt as [[]|]; simplify_eq.
    pose proof (advance_accounted w i _ [] [] [x] [] Hw Hi) as Ha. rewrite !app_nil_r in Ha.
    apply Ha; [intros y; count|intros y; unfold taken_by; simpl; count|set_solver|constructor].
  - destruct wt as [b|]; simplify_eq. apply (resume_accounted w i _ _ Hw Hi). by apply on_error_keeps.
  - destruct wt as [b|]; simplify_eq. apply (resume_accounted w i _ _ Hw Hi). by apply attempt_keeps.
  - simplify_eq. pose proof (advance_accounted w i _ [] [] [] [x] Hw Hi) as Ha. rewrite !app_nil_r in Ha.
    apply Ha; [intros y; count|intros y; unfold taken_by; simpl; count|set_solver|constructor].
Qed.

Lemma drain_event_accounted ev w w' : ev = Shutdown ∨ ev = DrainApply ∨ ev = DrainReturn ∨ ev = DrainError →
  accounted w → exec ev w = Some w' → accounted w'.
Proof.
  intros Hev Hw He. destruct Hev as [->|[->|[->| ->]]]; simpl in He.
  - destruct (w_drain w) as [[x b]|] eqn:Hd; simplify_eq. pose proof (shutdown_spec (w_pub w)) as Hs.
    destruct (shutdown (w_pub w)) as [p d]. destruct Hs as (Hc&Hb&Hlen).
    pose proof (drain_accounted w p d [] [] [] Hw) as Ha. rewrite !app_nil_r, Hd in Ha. apply Ha; [| |set_solver|done].
    + intros y. specialize (Hc y). count.
    + intros y. destruct d as [[x []]|]; [done|count..].
  - destruct (w_drain w) as [[x []]|] eqn:Hd; simplify_eq.
    pose proof (drain_accounted w (w_pub w) (Some (x, true)) [x] [] [] Hw) as Ha. rewrite !app_nil_r, Hd in Ha.
    apply Ha; [intros y; count..|set_solver|done].
  - destruct (w_drain w) as [[x []]|] eqn:Hd; [|done..]. pose proof (drain_next_spec (w_pub w)) as Hs.
    destruct (drain_next (w_pub w)) as [p d]. simplify_eq. destruct Hs as (Hc&Hb&Hlen).
    pose proof (drain_accounted w p d [] [x] [] Hw) as Ha. rewrite !app_nil_r, Hd in Ha. apply Ha; [| |set_solver|done].
    + intros y. specialize (Hc y). count.
    + intros y. destruct d as [[z []]|]; [done|count..].
  - destruct (w_drain w) as [[x b]|] eqn:Hd; simplify_eq.
    pose proof (drain_accounted w (close_client (w_pub w)) None [] [] [x] Hw) as Ha. rewrite !app_nil_r, Hd in Ha.
    apply Ha; [intros y; count|intros y; count|set_solver|done].
Qed.

Lemma exec_accounted ev w w' : accounted w → exec ev w = Some w' → accounted w'.
Proof.
  intros Hw He. destruct ev as [o|pr ex sy pl|i|i|i|i|i| | | |];
    try (by eapply (task_event_accounted _ _ _ i); [|exact Hw|exact He]; auto);
    try (by eapply drain_event_accounted; [|exact Hw|exact He]; auto).
  - simpl in He. simplify_eq. destruct Hw as [Hall Hstream Honly Hq Hn].
    split; unfold accounted_for in *; simpl; rewrite ?startup_queue; done.
  - simpl in He. pose proof (publish_accounted w (_stream_key pr ex sy, pl) Hw) as Hp. destruct (publish_tick _ _) as [[p out] ts]. by simplify_eq.
Qed.

Lemma reachable_accounted w : reachable w → accounted w.
Proof. induction 1; [|by eapply exec_accounted]. split; try done; simpl. unfold _LOCAL_QUEUE_MAX. lia. Qed.

(** C28.  No tick vanishes, whatever the order of the coroutines' pieces and
    the failures of Redis: each publication is at any time exactly one of
    acknowledged by Redis, still being tried, in the local queue, pushed out of
    the full queue, cancelled, or dropped by a failed drain; Redis has taken at
    least what it acknowledged and only what was published; and the queue never
    holds more than its hundred entries. *)
Theorem every_tick_is_accounted_for (w : world) :
  reachable w →
  w_published w ≡ₚ accounted_for w ∧
  (∀ x, copies x (w_stored w) + copies x (taken w) ≤ copies x (w_stream w)) ∧
  (∀ x, x ∈ w_stream w → x ∈ w_published w) ∧
  local_queue_size (w_pub w) ≤ _LOCAL_QUEUE_MAX.
Proof. intros [Hall Hstream Honly Hq _]%reachable_accounted. split_and!; [by apply copies_perm|done..]. Qed.

(** ** The retries end *)

(** How many pieces a coroutine has left, at most *)
Definition task_work (t : task) : nat :=
  3 * (S _RETRY_MAX - tk_attempt t) + match tk_wait t with Sleeping _ => 3 | InFlight false => 2 | InFlight true => 1 end.
Definition work (w : world) : nat := sum_list_with task_work (w_tasks w).
Definition of_task (ev : event) : bool := match ev with Apply _ | Return _ | Error _ | Wake _ | Cancel _ => true | _ => false end.

Lemma work_delete (ts : list task) i t us : ts !! i = Some t → sum_list_with task_work us < task_work t →
  sum_list_with task_work (delete i ts ++ us) < sum_list_with task_work ts.
Proof.
  intros Hi Hlt. pose proof (sum_list_with_Permutation_proper task_work _ _ (delete_Permutation ts i t Hi)) as Hp.
  rewrite sum_list_with_app, Hp. simpl. lia.
Qed.
Lemma task_work_pos t : 0 < task_work t.
Proof. unfold task_work. destruct (tk_wait t) as [[]|]; lia. Qed.

(** An attempt that fails leaves less to do. *)
Lemma on_error_work x n p b : n ≤ _RETRY_MAX → sum_list_with task_work (on_error x n p).2 < task_work (Task x n (InFlight b)).
Proof.
  intros Hn. unfold on_error. destruct (Nat.ltb_spec n _RETRY_MAX) as [Hlt|Hge].
  - unfold task_work, _RETRY_MAX in *. simpl. destruct b; lia.
  - destruct (append_bounded _ _). apply task_work_pos.
Qed.
Lemma attempt_work x n p ms : n ≤ _RETRY_MAX → sum_list_with task_work (attempt_xadd x n p).2 < task_work (Task x n (Sleeping ms)).
Proof.
  intros Hn. unfold attempt_xadd. destruct (redis p); [unfold task_work; simpl; lia|].
  pose proof (on_error_work x n p false Hn) as He. unfold task_work at 2 in He. unfold task_work at 2. simpl in *. lia.
Qed.
Lemma resume_work w i t r : w_tasks w !! i = Some t → sum_list_with task_work r.2 < task_work t → work (resume i r w) < work w.
Proof. destruct r as [[p out] ts]. apply work_delete. Qed.

Lemma task_event_work ev w w' : Forall (λ t, tk_attempt t ≤ _RETRY_MAX) (w_tasks w) → of_task ev = true → exec ev w = Some w' → work w' < work w.
Proof.
  intros Hn Hev He. destruct ev as [| |i|i|i|i|i| | | |]; try done; simpl in He.
  all: destruct (w_tasks w !! i) as [[x n wt]|] eqn:Hi; [|done]; pose proof (Forall_lookup_1 _ _ _ _ Hn Hi) as Hx; simpl in Hx.
  - destruct wt as [[]|]; simplify_eq. apply (work_delete _ _ _ _ Hi). unfold task_work. simpl. lia.
  - destruct wt as [[]|]; simplify_eq. unfold work. simpl. rewrite <- (app_nil_r (delete i _)). apply (work_delete _ _ _ _ Hi), task_work_pos.
  - destruct wt as [b|]; simplify_eq. by apply (resume_work _ _ _ _ Hi), on_error_work.
  - destruct wt as [b|ms]; simplify_eq. by apply (resume_work _ _ _ _ Hi), attempt_work.
  - simplify_eq. unfold work. simpl. rewrite <- (app_nil_r (delete i _)). apply (work_delete _ _ _ _ Hi), task_work_pos.
Qed.

(** The retry loops end: while nothing new is published every piece of a
    coroutine that runs leaves strictly less to do, at most twenty-one pieces
    for each waiting call, and a call that waits for Redis can fail and one that
    backs off can wake. *)
Theorem retries_terminate (w : world) :
  reachable w →
  work w ≤ 21 * length (w_tasks w) ∧
  (∀ ev w', of_task ev = true → exec ev w = Some w' → work w' < work w) ∧
  (w_tasks w ≠ [] → ∃ w', exec (Error 0) w = Some w' ∨ exec (Wake 0) w = Some w').
Proof.
  intros [_ _ _ _ Hn]%reachable_accounted. split_and!.
  - unfold work. induction (w_tasks w) as [|t ts IH]; [simpl; lia|]. simpl. pose proof (IH (Forall_inv_tail Hn)).
    assert (task_work t ≤ 21) by (unfold task_work, _RETRY_MAX; destruct (tk_wait t) as [[]|]; lia). lia.
  - intros ev w'. by apply task_event_work.
  - intros Hts. destruct (w_tasks w) as [|[x n wt] ts] eqn:Htasks; [done|].
    simpl. rewrite Htasks. simpl. destruct wt; eauto.
Qed.

Lemma run_reachable evs w w' : reachable w → run evs w = Some w' → reachable w'.
Proof.
  revert w. induction evs as [|ev evs IH]; intros w Hw; simpl; [by intros [= <-]|].
  destruct (exec ev w) as [w1|] eqn:He; [|done]. apply IH. by eapply reachable_step.
Qed.

(** *** An outage *)

Definition btc (payload : string) : item := ("market:tick:bithumb:KRW-BTC", payload).
Definition publish_btc (payload : string) : event := Publish None "bithumb" "KRW-BTC" payload.
(** Every attempt of the first coroutine fails, its queue entry is local from
    then on, the next tick is local at once; [m] is taken and acknowledged. *)
Definition outage : list event :=
  [Startup Connected; publish_btc "m"; Apply 0; Return 0; publish_btc "n"] ++ mjoin (replicate 5 [Error 0; Wake 0]) ++ [Error 0; publish_btc "o"].
Definition after_outage : world := default fresh_world (run outage fresh_world).

Lemma outage_runs : run outage fresh_world = Some after_outage.
Proof. vm_compute. reflexivity. Qed.
Example outage_goes_local :
  (local_mode (w_pub after_outage), local_queue (w_pub after_outage), w_stored after_outage, w_tasks after_outage) =
  (true, [btc "n"; btc "o"], [btc "m"], []).
Proof. vm_compute. reflexivity. Qed.
(** Half a second doubled four times *)
Example backoff_times : backoff_ms <$> seq 0 5 = [500; 1000; 2000; 4000; 8000].
Proof. reflexivity. Qed.

Lemma every_tick_is_accounted_for_witness :
  w_published after_outage = [btc "m"; btc "n"; btc "o"] ∧ w_published after_outage ≡ₚ accounted_for after_outage.
Proof.
  split; [vm_compute; reflexivity|].
  exact (proj1 (every_tick_is_accounted_for after_outage (run_reachable outage fresh_world after_outage reachable_fresh outage_runs))).
Defined.

Definition retrying : list event := [Startup Connected; publish_btc "m"; publish_btc "n"; Error 1; Apply 0].
Lemma retries_terminate_witness : ∃ w, run retrying fresh_world = Some w ∧ work w ≤ 42 ∧ length (w_tasks w) = 2.
Proof.
  assert (match run retrying fresh_world with Some w => length (w_tasks w) | None => 0 end = 2) as Hn by (vm_compute; reflexivity).
  destruct (run retrying fresh_world) as [w|] eqn:Hr; [|discriminate].
  exists w. split; [done|]. split; [|done].
  pose proof (proj1 (retries_terminate w (run_reachable retrying fresh_world w reachable_fresh Hr))) as Hw. rewrite Hn in Hw. exact Hw.
Defined.

(** ** What the local queue is for *)

(** One start, as [app.py] does it, and then anything else *)
Definition in_lifespan (w : world) : Prop :=
  ∃ o evs, Forall (λ ev, match ev with Startup _ => False | _ => True end) evs ∧ run evs (set_pub (startup o new_publisher) fresh_world) = Some w.

Definition local_only (w : world) : Prop := w_drain w = None ∧ w_dropped w = [] ∧ (local_queue (w_pub w) ≠ [] → local_mode (w_pub w) = true).

Lemma on_error_local x n p : (local_queue p ≠ [] → local_mode p = true) →
  let p' := (on_error x n p).1.1 in (local_queue p' ≠ [] → local_mode p' = true) ∧ (local_mode p = true → local_mode p' = true).
Proof. intros Hp. unfold on_error. destruct (n <? _RETRY_MAX); [by split|]. destruct (append_bounded _ _). by split. Qed.
Lemma attempt_local x n p : (local_queue p ≠ [] → local_mode p = true) →
  let p' := (attempt_xadd x n p).1.1 in (local_queue p' ≠ [] → local_mode p' = true) ∧ (local_mode p = true → local_mode p' = true).
Proof. intros Hp. unfold attempt_xadd. destruct (redis p); [by split|by apply on_error_local]. Qed.
Lemma publish_local x p : (local_queue p ≠ [] → local_mode p = true) →
  let p' := (publish_tick x p).1.1 in (local_queue p' ≠ [] → local_mode p' = true) ∧ (local_mode p = true → local_mode p' = true).
Proof.
  intros Hp. unfold publish_tick. destruct (local_mode p) eqn:Hm; [|rewrite <- Hm; apply attempt_local; by rewrite Hm].
  destruct (append_bounded _ _). by split.
Qed.

Lemma exec_local ev w w' : match ev with Startup _ => False | _ => True end → local_only w → exec ev w = Some w' →
  local_only w' ∧ (local_mode (w_pub w) = true → local_mode (w_pub w') = true).
Proof.
  intros Hev (Hd&Hdrop&Hq) He. unfold local_only. destruct ev as [|pr ex sy pl|i|i|i|i|i| | | |]; [done|..]; simpl in He.
  - pose proof (publish_local (_stream_key pr ex sy, pl) (w_pub w) Hq) as Hp. destruct (publish_tick _ _) as [[p out] ts]. simplify_eq/=. naive_solver.
  - destruct (w_tasks w !! i) as [[x n [[]|]]|]; simplify_eq/=; auto.
  - destruct (w_tasks w !! i) as [[x n [[]|]]|]; simplify_eq/=; auto.
  - destruct (w_tasks w !! i) as [[x n [b|]]|]; simplify_eq/=. pose proof (on_error_local x n (w_pub w) Hq) as Hp.
    destruct (on_error _ _ _) as [[p out] ts]. simpl in *. naive_solver.
  - destruct (w_tasks w !! i) as [[x n [b|]]|]; simplify_eq/=. pose proof (attempt_local x n (w_pub w) Hq) as Hp.
    destruct (attempt_xadd _ _ _) as [[p out] ts]. simpl in *. naive_solver.
  - destruct (w_tasks w !! i); simplify_eq/=; auto.
  - rewrite Hd in He. simplify_eq/=. unfold shutdown, drain_next. destruct (redis (w_pub w)); simpl; [|auto].
    destruct (local_mode (w_pub w)) eqn:Hm; simpl; [auto|]. destruct (local_queue (w_pub w)) eqn:Hl; simpl; [rewrite Hm, Hl; auto|].
    by discriminate Hq.
  - by rewrite Hd in He.
  - by rewrite Hd in He.
  - by rewrite Hd in He.
Qed.

(** Over a whole lifespan [shutdown] never sends an entry of the local queue:
    entries are there only in local mode, nothing but a start ends local mode,
    and [shutdown] looks at the queue only outside of it.  What Redis did not
    take before the publisher went local is lost with the process. *)
Theorem local_queue_is_never_sent (w : world) :
  in_lifespan w → w_drain w = None ∧ (local_queue (w_pub w) ≠ [] → (shutdown (w_pub w)).2 = None ∧ local_queue (shutdown (w_pub w)).1 = local_queue (w_pub w)).
Proof.
  intros (o&evs&Hevs&Hrun).
  assert (local_only (set_pub (startup o new_publisher) fresh_world)) as Hw by (split_and!; [done..|by destruct o]).
  revert Hw Hrun. generalize (set_pub (startup o new_publisher) fresh_world) as w0.
  induction Hevs as [|ev evs Hev Hevs IH]; intros w0 Hw; simpl.
  - intros [= <-]. destruct Hw as (Hd&_&Hq). split; [done|]. intros Hl%Hq. unfold shutdown. rewrite Hl, andb_false_r. done.
  - destruct (exec ev w0) as [w1|] eqn:He; [|done]. apply IH. by apply (exec_local ev w0 w1).
Qed.

(** Redis takes the entry and the answer is lost: the retry sends it again, and
    the stream has one tick twice. *)
Example lost_answer_repeats_tick :
  w_stream <$> run [Startup Connected; publish_btc "m"; Apply 0; Error 0; Wake 0; Apply 0; Return 0] fresh_world = Some [btc "m"; btc "m"].
Proof. reflexivity. Qed.
