(* ===== verification/HttpApi.v ===== *)
(** * The HTTP endpoints ([api/routes_v1.py], [api/arrow_ipc.py])

    The request handlers over the readers and the scans: guards of the
    parameters, the status of every outcome, the body of a 200.  Strings are
    their UTF-8 bytes.  Arrow is third-party: [is_ipc] tells whether
    [open_stream] accepts some bytes, [empty_stream] is the stream of an empty
    table, and [to_stream] the stream of a list of rows, or what it raises.
    FastAPI's own parsing of a request is not modelled. *)
From S2P Require Import Prelude PyDict PyDecimal NasKey PyTime Ndjson Dedup OrderbookReplay ObjectStore NasUploader DualWriter Invariants ReaderCache DrMode Policy Readers.
From Stdlib Require Import Ascii.
Open Scope py_scope.
Open Scope string_scope.
Open Scope list_scope.
Open Scope Z_scope.

(** ** Patterns *)

(** [re.match(r"^[...]+$", s)] for a class of ASCII characters without the
    newline; the dollar also matches before a final newline. *)
Fixpoint class_rest (ok : ascii → bool) (s : string) : bool :=
  match s with
  | EmptyString => true
  | String a EmptyString => ok a || Ascii.eqb a OrderbookReplay.newline
  | String a s' => ok a && class_rest ok s'
  end.
Definition class_match (ok : ascii → bool) (s : string) : bool :=
  match s with EmptyString => false | String a s' => ok a && class_rest ok s' end.

Definition in_range (lo hi : Z) (a : ascii) : bool := (lo <=? ord a) && (ord a <=? hi).
Definition upper (a : ascii) : bool := in_range 65 90 a.
Definition lower (a : ascii) : bool := in_range 97 122 a.
Definition digit (a : ascii) : bool := in_range 48 57 a.
Definition one_of (cs : list ascii) (a : ascii) : bool := existsb (Ascii.eqb a) cs.

(** [[A-Za-z0-9_.=\-/]], [[A-Z0-9_\-]], [[a-z0-9_\-]], [[A-Z0-9_/\-]] *)
Definition path_char (a : ascii) : bool := upper a || lower a || digit a || one_of ["_"; "."; "="; "-"; "/"]%char a.
Definition l1_symbol_char (a : ascii) : bool := upper a || digit a || one_of ["_"; "-"]%char a.
Definition exchange_char (a : ascii) : bool := lower a || digit a || one_of ["_"; "-"]%char a.
Definition symbol_char (a : ascii) : bool := upper a || digit a || one_of ["_"; "/"; "-"]%char a.

(** [\d]: the zeros of the decimal digits of Unicode 14, each followed by the
    other nine *)
Definition nd_zeros : list Z :=
  [48; 1632; 1776; 1984; 2406; 2534; 2662; 2790; 2918; 3046; 3174; 3302; 3430; 3558; 3664; 3792; 3872; 4160; 4240; 6112;
   6160; 6470; 6608; 6784; 6800; 6992; 7088; 7232; 7248; 42528; 43216; 43264; 43472; 43504; 43600; 44016; 65296; 66720;
   68912; 69734; 69872; 69942; 70096; 70384; 70736; 70864; 71248; 71360; 71472; 71904; 72016; 72784; 73040; 73120; 92768;
   92864; 93008; 120782; 120792; 120802; 120812; 120822; 123200; 123632; 125264; 130032].
Definition is_nd (c : Z) : bool := existsb (λ z, (z <=? c) && (c <? z + 10)) nd_zeros.

(** The first code point of UTF-8 bytes, and the rest *)
Definition code_point (s : string) : option (Z * string) :=
  match s with
  | EmptyString => None
  | String c s1 =>
      if ord c <? 128 then Some (ord c, s1) else
      match s1 with
      | EmptyString => None
      | String c1 s2 =>
          if ord c <? 224 then Some (ord c mod 32 * 64 + low6 c1, s2) else
          match s2 with
          | EmptyString => None
          | String c2 s3 =>
              if ord c <? 240 then Some (ord c mod 16 * 4096 + low6 c1 * 64 + low6 c2, s3) else
              match s3 with
              | EmptyString => None
              | String c3 s4 => Some (ord c mod 8 * 262144 + low6 c1 * 4096 + low6 c2 * 64 + low6 c3, s4)
              end
          end
      end
  end.
(** [\d{k}] *)
Fixpoint digits (k : nat) (s : string) : option string :=
  match k with
  | O => Some s
  | S k => match code_point s with Some (c, s') => if is_nd c then digits k s' else None | None => None end
  end.
Definition then_char (c : ascii) (s : option string) : option string := match s with Some s => char c s | None => None end.
Definition then_digits (k : nat) (s : option string) : option string := match s with Some s => digits k s | None => None end.
(** [^\d{4}-\d{2}-\d{2}$] *)
Definition date_match (s : string) : bool :=
  match then_digits 2 (then_char "-" (then_digits 2 (then_char "-" (digits 4 s)))) with
  | Some EmptyString => true
  | Some (String a EmptyString) => Ascii.eqb a OrderbookReplay.newline
  | _ => false
  end.

(** The guard of the partition path *)
Definition partition_path_ok (p : string) : bool :=
  negb (has_dotdot p) && negb (String.prefix "/" p) && class_match path_char p.

(** ** Responses *)

(** A 200 with its body, or an [HTTPException] *)
Inductive response := Body (content : bytes) | HTTPException (status_code : Z).
#[export] Instance response_eq_dec : EqDecision response.
Proof. solve_decision. Defined.

Section handlers.
Context {S : Type} `{S3 S} (cfg : reader_config).
Context (str_exc : exn → string) (get_etag : bytes → string) (read_fault : option exn) (clock : nat → Z).
Context (is_ipc : bytes → bool) (empty_stream : bytes).

Definition read_result_to_ipc_bytes (data : bytes) : res bytes :=
  if String.eqb data "" then Ok empty_stream
  else if is_ipc data then Ok data else Raise ValueError.

(** What both handlers make of a reader's answer *)
Definition respond (status : read_status) (data : bytes) : response :=
  match status with
  | not_found => HTTPException 404
  | nas_unreachable => HTTPException 503
  | _ => match read_result_to_ipc_bytes data with Ok ipc_bytes => Body ipc_bytes | Raise _ => HTTPException 500 end
  end.

(** [initialized]: was the reader built? *)
Definition get_historical_candles (initialized : bool) (partition_path : string) (s : readers (S := S)) : readers (S := S) * response :=
  if negb (partition_path_ok partition_path) then (s, HTTPException 422)
  else if negb initialized then (s, HTTPException 503)
  else match tier_read cfg str_exc get_etag read_fault clock partition_path s with
       | (s', Raise _) => (s', HTTPException 503)
       | (s', Ok result) => (s', respond (tr_status result) (tr_data result))
       end.

Definition get_historical_candles_l1 (initialized : bool) (symbol date : string) (hour : Z) (s : readers (S := S)) : readers (S := S) * response :=
  if negb (class_match l1_symbol_char symbol) then (s, HTTPException 422)
  else if negb (date_match date) then (s, HTTPException 422)
  else if negb ((0 <=? hour) && (hour <=? 23)) then (s, HTTPException 422)
  else if negb initialized then (s, HTTPException 503)
  else match l1_read cfg str_exc get_etag clock symbol date hour s with
       | (s', Raise _) => (s', HTTPException 503)
       | (s', Ok result) => (s', respond (lr_status result) (lr_data result))
       end.
End handlers.

(** ** Order books and ticks *)

Section scans.
Context {A : Type} (scan_window : string → string → Z → Z → res (list A)) (to_stream : list A → res bytes).

(** [datetime.fromisoformat(ts.replace("Z", "+00:00"))], UTC where it has no
    zone *)
Definition parse_ts (ts : string) : res Z := fromisoformat (replace_Z ts).

(** The body both endpoints share; [root] is the outcome of
    [resolve_data_root]. *)
Definition get_historical_orderbook (exchange symbol date start_ts end_ts : string) (root : res unit) : response :=
  if negb (class_match exchange_char exchange) then HTTPException 422
  else if negb (class_match symbol_char symbol) then HTTPException 422
  else if negb (date_match date) then HTTPException 422
  else
  match parse_ts start_ts, parse_ts end_ts with
  | Raise _, _ | Ok _, Raise _ => HTTPException 422
  | Ok start_dt, Ok end_dt =>
      let delta := end_dt - start_dt in
      if delta <=? 0 then HTTPException 422
      else if 86400 * 1000000 <? delta then HTTPException 422
      else
      match root with
      | Raise _ => HTTPException 503
      | Ok _ =>
          match scan_window exchange symbol start_dt end_dt with
          | Raise _ => HTTPException 503
          | Ok rows => match to_stream rows with Ok ipc_bytes => Body ipc_bytes | Raise _ => HTTPException 500 end
          end
      end
  end.
End scans.

(** The two endpoints: the parsed times are aware. *)
Definition get_historical_orderbook_ticks (partition : Z → list (part_row Dedup.tick)) (monotonic : nat → Z) (now : Z) (to_stream : list Dedup.tick → res bytes) :=
  get_historical_orderbook (λ exchange symbol start stop, scan_ticks partition monotonic now exchange symbol true start stop None) to_stream.
Definition get_historical_orderbook_snapshots (partition : Z → list (part_row ob_event)) (monotonic : nat → Z) (now : Z) (to_stream : list ob_event → res bytes) :=
  get_historical_orderbook (λ exchange symbol start stop, scan_orderbook_events partition monotonic now exchange symbol true start stop None) to_stream.

(** ** The guards *)

(** No component of an accepted path is a step to the parent. *)
Lemma dotdot_component s : ".." ∈ split_slash s → has_dotdot s = true.
Proof.
  assert (∀ s c cs, split_slash s = c :: cs → (".." ∈ cs → has_dotdot s = true) ∧ String.prefix c s = true) as Hall.
  { clear s. induction s as [|a s IH]; intros c cs Hs.
    - injection Hs as <- <-. split; [by intros ?%not_elem_of_nil|done].
    - simpl in Hs. destruct (Ascii.eqb a slash) eqn:Ha.
      + injection Hs as <- <-. split; [|done]. intros Hin. cbn [has_dotdot]. rewrite orb_true_iff. right.
        destruct (split_slash s) as [|c cs] eqn:Hsp; [by apply not_elem_of_nil in Hin|].
        destruct (IH c cs eq_refl) as [Hcs Hpre]. apply elem_of_cons in Hin as [<-|Hin]; [|auto].
        destruct s as [|b s]; [done|]. cbn [has_dotdot]. by rewrite Hpre.
      + destruct (split_slash s) as [|c' cs'] eqn:Hsp; [by destruct s as [|b s]; simpl in Hsp; [|destruct (Ascii.eqb b slash); [|destruct (split_slash s)]]|].
        injection Hs as <- <-. destruct (IH c' cs' eq_refl) as [Hcs Hpre]. split.
        * intros Hin. cbn [has_dotdot]. rewrite (Hcs Hin). apply orb_true_r.
        * cbn [String.prefix]. destruct (ascii_dec a a); [done|congruence]. }
  intros Hin. destruct (split_slash s) as [|c cs] eqn:Hs; [by apply not_elem_of_nil in Hin|].
  destruct (Hall s c cs Hs) as [Hcs Hpre]. apply elem_of_cons in Hin as [<-|Hin]; [|auto].
  destruct s as [|b s]; [done|]. cbn [has_dotdot]. by rewrite Hpre.
Qed.

Lemma accepted_path_stays_inside p : partition_path_ok p = true → ".." ∉ split_slash p ∧ String.prefix "/" p = false.
Proof.
  unfold partition_path_ok. rewrite !andb_true_iff, !negb_true_iff. intros ((Hd&Hs)&_). split; [|done].
  intros Hin%dotdot_component. congruence.
Qed.

(** ** The candle endpoint *)

Definition empty_or_same (is_ipc : bytes → bool) (empty_stream data b : bytes) : Prop :=
  data = "" ∧ b = empty_stream ∨ data ≠ "" ∧ b = data ∧ is_ipc b = true.

Lemma respond_spec is_ipc empty_stream st data :
  match respond is_ipc empty_stream st data with
  | Body b => st ≠ not_found ∧ st ≠ nas_unreachable ∧ empty_or_same is_ipc empty_stream data b
  | HTTPException n =>
      n = 404 ∧ st = not_found ∨ n = 503 ∧ st = nas_unreachable ∨
      n = 500 ∧ st ≠ not_found ∧ st ≠ nas_unreachable ∧ data ≠ "" ∧ is_ipc data = false
  end.
Proof.
  assert (match read_result_to_ipc_bytes is_ipc empty_stream data with
          | Ok b => empty_or_same is_ipc empty_stream data b
          | Raise _ => data ≠ "" ∧ is_ipc data = false end) as Hread.
  { unfold read_result_to_ipc_bytes. destruct (String.eqb_spec data ""); [by left|].
    destruct (is_ipc data) eqn:Hi; [right; by split_and!|done]. }
  unfold respond. destruct st; try (by destruct (read_result_to_ipc_bytes _ _ data); naive_solver); auto.
Qed.

(** The characters of a partition path, and the paths the endpoint is for:
    relative, without two dots in a row *)
Definition path_chars : string := "ABCDEFGHIJKLMNOPQRSTUVWXYZabcdefghijklmnopqrstuvwxyz0123456789_=/.-".
Definition plain_path (p : string) : Prop :=
  p ≠ "" ∧ (∀ u v, p ≠ u +:+ ".." +:+ v) ∧ (∀ v, p ≠ "/" +:+ v) ∧ ∀ a, a ∈ String.list_ascii_of_string p → a ∈ String.list_ascii_of_string path_chars.

Lemma respond_status is_ipc empty_stream st data :
  (respond is_ipc empty_stream st data = HTTPException 503 ↔ st = nas_unreachable) ∧
  (respond is_ipc empty_stream st data = HTTPException 404 ↔ st = not_found).
Proof. unfold respond. destruct st; try (destruct (read_result_to_ipc_bytes _ _ _)); split; split; done. Qed.

Lemma has_dotdot_iff p : has_dotdot p = true ↔ ∃ u v, p = u +:+ ".." +:+ v.
Proof.
  split.
  - induction p as [|a p IH]; [done|]. cbn [has_dotdot]. intros [Hpre|Hd]%orb_true_iff.
    + apply prefix_split in Hpre as [t Ht]. exists "", t. exact Ht.
    + destruct (IH Hd) as (u&v&->). by exists (String a u), v.
  - intros (u&v&->). induction u as [|a u IH].
    + change (String.prefix ".." (".." +:+ v) || has_dotdot (String "." v) = true). by rewrite prefix_app.
    + change (String.prefix ".." (String a (u +:+ ".." +:+ v)) || has_dotdot (u +:+ ".." +:+ v) = true). by rewrite IH, orb_true_r.
Qed.
Lemma refused_path p : (∃ u v, p = u +:+ ".." +:+ v) ∨ (∃ v, p = "/" +:+ v) → partition_path_ok p = false.
Proof.
  unfold partition_path_ok. intros [Hd%has_dotdot_iff|[v ->]]; [by rewrite Hd|]. rewrite prefix_app. cbn. by rewrite andb_false_r.
Qed.
Lemma plain_path_ok p : plain_path p → partition_path_ok p = true.
Proof.
  intros (Hne&Hd&Hs&Hc). unfold partition_path_ok. apply andb_true_iff. split; [apply andb_true_iff; split|].
  - apply negb_true_iff, not_true_iff_false. intros (u&v&Hp)%has_dotdot_iff. by apply (Hd u v).
  - apply negb_true_iff, not_true_iff_false. intros [v Hp]%prefix_split. by apply (Hs v).
  - assert (forallb path_char (String.list_ascii_of_string path_chars) = true) as Hall by (vm_compute; reflexivity).
    rewrite forallb_forall in Hall. assert (∀ a, a ∈ String.list_ascii_of_string p → path_char a = true) as Hok.
    { intros a Ha. by apply Hall, list_elem_of_In, Hc. }
    clear -Hne Hok. destruct p as [|a p]; [done|]. cbn [class_match]. rewrite (Hok a) by by left. cbn [andb].
    assert (∀ b, b ∈ String.list_ascii_of_string p → path_char b = true) as Hp by (intros b Hb; apply Hok; by right). clear -Hp.
    induction p as [|b p IH]; [done|]. cbn [class_rest]. rewrite (Hp b) by by left. rewrite IH by (intros c Hc; apply Hp; by right).
    by destruct p.
Qed.

(** C32.  A request for candles.  No object, queue row or file changes (the
    cache and the breaker of the readers may).  A path with two dots in a row or
    a leading slash is answered 422 before any reader is asked, and a plain path
    is not.  Of an accepted path, 503 is the answer exactly if there is no
    reader, the reader failed or it found the store unreachable, 404 exactly if
    the reader found no object; and a 200 carries, byte for byte, what the
    reader found for the path where that is an Arrow stream, and an empty stream
    where it is empty. *)
Theorem historical_candles_contract {S : Type} `{S3Laws S} (cfg : reader_config) (str_exc : exn → string) (get_etag : bytes → string)
    (read_fault : option exn) (clock : nat → Z) (is_ipc : bytes → bool) (empty_stream : bytes) (initialized : bool) (p : string)
    (s s' : readers (S := S)) (r : response) :
  get_historical_candles cfg str_exc get_etag read_fault clock is_ipc empty_stream initialized p s = (s', r) →
  let asked o := initialized = true ∧ tier_read cfg str_exc get_etag read_fault clock p s = (s', o) in
  let now := clock (rd_ticks s + 2)%nat in
  same_storage (rd_world s) (rd_world s') ∧
  ((∃ u v, p = u +:+ ".." +:+ v) ∨ (∃ v, p = "/" +:+ v) → r = HTTPException 422 ∧ s' = s) ∧
  (plain_path p → r ≠ HTTPException 422) ∧
  (r ≠ HTTPException 422 →
    (r = HTTPException 503 ↔ initialized = false ∨ (∃ e, asked (Raise e)) ∨ ∃ res, asked (Ok res) ∧ tr_status res = nas_unreachable) ∧
    (r = HTTPException 404 ↔ ∃ res, asked (Ok res) ∧ tr_status res = not_found)) ∧
  ∀ b, r = Body b → ∃ res, asked (Ok res) ∧ tier_post cfg (rd_world s) (rd_cache s) now p res ∧
    tr_status res ∈ [hit_cache; hit_nas; local_fallback] ∧
    (tr_data res = "" ∧ b = empty_stream ∨ tr_data res ≠ "" ∧ b = tr_data res ∧ is_ipc b = true).
Proof.
  intros Hget asked now. assert ((r = HTTPException 422 ↔ partition_path_ok p = false) ∧
    if partition_path_ok p && initialized
    then ∃ o, tier_read cfg str_exc get_etag read_fault clock p s = (s', o) ∧
           r = match o with Ok res => respond is_ipc empty_stream (tr_status res) (tr_data res) | Raise _ => HTTPException 503 end
    else s' = s ∧ r = HTTPException (if partition_path_ok p then 503 else 422)) as [H422 Hcase].
  { unfold get_historical_candles in Hget. destruct (partition_path_ok p); cbn [negb andb] in *; [|by injection Hget as <- <-].
    destruct initialized; cbn [negb] in *; [|by injection Hget as <- <-].
    destruct (tier_read _ _ _ _ _ p s) as [s1 o] eqn:Hr. destruct o as [res|e]; injection Hget as <- <-; [|split; [done|by eexists]].
    split; [|by eexists]. pose proof (respond_spec is_ipc empty_stream (tr_status res) (tr_data res)) as Hresp.
    split; [|done]. intros Heq. rewrite Heq in Hresp. naive_solver. }
  clear Hget. split.
  { destruct (partition_path_ok p && initialized); [|by destruct Hcase as [-> _]; apply same_storage_refl].
    destruct Hcase as (o&Ho&_). by apply tier_read_inv in Ho as [? _]. }
  split; [intros Hbad; apply refused_path in Hbad; rewrite Hbad in Hcase; cbn in Hcase; tauto|].
  split; [intros Hplain%plain_path_ok; rewrite H422, Hplain; done|].
  destruct (partition_path_ok p) eqn:Hp; cbn [andb] in Hcase; [|destruct Hcase as [-> ->]; split; [done|by intros b [=]]].
  destruct initialized; cbn iota in Hcase.
  2:{ destruct Hcase as [-> ->]. split; [|by intros b [=]]. intros _. split; [split; [by left|done]|]. split; [by intros [=]|by intros (?&[[=] _]&_)]. }
  destruct Hcase as (o&Ho&Hr). split.
  - intros _. destruct o as [res|e]; subst r.
    + destruct (respond_status is_ipc empty_stream (tr_status res) (tr_data res)) as [-> ->].
      assert (∀ o, asked o → o = Ok res) as Hasked by (intros o [_ Ho']; congruence).
      split; split.
      * intros Hst. right. right. by exists res.
      * intros [[=]|[(e&[=]%Hasked)|(res'&[= ->]%Hasked&Hst)]]. done.
      * intros Hst. by exists res.
      * by intros (res'&[= ->]%Hasked&Hst).
    + split; [split; [intros _; right; left; by exists e|done]|]. split; [by intros [=]|]. intros (res'&[_ He]&_). congruence.
  - intros b ->. destruct o as [res|e]; [|done]. exists res. split; [done|].
    pose proof (respond_spec is_ipc empty_stream (tr_status res) (tr_data res)) as Hresp. rewrite <- Hr in Hresp. destruct Hresp as (H1&H2&Hb).
    apply tier_read_inv in Ho as [_ Hpost]. specialize (Hpost res eq_refl). split; [exact Hpost|]. split; [|exact Hb].
    unfold tier_post in Hpost. destruct (tr_status res); set_solver.
Qed.

(** *** A request *)

(** A stream starts with the continuation marker, a Parquet file does not. *)
Definition marker : string := let c := chr 255 in String c (String c (String c (String c ""))).
Definition starts_as_ipc (data : bytes) : bool := String.prefix marker data.
Definition request (p : string) (objs : gmap string object) : readers (S := mem_s3) * response :=
  get_historical_candles example_readers_cfg missing_text (λ b, b) None (λ n, Z.of_nat n * 1000) starts_as_ipc marker true p (example_readers objs []).

Lemma historical_candles_contract_witness :
  let objs := <[l1_key := Object (marker +:+ "rows") None]> ∅ in
  (request (path_of "upbit") objs).2 = Body (marker +:+ "rows") ∧
  ∃ res, tr_status res ∈ [hit_cache; hit_nas; local_fallback] ∧ tr_data res = marker +:+ "rows".
Proof.
  intros objs. assert ((request (path_of "upbit") objs).2 = Body (marker +:+ "rows")) as Hr by (vm_compute; reflexivity).
  split; [exact Hr|].
  destruct (request (path_of "upbit") objs) as [s' r] eqn:Hreq. cbn [snd] in Hr. subst r. unfold request in Hreq.
  destruct (historical_candles_contract example_readers_cfg missing_text (λ b, b) None (λ n, Z.of_nat n * 1000)
    starts_as_ipc marker true (path_of "upbit") (example_readers objs []) s' _ Hreq) as (_&_&_&_&Hbody).
  destruct (Hbody _ eq_refl) as (res&_&_&Hst&Hdata). exists res. split; [exact Hst|].
  destruct Hdata as [[_ H]|(_&H&_)]; [vm_compute in H; discriminate H|symmetry; exact H].
Defined.

(** *** What the guards and the readers let through *)

(** The readers return the bytes of an object; the compactor's objects are
    Parquet files, and the endpoint answers 500 to each of them. *)
Lemma parquet_objects_are_refused {S : Type} `{S3 S} cfg str_exc get_etag read_fault clock is_ipc empty_stream p (s s' : readers (S := S)) res :
  partition_path_ok p = true → tier_read cfg str_exc get_etag read_fault clock p s = (s', Ok res) →
  tr_status res = hit_nas → tr_data res ≠ "" → is_ipc (tr_data res) = false →
  get_historical_candles cfg str_exc get_etag read_fault clock is_ipc empty_stream true p s = (s', HTTPException 500).
Proof.
  intros Hp Hr Hst Hd Hi. unfold get_historical_candles. rewrite Hp. simpl. rewrite Hr, Hst. unfold respond, read_result_to_ipc_bytes.
  destruct (String.eqb_spec (tr_data res) ""); [done|]. by rewrite Hi.
Qed.
Example parquet_request : (request (path_of "upbit") (<[l1_key := Object "PAR1" None]> ∅)).2 = HTTPException 500.
Proof. vm_compute. reflexivity. Qed.

(** One well-formed request without a tier puts the shared breaker into
    [UNKNOWN_TIER]; every request after it fails until an operator acts. *)
Definition two_requests (p q : string) : response * response :=
  let handler p s := get_historical_candles example_readers_cfg missing_text (λ b : bytes, b) None (λ n, Z.of_nat n * 1000) starts_as_ipc marker true p s in
  let objs := <[l1_key := Object (marker +:+ "rows") None]> ∅ in
  let '(s1, r1) := handler p (example_readers objs []) in (r1, (handler q s1).2).
Example one_request_stops_the_service :
  two_requests (path_of "upbit") (path_of "upbit") = (Body (marker +:+ "rows"), Body (marker +:+ "rows")) ∧
  two_requests "x" (path_of "upbit") = (HTTPException 503, HTTPException 503).
Proof. split; vm_compute; reflexivity. Qed.

(** ** The order-book endpoint *)

(** What the handler checks before it scans *)
Definition window_of (exchange symbol date start_ts end_ts : string) : option (Z * Z) :=
  if class_match exchange_char exchange && class_match symbol_char symbol && date_match date then
    match parse_ts start_ts, parse_ts end_ts with
    | Ok start, Ok stop => if (0 <? stop - start) && (stop - start <=? 86400 * 1000000) then Some (start, stop) else None
    | _, _ => None
    end
  else None.

Lemma orderbook_response {A} (scan_window : string → string → Z → Z → res (list A)) to_stream exchange symbol date start_ts end_ts root :
  get_historical_orderbook scan_window to_stream exchange symbol date start_ts end_ts root =
  match window_of exchange symbol date start_ts end_ts with
  | None => HTTPException 422
  | Some (start, stop) =>
      match root with
      | Raise _ => HTTPException 503
      | Ok _ => match scan_window exchange symbol start stop with
                | Raise _ => HTTPException 503
                | Ok rows => match to_stream rows with Ok b => Body b | Raise _ => HTTPException 500 end
                end
      end
  end.
Proof.
  unfold get_historical_orderbook, window_of. destruct (class_match exchange_char exchange); [|done].
  destruct (class_match symbol_char symbol); [|done]. destruct (date_match date); [|done]. simpl.
  destruct (parse_ts start_ts) as [start|]; [|done]. destruct (parse_ts end_ts) as [stop|]; [|done].
  destruct (Z.leb_spec (stop - start) 0), (Z.ltb_spec 0 (stop - start)); try lia; [done|]. cbn [andb].
  destruct (Z.ltb_spec (86400 * 1000000) (stop - start)), (Z.leb_spec (stop - start) (86400 * 1000000)); try lia; done.
Qed.

(** 422 is the answer exactly to a malformed name, date or time, or to a
    window that is empty or longer than a day.  A 200 carries the stream of the
    stored events of the window: only such events, one for each of their
    logical keys, in the order of their times. *)
Theorem snapshots_endpoint_contract (partition : Z → list (part_row ob_event)) (monotonic : nat → Z) (now : Z)
    (to_stream : list ob_event → res bytes) (exchange symbol date start_ts end_ts : string) (root : res unit) (r : response) :
  partition_ok partition →
  get_historical_orderbook_snapshots partition monotonic now to_stream exchange symbol date start_ts end_ts root = r →
  (r = HTTPException 422 ↔ window_of exchange symbol date start_ts end_ts = None) ∧
  match r with
  | HTTPException n => n ∈ [422; 503; 500]
  | Body b => ∃ start stop events, window_of exchange symbol date start_ts end_ts = Some (start, stop) ∧
      0 < stop - start <= 86400 * 1000000 ∧ to_stream events = Ok b ∧
      (∀ e, e ∈ events → ∃ d row, row ∈ partition d ∧ in_window start stop None row = true ∧ e = pr_data row) ∧
      (∀ row, row ∈ partition (day_of (pr_ts row)) → in_window start stop None row = true →
         orderbook_logical_key (pr_data row) ∈ orderbook_logical_key <$> events) ∧
      StronglySorted (λ a b, o_ts_utc a <= o_ts_utc b) events
  end.
Proof.
  intros Hp. unfold get_historical_orderbook_snapshots. rewrite orderbook_response.
  destruct (window_of _ _ _ _ _) as [[start stop]|] eqn:Hw; [|intros <-; split; [done|set_solver]].
  assert (0 < stop - start <= 86400 * 1000000) as Hlen.
  { unfold window_of in Hw. destruct (_ && _ && _); [|done]. destruct (parse_ts start_ts); [|done]. destruct (parse_ts end_ts); [|done].
    destruct (_ && _) eqn:Hb; [|done]. simplify_eq. py_bool. lia. }
  destruct root; [|intros <-; split; [done|set_solver]].
  destruct (scan_orderbook_events _ _ _ _ _ _ _ _ _) as [events|] eqn:Hs; [|intros <-; split; [done|set_solver]].
  apply scan_orderbook_spec in Hs as (H1&H2&H3); [|done].
  destruct (to_stream events) as [b|] eqn:Hb; intros <-; (split; [done|]); [|set_solver].
  exists start, stop, events. done.
Qed.

(** The guard lets a slash and a final newline through; the first is then
    refused by the scan, which makes a 503 of it.  The date is checked and not
    used: the window alone selects the rows. *)
Example slash_passes_the_guard : class_match symbol_char "BTC/KRW" = true ∧ safe_path_component "BTC/KRW" = Raise ValueError.
Proof. split; reflexivity. Qed.
Lemma slash_makes_503 partition monotonic now to_stream exchange date start_ts end_ts start stop :
  window_of exchange "BTC/KRW" date start_ts end_ts = Some (start, stop) →
  get_historical_orderbook_ticks partition monotonic now to_stream exchange "BTC/KRW" date start_ts end_ts (Ok tt) = HTTPException 503.
Proof.
  intros Hw. unfold get_historical_orderbook_ticks. rewrite orderbook_response, Hw.
  assert (start < stop) as Hlt.
  { unfold window_of in Hw. destruct (_ && _ && _); [|done]. destruct (parse_ts start_ts); [|done]. destruct (parse_ts end_ts); [|done].
    destruct (_ && _) eqn:Hb; [|done]. simplify_eq. py_bool. lia. }
  unfold scan_ticks, scan. unfold date_range.
  assert (day_of start <= day_of stop) as Hd by (unfold day_of, day_us; apply Z.div_le_mono; lia).
  rewrite seqZ_cons by lia. simpl. unfold partition_dir. destruct (safe_path_component exchange); done.
Qed.
Lemma date_is_not_used {A} (scan_window : string → string → Z → Z → res (list A)) to_stream exchange symbol date date' start_ts end_ts root :
  date_match date = true → date_match date' = true →
  get_historical_orderbook scan_window to_stream exchange symbol date start_ts end_ts root =
  get_historical_orderbook scan_window to_stream exchange symbol date' start_ts end_ts root.
Proof. intros H1 H2. unfold get_historical_orderbook. by rewrite H1, H2. Qed.
Example newline_passes_the_guard :
  class_match path_char (String.append "tier=L1" Ndjson.newline) = true ∧ class_match l1_symbol_char (String.append "KRW-BTC" Ndjson.newline) = true.
Proof. split; reflexivity. Qed.

(** *** A window of one event *)

Definition one_event : ob_event := ObEvent "upbit" "KRW-BTC" (20000 * day_us + 5) (20000 * day_us + 6) "delta" "bid" 0 (Dec 100 0) (Dec 1 0) (Some "{}") None.
Definition one_event_partition (d : Z) : list (part_row ob_event) :=
  if d =? 20000 then [PartRow (20000 * day_us + 5) (20000 * day_us + 6) 0 0 one_event None] else [].
Definition count_stream (events : list ob_event) : res bytes := Ok (marker +:+ int_text (Z.of_nat (length events))).
Lemma one_event_partition_ok : partition_ok one_event_partition.
Proof. intros d r. unfold one_event_partition. destruct (d =? 20000); [|by intros ?%not_elem_of_nil]. by intros ->%list_elem_of_singleton. Qed.
Lemma one_event_elem d row : row ∈ one_event_partition d → pr_data row = one_event.
Proof. unfold one_event_partition. destruct (d =? 20000); [by intros ->%list_elem_of_singleton|by intros ?%not_elem_of_nil]. Qed.
Lemma snapshots_endpoint_contract_witness :
  ∃ events, get_historical_orderbook_snapshots one_event_partition (λ n, Z.of_nat n) 0 count_stream "upbit" "KRW-BTC" "2024-10-04"
      "2024-10-04T00:00:00Z" "2024-10-05T00:00:00+00:00" (Ok tt) = Body (marker +:+ "1") ∧ count_stream events = Ok (marker +:+ "1") ∧
    ∀ e, e ∈ events → o_symbol e = "KRW-BTC".
Proof.
  assert (get_historical_orderbook_snapshots one_event_partition (λ n, Z.of_nat n) 0 count_stream "upbit" "KRW-BTC" "2024-10-04"
      "2024-10-04T00:00:00Z" "2024-10-05T00:00:00+00:00" (Ok tt) = Body (marker +:+ "1")) as Hr by (vm_compute; reflexivity).
  destruct (snapshots_endpoint_contract one_event_partition (λ n, Z.of_nat n) 0 count_stream "upbit" "KRW-BTC" "2024-10-04"
      "2024-10-04T00:00:00Z" "2024-10-05T00:00:00+00:00" (Ok tt) (Body (marker +:+ "1")) one_event_partition_ok Hr)
    as (_&start&stop&events&_&_&Hb&Hin&_&_).
  exists events. split; [exact Hr|]. split; [exact Hb|]. intros e He. destruct (Hin e He) as (d&row&Hrow&_&->).
  apply one_event_elem in Hrow. rewrite Hrow. reflexivity.
Defined.
