(* ===== verification/PaperApi.v ===== *)
(** * Writing paper candles over HTTP ([api/routes_v1.py] reverse-write)

    The handler of [POST /v1/reverse-write/paper-candles] with the objects it
    builds, over [paper_storage.write_paper_candles] as it treats objects of any
    class: it reads attributes, and an object without one raises.  A validated
    request is the argument; its canonical digest, the match of a file name
    against a pattern and the order of a directory walk are parameters, as is
    the conversion of candles into an Arrow table once their attributes are
    read. *)
From S2P Require Import Prelude PyDict PyTime Ndjson NasKey Parquet BatchWriters CandleStore.
Open Scope py_scope.
Open Scope string_scope.
Open Scope list_scope.
Open Scope Z_scope.

(** ** Objects and their attributes *)

Inductive pyobj :=
| OStr (s : string)
| OFloat (text : string)       (* a float, by its [repr] *)
| ODatetime (us : Z)
| ONone
| OCallable (result : pyval)   (* a method, by what it returns *)
| OObject (attrs : list (string * pyobj)).

Definition AttributeError : exn := OtherException "AttributeError".
(** [o.name] of an attribute that only objects of the program's classes have *)
Definition getattr (o : pyobj) (name : string) : res pyobj :=
  match o with
  | OObject attrs => match dget attrs name with Some v => Ok v | None => Raise AttributeError end
  | _ => Raise AttributeError
  end.
(** The text of a string, which is what the callers here pass *)
Definition as_str (o : pyobj) : res string := match o with OStr s => Ok s | _ => Raise TypeError end.
Definition as_time (o : pyobj) : res Z := match o with ODatetime us => Ok us | _ => Raise AttributeError end.
(** [o != s] of a string [s] *)
Definition differs (o : pyobj) (s : string) : bool := match o with OStr t => negb (String.eqb t s) | _ => true end.

(** ** The request ([api/schemas.py]) *)

Record CandleSchema := MkCandleSchema {
  cs_exchange : string; cs_symbol : string; cs_timeframe : string; cs_ts_utc : Z;
  cs_open : string; cs_high : string; cs_low : string; cs_close : string; cs_volume : string }.
Record PaperLineageSchema := MkLineage { li_run_id : string; li_snapshot_id : string; li_strategy_id : string; li_created_at : string }.
Record PaperCandlesRequest := MkRequest {
  rq_candles : list CandleSchema; rq_run_id : string; rq_snapshot_id : string; rq_lineage : PaperLineageSchema }.
Inductive paper_response :=
| PaperCandlesResponse (written : bool) (written_path : path) (idempotent_skip : bool)
| PaperError (status_code : Z).

(** [_build_candles]: namespaces with the fields of the schema *)
Definition build_candle (c : CandleSchema) : pyobj :=
  OObject [("exchange", OStr (cs_exchange c)); ("symbol", OStr (cs_symbol c)); ("timeframe", OStr (cs_timeframe c));
           ("ts_utc", ODatetime (cs_ts_utc c)); ("open", OFloat (cs_open c)); ("high", OFloat (cs_high c));
           ("low", OFloat (cs_low c)); ("close", OFloat (cs_close c)); ("volume", OFloat (cs_volume c))].
Definition build_candles (candle_schemas : list CandleSchema) : list pyobj := build_candle <$> candle_schemas.
(** [lineage_stub] *)
Definition lineage_stub (l : PaperLineageSchema) : pyobj :=
  OObject [("run_id", OStr (li_run_id l)); ("snapshot_id", OStr (li_snapshot_id l));
           ("strategy_id", OStr (li_strategy_id l)); ("created_at", OStr (li_created_at l))].

(** ** The disk: Parquet files, and sidecars with their JSON, [None] where a
    file is none *)

Record paper_disk := PaperDisk { tables : disk; sidecars : gmap path (option pyval) }.

Section paper.
Context (canonical_sha256 : PaperCandlesRequest → string).
Context (fnmatch : string → string → bool) (walk : gmap path (option pyval) → list path).
Context (to_table : list pyobj → res bytes).

Definition sidecar_name (snapshot_id : string) : string := "_paper_lineage_" +:+ snapshot_id +:+ ".json".

(** The attributes a row is made of *)
Definition row_attributes (c : pyobj) : res unit :=
  let? _ := getattr c "ts_utc" in
  let? _ := getattr c "exchange" in
  let? _ := getattr c "symbol" in
  let? tf := getattr c "timeframe" in
  let? _ := getattr tf "value" in
  let? _ := getattr c "open" in
  let? _ := getattr c "high" in
  let? _ := getattr c "low" in
  let? _ := getattr c "close" in
  let? _ := getattr c "volume" in
  let? _ := getattr c "value" in Ok tt.

(** The partition of the first candle *)
Definition paper_partition (root : path) (head : pyobj) : res path :=
  let? exchange := getattr head "exchange" in
  let? symbol := getattr head "symbol" in
  let? timeframe := getattr head "timeframe" in
  let? ts_utc := getattr head "ts_utc" in
  let? exchange := as_str exchange in
  let? symbol := as_str symbol in
  let? timeframe := getattr timeframe "value" in
  let? timeframe := as_str timeframe in
  let? ts := as_time ts_utc in
  Ok (derive_partition_path root exchange symbol timeframe ts (Some Paper) None).

(** [write_paper_candles] of any objects: the table is written before the
    sidecar, which is opened, and so emptied, before [model_dump] is called. *)
Definition write_objects (candles : list pyobj) (root : path) (run_id snapshot_id : string) (lineage : pyobj) : proc paper_disk path := λ d,
  match candles with
  | [] => (d, Raise ValueError)
  | head :: _ =>
      match rbind (getattr lineage "run_id") (λ r, if differs r run_id then Raise ValueError else
            rbind (getattr lineage "snapshot_id") (λ s, if differs s snapshot_id then Raise ValueError else
            rbind (paper_partition root head) (λ partition,
            rbind (res_map row_attributes candles) (λ _, rbind (to_table candles) (λ table, Ok (partition, table)))))) with
      | Raise e => (d, Raise e)
      | Ok (partition, table) =>
          let t := <[partition ++ ["part-" +:+ snapshot_id +:+ ".parquet"] := table]> (tables d) in
          let sidecar := partition ++ [sidecar_name snapshot_id] in
          match getattr lineage "model_dump" with
          | Ok (OCallable v) => (PaperDisk t (<[sidecar := Some v]> (sidecars d)), Ok partition)
          | Ok _ => (PaperDisk t (<[sidecar := None]> (sidecars d)), Raise TypeError)
          | Raise e => (PaperDisk t (<[sidecar := None]> (sidecars d)), Raise e)
          end
      end
  end.

(** ** The handler *)

(** [_find_sidecar]: the first file of the walk whose name matches *)
Definition find_sidecar (root : path) (pattern : string) (d : paper_disk) : option path :=
  head (filter (λ p, match below root p with
                     | Some rest => match last rest with Some name => fnmatch pattern name | None => false end
                     | None => false
                     end = true) (walk (sidecars d))).
(** [_read_sidecar_sha256] *)
Definition read_sidecar_sha256 (p : path) (d : paper_disk) : option pyval :=
  match sidecars d !! p with
  | Some (Some (PDict content)) => match dget content "canonical_sha256" with Some PNone => None | v => v end
  | _ => None
  end.
(** [_persist_sidecar_sha256]; what is no dictionary does not take the key. *)
Definition persist_sidecar_sha256 (p : path) (sha256 : string) (d : paper_disk) : paper_disk :=
  match sidecars d !! p with
  | Some (Some (PDict content)) => PaperDisk (tables d) (<[p := Some (PDict (dset content "canonical_sha256" (PStr sha256)))]> (sidecars d))
  | Some (Some _) => d
  | _ => PaperDisk (tables d) (<[p := Some (PDict [("canonical_sha256", PStr sha256)])]> (sidecars d))
  end.

Definition is_sha (v : option pyval) (sha : string) : bool := match v with Some (PStr s) => String.eqb s sha | _ => false end.

(** [(stored_sha256 or "")[:8]] in the warning: does it raise? *)
Definition sliceable (v : option pyval) : bool :=
  match v with
  | None | Some PNone | Some (PStr _) | Some (PList _) | Some (PBool false) | Some (PDict []) => true
  | Some (PInt n) => n =? 0
  | Some (PDec d) => PyDecimal.coef d =? 0
  | _ => false
  end.

(** [post_reverse_write_paper_candles] *)
Definition post_paper_candles (root : path) (body : PaperCandlesRequest) (d : paper_disk) : paper_disk * paper_response :=
  let pattern := sidecar_name (rq_snapshot_id body) in
  let request_sha256 := canonical_sha256 body in
  match find_sidecar root pattern d with
  | Some existing =>
      if is_sha (read_sidecar_sha256 existing d) request_sha256
      then (d, PaperCandlesResponse false (removelast existing) true)
      else (d, PaperError (if sliceable (read_sidecar_sha256 existing d) then 409 else 500))
  | None =>
      match build_candles (rq_candles body) with
      | [] => (d, PaperError 422)
      | candles =>
          match write_objects candles root (rq_run_id body) (rq_snapshot_id body) (lineage_stub (rq_lineage body)) d with
          | (d, Raise _) => (d, PaperError 500)
          | (d, Ok written_path) =>
              let d := match find_sidecar root pattern d with
                       | Some p => persist_sidecar_sha256 p request_sha256 d
                       | None => d
                       end in
              (d, PaperCandlesResponse true written_path false)
          end
      end
  end.
End paper.

(** [post_reverse_write_backtest_artifact]: no client is connected, so the
    answer does not depend on the sentinel. *)
Definition idempotency_key (run_id : string) : string := "backtest-runs/" +:+ run_id +:+ "/.done".
Inductive BacktestArtifactResponse := MkBacktestResponse (synced idempotent_skip : bool).
Definition post_backtest_artifact (run_id : string) (artifact_bytes : bytes) : BacktestArtifactResponse := MkBacktestResponse false false.

(** ** What a request does *)

Lemma built_candle_has_no_timeframe root c : paper_partition root (build_candle c) = Raise AttributeError.
Proof. reflexivity. Qed.

(** The handler never writes anything: the candles it builds name their time
    frame by a string, which has no [value], so [write_paper_candles] raises
    before its first effect.  The answer is 500 to every request with candles
    whose snapshot id is new, and since no request leaves a sidecar with a
    digest, a repetition of it is no repetition to the handler either. *)
Theorem paper_post_never_writes canonical_sha256 fnmatch walk to_table (root : path) (body : PaperCandlesRequest) (d d' : paper_disk) (r : paper_response) :
  post_paper_candles canonical_sha256 fnmatch walk to_table root body d = (d', r) →
  d' = d ∧
  (find_sidecar fnmatch walk root (sidecar_name (rq_snapshot_id body)) d = None →
   r = PaperError (match rq_candles body with [] => 422 | _ => 500 end)).
Proof.
  unfold post_paper_candles. destruct (find_sidecar _ _ _ _ d) as [p|].
  - destruct (is_sha _ _); intros [= <- <-]; done.
  - destruct (rq_candles body) as [|c cs]; [by intros [= <- <-]|]. cbn [build_candles fmap list_fmap].
    assert (∀ lineage, ∃ e, write_objects to_table (build_candle c :: (build_candle <$> cs)) root (rq_run_id body) (rq_snapshot_id body) lineage d = (d, Raise e)) as Hw.
    { intros lineage. unfold write_objects. rewrite built_candle_has_no_timeframe.
      destruct (getattr lineage "run_id") as [x|e]; simpl; [|by exists e]. destruct (differs x _); [by exists ValueError|].
      destruct (getattr lineage "snapshot_id") as [y|e]; simpl; [|by exists e]. destruct (differs y _); [by exists ValueError|]. by exists AttributeError. }
    destruct (Hw (lineage_stub (rq_lineage body))) as [e He]. unfold build_candles. cbn [fmap list_fmap] in *. rewrite He. by intros [= <- <-].
Qed.

(** *** With objects of the intended classes *)

Definition good_candle : pyobj :=
  OObject [("exchange", OStr "bithumb"); ("symbol", OStr "KRW-BTC"); ("timeframe", OObject [("value", OStr "1m")]); ("ts_utc", ODatetime 0);
           ("open", OFloat "1.0"); ("high", OFloat "1.0"); ("low", OFloat "1.0"); ("close", OFloat "1.0"); ("volume", OFloat "1.0"); ("value", ONone)].
Definition good_lineage : pyobj := OObject [("run_id", OStr "r"); ("snapshot_id", OStr "s"); ("model_dump", OCallable (PDict []))].
Definition good_partition : path := derive_partition_path ["data"] "bithumb" "KRW-BTC" "1m" 0 (Some Paper) None.
Definition empty_paper_disk : paper_disk := PaperDisk ∅ ∅.
Definition write_with (lineage : pyobj) : paper_disk * res path :=
  write_objects (λ cs, Ok (int_text (Z.of_nat (length cs)))) [good_candle] ["data"] "r" "s" lineage empty_paper_disk.
Example full_objects_are_written :
  (write_with good_lineage).2 = Ok good_partition ∧
  tables (write_with good_lineage).1 !! (good_partition ++ ["part-s.parquet"]) = Some "1" ∧
  sidecars (write_with good_lineage).1 !! (good_partition ++ ["_paper_lineage_s.json"]) = Some (Some (PDict [])).
Proof. split_and!; vm_compute; reflexivity. Qed.

(** The handler's lineage would fail next: it has no [model_dump], and the
    failure leaves the table and an empty sidecar, on which every later request
    for the snapshot is a conflict. *)
Example stub_leaves_empty_sidecar :
  let r := write_with (lineage_stub (MkLineage "r" "s" "x" "now")) in
  r.2 = Raise AttributeError ∧ tables r.1 !! (good_partition ++ ["part-s.parquet"]) = Some "1" ∧
  sidecars r.1 !! (good_partition ++ ["_paper_lineage_s.json"]) = Some None ∧
  (post_paper_candles (λ _, "sha") String.eqb (λ m, (map_to_list m).*1) (λ _, Ok "") ["data"] (MkRequest [] "r" "s" (MkLineage "r" "s" "x" "now")) r.1).2 = PaperError 409.
Proof. split_and!; vm_compute; reflexivity. Qed.
