(* ===== verification/Heartbeat.v ===== *)
(** * Heartbeat, liveness probe and coverage statistics ([heartbeat.py],
    [health_server.py], [coverage_stats.py])

    A node writes its state to a file of its own every few seconds, by a
    temporary file and a rename; the container's probe answers from the same
    object; the statistics of the collector are written the same way.  Times
    are microseconds.  Of a file the model keeps the document it holds, or that
    it is not complete; which operation of the disk fails is an argument. *)
From S2P Require Import Prelude PyDict NasKey PyTime Wal Barrier.
Open Scope string_scope.
Open Scope list_scope.
Open Scope Z_scope.

(** ** The writer *)

Definition HEARTBEAT_SCHEMA_VERSION : string := "heartbeat.v1".
Definition _VALID_WS_STATES : list string := ["connected"; "reconnecting"; "disconnected"].

Record HeartbeatMetrics := MkMetrics {
  dup_skip_count : Z; quarantine_count : Z; ws_reconnect_count : Z; backfill_pending_seconds : Z }.
Record writer := Writer {
  hw_node_id : string; hw_version : string; hw_role : string; hw_started_at : Z; hw_collector_run_id : option string;
  hw_ws_state : string; hw_last_event_ts_per_tier : dict string string; hw_queue_depth : Z; hw_metrics : HeartbeatMetrics;
  hw_write_failure_count : Z; hw_last_heartbeat_ts : option Z }.
Definition new_writer (node_id version role : string) (started_at : Z) : writer :=
  Writer node_id version role started_at None "connected" [] 0 (MkMetrics 0 0 0 0) 0 None.

Definition set_ws (v : string) (w : writer) : writer :=
  Writer (hw_node_id w) (hw_version w) (hw_role w) (hw_started_at w) (hw_collector_run_id w) v (hw_last_event_ts_per_tier w)
    (hw_queue_depth w) (hw_metrics w) (hw_write_failure_count w) (hw_last_heartbeat_ts w).
(** The setter of [ws_state] *)
Definition ws_state_setter (value : string) (w : writer) : writer * res unit :=
  if bool_decide (value ∈ _VALID_WS_STATES) then (set_ws value w, Ok tt) else (w, Raise ValueError).
Definition set_collector_run_id (value : string) (w : writer) : writer :=
  Writer (hw_node_id w) (hw_version w) (hw_role w) (hw_started_at w) (Some value) (hw_ws_state w) (hw_last_event_ts_per_tier w)
    (hw_queue_depth w) (hw_metrics w) (hw_write_failure_count w) (hw_last_heartbeat_ts w).
Definition update_tier_event_ts (tier : string) (ts : Z) (w : writer) : writer :=
  Writer (hw_node_id w) (hw_version w) (hw_role w) (hw_started_at w) (hw_collector_run_id w) (hw_ws_state w)
    (dset (hw_last_event_ts_per_tier w) tier (iso_time ts)) (hw_queue_depth w) (hw_metrics w) (hw_write_failure_count w) (hw_last_heartbeat_ts w).
Definition set_metrics (m : HeartbeatMetrics) (w : writer) : writer :=
  Writer (hw_node_id w) (hw_version w) (hw_role w) (hw_started_at w) (hw_collector_run_id w) (hw_ws_state w) (hw_last_event_ts_per_tier w)
    (hw_queue_depth w) m (hw_write_failure_count w) (hw_last_heartbeat_ts w).
(** The counter sink, under its lock *)
Definition increment_dup_skip (n : Z) (w : writer) : writer :=
  let m := hw_metrics w in
  set_metrics (MkMetrics (dup_skip_count m + n) (quarantine_count m) (ws_reconnect_count m) (backfill_pending_seconds m)) w.
Definition increment_quarantine (n : Z) (w : writer) : writer :=
  let m := hw_metrics w in
  set_metrics (MkMetrics (dup_skip_count m) (quarantine_count m + n) (ws_reconnect_count m) (backfill_pending_seconds m)) w.

(** The document; [events_per_sec] is never set and stays 0. *)
Record payload := Payload {
  hb_schema_version : string; hb_node_id : string; hb_collector_run_id : string; hb_version : string; hb_role : string;
  hb_started_at : string; hb_now : string; hb_uptime_seconds : Z; hb_ws_state : string; hb_last_event_ts_per_tier : dict string string;
  hb_queue_depth : Z; hb_metrics : HeartbeatMetrics }.
(** [_payload]: [int()] of the seconds truncates towards zero. *)
Definition payload_of (now : Z) (w : writer) : payload :=
  Payload HEARTBEAT_SCHEMA_VERSION (hw_node_id w) (default "" (hw_collector_run_id w)) (hw_version w) (hw_role w)
    (iso_time (hw_started_at w)) (iso_time now) (Z.quot (now - hw_started_at w) 1000000) (hw_ws_state w) (hw_last_event_ts_per_tier w)
    (hw_queue_depth w) (hw_metrics w).

(** ** The disk *)

Section disk.
Context {D : Type}. (* the documents *)

Inductive content := Complete (doc : D) | Torn.
Record file := File { f_content : content; f_mtime : Z }.
Notation files := (gmap string file).

(** The operations of a write, in their order *)
Inductive fs_op := Mkdir | OpenTemp | Dump | Fsync | Replace | Unlink.

(** The temporary file and the target while a write succeeds: what a crash in
    between leaves *)
Definition write_trace (temp target : string) (doc : D) (mtime : Z) (fs : files) : list files :=
  [fs; <[temp := File Torn mtime]> fs; <[temp := File (Complete doc) mtime]> fs; <[target := File (Complete doc) mtime]> (delete temp fs)].

(** The [try] block: what it leaves, and whether it raised [OSError] *)
Definition write_try (fail : fs_op → bool) (temp target : string) (doc : D) (mtime : Z) (fs : files) : files * bool :=
  if fail OpenTemp then (fs, true)
  else if fail Dump then (<[temp := File Torn mtime]> fs, true)
  else if fail Fsync then (<[temp := File (Complete doc) mtime]> fs, true)
  else if fail Replace then (<[temp := File (Complete doc) mtime]> fs, true)
  else (<[target := File (Complete doc) mtime]> (delete temp fs), false).
(** [temp.unlink()], its error suppressed *)
Definition unlink_temp (fail : fs_op → bool) (temp : string) (fs : files) : files := if fail Unlink then fs else delete temp fs.
End disk.
Arguments content : clear implicits.
Arguments file : clear implicits.

(** ** [HeartbeatWriter] on its disk; all heartbeats of a root are in one
    directory, so a file is its name. *)

Record node := Node { n_writer : writer; n_files : gmap string (file payload) }.
Notation proc := (proc node).

Definition heartbeat_name (node_id : string) : string := "heartbeat-" +:+ node_id +:+ ".json".
Definition temp_name (node_id : string) : string := heartbeat_name node_id +:+ ".tmp".

Definition written (t : Z) (w : writer) : writer :=
  Writer (hw_node_id w) (hw_version w) (hw_role w) (hw_started_at w) (hw_collector_run_id w) (hw_ws_state w) (hw_last_event_ts_per_tier w)
    (hw_queue_depth w) (hw_metrics w) (hw_write_failure_count w) (Some t).
Definition failed (w : writer) : writer :=
  Writer (hw_node_id w) (hw_version w) (hw_role w) (hw_started_at w) (hw_collector_run_id w) (hw_ws_state w) (hw_last_event_ts_per_tier w)
    (hw_queue_depth w) (hw_metrics w) (hw_write_failure_count w + 1) (hw_last_heartbeat_ts w).

(** [write_once]: the clock when the document is made and after the rename; the
    directory is made before the [try]. *)
Definition write_once (fail : fs_op → bool) (now after : Z) : proc unit := λ s,
  let id := hw_node_id (n_writer s) in
  if fail Mkdir then (s, Raise OSErrorOther) else
  match write_try fail (temp_name id) (heartbeat_name id) (payload_of now (n_writer s)) now (n_files s) with
  | (fs, false) => (Node (written after (n_writer s)) fs, Ok tt)
  | (fs, true) => (Node (failed (n_writer s)) (unlink_temp fail (temp_name id) fs), Ok tt)
  end.

(** [glob("heartbeat-*.json")] *)
Definition is_heartbeat_name (name : string) : bool := String.prefix "heartbeat-" name && endswith ".json" name.
(** Older than the limit, and not the node's own *)
Definition is_stale (now ttl : Z) (own name : string) (f : file payload) : bool :=
  is_heartbeat_name name && negb (String.eqb name own) && (ttl <? now - f_mtime f).
(** [cleanup_stale_heartbeats] with a limit in microseconds; [undeletable] are
    the files whose [stat] or [unlink] raises. *)
Definition cleanup_stale_heartbeats (undeletable : string → bool) (now ttl : Z) (s : node) : node :=
  let own := heartbeat_name (hw_node_id (n_writer s)) in
  Node (n_writer s) (filter (λ e, (is_stale now ttl own e.1 e.2 && negb (undeletable e.1)) = false) (n_files s)).

(** [run]: the limit of [MCTRADER_HEARTBEAT_STALE_CLEANUP_SECONDS], which
    [float()] may refuse, then a write for each round until one raises; at the
    end the task is cancelled, which writes once more. *)
Record round := Round { r_fail : fs_op → bool; r_now : Z; r_after : Z }.
Fixpoint rounds (rs : list round) : proc unit :=
  match rs with
  | [] => pret tt
  | r :: rs => pbind (write_once (r_fail r) (r_now r) (r_after r)) (λ _, rounds rs)
  end.
Definition hb_run (ttl : res Z) (undeletable : string → bool) (now : Z) (rs : list round) (last : round) : proc unit := λ s,
  match ttl with
  | Raise e => (s, Raise e)
  | Ok ttl => pbind (rounds rs) (λ _, write_once (r_fail last) (r_now last) (r_after last)) (cleanup_stale_heartbeats undeletable now ttl s)
  end.

(** [read_heartbeat]: a torn file is no JSON; a foreign version only warns. *)
Definition read_heartbeat (fs : gmap string (file payload)) (node_id : string) : res payload :=
  match fs !! heartbeat_name node_id with
  | None => Raise FileNotFoundError
  | Some (File Torn _) => Raise ValueError
  | Some (File (Complete p) _) => Ok p
  end.

(** ** The probe ([health_server.py]) *)

Definition DEFAULT_PORT : Z := 8080.
Definition DEFAULT_MAX_STALE_SECONDS : Z := 60.
Definition HEALTHY_WS_STATES : list string := ["connected"; "reconnecting"].

(** Both [resolve_*]: unset, empty or no number is the default. *)
Definition resolve_env (raw : option string) (fallback : Z) : Z :=
  match raw with
  | None | Some "" => fallback
  | Some text => match int_of_text text with Ok n => n | Raise _ => fallback end
  end.
Definition resolve_max_stale_seconds (raw : option string) : Z := resolve_env raw DEFAULT_MAX_STALE_SECONDS.
Definition resolve_port (raw : option string) : Z := resolve_env raw DEFAULT_PORT.

(** The body of an answer; [stale_us] is shown in seconds with one decimal. *)
Inductive health_body :=
| Unavailable
| StaleHeartbeat (stale_us : option Z) (max_stale_seconds : Z)
| Probed (ok : bool) (ws_state node_id : string) (uptime_seconds : Z).

(** [_build_response] *)
Definition build_response (heartbeat_writer : option writer) (max_stale_seconds now : Z) : Z * health_body :=
  match heartbeat_writer with
  | None => (503, Unavailable)
  | Some w =>
      match hw_last_heartbeat_ts w with
      | None => (503, StaleHeartbeat None max_stale_seconds)
      | Some t =>
          if max_stale_seconds * 1000000 <? now - t then (503, StaleHeartbeat (Some (now - t)) max_stale_seconds)
          else
          let ok := bool_decide (hw_ws_state w ∈ HEALTHY_WS_STATES) in
          (if ok then 200 else 503, Probed ok (hw_ws_state w) (hw_node_id w) (Z.quot (now - hw_started_at w) 1000000))
      end
  end.
(** [do_GET]: the status; [/metrics] always answers. *)
Definition do_GET (url : string) (heartbeat_writer : option writer) (max_stale_seconds now : Z) : Z :=
  if String.eqb url "/health" then (build_response heartbeat_writer max_stale_seconds now).1
  else if String.eqb url "/metrics" then 200 else 404.

(** ** Coverage statistics ([coverage_stats.py]) *)

Record GapEvent := MkGapEvent {
  ge_symbol : string; ge_tier : string; ge_start_ts : string; ge_end_ts : string; ge_duration_us : Z; ge_cause : string;
  ge_node_id : option string; ge_ws_reconnect_count : Z }.
Record TierStats := MkTierStats {
  row_count_today : Z; file_count_today : Z; file_size_bytes_today : Z; ts_last_event_ts : option string; gap_events : list GapEvent }.
Definition new_stats : TierStats := MkTierStats 0 0 0 None [].
Notation all_stats := (dict string (dict string TierStats)).

(** [ts.strftime("%Y-%m-%dT%H:%M:%SZ")] of a UTC time *)
Definition strftime_Z (us : Z) : string :=
  let secs := us / 1000000 in let s := secs mod 86400 in
  isoformat (secs / 86400) +:+ "T" +:+ pad 2 (s / 3600) +:+ ":" +:+ pad 2 (s mod 3600 / 60) +:+ ":" +:+ pad 2 (s mod 60) +:+ "Z".

(** [_tier_stats], changed by [f] *)
Definition on_tier_stats (symbol tier : string) (f : TierStats → TierStats) (st : all_stats) : all_stats :=
  let tiers := default [] (dget st symbol) in
  dset st symbol (dset tiers tier (f (default new_stats (dget tiers tier)))).
Definition record_event (symbol tier : string) (ts file_size_delta : Z) : all_stats → all_stats :=
  on_tier_stats symbol tier (λ s, MkTierStats (row_count_today s + 1) (file_count_today s) (file_size_bytes_today s + file_size_delta)
    (Some (strftime_Z ts)) (gap_events s)).
Definition record_gap (gap : GapEvent) : all_stats → all_stats :=
  on_tier_stats (ge_symbol gap) (ge_tier gap) (λ s, MkTierStats (row_count_today s) (file_count_today s) (file_size_bytes_today s)
    (ts_last_event_ts s) (gap_events s ++ [gap])).

Record coverage_payload := CoveragePayload {
  cp_schema_version : string; cp_node_id : string; cp_collector_run_id : string; cp_generated_at : string; cp_stats : all_stats }.
(** [flush], as [write_once] but that nothing is counted *)
Definition flush (fail : fs_op → bool) (node_id collector_run_id : string) (now : Z) (st : all_stats)
    (fs : gmap string (file coverage_payload)) : gmap string (file coverage_payload) * res unit :=
  if fail Mkdir then (fs, Raise OSErrorOther) else
  let doc := CoveragePayload "coverage_stats.v1" node_id collector_run_id (strftime_Z now) st in
  match write_try fail "coverage-stats.json.tmp" "coverage-stats.json" doc now fs with
  | (fs, false) => (fs, Ok tt)
  | (fs, true) => (unlink_temp fail "coverage-stats.json.tmp" fs, Ok tt)
  end.

(** ** A write is all or nothing *)

Section atomic.
Context {D : Type}.
Implicit Types (fs : gmap string (file D)).

(** Wherever a write stops, the target holds the old document or the new one. *)
Lemma write_is_atomic temp target (doc : D) mtime fs fs' : temp ≠ target →
  fs' ∈ write_trace temp target doc mtime fs → fs' !! target = fs !! target ∨ fs' !! target = Some (File (Complete doc) mtime).
Proof.
  intros Hne. unfold write_trace. rewrite !elem_of_cons. intros [->|[->|[->|[->|[]%not_elem_of_nil]]]].
  - by left.
  - left. by rewrite lookup_insert_ne.
  - left. by rewrite lookup_insert_ne.
  - right. by rewrite lookup_insert_eq.
Qed.
Lemma write_try_spec fail temp target (doc : D) mtime fs : temp ≠ target →
  let '(fs', raised) := write_try fail temp target doc mtime fs in
  raised = fail OpenTemp || fail Dump || fail Fsync || fail Replace ∧
  fs' !! target = (if raised then fs !! target else Some (File (Complete doc) mtime)) ∧
  ∀ k, k ≠ temp → k ≠ target → fs' !! k = fs !! k.
Proof.
  intros Hne. unfold write_try. destruct (fail OpenTemp), (fail Dump), (fail Fsync), (fail Replace); simpl;
    (split; [done|]); rewrite ?lookup_insert_eq, ?lookup_insert_ne by done; (split; [done|]); intros k Hk Hk';
    rewrite ?lookup_insert_ne, ?lookup_delete_ne by done; done.
Qed.
Lemma unlink_other fail temp fs k : k ≠ temp → unlink_temp fail temp fs !! k = fs !! k.
Proof. intros Hk. unfold unlink_temp. destruct (fail Unlink); [done|]. by rewrite lookup_delete_ne. Qed.
End atomic.

Lemma temp_name_ne id : temp_name id ≠ heartbeat_name id.
Proof.
  unfold temp_name. intros Heq. apply (f_equal String.length) in Heq. rewrite string_app_length in Heq. simpl in Heq. lia.
Qed.

(** ** Histories *)

Inductive hb_event :=
| Beat (r : round)
| SetWs (value : string)
| SetRunId (value : string)
| TierTs (tier : string) (ts : Z)
| DupSkip (n : Z)
| Quarantine (n : Z).
Definition on_writer (f : writer → writer) (s : node) : node := Node (f (n_writer s)) (n_files s).
(** What an event leaves; a setter or a write that raises does so in its
    caller. *)
Definition hb_step (s : node) (e : hb_event) : node :=
  match e with
  | Beat r => (write_once (r_fail r) (r_now r) (r_after r) s).1
  | SetWs v => on_writer (λ w, (ws_state_setter v w).1) s
  | SetRunId v => on_writer (set_collector_run_id v) s
  | TierTs tier ts => on_writer (update_tier_event_ts tier ts) s
  | DupSkip n => on_writer (increment_dup_skip n) s
  | Quarantine n => on_writer (increment_quarantine n) s
  end.
Definition history (s : node) (h : list hb_event) : node := foldl hb_step s h.

Definition beat_ok (r : round) : bool :=
  negb (r_fail r Mkdir || r_fail r OpenTemp || r_fail r Dump || r_fail r Fsync || r_fail r Replace).
Definition good_beat (e : hb_event) : bool := match e with Beat r => beat_ok r | _ => false end.
(** The connection's state as it was last set to a valid one *)
Definition ws_of (h : list hb_event) : string :=
  foldl (λ v e, match e with SetWs v' => if bool_decide (v' ∈ _VALID_WS_STATES) then v' else v | _ => v end) "connected" h.
Definition dup_skips (h : list hb_event) : Z := foldl (λ n e, match e with DupSkip k => n + k | _ => n end) 0 h.
Definition quarantines (h : list hb_event) : Z := foldl (λ n e, match e with Quarantine k => n + k | _ => n end) 0 h.
Definition failed_beats (h : list hb_event) : Z :=
  foldl (λ n e, match e with Beat r => if negb (r_fail r Mkdir) && negb (beat_ok r) then n + 1 else n | _ => n end) 0 h.

(** What no event changes, and what a write does *)
Lemma beat_spec r s : let s' := hb_step s (Beat r) in let id := hw_node_id (n_writer s) in
  n_writer s' = (if beat_ok r then written (r_after r) (n_writer s) else if r_fail r Mkdir then n_writer s else failed (n_writer s)) ∧
  n_files s' !! heartbeat_name id =
    (if beat_ok r then Some (File (Complete (payload_of (r_now r) (n_writer s))) (r_now r)) else n_files s !! heartbeat_name id) ∧
  ∀ k, k ≠ temp_name id → k ≠ heartbeat_name id → n_files s' !! k = n_files s !! k.
Proof.
  simpl. unfold write_once, beat_ok. destruct (r_fail r Mkdir); [done|]. simpl.
  pose proof (write_try_spec (r_fail r) (temp_name (hw_node_id (n_writer s))) (heartbeat_name (hw_node_id (n_writer s)))
    (payload_of (r_now r) (n_writer s)) (r_now r) (n_files s) (temp_name_ne _)) as Hw.
  destruct (write_try _ _ _ _ _ _) as [fs raised]. destruct Hw as (<-&Htarget&Hrest). destruct raised; simpl.
  - split; [done|]. split; [rewrite unlink_other; [done|apply not_eq_sym, temp_name_ne]|]. intros k Hk Hk'. rewrite unlink_other by done. auto.
  - auto.
Qed.

Record follows (s0 : node) (h : list hb_event) (s : node) : Prop := {
  fo_id : hw_node_id (n_writer s) = hw_node_id (n_writer s0);
  fo_ws : hw_ws_state (n_writer s) = ws_of h;
  fo_dup : dup_skip_count (hw_metrics (n_writer s)) = dup_skips h;
  fo_quarantine : quarantine_count (hw_metrics (n_writer s)) = quarantines h;
  fo_failures : hw_write_failure_count (n_writer s) = failed_beats h;
  fo_rest : ∀ k, k ≠ temp_name (hw_node_id (n_writer s0)) → k ≠ heartbeat_name (hw_node_id (n_writer s0)) → n_files s !! k = n_files s0 !! k }.

Lemma history_snoc s h e : history s (h ++ [e]) = hb_step (history s h) e.
Proof. unfold history. by rewrite foldl_app. Qed.

Lemma follows_history id version role started fs h :
  let s0 := Node (new_writer id version role started) fs in follows s0 h (history s0 h).
Proof.
  intros s0. induction h as [|e h IH] using rev_ind; [done|]. rewrite history_snoc. destruct IH as [Hid Hws Hdup Hq Hf Hrest].
  destruct e as [r|v|v|tier ts|n|n].
  - destruct (beat_spec r (history s0 h)) as (Hw&_&Hother). rewrite Hid in Hother.
    split; unfold ws_of, dup_skips, quarantines, failed_beats in *; rewrite ?foldl_app; cbn [foldl]; [rewrite Hw; destruct (beat_ok r), (r_fail r Mkdir); simpl; assumption ..| |].
    + rewrite Hw. destruct (beat_ok r) eqn:Hb, (r_fail r Mkdir); simpl; rewrite ?Hf; done.
    + intros k Hk Hk'. rewrite Hother by done. auto.
  - split; unfold ws_of, dup_skips, quarantines, failed_beats in *; rewrite ?foldl_app; cbn [foldl hb_step on_writer n_writer n_files]; unfold ws_state_setter;
    destruct (bool_decide (v ∈ _VALID_WS_STATES)); done.
  - split; unfold ws_of, dup_skips, quarantines, failed_beats in *; rewrite ?foldl_app; simpl; done.
  - split; unfold ws_of, dup_skips, quarantines, failed_beats in *; rewrite ?foldl_app; simpl; done.
  - split; unfold ws_of, dup_skips, quarantines, failed_beats in *; rewrite ?foldl_app; simpl; try done. lia.
  - split; unfold ws_of, dup_skips, quarantines, failed_beats in *; rewrite ?foldl_app; simpl; try done. lia.
Qed.

(** The last good write of a history decides what is on the disk. *)
Lemma file_follows s0 h1 r h2 : beat_ok r = true → Forall (λ e, good_beat e = false) h2 →
  (∀ h, hw_node_id (n_writer (history s0 h)) = hw_node_id (n_writer s0)) →
  let s := history s0 (h1 ++ Beat r :: h2) in
  n_files s !! heartbeat_name (hw_node_id (n_writer s0)) = Some (File (Complete (payload_of (r_now r) (n_writer (history s0 h1)))) (r_now r)) ∧
  hw_last_heartbeat_ts (n_writer s) = Some (r_after r).
Proof.
  intros Hr Hh2 Hid s. subst s. induction h2 as [|e h2 IH] using rev_ind.
  - rewrite history_snoc. destruct (beat_spec r (history s0 h1)) as (Hw&Hf&_). rewrite Hid in Hf. rewrite Hr in Hw, Hf. rewrite Hw. done.
  - apply Forall_app in Hh2 as [Hh2 [He _]%Forall_cons]. specialize (IH Hh2).
    replace (h1 ++ Beat r :: h2 ++ [e]) with ((h1 ++ Beat r :: h2) ++ [e]) by (by rewrite <- app_assoc). rewrite history_snoc.
    destruct e as [r'|v|v|tier ts|n|n]; try exact IH.
    + destruct (beat_spec r' (history s0 (h1 ++ Beat r :: h2))) as (Hw&Hf&_). rewrite Hid in Hf. change (beat_ok r' = false) in He. rewrite He in Hw, Hf. rewrite Hw, Hf.
      destruct (r_fail r' Mkdir); exact IH.
    + simpl. unfold ws_state_setter. case_bool_decide; exact IH.
Qed.
Lemma no_beat_no_file s0 h : Forall (λ e, good_beat e = false) h →
  (∀ h, hw_node_id (n_writer (history s0 h)) = hw_node_id (n_writer s0)) →
  let s := history s0 h in
  n_files s !! heartbeat_name (hw_node_id (n_writer s0)) = n_files s0 !! heartbeat_name (hw_node_id (n_writer s0)) ∧
  hw_last_heartbeat_ts (n_writer s) = hw_last_heartbeat_ts (n_writer s0).
Proof.
  intros Hh Hid s. subst s. induction h as [|e h IH] using rev_ind; [done|].
  apply Forall_app in Hh as [Hh [He _]%Forall_cons]. specialize (IH Hh). rewrite history_snoc.
  destruct e as [r'|v|v|tier ts|n|n]; try exact IH.
  - destruct (beat_spec r' (history s0 h)) as (Hw&Hf&_). rewrite Hid in Hf. change (beat_ok r' = false) in He. rewrite He in Hw, Hf. rewrite Hw, Hf.
    destruct (r_fail r' Mkdir); exact IH.
  - simpl. unfold ws_state_setter. case_bool_decide; exact IH.
Qed.

(** ** Start-up *)

(** The clean-up at the start removes exactly the heartbeats of others that are
    older than the limit and can be deleted. *)
Lemma cleanup_removes_only_stale undeletable now ttl s k f :
  n_files (cleanup_stale_heartbeats undeletable now ttl s) !! k = Some f ↔
  n_files s !! k = Some f ∧ (is_stale now ttl (heartbeat_name (hw_node_id (n_writer s))) k f && negb (undeletable k) = false).
Proof. unfold cleanup_stale_heartbeats. simpl. rewrite map_lookup_filter_Some. done. Qed.
Lemma cleanup_keeps_own undeletable now ttl s : let own := heartbeat_name (hw_node_id (n_writer s)) in
  n_files (cleanup_stale_heartbeats undeletable now ttl s) !! own = n_files s !! own.
Proof.
  apply option_eq. intros f. rewrite cleanup_removes_only_stale. unfold is_stale. rewrite String.eqb_refl.
  split; [by intros []|]. intros Hf. split; [done|]. by rewrite andb_false_r.
Qed.

(** The names of heartbeats *)
Lemma heartbeat_name_inj a b : heartbeat_name a = heartbeat_name b → a = b.
Proof. unfold heartbeat_name. intros Heq. apply (string_app_inj_l "heartbeat-") in Heq. by apply string_app_inj_r in Heq. Qed.
Lemma is_heartbeat_heartbeat_name a : is_heartbeat_name (heartbeat_name a) = true.
Proof. unfold is_heartbeat_name, heartbeat_name. rewrite prefix_app, <- string_app_assoc, endswith_app. done. Qed.
Lemma heartbeat_name_inv k : is_heartbeat_name k = true → ∃ node, k = heartbeat_name node.
Proof.
  unfold is_heartbeat_name. intros [[t ->]%prefix_split [u Hu]%endswith_app_iff]%andb_true_iff.
  do 10 (destruct u as [|? u]; [discriminate Hu|simpl in Hu; injection Hu as <- Hu]).
  exists u. change (t = u +:+ ".json") in Hu. by rewrite Hu.
Qed.
Lemma heartbeat_not_temp a b : heartbeat_name a ≠ temp_name b.
Proof.
  intros He. assert (endswith ".json" (temp_name b) = true) as Hj by (rewrite <- He; unfold heartbeat_name; rewrite <- string_app_assoc; apply endswith_app).
  unfold endswith, temp_name in Hj. rewrite string_rev_app in Hj. discriminate Hj.
Qed.

(** The directory of the heartbeats can be made, so the loop goes on. *)
Definition has_directory (e : hb_event) : bool := match e with Beat r => negb (r_fail r Mkdir) | _ => true end.

(** C30.  The heartbeat file and the probe follow the history of the node.  A
    node starts by removing the heartbeats of other nodes that are older than
    the limit and can be deleted, and afterwards touches no file but its own
    heartbeat and its temporary file.  After a write that succeeded, and
    whatever failed since, its heartbeat is the document of that write, with
    the counters and the state of its moment, and the failures are counted.
    The probe answers 200 exactly if that write is at most the limit ago and
    the connection, as last set, is up or coming up.  (The directory can be
    made throughout; see [mkdir_failure_ends_the_loop].) *)
Theorem heartbeat_follows_history (id version role : string) (started : Z) (fs : gmap string (file payload))
    (undeletable : string → bool) (t0 ttl : Z) (h1 h2 : list hb_event) (r : round) (max_stale now : Z) :
  forallb has_directory (h1 ++ Beat r :: h2) = true → beat_ok r = true → Forall (λ e, good_beat e = false) h2 →
  let s0 := cleanup_stale_heartbeats undeletable t0 ttl (Node (new_writer id version role started) fs) in
  let s := history s0 (h1 ++ Beat r :: h2) in
  (∀ k f, k ≠ temp_name id → k ≠ heartbeat_name id → fs !! k = Some f →
     n_files s !! k = Some f ∨
     n_files s !! k = None ∧ (∃ other, k = heartbeat_name other) ∧ ttl < t0 - f_mtime f) ∧
  (∀ other f, other ≠ id → fs !! heartbeat_name other = Some f → ttl < t0 - f_mtime f → undeletable (heartbeat_name other) = false →
     n_files s !! heartbeat_name other = None) ∧
  (∀ k, k ≠ temp_name id → k ≠ heartbeat_name id → fs !! k = None → n_files s !! k = None) ∧
  (∃ p, read_heartbeat (n_files s) id = Ok p ∧
    hb_now p = iso_time (r_now r) ∧ hb_ws_state p = ws_of h1 ∧
    dup_skip_count (hb_metrics p) = dup_skips h1 ∧ quarantine_count (hb_metrics p) = quarantines h1) ∧
  hw_write_failure_count (n_writer s) = failed_beats (h1 ++ Beat r :: h2) ∧
  ((build_response (Some (n_writer s)) max_stale now).1 = 200 ↔
     now - r_after r <= max_stale * 1000000 ∧ ws_of (h1 ++ Beat r :: h2) ∈ HEALTHY_WS_STATES).
Proof.
  intros _ Hr Hh2 s0 s. set (w0 := new_writer id version role started).
  assert (s0 = Node w0 (n_files s0)) as Hs0 by done. assert (∀ h, follows s0 h (history s0 h)) as Hfollows.
  { intros h. rewrite Hs0. apply follows_history. }
  destruct (file_follows s0 h1 r h2 Hr Hh2 (λ h, fo_id _ _ _ (Hfollows h))) as [Hf Ht]. fold s in Hf, Ht.
  destruct (Hfollows h1) as [_ Hws Hdup Hq _ _]. destruct (Hfollows (h1 ++ Beat r :: h2)) as [_ Hws' _ _ Hfail Hrest].
  fold s in Hws', Hfail, Hrest. change (hw_node_id (n_writer s0)) with id in Hf, Hrest.
  split.
  { intros k f Hk1 Hk2 Hkf. rewrite Hrest by done. destruct (n_files s0 !! k) as [f'|] eqn:Hk.
    - left. apply cleanup_removes_only_stale in Hk as [Hk _]. simpl in Hk. congruence.
    - right. split; [done|]. destruct (is_stale t0 ttl (heartbeat_name id) k f) eqn:Hst.
      + unfold is_stale in Hst. rewrite !andb_true_iff, Z.ltb_lt in Hst. destruct Hst as [[Hn _] Hage].
        split; [by apply heartbeat_name_inv|done].
      + enough (n_files s0 !! k = Some f) by congruence. apply cleanup_removes_only_stale. split; [done|].
        apply andb_false_iff. by left. }
  split.
  { intros other f Hne Hof Hage Hdel. rewrite Hrest; [|by apply heartbeat_not_temp|by intros ?%heartbeat_name_inj].
    destruct (n_files s0 !! heartbeat_name other) as [f'|] eqn:Hk; [exfalso|done].
    apply cleanup_removes_only_stale in Hk as [Hk Hst]. simpl in Hk. rewrite Hof in Hk. injection Hk as <-.
    rewrite Hdel, andb_true_r in Hst. apply not_true_iff_false in Hst. apply Hst. unfold is_stale.
    rewrite is_heartbeat_heartbeat_name, !andb_true_iff, Z.ltb_lt. split; [split; [done|]|done].
    apply negb_true_iff, String.eqb_neq. by intros ?%heartbeat_name_inj. }
  split.
  { intros k Hk1 Hk2 Hkf. rewrite Hrest by done. destruct (n_files s0 !! k) as [f'|] eqn:Hk; [|done].
    apply cleanup_removes_only_stale in Hk as [Hk _]. simpl in Hk. congruence. }
  split.
  { exists (payload_of (r_now r) (n_writer (history s0 h1))). split; [unfold read_heartbeat; by rewrite Hf|]. by split_and!. }
  split; [done|]. unfold build_response. rewrite Ht, Hws'.
  destruct (Z.ltb_spec (max_stale * 1000000) (now - r_after r)); [split; [done|lia]|]. simpl.
  case_bool_decide as Hin; simpl; split; [by split|done|done|]. by intros [_ ?].
Qed.

(** *** A day of a node *)

Definition good_round (t : Z) : round := Round (λ _, false) t (t + 1000).
Definition bad_round (op : fs_op) (t : Z) : round := Round (λ o, match o, op with Replace, Replace | Fsync, Fsync | OpenTemp, OpenTemp => true | _, _ => false end) t (t + 1000).
Definition morning : list hb_event := [Beat (good_round 0); DupSkip 2; SetWs "reconnecting"; Quarantine 1; SetWs "gone"].
Definition evening : list hb_event := [DupSkip 5; Beat (bad_round Fsync 10000000); SetWs "connected"; Beat (bad_round Replace 15000000)].
Lemma heartbeat_follows_history_witness :
  let old := File Torn 0 in
  let s0 := cleanup_stale_heartbeats (λ _, false) 400000000 300000000 (Node (new_writer "n1" "v" "ingester" 0)
              {[ heartbeat_name "gone" := old; heartbeat_name "n2" := File Torn 200000000; "run-1.json" := old ]}) in
  let s := history s0 (morning ++ Beat (good_round 5000000) :: evening) in
  (∃ p, read_heartbeat (n_files s) "n1" = Ok p ∧ hb_ws_state p = "reconnecting" ∧ dup_skip_count (hb_metrics p) = 2) ∧
  n_files s !! heartbeat_name "gone" = None ∧ n_files s !! heartbeat_name "n2" = Some (File Torn 200000000) ∧ n_files s !! "run-1.json" = Some old ∧
  hw_write_failure_count (n_writer s) = 2 ∧
  (build_response (Some (n_writer s)) 60 65001000).1 = 200 ∧ (build_response (Some (n_writer s)) 60 65001001).1 = 503.
Proof.
  intros old s0 s.
  assert (Forall (λ e, good_beat e = false) evening) as He by (repeat constructor).
  destruct (heartbeat_follows_history "n1" "v" "ingester" 0
    {[ heartbeat_name "gone" := old; heartbeat_name "n2" := File Torn 200000000; "run-1.json" := old ]} (λ _, false) 400000000 300000000
    morning evening (good_round 5000000) 60 65001000 eq_refl eq_refl He) as (_&Hgone&_&(p&Hr&_&Hws&Hdup&_)&Hf&Hiff).
  fold s0 in Hr, Hf, Hiff. fold s in Hr, Hf, Hiff. split; [|split; [|split; [|split; [|split; [|split]]]]].
  - exists p. split; [exact Hr|]. split; [rewrite Hws; reflexivity|rewrite Hdup; reflexivity].
  - apply (Hgone "gone" old); [discriminate|reflexivity|reflexivity|reflexivity].
  - vm_compute. reflexivity.
  - vm_compute. reflexivity.
  - rewrite Hf. reflexivity.
  - apply Hiff. split; [simpl; lia|]. vm_compute. constructor.
  - vm_compute. reflexivity.
Defined.

(** The directory is made outside the [try]: where that fails the error ends
    the loop, and the file, though not written any more, stays. *)
Definition no_directory (t : Z) : round := Round (λ o, match o with Mkdir => true | _ => false end) t t.
Lemma mkdir_failure_ends_the_loop (t0 t1 : Z) (rest : list round) (last : round) (s : node) :
  hw_write_failure_count (n_writer (hb_run (Ok t0) (λ _, false) t1 (no_directory t1 :: rest) last s).1) = hw_write_failure_count (n_writer s) ∧
  (hb_run (Ok t0) (λ _, false) t1 (no_directory t1 :: rest) last s).2 = Raise OSErrorOther.
Proof. done. Qed.
(** A limit that is no number ends the task before its first heartbeat. *)
Lemma invalid_ttl_ends_the_task undeletable now rs last (s : node) : hb_run (Raise ValueError) undeletable now rs last s = (s, Raise ValueError).
Proof. done. Qed.
(** The probe takes a negative limit as valid; then no heartbeat is fresh
    enough. *)
Example negative_limit_is_taken : resolve_max_stale_seconds (Some "-5") = -5 ∧ resolve_max_stale_seconds (Some "5m") = 60.
Proof. split; reflexivity. Qed.
Lemma negative_limit_fails_every_probe w limit now t : hw_last_heartbeat_ts w = Some t → t <= now → limit < 0 → (build_response (Some w) limit now).1 = 503.
Proof. intros Ht Hle Hl. unfold build_response. rewrite Ht. by rewrite (proj2 (Z.ltb_lt _ _)) by lia. Qed.

(** ** The statistics *)

(** Events of a session: symbol, tier, time, size *)
Definition recorded (evs : list (string * string * Z * Z)) : all_stats :=
  foldl (λ st '(symbol, tier, ts, size), record_event symbol tier ts size st) [] evs.
Definition stats_of (st : all_stats) (symbol tier : string) : TierStats := default new_stats (dget (default [] (dget st symbol)) tier).
Definition is_of (symbol tier : string) (e : string * string * Z * Z) : bool :=
  let '(s, t, _, _) := e in String.eqb s symbol && String.eqb t tier.

Lemma stats_of_on st symbol tier f symbol' tier' : stats_of (on_tier_stats symbol tier f st) symbol' tier' =
  if String.eqb symbol symbol' && String.eqb tier tier' then f (stats_of st symbol tier) else stats_of st symbol' tier'.
Proof.
  unfold stats_of, on_tier_stats. destruct (String.eqb_spec symbol symbol') as [->|Hs]; simpl.
  - rewrite dget_dset_eq. simpl. destruct (String.eqb_spec tier tier') as [->|Ht]; [by rewrite dget_dset_eq|by rewrite dget_dset_ne].
  - by rewrite dget_dset_ne.
Qed.

Lemma recorded_snoc evs s t ts size : recorded (evs ++ [(s, t, ts, size)]) = record_event s t ts size (recorded evs).
Proof. unfold recorded. by rewrite foldl_app. Qed.

(** Rows and bytes of a symbol and a tier are those of all its events since the
    process started, of whatever day. *)
Lemma statistics_count_everything evs symbol tier :
  row_count_today (stats_of (recorded evs) symbol tier) = Z.of_nat (length (List.filter (is_of symbol tier) evs)) ∧
  file_size_bytes_today (stats_of (recorded evs) symbol tier) = foldr (λ e n, e.2 + n) 0 (List.filter (is_of symbol tier) evs).
Proof.
  induction evs as [|[[[s t] ts] size] evs IH] using rev_ind; [done|].
  rewrite recorded_snoc. unfold record_event. rewrite stats_of_on, List.filter_app. cbn [List.filter is_of].
  destruct (String.eqb_spec s symbol) as [->|Hs]; destruct (String.eqb_spec t tier) as [->|Ht]; cbn [andb];
    rewrite ?app_nil_r; try exact IH. destruct IH as [IHr IHb].
  cbn [row_count_today file_size_bytes_today]. split; [rewrite IHr, length_app; simpl; lia|].
  rewrite IHb, foldr_app. simpl. rewrite Z.add_0_r. clear. induction (List.filter (is_of symbol tier) evs) as [|e l IHl]; simpl; [lia|]. rewrite <- IHl. lia.
Qed.

(** Two events a day apart are two rows of today. *)
Example yesterday_counts_as_today :
  row_count_today (stats_of (recorded [("KRW-BTC", "orderbook", 0, 10); ("KRW-BTC", "orderbook", 86400 * 1000000, 10)]) "KRW-BTC" "orderbook") = 2.
Proof. reflexivity. Qed.

(** A flush that fails leaves the last statistics in place. *)
Lemma flush_is_atomic fail node_id run now st fs :
  (flush fail node_id run now st fs).1 !! "coverage-stats.json" = fs !! "coverage-stats.json" ∨
  (flush fail node_id run now st fs).1 !! "coverage-stats.json" =
    Some (File (Complete (CoveragePayload "coverage_stats.v1" node_id run (strftime_Z now) st)) now).
Proof.
  unfold flush. destruct (fail Mkdir); [by left|].
  pose proof (write_try_spec fail "coverage-stats.json.tmp" "coverage-stats.json" (CoveragePayload "coverage_stats.v1" node_id run (strftime_Z now) st) now fs) as Hw.
  destruct (write_try _ _ _ _ _ _) as [fs' raised]. destruct Hw as (_&Ht&_); [done|].
  destruct raised; simpl; [left; rewrite unlink_other by done; exact Ht|right; exact Ht].
Qed.
