(* ===== verification/QuarantineStore.v ===== *)
(** * Quarantine artifacts ([dedup.py persist_quarantine_records])

    Several processes persist quarantined rows into one directory at the same
    time.  Each reserves a name by creating it exclusively, writes its document
    to a temporary file of its own and renames it over the name.  A system call
    is a step; the steps of the processes interleave in any order, and a process
    may die between two of them. *)
From S2P Require Import Prelude PyDict.
Open Scope string_scope.
Open Scope list_scope.

(** ** Data *)

Section store.
(** The JSON text of a batch, a function of its records *)
Context {record : Type} (tier_of : record → string) (detected_at : record → string) (payload : string → list record → string).

(** [by_tier.setdefault(r.tier, []).append(r)] *)
Definition group_by_tier (records : list record) : dict string (list record) :=
  foldl (λ d r, dset d (tier_of r) (default [] (dget d (tier_of r)) ++ [r])) [] records.

(** [{tier}-{detected_at}-{seq:06d}.json]; the temporary name replaces [.json]
    by the writer's id, so it tells name and writer. *)
Inductive fname := Artifact (tier iso : string) (seq : nat) | Temp (reserved_name : string * string * nat) (writer : nat).
#[export] Instance fname_eq_dec : EqDecision fname.
Proof. solve_decision. Defined.
#[export] Instance fname_countable : Countable fname.
Proof.
  refine (inj_countable' (λ n, match n with Artifact t i s => inl (t, i, s) | Temp c w => inr (c, w) end)
    (λ x, match x with inl (t, i, s) => Artifact t i s | inr (c, w) => Temp c w end) _).
  by intros [].
Defined.
(** A reserved file is empty until its document is moved there. *)
Notation directory := (gmap fname string).

Record batch := Batch { b_tier : string; b_iso : string; b_doc : string }.
Definition batches (records : list record) : list batch :=
  (λ e, Batch e.1 (match e.2 with r :: _ => detected_at r | [] => "" end) (payload e.1 e.2)) <$> group_by_tier records.

(** Where a process is: at [os.open] with a sequence number, before the
    temporary file, or before the rename *)
Inductive pc := Reserving (seq : nat) | Filling (seq : nat) | Moving (seq : nat).
Record process := Process { p_todo : list batch; p_pc : pc; p_written : list (fname * string) }.
Definition start (records : list record) : process := Process (batches records) (Reserving 0) [].
Definition artifact (b : batch) (seq : nat) : fname := Artifact (b_tier b) (b_iso b) seq.
Definition temp (w : nat) (b : batch) (seq : nat) : fname := Temp (b_tier b, b_iso b, seq) w.

(** ** Steps *)

(** The next system call of process [w] *)
Definition advance (w : nat) (p : process) (d : directory) : directory * process :=
  match p_todo p with
  | [] => (d, p)
  | b :: bs =>
      match p_pc p with
      | Reserving seq =>
          match d !! artifact b seq with
          | Some _ => (d, Process (p_todo p) (Reserving (S seq)) (p_written p))
          | None => (<[artifact b seq := ""]> d, Process (p_todo p) (Filling seq) (p_written p))
          end
      | Filling seq => (<[temp w b seq := b_doc b]> d, Process (p_todo p) (Moving seq) (p_written p))
      | Moving seq =>
          match d !! temp w b seq with
          | Some doc => (<[artifact b seq := doc]> (delete (temp w b seq) d), Process bs (Reserving 0) (p_written p ++ [(artifact b seq, b_doc b)]))
          | None => (d, p)
          end
      end
  end.

(** Processes by their number; a dead one takes no more steps. *)
Record system := System { s_dir : directory; s_procs : gmap nat process }.
Inductive step : system → system → Prop :=
| step_run s w p d p' : s_procs s !! w = Some p → p_todo p ≠ [] → advance w p (s_dir s) = (d, p') →
    step s (System d (<[w := p']> (s_procs s)))
| step_start s w records : s_procs s !! w = None → step s (System (s_dir s) (<[w := start records]> (s_procs s)))
| step_stop s w p : s_procs s !! w = Some p → step s (System (s_dir s) (<[w := Process [] (Reserving 0) (p_written p)]> (s_procs s))).
Definition steps : system → system → Prop := rtc step.

(** A schedule, as a list: who starts, who takes the next step, who dies *)
Inductive action := Start (w : nat) (records : list record) | Run (w : nat) | Stop (w : nat).
Definition act (s : system) (a : action) : system :=
  match a with
  | Start w records => match s_procs s !! w with None => System (s_dir s) (<[w := start records]> (s_procs s)) | Some _ => s end
  | Run w =>
      match s_procs s !! w with
      | Some (Process (_ :: _) _ _ as p) => let r := advance w p (s_dir s) in System r.1 (<[w := r.2]> (s_procs s))
      | _ => s
      end
  | Stop w => match s_procs s !! w with Some p => System (s_dir s) (<[w := Process [] (Reserving 0) (p_written p)]> (s_procs s)) | None => s end
  end.
Definition play (l : list action) (s : system) : system := foldl act s l.
Lemma act_steps s a : steps s (act s a).
Proof.
  destruct a as [w records|w|w]; simpl; destruct (s_procs s !! w) as [p|] eqn:Hp; try done.
  - by apply rtc_once, step_start.
  - destruct p as [[|b bs] pc ws]; [done|]. eapply rtc_once, step_run; [done|done|]. by destruct (advance _ _ _).
  - by apply rtc_once, step_stop.
Qed.
Lemma play_steps l s : steps s (play l s).
Proof. revert s. induction l as [|a l IH]; intros s; [done|]. simpl. etrans; [apply act_steps|apply IH]. Qed.

(** ** The invariant *)

(** The name a process has reserved and not yet given its document *)
Definition reserved (p : process) : option fname :=
  match p_todo p, p_pc p with
  | b :: _, Filling seq | b :: _, Moving seq => Some (artifact b seq)
  | _, _ => None
  end.

Definition owned (p : process) : list fname := (p_written p).*1 ++ match reserved p with Some nm => [nm] | None => [] end.

Record ordered (d0 : directory) (s : system) : Prop := {
  or_old : ∀ t i n doc, d0 !! Artifact t i n = Some doc → s_dir s !! Artifact t i n = Some doc;
  or_owned : ∀ w p nm, s_procs s !! w = Some p → nm ∈ owned p → ∃ t i n, nm = Artifact t i n ∧ d0 !! nm = None ∧ is_Some (s_dir s !! nm);
  or_apart : ∀ w w' p p' nm, s_procs s !! w = Some p → s_procs s !! w' = Some p' → nm ∈ owned p → nm ∈ owned p' → w = w';
  or_nodup : ∀ w p, s_procs s !! w = Some p → NoDup (owned p);
  or_written : ∀ w p nm doc, s_procs s !! w = Some p → (nm, doc) ∈ p_written p → s_dir s !! nm = Some doc;
  or_temp : ∀ w p b bs seq, s_procs s !! w = Some p → p_todo p = b :: bs → p_pc p = Moving seq → s_dir s !! temp w b seq = Some (b_doc b) }.

(** A process is replaced and the directory grows: what each case has to show *)
Lemma ordered_update d0 s w p p' d :
  ordered d0 s → s_procs s !! w = Some p ∨ s_procs s !! w = None ∧ owned p = [] →
  (∀ t i n doc, d0 !! Artifact t i n = Some doc → d !! Artifact t i n = Some doc) →
  (∀ nm, nm ∈ owned p' → nm ∈ owned p ∨ (∃ t i n, nm = Artifact t i n) ∧ s_dir s !! nm = None ∧ is_Some (d !! nm)) →
  NoDup (owned p') →
  (∀ nm, is_Some (s_dir s !! nm) → (∃ t i n, nm = Artifact t i n) → is_Some (d !! nm)) →
  (∀ w' q nm doc, w' ≠ w → s_procs s !! w' = Some q → (nm, doc) ∈ p_written q → d !! nm = Some doc) →
  (∀ nm doc, (nm, doc) ∈ p_written p' → d !! nm = Some doc) →
  (∀ w' b seq doc, w' ≠ w → s_dir s !! temp w' b seq = Some doc → d !! temp w' b seq = Some doc) →
  (∀ b bs seq, p_todo p' = b :: bs → p_pc p' = Moving seq → d !! temp w b seq = Some (b_doc b)) →
  ordered d0 (System d (<[w := p']> (s_procs s))).
Proof.
  intros [Hold Howned Hapart Hnodup Hwritten Htemp] Hp Hold' Hsub Hnd Hgrow Hothers Hmine Htemps Hmytemp.
  assert (∀ nm, nm ∈ owned p → ∃ q, s_procs s !! w = Some q ∧ nm ∈ owned q) as Hpw.
  { intros nm Hnm. destruct Hp as [Hp|[_ Hp]]; [eauto|]. rewrite Hp in Hnm. by apply not_elem_of_nil in Hnm. }
  assert (∀ w' q nm, w' ≠ w → s_procs s !! w' = Some q → nm ∈ owned q → nm ∈ owned p' → False) as Hnew.
  { intros w' q nm Hne Hq Hnq [Hnp|(_&Hn&_)]%Hsub.
    - destruct (Hpw nm Hnp) as (q'&Hq'&Hn'). exact (Hne (Hapart _ _ _ _ _ Hq Hq' Hnq Hn')).
    - destruct (Howned _ _ _ Hq Hnq) as (?&?&?&_&_&[? Hs]). congruence. }
  split; simpl.
  - done.
  - intros w' q nm [[<- <-]|[Hne Hq]]%lookup_insert_Some Hnm.
    + destruct (Hsub _ Hnm) as [Hin|((t&i&n&->)&Hn&Hs)].
      * destruct (Hpw nm Hin) as (q'&Hq'&Hn'). destruct (Howned _ _ _ Hq' Hn') as (t&i&n&->&H0&Hs). exists t, i, n. split_and!; eauto.
      * exists t, i, n. split_and!; try done. destruct (d0 !! Artifact t i n) eqn:H0; [|done]. apply Hold in H0. congruence.
    + destruct (Howned _ _ _ Hq Hnm) as (t&i&n&->&H0&Hs). exists t, i, n. split_and!; eauto.
  - intros w1 w2 q1 q2 nm H1 H2 Hn1 Hn2. apply lookup_insert_Some in H1 as [[<- <-]|[Hne1 H1]], H2 as [[<- <-]|[Hne2 H2]]; [done| | |by eapply Hapart].
    + by destruct (Hnew w2 q2 nm).
    + by destruct (Hnew w1 q1 nm).
  - intros w' q [[<- <-]|[Hne Hq]]%lookup_insert_Some; [done|by eapply Hnodup].
  - intros w' q nm doc [[<- <-]|[Hne Hq]]%lookup_insert_Some Hin; [by apply Hmine|by eapply Hothers].
  - intros w' q b bs seq [[<- <-]|[Hne Hq]]%lookup_insert_Some Hb Hpc; [by eapply Hmytemp|]. apply Htemps; [done|]. by eapply Htemp.
Qed.

Lemma owned_written p : (p_written p).*1 ⊆ owned p.
Proof. unfold owned. set_solver. Qed.
Lemma written_owned p nm doc : (nm, doc) ∈ p_written p → nm ∈ owned p.
Proof. intros Hin. apply owned_written. by apply (list_elem_of_fmap_2 fst) in Hin. Qed.
Lemma written_artifact d0 s w p nm doc : ordered d0 s → s_procs s !! w = Some p → (nm, doc) ∈ p_written p → ∃ t i n, nm = Artifact t i n.
Proof. intros Ho Hp Hin. destruct (or_owned _ _ Ho _ _ nm Hp (written_owned _ _ _ Hin)) as (t&i&n&->&_). eauto. Qed.

(** The reservation: the name was free, so nobody owns it. *)
Lemma reserve_ordered d0 s w p b bs seq : ordered d0 s → s_procs s !! w = Some p → p_todo p = b :: bs → p_pc p = Reserving seq →
  s_dir s !! artifact b seq = None →
  ordered d0 (System (<[artifact b seq := ""]> (s_dir s)) (<[w := Process (p_todo p) (Filling seq) (p_written p)]> (s_procs s))).
Proof.
  intros Ho Hp Hb Hpc Hfree. assert (owned p = (p_written p).*1) as Hown by (unfold owned, reserved; rewrite Hb, Hpc; by rewrite app_nil_r).
  assert (∀ w' q nm, s_procs s !! w' = Some q → nm ∈ owned q → nm ≠ artifact b seq) as Hne.
  { intros w' q nm Hq Hn ->. destruct (or_owned _ _ Ho _ _ _ Hq Hn) as (?&?&?&_&_&[? Hs]). congruence. }
  assert (owned (Process (p_todo p) (Filling seq) (p_written p)) = owned p ++ [artifact b seq]) as Hown'.
  { rewrite Hown. unfold owned, reserved. cbn [p_todo p_pc p_written]. by rewrite Hb. }
  eapply (ordered_update d0 s w p); try done; [by left|..].
  - intros t i n doc H0. apply (or_old _ _ Ho) in H0. rewrite lookup_insert_ne by congruence. done.
  - intros nm. rewrite Hown', elem_of_app, list_elem_of_singleton. intros [Hn| ->]; [by left|right].
    split; [by eexists _, _, _|]. split; [done|]. by rewrite lookup_insert_eq.
  - rewrite Hown'. apply NoDup_app. split; [by apply (or_nodup _ _ Ho _ _ Hp)|]. split; [|apply NoDup_singleton].
    intros x Hx ->%list_elem_of_singleton. by apply (Hne w p (artifact b seq) Hp Hx).
  - intros nm Hs _. destruct (decide (nm = artifact b seq)) as [->|Hd]; [by rewrite lookup_insert_eq|]. by rewrite lookup_insert_ne.
  - intros w' q nm doc Hw' Hq Hin. rewrite lookup_insert_ne by (apply not_eq_sym, (Hne _ _ _ Hq (written_owned _ _ _ Hin))).
    by apply (or_written _ _ Ho _ _ _ _ Hq Hin).
  - intros nm doc Hin. rewrite lookup_insert_ne by (apply not_eq_sym, (Hne _ _ _ Hp (written_owned p _ _ Hin))).
    by apply (or_written _ _ Ho _ _ _ _ Hp Hin).
  - intros w' b' seq' doc Hw' Ht. by rewrite lookup_insert_ne.
Qed.

Lemma fill_ordered d0 s w p b bs seq : ordered d0 s → s_procs s !! w = Some p → p_todo p = b :: bs → p_pc p = Filling seq →
  ordered d0 (System (<[temp w b seq := b_doc b]> (s_dir s)) (<[w := Process (p_todo p) (Moving seq) (p_written p)]> (s_procs s))).
Proof.
  intros Ho Hp Hb Hpc.
  assert (owned (Process (p_todo p) (Moving seq) (p_written p)) = owned p) as Hown by (unfold owned, reserved; simpl; by rewrite Hb, Hpc).
  eapply (ordered_update d0 s w p); try done; [by left|..].
  - intros t i n doc H0. rewrite lookup_insert_ne by done. by apply (or_old _ _ Ho).
  - rewrite Hown. by left.
  - rewrite Hown. by apply (or_nodup _ _ Ho _ _ Hp).
  - intros nm Hs (t&i&n&->). by rewrite lookup_insert_ne.
  - intros w' q nm doc Hw' Hq Hin. destruct (written_artifact _ _ _ _ _ _ Ho Hq Hin) as (t&i&n&->).
    rewrite lookup_insert_ne by done. by apply (or_written _ _ Ho _ _ _ _ Hq Hin).
  - intros nm doc Hin. destruct (written_artifact _ _ _ _ _ _ Ho Hp Hin) as (t&i&n&->).
    rewrite lookup_insert_ne by done. by apply (or_written _ _ Ho _ _ _ _ Hp Hin).
  - intros w' b' seq' doc Hw' Ht. rewrite lookup_insert_ne by (unfold temp; congruence). done.
  - intros b' bs' seq' Hb' Hpc'. simpl in Hb', Hpc'. rewrite Hb in Hb'. simplify_eq. by rewrite lookup_insert_eq.
Qed.

(** The rename: the name is this process's alone. *)
Lemma move_ordered d0 s w p b bs seq : ordered d0 s → s_procs s !! w = Some p → p_todo p = b :: bs → p_pc p = Moving seq →
  ordered d0 (System (<[artifact b seq := b_doc b]> (delete (temp w b seq) (s_dir s)))
    (<[w := Process bs (Reserving 0) (p_written p ++ [(artifact b seq, b_doc b)])]> (s_procs s))).
Proof.
  intros Ho Hp Hb Hpc.
  assert (owned p = (p_written p).*1 ++ [artifact b seq]) as Hown by (unfold owned, reserved; by rewrite Hb, Hpc).
  assert (owned (Process bs (Reserving 0) (p_written p ++ [(artifact b seq, b_doc b)])) = owned p) as Hown'.
  { rewrite Hown. unfold owned, reserved. cbn [p_todo p_pc p_written]. rewrite fmap_app. destruct bs; by rewrite app_nil_r. }
  assert (artifact b seq ∈ owned p) as Hmine by (rewrite Hown; set_solver).
  pose proof (or_nodup _ _ Ho _ _ Hp) as Hnd.
  assert (∀ nm doc, (nm, doc) ∈ p_written p → nm ≠ artifact b seq) as Hne.
  { intros nm doc Hin ->. rewrite Hown in Hnd. apply NoDup_app in Hnd as (_&Hnd&_).
    apply (Hnd (artifact b seq)); [by apply (list_elem_of_fmap_2 fst) in Hin|set_solver]. }
  eapply (ordered_update d0 s w p); try done; [by left|..].
  - intros t i n doc H0. destruct (or_owned _ _ Ho _ _ _ Hp Hmine) as (?&?&?&_&Hnone&_).
    rewrite lookup_insert_ne by congruence. rewrite lookup_delete_ne by done. by apply (or_old _ _ Ho).
  - rewrite Hown'. by left.
  - by rewrite Hown'.
  - intros nm Hs (t&i&n&->). destruct (decide (artifact b seq = Artifact t i n)) as [<-|Hd]; [by rewrite lookup_insert_eq|].
    by rewrite lookup_insert_ne, lookup_delete_ne.
  - intros w' q nm doc Hw' Hq Hin. destruct (written_artifact _ _ _ _ _ _ Ho Hq Hin) as (t&i&n&->).
    rewrite lookup_insert_ne, lookup_delete_ne; [by apply (or_written _ _ Ho _ _ _ _ Hq Hin)|done|].
    intros Heq. apply Hw'. apply (or_apart _ _ Ho _ _ _ _ (Artifact t i n) Hq Hp); [by apply (written_owned _ _ _ Hin)|by rewrite <- Heq].
  - intros nm doc [Hin|[= -> ->]%list_elem_of_singleton]%elem_of_app; [|by rewrite lookup_insert_eq].
    destruct (written_artifact _ _ _ _ _ _ Ho Hp Hin) as (t&i&n&->).
    rewrite lookup_insert_ne, lookup_delete_ne; [by apply (or_written _ _ Ho _ _ _ _ Hp Hin)|done|by apply not_eq_sym, (Hne _ _ Hin)].
  - intros w' b' seq' doc Hw' Ht. rewrite lookup_insert_ne, lookup_delete_ne by (unfold temp, artifact; congruence). done.
Qed.

Lemma step_ordered d0 s s' : ordered d0 s → step s s' → ordered d0 s'.
Proof.
  intros Ho Hstep. revert Ho. destruct Hstep as [s1 w p d p' Hp Hne Hadv|s1 w records Hp|s1 w p Hp]; intros Ho.
  - unfold advance in Hadv. destruct (p_todo p) as [|b bs] eqn:Hb; [done|]. destruct (p_pc p) as [seq|seq|seq] eqn:Hpc.
    + destruct (s_dir s1 !! artifact b seq) as [x|] eqn:Hd; simplify_eq.
      * assert (owned (Process (b :: bs) (Reserving (S seq)) (p_written p)) = owned p) as Hown by (unfold owned, reserved; simpl; by rewrite Hb, Hpc).
        apply (ordered_update d0 s1 w p); try done; [by left|apply (or_old _ _ Ho)|rewrite Hown; by left|rewrite Hown; by apply (or_nodup _ _ Ho _ _ Hp)|..].
        -- intros w' q nm doc _ Hq. by apply (or_written _ _ Ho _ _ _ _ Hq).
        -- intros nm doc. by apply (or_written _ _ Ho _ _ _ _ Hp).
      * rewrite <- Hb. by apply (reserve_ordered d0 s1 w p b bs seq).
    + simplify_eq. rewrite <- Hb. by apply (fill_ordered d0 s1 w p b bs seq).
    + rewrite (or_temp _ _ Ho _ _ _ _ _ Hp Hb Hpc) in Hadv. simplify_eq. by apply move_ordered.
  - apply (ordered_update d0 s1 w (start [])); try done; [by right|apply (or_old _ _ Ho)|..].
    + intros nm. unfold owned, reserved, start. simpl. destruct (batches records); by intros ?%not_elem_of_nil.
    + unfold owned, reserved, start. simpl. destruct (batches records); constructor.
    + intros w' q nm doc _ Hq. by apply (or_written _ _ Ho _ _ _ _ Hq).
    + by intros nm doc ?%not_elem_of_nil.
  - assert (owned (Process [] (Reserving 0) (p_written p)) = (p_written p).*1) as Hown by (unfold owned; simpl; by rewrite app_nil_r).
    apply (ordered_update d0 s1 w p); try done; [by left|apply (or_old _ _ Ho)|..].
    + intros nm. rewrite Hown. intros Hin. left. by apply owned_written.
    + rewrite Hown. pose proof (or_nodup _ _ Ho _ _ Hp) as Hnd. unfold owned in Hnd. by apply NoDup_app in Hnd as (?&_).
    + intros w' q nm doc _ Hq. by apply (or_written _ _ Ho _ _ _ _ Hq).
    + intros nm doc. by apply (or_written _ _ Ho _ _ _ _ Hp).
Qed.

(** C29.  However the system calls of the processes interleave and whichever
    process dies when: artifacts that were there stay as they were, each
    artifact a process reports as written holds that process's document, and no
    two reports, of one process or of two, name the same file. *)
Theorem artifacts_are_append_only (d0 : directory) (s : system) :
  steps (System d0 ∅) s →
  (∀ t i n doc, d0 !! Artifact t i n = Some doc → s_dir s !! Artifact t i n = Some doc) ∧
  (∀ w p nm doc, s_procs s !! w = Some p → (nm, doc) ∈ p_written p → s_dir s !! nm = Some doc ∧ d0 !! nm = None) ∧
  (∀ w w' p p' nm doc doc', s_procs s !! w = Some p → s_procs s !! w' = Some p' →
     (nm, doc) ∈ p_written p → (nm, doc') ∈ p_written p' → w = w') ∧
  (∀ w p, s_procs s !! w = Some p → NoDup (p_written p).*1).
Proof.
  intros Hs. assert (ordered d0 s) as Ho.
  { assert (ordered d0 (System d0 ∅)) as Hinit by (split; done). revert Hinit. induction Hs; [done|]. intros Ho. apply IHHs. by eapply step_ordered. }
  split_and!.
  - apply (or_old _ _ Ho).
  - intros w p nm doc Hp Hin. split; [by apply (or_written _ _ Ho _ _ _ _ Hp Hin)|].
    by destruct (or_owned _ _ Ho _ _ _ Hp (written_owned _ _ _ Hin)) as (?&?&?&_&?&_).
  - intros w w' p p' nm doc doc' Hp Hp' Hin Hin'.
    apply (or_apart _ _ Ho _ _ _ _ nm Hp Hp'); [by apply (written_owned _ _ _ Hin)|by apply (written_owned _ _ _ Hin')].
  - intros w p Hp. pose proof (or_nodup _ _ Ho _ _ Hp) as Hnd. unfold owned in Hnd. by apply NoDup_app in Hnd as (?&_).
Qed.

(** ** A process left alone finishes *)

(** The system calls of a lone process, in order *)
Definition alone (n w : nat) (c : directory * process) : directory * process := Nat.iter n (λ c, advance w c.2 c.1) c.
Lemma alone_plus n m w c : alone (n + m) w c = alone n w (alone m w c).
Proof. unfold alone. by rewrite Nat.iter_add. Qed.

(** Only finitely many names are taken. *)
Lemma free_name (d : directory) b : ∃ m, ∀ k, (m ≤ k)%nat → d !! artifact b k = None.
Proof.
  revert d. refine (map_ind _ _ _); [exists 0%nat; intros; apply lookup_empty|]. intros nm x d _ [m Hm].
  destruct nm as [t i n|c w].
  - exists (Nat.max m (S n)). intros k Hk. rewrite lookup_insert_ne; [apply Hm; lia|]. unfold artifact. intros [= -> -> ->]. lia.
  - exists m. intros k Hk. rewrite lookup_insert_ne by done. by apply Hm.
Qed.

Lemma reservation_ends w b bs ws m d seq : (∀ k, (m ≤ k)%nat → d !! artifact b k = None) →
  ∃ n seq', d !! artifact b seq' = None ∧
    alone n w (d, Process (b :: bs) (Reserving seq) ws) = (<[artifact b seq' := ""]> d, Process (b :: bs) (Filling seq') ws).
Proof.
  intros Hfree. remember (m - seq)%nat as gap eqn:Hgap. revert seq Hgap. induction gap as [|gap IH]; intros seq Hgap.
  - exists 1%nat, seq. assert (d !! artifact b seq = None) as Hd by (apply Hfree; lia). split; [done|]. cbn. by rewrite Hd.
  - destruct (d !! artifact b seq) as [x|] eqn:Hd.
    + destruct (IH (S seq) ltac:(lia)) as (n&seq'&Hseq'&Hn). exists (n + 1)%nat, seq'. split; [done|].
      rewrite alone_plus. assert (alone 1 w (d, Process (b :: bs) (Reserving seq) ws) = (d, Process (b :: bs) (Reserving (S seq)) ws)) as -> by (cbn; by rewrite Hd).
      done.
    + exists 1%nat, seq. split; [done|]. cbn. by rewrite Hd.
Qed.

(** Persisting ends: in any directory, a process that starts and is left
    alone takes finitely many system calls, whatever names are taken, and then
    has written one artifact per tier of its records, in the order in which the
    tiers first appear, each under a name of that tier and instant. *)
Theorem persisting_ends (w : nat) (records : list record) (d : directory) :
  ∃ n, let p := (alone n w (d, start records)).2 in
    p_todo p = [] ∧
    Forall2 (λ e b, (∃ seq, e.1 = artifact b seq) ∧ e.2 = b_doc b) (p_written p) (batches records).
Proof.
  enough (∀ bs d ws, ∃ n, let p := (alone n w (d, Process bs (Reserving 0) ws)).2 in p_todo p = [] ∧
    ∃ new, p_written p = ws ++ new ∧ Forall2 (λ e b, (∃ seq, e.1 = artifact b seq) ∧ e.2 = b_doc b) new bs) as Hgen.
  { destruct (Hgen (batches records) d []) as (n&Ht&new&Hw&Hf). exists n. unfold start. split; [exact Ht|]. by rewrite Hw. }
  clear d. induction bs as [|b bs IH]; intros d ws; [exists 0%nat; split; [done|]; exists []; by rewrite app_nil_r|].
  destruct (free_name d b) as [m Hm]. destruct (reservation_ends w b bs ws m d 0 Hm) as (n1&seq&Hseq&Hn1).
  set (d' := <[artifact b seq := b_doc b]> (delete (temp w b seq) (<[temp w b seq := b_doc b]> (<[artifact b seq := ""]> d)))).
  destruct (IH d' (ws ++ [(artifact b seq, b_doc b)])) as (n2&Ht&new&Hw&Hf).
  assert (alone 2 w (<[artifact b seq := ""]> d, Process (b :: bs) (Filling seq) ws) = (d', Process bs (Reserving 0) (ws ++ [(artifact b seq, b_doc b)]))) as H2
    by (cbn; by rewrite lookup_insert_eq).
  exists (n2 + (2 + n1))%nat. rewrite !alone_plus, Hn1, H2. split; [done|].
  exists ((artifact b seq, b_doc b) :: new). split; [rewrite Hw; by rewrite <- app_assoc|]. constructor; [|done]. split; [by exists seq|done].
Qed.
End store.

(** Two processes race for the name that follows an old artifact. *)
Lemma artifacts_are_append_only_witness :
  let old := Artifact "trade" "20250101T000000Z" 0 in let nm := Artifact "trade" "20250101T000000Z" in
  let tier_of := λ _ : string, "trade" in let iso := λ _ : string, "20250101T000000Z" in let payload := λ (_ : string) l, String.concat "," l in
  let s := play tier_of iso payload [Start 1 ["x"]; Start 2 ["y"]; Run 1; Run 2; Run 1; Run 2; Run 1; Run 2; Run 2; Run 1; Run 2] (System {[old := "kept"]} ∅) in
  (p_written <$> s_procs s !! 1%nat) = Some [(nm 1%nat, "x")] ∧ (p_written <$> s_procs s !! 2%nat) = Some [(nm 2%nat, "y")] ∧
  s_dir s !! old = Some "kept" ∧ s_dir s !! nm 1%nat = Some "x" ∧ s_dir s !! nm 2%nat = Some "y".
Proof.
  intros old nm tier_of iso payload s.
  assert (({[old := "kept"]} : gmap fname string) !! Artifact "trade" "20250101T000000Z" 0 = Some "kept") as H0 by (vm_compute; reflexivity).
  assert (p_written <$> s_procs s !! 1%nat = Some [(nm 1%nat, "x")]) as H1 by (vm_compute; reflexivity).
  assert (p_written <$> s_procs s !! 2%nat = Some [(nm 2%nat, "y")]) as H2 by (vm_compute; reflexivity).
  assert (steps tier_of iso payload (System {[old := "kept"]} ∅) s) as Hs by apply play_steps.
  clearbody s. destruct (artifacts_are_append_only tier_of iso payload {[old := "kept"]} s Hs) as (Hold&Hw&_).
  split; [exact H1|]. split; [exact H2|].
  apply fmap_Some in H1 as (p1&H1&E1). apply fmap_Some in H2 as (p2&H2&E2).
  split; [exact (Hold _ _ _ _ H0)|]. split; [apply (Hw _ _ _ _ H1)|apply (Hw _ _ _ _ H2)]; [rewrite <- E1|rewrite <- E2]; left.
Defined.
