(* ===== verification/Contract.v ===== *)
(** * Contract metadata of information bars ([aggregation/contract_metadata.py])

    The frozen record with the checks of its construction, the text that is
    hashed into its [contract_id], and what that text tells apart.  SHA-256 is
    an argument. *)
From S2P Require Import Prelude PyDecimal NasKey Wal PyTime Ndjson DecimalText.
From Stdlib Require Import Ascii.
Open Scope py_scope.
Open Scope string_scope.
Open Scope list_scope.
Open Scope Z_scope.

(** ** Construction *)

(** A [datetime]: naive, or the instant with what [utcoffset()] gives, in
    microseconds *)
Inductive stamp := NaiveStamp (local : Z) | Stamped (us : Z) (offset : option Z).

Record ContractMetadata := MkContract {
  cm_bar_label : string; cm_genesis_ts : stamp; cm_threshold : num; cm_precision : Z; cm_rounding_rule : string;
  cm_source_cutoff : stamp; cm_tie_breaking : string; cm_version : string }.

Definition ensure_utc (value : stamp) : res unit :=
  match value with
  | NaiveStamp _ => Raise ValueError
  | Stamped _ (Some 0) => Ok tt
  | Stamped _ _ => Raise ValueError
  end.

(** [threshold <= 0], which a NaN answers with an exception *)
Definition not_positive (x : num) : res bool :=
  match x with
  | Num d => Ok (coef d <=? 0)
  | NumSpecial s => if String.eqb s "Infinity" then Ok false else if String.eqb s "-Infinity" then Ok true else Raise InvalidOperation
  end.

(** [isoformat()] of a time that passed [_ensure_utc] *)
Definition stamp_text (value : stamp) : string := match value with Stamped us _ => iso_time us | NaiveStamp us => iso_time us end.

(** [_canonical_repr] *)
Definition canonical_repr (m : ContractMetadata) : string :=
  String.concat "|"
    ["bar_label=" +:+ cm_bar_label m; "genesis_ts=" +:+ stamp_text (cm_genesis_ts m); "threshold=" +:+ num_text (cm_threshold m);
     "precision=" +:+ int_text (cm_precision m); "rounding_rule=" +:+ cm_rounding_rule m;
     "source_cutoff=" +:+ stamp_text (cm_source_cutoff m); "tie_breaking=" +:+ cm_tie_breaking m; "version=" +:+ cm_version m].

(** [hexdigest()[:16]] *)
Definition compute_contract_id (sha256_hex : string → string) (m : ContractMetadata) : string :=
  String.substring 0 16 (sha256_hex (canonical_repr m)).

(** [__post_init__]: the checks in their order, then the id *)
Definition post_init (sha256_hex : string → string) (m : ContractMetadata) : res string :=
  if String.eqb (cm_bar_label m) "" then Raise ValueError else
  let? bad := not_positive (cm_threshold m) in
  if bad : bool then Raise ValueError else
  if cm_precision m <? 0 then Raise ValueError else
  if negb (existsb (String.eqb (cm_tie_breaking m)) ["current_tick"; "next_tick"]) then Raise ValueError else
  let? _ := ensure_utc (cm_genesis_ts m) in
  let? _ := ensure_utc (cm_source_cutoff m) in
  Ok (compute_contract_id sha256_hex m).

(** ** What a constructed record satisfies *)

Definition in_calendar (value : stamp) : Prop :=
  match value with Stamped us _ | NaiveStamp us => date_in_range (us / 1000000 / 86400) end.
Definition utc (value : stamp) : Prop := ∃ us, value = Stamped us (Some 0).
Record valid (m : ContractMetadata) : Prop := {
  va_label : cm_bar_label m ≠ "";
  va_threshold : (∃ d, cm_threshold m = Num d ∧ 0 < coef d) ∨ cm_threshold m = NumSpecial "Infinity";
  va_precision : 0 <= cm_precision m;
  va_tie : cm_tie_breaking m = "current_tick" ∨ cm_tie_breaking m = "next_tick";
  va_genesis : utc (cm_genesis_ts m);
  va_cutoff : utc (cm_source_cutoff m) }.

Lemma ensure_utc_Ok s u : ensure_utc s = Ok u ↔ utc s.
Proof.
  destruct u, s as [us|us [[|p|p]|]]; simpl; split; try done; try (by intros [? ?]).
  by exists us.
Qed.

Lemma not_positive_Ok x : not_positive x = Ok false ↔ (∃ d, x = Num d ∧ 0 < coef d) ∨ x = NumSpecial "Infinity".
Proof.
  destruct x as [d|s]; simpl.
  - split.
    + intros ?%Ok_inj%Z.leb_gt. left. by exists d.
    + intros [(d'&[= <-]&Hd)|[=]]. f_equal. by apply Z.leb_gt.
  - split.
    + destruct (String.eqb_spec s "Infinity") as [->|]; [by right|]. by destruct (String.eqb s "-Infinity").
    + intros [(?&[=]&_)|[= ->]]. done.
Qed.

Lemma post_init_Ok sha m id : post_init sha m = Ok id ↔ valid m ∧ id = compute_contract_id sha m.
Proof.
  unfold post_init. split.
  - destruct (String.eqb_spec (cm_bar_label m) ""); [done|].
    intros (bad&Hbad&H)%rbind_Ok. destruct bad; [done|]. apply not_positive_Ok in Hbad.
    destruct (cm_precision m <? 0) eqn:Hp; [done|]. apply Z.ltb_ge in Hp. simpl in H.
    destruct (String.eqb_spec (cm_tie_breaking m) "current_tick") as [Ht|]; simpl in H;
      [|destruct (String.eqb_spec (cm_tie_breaking m) "next_tick") as [Ht|]; [|done]; simpl in H];
      apply rbind_Ok in H as (?&Hg%ensure_utc_Ok&(?&Hc%ensure_utc_Ok&<-%Ok_inj)%rbind_Ok); split; (done || (split; auto)).
  - intros [[Hl Ht%not_positive_Ok Hp Htie Hg Hc] ->]. rewrite (proj2 (String.eqb_neq _ _) Hl), Ht. simpl.
    rewrite (proj2 (Z.ltb_ge _ _) Hp). rewrite (proj2 (ensure_utc_Ok _ tt) Hg), (proj2 (ensure_utc_Ok _ tt) Hc). by destruct Htie as [-> | ->].
Qed.

(** ** What the text tells apart *)

Definition no_bar (s : string) : Prop := all_chars (λ c, negb (Ascii.eqb c "|")) s = true.

Lemma cut_at_bar s s' t t' : no_bar s → no_bar s' → s +:+ String "|" t = s' +:+ String "|" t' → s = s' ∧ t = t'.
Proof.
  unfold no_bar. revert s'. induction s as [|c s IH]; intros [|c' s'] Hs Hs' Heq; cbn in Heq.
  - by injection Heq as ->.
  - injection Heq as <- _. done.
  - injection Heq as -> _. done.
  - injection Heq as -> Heq. cbn in Hs, Hs'. apply andb_true_iff in Hs as [_ Hs], Hs' as [_ Hs'].
    by destruct (IH s' Hs Hs' Heq) as [-> ->].
Qed.

Lemma digit_no_bar c : is_digit c = true → negb (Ascii.eqb c "|") = true.
Proof. (destruct c as [[] [] [] [] [] [] [] []]; vm_compute; congruence). Qed.
Lemma no_bar_app s t : no_bar s → no_bar t → no_bar (s +:+ t).
Proof. unfold no_bar. intros Hs Ht. by rewrite all_chars_app, Hs, Ht. Qed.
Lemma no_bar_pad k n : no_bar (pad k n).
Proof. apply all_chars_pad, digit_no_bar. Qed.
Lemma no_bar_zeros n : no_bar (zeros n).
Proof. by induction n. Qed.
#[local] Hint Resolve no_bar_app no_bar_pad no_bar_zeros : bars.
#[local] Hint Extern 1 (no_bar _) => reflexivity : bars.
Ltac bars := cbv zeta; repeat case_match; auto 20 with bars.

Lemma no_bar_int z : no_bar (int_text z).
Proof. unfold int_text, nat_text. bars. Qed.
Lemma no_bar_isoformat d : no_bar (isoformat d).
Proof. unfold isoformat. destruct (civil d) as [[? ?] ?]. bars. Qed.
#[local] Hint Resolve no_bar_int no_bar_isoformat : bars.
Lemma no_bar_stamp s : no_bar (stamp_text s).
Proof. destruct s; cbn [stamp_text]; unfold iso_time; bars. Qed.
Lemma no_bar_decimal d : no_bar (decimal_text d).
Proof. unfold decimal_text, format_f, nat_text. bars. Qed.
#[local] Hint Resolve no_bar_stamp no_bar_decimal : bars.

Lemma int_text_inj z z' : int_text z = int_text z' → z = z'.
Proof. intros He. pose proof (int_text_of z) as Hz. rewrite He, int_text_of in Hz. congruence. Qed.
Lemma num_text_parses m : valid m → decimal_of_text (num_text (cm_threshold m)) = Ok (cm_threshold m) ∧ no_bar (num_text (cm_threshold m)).
Proof.
  intros Hm. destruct (va_threshold m Hm) as [(d&->&_)| ->]; [|by split; vm_compute].
  split; [apply decimal_text_round_trip|apply no_bar_decimal].
Qed.
Lemma stamp_text_inj s s' : utc s → utc s' → in_calendar s → in_calendar s' → stamp_text s = stamp_text s' → s = s'.
Proof.
  intros [us ->] [us' ->]. simpl. intros Hc Hc' He. pose proof (time_round_trip us Hc) as Hr.
  rewrite He, time_round_trip in Hr by done. apply Ok_inj in Hr. by subst.
Qed.
Lemma no_bar_tie m : valid m → no_bar (cm_tie_breaking m).
Proof. intros Hm. by destruct (va_tie m Hm) as [-> | ->]. Qed.

(** The text hashed into [contract_id] tells contracts apart: two
    constructed contracts whose labels and rounding rules hold no bar and whose
    texts are equal are equal in every field, the scale of the threshold and
    the version included; a change of any field changes what is hashed. *)
Theorem canonical_repr_injective (sha : string → string) (m m' : ContractMetadata) (id id' : string) :
  post_init sha m = Ok id → post_init sha m' = Ok id' →
  no_bar (cm_bar_label m) → no_bar (cm_bar_label m') → no_bar (cm_rounding_rule m) → no_bar (cm_rounding_rule m') →
  in_calendar (cm_genesis_ts m) → in_calendar (cm_genesis_ts m') → in_calendar (cm_source_cutoff m) → in_calendar (cm_source_cutoff m') →
  canonical_repr m = canonical_repr m' → m = m'.
Proof.
  intros [Hm _]%post_init_Ok [Hm' _]%post_init_Ok Hl Hl' Hr Hr' Hg Hg' Hc Hc' Heq.
  pose proof (num_text_parses m Hm) as [Ht Htb]. pose proof (num_text_parses m' Hm') as [Ht' Htb'].
  pose proof (no_bar_tie m Hm) as Hb. pose proof (no_bar_tie m' Hm') as Hb'.
  assert (∀ k s, no_bar k → no_bar s → no_bar (k +:+ s)) as Hk by (intros; by apply no_bar_app).
  unfold canonical_repr in Heq. cbn [String.concat] in Heq.
  assert (∀ x : string, "|" +:+ x = String "|" x) as Hbar by done. rewrite !Hbar in Heq.
  apply cut_at_bar in Heq as [E1 Heq]; [|by apply Hk..].
  apply cut_at_bar in Heq as [E2 Heq]; [|by apply Hk, no_bar_stamp..].
  apply cut_at_bar in Heq as [E3 Heq]; [|by apply Hk..].
  apply cut_at_bar in Heq as [E4 Heq]; [|by apply Hk, no_bar_int..].
  apply cut_at_bar in Heq as [E5 Heq]; [|by apply Hk..].
  apply cut_at_bar in Heq as [E6 Heq]; [|by apply Hk, no_bar_stamp..].
  apply cut_at_bar in Heq as [E7 E8]; [|by apply Hk..].
  apply string_app_inj_l in E1, E2, E3, E4, E5, E6, E7, E8.
  apply stamp_text_inj in E2; [|apply Hm|apply Hm'|done..]. apply stamp_text_inj in E6; [|apply Hm|apply Hm'|done..].
  apply int_text_inj in E4. assert (cm_threshold m = cm_threshold m') as E3' by (rewrite E3, Ht' in Ht; apply Ok_inj in Ht; congruence).
  destruct m, m'; simpl in *; congruence.
Qed.

Definition vol_bar (threshold : num) : ContractMetadata :=
  MkContract "vol_1000" (Stamped 1767225600000000 (Some 0)) threshold 0 "ROUND_HALF_EVEN" (Stamped 1767312000500000 (Some 0)) "current_tick" "info_bar.v1".

Lemma canonical_repr_injective_witness :
  canonical_repr (vol_bar (Num (Dec 1000 0))) ≠ canonical_repr (vol_bar (Num (Dec 1001 0))).
Proof.
  assert (post_init (λ s, s) (vol_bar (Num (Dec 1000 0))) = Ok "bar_label=vol_10") as H by (vm_compute; reflexivity).
  assert (post_init (λ s, s) (vol_bar (Num (Dec 1001 0))) = Ok "bar_label=vol_10") as H' by (vm_compute; reflexivity).
  assert (no_bar "vol_1000" ∧ no_bar "ROUND_HALF_EVEN") as [Hl Hr] by (split; reflexivity).
  assert (date_in_range (1767225600000000 / 1000000 / 86400) ∧ date_in_range (1767312000500000 / 1000000 / 86400)) as [Hg Hc] by (vm_compute; intuition congruence).
  intros Heq. pose proof (canonical_repr_injective (λ s, s) _ _ _ _ H H' Hl Hl Hr Hr Hg Hg Hc Hc Heq) as [=].
Defined.

(** A bar inside a field breaks it: two contracts that differ in three fields
    have one text, so one id. *)
Lemma bar_in_a_field_collides : ∃ m m' : ContractMetadata,
  valid m ∧ valid m' ∧ cm_source_cutoff m ≠ cm_source_cutoff m' ∧ cm_tie_breaking m ≠ cm_tie_breaking m' ∧ canonical_repr m = canonical_repr m'.
Proof.
  pose (a := Stamped 0 (Some 0)). pose (b := Stamped 1000000 (Some 0)).
  pose (middle := "source_cutoff=" +:+ stamp_text a +:+ "|tie_breaking=current_tick|version=x").
  exists (MkContract "v" a (Num (Dec 1 0)) 0 "R" a "current_tick" ("x|source_cutoff=" +:+ stamp_text b +:+ "|tie_breaking=next_tick|version=y")).
  exists (MkContract "v" a (Num (Dec 1 0)) 0 ("R|" +:+ middle) b "next_tick" "y").
  split_and!; [..|vm_compute; reflexivity]; try done;
    (split; simpl; try done; try (by left); try (by right); [left; by exists (Dec 1 0)|by eexists..]).
Qed.

(** Equal thresholds of another scale have other texts: contracts that Python
    holds equal have different ids. *)
Lemma equal_contracts_differ_in_text :
  deqb (Dec 1000 0) (Dec 1 3) = true ∧ canonical_repr (vol_bar (Num (Dec 1000 0))) ≠ canonical_repr (vol_bar (Num (Dec 1 3))).
Proof. split; [reflexivity|vm_compute; congruence]. Qed.
