(* ===== verification/Manifest.v ===== *)
(** * Run manifests and the diagnosis of gaps ([manifest.py], [diagnostic.py])

    Each run of a collector writes a manifest under its run id; the readers of
    the coverage report list them.  A manifest's JSON text and its validation
    are pydantic's: an argument, with the round trip as hypothesis.  The files
    of the manifest directory are their names and texts; run ids hold no
    slash. *)
From S2P Require Import Prelude NasKey Wal PyTime Ndjson DecimalText Policy Dedup Contract.
From Stdlib Require Import Ascii.
Open Scope py_scope.
Open Scope string_scope.
Open Scope list_scope.
Open Scope Z_scope.

(** ** Run ids *)

Inductive selection := Explicit | TopNVolume.
Record CollectorManifest := MkManifest {
  mf_collector_run_id : string; mf_started_at_utc : datetime; mf_exchange : string; mf_selected_symbols : list string;
  mf_channels : list string; mf_selection_method : selection; mf_top_n : option Z; mf_node_id : option string }.

(** [strftime("%Y%m%dT%H%M%SZ")] of a UTC time in microseconds *)
Definition compact_ts (us : Z) : string :=
  let '(y, m, d) := civil (us / 1000000 / 86400) in let s := us / 1000000 mod 86400 in
  pad 4 y +:+ (pad 2 m +:+ (pad 2 d +:+ ("T" +:+ (pad 2 (s / 3600) +:+ (pad 2 (s mod 3600 / 60) +:+ (pad 2 (s mod 60) +:+ "Z")))))).

(** The text hashed where there is no node *)
Definition legacy_payload (exchange : string) (selected_symbols : list string) (started_at : Z) : string :=
  exchange +:+ "|" +:+ String.concat "|" (sort_le String.leb selected_symbols) +:+ "|" +:+ iso_time started_at.

Definition derive_collector_run_id (sha256_hex : string → string) (started_at : Z) (exchange : string) (selected_symbols : list string)
    (node_id : option string) : string :=
  match node_id with
  | Some node => node +:+ "-" +:+ compact_ts started_at
  | None => String.substring 0 16 (sha256_hex (legacy_payload exchange selected_symbols started_at))
  end.

(** ** The manifest directory *)

Notation files := (gmap string string).
(** [manifest_path], and the name the text is written under first *)
Definition manifest_name (collector_run_id : string) : string := "run-" +:+ collector_run_id +:+ ".json".
Definition tmp_name (collector_run_id : string) : string := manifest_name collector_run_id +:+ ".tmp".
(** [glob("run-*.json")] *)
Definition is_manifest_name (name : string) : bool := String.prefix "run-" name && endswith ".json" name.

(** [out.sort(key=lambda m: m.started_at_utc)]: naive and aware times do not
    compare, and no order of two is found without comparing *)
Definition is_naive (m : CollectorManifest) : bool := match mf_started_at_utc m with Naive _ => true | Aware _ => false end.
Definition start_us (m : CollectorManifest) : Z := match mf_started_at_utc m with Naive us | Aware us => us end.
Definition sort_by_start (ms : list CollectorManifest) : res (list CollectorManifest) :=
  if existsb is_naive ms && negb (forallb is_naive ms) then Raise TypeError else Ok (sorted_by start_us ms).

Section store.
Context (to_json : CollectorManifest → string) (of_json : string → res CollectorManifest).

(** The directory while a manifest is written: untouched, with part of the
    text, with all of it, and after the rename *)
Definition write_states (part : string) (m : CollectorManifest) (fs : files) : list files :=
  let id := mf_collector_run_id m in
  [fs; <[tmp_name id := part]> fs; <[tmp_name id := to_json m]> fs; <[manifest_name id := to_json m]> (delete (tmp_name id) fs)].
Definition write_manifest (m : CollectorManifest) (fs : files) : files :=
  let id := mf_collector_run_id m in <[manifest_name id := to_json m]> (delete (tmp_name id) fs).

Definition read_manifest (fs : files) (collector_run_id : string) : res CollectorManifest :=
  match fs !! manifest_name collector_run_id with Some text => of_json text | None => Raise FileNotFoundError end.

(** [sorted(base.glob("run-*.json"))] *)
Definition manifest_names (fs : files) : list string := sort_le String.leb (List.filter is_manifest_name (map_to_list fs).*1).
(** The manifests that can be read *)
Definition readable (fs : files) : list CollectorManifest :=
  omap (λ name, match fs !! name with Some text => match of_json text with Ok m => Some m | Raise _ => None end | None => None end) (manifest_names fs).
Definition list_manifests (fs : files) : res (list CollectorManifest) := sort_by_start (readable fs).
End store.

(** ** The cause of a gap *)

Inductive GapCause := LIKELY_NODE_DOWN | UNKNOWN.
(** [hb["now"]]: absent, a text, or another value *)
Inductive hb_now := NowMissing | NowText (s : string) | NowOther.
Record heartbeat := MkHeartbeat { hb_ws_state : option string; hb_now_field : hb_now }.

(** The age of a heartbeat: [None] where [KeyError], [ValueError] or
    [AttributeError] is caught; a naive time does not subtract. *)
Definition staleness (now_wall : Z) (hb : heartbeat) : res (option Z) :=
  match hb_now_field hb with
  | NowMissing | NowOther => Ok None
  | NowText s =>
      match parse_datetime (replace_Z s) with
      | Ok (Aware t) => Ok (Some (now_wall - t))
      | Ok (Naive _) => Raise TypeError
      | Raise _ => Ok None
      end
  end.
Definition disconnected (hb : heartbeat) : bool := match hb_ws_state hb with Some s => String.eqb s "disconnected" | None => false end.
Fixpoint classify_gap (now_wall fresh_red_us : Z) (heartbeats_now : list heartbeat) : res GapCause :=
  match heartbeats_now with
  | [] => Ok UNKNOWN
  | hb :: rest =>
      if disconnected hb then Ok LIKELY_NODE_DOWN else
      let? age := staleness now_wall hb in
      if (match age with Some a => fresh_red_us <=? a | None => false end) then Ok LIKELY_NODE_DOWN
      else classify_gap now_wall fresh_red_us rest
  end.

(** ** Lemmas: run ids *)

Lemma number_pad_back k n n' s s' : 0 <= n < 10 ^ Z.of_nat k → 0 <= n' < 10 ^ Z.of_nat k → pad k n +:+ s = pad k n' +:+ s' → n = n' ∧ s = s'.
Proof.
  intros Hn Hn' Heq. pose proof (number_pad_small k n s Hn) as H. rewrite Heq, number_pad_small in H by done.
  by injection H as -> ->.
Qed.

Lemma compact_ts_inj us us' : date_in_range (us / 1000000 / 86400) → date_in_range (us' / 1000000 / 86400) →
  compact_ts us = compact_ts us' → us / 1000000 = us' / 1000000.
Proof.
  intros Hd Hd'. unfold compact_ts. pose proof (civil_range _ Hd) as H. pose proof (civil_range _ Hd') as H'.
  set (q := us / 1000000) in *. set (q' := us' / 1000000) in *.
  pose proof (Z.div_mod q 86400 ltac:(lia)) as Hq. pose proof (Z.div_mod q' 86400 ltac:(lia)) as Hq'.
  pose proof (Z.mod_pos_bound q 86400 ltac:(lia)) as Hs. pose proof (Z.mod_pos_bound q' 86400 ltac:(lia)) as Hs'.
  set (s := q mod 86400) in *. set (s' := q' mod 86400) in *. clearbody s s'.
  destruct (civil (q / 86400)) as [[y m] d], (civil (q' / 86400)) as [[y' m'] d'].
  destruct H as (Hy&Hm&Hdd&He), H' as (Hy'&Hm'&Hdd'&He'). pose proof (days_in_month_le y m). pose proof (days_in_month_le y' m').
  assert (∀ x, 0 <= x < 86400 → 0 <= x / 3600 < 100 ∧ 0 <= x mod 3600 / 60 < 100 ∧ 0 <= x mod 60 < 100 ∧ x = x / 3600 * 3600 + x mod 3600 / 60 * 60 + x mod 60) as Hx.
  { intros x Hb. clear -Hb. Z.to_euclidean_division_equations. lia. }
  destruct (Hx s Hs) as (B1&B2&B3&B4), (Hx s' Hs') as (C1&C2&C3&C4).
  intros [E1 T]%number_pad_back; [|cbn; lia..]. apply number_pad_back in T as [E2 T]; [|cbn; lia..].
  apply number_pad_back in T as [E3 T]; [|cbn; lia..]. apply string_app_inj_l in T.
  apply number_pad_back in T as [E4 T]; [|cbn; lia..]. apply number_pad_back in T as [E5 T]; [|cbn; lia..].
  apply number_pad_back in T as [E6 _]; [|cbn; lia..]. subst. lia.
Qed.

Lemma compact_ts_length us : String.length (compact_ts us) = 16%nat.
Proof. unfold compact_ts. destruct (civil _) as [[? ?] ?]. rewrite !string_app_length, !pad_length_str. done. Qed.

(** A node's run ids tell its starts apart down to the second: ids of two
    nodes or of two seconds differ, whatever characters the names of the nodes
    hold. *)
Theorem node_run_ids_differ (sha : string → string) (t t' : Z) (exchange exchange' : string) (symbols symbols' : list string) (node node' : string) :
  date_in_range (t / 1000000 / 86400) → date_in_range (t' / 1000000 / 86400) →
  derive_collector_run_id sha t exchange symbols (Some node) = derive_collector_run_id sha t' exchange' symbols' (Some node') ↔
  node = node' ∧ t / 1000000 = t' / 1000000.
Proof.
  intros Hd Hd'. simpl. split.
  - intros Heq. pose proof (f_equal String.length Heq) as Hlen. rewrite !string_app_length, !compact_ts_length in Hlen.
    apply string_app_inj_len in Heq as [-> Heq]; [|lia]. split; [done|]. apply compact_ts_inj; [done..|].
    by apply (string_app_inj_l "-") in Heq.
  - intros [-> Ht]. unfold compact_ts. by rewrite Ht.
Qed.

(** Two collectors of one node that start within one second share a run id,
    whatever they collect: the manifest of one replaces the other's. *)
Lemma collectors_share_a_run_id sha :
  derive_collector_run_id sha 1767225600100000 "bithumb" ["KRW-BTC"] (Some "NODE_A") =
  derive_collector_run_id sha 1767225600900000 "upbit" ["KRW-ETH"] (Some "NODE_A").
Proof. vm_compute. reflexivity. Qed.

(** *** The hashed text *)

Lemma cut_last_bar l l' x x' : Forall no_bar l → Forall no_bar l' → no_bar x → no_bar x' →
  foldr (λ a s, a +:+ String "|" s) x l = foldr (λ a s, a +:+ String "|" s) x' l' → l = l' ∧ x = x'.
Proof.
  assert (∀ a s, no_bar (a +:+ String "|" s) → False) as Hno.
  { intros a s. unfold no_bar. rewrite all_chars_app. cbn. by rewrite andb_false_r. }
  intros Hl. revert l'. induction Hl as [|a l Ha Hl IH]; intros l' Hl' Hx Hx' Heq.
  - destruct l' as [|b l']; [done|]. exfalso. cbn in Heq. apply (Hno b (foldr (λ a s, a +:+ String "|" s) x' l')). by rewrite <- Heq.
  - destruct Hl' as [|b l' Hb Hl']; [exfalso; cbn in Heq; apply (Hno a (foldr (λ a s, a +:+ String "|" s) x l)); by rewrite Heq|].
    cbn in Heq. apply cut_at_bar in Heq as [-> Heq]; [|done..]. by destruct (IH l' Hl' Hx Hx' Heq) as [-> ->].
Qed.

Lemma legacy_payload_fold exchange symbols t : symbols ≠ [] →
  legacy_payload exchange symbols t = foldr (λ a s, a +:+ String "|" s) (iso_time t) (exchange :: sort_le String.leb symbols).
Proof.
  intros Hne. unfold legacy_payload. assert (sort_le String.leb symbols ≠ []) as Hne'.
  { intros Hs. pose proof (sort_le_length String.leb symbols) as Hl. rewrite Hs in Hl. by destruct symbols. }
  revert Hne'. generalize (sort_le String.leb symbols) as l. intros l Hl. cbn [foldr].
  assert (∀ s, "|" +:+ s = String "|" s) as Hbar by done. rewrite Hbar. f_equal. f_equal.
  induction l as [|a [|b l] IH]; [done| |].
  - cbn [String.concat foldr]. by rewrite Hbar.
  - cbn [String.concat]. rewrite !string_app_assoc, Hbar. cbn [foldr] in *. f_equal. cbn [String.append]. f_equal. by apply IH.
Qed.

Lemma sorted_symbols_eq l l' : l ≡ₚ l' → sort_le String.leb l = sort_le String.leb l'.
Proof.
  intros Hp. assert (AntiSymm (=) (λ a b, String.leb a b = true)) by (intros a b Ha Hb; by apply String.leb_antisym).
  apply (StronglySorted_unique (λ a b, String.leb a b = true)); [apply sort_le_sorted..|];
    try (apply String.leb_total); try (apply string_leb_trans). by rewrite !sort_le_perm.
Qed.

(** Without a node, what is hashed into a run id is the exchange, the set
    of symbols and the instant: two runs (of at least one symbol, no bar in any
    name) have one text exactly if these agree, in whatever order the symbols
    were given. *)
Theorem legacy_payload_determines (exchange exchange' : string) (symbols symbols' : list string) (t t' : Z) :
  symbols ≠ [] → symbols' ≠ [] → Forall no_bar (exchange :: symbols) → Forall no_bar (exchange' :: symbols') →
  date_in_range (t / 1000000 / 86400) → date_in_range (t' / 1000000 / 86400) →
  legacy_payload exchange symbols t = legacy_payload exchange' symbols' t' ↔ exchange = exchange' ∧ symbols ≡ₚ symbols' ∧ t = t'.
Proof.
  intros Hne Hne' [He Hs]%Forall_cons [He' Hs']%Forall_cons Ht Ht'. split.
  - rewrite !legacy_payload_fold by done. intros Heq. apply cut_last_bar in Heq as [Hl Hx].
    + injection Hl as -> Hl. split; [done|]. split; [by rewrite <- (sort_le_perm String.leb symbols), Hl, sort_le_perm|].
      pose proof (time_round_trip t Ht) as Hr. rewrite Hx, time_round_trip in Hr by done. by apply Ok_inj in Hr.
    + constructor; [done|]. by rewrite sort_le_perm.
    + constructor; [done|]. by rewrite sort_le_perm.
    + apply (no_bar_stamp (Stamped t None)).
    + apply (no_bar_stamp (Stamped t' None)).
  - intros (->&Hp&->). unfold legacy_payload. by rewrite (sorted_symbols_eq _ _ Hp).
Qed.

Lemma legacy_payload_determines_witness :
  legacy_payload "bithumb" ["KRW-ETH"; "KRW-BTC"] 1767225600000000 = legacy_payload "bithumb" ["KRW-BTC"; "KRW-ETH"] 1767225600000000.
Proof.
  apply legacy_payload_determines; [done|done|repeat constructor|repeat constructor|vm_compute; intuition congruence|vm_compute; intuition congruence|].
  split; [done|]. split; [apply perm_swap|done].
Defined.

(** ** The directory follows the history of writes *)

Lemma manifest_name_inj id id' : manifest_name id = manifest_name id' → id = id'.
Proof. unfold manifest_name. intros H%string_app_inj_l. by apply string_app_inj_r in H. Qed.
Lemma is_manifest_name_ok id : is_manifest_name (manifest_name id) = true.
Proof.
  unfold is_manifest_name, manifest_name. rewrite prefix_app. simpl. rewrite <- string_app_assoc. apply endswith_app.
Qed.
Lemma tmp_not_manifest id : is_manifest_name (tmp_name id) = false.
Proof. unfold is_manifest_name, tmp_name, endswith. rewrite (string_rev_app _ ".tmp"). by rewrite andb_false_r. Qed.
Lemma tmp_ne_manifest id id' : tmp_name id ≠ manifest_name id'.
Proof. intros H. pose proof (tmp_not_manifest id) as Hn. by rewrite H, is_manifest_name_ok in Hn. Qed.

Section history.
Context (to_json : CollectorManifest → string) (of_json : string → res CollectorManifest).
(** [model_validate_json(m.model_dump_json())] is [m]. *)
Context (json_round_trip : ∀ m, of_json (to_json m) = Ok m).

(** A manifest is written, or the process dies while it writes one: before the
    temporary file, with part of it, or before the rename. *)
Inductive event := Written (m : CollectorManifest) | Died (m : CollectorManifest) (part : string) (k : nat).
Definition manifest_step (fs : files) (e : event) : files :=
  match e with
  | Written m => write_manifest to_json m fs
  | Died m part k => default fs (take 3 (write_states to_json part m fs) !! k)
  end.
Definition directory_after (h : list event) : files := foldl manifest_step ∅ h.
(** The last manifest written under an id *)
Definition last_written (h : list event) (id : string) : option CollectorManifest :=
  foldl (λ acc e, match e with Written m => if String.eqb (mf_collector_run_id m) id then Some m else acc | Died _ _ _ => acc end) None h.

Lemma last_written_snoc h e id : last_written (h ++ [e]) id =
  match e with Written m => if String.eqb (mf_collector_run_id m) id then Some m else last_written h id | Died _ _ _ => last_written h id end.
Proof. unfold last_written. by rewrite foldl_app. Qed.
Lemma last_written_id h id m : last_written h id = Some m → mf_collector_run_id m = id.
Proof.
  induction h as [|e h IH] using rev_ind; [done|]. rewrite last_written_snoc. destruct e as [m'|]; [|done].
  destruct (String.eqb_spec (mf_collector_run_id m') id); [by intros [= <-]|done].
Qed.

Record follows (h : list event) (fs : files) : Prop := {
  fo_read : ∀ id, fs !! manifest_name id = to_json <$> last_written h id;
  fo_names : ∀ name, is_Some (fs !! name) → is_manifest_name name = true → ∃ id, name = manifest_name id }.

Lemma follows_tmp h fs id text : follows h fs → follows h (<[tmp_name id := text]> fs).
Proof.
  intros [Hr Hn]. split.
  - intros id'. rewrite lookup_insert_ne by apply tmp_ne_manifest. apply Hr.
  - intros name Hs Hm. apply Hn; [|done]. rewrite lookup_insert_ne in Hs; [done|]. intros <-. by rewrite tmp_not_manifest in Hm.
Qed.

Lemma directory_follows h : follows h (directory_after h).
Proof.
  induction h as [|e h IH] using rev_ind; [split; [done|by intros ? [? ?]]|].
  unfold directory_after. rewrite foldl_app. cbn [foldl]. fold (directory_after h). set (fs := directory_after h) in *. clearbody fs.
  assert (follows h fs → ∀ m part k, e = Died m part k → follows (h ++ [e]) fs) as Hdied.
  { intros [Hr Hn] m part k ->. split; [|done]. intros id. rewrite last_written_snoc. apply Hr. }
  destruct e as [m|m part k].
  - destruct IH as [Hr Hn]. simpl. unfold write_manifest. split.
    + intros id. rewrite last_written_snoc. destruct (String.eqb_spec (mf_collector_run_id m) id) as [<-|Hne]; [by rewrite lookup_insert_eq|].
      rewrite lookup_insert_ne by (by intros ?%manifest_name_inj). rewrite lookup_delete_ne by apply tmp_ne_manifest. apply Hr.
    + intros name. destruct (decide (manifest_name (mf_collector_run_id m) = name)) as [<-|Hne]; [by eexists|].
      rewrite lookup_insert_ne by done. intros [x [_ Hx]%lookup_delete_Some]. eauto.
  - specialize (Hdied IH m part k eq_refl). simpl. unfold write_states.
    destruct k as [|[|[|k]]]; simpl; [done|by apply follows_tmp..|done].
Qed.

Lemma elem_of_readable fs m : m ∈ readable of_json fs ↔
  ∃ name text, fs !! name = Some text ∧ is_manifest_name name = true ∧ of_json text = Ok m.
Proof.
  unfold readable. rewrite list_elem_of_omap. split.
  - intros (name&Hin&Hm). unfold manifest_names in Hin. rewrite sort_le_perm in Hin.
    apply list_elem_of_In, filter_In in Hin as [_ Hn]. destruct (fs !! name) as [text|] eqn:Hl; [|done].
    destruct (of_json text) eqn:Hj; [|done]. injection Hm as ->. by exists name, text.
  - intros (name&text&Hl&Hn&Hj). exists name. rewrite Hl, Hj. split; [|done]. unfold manifest_names. rewrite sort_le_perm.
    apply list_elem_of_In, filter_In. split; [|done]. apply list_elem_of_In. by apply (list_elem_of_fmap_2 fst _ (name, text)), elem_of_map_to_list.
Qed.

Lemma manifest_names_nodup (fs : files) : NoDup (manifest_names fs).
Proof.
  unfold manifest_names. rewrite sort_le_perm. apply NoDup_ListNoDup, List.NoDup_filter, NoDup_ListNoDup, NoDup_fst_map_to_list.
Qed.

Lemma NoDup_omap_key {A B K} (f : A → option B) (g : B → K) (key : A → K) (l : list A) :
  NoDup (key <$> l) → (∀ x y, x ∈ l → f x = Some y → g y = key x) → NoDup (g <$> omap f l).
Proof.
  intros Hnd Hf. induction l as [|x l IH]; [constructor|]. cbn in Hnd. apply NoDup_cons in Hnd as [Hx Hnd].
  specialize (IH Hnd (λ y z Hy, Hf y z (list_elem_of_further _ _ _ Hy))). cbn. destruct (f x) as [y|] eqn:Hy; [|done]. cbn. constructor; [|done].
  rewrite (Hf x y (list_elem_of_here _ _) Hy). intros (z&Hz&(w&Hw&Hfw)%list_elem_of_omap)%list_elem_of_fmap. apply Hx.
  rewrite Hz, (Hf w z (list_elem_of_further _ _ _ Hw) Hfw). by apply list_elem_of_fmap_2.
Qed.

Lemma readable_nodup fs : (∀ name text m, fs !! name = Some text → is_manifest_name name = true → of_json text = Ok m →
  name = manifest_name (mf_collector_run_id m)) → NoDup (mf_collector_run_id <$> readable of_json fs).
Proof.
  intros Hfile. apply (NoDup_fmap_1 manifest_name). rewrite <- list_fmap_compose. unfold readable.
  apply (NoDup_omap_key _ _ id); [rewrite list_fmap_id; apply manifest_names_nodup|].
  intros name m Hin Hm. unfold manifest_names in Hin. rewrite sort_le_perm in Hin. apply list_elem_of_In, filter_In in Hin as [_ Hname].
  destruct (fs !! name) as [text|] eqn:Hl; [|done]. destruct (of_json text) eqn:Hj; [|done]. injection Hm as ->.
  symmetry. by apply (Hfile name text).
Qed.

Lemma aware_sorts ms : (∀ m, m ∈ ms → is_naive m = false) →
  ∃ l, sort_by_start ms = Ok l ∧ l ≡ₚ ms ∧ StronglySorted (λ a b, start_us a <= start_us b) l.
Proof.
  intros Hms. unfold sort_by_start. assert (existsb is_naive ms = false) as ->.
  { apply not_true_iff_false. intros (m&Hin&Hm)%existsb_exists. rewrite Hms in Hm by by apply list_elem_of_In. done. }
  eexists. split; [done|]. split; [apply sorted_by_perm|]. apply sorted_by_sorted.
Qed.

(** The manifest directory follows the runs: after any history of writes,
    with processes that died while they wrote, reading a run id gives the last
    manifest written under it or reports that there is none; the listing holds
    the last manifest of every id exactly once and nothing else, and it is
    sorted by start if every start carries its offset. *)
Theorem manifests_follow_history (h : list event) :
  let fs := directory_after h in
  (∀ id, read_manifest of_json fs id = match last_written h id with Some m => Ok m | None => Raise FileNotFoundError end) ∧
  (∀ m, m ∈ readable of_json fs ↔ last_written h (mf_collector_run_id m) = Some m) ∧
  NoDup (mf_collector_run_id <$> readable of_json fs) ∧
  ((∀ m, Written m ∈ h → is_naive m = false) → ∃ l, list_manifests of_json fs = Ok l ∧ l ≡ₚ readable of_json fs ∧
     StronglySorted (λ a b, start_us a <= start_us b) l).
Proof.
  intros fs. destruct (directory_follows h) as [Hr Hn]. fold fs in Hr, Hn.
  assert (∀ name text m, fs !! name = Some text → is_manifest_name name = true → of_json text = Ok m →
    name = manifest_name (mf_collector_run_id m) ∧ last_written h (mf_collector_run_id m) = Some m) as Hfile.
  { intros name text m Hl Hname Hj. destruct (Hn name (mk_is_Some _ _ Hl) Hname) as [id ->]. rewrite Hr in Hl.
    apply fmap_Some in Hl as (m'&Hm'&->). rewrite json_round_trip in Hj. apply Ok_inj in Hj as ->.
    by rewrite (last_written_id _ _ _ Hm'). }
  assert (∀ m, m ∈ readable of_json fs ↔ last_written h (mf_collector_run_id m) = Some m) as Helem.
  { intros m. rewrite elem_of_readable. split.
    - intros (name&text&Hl&Hname&Hj). by apply (Hfile name text).
    - intros Hm. exists (manifest_name (mf_collector_run_id m)), (to_json m). rewrite Hr, Hm.
      split_and!; [done|apply is_manifest_name_ok|apply json_round_trip]. }
  split_and!.
  - intros id. unfold read_manifest. rewrite Hr. destruct (last_written h id); simpl; [apply json_round_trip|done].
  - exact Helem.
  - apply readable_nodup. intros name text m Hl Hname Hj. by apply (Hfile name text m).
  - intros Haware. apply aware_sorts. intros m Hm%Helem. apply Haware. revert Hm. generalize (mf_collector_run_id m) as id. clear.
    intros id. induction h as [|e h' IH] using rev_ind; [done|]. rewrite last_written_snoc, elem_of_app.
    destruct e as [m'|]; [|auto]. destruct (String.eqb _ _); [|auto]. intros [= <-]. right. by apply list_elem_of_singleton.
Qed.
End history.

(** A toy JSON: the position of a manifest in a list *)
Definition run_a : CollectorManifest := MkManifest "a" (Aware 20) "bithumb" ["KRW-BTC"] ["transaction"] Explicit None None.
Definition run_a' : CollectorManifest := MkManifest "a" (Aware 40) "bithumb" ["KRW-ETH"] ["transaction"] Explicit None None.
Definition run_b : CollectorManifest := MkManifest "b" (Naive 30) "upbit" ["KRW-ETH"] ["transaction"] Explicit None None.

(** One manifest whose start has no offset breaks the listing of all: the
    coverage report, which means to survive unreadable manifests, fails. *)
Lemma naive_start_breaks_listing (to_json : CollectorManifest → string) (of_json : string → res CollectorManifest) :
  (∀ m, of_json (to_json m) = Ok m) → list_manifests of_json (directory_after to_json [Written run_a; Written run_b]) = Raise TypeError.
Proof.
  intros Hj. destruct (directory_follows to_json [Written run_a; Written run_b]) as [Hr Hn].
  unfold list_manifests, sort_by_start.
  assert (∀ m, last_written [Written run_a; Written run_b] (mf_collector_run_id m) = Some m → m ∈ readable of_json (directory_after to_json [Written run_a; Written run_b])) as Hin.
  { intros m Hm. apply elem_of_readable. exists (manifest_name (mf_collector_run_id m)), (to_json m). rewrite Hr, Hm.
    split_and!; [done|apply is_manifest_name_ok|apply Hj]. }
  pose proof (Hin run_a eq_refl) as Ha. pose proof (Hin run_b eq_refl) as Hb.
  assert (existsb is_naive (readable of_json (directory_after to_json [Written run_a; Written run_b])) = true) as ->.
  { apply existsb_exists. exists run_b. split; [by apply list_elem_of_In|done]. }
  assert (forallb is_naive (readable of_json (directory_after to_json [Written run_a; Written run_b])) = false) as ->; [|done].
  apply not_true_iff_false. intros Hall. rewrite forallb_forall in Hall. by specialize (Hall run_a (proj1 (list_elem_of_In _ _) Ha)).
Qed.

(** *** A concrete text: the bits of a code of the manifest *)

#[local] Instance datetime_eq_dec : EqDecision datetime. Proof. solve_decision. Defined.
#[local] Instance selection_eq_dec : EqDecision selection. Proof. solve_decision. Defined.
#[local] Instance manifest_eq_dec : EqDecision CollectorManifest. Proof. solve_decision. Defined.
#[local] Instance datetime_countable : Countable datetime.
Proof. by refine (inj_countable' (λ t, match t with Aware us => inl us | Naive us => inr us end) (λ x, match x with inl us => Aware us | inr us => Naive us end) _); intros []. Defined.
#[local] Instance selection_countable : Countable selection.
Proof. by refine (inj_countable' (λ t, match t with Explicit => true | TopNVolume => false end) (λ b : bool, if b then Explicit else TopNVolume) _); intros []. Defined.
#[local] Instance manifest_countable : Countable CollectorManifest.
Proof.
  by refine (inj_countable' (λ m, (mf_collector_run_id m, mf_started_at_utc m, mf_exchange m, mf_selected_symbols m, mf_channels m, mf_selection_method m, mf_top_n m, mf_node_id m))
    (λ '(a, b, c, d, e, f, g, n), MkManifest a b c d e f g n) _); intros [].
Defined.
Fixpoint toy_bits (p : positive) : string := match p with xH => "" | xO p => String "0" (toy_bits p) | xI p => String "1" (toy_bits p) end.
Fixpoint of_toy_bits (s : string) : positive := match s with EmptyString => xH | String c s => if Ascii.eqb c "0" then xO (of_toy_bits s) else xI (of_toy_bits s) end.
Lemma toy_bits_back p : of_toy_bits (toy_bits p) = p.
Proof. induction p as [p IH|p IH|]; simpl; rewrite ?IH; done. Qed.
Definition toy_json (m : CollectorManifest) : string := toy_bits (countable.encode m).
Definition of_toy_json (s : string) : res CollectorManifest := match countable.decode (of_toy_bits s) with Some m => Ok m | None => Raise ValueError end.
Lemma toy_round_trip m : of_toy_json (toy_json m) = Ok m.
Proof. unfold of_toy_json, toy_json. by rewrite toy_bits_back, decode_encode. Qed.

Lemma manifests_follow_history_witness :
  let fs := directory_after toy_json [Written run_a; Died run_a' "{" 1; Written run_b; Written run_a'; Died run_a "x" 2] in
  read_manifest of_toy_json fs "a" = Ok run_a' ∧ read_manifest of_toy_json fs "c" = Raise FileNotFoundError ∧ run_a' ∈ readable of_toy_json fs.
Proof.
  destruct (manifests_follow_history toy_json of_toy_json toy_round_trip [Written run_a; Died run_a' "{" 1; Written run_b; Written run_a'; Died run_a "x" 2]) as (Hread&Hin&_).
  split; [exact (Hread "a")|]. split; [exact (Hread "c")|]. apply Hin. reflexivity.
Defined.

(** ** Gaps *)

(** A gap is put down to a node exactly if some heartbeat says
    disconnected or is as old as the limit, provided every heartbeat's time
    carries its offset or is not a time at all. *)
Theorem classify_gap_spec (now_wall fresh_red_us : Z) (hbs : list heartbeat) :
  (∀ hb, hb ∈ hbs → res_is_ok (staleness now_wall hb) = true) →
  ∃ c, classify_gap now_wall fresh_red_us hbs = Ok c ∧
    (c = LIKELY_NODE_DOWN ↔ ∃ hb, hb ∈ hbs ∧ (disconnected hb = true ∨ ∃ age, staleness now_wall hb = Ok (Some age) ∧ fresh_red_us <= age)).
Proof.
  intros Hok. induction hbs as [|hb hbs IH]; simpl.
  { exists UNKNOWN. split; [done|]. split; [done|]. by intros (?&?%not_elem_of_nil&_). }
  destruct IH as (c&Hc&Hspec); [intros; apply Hok; by right|].
  specialize (Hok hb ltac:(by left)). destruct (staleness now_wall hb) as [age|] eqn:Hs; [|done]. simpl.
  destruct (disconnected hb) eqn:Hd; [exists LIKELY_NODE_DOWN; split; [done|]; split; [|done]; intros _; exists hb; split; [by left|by left]|].
  destruct (match age with Some a => fresh_red_us <=? a | None => false end) eqn:Hage.
  - exists LIKELY_NODE_DOWN. split; [done|]. split; [|done]. intros _. exists hb. split; [by left|]. right.
    destruct age as [a|]; [|done]. exists a. split; [done|]. by apply Z.leb_le.
  - exists c. split; [done|]. rewrite Hspec. split; intros (hb'&Hin&Hbad); [exists hb'; split; [by right|done]|].
    apply elem_of_cons in Hin as [->|Hin]; [|by exists hb']. exfalso. destruct Hbad as [?|(a&Ha&Hle)]; [congruence|].
    rewrite Hs in Ha. injection Ha as ->. apply Z.leb_gt in Hage. lia.
Qed.

(** A heartbeat whose time has no offset ends the classification with
    [TypeError], also where a later node is down. *)
Example naive_heartbeat_is_fatal :
  classify_gap 0 30000000 [MkHeartbeat (Some "connected") (NowText "2026-05-05T22:34:56"); MkHeartbeat (Some "disconnected") NowMissing] = Raise TypeError.
Proof. vm_compute. reflexivity. Qed.

Lemma classify_gap_spec_witness :
  let now := 1767225660000000 in
  let hbs := [MkHeartbeat (Some "connected") (NowText "2026-01-01T00:00:50Z"); MkHeartbeat None NowOther; MkHeartbeat (Some "connected") (NowText "2026-01-01T00:00:20Z")] in
  ∃ c, classify_gap now 30000000 hbs = Ok c ∧ c = LIKELY_NODE_DOWN.
Proof.
  destruct (classify_gap_spec 1767225660000000 30000000
    [MkHeartbeat (Some "connected") (NowText "2026-01-01T00:00:50Z"); MkHeartbeat None NowOther; MkHeartbeat (Some "connected") (NowText "2026-01-01T00:00:20Z")]) as (c&Hc&Hspec).
  { intros hb [->|[->|[->|?%not_elem_of_nil]%elem_of_cons]%elem_of_cons]%elem_of_cons; [vm_compute; reflexivity..|done]. }
  exists c. split; [exact Hc|]. apply Hspec. eexists. split; [right; right; left|]. right. exists 40000000. split; [vm_compute; reflexivity|lia].
Defined.

Lemma node_run_ids_differ_witness :
  derive_collector_run_id (λ s, s) 1767225600100000 "bithumb" [] (Some "NODE_A") ≠ derive_collector_run_id (λ s, s) 1767225601900000 "bithumb" [] (Some "NODE_A").
Proof.
  intros Heq. apply (node_run_ids_differ (λ s, s) 1767225600100000 1767225601900000 "bithumb" "bithumb" [] [] "NODE_A" "NODE_A") in Heq as [_ Ht];
    [vm_compute in Ht; discriminate|vm_compute; intuition congruence|vm_compute; intuition congruence].
Defined.
