(* ===== verification/SnapshotScan.v ===== *)
(** * Reading order-book snapshots back ([storage.scan_orderbook_snapshots],
    [orderbook_replay._load_baseline_from_d14])

    The scan of the snapshot partitions a [SnapshotWriter] fills, and the
    baseline the replay takes from it.  Row times without an offset are read as
    UTC, so a time is its microseconds.  Below a missing directory there is no
    file. *)
From S2P Require Import Prelude PyDict PyDecimal NasKey Wal PyTime DecimalText Parquet.
From S2P Require BatchWriters CandleStore OrderbookReplay PyFloat.
Import BatchWriters(OrderbookSnapshotRecord, MkOrderbookSnapshotRecord, os_ts_utc, os_received_at, os_exchange, os_symbol,
  os_baseline_seq, os_side, os_level, os_price, os_quantity, os_payload_hash, os_raw_json, writer_config, wc_root, wc_exchange, wc_symbol,
  snapshot_event, se_event_time, se_received_at, se_bids, se_asks, snapshot_event_to_snapshot_records, side_records,
  ORDERBOOK_SNAPSHOT_SCHEMA_VERSION, parquet_files, snapshot_class).
Import OrderbookReplay(snap_row, SnapRow, s_ts, s_baseline_seq, s_side, s_price, s_quantity, book, books, Books, bk_bids, bk_asks,
  load_baseline, on_side, set_if_positive, day_us, date_range).
Open Scope py_scope.
Open Scope string_scope.
Open Scope list_scope.
Open Scope Z_scope.

Notation path := (list string).
Notation disk := (gmap path bytes).

(** ** The scan *)

Section scan.
Context `{Parquet OrderbookSnapshotRecord}.

Definition snapshot_root (root : path) (exchange symbol : string) : path :=
  root ++ ["market"; "orderbook_snapshot"; "schema_version=" +:+ ORDERBOOK_SNAPSHOT_SCHEMA_VERSION; "exchange=" +:+ exchange; "symbol=" +:+ symbol].

(** The rows of a day's directory: its files sorted, unreadable ones skipped *)
Definition date_rows (snap_root : path) (d : disk) (day : Z) : list OrderbookSnapshotRecord :=
  concat ((λ p, match d !! p with
                | Some b => match pq_rows b with Ok rows => rows | Raise _ => [] end
                | None => [] end) <$> parquet_files (snap_root ++ ["date=" +:+ isoformat day]) d).

Definition in_window (start stop : Z) (simulated_clock : option Z) (r : OrderbookSnapshotRecord) : bool :=
  (start <=? os_ts_utc r) && (os_ts_utc r <? stop) && match simulated_clock with Some c => os_received_at r <=? c | None => true end.
(** [sort(key=lambda x: (x[0], x[1]))] *)
Definition row_leb (a b : OrderbookSnapshotRecord) : bool :=
  (os_ts_utc a <? os_ts_utc b) || (os_ts_utc a =? os_ts_utc b) && (os_baseline_seq a <=? os_baseline_seq b).
(** [Dec(str(x))] *)
Definition reread (x : decimal) : decimal := match decimal_of_text (decimal_text x) with Ok (Num y) => y | _ => x end.
Definition to_record (r : OrderbookSnapshotRecord) : OrderbookSnapshotRecord :=
  MkOrderbookSnapshotRecord (os_ts_utc r) (os_received_at r) (os_exchange r) (os_symbol r) (os_baseline_seq r) (os_side r) (os_level r)
    (reread (os_price r)) (reread (os_quantity r)) (os_payload_hash r) (os_raw_json r).

(** [scan_orderbook_snapshots]; [tz_aware]: do both bounds carry an offset? *)
Definition scan_orderbook_snapshots (root : path) (exchange symbol : string) (tz_aware : bool) (start stop : Z) (clock : option Z) (d : disk)
  : res (list OrderbookSnapshotRecord) :=
  if negb tz_aware then Raise ValueError else
  let snap_root := snapshot_root root exchange symbol in
  let rows_all := List.filter (in_window start stop clock) (concat (date_rows snap_root d <$> date_range start stop)) in
  Ok (to_record <$> sort_le row_leb rows_all).

(** [_load_baseline_from_d14] over the scan of the day *)
Definition to_snap (r : OrderbookSnapshotRecord) : snap_row :=
  SnapRow (os_ts_utc r) (os_baseline_seq r) (os_side r) (os_price r) (os_quantity r).
Definition load_baseline_from_d14 (root : path) (exchange symbol : string) (day_start : Z) (clock : option Z) (d : disk) : option (Z * books) :=
  load_baseline (let? rs := scan_orderbook_snapshots root exchange symbol true day_start (day_start + day_us) clock d in Ok (to_snap <$> rs)).
End scan.

(** ** Lemmas *)

Lemma to_record_id r : to_record r = r.
Proof. destruct r. unfold to_record, reread. simpl. by rewrite !decimal_text_round_trip. Qed.

Lemma row_order_total a b : row_leb a b = true ∨ row_leb b a = true.
Proof. unfold row_leb. lia. Qed.
Lemma row_order_trans a b c : row_leb a b = true → row_leb b c = true → row_leb a c = true.
Proof. unfold row_leb. lia. Qed.


Section contract.
Context `{ParquetLaws OrderbookSnapshotRecord}.

(** The scan returns, in order of time and then of sequence number,
    every row of the readable files in the directories of the days of the
    window that lies in the window and had been received by the clock, as often
    as it is stored, unchanged, and nothing else. *)
Theorem snapshot_scan_spec (root : path) (exchange symbol : string) (start stop : Z) (clock : option Z) (d : disk) :
  ∃ rs, scan_orderbook_snapshots root exchange symbol true start stop clock d = Ok rs ∧
    rs ≡ₚ List.filter (in_window start stop clock) (concat (date_rows (snapshot_root root exchange symbol) d <$> date_range start stop)) ∧
    StronglySorted (λ a b, row_leb a b = true) rs ∧ (∀ r, r ∈ rs → start <= os_ts_utc r < stop ∧ match clock with Some c => os_received_at r <= c | None => True end).
Proof.
  eexists. split; [reflexivity|].
  assert (∀ l, to_record <$> l = l) as -> by (intros l; induction l as [|r l IH]; [done|]; cbn; by rewrite to_record_id, IH).
  split; [apply sort_le_perm|]. split; [apply sort_le_sorted; [apply row_order_total|apply row_order_trans]|].
  intros r Hr. rewrite sort_le_perm in Hr. apply list_elem_of_In, filter_In in Hr as [_ Hr]. unfold in_window in Hr. destruct clock; lia.
Qed.
End contract.

(** The baseline is the group of the greatest sequence number. *)
Lemma load_baseline_greatest (rs : list snap_row) t : (∃ r, r ∈ rs ∧ s_baseline_seq r = t) → (∀ r, r ∈ rs → s_baseline_seq r <= t) →
  load_baseline (Ok rs) = match List.filter (λ r, s_baseline_seq r =? t) rs with
    | [] => None
    | g :: gs => Some (s_ts g, foldl (λ b r, on_side (s_side r) (set_if_positive (s_price r) (s_quantity r)) b) (Books [] []) (g :: gs))
    end.
Proof.
  intros (r0&Hr0&Ht) Hmax. destruct rs as [|r rs]; [by apply elem_of_nil in Hr0|]. unfold load_baseline.
  assert (foldr (λ r m, Z.max (s_baseline_seq r) m) (s_baseline_seq r) rs = t) as ->; [|by destruct (List.filter _ (r :: rs))].
  assert (∀ r', r' ∈ r :: rs → s_baseline_seq r' <= foldr (λ r m, Z.max (s_baseline_seq r) m) (s_baseline_seq r) rs) as Hge.
  { intros r' [->|Hin]%elem_of_cons; [clear; induction rs; simpl; lia|]. clear -Hin. induction Hin; simpl; lia. }
  assert (foldr (λ r m, Z.max (s_baseline_seq r) m) (s_baseline_seq r) rs <= t) as Hle.
  { assert (∀ l, (∀ x, x ∈ l → s_baseline_seq x <= t) → foldr (λ r m, Z.max (s_baseline_seq r) m) (s_baseline_seq r) l <= t) as Hl.
    { induction l as [|x l IH]; intros Hx; simpl; [apply Hmax; by left|]. specialize (IH ltac:(intros; apply Hx; by right)).
      specialize (Hx x ltac:(by left)). lia. }
    apply Hl. intros x Hx. apply Hmax. by right. }
  specialize (Hge r0 Hr0). lia.
Qed.

(** ** What was recorded is the baseline *)

(** The book of an event: levels of quantity zero are left out, of two levels
    of one price the later one stands. *)
Definition book_of (levels : list (decimal * decimal)) : book := foldl (λ b l, set_if_positive l.1 l.2 b) [] levels.
Definition books_of (e : snapshot_event) : books := Books (book_of (se_bids e)) (book_of (se_asks e)).

Section baseline.
Context (payload_hash : string → string → Z → list (decimal * decimal) → list (decimal * decimal) → string).
Notation records := (snapshot_event_to_snapshot_records payload_hash).
Notation apply_row := (λ b r, on_side (s_side r) (set_if_positive (s_price r) (s_quantity r)) b).

Lemma records_of e r : r ∈ records e → os_ts_utc r = se_event_time e ∧ os_baseline_seq r = PyFloat.baseline_seq (se_event_time e) ∧ os_received_at r = se_received_at e.
Proof.
  unfold snapshot_event_to_snapshot_records, side_records. rewrite elem_of_app.
  by intros [(i&l&->&_)%elem_of_lookup_imap|(i&l&->&_)%elem_of_lookup_imap].
Qed.

Lemma fold_side side (levels : list (decimal * decimal)) : ∀ (f : nat → decimal * decimal → OrderbookSnapshotRecord) b,
  (∀ i l, os_side (f i l) = side ∧ os_price (f i l) = l.1 ∧ os_quantity (f i l) = l.2) →
  foldl apply_row b (to_snap <$> imap f levels) = on_side side (λ k, foldl (λ k l, set_if_positive l.1 l.2 k) k levels) b.
Proof.
  induction levels as [|l levels IH]; intros f b Hf; cbn; [unfold on_side; destruct b; by destruct (String.eqb side "bid")|].
  rewrite IH by (intros; apply Hf). destruct (Hf 0%nat l) as (->&->&->). unfold on_side. by destruct (String.eqb side "bid").
Qed.

Lemma fold_records e : foldl apply_row (Books [] []) (to_snap <$> records e) = books_of e.
Proof.
  unfold snapshot_event_to_snapshot_records, side_records. rewrite fmap_app, foldl_app.
  rewrite (fold_side "ask") by done. rewrite (fold_side "bid") by done. reflexivity.
Qed.

Lemma row_leb_equal x y : os_ts_utc x = os_ts_utc y → os_baseline_seq x = os_baseline_seq y → row_leb x y = true.
Proof. unfold row_leb. lia. Qed.

Lemma filter_ext_in {A} (p q : A → bool) (l : list A) : (∀ x, x ∈ l → p x = q x) → List.filter p l = List.filter q l.
Proof. intros Hpq. apply List.filter_ext_in. intros x Hx. by apply Hpq, list_elem_of_In. Qed.

(** The rows of one instant in a list of recorded events, if only one of them
    is visible at it *)
Lemma group_of_event (vis : OrderbookSnapshotRecord → bool) (l1 l2 : list snapshot_event) e t :
  se_event_time e = t → (∀ r, r ∈ records e → vis r = true) →
  (∀ e' r, e' ∈ l1 ++ l2 → r ∈ records e' → vis r = true → os_ts_utc r ≠ t) →
  List.filter (λ r, os_ts_utc r =? t) (List.filter vis (concat (records <$> (l1 ++ e :: l2)))) = records e.
Proof.
  intros Ht Hvis Hothers.
  assert (∀ l, (∀ e', e' ∈ l → e' ∈ l1 ++ l2) → List.filter (λ r, os_ts_utc r =? t) (List.filter vis (concat (records <$> l))) = []) as Hnone.
  { intros l Hl. apply filter_none. intros r [Hr Hv]%list_elem_of_In%filter_In.
    apply list_elem_of_In, list_elem_of_In, List.in_concat in Hr as (rs&Hrs&Hr).
    apply list_elem_of_In, list_elem_of_fmap in Hrs as (e'&->&He'). apply list_elem_of_In in Hr.
    apply Z.eqb_neq. by apply (Hothers e' r); [apply Hl| |]. }
  rewrite fmap_app, concat_app, !List.filter_app, Hnone by (intros; apply elem_of_app; by left). cbn [app fmap list_fmap concat].
  rewrite !List.filter_app, Hnone by (intros; apply elem_of_app; by right). rewrite app_nil_r.
  rewrite (filter_all vis) by done. apply filter_all. intros r Hr. destruct (records_of _ _ Hr) as (->&_). by apply Z.eqb_eq.
Qed.

(** The baseline of sorted rows whose sequence number is their time *)
Lemma baseline_of_rows (rows : list OrderbookSnapshotRecord) t : (∀ r, r ∈ rows → os_baseline_seq r = os_ts_utc r) →
  (∃ r, r ∈ rows ∧ os_ts_utc r = t) → (∀ r, r ∈ rows → os_ts_utc r <= t) →
  load_baseline (Ok (to_snap <$> sort_le row_leb rows)) =
    Some (t, foldl apply_row (Books [] []) (to_snap <$> List.filter (λ r, os_ts_utc r =? t) rows)).
Proof.
  intros Hseq (r0&Hr0&Ht) Hmax.
  assert (∀ x, x ∈ sort_le row_leb rows ↔ x ∈ rows) as Hin by (intros x; by rewrite sort_le_perm).
  rewrite (load_baseline_greatest _ t).
  2:{ exists (to_snap r0). split; [by apply list_elem_of_fmap_2, Hin|]. simpl. by rewrite Hseq. }
  2:{ intros r (x&->&Hx%Hin)%list_elem_of_fmap. simpl. rewrite Hseq by done. by apply Hmax. }
  assert (List.filter (λ r, s_baseline_seq r =? t) (to_snap <$> sort_le row_leb rows) = to_snap <$> List.filter (λ r, os_ts_utc r =? t) rows) as ->.
  { assert (List.filter (λ r, os_ts_utc r =? t) rows = List.filter (λ r, (os_ts_utc r =? t) && (os_baseline_seq r =? t)) rows) as ->.
    { apply filter_ext_in. intros x Hx. rewrite Hseq by done. by destruct (os_ts_utc x =? t). }
    rewrite <- (sort_le_stable row_leb) by (intros x y; intros; apply row_leb_equal; lia).
    generalize (λ x (Hx : x ∈ sort_le row_leb rows), Hseq x (proj1 (Hin x) Hx)). generalize (sort_le row_leb rows). clear. intros l Hl.
    induction l as [|x l IH]; [done|]. cbn. rewrite (Hl x) by by left. rewrite IH by (intros; apply Hl; by right).
    by destruct (os_ts_utc x =? t). }
  assert (r0 ∈ List.filter (λ r, os_ts_utc r =? t) rows) as Hg by (apply list_elem_of_In, filter_In; split; [by apply list_elem_of_In|by apply Z.eqb_eq]).
  destruct (List.filter (λ r, os_ts_utc r =? t) rows) as [|g gs] eqn:Hfil; [by apply elem_of_nil in Hg|].
  assert (os_ts_utc g = t) as Hgt.
  { assert (g ∈ List.filter (λ r, os_ts_utc r =? t) rows) as Hg' by (rewrite Hfil; by left). apply list_elem_of_In, filter_In in Hg' as [_ ?]. lia. }
  cbn [fmap list_fmap]. by rewrite <- Hgt at 1.
Qed.
End baseline.

(** *** The files of one day *)

Section files.
Context `{ParquetLaws OrderbookSnapshotRecord} (fits : OrderbookSnapshotRecord → bool) (cfg : writer_config).
Notation cls := (snapshot_class fits).
Notation sroot := (snapshot_root (wc_root cfg) (wc_exchange cfg) (wc_symbol cfg)).
Notation entry_path := (BatchWriters.entry_path cls cfg).

Lemma snapshot_entry_path (e : BatchWriters.entry) :
  entry_path e = sroot ++ ("date=" +:+ isoformat (BatchWriters.e_day e)) :: BatchWriters.node_level cfg ++ [BatchWriters.file_name_of cfg (BatchWriters.e_seq e)].
Proof. unfold BatchWriters.entry_path, snapshot_root. simpl. unfold BatchWriters.snapshot_partition. by rewrite <- !app_assoc. Qed.

Lemma below_day (day : Z) (e : BatchWriters.entry) : date_in_range day → date_in_range (BatchWriters.e_day e) →
  BatchWriters.parquet_below (sroot ++ ["date=" +:+ isoformat day]) (entry_path e) = true ↔ day = BatchWriters.e_day e.
Proof.
  intros Hd He. unfold BatchWriters.parquet_below. rewrite snapshot_entry_path. split.
  - destruct (BatchWriters.below _ _) as [rest|] eqn:Hb; [|done]. intros _. apply BatchWriters.below_Some in Hb.
    rewrite <- app_assoc in Hb. apply app_inv_head in Hb. apply BatchWriters.cons_head, (string_app_inj_l "date=") in Hb.
    by apply BatchWriters.isoformat_inj.
  - intros ->. rewrite (proj2 (BatchWriters.below_Some _ _ (BatchWriters.node_level cfg ++ [BatchWriters.file_name_of cfg (BatchWriters.e_seq e)]))) by by rewrite <- app_assoc.
    rewrite last_snoc. apply BatchWriters.file_name_parquet.
Qed.

Lemma below_inside (day : Z) (p : path) : BatchWriters.parquet_below (sroot ++ ["date=" +:+ isoformat day]) p = true → ∃ rest, p = sroot ++ rest.
Proof.
  unfold BatchWriters.parquet_below. destruct (BatchWriters.below _ _) as [rest|] eqn:Hb; [|done]. intros _.
  apply BatchWriters.below_Some in Hb as ->. rewrite <- app_assoc. by eexists.
Qed.

Lemma date_rows_none (d : disk) day : (∀ p, is_Some (d !! p) → BatchWriters.parquet_below (sroot ++ ["date=" +:+ isoformat day]) p = true → False) →
  date_rows sroot d day = [].
Proof.
  intros Hno. unfold date_rows. assert (parquet_files (sroot ++ ["date=" +:+ isoformat day]) d = []) as ->; [|done].
  destruct (parquet_files _ d) as [|p l] eqn:Hp; [done|]. exfalso.
  assert (p ∈ parquet_files (sroot ++ ["date=" +:+ isoformat day]) d) as Hin by (rewrite Hp; by left).
  apply CandleStore.elem_of_parquet_files in Hin as [Hs Hb]. by apply (Hno p).
Qed.

(** The directories of a day and of the next hold what one closed writer of
    that day was given. *)
Lemma day_rows_stored (base d : disk) hist files day :
  date_in_range day → date_in_range (day + 1) → Forall (λ r, BatchWriters.utc_day (os_ts_utc r) = day) hist →
  (∀ rest, base !! (sroot ++ rest) = None) → BatchWriters.stored cls cfg base hist files d →
  concat (date_rows sroot d <$> date_range (day * day_us) (day * day_us + day_us)) = hist.
Proof.
  intros Hday Hday' Hhist Hbase (Hrows&_&Hfiles&Hframe&Hone). specialize (Hone day Hhist).
  assert (date_range (day * day_us) (day * day_us + day_us) = [day; day + 1]) as ->.
  { unfold date_range, OrderbookReplay.day_of. assert (day_us ≠ 0) by done. replace (day * day_us + day_us) with ((day + 1) * day_us) by lia.
    rewrite !Z.div_mul by done. replace (day + 1 - day + 1) with 2 by lia. change (seqZ day 2) with [0 + day; 1 + day]. by rewrite Z.add_0_l, (Z.add_comm 1 day). }
  cbn [fmap list_fmap concat]. rewrite app_nil_r.
  destruct files as [|e [|e' files]]; [| |simpl in Hone; lia].
  - cbn in Hrows. subst hist. rewrite !date_rows_none; [done|..];
      intros p [b Hp] (rest&->)%below_inside; rewrite Hframe, Hbase in Hp; try done; apply not_elem_of_nil.
  - cbn in Hrows. rewrite app_nil_r in Hrows. destruct (Hfiles e ltac:(by left)) as [He Hhead].
    assert (BatchWriters.e_day e = day) as Heday.
    { rewrite Hrows in Hhead. destruct hist as [|r hist]; [done|]. apply Forall_cons in Hhist as [Hr _]. simpl in Hhead. injection Hhead as Hhead. by rewrite Hr in Hhead. }
    assert (∀ p, is_Some (d !! p) → ∀ k, BatchWriters.parquet_below (sroot ++ ["date=" +:+ isoformat k]) p = true → p = entry_path e) as Honly.
    { intros p [b Hp] k (rest&->)%below_inside. destruct (decide (sroot ++ rest = entry_path e)) as [->|Hne]; [done|].
      rewrite Hframe, Hbase in Hp; [done|]. by intros ?%list_elem_of_singleton. }
    rewrite (date_rows_none d (day + 1)).
    + unfold date_rows. rewrite (CandleStore.parquet_files_singleton _ d (entry_path e)).
      * cbn [fmap list_fmap concat]. rewrite He, pq_rows_write, Hrows. by rewrite !app_nil_r.
      * intros q. rewrite CandleStore.elem_of_parquet_files. split; [intros [Hs Hb]; by apply (Honly q Hs day)|].
        intros ->. split; [by eexists|]. apply below_day; congruence.
    + intros p Hs Hb. pose proof (Honly p Hs _ Hb) as ->. apply below_day in Hb; [lia|congruence|congruence].
Qed.
End files.

Section composed.
Context (payload_hash : string → string → Z → list (decimal * decimal) → list (decimal * decimal) → string).
Context `{ParquetLaws OrderbookSnapshotRecord}.
Notation records := (snapshot_event_to_snapshot_records payload_hash).

(** Events of one day: any of their rows can be stored. *)
Lemma one_day_legal fits cfg (evs : list (snapshot_event * Z)) day : date_in_range day →
  (∀ ev, ev ∈ evs → BatchWriters.utc_day (se_event_time ev.1) = day ∧ Forall (λ r, fits r = true) (records ev.1)) →
  ∀ rs, rs `sublist_of` concat ((λ p, records p.1) <$> evs) →
  BatchWriters.legal (snapshot_class fits) cfg ([] ++ rs) ∧ Forall (λ r, BatchWriters.utc_day (os_ts_utc r) = day) rs.
Proof.
  intros Hday Hevs rs Hrs. assert (∀ r, r ∈ rs → fits r = true ∧ BatchWriters.utc_day (os_ts_utc r) = day) as Hr.
  { intros r Hin. eapply elem_of_sublist in Hin; [|exact Hrs]. apply list_elem_of_In, List.in_concat in Hin as (l&Hl&Hin).
    apply list_elem_of_In, list_elem_of_fmap in Hl as (ev&->&Hev). apply list_elem_of_In in Hin.
    destruct (Hevs ev Hev) as [Hd Hf]. rewrite Forall_forall in Hf. destruct (records_of _ _ _ Hin) as (->&_). auto. }
  split; [|apply Forall_forall; intros r Hin; by apply Hr]. split.
  - apply Forall_forall. intros r Hin. destruct (Hr r Hin) as [Hf Hd]. split; [done|]. simpl. by rewrite Hd.
  - right. simpl. clear Hrs. induction rs as [|r rs IH]; constructor; [apply IH; intros; apply Hr; by right|].
    apply Forall_forall. intros r' Hr'. simpl. destruct (Hr r) as [_ ->]; [by left|]. destruct (Hr r') as [_ ->]; [by right|]. lia.
Qed.

(** What the replay reads from rows that are the records of events of the day *)
Lemma baseline_read (root : path) (exchange symbol : string) (d : disk) (day clock : Z) (evs : list snapshot_event) :
  (∀ e, e ∈ evs → BatchWriters.utc_day (se_event_time e) = day) →
  concat (date_rows (snapshot_root root exchange symbol) d <$> date_range (day * day_us) (day * day_us + day_us)) = concat (records <$> evs) →
  load_baseline_from_d14 root exchange symbol (day * day_us) (Some clock) d =
    load_baseline (Ok (to_snap <$> sort_le row_leb (List.filter (λ r, os_received_at r <=? clock) (concat (records <$> evs))))).
Proof.
  intros Hevs Hrows. unfold load_baseline_from_d14, scan_orderbook_snapshots. cbn [negb rbind]. rewrite Hrows.
  assert (∀ l, to_record <$> l = l) as -> by (intros l; induction l as [|r l IH]; [done|]; cbn; by rewrite to_record_id, IH).
  do 4 f_equal. apply filter_ext_in. intros r Hr. apply list_elem_of_In, List.in_concat in Hr as (l&Hl&Hr).
  apply list_elem_of_In, list_elem_of_fmap in Hl as (e&->&He). apply list_elem_of_In in Hr.
  destruct (records_of _ _ _ Hr) as (Ht&_). specialize (Hevs e He). unfold in_window, BatchWriters.utc_day, day_us in *. rewrite Ht.
  assert (BatchWriters.microseconds_per_day = 86400000000) as Hus by reflexivity. rewrite Hus in Hevs.
  pose proof (Z.div_mod (se_event_time e) 86400000000 ltac:(lia)). pose proof (Z.mod_pos_bound (se_event_time e) 86400000000 ltac:(lia)). lia.
Qed.

Lemma baseline_of_events clock (l1 l2 : list snapshot_event) e :
  (∀ e', e' ∈ l1 ++ e :: l2 → PyFloat.baseline_seq (se_event_time e') = se_event_time e') → records e ≠ [] → se_received_at e <= clock →
  (∀ e', e' ∈ l1 ++ l2 → se_received_at e' <= clock → se_event_time e' < se_event_time e) →
  load_baseline (Ok (to_snap <$> sort_le row_leb (List.filter (λ r, os_received_at r <=? clock) (concat (records <$> (l1 ++ e :: l2)))))) =
    Some (se_event_time e, books_of e).
Proof.
  intros Hexact Hne Hrec Hlast.
  assert (∀ r, r ∈ List.filter (λ r, os_received_at r <=? clock) (concat (records <$> (l1 ++ e :: l2))) →
    os_received_at r <= clock ∧ ∃ e', e' ∈ l1 ++ e :: l2 ∧ r ∈ records e') as Hin.
  { intros r [Hr Hc]%list_elem_of_In%filter_In. split; [lia|]. apply List.in_concat in Hr as (l&Hl&Hr).
    apply list_elem_of_In, list_elem_of_fmap in Hl as (e'&->&He'). exists e'. split; [done|]. by apply list_elem_of_In. }
  rewrite (baseline_of_rows _ (se_event_time e)).
  - rewrite (group_of_event payload_hash (λ r, os_received_at r <=? clock) l1 l2 e); [by rewrite fold_records|done|..].
    + intros r Hr. destruct (records_of _ _ _ Hr) as (_&_&->). by apply Z.leb_le.
    + intros e' r He' Hr Hv. destruct (records_of _ _ _ Hr) as (->&_&Hra). specialize (Hlast e' He'). lia.
  - intros r Hr. destruct (Hin r Hr) as (_&e'&He'&Hr'). destruct (records_of _ _ _ Hr') as (->&->&_). by apply Hexact.
  - destruct (records e) as [|r rs] eqn:Hr; [done|]. assert (r ∈ records e) as Hre by (rewrite Hr; by left). exists r.
    destruct (records_of _ _ _ Hre) as (Ht&_&Hra). split; [|done]. apply list_elem_of_In, filter_In. split; [|lia].
    apply List.in_concat. exists (records e). split; apply list_elem_of_In; [|done]. apply list_elem_of_fmap_2, elem_of_app. right. by left.
  - intros r Hr. destruct (Hin r Hr) as (Hc&e'&He'&Hr'). destruct (records_of _ _ _ Hr') as (->&_&Hra).
    apply elem_of_app in He' as [He'|[->|He']%elem_of_cons]; [|lia|]; apply Z.lt_le_incl, Hlast; try lia; apply elem_of_app; auto.
Qed.
End composed.

(** The days on which a double keeps the microseconds *)
Lemma day_before_2038 us day : 13032 <= day <= 24854 → BatchWriters.utc_day us = day → 2 ^ 50 < us < 2 ^ 31 * 1000000.
Proof.
  unfold BatchWriters.utc_day. assert (BatchWriters.microseconds_per_day = 86400000000) as -> by reflexivity. intros Hr <-.
  pose proof (Z.div_mod us 86400000000 ltac:(lia)). pose proof (Z.mod_pos_bound us 86400000000 ltac:(lia)). lia.
Qed.

(** C16.  Recording and replaying meet: a [SnapshotWriter] that is given the
    order-book events of one day, from 6 September 2005 to 18 January 2038, and
    then closed has stored a baseline for the day.  (On those days the double
    the sequence number goes through keeps the microseconds; see
    [L1Rows.baseline_seq_off_by_one] for later ones.)  What the replay reads with a clock is the book of the one event, among
    those the throttle let pass and that had been received by then, that
    happened last, with that event's time; it finds no baseline if none had
    been received. *)
Theorem recorded_book_is_the_baseline (payload_hash : string → string → Z → list (decimal * decimal) → list (decimal * decimal) → string)
    `{ParquetLaws OrderbookSnapshotRecord} (open_bytes : list OrderbookSnapshotRecord → bytes) (fits : OrderbookSnapshotRecord → bool)
    (cfg : writer_config) (base : disk) (evs : list (snapshot_event * Z)) (day : Z) :
  let records e := snapshot_event_to_snapshot_records payload_hash e in
  13032 <= day <= 24854 →
  (∀ ev, ev ∈ evs → BatchWriters.utc_day (se_event_time ev.1) = day ∧ Forall (λ r, fits r = true) (records ev.1)) →
  (∀ rest, base !! (snapshot_root (wc_root cfg) (wc_exchange cfg) (wc_symbol cfg) ++ rest) = None) →
  ∃ outs w d w' d',
    BatchWriters.append_events payload_hash open_bytes fits cfg evs (BatchWriters.SnapshotWriter BatchWriters.new_writer None, base) = ((w, d), Ok outs) ∧
    BatchWriters.close open_bytes (snapshot_class fits) cfg (BatchWriters.sw_writer w, d) = ((w', d'), Ok tt) ∧
    let stored := (BatchWriters.taken outs evs).*1 in
    let baseline clock := load_baseline_from_d14 (wc_root cfg) (wc_exchange cfg) (wc_symbol cfg) (day * day_us) (Some clock) d' in
    ∀ clock,
      (∀ l1 e l2, stored = l1 ++ e :: l2 → records e ≠ [] → se_received_at e <= clock →
         (∀ e', e' ∈ l1 ++ l2 → se_received_at e' <= clock → se_event_time e' < se_event_time e) →
         baseline clock = Some (se_event_time e, books_of e)) ∧
      ((∀ e, e ∈ stored → clock < se_received_at e) → baseline clock = None).
Proof.
  intros records Hrange Hevs Hbase. assert (date_in_range day ∧ date_in_range (day + 1)) as [Hday Hday'] by (unfold date_in_range; lia).
  pose proof (one_day_legal payload_hash fits cfg evs day Hday Hevs) as Hlegal.
  destruct (BatchWriters.throttle_run payload_hash open_bytes fits cfg base evs [] [] None (BatchWriters.SnapshotWriter BatchWriters.new_writer None) base)
    as (outs&files&cur&w&d&Hrun&_&Hk&Hopen&_&_); [intros; by apply Hlegal|done|apply BatchWriters.new_writer_kept|].
  set (stored := (BatchWriters.taken outs evs).*1).
  assert (concat ((λ p, records p.1) <$> BatchWriters.taken outs evs) = concat (records <$> stored)) as Hhist by (unfold stored; by rewrite <- list_fmap_compose).
  assert (concat ((λ p, records p.1) <$> BatchWriters.taken outs evs) `sublist_of` concat ((λ p, records p.1) <$> evs)) as Hsub by apply BatchWriters.taken_sublist.
  destruct (Hlegal _ Hsub) as [Hl Hd].
  destruct (BatchWriters.close_kept _ _ _ _ _ _ _ _ _ (BatchWriters.snapshot_dated fits cfg) Hl Hopen Hk) as (files'&w'&d'&Hclose&_&Hst).
  exists outs, w, d, w', d'. split; [exact Hrun|]. split; [exact Hclose|]. intros stored' baseline clock.
  pose proof (day_rows_stored fits cfg base d' _ files' day Hday Hday' Hd Hbase Hst) as Hrows. cbn [app] in Hrows. fold records in Hrows. rewrite Hhist in Hrows.
  assert (∀ e, e ∈ stored → BatchWriters.utc_day (se_event_time e) = day) as Hdays.
  { intros e ([e' t]&->&Hin)%list_elem_of_fmap. unfold BatchWriters.taken in Hin. apply list_elem_of_fmap in Hin as ([o p]&Heq&Hin).
    apply list_elem_of_filter in Hin as [_ Hin]. simpl in Heq. subst p. apply elem_of_zip_r in Hin. by apply (Hevs (e', t)). }
  unfold baseline. rewrite (baseline_read payload_hash _ _ _ d' day clock stored Hdays Hrows). split.
  - intros l1 e l2 Heq Hne Hrec Hlast. change stored' with stored in Heq. rewrite Heq. apply baseline_of_events; [|done..].
    intros e' He'. apply PyFloat.baseline_seq_exact, day_before_2038 with day; [done|]. apply Hdays. by rewrite Heq.
  - intros Hnone. rewrite filter_none; [done|]. intros r Hr. apply list_elem_of_In, List.in_concat in Hr as (l&Hl'&Hr).
    apply list_elem_of_In, list_elem_of_fmap in Hl' as (e&->&He). apply list_elem_of_In in Hr.
    destruct (records_of _ _ _ Hr) as (_&_&Hra). specialize (Hnone e He). lia.
Qed.

#[local] Existing Instances BatchWriters.snapshot_parquet BatchWriters.snapshot_parquet_laws.

Lemma recorded_book_is_the_baseline_witness :
  let e := BatchWriters.example_event 1100 102 in
  ∃ d', load_baseline_from_d14 ["data"] "bithumb" "KRW-BTC" (20000 * day_us) (Some (20000 * day_us + 2000000)) d' =
          Some (20000 * day_us + 1100000, Books [((102, 0), Dec 1 0)] [((103, 0), Dec 1 0)]) ∧
        load_baseline_from_d14 ["data"] "bithumb" "KRW-BTC" (20000 * day_us) (Some (20000 * day_us - 1)) d' = None.
Proof.
  intros e. destruct (recorded_book_is_the_baseline BatchWriters.example_hash BatchWriters.no_footer BatchWriters.any_fits
    BatchWriters.numbered_config ∅ BatchWriters.example_events 20000) as (outs&w&d&w'&d'&Hrun&_&Hbase).
  - vm_compute; intuition congruence.
  - apply Forall_forall. repeat constructor; vm_compute; reflexivity.
  - intros rest. apply lookup_empty.
  - assert (outs = [true; false; true]) as ->.
    { pose proof (f_equal snd Hrun) as Hs. rewrite (proj1 BatchWriters.throttle_keeps_the_first) in Hs. by apply Ok_inj in Hs. }
    exists d'. split.
    + destruct (Hbase (20000 * day_us + 2000000)) as [Hlast _].
      apply (Hlast [BatchWriters.example_event 0 100] e []); [reflexivity|discriminate|vm_compute; discriminate|].
      intros e' He' _. apply list_elem_of_singleton in He' as ->. vm_compute. reflexivity.
    + destruct (Hbase (20000 * day_us - 1)) as [_ Hnone]. apply Hnone.
      apply Forall_forall. repeat constructor; vm_compute; reflexivity.
Defined.
