(* ===== verification/Coverage.v ===== *)
(** * The coverage report ([orderbook_replay.tier_coverage])

    The files of the partitions of a tier name the runs and the nodes that
    wrote them; the report adds them, the time envelope of each node from the
    footers, and the manifests that list the symbol, to the gaps of the events.
    What a footer says of its first column is a parameter. *)
From S2P Require Import Prelude PyDict NasKey Wal PyTime Policy EndpointRouter Manifest.
From S2P Require BatchWriters CandleStore OrderbookReplay Dedup.
From Stdlib Require Import Ascii.
Import BatchWriters(parquet_files, parquet_below).
Import CandleStore(extract_node_id).
Open Scope py_scope.
Open Scope string_scope.
Open Scope list_scope.
Open Scope Z_scope.

Notation path := (list string).
Notation disk := (gmap path bytes).

(** ** What a file name tells *)

(** [fp.stem] of a Parquet file *)
Definition stem (p : path) : string := let name := default "" (last p) in String.substring 0 (String.length name - 8) name.
(** [s.rsplit("-", 1)[0]] where there is a dash *)
Fixpoint before_last_dash (s : string) : option string :=
  match s with
  | String c s' => match before_last_dash s' with
                   | Some r => Some (String c r)
                   | None => if Ascii.eqb c "-" then Some "" else None
                   end
  | EmptyString => None
  end.
Definition run_id_of (s : string) : string :=
  if startswith "part-" s then removeprefix "part-" s else default s (before_last_dash s).

(** ** The report *)

Record NodeCoverage := MkNodeCoverage { nc_min_ts_utc : option Z; nc_max_ts_utc : option Z; nc_collector_run_ids : list string }.
Record FullReport := MkFullReport {
  fr_times : OrderbookReplay.CoverageReport; fr_collector_run_ids : list string; fr_symbol_manifests : list string;
  fr_node_coverage : dict string NodeCoverage }.

Definition sorted_set (s : gset string) : list string := sort_le String.leb (elements s).

(** What the loop over the files collects: all runs, the runs and the files of
    each node *)
Record harvest := Harvest { hv_runs : gset string; hv_node_runs : dict string (gset string); hv_node_files : dict string (list path) }.
Definition harvest_file (h : harvest) (fp : path) : harvest :=
  let run := run_id_of (stem fp) in let node := extract_node_id fp in
  Harvest ({[run]} ∪ hv_runs h) (dset (hv_node_runs h) node ({[run]} ∪ default ∅ (dget (hv_node_runs h) node)))
    (dset (hv_node_files h) node (default [] (dget (hv_node_files h) node) ++ [fp])).
Definition harvest_files : list path → harvest := foldl harvest_file (Harvest ∅ [] []).

Section report.
(** The statistics of the first column in each row group: the least and the
    greatest value, where they are there and are times *)
Context (footer : bytes → res (list (option (option Z * option Z)))).

Definition lower (m : option Z) (x : option Z) : option Z :=
  match x with Some t => match m with Some y => if t <? y then Some t else m | None => Some t end | None => m end.
Definition upper (m : option Z) (x : option Z) : option Z :=
  match x with Some t => match m with Some y => if y <? t then Some t else m | None => Some t end | None => m end.
Definition widen (env : option Z * option Z) (group : option (option Z * option Z)) : option Z * option Z :=
  match group with Some (lo, hi) => (lower env.1 lo, upper env.2 hi) | None => env end.
(** [except (OSError, pa.ArrowException)] *)
Definition caught (e : exn) : bool := is_OSError e || match e with OtherException name => String.eqb name "ArrowInvalid" | _ => false end.
Fixpoint envelope (d : disk) (files : list path) (env : option Z * option Z) : res (option Z * option Z) :=
  match files with
  | [] => Ok env
  | fp :: files =>
      match (match d !! fp with Some b => footer b | None => Raise FileNotFoundError end) with
      | Ok groups => envelope d files (foldl widen env groups)
      | Raise e => if caught e then envelope d files env else Raise e
      end
  end.

Fixpoint node_coverages (d : disk) (node_runs : dict string (gset string)) (node_files : dict string (list path)) : res (dict string NodeCoverage) :=
  match node_files with
  | [] => Ok []
  | (node, files) :: rest =>
      let? env := envelope d files (None, None) in
      let? covs := node_coverages d node_runs rest in
      Ok ((node, MkNodeCoverage env.1 env.2 (sorted_set (default ∅ (dget node_runs node)))) :: covs)
  end.

(** The manifests that list the symbol; [except (OSError, ValueError)] *)
Definition symbol_manifests (of_json : string → res CollectorManifest) (manifests : files) (symbol : string) : res (list string) :=
  match list_manifests of_json manifests with
  | Ok ms => Ok ((λ m, manifest_name (mf_collector_run_id m)) <$> filter (λ m, symbol ∈ mf_selected_symbols m) ms)
  | Raise e => if is_OSError e then Ok [] else match e with ValueError => Ok [] | _ => Raise e end
  end.

(** [tier_coverage]: [event_ts] is what the scan of the tier yielded,
    [part_dirs] the partition directories of the days of the window. *)
Definition tier_coverage (of_json : string → res CollectorManifest) (event_ts : list Z) (threshold : Z) (part_dirs : list path)
    (symbol : string) (d : disk) (manifests : files) : res FullReport :=
  let h := harvest_files (concat ((λ dir, parquet_files dir d) <$> part_dirs)) in
  let? covs := node_coverages d (hv_node_runs h) (hv_node_files h) in
  let? ms := symbol_manifests of_json manifests symbol in
  Ok (MkFullReport (OrderbookReplay.tier_coverage event_ts threshold) (sorted_set (hv_runs h)) ms covs).
End report.

(** ** Lemmas *)

Lemma elem_of_sorted_set s x : x ∈ sorted_set s ↔ x ∈ s.
Proof. unfold sorted_set. by rewrite sort_le_perm, elem_of_elements. Qed.

Record harvested (fs : list path) (h : harvest) : Prop := {
  ha_runs r : r ∈ hv_runs h ↔ ∃ p, p ∈ fs ∧ run_id_of (stem p) = r;
  ha_wf : dict_wf (hv_node_files h);
  ha_files n : dget (hv_node_files h) n = match List.filter (λ p, String.eqb (extract_node_id p) n) fs with [] => None | l => Some l end;
  ha_node_runs n r : r ∈ default ∅ (dget (hv_node_runs h) n) ↔ ∃ p, p ∈ fs ∧ extract_node_id p = n ∧ run_id_of (stem p) = r }.

Lemma harvest_spec fs : harvested fs (harvest_files fs).
Proof.
  unfold harvest_files. induction fs as [|p fs IH] using rev_ind.
  { split; simpl; [set_solver|constructor|done|set_solver]. }
  rewrite foldl_app. cbn [foldl]. set (h := foldl harvest_file (Harvest ∅ [] []) fs) in *. clearbody h. destruct IH as [Hr Hwf Hf Hn].
  split; cbn [harvest_file hv_runs hv_node_runs hv_node_files].
  - intros r. rewrite elem_of_union, elem_of_singleton, Hr. setoid_rewrite elem_of_app. setoid_rewrite list_elem_of_singleton. naive_solver.
  - by apply dict_wf_dset.
  - intros n. rewrite List.filter_app. cbn. destruct (String.eqb_spec (extract_node_id p) n) as [<-|Hne].
    + rewrite dget_dset_eq, Hf. destruct (List.filter _ fs) eqn:E; simpl; [done|]. done.
    + rewrite dget_dset_ne by done. by rewrite app_nil_r.
  - intros n r. setoid_rewrite elem_of_app. setoid_rewrite list_elem_of_singleton. destruct (decide (extract_node_id p = n)) as [<-|Hne].
    + rewrite dget_dset_eq. simpl. rewrite elem_of_union, elem_of_singleton, Hn. naive_solver.
    + rewrite dget_dset_ne by done. rewrite Hn. naive_solver.
Qed.

(** *** Envelopes *)

(** The minima of the row groups of the readable files *)
Definition group_minima (footer : bytes → res (list (option (option Z * option Z)))) (d : disk) (fs : list path) : list Z :=
  omap (λ g : option (option Z * option Z), match g with Some (lo, _) => lo | None => None end)
    (concat ((λ p, match d !! p with Some b => match footer b with Ok gs => gs | Raise _ => [] end | None => [] end) <$> fs)).
Definition group_maxima (footer : bytes → res (list (option (option Z * option Z)))) (d : disk) (fs : list path) : list Z :=
  omap (λ g : option (option Z * option Z), match g with Some (_, hi) => hi | None => None end)
    (concat ((λ p, match d !! p with Some b => match footer b with Ok gs => gs | Raise _ => [] end | None => [] end) <$> fs)).
Definition is_least (m : option Z) (l : list Z) : Prop := match m with Some x => x ∈ l ∧ ∀ y, y ∈ l → x <= y | None => l = [] end.
Definition is_greatest (m : option Z) (l : list Z) : Prop := match m with Some x => x ∈ l ∧ ∀ y, y ∈ l → y <= x | None => l = [] end.

Lemma lower_least m l x : is_least m l → is_least (lower m x) (l ++ option_list x).
Proof.
  unfold is_least, lower. destruct x as [t|]; simpl; [|by rewrite app_nil_r]. destruct m as [y|].
  - intros [Hy Hl]. destruct (Z.ltb_spec t y); (split; [rewrite elem_of_app, list_elem_of_singleton; auto|]);
      intros z [Hz|Hz%list_elem_of_singleton]%elem_of_app; try specialize (Hl _ Hz); lia.
  - intros ->. split; [by left|]. intros z ->%list_elem_of_singleton. lia.
Qed.
Lemma upper_greatest m l x : is_greatest m l → is_greatest (upper m x) (l ++ option_list x).
Proof.
  unfold is_greatest, upper. destruct x as [t|]; simpl; [|by rewrite app_nil_r]. destruct m as [y|].
  - intros [Hy Hl]. destruct (Z.ltb_spec y t); (split; [rewrite elem_of_app, list_elem_of_singleton; auto|]);
      intros z [Hz|Hz%list_elem_of_singleton]%elem_of_app; try specialize (Hl _ Hz); lia.
  - intros ->. split; [by left|]. intros z ->%list_elem_of_singleton. lia.
Qed.

Notation minima gs := (omap (λ g : option (option Z * option Z), match g with Some (lo, _) => lo | None => None end) gs).
Notation maxima gs := (omap (λ g : option (option Z * option Z), match g with Some (_, hi) => hi | None => None end) gs).

Lemma widen_groups gs : ∀ env lo hi, is_least env.1 lo → is_greatest env.2 hi →
  is_least (foldl widen env gs).1 (lo ++ minima gs) ∧ is_greatest (foldl widen env gs).2 (hi ++ maxima gs).
Proof.
  induction gs as [|[[a b]|] gs IH]; intros env lo hi Hlo Hhi; [cbn; by rewrite !app_nil_r| |by apply IH].
  cbn [foldl widen]. destruct (IH (lower env.1 a, upper env.2 b) (lo ++ option_list a) (hi ++ option_list b)) as [H1 H2];
    [by apply lower_least|by apply upper_greatest|].
  rewrite <- !app_assoc in H1, H2. split; [by destruct a|by destruct b].
Qed.

Lemma envelope_spec footer d fs : ∀ env lo hi env', is_least env.1 lo → is_greatest env.2 hi → envelope footer d fs env = Ok env' →
  is_least env'.1 (lo ++ group_minima footer d fs) ∧ is_greatest env'.2 (hi ++ group_maxima footer d fs).
Proof.
  induction fs as [|p fs IH]; intros env lo hi env' Hlo Hhi; cbn [envelope].
  { intros <-%Ok_inj. unfold group_minima, group_maxima. cbn. by rewrite !app_nil_r. }
  unfold group_minima, group_maxima. cbn [fmap list_fmap concat]. rewrite !omap_app.
  destruct (d !! p) as [b|]; [|intros He; by apply (IH env lo hi env')].
  destruct (footer b) as [gs|e] eqn:Hf.
  - intros He. destruct (widen_groups gs env lo hi Hlo Hhi) as [Hlo' Hhi'].
    destruct (IH _ _ _ _ Hlo' Hhi' He) as [H1 H2]. by rewrite <- !app_assoc in H1, H2.
  - destruct (caught e); [|done]. intros He. by apply (IH env lo hi env').
Qed.

Lemma node_coverages_spec footer d runs nfs covs n c : dict_wf nfs → node_coverages footer d runs nfs = Ok covs → dget covs n = Some c →
  ∃ fs env, dget nfs n = Some fs ∧ envelope footer d fs (None, None) = Ok env ∧ c = MkNodeCoverage env.1 env.2 (sorted_set (default ∅ (dget runs n))).
Proof.
  revert covs. induction nfs as [|[n' fs] nfs IH]; intros covs Hwf; cbn [node_coverages].
  { by intros <-%Ok_inj. }
  intros (env&He&(covs'&Hc&<-%Ok_inj)%rbind_Ok)%rbind_Ok. cbn. apply NoDup_cons in Hwf as [_ Hwf].
  destruct (decide (n = n')) as [->|Hne].
  - intros [= <-]. by exists fs, env.
  - by apply IH.
Qed.

Lemma node_coverages_keys footer d runs nfs covs : node_coverages footer d runs nfs = Ok covs → dkeys covs = dkeys nfs.
Proof.
  revert covs. induction nfs as [|[n' fs] nfs IH]; intros covs; cbn [node_coverages]; [by intros <-%Ok_inj|].
  intros (env&He&(covs'&Hc&<-%Ok_inj)%rbind_Ok)%rbind_Ok. cbn. f_equal. by apply IH.
Qed.

(** The coverage report tells what is on the disk: its runs are those
    the names of the tier's files tell, each once; a node is listed exactly if
    a file lies in its directory, with the runs of its files and with the
    least and the greatest time of their readable footers. *)
Theorem coverage_names_what_is_stored (footer : bytes → res (list (option (option Z * option Z)))) (of_json : string → res CollectorManifest)
    (event_ts : list Z) (threshold : Z) (part_dirs : list path) (symbol : string) (d : disk) (manifests : files) (r : FullReport) :
  tier_coverage footer of_json event_ts threshold part_dirs symbol d manifests = Ok r →
  let fs := concat ((λ dir, parquet_files dir d) <$> part_dirs) in
  let of_node n := List.filter (λ p, String.eqb (extract_node_id p) n) fs in
  NoDup (fr_collector_run_ids r) ∧ (∀ run, run ∈ fr_collector_run_ids r ↔ ∃ p, p ∈ fs ∧ run_id_of (stem p) = run) ∧
  (∀ n, n ∈ dkeys (fr_node_coverage r) ↔ ∃ p, p ∈ fs ∧ extract_node_id p = n) ∧
  (∀ n c, dget (fr_node_coverage r) n = Some c →
     (∀ run, run ∈ nc_collector_run_ids c ↔ ∃ p, p ∈ fs ∧ extract_node_id p = n ∧ run_id_of (stem p) = run) ∧
     is_least (nc_min_ts_utc c) (group_minima footer d (of_node n)) ∧ is_greatest (nc_max_ts_utc c) (group_maxima footer d (of_node n))).
Proof.
  intros Hrun fs of_node. unfold tier_coverage in Hrun. apply rbind_Ok in Hrun as (covs&Hcovs&(ms&Hms&<-%Ok_inj)%rbind_Ok).
  fold fs in Hcovs |- *. cbn [fr_collector_run_ids fr_node_coverage]. destruct (harvest_spec fs) as [Hr Hwf Hf Hn]. split_and!.
  - unfold sorted_set. rewrite sort_le_perm. apply NoDup_elements.
  - intros run. rewrite elem_of_sorted_set. apply Hr.
  - intros n. rewrite (node_coverages_keys _ _ _ _ _ Hcovs), <- dget_is_Some, Hf. split.
    + destruct (List.filter _ fs) as [|p l] eqn:E; [by intros []|]. intros _.
      assert (p ∈ List.filter (λ p, String.eqb (extract_node_id p) n) fs) as Hp by (rewrite E; by left).
      apply list_elem_of_In, filter_In in Hp as [Hp ?%String.eqb_eq]. exists p. split; [by apply list_elem_of_In|done].
    + intros (p&Hp&Hpn). assert (p ∈ List.filter (λ p, String.eqb (extract_node_id p) n) fs) as Hin.
      { apply list_elem_of_In, filter_In. split; [by apply list_elem_of_In|by apply String.eqb_eq]. }
      destruct (List.filter _ fs); [by apply elem_of_nil in Hin|by eexists].
  - intros n c Hc. destruct (node_coverages_spec _ _ _ _ _ _ _ Hwf Hcovs Hc) as (nfs&env&Hnfs&He&->). cbn.
    split; [intros run; rewrite elem_of_sorted_set; apply Hn|].
    assert (nfs = of_node n) as ->. { rewrite Hf in Hnfs. unfold of_node. destruct (List.filter _ fs); [done|congruence]. }
    by apply (envelope_spec footer d (of_node n) (None, None) [] []).
Qed.

(** A file of one node and one from before there were nodes *)
Definition two_files : disk :=
  <[["d"; "date=2026-01-01"; "node=A"; "A-20260101T000000Z-0.parquet"] := "a"]> (<[["d"; "date=2026-01-01"; "part-9f.parquet"] := "b"]> ∅).
Definition toy_footer (b : bytes) : res (list (option (option Z * option Z))) :=
  if String.eqb b "a" then Ok [Some (Some 5, Some 9); None; Some (Some 3, Some 4)] else Raise OSErrorOther.

Lemma coverage_names_what_is_stored_witness :
  ∃ r, tier_coverage toy_footer of_toy_json [3; 9] 2 [["d"; "date=2026-01-01"]] "KRW-BTC" two_files ∅ = Ok r ∧
    "A-20260101T000000Z" ∈ fr_collector_run_ids r ∧ "9f" ∈ fr_collector_run_ids r ∧ "A" ∈ dkeys (fr_node_coverage r).
Proof.
  eexists. assert (tier_coverage toy_footer of_toy_json [3; 9] 2 [["d"; "date=2026-01-01"]] "KRW-BTC" two_files ∅ =
    Ok (MkFullReport (OrderbookReplay.MkCoverage (Some 3) (Some 9) [OrderbookReplay.MkGap 3 9 6]) ["9f"; "A-20260101T000000Z"] []
      [("A", MkNodeCoverage (Some 3) (Some 9) ["A-20260101T000000Z"]); ("zzz_DEFAULT", MkNodeCoverage None None ["9f"])])) as Hrun by (vm_compute; reflexivity).
  split; [exact Hrun|]. destruct (coverage_names_what_is_stored _ _ _ _ _ _ _ _ _ Hrun) as (_&Hruns&Hnodes&_).
  assert (∀ p, p ∈ [["d"; "date=2026-01-01"; "node=A"; "A-20260101T000000Z-0.parquet"]; ["d"; "date=2026-01-01"; "part-9f.parquet"]] →
    p ∈ concat ((λ dir, parquet_files dir two_files) <$> [["d"; "date=2026-01-01"]])) as Hin.
  { intros p Hp. assert (concat ((λ dir, parquet_files dir two_files) <$> [["d"; "date=2026-01-01"]]) =
      [["d"; "date=2026-01-01"; "node=A"; "A-20260101T000000Z-0.parquet"]; ["d"; "date=2026-01-01"; "part-9f.parquet"]]) as -> by (vm_compute; reflexivity). exact Hp. }
  split; [|split].
  - apply Hruns. eexists. split; [apply Hin; left|vm_compute; reflexivity].
  - apply Hruns. eexists. split; [apply Hin; right; left|vm_compute; reflexivity].
  - apply Hnodes. eexists. split; [apply Hin; left|vm_compute; reflexivity].
Defined.

(** *** The names writers give *)

Lemma before_last_dash_app s t : before_last_dash t = None → before_last_dash (s +:+ "-" +:+ t) = Some s.
Proof.
  intros Ht. induction s as [|c s IH].
  - change ("" +:+ "-" +:+ t) with (String "-" t). cbn [before_last_dash]. by rewrite Ht.
  - change (String c s +:+ "-" +:+ t) with (String c (s +:+ "-" +:+ t)). cbn [before_last_dash]. by rewrite IH.
Qed.

Lemma stem_of (dir : path) name : stem (dir ++ [name +:+ ".parquet"]) = name.
Proof.
  unfold stem. rewrite last_snoc. simpl. rewrite string_app_length, Nat.add_sub. clear.
  induction name as [|c s IH]; [done|]. change (String c s +:+ ".parquet") with (String c (s +:+ ".parquet")).
  cbn [String.length String.substring]. by rewrite IH.
Qed.

(** The report reads the run id back from the name a writer of that run gives
    its files, unless the id itself starts with [part-]. *)
Lemma run_id_read_back (dir : path) (run seq : string) : before_last_dash seq = None → startswith "part-" (run +:+ "-" +:+ seq) = false →
  run_id_of (stem (dir ++ [run +:+ "-" +:+ seq +:+ ".parquet"])) = run.
Proof.
  intros Hseq Hpart. rewrite <- (string_app_assoc "-"), <- string_app_assoc, stem_of. unfold run_id_of. rewrite Hpart.
  by rewrite (before_last_dash_app run seq Hseq).
Qed.
Example part_node_is_misread : run_id_of (stem ["d"; "part-1-20260101T000000Z-0.parquet"]) = "1-20260101T000000Z-0".
Proof. vm_compute. reflexivity. Qed.

(** One manifest without an offset fails the whole report, although a broken
    manifest is not meant to block it. *)
Lemma naive_manifest_fails_the_report (footer : bytes → res (list (option (option Z * option Z)))) (event_ts : list Z) (threshold : Z) (part_dirs : list path) (symbol : string) (d : disk) (covs : dict string NodeCoverage) :
  node_coverages footer d (hv_node_runs (harvest_files (concat ((λ dir, parquet_files dir d) <$> part_dirs))))
    (hv_node_files (harvest_files (concat ((λ dir, parquet_files dir d) <$> part_dirs)))) = Ok covs →
  tier_coverage footer of_toy_json event_ts threshold part_dirs symbol d (directory_after toy_json [Manifest.Written run_a; Manifest.Written run_b]) = Raise TypeError.
Proof.
  intros Hc. unfold tier_coverage. rewrite Hc. cbn [rbind]. unfold symbol_manifests.
  by rewrite (naive_start_breaks_listing toy_json of_toy_json toy_round_trip).
Qed.
