(* ===== verification/MetadataPoller.v ===== *)
(** * The poller of exchange metadata ([metadata_storage.fetch_exchange_metadata_records],
    [collector.MetadataRefreshScheduler])

    Once a day the tickers and the asset states of an exchange are fetched,
    turned into one record a symbol and given to the metadata writer.  What the
    two requests return, a JSON document or an exception, is an argument, as
    are SHA-256 and the text of a JSON document.  A number that is no integer
    is a float, given by the digits of its [repr]; no volume is a NaN, which
    Python would pass on to the writer. *)
From S2P Require Import Prelude PyDict PyDecimal NasKey Wal PyTime Ndjson DecimalText Parquet.
From S2P Require BatchWriters MetadataHash.
Import BatchWriters(ExchangeMetadataRecord, MkExchangeMetadataRecord, em_exchange, em_symbol, em_fetched_date, em_fetched_at,
  em_source_snapshot_id, em_data_hash, em_asset_status, em_acc_trade_value_24h, metadata_writer, MetadataWriter, mw_writer, mw_seen, mw_quarantine,
  new_metadata_writer, metadata_append, metadata_flush, metadata_close, writer_config, wc_root, wc_exchange, utc_day, microseconds_per_day,
  outcomes, written, is_latest, scan_exchange_metadata, metadata_root).
Open Scope py_scope.
Open Scope string_scope.
Open Scope list_scope.
Open Scope Z_scope.

Notation disk := (gmap (list string) bytes).

(** ** Fetching *)

(** [x.get(key)] *)
Definition py_get (x : pyval) (key : string) : res (option pyval) :=
  match x with PDict d => Ok (dget d key) | _ => Raise (OtherException "AttributeError") end.

(** [_to_decimal_38_18]: [quantize] to 18 places with 50 digits *)
Definition quantize18 (d : decimal) : res decimal :=
  let c := if -18 <=? expo d then coef d * 10 ^ (expo d + 18) else div_half_even (coef d) (10 ^ (- 18 - expo d)) in
  if 10 ^ 50 <=? Z.abs c then Raise InvalidOperation else Ok (Dec c (-18)).
(** [Decimal(str(value))] of a JSON value *)
Definition decimal_of_json (v : pyval) : res num :=
  match v with
  | PStr s | PConst s => decimal_of_text s
  | PInt z => Ok (Num (Dec z 0))
  | PDec d => Ok (Num d)
  | _ => Raise InvalidOperation
  end.
(** The value of a day's trades, zero where it does not convert *)
Definition trade_value (ticker : dict string pyval) : decimal :=
  match decimal_of_json (default (PStr "0") (dget ticker "acc_trade_value_24H")) with
  | Ok (Num d) => match quantize18 d with Ok x => x | Raise _ => Dec 0 (-18) end
  | _ => Dec 0 (-18)
  end.

(** [assets_payload.get("data") or []], as what the loop goes over *)
Definition asset_items (data : option pyval) : res (list pyval) :=
  match data with
  | None | Some PNone | Some (PBool false) | Some (PInt 0) | Some (PStr _) | Some (PDict _) => Ok []
  | Some (PList l) => Ok l
  | Some (PDec d) => if coef d =? 0 then Ok [] else Raise TypeError
  | Some _ => Raise TypeError
  end.
(** [str(item.get(key, "0")) == "1"] *)
Definition flag (item : dict string pyval) (key : string) : bool :=
  match dget item key with Some (PStr s) => String.eqb s "1" | Some (PInt z) => z =? 1 | _ => false end.
Definition asset_item (m : dict string string) (item : pyval) : dict string string :=
  match item with
  | PDict i =>
      match dget i "currency" with
      | Some (PStr c) => if String.eqb c "" then m else dset m c (if flag i "depositStatus" && flag i "withdrawalStatus" then "1" else "0")
      | _ => m
      end
  | _ => m
  end.
Definition asset_status_map : list pyval → dict string string := foldl asset_item [].

Definition ticker_url : string := "https://api.bithumb.com/public/ticker/ALL_KRW".
Definition assets_url : string := "https://api.bithumb.com/public/assetsstatus/multichain/ALL".

Section fetch.
Context (sha256_hex : string → string) (json_text : pyval → string).

Definition record_of (exchange : string) (fetched_at : Z) (snapshot_id : string) (status : dict string string) (code : string)
    (ticker : dict string pyval) : ExchangeMetadataRecord :=
  let rec := MkExchangeMetadataRecord exchange ("KRW-" +:+ code) (utc_day fetched_at) fetched_at snapshot_id "" (default "0" (dget status code))
    (trade_value ticker) None None None None None in
  MetadataHash.with_hash (MetadataHash.compute_data_hash sha256_hex rec) rec.

Definition fetch_exchange_metadata_records (exchange : string) (fetched_at : Z) (ticker_resp assets_resp : res pyval) : res (list ExchangeMetadataRecord) :=
  let? ticker_payload := ticker_resp in
  let? assets_payload := assets_resp in
  let? ticker_status := py_get ticker_payload "status" in
  if negb (match ticker_status with Some (PStr s) => String.eqb s "0000" | _ => false end) then Raise RuntimeError else
  let? assets_status := py_get assets_payload "status" in
  if negb (match assets_status with Some (PStr s) => String.eqb s "0000" | _ => false end) then Raise RuntimeError else
  let? assets_data := py_get assets_payload "data" in
  let? items := asset_items assets_data in
  let status := asset_status_map items in
  let? ticker_data := py_get ticker_payload "data" in
  let ticker_data := default (PDict []) ticker_data in
  let snapshot_id := MetadataHash.build_source_snapshot_id sha256_hex (ticker_url +:+ "|" +:+ assets_url)
    (sha256_hex (json_text ticker_data) +:+ "|" +:+ sha256_hex (json_text (default PNone assets_data))) in
  match ticker_data with
  | PDict entries =>
      Ok (omap (λ e, match e with
                     | (code, PDict ticker) => if String.eqb code "date" then None else Some (record_of exchange fetched_at snapshot_id status code ticker)
                     | _ => None end) entries)
  | _ => Raise (OtherException "AttributeError")
  end.

(** ** The scheduler *)

Context `{Parquet ExchangeMetadataRecord} (open_bytes : list ExchangeMetadataRecord → bytes) (fits : ExchangeMetadataRecord → bool) (cfg : writer_config).

(** The two responses of a refresh, and the time it takes them at *)
Record round := Round { r_at : Z; r_ticker : res pyval; r_assets : res pyval }.
Definition fetch (r : round) : res (list ExchangeMetadataRecord) :=
  fetch_exchange_metadata_records (wc_exchange cfg) (r_at r) (r_ticker r) (r_assets r).

(** [_do_refresh]: any exception is logged and swallowed. *)
Definition do_refresh (r : round) : proc (metadata_writer * disk) unit :=
  pcatch (let! records := plift (fetch r) in
          let! _ := pmap (metadata_append open_bytes fits cfg) records in
          metadata_flush open_bytes fits cfg)
    (λ _, pret tt).

Fixpoint refreshes (rs : list round) : proc (metadata_writer * disk) unit :=
  match rs with [] => pret tt | r :: rs => do_refresh r ;! refreshes rs end.
(** [run], cancelled after these refreshes *)
Definition run (rs : list round) : proc (metadata_writer * disk) unit := refreshes rs ;! metadata_close open_bytes fits cfg.
End fetch.

(** The wait until the next UTC midnight and the grace after it *)
Definition GRACE : Z := 60 * 1000000.
Definition next_wait (now : Z) : Z := (utc_day now + 1) * microseconds_per_day - now + GRACE.
(** When the refreshes begin, given how long each takes *)
Fixpoint schedule (t : Z) (durations : list Z) : list Z :=
  match durations with
  | [] => [t]
  | d :: ds => t :: schedule (t + d + next_wait (t + d)) ds
  end.

(** ** Lemmas *)

Lemma quantize18_scale d x : quantize18 d = Ok x → expo x = -18 ∧ Z.abs (coef x) < 10 ^ 50.
Proof. unfold quantize18. intros Hq. destruct (10 ^ 50 <=? _) eqn:E; [done|]. apply Ok_inj in Hq as <-. cbn [expo coef]. lia. Qed.
Lemma quantize18_exact d x : -18 <= expo d → quantize18 d = Ok x → deqb d x = true.
Proof.
  unfold quantize18. intros He Hq. rewrite (proj2 (Z.leb_le _ _) He) in Hq. destruct (10 ^ 50 <=? _); [done|]. apply Ok_inj in Hq as <-.
  unfold deqb, dcmp, dscale. cbn [expo coef]. rewrite Z.min_r by done. replace (-18 - -18) with 0 by lia.
  replace (expo d - -18) with (expo d + 18) by lia. by rewrite Z.pow_0_r, Z.mul_1_r, Z.compare_refl.
Qed.

Lemma written_app l1 : ∀ earlier l2, written earlier (l1 ++ l2) = written earlier l1 ++ written (earlier ++ l1) l2.
Proof.
  induction l1 as [|r l1 IH]; intros earlier l2; cbn [app BatchWriters.written]; [by rewrite app_nil_r|].
  by rewrite IH, <- !app_assoc.
Qed.

Section poller.
Context (sha256_hex : string → string) (json_text : pyval → string).
Context `{ParquetLaws ExchangeMetadataRecord} (open_bytes : list ExchangeMetadataRecord → bytes) (fits : ExchangeMetadataRecord → bool) (cfg : writer_config).
Notation fetch := (fetch sha256_hex json_text cfg).
Notation cls := (BatchWriters.metadata_class fits).
Notation kept := (BatchWriters.kept open_bytes cls cfg).

(** The records of the refreshes that succeeded *)
Definition fetched (r : round) : list ExchangeMetadataRecord := match fetch r with Ok l => l | Raise _ => [] end.
Definition all_fetched (rs : list round) : list ExchangeMetadataRecord := concat (fetched <$> rs).

Lemma elem_of_fetched r rec : rec ∈ fetched r → em_fetched_at rec = r_at r ∧ em_fetched_date rec = utc_day (r_at r) ∧ em_exchange rec = wc_exchange cfg.
Proof.
  unfold fetched. destruct (fetch r) as [l|] eqn:Hf; [|by intros ?%elem_of_nil].
  unfold MetadataPoller.fetch, fetch_exchange_metadata_records in Hf.
  apply rbind_Ok in Hf as (tp&_&Hf). apply rbind_Ok in Hf as (ap&_&Hf). apply rbind_Ok in Hf as (ts&_&Hf).
  destruct (negb _) in Hf; [done|]. apply rbind_Ok in Hf as (as_&_&Hf). destruct (negb _) in Hf; [done|].
  apply rbind_Ok in Hf as (ad&_&Hf). apply rbind_Ok in Hf as (items&_&Hf). apply rbind_Ok in Hf as (td&_&Hf).
  destruct (default (PDict []) td) as [| | | | | | | | |entries|]; try done. apply Ok_inj in Hf as <-.
  intros ([code v]&_&Hv)%list_elem_of_omap. destruct v; try done. destruct (String.eqb code "date"); [done|]. injection Hv as <-. done.
Qed.

Lemma refresh_kept base earlier hist files cur m d r :
  BatchWriters.legal cls cfg (hist ++ written earlier (fetched r)) → BatchWriters.closed (mw_writer m) = false →
  (∀ k, mw_seen m !! k = em_data_hash <$> BatchWriters.first_of_key k earlier) → kept base hist files cur (mw_writer m) d →
  ∃ files' cur' m' d', do_refresh sha256_hex json_text open_bytes fits cfg r (m, d) = ((m', d'), Ok tt) ∧
    kept base (hist ++ written earlier (fetched r)) files' cur' (mw_writer m') d' ∧ BatchWriters.closed (mw_writer m') = false ∧
    (∀ k, mw_seen m' !! k = em_data_hash <$> BatchWriters.first_of_key k (earlier ++ fetched r)).
Proof.
  unfold fetched, do_refresh, pcatch, pbind, plift. destruct (fetch r) as [l|e] eqn:Hf.
  - intros Hlegal Hopen Hseen Hk.
    destruct (BatchWriters.metadata_run open_bytes fits cfg base l earlier hist files cur m d Hlegal Hopen Hseen Hk) as (files1&cur1&m1&d1&->&Hk1&Ho1&_&Hs1).
    destruct (BatchWriters.flush_kept _ _ _ _ _ _ _ _ _ (BatchWriters.metadata_dated fits cfg) Hlegal Hk1) as (files2&cur2&w2&d2&Hfl&Hk2&_&Ho2).
    unfold metadata_flush, BatchWriters.on_writer, BatchWriters.flush. cbn [fst snd]. rewrite Hfl.
    eexists files2, cur2, (MetadataWriter w2 _ _), d2. split; [reflexivity|]. cbn [BatchWriters.mw_writer BatchWriters.mw_seen].
    split; [done|]. split; [congruence|done].
  - intros _ Hopen Hseen Hk. exists files, cur, m, d. split; [done|]. cbn. rewrite !app_nil_r. done.
Qed.

Lemma refreshes_kept base rs : ∀ earlier hist files cur m d,
  BatchWriters.legal cls cfg (hist ++ written earlier (all_fetched rs)) → BatchWriters.closed (mw_writer m) = false →
  (∀ k, mw_seen m !! k = em_data_hash <$> BatchWriters.first_of_key k earlier) → kept base hist files cur (mw_writer m) d →
  ∃ files' cur' m' d', refreshes sha256_hex json_text open_bytes fits cfg rs (m, d) = ((m', d'), Ok tt) ∧
    kept base (hist ++ written earlier (all_fetched rs)) files' cur' (mw_writer m') d' ∧ BatchWriters.closed (mw_writer m') = false.
Proof.
  induction rs as [|r rs IH]; intros earlier hist files cur m d Hlegal Hopen Hseen Hk.
  { exists files, cur, m, d. unfold all_fetched. cbn. by rewrite app_nil_r. }
  change (all_fetched (r :: rs)) with (fetched r ++ all_fetched rs) in *. rewrite written_app, app_assoc in *.
  pose proof (BatchWriters.legal_prefix _ _ _ _ Hlegal) as Hl1.
  destruct (refresh_kept base earlier hist files cur m d r Hl1 Hopen Hseen Hk) as (files1&cur1&m1&d1&Hrun&Hk1&Ho1&Hs1).
  cbn [refreshes]. unfold pbind. rewrite Hrun. by apply IH with files1 cur1.
Qed.

Lemma fetched_sorted rs : StronglySorted (λ a b, r_at a <= r_at b) rs → StronglySorted (λ a b, em_fetched_at a <= em_fetched_at b) (all_fetched rs).
Proof.
  induction 1 as [|r rs Hs IH Hall]; [constructor|]. change (all_fetched (r :: rs)) with (fetched r ++ all_fetched rs).
  rewrite Forall_forall in Hall. apply StronglySorted_app. split; [|split; [|exact IH]].
  - intros a b Ha Hb. apply list_elem_of_In, List.in_concat in Hb as (l&Hl&Hb). apply list_elem_of_In, list_elem_of_fmap in Hl as (r'&->&Hr').
    apply list_elem_of_In in Hb. destruct (elem_of_fetched _ _ Ha) as (->&_), (elem_of_fetched _ _ Hb) as (->&_). by apply Hall.
  - assert (∀ a, a ∈ fetched r → em_fetched_at a = r_at r) as Ha by (intros a Hin; by destruct (elem_of_fetched _ _ Hin)).
    induction (fetched r) as [|a l IHl]; constructor; [apply IHl; intros; apply Ha; by right|].
    apply Forall_forall. intros b Hb. rewrite (Ha a), (Ha b); [lia|by right|by left].
Qed.

Lemma sorted_days (recs : list ExchangeMetadataRecord) : (∀ rec, rec ∈ recs → fits rec = true ∧ date_in_range (em_fetched_date rec) ∧ em_fetched_date rec = utc_day (em_fetched_at rec)) →
  StronglySorted (λ a b, em_fetched_at a <= em_fetched_at b) recs → StronglySorted (λ a b, BatchWriters.day_of cls a <= BatchWriters.day_of cls b) recs.
Proof.
  intros Hrec. induction 1 as [|r l Hs IH Hall]; constructor; [apply IH; intros; apply Hrec; by right|].
  rewrite Forall_forall in *. intros b Hb. simpl. destruct (Hrec r ltac:(by left)) as (_&_&->), (Hrec b ltac:(by right)) as (_&_&->).
  apply Z.div_le_mono; [done|]. by apply Hall.
Qed.
End poller.

(** C17.  The poller's history can be read back: whatever the requests of its
    refreshes answered, as long as the records of those that succeeded fit the
    schema and the clock did not go back, cancelling the poller leaves the disk
    so that the point-in-time scan of any symbol gives the latest record the
    writer stored of those fetched by then, or nothing if there is none; a
    refresh that failed has no effect. *)
Theorem poller_history_is_readable (sha256_hex : string → string) (json_text : pyval → string) `{ParquetLaws ExchangeMetadataRecord}
    (open_bytes : list ExchangeMetadataRecord → bytes) (fits : ExchangeMetadataRecord → bool) (cfg : writer_config) (base : disk)
    (rs : list round) (symbol : string) (ts_utc : Z) :
  let recs := all_fetched sha256_hex json_text cfg rs in
  Forall (λ r, date_in_range (utc_day (r_at r))) rs → StronglySorted (λ a b, r_at a <= r_at b) rs →
  Forall (λ rec, fits rec = true) recs →
  (∀ rest, base !! (metadata_root (wc_root cfg) (wc_exchange cfg) ++ rest) = None) →
  ∃ m d, run sha256_hex json_text open_bytes fits cfg rs (new_metadata_writer, base) = ((m, d), Ok tt) ∧
    is_latest symbol ts_utc (λ rec, rec ∈ written [] recs) (scan_exchange_metadata (wc_root cfg) (wc_exchange cfg) symbol ts_utc d).
Proof.
  intros recs Hrange Hsorted Hfits Hbase. rewrite Forall_forall in Hrange. rewrite Forall_forall in Hfits.
  assert (∀ rec, rec ∈ recs → ∃ r, r ∈ rs ∧ em_fetched_at rec = r_at r ∧ em_fetched_date rec = utc_day (r_at r)) as Hrec.
  { intros rec Hin. apply list_elem_of_In, List.in_concat in Hin as (l&Hl&Hin). apply list_elem_of_In, list_elem_of_fmap in Hl as (r&->&Hr).
    apply list_elem_of_In in Hin. destruct (elem_of_fetched _ _ _ _ _ Hin) as (?&?&_). eauto. }
  assert (StronglySorted (λ a b, em_fetched_at a <= em_fetched_at b) recs) as Hs by by apply fetched_sorted.
  pose proof (BatchWriters.written_sublist [] recs) as Hsub.
  assert (∀ rec, rec ∈ written [] recs → fits rec = true ∧ date_in_range (em_fetched_date rec) ∧ em_fetched_date rec = utc_day (em_fetched_at rec)) as Hw.
  { intros rec Hin. assert (rec ∈ recs) as Hin' by by eapply elem_of_sublist. destruct (Hrec rec Hin') as (r&Hr&->&->).
    split; [by apply Hfits|]. split; [by apply Hrange|done]. }
  assert (StronglySorted (λ a b, em_fetched_at a <= em_fetched_at b) (written [] recs)) as Hs' by by eapply BatchWriters.sublist_sorted.
  assert (BatchWriters.legal (BatchWriters.metadata_class fits) cfg ([] ++ written [] recs)) as Hlegal.
  { split; [apply Forall_forall; intros rec Hin; simpl; destruct (Hw rec Hin); tauto|]. right. by apply sorted_days. }
  destruct (refreshes_kept sha256_hex json_text open_bytes fits cfg base rs [] [] [] None new_metadata_writer base Hlegal eq_refl)
    as (files&cur&m&d&Hrun&Hk&Hopen); [done|apply BatchWriters.new_writer_kept|].
  destruct (BatchWriters.close_kept _ _ _ _ _ _ _ _ _ (BatchWriters.metadata_dated fits cfg) Hlegal Hopen Hk) as (files'&w'&d'&Hclose&_&Hst).
  eexists (MetadataWriter w' _ _), d'. split.
  - unfold run, pbind. rewrite Hrun. unfold metadata_close, BatchWriters.on_writer. cbn [fst snd]. by rewrite Hclose.
  - eapply BatchWriters.stored_scan; [|done|done|exact Hst]. apply Forall_forall. intros rec Hin. destruct (Hw rec Hin). tauto.
Qed.

(** ** The schedule *)

Lemma utc_day_bounds t : utc_day t * microseconds_per_day <= t < (utc_day t + 1) * microseconds_per_day.
Proof.
  unfold utc_day, microseconds_per_day. pose proof (Z.div_mod t (86400 * 1000000) ltac:(lia)).
  pose proof (Z.mod_pos_bound t (86400 * 1000000) ltac:(lia)). lia.
Qed.
Lemma utc_day_unique t day : day * microseconds_per_day <= t < (day + 1) * microseconds_per_day → utc_day t = day.
Proof. pose proof (utc_day_bounds t). unfold microseconds_per_day in *. nia. Qed.

(** One refresh a day: if the first refresh ends on the day it began and
    no later one takes longer than a day less the minute of grace, the refreshes
    begin on consecutive UTC days, and all but the first begin a minute after
    midnight. *)
Theorem one_refresh_a_day (t0 : Z) (durations : list Z) (i : nat) (t : Z) :
  (∀ d, head durations = Some d → 0 <= d ∧ utc_day (t0 + d) = utc_day t0) →
  Forall (λ d, 0 <= d < microseconds_per_day - GRACE) (tail durations) →
  schedule t0 durations !! i = Some t →
  utc_day t = utc_day t0 + Z.of_nat i ∧ ((0 < i)%nat → t = utc_day t * microseconds_per_day + GRACE).
Proof.
  revert t0 i. induction durations as [|d ds IH]; intros t0 i Hfirst Hrest Ht; cbn [schedule] in Ht.
  { destruct i as [|i]; [|done]. injection Ht as <-. split; [lia|lia]. }
  destruct i as [|i]; [injection Ht as <-; split; [lia|lia]|]. cbn in Ht. destruct (Hfirst d eq_refl) as [Hd Hday].
  set (t1 := t0 + d + next_wait (t0 + d)) in *.
  assert (t1 = (utc_day t0 + 1) * microseconds_per_day + GRACE) as Ht1 by (unfold t1, next_wait; rewrite Hday; lia).
  assert (utc_day t1 = utc_day t0 + 1) as Hd1 by (apply utc_day_unique; unfold GRACE, microseconds_per_day in *; lia).
  destruct (IH t1 i) as [Hdi Hti]; [| |exact Ht|].
  - intros d' Hd'. destruct ds as [|d'' ds]; [done|]. injection Hd' as ->. cbn in Hrest. apply Forall_cons in Hrest as [Hr _].
    split; [lia|]. rewrite Hd1. apply utc_day_unique. unfold GRACE, microseconds_per_day in *. lia.
  - cbn in Hrest. destruct ds; [done|]. by apply Forall_cons in Hrest as [_ ?].
  - split; [lia|]. intros _. destruct i as [|i]; [|apply Hti; lia]. destruct ds; injection Ht as <-; by rewrite Hd1.
Qed.

Lemma one_refresh_a_day_witness :
  let t0 := 20000 * microseconds_per_day + 43200000000 in
  schedule t0 [2000000; 5000000] !! 2%nat = Some (20002 * microseconds_per_day + GRACE) ∧ utc_day (20002 * microseconds_per_day + GRACE) = 20002.
Proof.
  intros t0. assert (schedule t0 [2000000; 5000000] !! 2%nat = Some (20002 * microseconds_per_day + GRACE)) as Hs by (vm_compute; reflexivity).
  split; [exact Hs|]. destruct (one_refresh_a_day t0 [2000000; 5000000] 2 (20002 * microseconds_per_day + GRACE)) as [Hd _].
  - intros d [= <-]. split; [lia|vm_compute; reflexivity].
  - repeat constructor; vm_compute; congruence.
  - exact Hs.
  - rewrite Hd. vm_compute. reflexivity.
Defined.

(** ** Examples *)

Definition tickers (entries : list (string * string)) : pyval :=
  PDict [("status", PStr "0000"); ("data", PDict (((λ e, (e.1, PDict [("acc_trade_value_24H", PStr e.2)])) <$> entries) ++ [("date", PStr "1")]))].
Definition assets (entries : list (string * string * string)) : pyval :=
  PDict [("status", PStr "0000"); ("data", PList ((λ e, PDict [("currency", PStr e.1.1); ("depositStatus", PInt 1); ("withdrawalStatus", PStr e.2)]) <$> entries))].
Definition day_one (ticker : res pyval) : round := Round (20000 * microseconds_per_day) ticker (Ok (assets [("BTC", "1", "1"); ("ETH", "1", "0")])).
Definition day_two (ticker : res pyval) : round := Round (20001 * microseconds_per_day + GRACE) ticker (Ok (assets [("BTC", "1", "1")])).

Example statuses_and_values :
  (λ rec, (em_symbol rec, em_asset_status rec, em_acc_trade_value_24h rec)) <$>
    fetched (λ s, s) (λ _, "j") BatchWriters.numbered_config (day_one (Ok (tickers [("BTC", "12.5"); ("ETH", "?"); ("XRP", "1e-19")]))) =
  [("KRW-BTC", "1", Dec 12500000000000000000 (-18)); ("KRW-ETH", "0", Dec 0 (-18)); ("KRW-XRP", "0", Dec 0 (-18))].
Proof. vm_compute. reflexivity. Qed.

#[local] Existing Instances BatchWriters.metadata_parquet BatchWriters.metadata_parquet_laws.

Lemma poller_history_is_readable_witness :
  let sha := λ s : string, String.substring 62 32 s in let text := λ _ : pyval, "j" in
  let rs := [day_one (Ok (tickers [("BTC", "12.5")])); Round (20000 * microseconds_per_day + 5) (Raise (OtherException "ReadTimeout")) (Ok PNone); day_two (Ok (tickers [("BTC", "13")]))] in
  let cfg := BatchWriters.numbered_config in
  ∃ m d, run sha text BatchWriters.no_footer BatchWriters.any_fits cfg rs (new_metadata_writer, ∅) = ((m, d), Ok tt) ∧
    is_latest "KRW-BTC" (20001 * microseconds_per_day) (λ rec, rec ∈ written [] (all_fetched sha text cfg rs))
      (scan_exchange_metadata ["data"] "bithumb" "KRW-BTC" (20001 * microseconds_per_day) d) ∧
    length (written [] (all_fetched sha text cfg rs)) = 2%nat.
Proof.
  intros sha text rs cfg.
  destruct (poller_history_is_readable sha text BatchWriters.no_footer BatchWriters.any_fits cfg ∅ rs "KRW-BTC" (20001 * microseconds_per_day)) as (m&d&Hrun&Hl).
  - repeat constructor; vm_compute; congruence.
  - repeat constructor; vm_compute; congruence.
  - apply Forall_forall. done.
  - intros rest. apply lookup_empty.
  - exists m, d. split; [exact Hrun|]. split; [exact Hl|]. vm_compute. reflexivity.
Defined.

(** A refresh writes into the open file of the day, which has no footer before
    the next day's refresh or the end of the process: until then the scan finds
    nothing of the day. *)
Example todays_metadata_is_unreadable :
  let sha := λ s : string, s in let text := λ _ : pyval, "j" in let cfg := BatchWriters.numbered_config in
  let scan d ts := em_acc_trade_value_24h <$> scan_exchange_metadata ["data"] "bithumb" "KRW-BTC" ts d in
  let one := [day_one (Ok (tickers [("BTC", "12.5")]))] in
  let two := one ++ [day_two (Ok (tickers [("BTC", "13")]))] in
  let disk rs := (refreshes sha text BatchWriters.no_footer BatchWriters.any_fits cfg rs (new_metadata_writer, ∅)).1.2 in
  scan (disk one) (20001 * microseconds_per_day) = None ∧
  scan (disk two) (20002 * microseconds_per_day) = Some (Dec 12500000000000000000 (-18)).
Proof. vm_compute. auto. Qed.

(** What a [decimal128(38, 18)] column takes *)
Definition fits_column (rec : ExchangeMetadataRecord) : bool := Z.abs (coef (em_acc_trade_value_24h rec)) <? 10 ^ 38.

(** A value of more than twenty digits passes the conversion, which allows
    fifty, and not the column: the batch stays in the buffer, and every later
    refresh fails with it, unseen. *)
Example one_huge_value_stops_the_poller :
  let sha := λ s : string, s in let text := λ _ : pyval, "j" in let cfg := BatchWriters.numbered_config in
  let rs := [day_one (Ok (tickers [("BTC", "12.5"); ("SHIB", "100000000000000000000")])); day_two (Ok (tickers [("BTC", "13")]))] in
  let s := run sha text BatchWriters.no_footer fits_column cfg rs (new_metadata_writer, ∅) in
  s.2 = Raise BatchWriters.ArrowInvalid ∧ length (BatchWriters.buffer (mw_writer s.1.1)) = 3%nat ∧
  scan_exchange_metadata ["data"] "bithumb" "KRW-BTC" (20002 * microseconds_per_day) s.1.2 = None.
Proof. vm_compute. auto. Qed.
