(* ===== verification/Supervisor.v ===== *)
(** * The collectors of many symbols ([collector.MultiSymbolCollector])

    One daemon a symbol runs in a task of its own and is restarted with a
    growing delay when it fails; a heartbeat, a coverage and a health task run
    beside them.  The event loop is a sequence of events: a daemon's [run]
    returns, raises or is entered again, a helper dies, the collector is
    cancelled, an awaited task is over.  [collector_step] says which event can
    happen in which state and what it changes.

    Cancelling [run] while it awaits [asyncio.gather] cancels the tasks of the
    daemons, and [gather] raises only when all of them are over: the [except]
    block then finds every task done and passes without suspending, and the
    [finally] block awaits the helpers one after the other.  A
    [KeyboardInterrupt] is the cancellation [asyncio.run] makes of it.  Times
    are microseconds. *)
From S2P Require Import Prelude.
Open Scope list_scope.
Open Scope Z_scope.

(** ** State *)

(** [_run_with_restart] of one daemon: inside [daemon.run()] for the given
    attempt, inside it with a [CancelledError] thrown into it, asleep before
    it, or over *)
Inductive task := Running (attempt : nat) | Stopping (attempt : nat) | Waiting (attempt : nat) (until : Z) | Done | Cancelled.
Definition RESTART_BACKOFF : list Z := [5000000; 30000000; 120000000].
(** [_RESTART_BACKOFF[min(attempt, len(_RESTART_BACKOFF) - 1)]] *)
Definition delay (attempt : nat) : Z := default 0 (RESTART_BACKOFF !! Nat.min attempt (length RESTART_BACKOFF - 1)).

(** A helper task: not there, running, over by itself, cancelled and awaited,
    over after its final write succeeded or raised, or cancelled before its
    first step *)
Inductive helper := Absent | Up | Died | Closing | Closed (written : res unit) | Unstarted.
Inductive server := NoServer | Serving | StopCalled.
Inductive outcome := Returned | RaisedCancelled | RaisedError (e : exn).
(** Where [run] is suspended: at [gather], cancelled or not; at the [await] of
    the heartbeat or of the coverage task; or over *)
Inductive phase := Gathering (cancelled : bool) | AwaitHeartbeat (o : outcome) | AwaitCoverage (o : outcome) | Over (o : outcome).
Record collector := Collector { c_tasks : list task; c_heartbeat : helper; c_coverage : helper; c_health : server; c_phase : phase }.

Inductive daemon_event := Returns | Fails (now : Z) | Ends | Starts (now : Z).
Inductive helper_name := HeartbeatTask | CoverageTask.
Inductive event :=
  | Daemon (i : nat) (e : daemon_event)
  | HelperDies (h : helper_name)
  | HelperCloses (h : helper_name) (written : res unit)
  | Cancel
  | Gathered.

(** ** Steps *)

(** What can happen to a daemon's task: [run] returns; it raises; a
    [CancelledError] leaves it; the sleep is over and it is entered again. *)
Definition task_step (t : task) (e : daemon_event) : option task :=
  match t, e with
  | (Running _ | Stopping _), Returns => Some Done
  | (Running a | Stopping a), Fails now => Some (Waiting (S a) (now + delay a))
  | (Running _ | Stopping _), Ends => Some Cancelled
  | Waiting a until, Starts now => if until <=? now then Some (Running a) else None
  | _, _ => None
  end.

(** [Task.cancel()]: thrown into [daemon.run()], or into the sleep, from which
    nothing catches it *)
Definition on_cancel (t : task) : task :=
  match t with Running a => Stopping a | Waiting _ _ => Cancelled | _ => t end.
Definition is_over (t : task) : bool := match t with Done | Cancelled => true | _ => false end.

(** The [finally] block, from each of its awaits to the next; a task that is
    over is cancelled and awaited without effect. *)
Definition stop_server (s : server) : server := match s with Serving => StopCalled | _ => s end.
Definition finish (o : outcome) (c : collector) : collector :=
  Collector (c_tasks c) (c_heartbeat c) (c_coverage c) (stop_server (c_health c)) (Over o).
Definition close_coverage (o : outcome) (c : collector) : collector :=
  match c_coverage c with
  | Up => Collector (c_tasks c) (c_heartbeat c) Closing (c_health c) (AwaitCoverage o)
  | _ => finish o c
  end.
Definition close_heartbeat (o : outcome) (c : collector) : collector :=
  match c_heartbeat c with
  | Up => Collector (c_tasks c) Closing (c_coverage c) (c_health c) (AwaitHeartbeat o)
  | _ => close_coverage o c
  end.

Definition spawned (present : bool) : helper := if present then Up else Absent.
Definition unstarted (present : bool) : helper := if present then Unstarted else Absent.

(** [run] up to [gather]: the manifest, the helpers that are there, then the
    daemons; the health server may fail to start, outside the [try].  Without
    a daemon [gather] does not suspend and the helpers are cancelled before
    their first step. *)
Definition start (n : nat) (manifest : res unit) (heartbeat coverage : bool) (health : option (res unit)) : collector :=
  match manifest with
  | Raise e => Collector [] Absent Absent NoServer (Over (RaisedError e))
  | Ok _ =>
      match health with
      | Some (Raise e) => Collector [] (spawned heartbeat) (spawned coverage) NoServer (Over (RaisedError e))
      | _ =>
          let server := match health with Some _ => Serving | None => NoServer end in
          match n with
          | O => finish Returned (Collector [] (unstarted heartbeat) (unstarted coverage) server (Gathering false))
          | _ => Collector (replicate n (Running 0)) (spawned heartbeat) (spawned coverage) server (Gathering false)
          end
      end
  end.

Definition helper_of (h : helper_name) (c : collector) : helper :=
  match h with HeartbeatTask => c_heartbeat c | CoverageTask => c_coverage c end.
Definition set_helper (h : helper_name) (s : helper) (c : collector) : collector :=
  match h with
  | HeartbeatTask => Collector (c_tasks c) s (c_coverage c) (c_health c) (c_phase c)
  | CoverageTask => Collector (c_tasks c) (c_heartbeat c) s (c_health c) (c_phase c)
  end.

(** An event in a state where it can happen *)
Definition collector_step (c : collector) (e : event) : option collector :=
  match e with
  | Daemon i de =>
      t ← c_tasks c !! i;
      t' ← task_step t de;
      Some (Collector (<[i := t']> (c_tasks c)) (c_heartbeat c) (c_coverage c) (c_health c) (c_phase c))
  | HelperDies h => match helper_of h c with Up => Some (set_helper h Died c) | _ => None end
  | HelperCloses h w =>
      match h, c_phase c, helper_of h c with
      | HeartbeatTask, AwaitHeartbeat o, Closing => Some (close_coverage o (set_helper h (Closed w) c))
      | CoverageTask, AwaitCoverage o, Closing => Some (finish o (set_helper h (Closed w) c))
      | _, _, _ => None
      end
  | Cancel =>
      match c_phase c with
      | Gathering _ => Some (Collector (on_cancel <$> c_tasks c) (c_heartbeat c) (c_coverage c) (c_health c) (Gathering true))
      | Over _ => None
      | _ => Some c  (* reaches the helper that is ending and is suppressed *)
      end
  | Gathered =>
      match c_phase c with
      | Gathering cancelled =>
          if forallb is_over (c_tasks c)
          then Some (close_heartbeat (if cancelled then RaisedCancelled else Returned) c) else None
      | _ => None
      end
  end.
Definition run (c : collector) (h : list event) : option collector := foldl (λ oc e, c' ← oc; collector_step c' e) (Some c) h.

Lemma run_snoc c h e : run c (h ++ [e]) = (c' ← run c h; collector_step c' e).
Proof. unfold run. by rewrite foldl_app. Qed.

(** ** What a daemon's events say, apart from the model *)

(** The events that concern daemon [i]: its own, and the cancellations *)
Definition concerns (i : nat) (e : event) : option (option daemon_event) :=
  match e with
  | Daemon j de => if decide (i = j) then Some (Some de) else None
  | Cancel => Some None
  | _ => None
  end.
Definition own_events (i : nat) (h : list event) : list (option daemon_event) := omap (concerns i) h.
(** When it failed *)
Definition failure_times (l : list (option daemon_event)) : list Z :=
  omap (λ o, match o with Some (Fails now) => Some now | _ => None end) l.
(** The delay after the [k]th failure *)
Definition backoff (k : nat) : Z := match k with 1%nat => 5000000 | 2%nat => 30000000 | _ => 120000000 end.

Lemma delay_backoff a : delay a = backoff (S a).
Proof. destruct a as [|[|a]]; [done..|]. unfold delay. simpl. by rewrite Nat.min_0_r. Qed.

(** A task after the events that concern it *)
Record lived (l : list (option daemon_event)) (t : task) : Prop := {
  lv_attempt : match t with
    | Running a | Stopping a => a = length (failure_times l)
    | Waiting a until => a = length (failure_times l) ∧ ∃ now, last l = Some (Some (Fails now)) ∧ until = now + backoff a
    | Done | Cancelled => True
    end;
  lv_last now : last l = Some (Some (Fails now)) → ∃ a until, t = Waiting a until;
  lv_done : t = Done ↔ Some Returns ∈ l }.

Lemma lived_step l t de t' : lived l t → task_step t de = Some t' → lived (l ++ [Some de]) t'.
Proof.
  intros [Ha Hl Hd] Hs.
  assert (Some Returns ∉ l) as Hr by (rewrite <- Hd; by destruct t).
  assert (∀ d, d ≠ Returns → Some Returns ∉ l ++ [Some d]) as Hr' by (intros d Hne; rewrite elem_of_app, list_elem_of_singleton; naive_solver).
  assert (length (failure_times (l ++ [Some de])) = length (failure_times l) + match de with Fails _ => 1 | _ => 0 end)%nat as Hf.
  { unfold failure_times. rewrite omap_app, length_app. by destruct de. }
  split.
  - destruct t, de; simpl in Hs; try case_match; simplify_eq; try done; rewrite Hf; try (simpl; lia).
    all: try (destruct Ha as [-> _]; lia).
    all: split; [lia|]; eexists; split; [by rewrite last_snoc|by rewrite delay_backoff].
  - intros now. rewrite last_snoc. intros [= ->]. destruct t; simpl in Hs; simplify_eq; eauto.
  - destruct t, de; simpl in Hs; try case_match; simplify_eq; split; try done.
    all: try (intros _; apply elem_of_app; right; by left).
    all: intros Hx; exfalso; by eapply Hr', Hx.
Qed.

Lemma lived_cancel l t : lived l t → lived (l ++ [None]) (on_cancel t).
Proof.
  intros [Ha Hl Hd].
  assert (failure_times (l ++ [None]) = failure_times l) as Hf by (unfold failure_times; rewrite omap_app; simpl; by rewrite app_nil_r).
  split.
  - rewrite Hf. by destruct t.
  - intros now. by rewrite last_snoc.
  - rewrite elem_of_app, list_elem_of_singleton. destruct t; simpl; naive_solver.
Qed.

(** ** What holds of a collector of [n] daemons after any events *)

(** A helper while the daemons run, and once the [finally] block is past it *)
Definition helper_up (present : bool) (h : list event) (name : helper_name) (s : helper) : Prop :=
  s = Absent ∧ present = false ∨
  present = true ∧ (s = Up ∧ HelperDies name ∉ h ∨ s = Died ∧ HelperDies name ∈ h).
Definition helper_closed (present : bool) (h : list event) (name : helper_name) (s : helper) : Prop :=
  s = Absent ∧ present = false ∨
  present = true ∧ (s = Died ∧ HelperDies name ∈ h ∨ ∃ w, s = Closed w ∧ HelperDies name ∉ h ∧ HelperCloses name w ∈ h).
Definition helper_closing (present : bool) (h : list event) (name : helper_name) (s : helper) : Prop :=
  s = Closing ∧ present = true ∧ HelperDies name ∉ h.

(** How the gathering ended: [o] is a cancellation exactly if one came before. *)
Definition gathered (h : list event) (o : outcome) (tasks : list task) : Prop :=
  forallb is_over tasks = true ∧
  ∃ h1 h2, h = h1 ++ Gathered :: h2 ∧ Gathered ∉ h1 ∧
    (o = RaisedCancelled ∧ Cancel ∈ h1 ∨ o = Returned ∧ Cancel ∉ h1).

Definition phase_inv (hb cov : bool) (h : list event) (c : collector) : Prop :=
  match c_phase c with
  | Gathering b => Gathered ∉ h ∧ (b = true ↔ Cancel ∈ h) ∧
      helper_up hb h HeartbeatTask (c_heartbeat c) ∧ helper_up cov h CoverageTask (c_coverage c)
  | AwaitHeartbeat o => gathered h o (c_tasks c) ∧
      helper_closing hb h HeartbeatTask (c_heartbeat c) ∧ helper_up cov h CoverageTask (c_coverage c)
  | AwaitCoverage o => gathered h o (c_tasks c) ∧
      helper_closed hb h HeartbeatTask (c_heartbeat c) ∧ helper_closing cov h CoverageTask (c_coverage c)
  | Over o => gathered h o (c_tasks c) ∧
      helper_closed hb h HeartbeatTask (c_heartbeat c) ∧ helper_closed cov h CoverageTask (c_coverage c)
  end.
Definition server_inv (health : bool) (c : collector) : Prop :=
  c_health c = if health then match c_phase c with Over _ => StopCalled | _ => Serving end else NoServer.

Record supervised (n : nat) (hb cov health : bool) (h : list event) (c : collector) : Prop := {
  su_length : length (c_tasks c) = n;
  su_tasks i : (i < n)%nat → ∃ t, c_tasks c !! i = Some t ∧ lived (own_events i h) t;
  su_phase : phase_inv hb cov h c;
  su_server : server_inv health c }.

Lemma elem_of_snoc {A} (x e : A) l : x ∈ l ++ [e] ↔ x ∈ l ∨ x = e.
Proof. by rewrite elem_of_app, list_elem_of_singleton. Qed.

Lemma helper_up_snoc p h name s e : e ≠ HelperDies name → helper_up p h name s → helper_up p (h ++ [e]) name s.
Proof. unfold helper_up. rewrite elem_of_snoc. naive_solver. Qed.
Lemma helper_closing_snoc p h name s e : e ≠ HelperDies name → helper_closing p h name s → helper_closing p (h ++ [e]) name s.
Proof. unfold helper_closing. rewrite elem_of_snoc. naive_solver. Qed.
Lemma helper_closed_snoc p h name s e : e ≠ HelperDies name → helper_closed p h name s → helper_closed p (h ++ [e]) name s.
Proof. unfold helper_closed. intros He. setoid_rewrite elem_of_snoc. naive_solver. Qed.
Lemma gathered_snoc h o tasks e : gathered h o tasks → gathered (h ++ [e]) o tasks.
Proof. intros (Ho&h1&h2&->&?&?). split; [done|]. exists h1, (h2 ++ [e]). by rewrite <- app_assoc. Qed.
#[local] Hint Resolve helper_up_snoc helper_closing_snoc helper_closed_snoc gathered_snoc : core.

(** A helper that dies in some phase *)
Lemma helper_dies p h name s : helper_up p h name s → s = Up → helper_up p (h ++ [HelperDies name]) name Died.
Proof. unfold helper_up. rewrite elem_of_snoc. naive_solver. Qed.

(** The [finally] block, entered from one of its stages *)
Lemma finish_phase hb cov h c o : gathered h o (c_tasks c) →
  helper_closed hb h HeartbeatTask (c_heartbeat c) → helper_closed cov h CoverageTask (c_coverage c) →
  phase_inv hb cov h (finish o c).
Proof. by unfold phase_inv, finish. Qed.

Lemma close_coverage_phase hb cov h c o : gathered h o (c_tasks c) →
  helper_closed hb h HeartbeatTask (c_heartbeat c) → helper_up cov h CoverageTask (c_coverage c) →
  phase_inv hb cov h (close_coverage o c).
Proof.
  intros Hg Hh [[Hs ->]|(->&[[Hs Hd]|[Hs Hd]])]; unfold close_coverage; rewrite Hs.
  - apply finish_phase; [done..|]. by left.
  - by unfold phase_inv.
  - apply finish_phase; [done..|]. right. auto.
Qed.

Lemma close_heartbeat_phase hb cov h c o : gathered h o (c_tasks c) →
  helper_up hb h HeartbeatTask (c_heartbeat c) → helper_up cov h CoverageTask (c_coverage c) →
  phase_inv hb cov h (close_heartbeat o c).
Proof.
  intros Hg [[Hs ->]|(->&[[Hs Hd]|[Hs Hd]])] Hc; unfold close_heartbeat; rewrite Hs.
  - apply close_coverage_phase; [done| |done]. by left.
  - by unfold phase_inv.
  - apply close_coverage_phase; [done| |done]. right. auto.
Qed.

(** What the [finally] block leaves alone *)
Lemma close_coverage_rest o c : c_tasks (close_coverage o c) = c_tasks c ∧
  c_health (close_coverage o c) = (match c_phase (close_coverage o c) with Over _ => stop_server (c_health c) | _ => c_health c end).
Proof. unfold close_coverage, finish. by destruct (c_coverage c). Qed.
Lemma close_heartbeat_rest o c : c_tasks (close_heartbeat o c) = c_tasks c ∧
  c_health (close_heartbeat o c) = (match c_phase (close_heartbeat o c) with Over _ => stop_server (c_health c) | _ => c_health c end).
Proof. unfold close_heartbeat. destruct (c_heartbeat c); try apply close_coverage_rest. done. Qed.

Lemma own_events_snoc i h e : own_events i (h ++ [e]) = own_events i h ++ match concerns i e with Some o => [o] | None => [] end.
Proof. unfold own_events. rewrite omap_app. simpl. by destruct (concerns i e). Qed.

(** An event that concerns no daemon *)
Lemma tasks_snoc n h (tasks : list task) e : (∀ i, concerns i e = None) →
  (∀ i, (i < n)%nat → ∃ t, tasks !! i = Some t ∧ lived (own_events i h) t) →
  ∀ i, (i < n)%nat → ∃ t, tasks !! i = Some t ∧ lived (own_events i (h ++ [e])) t.
Proof. intros He Ht i Hi. rewrite own_events_snoc, He, app_nil_r. auto. Qed.

Lemma over_task (tasks : list task) i t : forallb is_over tasks = true → tasks !! i = Some t → is_over t = true.
Proof. intros Ho Ht. rewrite forallb_forall in Ho. apply Ho, list_elem_of_In. by apply (list_elem_of_lookup_2 _ i). Qed.
Lemma over_stuck t de : is_over t = true → task_step t de = None.
Proof. by destruct t. Qed.
Lemma cancel_over (tasks : list task) : forallb is_over tasks = true → on_cancel <$> tasks = tasks.
Proof. induction tasks as [|t l IH]; [done|]. simpl. intros [Ht Hl]%andb_true_iff. f_equal; [by destruct t|by apply IH]. Qed.

Lemma server_inv_stop health c c' : server_inv health c → (∀ o, c_phase c ≠ Over o) →
  c_health c' = (match c_phase c' with Over _ => stop_server (c_health c) | _ => c_health c end) → server_inv health c'.
Proof.
  unfold server_inv. intros Hs Hp ->. rewrite Hs. destruct health; [|by destruct (c_phase c')].
  assert (match c_phase c with Over _ => StopCalled | _ => Serving end = Serving) as -> by (destruct (c_phase c) eqn:E; try done; by destruct (Hp o)).
  by destruct (c_phase c').
Qed.

Section step.
Context {n : nat} {hb cov health : bool} {h : list event} {c : collector} (Hc : supervised n hb cov health h c).

Lemma daemon_supervised i de c' : collector_step c (Daemon i de) = Some c' → supervised n hb cov health (h ++ [Daemon i de]) c'.
Proof using Hc.
  destruct Hc as [Hl Ht Hp Hs]. simpl. destruct (c_tasks c !! i) as [t|] eqn:Hi; simpl; [|done].
  destruct (task_step t de) as [t'|] eqn:Hd; simpl; [|done]. intros [= <-].
  assert (forallb is_over (c_tasks c) = false) as Hno.
  { apply not_true_iff_false. intros Ho. by rewrite (over_stuck t de (over_task _ _ _ Ho Hi)) in Hd. }
  split; cbn [c_tasks c_phase]; [by rewrite length_insert| | |done].
  - intros j Hj. rewrite own_events_snoc. simpl. destruct (decide (j = i)) as [->|Hne].
    + rewrite list_lookup_insert_eq by lia. destruct (Ht i Hj) as (t0&Ht0&Hlv). simplify_eq.
      eexists. split; [done|]. by eapply lived_step.
    + rewrite list_lookup_insert_ne by done. rewrite app_nil_r. auto.
  - unfold phase_inv, gathered in *. cbn [c_phase c_heartbeat c_coverage c_tasks].
    destruct (c_phase c); [|by destruct Hp as [[? _] _]; congruence..].
    destruct Hp as (Hg&Hb&?&?). rewrite !elem_of_snoc. split_and!; [naive_solver..|by apply helper_up_snoc|by apply helper_up_snoc].
Qed.

Lemma cancel_supervised c' : collector_step c Cancel = Some c' → supervised n hb cov health (h ++ [Cancel]) c'.
Proof using Hc.
  destruct Hc as [Hl Ht Hp Hs]. simpl.
  assert (∀ i, (i < n)%nat → ∃ t, (on_cancel <$> c_tasks c) !! i = Some t ∧ lived (own_events i (h ++ [Cancel])) t) as Ht'.
  { intros i Hi. destruct (Ht i Hi) as (t&Hti&Hlv). exists (on_cancel t). rewrite list_lookup_fmap, Hti. split; [done|].
    rewrite own_events_snoc. by apply lived_cancel. }
  unfold phase_inv in Hp. destruct (c_phase c) eqn:E; intros [= <-].
  - split; cbn [c_tasks]; [by rewrite length_fmap|done| |unfold server_inv in *; rewrite E in Hs; done].
    destruct Hp as (Hg&Hb&?&?). unfold phase_inv. cbn [c_phase c_heartbeat c_coverage]. rewrite !elem_of_snoc.
    split_and!; [naive_solver..|by apply helper_up_snoc|by apply helper_up_snoc].
  - rewrite cancel_over in Ht' by apply Hp. split; [done..| |done].
    unfold phase_inv. rewrite E. destruct Hp as (?&?&?). auto.
  - rewrite cancel_over in Ht' by apply Hp. split; [done..| |done].
    unfold phase_inv. rewrite E. destruct Hp as (?&?&?). auto.
Qed.

Lemma gathered_supervised c' : collector_step c Gathered = Some c' → supervised n hb cov health (h ++ [Gathered]) c'.
Proof using Hc.
  destruct Hc as [Hl Ht Hp Hs]. simpl. destruct (c_phase c) as [b|o|o|o] eqn:E; [|done..].
  destruct (forallb is_over (c_tasks c)) eqn:Ho; [|done]. intros [= <-].
  unfold phase_inv in Hp. rewrite E in Hp. destruct Hp as (Hg&Hb&Hh&Hv).
  destruct (close_heartbeat_rest (if b then RaisedCancelled else Returned) c) as [Htl Hhe].
  split; [by rewrite Htl|rewrite Htl; by apply tasks_snoc| |].
  - apply close_heartbeat_phase; [|by apply helper_up_snoc|by apply helper_up_snoc].
    split; [done|]. exists h, []. split; [done|]. split; [done|]. destruct b; [left|right]; naive_solver.
  - apply (server_inv_stop _ c); [done|by rewrite E|done].
Qed.

Lemma dies_supervised name c' : collector_step c (HelperDies name) = Some c' → supervised n hb cov health (h ++ [HelperDies name]) c'.
Proof using Hc.
  destruct Hc as [Hl Ht Hp Hs]. simpl. destruct (helper_of name c) eqn:E; [done| |done..]. intros [= <-].
  assert (∀ p nm s, s = Up → helper_closed p h nm s → False) as Hcl by (unfold helper_closed; naive_solver).
  assert (∀ p nm s, s = Up → helper_closing p h nm s → False) as Hcg by (unfold helper_closing; naive_solver).
  split; [by destruct name|destruct name; by apply tasks_snoc| |by destruct name].
  unfold phase_inv in *. destruct name; cbn [set_helper helper_of c_phase c_heartbeat c_coverage c_tasks] in *; destruct (c_phase c).
  all: try (destruct Hp as (?&?&?); exfalso; eauto; fail).
  all: try (destruct Hp as (?&?&?&?); rewrite !elem_of_snoc; split_and!; [naive_solver..| |]; eauto using helper_dies; by apply helper_up_snoc).
  all: destruct Hp as (?&?&?); split_and!; [by apply gathered_snoc|by first [apply helper_closing_snoc|apply helper_closed_snoc]|by eapply helper_dies].
Qed.

Lemma closes_supervised name w c' : collector_step c (HelperCloses name w) = Some c' → supervised n hb cov health (h ++ [HelperCloses name w]) c'.
Proof using Hc.
  destruct Hc as [Hl Ht Hp Hs]. simpl.
  assert (∀ p s, s = Closing → helper_closing p h name s → helper_closed p (h ++ [HelperCloses name w]) name (Closed w)) as Hcl.
  { intros p s -> (_&->&Hd). right. split; [done|]. right. exists w. rewrite !elem_of_snoc. naive_solver. }
  destruct name, (c_phase c) as [b|o|o|o] eqn:E; try done; simpl.
  - destruct (c_heartbeat c) eqn:Eh; try done. intros [= <-].
    unfold phase_inv in Hp. rewrite E in Hp. destruct Hp as (Hg&Hh&Hv).
    destruct (close_coverage_rest o (Collector (c_tasks c) (Closed w) (c_coverage c) (c_health c) (c_phase c))) as [Htl Hhe].
    cbn [c_tasks c_health] in Htl, Hhe.
    split; [by rewrite Htl|rewrite Htl; by apply tasks_snoc| |].
    + apply close_coverage_phase; cbn [c_tasks c_heartbeat c_coverage]; [by apply gathered_snoc|by eapply Hcl|by apply helper_up_snoc].
    + apply (server_inv_stop _ c); [done|by rewrite E|done].
  - destruct (c_coverage c) eqn:Eh; try done. intros [= <-].
    unfold phase_inv in Hp. rewrite E in Hp. destruct Hp as (Hg&Hh&Hv).
    split; cbn [finish c_tasks]; [done|by apply tasks_snoc| |].
    + apply finish_phase; cbn [c_tasks c_heartbeat c_coverage]; [by apply gathered_snoc|by apply helper_closed_snoc|by eapply Hcl].
    + apply (server_inv_stop _ c); [done|by rewrite E|done].
Qed.

Lemma step_supervised e c' : collector_step c e = Some c' → supervised n hb cov health (h ++ [e]) c'.
Proof using Hc. destruct e; eauto using daemon_supervised, dies_supervised, closes_supervised, cancel_supervised, gathered_supervised. Qed.
End step.

Definition server_up (health : bool) : option (res unit) := if health then Some (Ok tt) else None.

Lemma start_up n hb cov health : (0 < n)%nat →
  start n (Ok tt) hb cov (server_up health) =
  Collector (replicate n (Running 0)) (spawned hb) (spawned cov) (if health then Serving else NoServer) (Gathering false).
Proof. intros Hn. destruct n; [lia|]. by destruct health. Qed.

Lemma run_supervised n hb cov health h c : (0 < n)%nat →
  run (start n (Ok tt) hb cov (server_up health)) h = Some c → supervised n hb cov health h c.
Proof.
  intros Hn. revert c. induction h as [|e h IH] using rev_ind; intros c.
  - rewrite start_up by done. unfold run. cbn [foldl]. intros [= <-].
    assert (∀ p name, helper_up p [] name (spawned p)) as Hsp by (intros [] name; [right|left]; set_solver).
    split; cbn [c_tasks]; [by rewrite length_replicate| | |by destruct health].
    + intros i Hi. exists (Running 0). split; [by apply lookup_replicate_2|]. split; [done..|set_solver].
    + unfold phase_inv. cbn [c_phase c_heartbeat c_coverage]. split_and!; [set_solver..|apply Hsp|apply Hsp].
  - rewrite run_snoc. destruct (run _ h) as [c0|]; simpl; [|done]. intros Hs. eapply step_supervised; [by apply IH|done].
Qed.

(** What [lived] says of a task that is asleep *)
Lemma lived_due l t now : lived l t →
  is_Some (task_step t (Starts now)) ↔
  ∃ failed, last l = Some (Some (Fails failed)) ∧ failed + backoff (length (failure_times l)) <= now.
Proof.
  intros [Ha Hl _]. split.
  - destruct t as [a|a|a until| |]; cbn [task_step]; try by intros [? [=]]. destruct Ha as (Ha&failed&Hf&Hu).
    destruct (Z.leb_spec until now); [|by intros [? [=]]]. intros _. exists failed. split; [done|]. rewrite <- Ha. lia.
  - intros (failed&Hf&Hle). destruct (Hl _ Hf) as (a&until&->). destruct Ha as (Ha&failed'&Hf'&Hu).
    rewrite <- Ha in Hle. simplify_eq. cbn [task_step]. rewrite (proj2 (Z.leb_le _ _)) by done. eauto.
Qed.

(** The task of a daemon, replayed from the events that concern it alone *)
Definition replay (l : list (option daemon_event)) : task :=
  foldl (λ t o, match o with Some de => default t (task_step t de) | None => on_cancel t end) (Running 0) l.

Lemma replay_snoc l o : replay (l ++ [o]) = match o with Some de => default (replay l) (task_step (replay l) de) | None => on_cancel (replay l) end.
Proof. unfold replay. by rewrite foldl_app. Qed.

Lemma run_replay n hb cov health h c i : (i < n)%nat →
  run (start n (Ok tt) hb cov (server_up health)) h = Some c → c_tasks c !! i = Some (replay (own_events i h)).
Proof.
  intros Hi. assert (0 < n)%nat as Hn by lia. revert c. induction h as [|e h IH] using rev_ind; intros c.
  - rewrite start_up by done. unfold run. cbn [foldl]. intros [= <-]. by apply lookup_replicate_2.
  - rewrite run_snoc, own_events_snoc. destruct (run _ h) as [c0|] eqn:Hr; simpl; [|done]. intros Hs.
    specialize (IH c0 eq_refl). destruct (run_supervised _ _ _ _ _ _ Hn Hr) as [_ _ Hp _].
    destruct e as [j de|name|name w| |]; simpl in Hs |- *; rewrite ?app_nil_r.
    + destruct (c_tasks c0 !! j) as [t|] eqn:Hj; [|done]. simpl in Hs.
      destruct (task_step t de) as [t'|] eqn:Hd; [|done]. simpl in Hs. simplify_eq. cbn [c_tasks].
      destruct (decide (i = j)) as [->|Hne].
      * rewrite list_lookup_insert_eq by (by eapply lookup_lt_Some). rewrite replay_snoc. simplify_eq. by rewrite Hd.
      * by rewrite list_lookup_insert_ne, app_nil_r.
    + destruct (helper_of name c0); simplify_eq. by destruct name.
    + repeat case_match; simplify_eq; [by rewrite (proj1 (close_coverage_rest _ _))|done].
    + rewrite replay_snoc. unfold phase_inv in Hp. destruct (c_phase c0); simplify_eq; cbn [c_tasks].
      * by rewrite list_lookup_fmap, IH.
      * rewrite IH. f_equal. assert (is_over (replay (own_events i h)) = true) by (eapply over_task; [apply Hp|done]). by destruct (replay _).
      * rewrite IH. f_equal. assert (is_over (replay (own_events i h)) = true) by (eapply over_task; [apply Hp|done]). by destruct (replay _).
    + repeat case_match; simplify_eq; by rewrite (proj1 (close_heartbeat_rest _ _)).
Qed.

Lemma own_event_elem i h de : Some de ∈ own_events i h ↔ Daemon i de ∈ h.
Proof.
  unfold own_events. rewrite list_elem_of_omap. split.
  - intros (e&He&Hc). destruct e; simpl in Hc; try case_decide; by simplify_eq.
  - intros He. exists (Daemon i de). split; [done|]. simpl. by rewrite decide_True.
Qed.

(** The event that takes a collector on: of a daemon, of [gather], or of a
    helper that was cancelled *)
Definition advances (e : event) : Prop :=
  match e with Daemon _ _ | Gathered | HelperCloses _ _ => True | Cancel | HelperDies _ => False end.

Lemma supervised_progress n hb cov health h c : supervised n hb cov health h c →
  (∃ o, c_phase c = Over o) ∨ ∃ e, advances e ∧ is_Some (collector_step c e).
Proof.
  intros [Hl Ht Hp _]. unfold phase_inv in Hp. destruct (c_phase c) as [b|o|o|o] eqn:E; [|right..|by eauto].
  - right. destruct (forallb is_over (c_tasks c)) eqn:Ho.
    + exists Gathered. split; [done|]. simpl. rewrite E, Ho. eauto.
    + destruct (decide (Exists (λ t, is_over t = false) (c_tasks c))) as [(t&[i Hi]%list_elem_of_lookup&Hf)%Exists_exists|Hno].
      * assert (∃ de, is_Some (task_step t de)) as (de&t'&Hd).
        { destruct t as [a|a|a until| |]; try done; [exists Returns; simpl; eauto..|].
          exists (Starts until). simpl. rewrite Z.leb_refl. eauto. }
        exists (Daemon i de). split; [done|]. simpl. rewrite Hi. simpl. rewrite Hd. simpl. eauto.
      * exfalso. apply not_true_iff_false in Ho. apply Ho. rewrite forallb_forall. intros t Hin%list_elem_of_In.
        destruct (is_over t) eqn:Et; [done|]. destruct Hno. apply Exists_exists. eauto.
  - destruct Hp as (_&(Hs&_)&_). exists (HelperCloses HeartbeatTask (Ok tt)). split; [done|]. simpl. rewrite E, Hs. eauto.
  - destruct Hp as (_&_&(Hs&_)). exists (HelperCloses CoverageTask (Ok tt)). split; [done|]. simpl. rewrite E, Hs. eauto.
Qed.

(** C31.  Supervision isolates the symbols.  After any events that can happen
    to a collector of at least one daemon:
    - the task of a daemon is the same as after any other events, of a collector
      of any other daemons and helpers, with the same returns, failures,
      restarts and cancellations of that daemon;
    - a daemon is entered again exactly if the last thing that happened to it
      is a failure, and only once five seconds, thirty, then two minutes from
      it have passed, by the number of its own failures; the return of [run]
      without an error is for good;
    - while the daemons run, each helper that was asked for runs unless it has
      died, which changes nothing else;
    - [run] ends after every daemon's task is over, with [CancelledError] if it
      was cancelled before that and normally otherwise, and by then each helper
      has died by itself or was cancelled and made its final write, and the
      health server was stopped;
    - as long as it has not ended something can happen that takes it on. *)
Theorem supervision_isolates_symbols (n : nat) (heartbeat coverage health : bool) (h : list event) (c : collector) :
  (0 < n)%nat → run (start n (Ok tt) heartbeat coverage (server_up health)) h = Some c →
  (∀ i n' heartbeat' coverage' health' h' c', (i < n)%nat → (i < n')%nat →
     run (start n' (Ok tt) heartbeat' coverage' (server_up health')) h' = Some c' →
     own_events i h = own_events i h' → c_tasks c !! i = c_tasks c' !! i) ∧
  (∀ i now, (i < n)%nat →
     (is_Some (collector_step c (Daemon i (Starts now))) ↔
      ∃ failed, last (own_events i h) = Some (Some (Fails failed)) ∧
        failed + backoff (length (failure_times (own_events i h))) <= now) ∧
     (c_tasks c !! i = Some Done ↔ Daemon i Returns ∈ h)) ∧
  (∀ cancelled, c_phase c = Gathering cancelled →
     helper_up heartbeat h HeartbeatTask (c_heartbeat c) ∧ helper_up coverage h CoverageTask (c_coverage c) ∧
     c_health c = if health then Serving else NoServer) ∧
  (∀ o, c_phase c = Over o →
     gathered h o (c_tasks c) ∧
     helper_closed heartbeat h HeartbeatTask (c_heartbeat c) ∧ helper_closed coverage h CoverageTask (c_coverage c) ∧
     c_health c = if health then StopCalled else NoServer) ∧
  ((∃ o, c_phase c = Over o) ∨ ∃ e, advances e ∧ is_Some (collector_step c e)).
Proof.
  intros Hn Hr. pose proof (run_supervised _ _ _ _ _ _ Hn Hr) as Hsu. pose proof Hsu as [Hl Ht Hp Hs].
  unfold phase_inv, server_inv in *. split_and!.
  - intros i n' hb' cov' he' h' c' Hi Hi' Hr' Heq.
    by rewrite (run_replay _ _ _ _ _ _ i Hi Hr), (run_replay _ _ _ _ _ _ i Hi' Hr'), Heq.
  - intros i now Hi. destruct (Ht i Hi) as (t&Hti&Hlv). rewrite <- (lived_due _ _ now Hlv), <- own_event_elem, <- (lv_done _ _ Hlv).
    cbn [collector_step]. rewrite Hti. simpl. split; [|naive_solver].
    destruct (task_step t (Starts now)); simpl; split; intros [? [=]]; eauto.
  - intros b E. rewrite E in *. naive_solver.
  - intros o E. rewrite E in *. naive_solver.
  - by eapply supervised_progress.
Qed.

(** Three daemons: the first returns, the second fails twice and waits, the
    coverage task dies; the collector is cancelled, the third daemon ends. *)
Definition sample_history : list event :=
  [Daemon 1 (Fails 100); HelperDies CoverageTask; Daemon 0 Returns; Daemon 1 (Starts 5000100); Daemon 1 (Fails 6000000)].

Lemma supervision_isolates_symbols_witness :
  ∃ c c', run (start 3 (Ok tt) true true (server_up true)) sample_history = Some c ∧
  run (start 3 (Ok tt) true true (server_up true)) (sample_history ++ [Cancel; Daemon 2 Ends; Gathered; HelperCloses HeartbeatTask (Ok tt)]) = Some c' ∧
  c_phase c = Gathering false ∧ c_phase c' = Over RaisedCancelled ∧
  ¬ is_Some (collector_step c (Daemon 1 (Starts 35999999))) ∧ is_Some (collector_step c (Daemon 1 (Starts 36000000))) ∧
  c_coverage c = Died ∧ c_health c = Serving ∧ c_health c' = StopCalled.
Proof.
  eexists _, _. split; [vm_compute; reflexivity|]. split; [vm_compute; reflexivity|].
  split; [reflexivity|]. split; [reflexivity|].
  edestruct (supervision_isolates_symbols 3 true true true sample_history) as (_&H2&H3&_&_); [lia|vm_compute; reflexivity|].
  edestruct (supervision_isolates_symbols 3 true true true (sample_history ++ [Cancel; Daemon 2 Ends; Gathered; HelperCloses HeartbeatTask (Ok tt)])) as (_&_&_&H4&_);
    [lia|vm_compute; reflexivity|].
  split; [|split; [|split; [reflexivity|split; [by apply (H3 false)|by apply (H4 RaisedCancelled)]]]].
  - rewrite (proj1 (H2 1%nat 35999999 ltac:(lia))). intros (f&Hf&Hle). vm_compute in Hf. injection Hf as <-. vm_compute in Hle. by apply Hle.
  - apply (proj1 (H2 1%nat 36000000 ltac:(lia))). exists 6000000. split; [vm_compute; reflexivity|vm_compute; discriminate].
Defined.

(** A health server whose port is taken ends the collector before any daemon
    has started, and does not stop the heartbeat it has spawned: that is left to
    the end of the event loop. *)
Example taken_port_leaves_heartbeat :
  let c := start 3 (Ok tt) true true (Some (Raise OSErrorOther)) in
  c_phase c = Over (RaisedError OSErrorOther) ∧ c_tasks c = [] ∧ c_heartbeat c = Up ∧ c_coverage c = Up.
Proof. vm_compute. auto. Qed.

(** A daemon whose closing fails while it is cancelled is restarted like any
    other: the collector that was cancelled runs on, and [d.cancel()], which
    would end the daemon at its next message, is called only when every daemon is over. *)
Example failed_closing_survives_cancellation :
  ∃ c, run (start 2 (Ok tt) true true None) [Cancel; Daemon 0 Ends; Daemon 1 (Fails 100); Daemon 1 (Starts 5000100)] = Some c ∧
  c_phase c = Gathering true ∧ c_tasks c !! 1%nat = Some (Running 1) ∧ collector_step c Gathered = None ∧ c_heartbeat c = Up.
Proof. eexists. split; [vm_compute; reflexivity|]. vm_compute. auto. Qed.
